(* ===== verification/_CoqProject ===== *)
-Q . S2P
Prelude.v
Script.v
Interpreter.v
ScriptProofs.v
InterpreterSafe.v
InterpreterThms.v
ScFixedHash.v
ScSha3.v
ScSha3Spec.v
ScInstruction.v
ScVm.v
ScVmLogic.v
ScVmArith.v
ScVmSafe.v
ScVmCalls.v
ScVmOpt.v
ScVmRun.v
ScVmSim.v
ScRlp.v
ScRlpWrite.v
ScRlpRead.v
ScRlpFields.v
ScTransaction.v
ScDb.v
ScTrie.v
ScTrieKeys.v
ScTrieSpec.v
ScTrieNode.v
ScTrieInsert.v
ScTrieMap.v
ScTrieFlat.v
ScTrieDelete.v
ScTrieThms.v
ScState.v
ScStateView.v
ScVersions.v
ScStateOps.v
ScStateRun.v
ScCommit.v
ScExtVm.v
ScExecutive.v
ScFace.v
ScVmThms.v
ScExecutiveRun.v
ScExecutiveThms.v
ScFaceThms.v
Coins.v
CoinsThms.v
Chain.v
ChainThms.v
ChainHeaders.v
ChainLoad.v
VersionBits.v
VersionBitsThms.v
Merkle.v
MerkleThms.v
TxSerialize.v
TxSerializeThms.v
SigHash.v
SigHashThms.v
TxVerify.v
TxVerifyThms.v
BlockCheck.v
Undo.v
UndoThms.v
Connect.v
ConnectCoins.v
ConnectThms.v
