(* ===== verification/Prelude.v ===== *)
(** * Verification of the Ybtc node: contracts, scripts and chain state

    Ybtc is a node derived from Bitcoin Core to which an engine for contracts in
    the style of Ethereum was added.  A transaction output whose script ends in
    [OP_CREATE] or [OP_CALL] carries the fields of a contract transaction; the
    engine reads them off the script stack, runs the contract's code on a
    stack machine with gas, and keeps accounts, code and storage in tries whose
    root identifies the state.  This development models the engine
    ([src/src/sc*.h], [src/src/sc*.cpp]), the script layer under it
    ([src/src/script/]), and the part of the node that decides which chain is
    valid: headers, transactions, coins, blocks and their undo records.  It proves
    them correct, or shows exactly where they are not.

    ** The parts, the files, the code

    - [Prelude]: machine integers as [Z] with [wrap w]; the outcomes of a C++
      function ([outcome]: return, exception, failed assertion, undefined
      behaviour, [exit]); the state-and-exception monad [SE], in which the state
      survives a throw; bytes and byte strings; the tactics and hints.
    - [Script], [ScriptProofs]: opcodes, [CScriptNum], [CScript]
      ([script/script.h], [script/script.cpp]).
    - [Interpreter], [InterpreterSafe], [InterpreterThms]: [EvalScript] with one
      definition per opcode, the encoding checks, [VerifyScript] and the witness
      programs ([script/interpreter.cpp]).  The hash functions and the curve are
      the class [ScriptCrypto], the signature checker an argument, so the theorems
      hold for every checker.
    - [ScFixedHash]: [FixedHash<N>], big-endian conversion, [vector_ref]
      ([scfixedhash.h], [sccommon.*]).
    - [ScSha3], [ScSha3Spec]: Keccak as the macros of [scsha3.h] write it, and
      Keccak-256 as the standard defines it.
    - [ScInstruction], [ScVm]: the instruction tables and [class VM] ([scvm.h],
      [scvm.cpp]).  [ScVm.VM] is the object, [step] one turn of
      [interpretCases], [case_X] and [op_X] the block [CASE(X)], [trampoline]
      the bounce loop of [exec].  What the machine calls in its context is the
      class [ExtVMOps]; what it relies on there is [ExtVMLaws].  [ScVmLogic] has
      the program logic of the monad, [ScVmArith] the arithmetic, [ScVmSafe] and
      [ScVmCalls] the invariant of a run, [ScVmOpt], [ScVmRun] and [ScVmSim] the
      optimiser and the simulation between optimised and plain code, [ScVmThms]
      the theorems.
    - [ScRlp], [ScRlpWrite], [ScRlpRead], [ScRlpFields]: [class RLP] and
      [class RLPStream] ([scrlp.h], [scrlp.cpp]) against a reference encoding
      of nested lists.
    - [ScTransaction]: [TransactionBase] ([sctransaction.h], [sctransaction.cpp]).
    - [ScDb]: [MemoryDB] and [OverlayDB] ([scdb.h], [scdb.cpp]): nodes under their
      hashes with reference counts, over a LevelDB map.
    - [ScTrie]: nibble slices, the hex-prefix encoding, [GenericTrieDB] and
      [FatGenericTrieDB] ([scdb.h], [scdb.cpp]): every node operation, on the RLP
      bytes of the nodes.  [ScTrieKeys] relates slices to lists of nibbles,
      [ScTrieSpec] defines the tree the nodes form ([trie]) with its encoding
      [enc], [ScTrieNode] has the program logic ([runs]), [ScTrieInsert] and
      [ScTrieDelete] prove [mergeAt], [atAux] and [deleteAt] against the tree,
      [ScTrieMap] and [ScTrieFlat] prove that the tree is a map in canonical form,
      [ScTrieThms] has the theorems.
    - [ScState]: [class Account] and [class State] ([scaccount.h], [scstate.h],
      [scstate.cpp]).  The tries below it are the class [TrieDB] with
      the laws [TrieLaws], stated for a store that holds any key and value it has
      room for; [ScVersions] is an instance of both, in which the theorems'
      witnesses run.  [GenericTrieDB] keeps the same laws only as long as the hash
      function shows no collision, so [ScTrieThms] states them for it under that
      condition rather than as an instance.  [ScStateView] gives the abstract accounts a state
      stands for ([view]) and the invariant [state_ok]; [ScStateOps] proves each
      operation against them; [ScStateRun] and [ScCommit] have the theorems.
    - [ScExtVm]: [class ExtVM] over [State], discharging [ExtVMLaws].
    - [ScExecutive], [ScExecutiveRun], [ScExecutiveThms]: [class Executive] and
      [State::execute] ([scexecutive.*], [scstate.cpp]).
    - [ScFace], [ScFaceThms]: [SmartContract] ([scface.cpp]), [CheckContractTx] and
      [CallContract] ([validation.cpp]) and the contract scripts of the wallet: the
      interpreter, the executive and the state put together.
    - [Coins], [CoinsThms]: [Coin], the views [CCoinsView], [CCoinsViewCache] and
      [CCoinsViewDB] ([coins.h], [coins.cpp], [txdb.cpp]).  A view is the class
      [CCoinsView]; [CCoinsViewLaws] is what a cache relies on in the view below
      it, and the database discharges it.
    - [Chain]: [CBlockIndex], [CChain], the acceptance of headers and the records
      of the index on disk ([chain.h], [chain.cpp], [validation.cpp], [txdb.cpp]);
      an entry is found in an [Index] by its pointer.  [ChainThms] has the invariant
      and the skip list, [ChainHeaders] the theorems, [ChainLoad] what loading does.
    - [VersionBits], [VersionBitsThms]: soft forks ([versionbits.cpp]).
    - [Merkle], [MerkleThms]: [consensus/merkle.cpp].
    - [TxSerialize], [TxSerializeThms]: how transactions are written and read
      ([serialize.h], [primitives/transaction.h]).
    - [SigHash], [SigHashThms]: [SignatureHash] and
      [TransactionSignatureChecker] ([script/interpreter.cpp]), the checker with
      which the interpreter verifies the inputs of a transaction.
    - [TxVerify], [TxVerifyThms]: [consensus/tx_verify.cpp].
    - [BlockCheck]: [CheckBlock], [ContextualCheckBlock], [GetBlockScriptFlags],
      [GetBlockSubsidy] ([validation.cpp]).
    - [Undo], [UndoThms]: compressed coins and the undo files ([compressor.cpp],
      [undo.h], [validation.cpp]).
    - [Connect]: [CheckInputs], [ConnectBlock], [DisconnectBlock]
      ([validation.cpp]) on the state of a node, [Node], which puts the coins, the
      index, the version bits, the contract state and the undo files together.
      [ConnectCoins] says what the loops do to the set of coins, [ConnectThms] has
      the theorems.

    ** What is shown

    - The machine: a run ends within a bound given by its gas and never leaves
      the stack, the memory, the code or the constant pool; the optimiser is
      transparent but for one case; memory is charged exactly; the arithmetic
      instructions compute what they name.
    - The state: an abstract map of accounts is refined by the caches, change
      log and tries; the operations the engine makes keep the invariant, and
      [rollback] undoes any run of them (storage is written at accounts that are in
      use; the theorems say what else is assumed); [commit] loses nothing;
      [setRoot] reopens a state.
    - The executive: a call or creation of metered code settles as specified,
      throws when it cannot be paid, or ends the process; a contract changes only
      its own storage.
    - RLP: writer and reader against the reference encoding, round trip,
      canonicity, agreement of the three ways to walk a list.
    - The tries: a sequence of insertions and removals makes the map it says, the
      root is a function of the contents and tells them apart, older roots stay
      readable; [commit] moves the nodes in use to disk.
    - Keccak-256 equals the standard's function.
    - Scripts: numbers have one encoding, scripts parse into the instructions
      they were built from.
    - The interpreter: [EvalScript] ends on every script with a result and never
      throws; [OP_CHECKMULTISIG] accepts exactly the signatures that match keys in
      order; a pay-to-key-hash output is spent by its key only.
    - Contract outputs: the fields a wallet writes are the fields the engine reads;
      a call output settles end to end; one that cannot be paid changes nothing.
    - Coins: the cache is a map of unspent outputs; flushing it writes through; a
      crash in the middle of writing the coins to disk loses nothing, and writing is
      eventually done.
    - The chain: whatever headers arrive, the index stays a tree with correct
      heights, work and skip list; the active chain follows its tip; the state of a
      deployment is what its definition says; the Merkle root commits to the
      transactions.
    - Transactions: reading returns what was written and, of any bytes, a
      transaction within its bounds or an exception; a signature of all inputs and
      outputs commits to them; the lock times a script asks for are kept by the
      chain; the checks of the inputs accept exactly what is covered.
    - Blocks: one that is accepted creates no more than its subsidy; disconnecting
      it gives the coins, the best block and the contract state of its parent back,
      from the undo record on disk.
    - Several theorems state what the code does where that is not what it means
      to do: an error in a contract exits the process, a plain transfer reads a
      null pointer, unspent gas is credited though never paid, a contract output is
      spent by anyone, a short one reads an empty stack.

    ** Bounds

    Loops that are not structural take a number of iterations: [exec] is given
    [2 * gas + 4] turns of the bounce loop, which suffices since every second
    turn pays gas; the RLP loops take the length of the data, which they
    shorten; [magnitude] takes the eight bytes of an integer; loops over scripts
    take the length of the script; the recursions over a trie take the nibbles of
    the key, of which each level uses one, and [mergeAt] five more calls where a
    node is split.  A script is read in at most seven pieces of 5000000 bytes,
    which hold [MAX_SIZE]; a variable-length integer in at most eleven bytes; the
    Merkle loop has 32 levels; walks along the index take its height.  Where such a
    bound could matter the theorems prove that the result is not [Diverge].

    ** Not modelled

    The iterators, the structure printer and the leftover check of the tries and
    the functions [hash256] ([scdb.h], [scdb.cpp]), which the engine does not call;
    whether the reference counts of a trie are exact; the choice of the best chain
    and the memory pool ([ActivateBestChain], [AcceptToMemoryPool] in
    [validation.cpp]), the block files, mining, wallet, network and RPC, which are
    input and output around these parts; the caches of signatures, which remember
    results; [CheckCasino], which accepts every header; LevelDB, secp256k1 and
    UniValue, which are other projects' code: the hash functions and the curve are
    parameters. *)

From stdpp Require Export base gmap list strings numbers.
From Stdlib Require Export ZArith Lia.

#[export] Set Default Goal Selector "!".
Global Open Scope Z_scope.

(** ** Machine integers

    An unsigned [w]-bit C++ integer is a [Z] in [0, 2^w); arithmetic that the
    source performs at width [w] is written with [wrap w]. *)
Definition wrap (w x : Z) : Z := x mod 2 ^ w.

Abbreviation u8 := (wrap 8).
Abbreviation u32 := (wrap 32).
Abbreviation u64 := (wrap 64).
Abbreviation u160 := (wrap 160).
Abbreviation u256 := (wrap 256).
Abbreviation u512 := (wrap 512).

Definition in_range (w x : Z) : Prop := 0 <= x < 2 ^ w.

Lemma wrap_range w x : 0 <= w -> in_range w (wrap w x).
Proof. intros. unfold in_range, wrap. apply Z.mod_pos_bound. lia. Qed.

Lemma wrap_small w x : in_range w x -> wrap w x = x.
Proof. intros. unfold wrap. by apply Z.mod_small. Qed.

Lemma wrap_wrap w x : wrap w (wrap w x) = wrap w x.
Proof. unfold wrap. apply Zmod_mod. Qed.

Lemma wrap_narrow v w x : 0 <= v <= w -> wrap v (wrap w x) = wrap v x.
Proof.
  intros. unfold wrap. apply Z.mod_mod_divide.
  exists (2 ^ (w - v)). rewrite <- Z.pow_add_r by lia. f_equal. lia.
Qed.

(** ** Outcomes

    Every fallible operation of the source ends in one of these ways.  All
    exceptions the modelled code throws are [std::range_error]s raised with
    [BOOST_THROW_EXCEPTION], so they are told apart by their message. *)
Inductive outcome (A : Type) : Type :=
| Ok (a : A)              (** normal return *)
| Throw (what : string)   (** an exception with this message propagates *)
| Assertion (what : string)  (** a failed [assert]: the process is aborted *)
| Undef (what : string)   (** the C++ program has no defined behaviour *)
| Exit (code : Z)         (** [exit(code)] was called *)
| Diverge.                (** the iteration bound of the model ran out *)
Arguments Ok {A} a.
Arguments Throw {A} what.
Arguments Assertion {A} what.
Arguments Undef {A} what.
Arguments Exit {A} code.
Arguments Diverge {A}.

(** A result that is not a normal return carries no value, so it can be
    retyped. *)
Definition recast {A B} (r : outcome A) : outcome B :=
  match r with
  | Ok _ => Diverge
  | Throw w => Throw w
  | Assertion w => Assertion w
  | Undef w => Undef w
  | Exit c => Exit c
  | Diverge => Diverge
  end.

Definition is_ok {A} (r : outcome A) : bool :=
  match r with Ok _ => true | _ => false end.

#[export] Instance outcome_ret : MRet outcome := fun A a => Ok a.
#[export] Instance outcome_bind : MBind outcome := fun A B k m =>
  match m with Ok a => k a | r => recast r end.

(** ** State and exceptions

    [SE S A] is a computation on a mutable object of type [S]: the state it
    leaves is observable also when it throws, as in C++. *)
Definition SE (S A : Type) : Type := S -> outcome A * S.

Section StateError.
Context {S : Type}.

#[global] Instance SE_ret : MRet (SE S) := fun A a s => (Ok a, s).
#[global] Instance SE_bind : MBind (SE S) := fun A B k m s =>
  match m s with
  | (Ok a, s') => k a s'
  | (r, s') => (recast r, s')
  end.

Definition fail {A} (r : outcome A) : SE S A := fun s => (r, s).
Definition throw {A} (what : string) : SE S A := fail (Throw what).
Definition undef {A} (what : string) : SE S A := fail (Undef what).
Definition assertion (b : bool) (what : string) : SE S unit :=
  if b then mret tt else fail (Assertion what).
Definition gets {A} (f : S -> A) : SE S A := fun s => (Ok (f s), s).
Definition modify (f : S -> S) : SE S unit := fun s => (Ok tt, f s).
Definition lift_outcome {A} (r : outcome A) : SE S A := fun s => (r, s).
Definition when (b : bool) (m : SE S unit) : SE S unit :=
  if b then m else mret tt.
End StateError.

(** Running the first half of a sequence. *)
Lemma SE_bind_ok {S A B} (m : SE S A) (k : A -> SE S B) s a s' :
  m s = (Ok a, s') -> (m ≫= k) s = k a s'.
Proof. intros H. unfold mbind, SE_bind. by rewrite H. Qed.
Lemma SE_bind_inv {S A B} (m : SE S A) (k : A -> SE S B) (s : S) b t :
  (m ≫= k) s = (Ok b, t) -> exists a (s1 : S), m s = (Ok a, s1) /\ k a s1 = (Ok b, t).
Proof. unfold mbind, SE_bind. destruct (m s) as [[] s1]; simpl; try discriminate. eauto. Qed.

(** Running a computation on one component of a larger state. *)
Definition zoom {S T A} (get : S -> T) (put : T -> S -> S) (m : SE T A) : SE S A :=
  fun s => let (r, t) := m (get s) in (r, put t s).

(** ** Bytes

    [sc::byte] is [uint8_t] and [sc::bytes] a vector of them.  A
    [vector_ref<byte const>] is modelled by the bytes it refers to: a null
    reference and an empty one answer every operation alike. *)
Abbreviation byte := Z (only parsing).
Abbreviation bytes := (list Z) (only parsing).

Definition is_byte (b : Z) : Prop := 0 <= b < 256.
Definition bytes_ok (l : bytes) : Prop := Forall is_byte l.

Abbreviation size l := (Z.of_nat (length l)).

Lemma bytes_ok_app l1 l2 : bytes_ok (l1 ++ l2) <-> bytes_ok l1 /\ bytes_ok l2.
Proof. apply Forall_app. Qed.
Lemma bytes_ok_cons b l : bytes_ok (b :: l) <-> is_byte b /\ bytes_ok l.
Proof. apply Forall_cons_iff. Qed.
Lemma bytes_ok_take n l : bytes_ok l -> bytes_ok (take n l).
Proof. apply Forall_take. Qed.
Lemma bytes_ok_drop n l : bytes_ok l -> bytes_ok (drop n l).
Proof. apply Forall_drop. Qed.
Lemma bytes_ok_replicate n b : is_byte b -> bytes_ok (replicate n b).
Proof. intros. by apply Forall_replicate. Qed.

(** Concrete byte strings are checked by evaluation. *)
Lemma bytes_ok_check l : forallb (fun b => (0 <=? b) && (b <? 256)) l = true -> bytes_ok l.
Proof.
  rewrite forallb_forall. intros H. apply List.Forall_forall. intros b Hb. specialize (H b Hb).
  unfold is_byte. apply andb_true_iff in H as [?%Z.leb_le ?%Z.ltb_lt]. done.
Qed.

Lemma land_255 x : Z.land x 255 = x mod 256.
Proof. change 255 with (Z.ones 8). by rewrite Z.land_ones. Qed.
Lemma shiftr_8 x : Z.shiftr x 8 = x / 256.
Proof. by rewrite Z.shiftr_div_pow2. Qed.
Lemma shiftl_8 x : Z.shiftl x 8 = x * 256.
Proof. by rewrite Z.shiftl_mul_pow2. Qed.

(** Or-ing a byte into the eight low bits a shift has cleared is an addition. *)
Lemma lor_byte x b : is_byte b -> Z.lor (Z.shiftl x 8) b = x * 256 + b.
Proof.
  intros Hb. unfold is_byte in Hb. rewrite <- shiftl_8. symmetry.
  rewrite Z.add_nocarry_lxor, Z.lxor_lor; auto.
  all: apply Z.bits_inj'; intros n Hn; rewrite Z.land_spec, Z.bits_0.
  all: destruct (Z.lt_ge_cases n 8).
  all: try (rewrite Z.shiftl_spec_low by lia; done).
  all: rewrite (Z.bits_above_log2 b n), andb_false_r; try done; try lia.
  all: destruct (Z.eq_dec b 0) as [->|]; [simpl; lia|].
  all: assert (Z.log2 b < 8); [apply Z.log2_lt_pow2; lia|lia].
Qed.

Lemma is_byte_mod x : is_byte (x mod 256).
Proof. unfold is_byte. apply Z.mod_pos_bound. lia. Qed.

(** ** Weakest preconditions of computations with state and exceptions

    [wp m Q E s]: run on [s], [m] returns normally with [Q] or stops in another
    way with [E]. *)
Definition wp {S A} (m : SE S A) (Q : A -> S -> Prop) (E : outcome unit -> S -> Prop)
    (s : S) : Prop :=
  match m s with
  | (Ok a, s') => Q a s'
  | (r, s') => E (recast r) s'
  end.

Section WP.
Context {S : Type}.
Implicit Types (s : S) (E : outcome unit -> S -> Prop).

Lemma wp_bind {A B} (m : SE S A) (k : A -> SE S B) Q E s :
  wp m (fun a s' => wp (k a) Q E s') E s -> wp (m ≫= k) Q E s.
Proof. unfold wp, mbind, SE_bind. by destruct (m s) as [[] ?]. Qed.

Lemma wp_ret {A} (a : A) Q E s : Q a s -> wp (mret a) Q E s.
Proof. done. Qed.
Lemma wp_gets {A} (f : S -> A) Q E s : Q (f s) s -> wp (gets f) Q E s.
Proof. done. Qed.
Lemma wp_modify f Q E s : Q tt (f s) -> wp (modify f) Q E s.
Proof. done. Qed.
Lemma wp_throw {A} w Q E s : E (Throw w) s -> wp (@throw S A w) Q E s.
Proof. done. Qed.
Lemma wp_fail_diverge {A} Q E s : E Diverge s -> wp (@fail S A Diverge) Q E s.
Proof. done. Qed.
Lemma wp_when (b : bool) (m : SE S unit) Q E s :
  (b = true -> wp m Q E s) -> (b = false -> Q tt s) -> wp (when b m) Q E s.
Proof. destruct b; intros H1 H2; [by apply H1|by apply H2]. Qed.

Lemma wp_mono {A} (m : SE S A) (Q Q' : A -> S -> Prop) E E' s :
  wp m Q E s -> (forall a s', Q a s' -> Q' a s') -> (forall r s', E r s' -> E' r s') ->
  wp m Q' E' s.
Proof. unfold wp. destruct (m s) as [[] ?]; eauto. Qed.

(** Sequencing through an intermediate assertion. *)
Lemma wp_seq {A B} (P : A -> S -> Prop) (m : SE S A) (k : A -> SE S B) Q E s :
  wp m P E s -> (forall a s', P a s' -> wp (k a) Q E s') -> wp (m ≫= k) Q E s.
Proof. intros Hm Hk. apply wp_bind. eapply wp_mono; eauto. Qed.

(** What a proved [wp] says of a run. *)
Lemma wp_run {A} (m : SE S A) Q E s r s' :
  wp m Q E s -> m s = (r, s') ->
  match r with Ok a => Q a s' | _ => E (recast r) s' end.
Proof. unfold wp. intros H Hr. rewrite Hr in H. by destruct r. Qed.
End WP.

Lemma wp_zoom {S T A} (get : S -> T) put (m : SE T A) (Q : A -> S -> Prop) E s :
  wp m (fun a t => Q a (put t s)) (fun r t => E r (put t s)) (get s) ->
  wp (zoom get put m) Q E s.
Proof. unfold wp, zoom. by destruct (m (get s)) as [[] ?]. Qed.

(** ** Bit operations keep the width *)
Lemma in_range_mono v w x : 0 <= v <= w -> in_range v x -> in_range w x.
Proof. intros Hvw [? ?]. split; [done|]. pose proof (Z.pow_le_mono_r 2 v w). lia. Qed.

Lemma in_range_ones w x : 0 <= w -> in_range w x <-> Z.land x (Z.ones w) = x.
Proof.
  intros. rewrite Z.land_ones by lia. unfold in_range. split.
  - apply Z.mod_small.
  - intros <-. apply Z.mod_pos_bound. lia.
Qed.

Lemma in_range_land w x y : 0 <= w -> in_range w x -> in_range w (Z.land x y).
Proof.
  intros Hw. rewrite !in_range_ones by done. intros Hx.
  by rewrite <- Z.land_assoc, (Z.land_comm y), Z.land_assoc, Hx.
Qed.
Lemma in_range_lor w x y : 0 <= w -> in_range w x -> in_range w y -> in_range w (Z.lor x y).
Proof.
  intros Hw. rewrite !in_range_ones by done. intros Hx Hy.
  by rewrite Z.land_lor_distr_l, Hx, Hy.
Qed.
Lemma in_range_lxor w x y : 0 <= w -> in_range w x -> in_range w y -> in_range w (Z.lxor x y).
Proof.
  intros Hw. rewrite !in_range_ones by done. intros Hx Hy.
  apply Z.bits_inj'. intros n Hn. rewrite Z.land_spec, Z.lxor_spec.
  rewrite <- Hx at 2. rewrite <- Hy at 2. rewrite !Z.land_spec.
  destruct (Z.testbit x n), (Z.testbit y n), (Z.testbit (Z.ones w) n); done.
Qed.

(** ** Sorted tables *)
Lemma nth_lookup_Some {A} (l : list A) i d x : l !! i = Some x -> nth i l d = x.
Proof. intros H. by rewrite nth_lookup, H. Qed.

(** ** Indexing with integers *)
Definition nthz (l : list Z) (i : Z) : Z := nth (Z.to_nat i) l 0.

Lemma nthz_lookup l i : 0 <= i < size l -> l !! Z.to_nat i = Some (nthz l i).
Proof. intros. unfold nthz. rewrite nth_lookup. destruct (lookup_lt_is_Some_2 l (Z.to_nat i)) as [x ->]; [lia|done]. Qed.

Lemma nthz_insert l i j v : 0 <= i < size l -> 0 <= j ->
  nthz (<[Z.to_nat i := v]> l) j = if decide (i = j) then v else nthz l j.
Proof.
  intros. unfold nthz. rewrite !nth_lookup. case_decide as Hd.
  - subst. rewrite list_lookup_insert_eq by lia. done.
  - rewrite list_lookup_insert_ne by lia. done.
Qed.

(** Zero bytes after the end are what an access beyond it reads. *)
Lemma nthz_app_zeros l n i : nthz (l ++ replicate n 0) i = nthz l i.
Proof.
  unfold nthz. destruct (decide (Z.to_nat i < length l)%nat).
  - by rewrite app_nth1 by lia.
  - rewrite app_nth2, (nth_overflow l), nth_lookup by lia.
    destruct (replicate n 0 !! _) eqn:E; [|done]. by apply lookup_replicate in E as [-> _].
Qed.

Lemma nthz_byte l i : bytes_ok l -> is_byte (nthz l i).
Proof.
  intros Hl. unfold nthz. destruct (nth_in_or_default (Z.to_nat i) l 0) as [Hin| ->].
  - by apply (proj1 (List.Forall_forall _ _) Hl).
  - unfold is_byte. lia.
Qed.

Lemma nthz_beyond l i : size l <= i -> nthz l i = 0.
Proof. intros. unfold nthz. apply nth_overflow. lia. Qed.
