(* ===== verification/Script.v ===== *)
(** * Scripts and script numbers

    Model of [src/src/script/script.h] and [src/src/script/script.cpp]: the
    opcodes, class [CScriptNum] (numbers of at most eight bytes in a sign and
    magnitude encoding) and class [CScript], a byte string of instructions.

    An iterator into a script is the list of the bytes from it to the end. *)

From S2P Require Import Prelude.
From Stdlib Require Import ZifyBool.

Definition MAX_SCRIPT_ELEMENT_SIZE : Z := 128000.
Definition MAX_OPS_PER_SCRIPT : Z := 201.
Definition MAX_PUBKEYS_PER_MULTISIG : Z := 20.
Definition MAX_SCRIPT_SIZE : Z := 129000.
Definition MAX_STACK_SIZE : Z := 1000.

(** ** [enum opcodetype] *)
Definition OP_0 : Z := 0x00.
Definition OP_FALSE : Z := 0x00.
Definition OP_PUSHDATA1 : Z := 0x4c.
Definition OP_PUSHDATA2 : Z := 0x4d.
Definition OP_PUSHDATA4 : Z := 0x4e.
Definition OP_1NEGATE : Z := 0x4f.
Definition OP_RESERVED : Z := 0x50.
Definition OP_1 : Z := 0x51.
Definition OP_TRUE : Z := 0x51.
Definition OP_2 : Z := 0x52.
Definition OP_3 : Z := 0x53.
Definition OP_4 : Z := 0x54.
Definition OP_5 : Z := 0x55.
Definition OP_6 : Z := 0x56.
Definition OP_7 : Z := 0x57.
Definition OP_8 : Z := 0x58.
Definition OP_9 : Z := 0x59.
Definition OP_10 : Z := 0x5a.
Definition OP_11 : Z := 0x5b.
Definition OP_12 : Z := 0x5c.
Definition OP_13 : Z := 0x5d.
Definition OP_14 : Z := 0x5e.
Definition OP_15 : Z := 0x5f.
Definition OP_16 : Z := 0x60.
Definition OP_NOP : Z := 0x61.
Definition OP_VER : Z := 0x62.
Definition OP_IF : Z := 0x63.
Definition OP_NOTIF : Z := 0x64.
Definition OP_VERIF : Z := 0x65.
Definition OP_VERNOTIF : Z := 0x66.
Definition OP_ELSE : Z := 0x67.
Definition OP_ENDIF : Z := 0x68.
Definition OP_VERIFY : Z := 0x69.
Definition OP_RETURN : Z := 0x6a.
Definition OP_TOALTSTACK : Z := 0x6b.
Definition OP_FROMALTSTACK : Z := 0x6c.
Definition OP_2DROP : Z := 0x6d.
Definition OP_2DUP : Z := 0x6e.
Definition OP_3DUP : Z := 0x6f.
Definition OP_2OVER : Z := 0x70.
Definition OP_2ROT : Z := 0x71.
Definition OP_2SWAP : Z := 0x72.
Definition OP_IFDUP : Z := 0x73.
Definition OP_DEPTH : Z := 0x74.
Definition OP_DROP : Z := 0x75.
Definition OP_DUP : Z := 0x76.
Definition OP_NIP : Z := 0x77.
Definition OP_OVER : Z := 0x78.
Definition OP_PICK : Z := 0x79.
Definition OP_ROLL : Z := 0x7a.
Definition OP_ROT : Z := 0x7b.
Definition OP_SWAP : Z := 0x7c.
Definition OP_TUCK : Z := 0x7d.
Definition OP_CAT : Z := 0x7e.
Definition OP_SUBSTR : Z := 0x7f.
Definition OP_LEFT : Z := 0x80.
Definition OP_RIGHT : Z := 0x81.
Definition OP_SIZE : Z := 0x82.
Definition OP_INVERT : Z := 0x83.
Definition OP_AND : Z := 0x84.
Definition OP_OR : Z := 0x85.
Definition OP_XOR : Z := 0x86.
Definition OP_EQUAL : Z := 0x87.
Definition OP_EQUALVERIFY : Z := 0x88.
Definition OP_RESERVED1 : Z := 0x89.
Definition OP_RESERVED2 : Z := 0x8a.
Definition OP_1ADD : Z := 0x8b.
Definition OP_1SUB : Z := 0x8c.
Definition OP_2MUL : Z := 0x8d.
Definition OP_2DIV : Z := 0x8e.
Definition OP_NEGATE : Z := 0x8f.
Definition OP_ABS : Z := 0x90.
Definition OP_NOT : Z := 0x91.
Definition OP_0NOTEQUAL : Z := 0x92.
Definition OP_ADD : Z := 0x93.
Definition OP_SUB : Z := 0x94.
Definition OP_MUL : Z := 0x95.
Definition OP_DIV : Z := 0x96.
Definition OP_MOD : Z := 0x97.
Definition OP_LSHIFT : Z := 0x98.
Definition OP_RSHIFT : Z := 0x99.
Definition OP_BOOLAND : Z := 0x9a.
Definition OP_BOOLOR : Z := 0x9b.
Definition OP_NUMEQUAL : Z := 0x9c.
Definition OP_NUMEQUALVERIFY : Z := 0x9d.
Definition OP_NUMNOTEQUAL : Z := 0x9e.
Definition OP_LESSTHAN : Z := 0x9f.
Definition OP_GREATERTHAN : Z := 0xa0.
Definition OP_LESSTHANOREQUAL : Z := 0xa1.
Definition OP_GREATERTHANOREQUAL : Z := 0xa2.
Definition OP_MIN : Z := 0xa3.
Definition OP_MAX : Z := 0xa4.
Definition OP_WITHIN : Z := 0xa5.
Definition OP_RIPEMD160 : Z := 0xa6.
Definition OP_SHA1 : Z := 0xa7.
Definition OP_SHA256 : Z := 0xa8.
Definition OP_HASH160 : Z := 0xa9.
Definition OP_HASH256 : Z := 0xaa.
Definition OP_CODESEPARATOR : Z := 0xab.
Definition OP_CHECKSIG : Z := 0xac.
Definition OP_CHECKSIGVERIFY : Z := 0xad.
Definition OP_CHECKMULTISIG : Z := 0xae.
Definition OP_CHECKMULTISIGVERIFY : Z := 0xaf.
Definition OP_NOP1 : Z := 0xb0.
Definition OP_CHECKLOCKTIMEVERIFY : Z := 0xb1.
Definition OP_NOP2 : Z := 0xb1.
Definition OP_CHECKSEQUENCEVERIFY : Z := 0xb2.
Definition OP_NOP3 : Z := 0xb2.
Definition OP_NOP4 : Z := 0xb3.
Definition OP_NOP5 : Z := 0xb4.
Definition OP_NOP6 : Z := 0xb5.
Definition OP_NOP7 : Z := 0xb6.
Definition OP_NOP8 : Z := 0xb7.
Definition OP_NOP9 : Z := 0xb8.
Definition OP_NOP10 : Z := 0xb9.
Definition OP_SMARTCODE : Z := 0xba.
Definition OP_SMARTCODEVERIFY : Z := 0xbb.
Definition OP_CREATE : Z := 0xc1.
Definition OP_CALL : Z := 0xc2.
Definition OP_OOPS : Z := 0xc5.
Definition OP_AMOUNT : Z := 0xf4.
Definition OP_GAS_PRICE : Z := 0xf5.
Definition OP_VERSION : Z := 0xf6.
Definition OP_GAS_LIMIT : Z := 0xf7.
Definition OP_DATA : Z := 0xf8.
Definition OP_ADDRESS : Z := 0xf9.
Definition OP_SMALLINTEGER : Z := 0xfa.
Definition OP_PUBKEYS : Z := 0xfb.
Definition OP_PUBKEYHASH : Z := 0xfd.
Definition OP_PUBKEY : Z := 0xfe.
Definition OP_INVALIDOPCODE : Z := 0xff.
Definition MAX_OPCODE : Z := OP_NOP10.

(** ** Little-endian integers ([ReadLE16], [WriteLE16], ...) *)
Fixpoint ReadLE (l : bytes) : Z :=
  match l with [] => 0 | b :: l' => b + 256 * ReadLE l' end.
Fixpoint WriteLE (n : nat) (x : Z) : bytes :=
  match n with O => [] | S n' => x mod 256 :: WriteLE n' (x / 256) end.

(** ** [class CScriptNum] *)
Module CScriptNum.

Definition nDefaultMaxNumSize : Z := 4.
Definition int64_min : Z := - 2 ^ 63.
Definition int64_max : Z := 2 ^ 63 - 1.
(** Conversion to [int64_t]. *)
Definition s64 (x : Z) : Z := let y := x mod 2 ^ 64 in if y <? 2 ^ 63 then y else y - 2 ^ 64.

(** The loop [while (absvalue)] of [serialize]. *)
Fixpoint magnitude (fuel : nat) (absvalue : Z) : bytes :=
  match fuel with
  | O => []
  | S f => if absvalue =? 0 then [] else Z.land absvalue 0xff :: magnitude f (Z.shiftr absvalue 8)
  end.

(** [result.back() |= 0x80] *)
Definition or_back (l : bytes) : bytes := removelast l ++ [Z.lor (List.last l 0) 0x80].

(** [serialize(value)]: the least [int64_t] cannot be negated. *)
Definition serialize (value : Z) : outcome bytes :=
  if value =? 0 then Ok [] else
  let neg := value <? 0 in
  if value =? int64_min then Undef "-value overflows" else
  let result := magnitude 8 (if neg then - value else value) in
  Ok (if negb (Z.land (List.last result 0) 0x80 =? 0) then result ++ [if neg then 0x80 else 0]
      else if neg then or_back result else result).

(** The loop [result |= vch[i] << 8*i]; a shift by 64 or more is undefined. *)
Fixpoint or_bytes (vch : bytes) (i result : Z) : Z :=
  match vch with
  | [] => result
  | b :: l => or_bytes l (i + 1) (Z.lor result (Z.shiftl b (8 * i)))
  end.

(** [set_vch(vch)] *)
Definition set_vch (vch : bytes) : outcome Z :=
  match vch with
  | [] => Ok 0
  | _ =>
    if 8 <? size vch then Undef "shift too large" else
    let result := or_bytes vch 0 0 in
    if negb (Z.land (List.last vch 0) 0x80 =? 0)
    then Ok (- s64 (Z.land (result mod 2 ^ 64) ((2 ^ 64 - 1) - Z.shiftl 0x80 (8 * (size vch - 1)))))
    else Ok (s64 result)
  end.

(** [CScriptNum(vch, fRequireMinimal, nMaxNumSize)]: the value. *)
Definition of_vch (vch : bytes) (fRequireMinimal : bool) (nMaxNumSize : Z) : outcome Z :=
  if nMaxNumSize <? size vch then Throw "script number overflow" else
  if fRequireMinimal && (0 <? size vch) && (Z.land (List.last vch 0) 0x7f =? 0) &&
     ((size vch <=? 1) || (Z.land (nthz vch (size vch - 2)) 0x80 =? 0))
  then Throw "non-minimally encoded script number"
  else set_vch vch.

(** [vch_to_uint64(vch)] *)
Definition vch_to_uint64 (vch : bytes) : outcome Z :=
  if 8 <? size vch then Throw "script number overflow" else
  match vch with
  | [] => Ok 0
  | _ =>
    let result := u64 (or_bytes vch 0 0) in
    if negb (Z.land (List.last vch 0) 0x80 =? 0) then Throw "Negative gas value." else Ok result
  end.

(** [getint()] *)
Definition getint (m_value : Z) : Z :=
  if 2 ^ 31 - 1 <? m_value then 2 ^ 31 - 1 else if m_value <? - 2 ^ 31 then - 2 ^ 31 else m_value.

(** [operator+=], [operator-=], [operator-]: guarded by assertions. *)
Definition add_assign (m_value rhs : Z) : outcome Z :=
  if (rhs =? 0) || ((0 <? rhs) && (m_value <=? int64_max - rhs)) || ((rhs <? 0) && (int64_min - rhs <=? m_value))
  then Ok (m_value + rhs) else Assertion "overflow".
Definition sub_assign (m_value rhs : Z) : outcome Z :=
  if (rhs =? 0) || ((0 <? rhs) && (int64_min + rhs <=? m_value)) || ((rhs <? 0) && (m_value <=? int64_max + rhs))
  then Ok (m_value - rhs) else Assertion "overflow".
Definition negate (m_value : Z) : outcome Z :=
  if m_value =? int64_min then Assertion "m_value != min" else Ok (- m_value).

End CScriptNum.

(** ** [class CScript] *)
Module CScript.
Abbreviation t := bytes (only parsing).

(** [operator<<(opcodetype)] *)
Definition push_opcode (opcode : Z) (s : t) : outcome t :=
  if (opcode <? 0) || (0xff <? opcode) then Throw "CScript::operator<<(): invalid opcode" else Ok (s ++ [opcode]).

(** What [operator<<(std::vector<unsigned char>)] inserts before the data. *)
Definition push_header (b : bytes) : bytes :=
  if size b <? OP_PUSHDATA1 then [size b]
  else if size b <=? 0xff then [OP_PUSHDATA1; size b]
  else if size b <=? 0xffff then OP_PUSHDATA2 :: WriteLE 2 (size b)
  else OP_PUSHDATA4 :: WriteLE 4 (size b).
Definition push_data (b : bytes) (s : t) : t := s ++ push_header b ++ b.

(** [operator<<(CScriptNum)] *)
Definition push_num (n : Z) (s : t) : outcome t := b ← CScriptNum.serialize n; Ok (push_data b s).

(** [push_int64(n)] *)
Definition push_int64 (n : Z) (s : t) : outcome t :=
  if (n =? -1) || ((1 <=? n) && (n <=? 16)) then Ok (s ++ [u8 (n + (OP_1 - 1))])
  else if n =? 0 then Ok (s ++ [OP_0])
  else push_num n s.

(** [GetOp2(pc, opcodeRet, pvchRet)]: the opcode, the data and the new [pc]; none
    when it returns false. *)
Definition take_data (opcode nSize : Z) (pc : bytes) : option (Z * bytes * bytes) :=
  if size pc <? nSize then None else Some (opcode, take (Z.to_nat nSize) pc, drop (Z.to_nat nSize) pc).
Definition GetOp2 (pc : bytes) : option (Z * bytes * bytes) :=
  match pc with
  | [] => None
  | opcode :: pc =>
    if opcode <=? OP_PUSHDATA4 then
      if opcode <? OP_PUSHDATA1 then take_data opcode opcode pc
      else if opcode =? OP_PUSHDATA1 then
        if size pc <? 1 then None else take_data opcode (ReadLE (take 1 pc)) (drop 1 pc)
      else if opcode =? OP_PUSHDATA2 then
        if size pc <? 2 then None else take_data opcode (ReadLE (take 2 pc)) (drop 2 pc)
      else
        if size pc <? 4 then None else take_data opcode (ReadLE (take 4 pc)) (drop 4 pc)
    else Some (opcode, [], pc)
  end.

(** [DecodeOP_N], [EncodeOP_N] *)
Definition DecodeOP_N (opcode : Z) : outcome Z :=
  if opcode =? OP_0 then Ok 0
  else if (OP_1 <=? opcode) && (opcode <=? OP_16) then Ok (opcode - (OP_1 - 1))
  else Assertion "opcode >= OP_1 && opcode <= OP_16".
Definition EncodeOP_N (n : Z) : outcome Z :=
  if (0 <=? n) && (n <=? 16) then Ok (if n =? 0 then OP_0 else OP_1 + n - 1) else Assertion "n >= 0 && n <= 16".

(** A loop [while (pc < end()) { if (!GetOp(pc, opcode, vch)) ...; body }] folds
    [body] over the instructions; [bad] is the result when [GetOp] fails. *)
Fixpoint for_ops {A} (fuel : nat) (pc : bytes) (bad : A -> A) (body : A -> Z -> bytes -> A) (a : A) : A :=
  match fuel with
  | O => a
  | S f =>
    match pc with
    | [] => a
    | _ => match GetOp2 pc with
           | None => bad a
           | Some (opcode, vch, pc') => for_ops f pc' bad body (body a opcode vch)
           end
    end
  end.
Definition over {A} (s : t) (bad : A -> A) (body : A -> Z -> bytes -> A) (a : A) : A :=
  for_ops (S (length s)) s bad body a.

(** [Find(op)] *)
Definition Find (op : Z) (s : t) : Z :=
  over s id (fun nFound opcode _ => if opcode =? op then nFound + 1 else nFound) 0.
Definition HasOpCreate (s : t) : bool := Find OP_CREATE s =? 1.
Definition HasOpCall (s : t) : bool := Find OP_CALL s =? 1.
Definition HasOpOops (s : t) : bool := Find OP_OOPS s =? 1.

(** [FindAndDelete(b)]: the inner [while] drops copies of [b], the outer one
    copies the instructions between them. *)
Fixpoint drop_copies (fuel : nat) (b pc : bytes) (nFound : Z) : bytes * Z :=
  match fuel with
  | O => (pc, nFound)
  | S f => if (size b <=? size pc) && bool_decide (take (length b) pc = b)
           then drop_copies f b (drop (length b) pc) (nFound + 1) else (pc, nFound)
  end.
Fixpoint delete_loop (fuel : nat) (b result between pc : bytes) (nFound : Z) : bytes * Z :=
  match fuel with
  | O => (result, nFound)
  | S f =>
    let result := result ++ between in
    let '(pc, nFound) := drop_copies (length pc) b pc nFound in
    match GetOp2 pc with
    | Some (_, _, pc') => delete_loop f b result (take (length pc - length pc') pc) pc' nFound
    | None => (result ++ pc, nFound)
    end
  end.
Definition FindAndDelete (b s : t) : t * Z :=
  match b with
  | [] => (s, 0)
  | _ => let '(r, n) := delete_loop (S (length s)) b [] [] s 0 in if 0 <? n then (r, n) else (s, 0)
  end.

(** [GetSigOpCount(fAccurate)]: the count and the last opcode, until an
    instruction cannot be read. *)
Definition decoded (lastOpcode : Z) : Z := match DecodeOP_N lastOpcode with Ok n => n | _ => 0 end.
Definition sigops_step (fAccurate : bool) (st : Z * Z) (opcode : Z) : Z * Z :=
  let '(n, lastOpcode) := st in
  (if (opcode =? OP_CHECKSIG) || (opcode =? OP_CHECKSIGVERIFY) then n + 1
   else if (opcode =? OP_CHECKMULTISIG) || (opcode =? OP_CHECKMULTISIGVERIFY) then
     if fAccurate && (OP_1 <=? lastOpcode) && (lastOpcode <=? OP_16) then n + decoded lastOpcode
     else n + MAX_PUBKEYS_PER_MULTISIG
   else n, opcode).
Definition GetSigOpCount (fAccurate : bool) (s : t) : Z :=
  fst (over s id (fun st opcode _ => sigops_step fAccurate st opcode) (0, OP_INVALIDOPCODE)).

(** [operator[]] *)
Definition at_ (s : t) (i : Z) : Z := nthz s i.

Definition IsPayToScriptHash (s : t) : bool :=
  (size s =? 23) && (at_ s 0 =? OP_HASH160) && (at_ s 1 =? 0x14) && (at_ s 22 =? OP_EQUAL).
Definition IsPayToPubkey (s : t) : bool :=
  ((size s =? 35) && (at_ s 0 =? 33) && (at_ s 34 =? OP_CHECKSIG) && ((at_ s 1 =? 0x02) || (at_ s 1 =? 0x03))) ||
  ((size s =? 67) && (at_ s 0 =? 65) && (at_ s 66 =? OP_CHECKSIG) && (at_ s 1 =? 0x04)).
Definition IsPayToPubkeyHash (s : t) : bool :=
  (size s =? 25) && (at_ s 0 =? OP_DUP) && (at_ s 1 =? OP_HASH160) && (at_ s 2 =? 0x14) &&
  (at_ s 23 =? OP_EQUALVERIFY) && (at_ s 24 =? OP_CHECKSIG).
Definition IsPayToWitnessScriptHash (s : t) : bool :=
  (size s =? 34) && (at_ s 0 =? OP_0) && (at_ s 1 =? 0x20).
(** The version and the program. *)
Definition IsWitnessProgram (s : t) : option (Z * bytes) :=
  if (size s <? 4) || (42 <? size s) then None else
  if negb (at_ s 0 =? OP_0) && ((at_ s 0 <? OP_1) || (OP_16 <? at_ s 0)) then None else
  if at_ s 1 + 2 =? size s then Some (decoded (at_ s 0), drop 2 s) else None.

(** [GetSigOpCount(scriptSig)]: the last data pushed; none when the loop returns. *)
Definition last_push (scriptSig : t) : option bytes :=
  over scriptSig (fun _ => None)
    (fun vData opcode vch => match vData with
                             | Some _ => if OP_16 <? opcode then None else Some vch
                             | None => None
                             end) (Some []).
Definition GetSigOpCount_p2sh (s scriptSig : t) : Z :=
  if negb (IsPayToScriptHash s) then GetSigOpCount true s
  else match last_push scriptSig with Some vData => GetSigOpCount true vData | None => 0 end.

Definition IsPushOnly (s : t) : bool :=
  over s (fun _ => false) (fun r opcode _ => r && negb (OP_16 <? opcode)) true.
Definition HasValidOps (s : t) : bool :=
  over s (fun _ => false)
    (fun r opcode item => r && negb ((MAX_OPCODE <? opcode) || (MAX_SCRIPT_ELEMENT_SIZE <? size item))) true.
Definition IsUnspendable (s : t) : bool :=
  ((0 <? size s) && (at_ s 0 =? OP_RETURN)) || (MAX_SCRIPT_SIZE <? size s).

End CScript.
