(* ===== verification/Interpreter.v ===== *)
(** * The script interpreter

    Model of [src/src/script/interpreter.cpp]: [EvalScript] with every opcode,
    the checks of the encodings of signatures and public keys, [VerifyScript]
    with pay-to-script-hash and witness programs, and the counting of witness
    signature operations.

    A stack is listed from its top: [stacktop(-i)] is element [i - 1].  The hash
    functions and the test for a low S are operations of the class
    [ScriptCrypto]; the signature checker is the record of the virtual methods
    of [BaseSignatureChecker]. *)

From S2P Require Import Prelude Script.
From Stdlib Require Import ZifyBool.

(** ** [enum ScriptError] *)
Inductive ScriptError :=
| SCRIPT_ERR_OK | SCRIPT_ERR_UNKNOWN_ERROR | SCRIPT_ERR_EVAL_FALSE | SCRIPT_ERR_OP_RETURN
| SCRIPT_ERR_SCRIPT_SIZE | SCRIPT_ERR_PUSH_SIZE | SCRIPT_ERR_OP_COUNT | SCRIPT_ERR_STACK_SIZE
| SCRIPT_ERR_SIG_COUNT | SCRIPT_ERR_PUBKEY_COUNT
| SCRIPT_ERR_VERIFY | SCRIPT_ERR_EQUALVERIFY | SCRIPT_ERR_CHECKMULTISIGVERIFY
| SCRIPT_ERR_SMARTCODEVERIFY | SCRIPT_ERR_CHECKSIGVERIFY | SCRIPT_ERR_NUMEQUALVERIFY
| SCRIPT_ERR_BAD_OPCODE | SCRIPT_ERR_DISABLED_OPCODE | SCRIPT_ERR_INVALID_STACK_OPERATION
| SCRIPT_ERR_INVALID_ALTSTACK_OPERATION | SCRIPT_ERR_UNBALANCED_CONDITIONAL
| SCRIPT_ERR_NEGATIVE_LOCKTIME | SCRIPT_ERR_UNSATISFIED_LOCKTIME
| SCRIPT_ERR_SIG_HASHTYPE | SCRIPT_ERR_SIG_DER | SCRIPT_ERR_MINIMALDATA | SCRIPT_ERR_SIG_PUSHONLY
| SCRIPT_ERR_SIG_HIGH_S | SCRIPT_ERR_SIG_NULLDUMMY | SCRIPT_ERR_PUBKEYTYPE | SCRIPT_ERR_CLEANSTACK
| SCRIPT_ERR_MINIMALIF | SCRIPT_ERR_SIG_NULLFAIL
| SCRIPT_ERR_DISCOURAGE_UPGRADABLE_NOPS | SCRIPT_ERR_DISCOURAGE_UPGRADABLE_WITNESS_PROGRAM
| SCRIPT_ERR_WITNESS_PROGRAM_WRONG_LENGTH | SCRIPT_ERR_WITNESS_PROGRAM_WITNESS_EMPTY
| SCRIPT_ERR_WITNESS_PROGRAM_MISMATCH | SCRIPT_ERR_WITNESS_MALLEATED
| SCRIPT_ERR_WITNESS_MALLEATED_P2SH | SCRIPT_ERR_WITNESS_UNEXPECTED | SCRIPT_ERR_WITNESS_PUBKEYTYPE.
#[export] Instance ScriptError_eq_dec : EqDecision ScriptError.
Proof. solve_decision. Defined.

(** ** Flags *)
Definition SIGHASH_ALL : Z := 1.
Definition SIGHASH_NONE : Z := 2.
Definition SIGHASH_SINGLE : Z := 3.
Definition SIGHASH_ANYONECANPAY : Z := 0x80.

Definition SCRIPT_VERIFY_NONE : Z := 0.
Definition SCRIPT_VERIFY_P2SH : Z := Z.shiftl 1 0.
Definition SCRIPT_VERIFY_STRICTENC : Z := Z.shiftl 1 1.
Definition SCRIPT_VERIFY_DERSIG : Z := Z.shiftl 1 2.
Definition SCRIPT_VERIFY_LOW_S : Z := Z.shiftl 1 3.
Definition SCRIPT_VERIFY_NULLDUMMY : Z := Z.shiftl 1 4.
Definition SCRIPT_VERIFY_SIGPUSHONLY : Z := Z.shiftl 1 5.
Definition SCRIPT_VERIFY_MINIMALDATA : Z := Z.shiftl 1 6.
Definition SCRIPT_VERIFY_DISCOURAGE_UPGRADABLE_NOPS : Z := Z.shiftl 1 7.
Definition SCRIPT_VERIFY_CLEANSTACK : Z := Z.shiftl 1 8.
Definition SCRIPT_VERIFY_CHECKLOCKTIMEVERIFY : Z := Z.shiftl 1 9.
Definition SCRIPT_VERIFY_CHECKSEQUENCEVERIFY : Z := Z.shiftl 1 10.
Definition SCRIPT_VERIFY_WITNESS : Z := Z.shiftl 1 11.
Definition SCRIPT_VERIFY_DISCOURAGE_UPGRADABLE_WITNESS_PROGRAM : Z := Z.shiftl 1 12.
Definition SCRIPT_VERIFY_MINIMALIF : Z := Z.shiftl 1 13.
Definition SCRIPT_VERIFY_NULLFAIL : Z := Z.shiftl 1 14.
Definition SCRIPT_VERIFY_WITNESS_PUBKEYTYPE : Z := Z.shiftl 1 15.
Definition SCRIPT_EXEC_BYTE_CODE : Z := Z.shiftl 1 30.

(** [flags & f] as a truth value. *)
Definition has (flags f : Z) : bool := negb (Z.land flags f =? 0).

(** [CTxIn::SEQUENCE_LOCKTIME_DISABLE_FLAG] *)
Definition SEQUENCE_LOCKTIME_DISABLE_FLAG : Z := Z.shiftl 1 31.

Inductive SigVersion := SIGVERSION_BASE | SIGVERSION_WITNESS_V0.
Definition is_base (v : SigVersion) : bool := match v with SIGVERSION_BASE => true | _ => false end.

(** ** The primitives used *)
Class ScriptCrypto := {
  RIPEMD160 : bytes -> bytes;
  SHA1 : bytes -> bytes;
  SHA256 : bytes -> bytes;
  CheckLowS : bytes -> bool;
}.
Definition Hash160 `{ScriptCrypto} (v : bytes) : bytes := RIPEMD160 (SHA256 v).
Definition Hash256 `{ScriptCrypto} (v : bytes) : bytes := SHA256 (SHA256 v).

(** [class BaseSignatureChecker] *)
Record SignatureChecker := mkChecker {
  CheckSig : bytes -> bytes -> bytes -> SigVersion -> bool;
  CheckLockTime : Z -> bool;
  CheckSequence : Z -> bool;
}.
Definition BaseSignatureChecker : SignatureChecker :=
  mkChecker (fun _ _ _ _ => false) (fun _ => false) (fun _ => false).

(** ** Values and encodings *)

(** [CastToBool(vch)] *)
Fixpoint CastToBool (vch : bytes) : bool :=
  match vch with
  | [] => false
  | b :: l => if b =? 0 then CastToBool l
              else match l with [] => negb (b =? 0x80) | _ => true end
  end.

Definition vchFalse : bytes := [].
Definition vchTrue : bytes := [1].
Definition of_bool (b : bool) : bytes := if b then vchTrue else vchFalse.

Definition IsCompressedOrUncompressedPubKey (vchPubKey : bytes) : bool :=
  if size vchPubKey <? 33 then false
  else if nthz vchPubKey 0 =? 0x04 then size vchPubKey =? 65
  else if (nthz vchPubKey 0 =? 0x02) || (nthz vchPubKey 0 =? 0x03) then size vchPubKey =? 33
  else false.

Definition IsCompressedPubKey (vchPubKey : bytes) : bool :=
  if negb (size vchPubKey =? 33) then false
  else negb (negb (nthz vchPubKey 0 =? 0x02) && negb (nthz vchPubKey 0 =? 0x03)).

Definition IsValidSignatureEncoding (sig : bytes) : bool :=
  let bit b := negb (Z.land b 0x80 =? 0) in
  if size sig <? 9 then false else
  if 73 <? size sig then false else
  if negb (nthz sig 0 =? 0x30) then false else
  if negb (nthz sig 1 =? size sig - 3) then false else
  let lenR := nthz sig 3 in
  if size sig <=? 5 + lenR then false else
  let lenS := nthz sig (5 + lenR) in
  if negb (lenR + lenS + 7 =? size sig) then false else
  if negb (nthz sig 2 =? 0x02) then false else
  if lenR =? 0 then false else
  if bit (nthz sig 4) then false else
  if (1 <? lenR) && (nthz sig 4 =? 0) && negb (bit (nthz sig 5)) then false else
  if negb (nthz sig (lenR + 4) =? 0x02) then false else
  if lenS =? 0 then false else
  if bit (nthz sig (lenR + 6)) then false else
  if (1 <? lenS) && (nthz sig (lenR + 6) =? 0) && negb (bit (nthz sig (lenR + 7))) then false else
  true.

(** The checks return none when they pass, else the error they set. *)
Definition IsLowDERSignature `{ScriptCrypto} (vchSig : bytes) : option ScriptError :=
  if negb (IsValidSignatureEncoding vchSig) then Some SCRIPT_ERR_SIG_DER else
  if negb (CheckLowS (removelast vchSig)) then Some SCRIPT_ERR_SIG_HIGH_S else None.

Definition IsDefinedHashtypeSignature (vchSig : bytes) : bool :=
  match vchSig with
  | [] => false
  | _ => let nHashType := Z.land (List.last vchSig 0) (0xff - SIGHASH_ANYONECANPAY) in
         negb ((nHashType <? SIGHASH_ALL) || (SIGHASH_SINGLE <? nHashType))
  end.

Definition CheckSignatureEncoding `{ScriptCrypto} (vchSig : bytes) (flags : Z) : option ScriptError :=
  match vchSig with
  | [] => None
  | _ =>
    if has flags (Z.lor (Z.lor SCRIPT_VERIFY_DERSIG SCRIPT_VERIFY_LOW_S) SCRIPT_VERIFY_STRICTENC) &&
       negb (IsValidSignatureEncoding vchSig) then Some SCRIPT_ERR_SIG_DER
    else
      match (if has flags SCRIPT_VERIFY_LOW_S then IsLowDERSignature vchSig else None) with
      | Some e => Some e
      | None => if has flags SCRIPT_VERIFY_STRICTENC && negb (IsDefinedHashtypeSignature vchSig)
                then Some SCRIPT_ERR_SIG_HASHTYPE else None
      end
  end.

Definition CheckPubKeyEncoding (vchPubKey : bytes) (flags : Z) (sigversion : SigVersion) : option ScriptError :=
  if has flags SCRIPT_VERIFY_STRICTENC && negb (IsCompressedOrUncompressedPubKey vchPubKey)
  then Some SCRIPT_ERR_PUBKEYTYPE
  else if has flags SCRIPT_VERIFY_WITNESS_PUBKEYTYPE && negb (is_base sigversion) &&
          negb (IsCompressedPubKey vchPubKey) then Some SCRIPT_ERR_WITNESS_PUBKEYTYPE
  else None.

Definition CheckMinimalPush (data : bytes) (opcode : Z) : bool :=
  if size data =? 0 then opcode =? OP_0
  else if (size data =? 1) && (1 <=? nthz data 0) && (nthz data 0 <=? 16) then opcode =? OP_1 + (nthz data 0 - 1)
  else if (size data =? 1) && (nthz data 0 =? 0x81) then opcode =? OP_1NEGATE
  else if size data <=? 75 then opcode =? size data
  else if size data <=? 255 then opcode =? OP_PUSHDATA1
  else if size data <=? 65535 then opcode =? OP_PUSHDATA2
  else true.

(** ** The variables of [EvalScript] *)
Record Vars := mkVars {
  pc : bytes;
  pbegincodehash : bytes;
  stack : list bytes;
  altstack : list bytes;
  vfExec : list bool;
  nOpCount : Z;
}.
Definition set_pc x v := mkVars x (pbegincodehash v) (stack v) (altstack v) (vfExec v) (nOpCount v).
Definition set_pbegincodehash x v := mkVars (pc v) x (stack v) (altstack v) (vfExec v) (nOpCount v).
Definition set_stack x v := mkVars (pc v) (pbegincodehash v) x (altstack v) (vfExec v) (nOpCount v).
Definition set_altstack x v := mkVars (pc v) (pbegincodehash v) (stack v) x (vfExec v) (nOpCount v).
Definition set_vfExec x v := mkVars (pc v) (pbegincodehash v) (stack v) (altstack v) x (nOpCount v).
Definition set_nOpCount x v := mkVars (pc v) (pbegincodehash v) (stack v) (altstack v) (vfExec v) x.

(** A statement of the loop goes on with a value, or leaves [EvalScript] with a
    result and the error set; it may also throw. *)
Inductive ctl (A : Type) := Go (a : A) | Ret (ok : bool) (serror : ScriptError).
Arguments Go {A} a.
Arguments Ret {A} ok serror.
Definition EM (A : Type) : Type := SE Vars (ctl A).
#[export] Instance EM_ret : MRet EM := fun A a => mret (M := SE Vars) (Go a).
#[export] Instance EM_bind : MBind EM := fun A B k m s =>
  match m s with
  | (Ok (Go a), s') => k a s'
  | (Ok (Ret b e), s') => (Ok (Ret b e), s')
  | (r, s') => (recast r, s')
  end.
Definition diverge {A} : EM A := fail Diverge.
Definition error {A} (e : ScriptError) : EM A := fun s => (Ok (Ret false e), s).
Definition lift {A} (r : outcome A) : EM A :=
  fun s => (match r with Ok a => Ok (Go a) | x => recast x end, s).
Definition get {A} (f : Vars -> A) : EM A := fun s => (Ok (Go (f s)), s).
Definition put (f : Vars -> Vars) : EM unit := fun s => (Ok (Go tt), f s).
Definition require (b : bool) (e : ScriptError) : EM unit := if b then mret tt else error e.
Definition reject (o : option ScriptError) : EM unit := match o with None => mret tt | Some e => error e end.

(** [stacktop(-i)], [popstack(stack)], [stack.push_back(v)] *)
Definition stacktop (i : Z) : EM bytes := fun s =>
  match (if i <=? 0 then None else stack s !! Z.to_nat (i - 1)) with
  | Some v => (Ok (Go v), s)
  | None => (Throw "vector::_M_range_check", s)
  end.
Definition popstack : EM unit := fun s =>
  match stack s with
  | [] => (Throw "popstack(): stack empty", s)
  | _ :: l => (Ok (Go tt), set_stack l s)
  end.
Definition push_back (v : bytes) : EM unit := put (fun s => set_stack (v :: stack s) s).
(** [if (stack.size() < n) return set_error(serror, ...)] *)
Definition need (n : Z) : EM unit :=
  l ← get stack; require (n <=? size l) SCRIPT_ERR_INVALID_STACK_OPERATION.

(** ** The opcodes *)
Section Opcodes.
Context `{SC : ScriptCrypto} (flags : Z) (checker : SignatureChecker) (sigversion : SigVersion).

Definition fRequireMinimal : bool := has flags SCRIPT_VERIFY_MINIMALDATA.
(** [CScriptNum(stacktop(-i), fRequireMinimal, nMaxNumSize)] *)
Definition number (i nMaxNumSize : Z) : EM Z :=
  v ← stacktop i; lift (CScriptNum.of_vch v fRequireMinimal nMaxNumSize).
Definition num4 (i : Z) : EM Z := number i CScriptNum.nDefaultMaxNumSize.
(** [stack.push_back(bn.getvch())] *)
Definition push_number (n : Z) : EM unit := v ← lift (CScriptNum.serialize n); push_back v.

Definition disabled (opcode : Z) : bool :=
  (opcode =? OP_CAT) || (opcode =? OP_SUBSTR) || (opcode =? OP_LEFT) || (opcode =? OP_RIGHT) ||
  (opcode =? OP_INVERT) || (opcode =? OP_AND) || (opcode =? OP_OR) || (opcode =? OP_XOR) ||
  (opcode =? OP_2MUL) || (opcode =? OP_2DIV) || (opcode =? OP_MUL) || (opcode =? OP_DIV) ||
  (opcode =? OP_MOD) || (opcode =? OP_LSHIFT) || (opcode =? OP_RSHIFT).

Definition case_pushnum (opcode : Z) : EM unit := push_number (opcode - (OP_1 - 1)).

Definition discouraged : EM unit :=
  require (negb (has flags SCRIPT_VERIFY_DISCOURAGE_UPGRADABLE_NOPS)) SCRIPT_ERR_DISCOURAGE_UPGRADABLE_NOPS.

Definition case_CHECKLOCKTIMEVERIFY : EM unit :=
  if negb (has flags SCRIPT_VERIFY_CHECKLOCKTIMEVERIFY) then discouraged else
  need 1 ;;
  nLockTime ← number 1 5;
  require (negb (nLockTime <? 0)) SCRIPT_ERR_NEGATIVE_LOCKTIME ;;
  require (CheckLockTime checker nLockTime) SCRIPT_ERR_UNSATISFIED_LOCKTIME.

Definition case_CHECKSEQUENCEVERIFY : EM unit :=
  if negb (has flags SCRIPT_VERIFY_CHECKSEQUENCEVERIFY) then discouraged else
  need 1 ;;
  nSequence ← number 1 5;
  require (negb (nSequence <? 0)) SCRIPT_ERR_NEGATIVE_LOCKTIME ;;
  if has nSequence SEQUENCE_LOCKTIME_DISABLE_FLAG then mret tt else
  require (CheckSequence checker nSequence) SCRIPT_ERR_UNSATISFIED_LOCKTIME.

Definition case_IF (opcode : Z) (fExec : bool) : EM unit :=
  fValue ←
    (if fExec then
       l ← get stack;
       require (1 <=? size l) SCRIPT_ERR_UNBALANCED_CONDITIONAL ;;
       vch ← stacktop 1;
       (if negb (is_base sigversion) && has flags SCRIPT_VERIFY_MINIMALIF then
          require (negb (1 <? size vch)) SCRIPT_ERR_MINIMALIF ;;
          require (negb ((size vch =? 1) && negb (nthz vch 0 =? 1))) SCRIPT_ERR_MINIMALIF
        else mret tt) ;;
       popstack ;;
       mret (if opcode =? OP_NOTIF then negb (CastToBool vch) else CastToBool vch)
     else mret false);
  put (fun s => set_vfExec (fValue :: vfExec s) s).

Definition case_ELSE : EM unit :=
  l ← get vfExec;
  match l with
  | [] => error SCRIPT_ERR_UNBALANCED_CONDITIONAL
  | b :: l => put (set_vfExec (negb b :: l))
  end.

Definition case_ENDIF : EM unit :=
  l ← get vfExec;
  match l with
  | [] => error SCRIPT_ERR_UNBALANCED_CONDITIONAL
  | _ :: l => put (set_vfExec l)
  end.

Definition case_VERIFY : EM unit :=
  need 1 ;;
  v ← stacktop 1;
  if CastToBool v then popstack else error SCRIPT_ERR_VERIFY.

Definition case_TOALTSTACK : EM unit :=
  need 1 ;;
  v ← stacktop 1;
  put (fun s => set_altstack (v :: altstack s) s) ;;
  popstack.

Definition case_FROMALTSTACK : EM unit :=
  l ← get altstack;
  match l with
  | [] => error SCRIPT_ERR_INVALID_ALTSTACK_OPERATION
  | v :: l => push_back v ;; put (set_altstack l)
  end.

(** The opcodes that only rearrange the stack: the new stack, or none when it
    holds too few values. *)
Definition stack_2DROP (l : list bytes) : option (list bytes) :=
  match l with x2 :: x1 :: r => Some r | _ => None end.
Definition stack_2DUP (l : list bytes) : option (list bytes) :=
  match l with x2 :: x1 :: r => Some (x2 :: x1 :: x2 :: x1 :: r) | _ => None end.
Definition stack_3DUP (l : list bytes) : option (list bytes) :=
  match l with x3 :: x2 :: x1 :: r => Some (x3 :: x2 :: x1 :: x3 :: x2 :: x1 :: r) | _ => None end.
Definition stack_2OVER (l : list bytes) : option (list bytes) :=
  match l with x4 :: x3 :: x2 :: x1 :: r => Some (x2 :: x1 :: x4 :: x3 :: x2 :: x1 :: r) | _ => None end.
Definition stack_2ROT (l : list bytes) : option (list bytes) :=
  match l with
  | x6 :: x5 :: x4 :: x3 :: x2 :: x1 :: r => Some (x2 :: x1 :: x6 :: x5 :: x4 :: x3 :: r)
  | _ => None
  end.
Definition stack_2SWAP (l : list bytes) : option (list bytes) :=
  match l with x4 :: x3 :: x2 :: x1 :: r => Some (x2 :: x1 :: x4 :: x3 :: r) | _ => None end.
Definition stack_IFDUP (l : list bytes) : option (list bytes) :=
  match l with x :: r => Some (if CastToBool x then x :: x :: r else x :: r) | _ => None end.
Definition stack_DROP (l : list bytes) : option (list bytes) :=
  match l with x :: r => Some r | _ => None end.
Definition stack_DUP (l : list bytes) : option (list bytes) :=
  match l with x :: r => Some (x :: x :: r) | _ => None end.
Definition stack_NIP (l : list bytes) : option (list bytes) :=
  match l with x2 :: x1 :: r => Some (x2 :: r) | _ => None end.
Definition stack_OVER (l : list bytes) : option (list bytes) :=
  match l with x2 :: x1 :: r => Some (x1 :: x2 :: x1 :: r) | _ => None end.
Definition stack_ROT (l : list bytes) : option (list bytes) :=
  match l with x3 :: x2 :: x1 :: r => Some (x1 :: x3 :: x2 :: r) | _ => None end.
Definition stack_SWAP (l : list bytes) : option (list bytes) :=
  match l with x2 :: x1 :: r => Some (x1 :: x2 :: r) | _ => None end.
Definition stack_TUCK (l : list bytes) : option (list bytes) :=
  match l with x2 :: x1 :: r => Some (x2 :: x1 :: x2 :: r) | _ => None end.
Definition rearrange (opcode : Z) (l : list bytes) : option (list bytes) :=
  if opcode =? OP_2DROP then stack_2DROP l
  else if opcode =? OP_2DUP then stack_2DUP l
  else if opcode =? OP_3DUP then stack_3DUP l
  else if opcode =? OP_2OVER then stack_2OVER l
  else if opcode =? OP_2ROT then stack_2ROT l
  else if opcode =? OP_2SWAP then stack_2SWAP l
  else if opcode =? OP_IFDUP then stack_IFDUP l
  else if opcode =? OP_DROP then stack_DROP l
  else if opcode =? OP_DUP then stack_DUP l
  else if opcode =? OP_NIP then stack_NIP l
  else if opcode =? OP_OVER then stack_OVER l
  else if opcode =? OP_ROT then stack_ROT l
  else if opcode =? OP_SWAP then stack_SWAP l
  else stack_TUCK l.
Definition case_rearrange (opcode : Z) : EM unit :=
  l ← get stack;
  match rearrange opcode l with
  | None => error SCRIPT_ERR_INVALID_STACK_OPERATION
  | Some l' => put (set_stack l')
  end.

Definition case_DEPTH : EM unit := l ← get stack; push_number (size l).
Definition case_SIZE : EM unit := need 1 ;; v ← stacktop 1; push_number (size v).

(** [PICK] and [ROLL] *)
Definition case_PICK (opcode : Z) : EM unit :=
  need 2 ;;
  m ← num4 1;
  let n := CScriptNum.getint m in
  popstack ;;
  l ← get stack;
  require (negb ((n <? 0) || (size l <=? n))) SCRIPT_ERR_INVALID_STACK_OPERATION ;;
  vch ← stacktop (n + 1);
  (if opcode =? OP_ROLL
   then put (fun s => set_stack (take (Z.to_nat n) (stack s) ++ drop (S (Z.to_nat n)) (stack s)) s)
   else mret tt) ;;
  push_back vch.

Definition case_EQUAL (opcode : Z) : EM unit :=
  need 2 ;;
  vch1 ← stacktop 2;
  vch2 ← stacktop 1;
  let fEqual := bool_decide (vch1 = vch2) in
  popstack ;; popstack ;;
  push_back (of_bool fEqual) ;;
  if opcode =? OP_EQUALVERIFY then
    if fEqual then popstack else error SCRIPT_ERR_EQUALVERIFY
  else mret tt.

Definition b2z (b : bool) : Z := if b then 1 else 0.

Definition unary (opcode bn : Z) : outcome Z :=
  if opcode =? OP_1ADD then CScriptNum.add_assign bn 1
  else if opcode =? OP_1SUB then CScriptNum.sub_assign bn 1
  else if opcode =? OP_NEGATE then CScriptNum.negate bn
  else if opcode =? OP_ABS then if bn <? 0 then CScriptNum.negate bn else Ok bn
  else if opcode =? OP_NOT then Ok (b2z (bn =? 0))
  else if opcode =? OP_0NOTEQUAL then Ok (b2z (negb (bn =? 0)))
  else Assertion "invalid opcode".
Definition case_unary (opcode : Z) : EM unit :=
  need 1 ;;
  bn ← num4 1;
  bn ← lift (unary opcode bn);
  popstack ;;
  push_number bn.

(** [operator+] and [operator-] on [int64_t]: overflow is undefined. *)
Definition checked64 (x : Z) : outcome Z :=
  if (CScriptNum.int64_min <=? x) && (x <=? CScriptNum.int64_max) then Ok x else Undef "int64_t overflow".
Definition binary (opcode bn1 bn2 : Z) : outcome Z :=
  if opcode =? OP_ADD then checked64 (bn1 + bn2)
  else if opcode =? OP_SUB then checked64 (bn1 - bn2)
  else if opcode =? OP_BOOLAND then Ok (b2z (negb (bn1 =? 0) && negb (bn2 =? 0)))
  else if opcode =? OP_BOOLOR then Ok (b2z (negb (bn1 =? 0) || negb (bn2 =? 0)))
  else if opcode =? OP_NUMEQUAL then Ok (b2z (bn1 =? bn2))
  else if opcode =? OP_NUMEQUALVERIFY then Ok (b2z (bn1 =? bn2))
  else if opcode =? OP_NUMNOTEQUAL then Ok (b2z (negb (bn1 =? bn2)))
  else if opcode =? OP_LESSTHAN then Ok (b2z (bn1 <? bn2))
  else if opcode =? OP_GREATERTHAN then Ok (b2z (bn2 <? bn1))
  else if opcode =? OP_LESSTHANOREQUAL then Ok (b2z (bn1 <=? bn2))
  else if opcode =? OP_GREATERTHANOREQUAL then Ok (b2z (bn2 <=? bn1))
  else if opcode =? OP_MIN then Ok (if bn1 <? bn2 then bn1 else bn2)
  else if opcode =? OP_MAX then Ok (if bn2 <? bn1 then bn1 else bn2)
  else Assertion "invalid opcode".
Definition case_binary (opcode : Z) : EM unit :=
  need 2 ;;
  bn1 ← num4 2;
  bn2 ← num4 1;
  bn ← lift (binary opcode bn1 bn2);
  popstack ;; popstack ;;
  push_number bn ;;
  if opcode =? OP_NUMEQUALVERIFY then
    v ← stacktop 1;
    if CastToBool v then popstack else error SCRIPT_ERR_NUMEQUALVERIFY
  else mret tt.

Definition case_WITHIN : EM unit :=
  need 3 ;;
  bn1 ← num4 3;
  bn2 ← num4 2;
  bn3 ← num4 1;
  popstack ;; popstack ;; popstack ;;
  push_back (of_bool ((bn2 <=? bn1) && (bn1 <? bn3))).

Definition case_hash (opcode : Z) : EM unit :=
  need 1 ;;
  vch ← stacktop 1;
  popstack ;;
  push_back
    (if opcode =? OP_RIPEMD160 then RIPEMD160 vch
     else if opcode =? OP_SHA1 then SHA1 vch
     else if opcode =? OP_SHA256 then SHA256 vch
     else if opcode =? OP_HASH160 then Hash160 vch
     else Hash256 vch).

(** [CScript(vchSig)] removed from the script code, in scripts before witnesses. *)
Definition drop_sig (scriptCode vchSig : bytes) : bytes :=
  if is_base sigversion then fst (CScript.FindAndDelete (CScript.push_data vchSig []) scriptCode) else scriptCode.

Definition check_encodings (vchSig vchPubKey : bytes) : EM unit :=
  reject (CheckSignatureEncoding vchSig flags) ;;
  reject (CheckPubKeyEncoding vchPubKey flags sigversion).

Definition case_CHECKSIG (opcode : Z) : EM unit :=
  need 2 ;;
  vchSig ← stacktop 2;
  vchPubKey ← stacktop 1;
  code ← get pbegincodehash;
  let scriptCode := drop_sig code vchSig in
  check_encodings vchSig vchPubKey ;;
  let fSuccess := CheckSig checker vchSig vchPubKey scriptCode sigversion in
  require (negb (negb fSuccess && has flags SCRIPT_VERIFY_NULLFAIL && (0 <? size vchSig))) SCRIPT_ERR_SIG_NULLFAIL ;;
  popstack ;; popstack ;;
  push_back (of_bool fSuccess) ;;
  if opcode =? OP_CHECKSIGVERIFY then
    if fSuccess then popstack else error SCRIPT_ERR_CHECKSIGVERIFY
  else mret tt.

(** The loop that drops the signatures from the script code. *)
Fixpoint drop_sigs (n : nat) (isig : Z) (scriptCode : bytes) : EM bytes :=
  match n with
  | O => mret scriptCode
  | S n => vchSig ← stacktop isig; drop_sigs n (isig + 1) (drop_sig scriptCode vchSig)
  end.

(** The loop over the keys: whether every signature found its key.  Every turn
    uses up a key, and the loop ends when there are fewer keys than signatures. *)
Fixpoint sig_loop (fuel : nat) (scriptCode : bytes) (isig ikey nSigsCount nKeysCount : Z) : EM bool :=
  if nSigsCount <=? 0 then mret true else
  match fuel with
  | O => diverge
  | S f =>
    vchSig ← stacktop isig;
    vchPubKey ← stacktop ikey;
    check_encodings vchSig vchPubKey ;;
    let fOk := CheckSig checker vchSig vchPubKey scriptCode sigversion in
    let isig := if fOk then isig + 1 else isig in
    let nSigsCount := if fOk then nSigsCount - 1 else nSigsCount in
    let ikey := ikey + 1 in
    let nKeysCount := nKeysCount - 1 in
    if nKeysCount <? nSigsCount then mret false
    else sig_loop f scriptCode isig ikey nSigsCount nKeysCount
  end.

(** The loop [while (i-- > 1)] that removes the arguments. *)
Fixpoint clean_up (n : nat) (fSuccess : bool) (ikey2 : Z) : EM unit :=
  match n with
  | O => mret tt
  | S n =>
    (if negb fSuccess && has flags SCRIPT_VERIFY_NULLFAIL && (ikey2 =? 0) then
       v ← stacktop 1; require (negb (0 <? size v)) SCRIPT_ERR_SIG_NULLFAIL
     else mret tt) ;;
    popstack ;;
    clean_up n fSuccess (if 0 <? ikey2 then ikey2 - 1 else ikey2)
  end.

Definition case_CHECKMULTISIG (verify : bool) : EM unit :=
  need 1 ;;
  m ← num4 1;
  let nKeysCount := CScriptNum.getint m in
  require (negb ((nKeysCount <? 0) || (MAX_PUBKEYS_PER_MULTISIG <? nKeysCount))) SCRIPT_ERR_PUBKEY_COUNT ;;
  put (fun s => set_nOpCount (nOpCount s + nKeysCount) s) ;;
  ops ← get nOpCount;
  require (negb (MAX_OPS_PER_SCRIPT <? ops)) SCRIPT_ERR_OP_COUNT ;;
  let ikey := 2 in
  let i := 2 + nKeysCount in
  need i ;;
  m ← num4 i;
  let nSigsCount := CScriptNum.getint m in
  require (negb ((nSigsCount <? 0) || (nKeysCount <? nSigsCount))) SCRIPT_ERR_SIG_COUNT ;;
  let isig := i + 1 in
  let i := i + 1 + nSigsCount in
  need i ;;
  code ← get pbegincodehash;
  scriptCode ← drop_sigs (Z.to_nat nSigsCount) isig code;
  fSuccess ← sig_loop (Z.to_nat nKeysCount) scriptCode isig ikey nSigsCount nKeysCount;
  clean_up (Z.to_nat (i - 1)) fSuccess (nKeysCount + 2) ;;
  need 1 ;;
  dummy ← stacktop 1;
  require (negb (has flags SCRIPT_VERIFY_NULLDUMMY && (0 <? size dummy))) SCRIPT_ERR_SIG_NULLDUMMY ;;
  popstack ;;
  push_back (of_bool fSuccess) ;;
  if verify then
    if (fSuccess : bool) then popstack else error SCRIPT_ERR_CHECKMULTISIGVERIFY
  else mret tt.

(** [OP_SMARTCODE] repeats the text of [OP_CHECKMULTISIG]. *)
Definition case_SMARTCODE (verify : bool) : EM unit := case_CHECKMULTISIG verify.

(** [CREATE], [CALL] and [OOPS] push the script from themselves on, and leave. *)
Definition case_contract (opcode : Z) : EM unit := fun s =>
  (Ok (Ret true SCRIPT_ERR_UNKNOWN_ERROR), set_stack ((opcode :: pc s) :: stack s) s).

(** [switch (opcode)] *)
Definition is_one (opcode : Z) (l : list Z) : bool := existsb (Z.eqb opcode) l.
Definition switch (opcode : Z) (fExec : bool) : EM unit :=
  if (opcode =? OP_1NEGATE) || ((OP_1 <=? opcode) && (opcode <=? OP_16)) then case_pushnum opcode
  else if opcode =? OP_NOP then mret tt
  else if opcode =? OP_CHECKLOCKTIMEVERIFY then case_CHECKLOCKTIMEVERIFY
  else if opcode =? OP_CHECKSEQUENCEVERIFY then case_CHECKSEQUENCEVERIFY
  else if is_one opcode [OP_NOP1; OP_NOP4; OP_NOP5; OP_NOP6; OP_NOP7; OP_NOP8; OP_NOP9; OP_NOP10] then discouraged
  else if is_one opcode [OP_IF; OP_NOTIF] then case_IF opcode fExec
  else if opcode =? OP_ELSE then case_ELSE
  else if opcode =? OP_ENDIF then case_ENDIF
  else if opcode =? OP_VERIFY then case_VERIFY
  else if opcode =? OP_RETURN then error SCRIPT_ERR_OP_RETURN
  else if opcode =? OP_TOALTSTACK then case_TOALTSTACK
  else if opcode =? OP_FROMALTSTACK then case_FROMALTSTACK
  else if is_one opcode [OP_2DROP; OP_2DUP; OP_3DUP; OP_2OVER; OP_2ROT; OP_2SWAP; OP_IFDUP;
                         OP_DROP; OP_DUP; OP_NIP; OP_OVER; OP_ROT; OP_SWAP; OP_TUCK] then case_rearrange opcode
  else if opcode =? OP_DEPTH then case_DEPTH
  else if is_one opcode [OP_PICK; OP_ROLL] then case_PICK opcode
  else if opcode =? OP_SIZE then case_SIZE
  else if is_one opcode [OP_EQUAL; OP_EQUALVERIFY] then case_EQUAL opcode
  else if is_one opcode [OP_1ADD; OP_1SUB; OP_NEGATE; OP_ABS; OP_NOT; OP_0NOTEQUAL] then case_unary opcode
  else if is_one opcode [OP_ADD; OP_SUB; OP_BOOLAND; OP_BOOLOR; OP_NUMEQUAL; OP_NUMEQUALVERIFY; OP_NUMNOTEQUAL;
                         OP_LESSTHAN; OP_GREATERTHAN; OP_LESSTHANOREQUAL; OP_GREATERTHANOREQUAL;
                         OP_MIN; OP_MAX] then case_binary opcode
  else if opcode =? OP_WITHIN then case_WITHIN
  else if is_one opcode [OP_RIPEMD160; OP_SHA1; OP_SHA256; OP_HASH160; OP_HASH256] then case_hash opcode
  else if opcode =? OP_CODESEPARATOR then put (fun s => set_pbegincodehash (pc s) s)
  else if is_one opcode [OP_CHECKSIG; OP_CHECKSIGVERIFY] then case_CHECKSIG opcode
  else if is_one opcode [OP_CHECKMULTISIG; OP_CHECKMULTISIGVERIFY]
       then case_CHECKMULTISIG (opcode =? OP_CHECKMULTISIGVERIFY)
  else if is_one opcode [OP_SMARTCODE; OP_SMARTCODEVERIFY] then case_SMARTCODE (opcode =? OP_SMARTCODEVERIFY)
  else if is_one opcode [OP_CREATE; OP_CALL; OP_OOPS] then case_contract opcode
  else error SCRIPT_ERR_BAD_OPCODE.

(** One turn of [while (pc < pend)]. *)
Definition count_op (opcode : Z) : EM unit :=
  if OP_16 <? opcode then
    put (fun s => set_nOpCount (nOpCount s + 1) s) ;;
    n ← get nOpCount;
    require (negb (MAX_OPS_PER_SCRIPT <? n)) SCRIPT_ERR_OP_COUNT
  else mret tt.
Definition execute (opcode : Z) (vchPushValue : bytes) (fExec : bool) : EM unit :=
  if fExec && (opcode <=? OP_PUSHDATA4) then
    require (negb (fRequireMinimal && negb (CheckMinimalPush vchPushValue opcode))) SCRIPT_ERR_MINIMALDATA ;;
    push_back vchPushValue
  else if fExec || ((OP_IF <=? opcode) && (opcode <=? OP_ENDIF)) then switch opcode fExec
  else mret tt.
Definition turn : EM unit :=
  fExec ← get (fun s => forallb id (vfExec s));
  p ← get pc;
  match CScript.GetOp2 p with
  | None => error SCRIPT_ERR_BAD_OPCODE
  | Some (opcode, vchPushValue, pc') =>
    put (set_pc pc') ;;
    require (negb (MAX_SCRIPT_ELEMENT_SIZE <? size vchPushValue)) SCRIPT_ERR_PUSH_SIZE ;;
    count_op opcode ;;
    require (negb (disabled opcode)) SCRIPT_ERR_DISABLED_OPCODE ;;
    execute opcode vchPushValue fExec ;;
    n ← get (fun s => size (stack s) + size (altstack s));
    require (negb (MAX_STACK_SIZE <? n)) SCRIPT_ERR_STACK_SIZE
  end.
Fixpoint eval_loop (fuel : nat) : EM unit :=
  p ← get pc;
  match (p : bytes) with
  | [] => mret tt
  | _ => match fuel with O => diverge | S f => turn ;; eval_loop f end
  end.

(** [EvalScript(stack, script, flags, checker, sigversion, serror)]: its result,
    what [*serror] holds, and the stack. *)
Definition EvalScript (st : list bytes) (script : bytes) : outcome (bool * ScriptError) * list bytes :=
  if MAX_SCRIPT_SIZE <? size script then (Ok (false, SCRIPT_ERR_SCRIPT_SIZE), st) else
  match eval_loop (length script) (mkVars script script st [] [] 0) with
  | (Ok (Go _), s) =>
    (Ok (match vfExec s with [] => (true, SCRIPT_ERR_OK) | _ => (false, SCRIPT_ERR_UNBALANCED_CONDITIONAL) end), stack s)
  | (Ok (Ret b e), s) => (Ok (b, e), stack s)
  | (Throw _, s) => (Ok (false, SCRIPT_ERR_UNKNOWN_ERROR), stack s)
  | (r, s) => (recast r, stack s)
  end.

End Opcodes.

(** ** Verification of an input *)
Section Verify.
Context `{SC : ScriptCrypto} (flags : Z) (checker : SignatureChecker).

Abbreviation failed e := (Ok (false, e)) (only parsing).

(** [EvalScript], then the stack must end with a true value. *)
Definition eval (sigversion : SigVersion) (st : list bytes) (script : bytes)
    (k : list bytes -> outcome (bool * ScriptError)) : outcome (bool * ScriptError) :=
  match EvalScript flags checker sigversion st script with
  | (Ok (true, _), st') => k st'
  | (r, _) => r
  end.
Definition eval_true (sigversion : SigVersion) (st : list bytes) (script : bytes)
    (k : list bytes -> outcome (bool * ScriptError)) : outcome (bool * ScriptError) :=
  eval sigversion st script (fun st' =>
    match st' with
    | [] => failed SCRIPT_ERR_EVAL_FALSE
    | v :: _ => if CastToBool v then k st' else failed SCRIPT_ERR_EVAL_FALSE
    end).

(** [VerifyWitnessProgram]: the items of a witness are listed from the first to
    the last, the stack from its top. *)
Definition run_witness (st : list bytes) (scriptPubKey : bytes) : outcome (bool * ScriptError) :=
  if existsb (fun v => MAX_SCRIPT_ELEMENT_SIZE <? size v) st then failed SCRIPT_ERR_PUSH_SIZE else
  eval SIGVERSION_WITNESS_V0 st scriptPubKey (fun st' =>
    if negb (size st' =? 1) then failed SCRIPT_ERR_EVAL_FALSE
    else if negb (CastToBool (List.hd [] st')) then failed SCRIPT_ERR_EVAL_FALSE
    else Ok (true, SCRIPT_ERR_OK)).
Definition VerifyWitnessProgram (witness : list bytes) (witversion : Z) (program : bytes)
    : outcome (bool * ScriptError) :=
  if witversion =? 0 then
    if size program =? 32 then
      if size witness =? 0 then failed SCRIPT_ERR_WITNESS_PROGRAM_WITNESS_EMPTY else
      let scriptPubKey := List.last witness [] in
      if bool_decide (SHA256 scriptPubKey = program) then run_witness (rev (removelast witness)) scriptPubKey
      else failed SCRIPT_ERR_WITNESS_PROGRAM_MISMATCH
    else if size program =? 20 then
      if negb (size witness =? 2) then failed SCRIPT_ERR_WITNESS_PROGRAM_MISMATCH else
      run_witness (rev witness) (CScript.push_data program [OP_DUP; OP_HASH160] ++ [OP_EQUALVERIFY; OP_CHECKSIG])
    else failed SCRIPT_ERR_WITNESS_PROGRAM_WRONG_LENGTH
  else if has flags SCRIPT_VERIFY_DISCOURAGE_UPGRADABLE_WITNESS_PROGRAM
  then failed SCRIPT_ERR_DISCOURAGE_UPGRADABLE_WITNESS_PROGRAM
  else Ok (true, SCRIPT_ERR_OK).

(** [if (flags & SCRIPT_VERIFY_WITNESS) if (script.IsWitnessProgram(...))]: when the
    script is a witness program and [clean] holds, the program is verified and the
    stack cut to one value; [k] receives whether there was a witness, and the stack. *)
Definition witness_program (script : bytes) (clean : bool) (malleated : ScriptError) (witness : list bytes)
    (hadWitness : bool) (st : list bytes)
    (k : bool -> list bytes -> outcome (bool * ScriptError)) : outcome (bool * ScriptError) :=
  if has flags SCRIPT_VERIFY_WITNESS then
    match CScript.IsWitnessProgram script with
    | None => k hadWitness st
    | Some (version, program) =>
      if negb clean then failed malleated else
      match VerifyWitnessProgram witness version program with
      | Ok (true, _) => k true [List.last st []]
      | r => r
      end
    end
  else k hadWitness st.

(** The checks at the end of [VerifyScript]. *)
Definition final_checks (witness : list bytes) (hadWitness : bool) (st : list bytes) : outcome (bool * ScriptError) :=
  let witness_check :=
    if has flags SCRIPT_VERIFY_WITNESS then
      if negb (has flags SCRIPT_VERIFY_P2SH) then Assertion "(flags & SCRIPT_VERIFY_P2SH) != 0"
      else if negb hadWitness && (0 <? size witness) then failed SCRIPT_ERR_WITNESS_UNEXPECTED
      else Ok (true, SCRIPT_ERR_OK)
    else Ok (true, SCRIPT_ERR_OK) in
  if has flags SCRIPT_VERIFY_CLEANSTACK then
    if negb (has flags SCRIPT_VERIFY_P2SH) then Assertion "(flags & SCRIPT_VERIFY_P2SH) != 0"
    else if negb (has flags SCRIPT_VERIFY_WITNESS) then Assertion "(flags & SCRIPT_VERIFY_WITNESS) != 0"
    else if negb (size st =? 1) then failed SCRIPT_ERR_CLEANSTACK
    else witness_check
  else witness_check.

(** [VerifyScript(scriptSig, scriptPubKey, witness, flags, checker, serror)] *)
Definition VerifyScript (scriptSig scriptPubKey : bytes) (witness : list bytes) : outcome (bool * ScriptError) :=
  if has flags SCRIPT_VERIFY_SIGPUSHONLY && negb (CScript.IsPushOnly scriptSig) then failed SCRIPT_ERR_SIG_PUSHONLY else
  eval SIGVERSION_BASE [] scriptSig (fun stackCopy =>
  eval_true SIGVERSION_BASE stackCopy scriptPubKey (fun st =>
  witness_program scriptPubKey (size scriptSig =? 0) SCRIPT_ERR_WITNESS_MALLEATED witness false st (fun hadWitness st =>
  if has flags SCRIPT_VERIFY_P2SH && CScript.IsPayToScriptHash scriptPubKey then
    if negb (CScript.IsPushOnly scriptSig) then failed SCRIPT_ERR_SIG_PUSHONLY else
    match stackCopy with
    | [] => Assertion "!stack.empty()"
    | pubKey2 :: st =>
      eval_true SIGVERSION_BASE st pubKey2 (fun st =>
      witness_program pubKey2 (bool_decide (scriptSig = CScript.push_data pubKey2 [])) SCRIPT_ERR_WITNESS_MALLEATED_P2SH
        witness hadWitness st (final_checks witness))
    end
  else final_checks witness hadWitness st))).

(** ** Witness signature operations *)
Definition WitnessSigOps (witversion : Z) (witprogram : bytes) (witness : list bytes) : Z :=
  if witversion =? 0 then
    if size witprogram =? 20 then 1
    else if (size witprogram =? 32) && (0 <? size witness)
    then CScript.GetSigOpCount true (List.last witness [])
    else 0
  else 0.
(** The loop that finds the last value pushed runs over a script that is push
    only, of which every instruction can be read. *)
Definition CountWitnessSigOps (scriptSig scriptPubKey : bytes) (witness : list bytes) : outcome Z :=
  if negb (has flags SCRIPT_VERIFY_WITNESS) then Ok 0 else
  if negb (has flags SCRIPT_VERIFY_P2SH) then Assertion "(flags & SCRIPT_VERIFY_P2SH) != 0" else
  match CScript.IsWitnessProgram scriptPubKey with
  | Some (version, program) => Ok (WitnessSigOps version program witness)
  | None =>
    if CScript.IsPayToScriptHash scriptPubKey && CScript.IsPushOnly scriptSig then
      let data := CScript.over scriptSig id (fun _ _ vch => vch) [] in
      match CScript.IsWitnessProgram data with
      | Some (version, program) => Ok (WitnessSigOps version program witness)
      | None => Ok 0
      end
    else Ok 0
  end.
End Verify.
