(* ===== verification/ScriptProofs.v ===== *)
(** * Scripts: what is pushed is read

    The instructions [CScript] writes are the ones its parser reads, the numbers
    of [CScriptNum] have one minimal encoding, which is the one [serialize]
    writes, and the searches of a script look at instructions only. *)

From S2P Require Import Prelude Script.
From Stdlib Require Import ZifyBool.

(** ** Little-endian integers *)

Lemma ReadLE_range l : bytes_ok l -> 0 <= ReadLE l < 256 ^ size l.
Proof.
  induction 1 as [|b l Hb Hl IH]; [simpl; lia|]. unfold is_byte in Hb. cbn [ReadLE length].
  rewrite Nat2Z.inj_succ, Z.pow_succ_r by lia. lia.
Qed.
Lemma length_WriteLE n x : length (WriteLE n x) = n.
Proof. revert x. induction n; intros; simpl; auto. Qed.
Lemma WriteLE_ok n x : bytes_ok (WriteLE n x).
Proof. revert x. induction n; intros; simpl; [constructor|]. apply bytes_ok_cons. split; [apply is_byte_mod|apply IHn]. Qed.
Lemma ReadLE_WriteLE n x : ReadLE (WriteLE n x) = x mod 256 ^ Z.of_nat n.
Proof.
  revert x. induction n as [|n IH]; intros x; cbn [WriteLE ReadLE].
  - simpl. by rewrite Z.mod_1_r.
  - rewrite IH, Nat2Z.inj_succ, Z.pow_succ_r, (Z.rem_mul_r x 256) by lia. lia.
Qed.
Lemma WriteLE_ReadLE l : bytes_ok l -> WriteLE (length l) (ReadLE l) = l.
Proof.
  induction 1 as [|b l Hb Hl IH]; [done|]. unfold is_byte in Hb. cbn [length WriteLE ReadLE].
  rewrite (Z.mul_comm 256), Z.mod_add, Z.mod_small, Z.div_add, Z.div_small, Z.add_0_l, IH by lia. done.
Qed.
Lemma ReadLE_app l m : ReadLE (l ++ m) = ReadLE l + 256 ^ size l * ReadLE m.
Proof.
  induction l as [|b l IH]; [simpl; lia|]. cbn [app ReadLE length]. rewrite IH.
  rewrite Nat2Z.inj_succ, Z.pow_succ_r by lia. lia.
Qed.
Lemma ReadLE_inj l m : bytes_ok l -> bytes_ok m -> length l = length m -> ReadLE l = ReadLE m -> l = m.
Proof. intros Hl Hm El E. rewrite <- (WriteLE_ReadLE l Hl), El, E. by apply WriteLE_ReadLE. Qed.

Lemma or_bytes_spec l : forall i r, 0 <= i -> bytes_ok l -> 0 <= r < 256 ^ i ->
  CScriptNum.or_bytes l i r = r + 256 ^ i * ReadLE l.
Proof.
  induction l as [|b l IH]; intros i r Hi Hl Hr; cbn [CScriptNum.or_bytes ReadLE]; [lia|].
  apply bytes_ok_cons in Hl as [Hb Hl]. unfold is_byte in Hb.
  assert (256 ^ i = 2 ^ (8 * i)) as E by (rewrite Z.pow_mul_r by lia; done).
  assert (Z.lor r (Z.shiftl b (8 * i)) = r + 256 ^ i * b) as ->.
  { rewrite E in *. rewrite Z.shiftl_mul_pow2, (Z.mul_comm _ b) by lia. symmetry.
    rewrite Z.add_nocarry_lxor, Z.lxor_lor; try done.
    all: apply Z.bits_inj'; intros n Hn; rewrite Z.land_spec, Z.bits_0.
    all: destruct (Z.ltb_spec n (8 * i)); [rewrite Z.mul_pow2_bits_low by lia; apply andb_false_r|].
    all: rewrite Z.testbit_odd, Z.shiftr_div_pow2, Z.div_small; [done| |lia].
    all: split; [lia|]; eapply Z.lt_le_trans; [apply Hr|]; apply Z.pow_le_mono_r; lia. }
  rewrite IH; [|lia|done|].
  - rewrite Z.pow_add_r by lia. lia.
  - rewrite Z.pow_add_r by lia. nia.
Qed.

(** ** Minimal numbers *)

Lemma land_80 h : is_byte h -> (Z.land h 0x80 =? 0) = (h <? 128).
Proof.
  intros Hh. unfold is_byte in Hh.
  assert (forallb (fun h => Bool.eqb (Z.land h 0x80 =? 0) (h <? 128)) (seqZ 0 256) = true) as A by (vm_compute; done).
  rewrite forallb_forall in A. apply eqb_prop, A. apply list_elem_of_In, elem_of_seqZ. lia.
Qed.
Lemma lor_80 h : 0 <= h < 128 -> Z.lor h 0x80 = h + 128.
Proof.
  intros Hh.
  assert (forallb (fun h => Z.lor h 0x80 =? h + 128) (seqZ 0 128) = true) as A by (vm_compute; done).
  rewrite forallb_forall in A. apply Z.eqb_eq, A. apply list_elem_of_In, elem_of_seqZ. lia.
Qed.
Lemma land_7f h : Z.land h 0x7f = h mod 128.
Proof. change 0x7f with (Z.ones 7). by rewrite Z.land_ones. Qed.

(** The loop of [serialize]: the digits of the magnitude. *)
Lemma magnitude_spec f v : 0 <= v < 256 ^ Z.of_nat f ->
  exists k : nat, CScriptNum.magnitude f v = WriteLE k v /\ v < 256 ^ Z.of_nat k /\ (k <= f)%nat /\
    (v = 0 -> k = 0%nat) /\ (0 < v -> (0 < k)%nat /\ 256 ^ (Z.of_nat k - 1) <= v).
Proof.
  revert v. induction f as [|f IH]; intros v Hv.
  - exists 0%nat. simpl in *. repeat split; try lia.
  - cbn [CScriptNum.magnitude]. destruct (Z.eqb_spec v 0) as [->|Hne].
    + exists 0%nat. repeat split; simpl; try lia.
    + rewrite land_255, shiftr_8. rewrite Nat2Z.inj_succ, Z.pow_succ_r in Hv by lia.
      destruct (IH (v / 256)) as (k & -> & Hlt & Hk & Hz & Hpos).
      { split; [apply Z.div_pos; lia|]. apply Z.div_lt_upper_bound; lia. }
      exists (S k). split; [done|]. rewrite Nat2Z.inj_succ, Z.pow_succ_r by lia.
      split; [pose proof (Z.div_mod v 256); pose proof (Z.mod_pos_bound v 256); lia|]. split; [lia|].
      split; [lia|]. intros _. split; [lia|]. replace (Z.succ (Z.of_nat k) - 1) with (Z.of_nat k) by lia.
      destruct (Z.eq_dec (v / 256) 0) as [E|].
      * rewrite (Hz E). simpl. lia.
      * destruct Hpos as [Hk0 Hlow]; [pose proof (Z.div_pos v 256); lia|].
        replace (Z.of_nat k) with (Z.succ (Z.of_nat k - 1)) by lia. rewrite Z.pow_succ_r by lia.
        pose proof (Z.mul_div_le v 256). lia.
Qed.

Lemma WriteLE_snoc n x : WriteLE (S n) x = WriteLE n x ++ [x / 256 ^ Z.of_nat n mod 256].
Proof.
  revert x. induction n as [|n IH]; intros x; [simpl; by rewrite Z.div_1_r|].
  cbn [WriteLE] in *. rewrite IH. cbn [app]. rewrite Nat2Z.inj_succ, Z.pow_succ_r, <- Z.div_div by lia. done.
Qed.
Lemma WriteLE_mod n x y : x mod 256 ^ Z.of_nat n = y mod 256 ^ Z.of_nat n -> WriteLE n x = WriteLE n y.
Proof.
  intros E. apply ReadLE_inj; try apply WriteLE_ok; [by rewrite !length_WriteLE|]. by rewrite !ReadLE_WriteLE.
Qed.

(** The minimal encoding of [v] in [n] bytes. *)
Definition canonical (n : nat) (v : Z) : bytes :=
  WriteLE n (Z.abs v + if v <? 0 then 2 ^ (8 * Z.of_nat n - 1) else 0).
Definition fits (n : nat) (v : Z) : Prop :=
  (1 <= n)%nat /\ 1 <= Z.abs v < 2 ^ (8 * Z.of_nat n - 1) /\ ((2 <= n)%nat -> 2 ^ (8 * Z.of_nat n - 9) <= Z.abs v).

Lemma pow_256 k : 0 <= k -> 256 ^ k = 2 ^ (8 * k).
Proof. intros. rewrite Z.pow_mul_r by lia. done. Qed.

Lemma last_WriteLE k x : (0 < k)%nat -> List.last (WriteLE k x) 0 = x / 256 ^ (Z.of_nat k - 1) mod 256.
Proof.
  intros Hk. destruct k as [|k]; [lia|]. rewrite WriteLE_snoc, last_last. do 3 f_equal. lia.
Qed.

Lemma WriteLE_top k a : 0 <= a < 256 ^ Z.of_nat k ->
  WriteLE (S k) (a + 128 * 256 ^ Z.of_nat k) = WriteLE k a ++ [0x80].
Proof.
  intros Ha. rewrite WriteLE_snoc. f_equal.
  - apply WriteLE_mod. by rewrite Z.mod_add by lia.
  - rewrite Z.div_add, Z.div_small by lia. done.
Qed.
Lemma or_back_WriteLE k a : 0 <= a < 128 * 256 ^ Z.of_nat k ->
  CScriptNum.or_back (WriteLE (S k) a) = WriteLE (S k) (a + 128 * 256 ^ Z.of_nat k).
Proof.
  intros Ha. unfold CScriptNum.or_back. rewrite !WriteLE_snoc, removelast_last, last_last.
  assert (0 < 256 ^ Z.of_nat k) by (apply Z.pow_pos_nonneg; lia).
  assert (0 <= a / 256 ^ Z.of_nat k < 128) as Hq.
  { split; [apply Z.div_pos; lia|]. apply Z.div_lt_upper_bound; lia. }
  rewrite (Z.mod_small (a / _)), lor_80, Z.div_add by lia. f_equal.
  - apply WriteLE_mod. by rewrite Z.mod_add by lia.
  - rewrite Z.mod_small by lia. done.
Qed.

Lemma serialize_canonical v : - 2 ^ 63 < v < 2 ^ 63 -> v <> 0 ->
  exists n, (n <= 8)%nat /\ fits n v /\ CScriptNum.serialize v = Ok (canonical n v).
Proof.
  intros Hv Hne. unfold CScriptNum.serialize, CScriptNum.int64_min.
  replace (v =? 0) with false by lia. replace (v =? - 2 ^ 63) with false by lia.
  replace (if v <? 0 then - v else v) with (Z.abs v) by (destruct (Z.ltb_spec v 0); lia).
  destruct (magnitude_spec 8 (Z.abs v)) as (k & -> & Hlt & Hk & _ & Hpos); [simpl; lia|].
  destruct Hpos as [Hk0 Hlow]; [lia|]. rewrite last_WriteLE by done.
  set (h := Z.abs v / 256 ^ (Z.of_nat k - 1)).
  assert (256 ^ Z.of_nat k = 256 * 256 ^ (Z.of_nat k - 1)) as Ek.
  { rewrite <- Z.pow_succ_r by lia. f_equal. lia. }
  assert (0 < 256 ^ (Z.of_nat k - 1)) as Hp by (apply Z.pow_pos_nonneg; lia).
  assert (0 <= h < 256) as Hh.
  { split; [apply Z.div_pos; lia|]. apply Z.div_lt_upper_bound; lia. }
  rewrite (Z.mod_small h) by lia. rewrite land_80 by (unfold is_byte; lia).
  pose proof (Z.div_mod (Z.abs v) (256 ^ (Z.of_nat k - 1)) ltac:(lia)) as Hdm. fold h in Hdm.
  pose proof (Z.mod_pos_bound (Z.abs v) (256 ^ (Z.of_nat k - 1)) Hp) as Hmb.
  rewrite !pow_256 in * by lia.
  destruct (Z.ltb_spec h 128) as [Hh1|Hh1]; cbn [negb].
  - exists k. split; [lia|].
    assert (2 ^ (8 * Z.of_nat k - 1) = 128 * 2 ^ (8 * (Z.of_nat k - 1))) as E1.
    { change 128 with (2 ^ 7). rewrite <- Z.pow_add_r by lia. f_equal. lia. }
    split; [split; [lia|]; split; [nia|]|].
    { intros Hk2. assert (2 ^ (8 * (Z.of_nat k - 1)) = 2 * 2 ^ (8 * Z.of_nat k - 9)) as E2.
      { rewrite <- Z.pow_succ_r by lia. f_equal. lia. }
      lia. }
    f_equal. unfold canonical. destruct (Z.ltb_spec v 0); [|by rewrite Z.add_0_r].
    destruct k as [|k]; [lia|]. rewrite E1. replace (8 * (Z.of_nat (S k) - 1)) with (8 * Z.of_nat k) in * by lia.
    rewrite <- pow_256 in * by lia. apply or_back_WriteLE. nia.
  - exists (S k). rewrite <- pow_256 in * by lia.
    assert (2 ^ (8 * Z.of_nat (S k) - 1) = 128 * 256 ^ Z.of_nat k) as E1.
    { rewrite pow_256 by lia. change 128 with (2 ^ 7). rewrite <- Z.pow_add_r by lia. f_equal. lia. }
    assert (2 ^ (8 * Z.of_nat (S k) - 9) = 128 * 256 ^ (Z.of_nat k - 1)) as E2.
    { rewrite pow_256 by lia. change 128 with (2 ^ 7). rewrite <- Z.pow_add_r by lia. f_equal. lia. }
    assert (128 * 256 ^ (Z.of_nat k - 1) <= Z.abs v) as Hlow2 by nia.
    split.
    { destruct (decide (k = 8%nat)) as [->|]; [|lia]. exfalso. simpl in Hlow2. lia. }
    split; [split; [lia|]; split; [lia|]; intros _; lia|].
    f_equal. unfold canonical. rewrite E1. destruct (Z.ltb_spec v 0).
    + by rewrite WriteLE_top by lia.
    + rewrite Z.add_0_r. symmetry. rewrite WriteLE_snoc, Z.div_small by lia. done.
Qed.

(** ** Reading numbers *)

Lemma land_below k x : 0 <= k < 64 -> 2 ^ k <= x < 2 ^ (k + 1) -> Z.land x (2 ^ 64 - 1 - 2 ^ k) = x - 2 ^ k.
Proof.
  intros Hk Hx.
  assert (2 ^ (k + 1) = 2 * 2 ^ k) as E1 by (rewrite Z.pow_add_r by lia; lia).
  assert (2 ^ 64 = 2 ^ (63 - k) * 2 ^ (k + 1)) as E2 by (rewrite <- Z.pow_add_r by lia; f_equal; lia).
  assert (x = Z.land x (Z.ones (k + 1))) as E3 by (rewrite Z.land_ones, Z.mod_small by lia; done).
  rewrite E3 at 1. rewrite <- Z.land_assoc, (Z.land_comm (Z.ones _)), Z.land_ones by lia.
  replace (2 ^ 64 - 1 - 2 ^ k) with (2 ^ k - 1 + (2 ^ (63 - k) - 1) * 2 ^ (k + 1)) by lia.
  rewrite Z.mod_add, Z.mod_small by lia. replace (2 ^ k - 1) with (Z.ones k) by (rewrite Z.ones_equiv; lia). rewrite Z.land_ones by lia.
  replace x with ((x - 2 ^ k) + 1 * 2 ^ k) at 1 by lia. rewrite Z.mod_add, Z.mod_small by lia. done.
Qed.

Lemma s64_small x : 0 <= x < 2 ^ 63 -> CScriptNum.s64 x = x.
Proof. intros. unfold CScriptNum.s64. rewrite Z.mod_small by lia. by replace (x <? 2 ^ 63) with true by lia. Qed.

Lemma bytes_ok_snoc p h : bytes_ok p -> is_byte h -> bytes_ok (p ++ [h]).
Proof. intros. apply bytes_ok_app. split; [done|]. apply bytes_ok_cons. split; [done|constructor]. Qed.
Lemma snoc_or_nil {A} (l : list A) : l = [] \/ exists q x, l = q ++ [x].
Proof. induction l as [|x l _] using rev_ind; eauto. Qed.

Lemma nthz_second_last q g h : nthz ((q ++ [g]) ++ [h]) (Z.of_nat (length (q ++ [g]) + 1) - 2) = g.
Proof.
  unfold nthz. rewrite !length_app. cbn [length]. replace (Z.to_nat _) with (length q) by lia.
  rewrite <- (app_assoc q). rewrite app_nth2 by lia. by rewrite Nat.sub_diag.
Qed.

Lemma w_pos (p : bytes) : 0 < 256 ^ size p.
Proof. apply Z.pow_pos_nonneg; lia. Qed.
Lemma w_128 (p : bytes) : 128 * 256 ^ size p = 2 ^ (8 * size p + 7).
Proof. rewrite pow_256, Z.pow_add_r by lia. lia. Qed.
Lemma w_63 (p : bytes) : (length p <= 7)%nat -> 128 * 256 ^ size p <= 2 ^ 63.
Proof. intros. rewrite w_128. apply Z.pow_le_mono_r; lia. Qed.

Section Number.
Context (p : bytes) (h : Z) (Hp : bytes_ok p) (Hh : is_byte h) (Hl : (length p <= 7)%nat).
Local Abbreviation l := (p ++ [h]).
Local Abbreviation w := (256 ^ size p).
(** The value, sign and magnitude. *)
Definition num : Z := if h <? 128 then ReadLE p + w * h else - (ReadLE p + w * (h - 128)).

Lemma set_vch_num : CScriptNum.set_vch l = Ok num.
Proof.
  pose proof (w_pos p). pose proof (w_63 p Hl). pose proof (ReadLE_range p Hp) as Hr. unfold is_byte in Hh.
  assert (CScriptNum.or_bytes l 0 0 = ReadLE p + w * h) as E.
  { rewrite or_bytes_spec; [|lia|by apply bytes_ok_snoc|simpl; lia].
    rewrite ReadLE_app. simpl. lia. }
  unfold CScriptNum.set_vch. rewrite E, last_last, length_app. cbn [length].
  destruct l eqn:El; [by destruct p|]. replace (8 <? _) with false by lia. clear El.
  rewrite land_80 by done. unfold num. destruct (Z.ltb_spec h 128) as [Hlt|Hge]; cbn [negb].
  - f_equal. apply s64_small. nia.
  - f_equal. f_equal. replace (8 * (Z.of_nat (length p + 1) - 1)) with (8 * size p) by lia.
    rewrite Z.shiftl_mul_pow2 by lia. rewrite <- pow_256, w_128 by lia.
    rewrite Z.mod_small by nia. rewrite land_below.
    + rewrite <- w_128, s64_small by nia. lia.
    + lia.
    + rewrite (Z.pow_add_r 2 (8 * size p + 7) 1), <- w_128 by lia. nia.
Qed.

Lemma num_abs : Z.abs num = ReadLE p + w * (h mod 128) /\ (num < 0 -> 128 <= h) /\ (128 <= h -> num <= 0).
Proof.
  pose proof (w_pos p). pose proof (ReadLE_range p Hp) as Hr. unfold num, is_byte in *.
  destruct (Z.ltb_spec h 128).
  - rewrite Z.mod_small by lia. nia.
  - replace (h mod 128) with (h - 128); [nia|]. symmetry. rewrite <- (Z.mod_add h (-1)), Z.mod_small by lia. lia.
Qed.

(** The test for minimal length passes exactly when the length fits the value. *)
Lemma minimal_fits :
  ((0 <? size l) && (Z.land (List.last l 0) 0x7f =? 0) &&
   ((size l <=? 1) || (Z.land (nthz l (size l - 2)) 0x80 =? 0))) = false <-> fits (length l) num.
Proof.
  pose proof (w_pos p). pose proof (ReadLE_range p Hp) as Hr. destruct num_abs as (Ha & _ & _).
  rewrite last_last, land_7f. unfold fits. rewrite Ha, length_app. cbn [length].
  replace (0 <? Z.of_nat (length p + 1)) with true by lia. cbn [andb].
  replace (8 * Z.of_nat (length p + 1) - 1) with (8 * size p + 7) by lia. rewrite <- w_128.
  pose proof (Z.mod_pos_bound h 128 ltac:(lia)) as Hm.
  destruct (Z.eqb_spec (h mod 128) 0) as [E|E]; cbn [andb].
  2:{ split; [intros _|done]. split; [lia|]. split; [nia|]. intros Hn.
      assert (2 ^ (8 * Z.of_nat (length p + 1) - 9) <= w); [|nia].
      rewrite pow_256 by lia. apply Z.pow_le_mono_r; lia. }
  rewrite E, Z.mul_0_r, Z.add_0_r. destruct (snoc_or_nil p) as [->|(q & g & ->)].
  { simpl. split; [done|]. lia. }
  apply bytes_ok_app in Hp as (Hq & Hg). apply Forall_cons_iff in Hg as (Hg & _). unfold is_byte in Hg.
  rewrite nthz_second_last. rewrite land_80 by (unfold is_byte; lia).
  rewrite ReadLE_app, !length_app in *. cbn [length ReadLE] in *.
  replace (Z.of_nat (length q + 1 + 1) <=? 1) with false by lia.
  pose proof (ReadLE_range q Hq) as Hr2.
  replace (8 * Z.of_nat (length q + 1 + 1) - 9) with (8 * size q + 7) by lia.
  rewrite Z.pow_add_r, <- pow_256 by lia. change (2 ^ 7) with 128.
  destruct (Z.ltb_spec g 128); cbn [negb orb]; split; try done; intros; try nia.
Qed.
End Number.

(** A minimal encoding is the canonical one, and a value has one length. *)
Lemma canonical_num p h : bytes_ok p -> is_byte h -> num p h <> 0 -> canonical (length (p ++ [h])) (num p h) = p ++ [h].
Proof.
  intros Hp Hh Hn. rewrite <- (WriteLE_ReadLE (p ++ [h])) at 2 by (by apply bytes_ok_snoc).
  unfold canonical. f_equal. pose proof (w_pos p) as Hw. pose proof (ReadLE_range p Hp) as Hr.
  rewrite ReadLE_app, length_app. cbn [length ReadLE].
  replace (8 * Z.of_nat (length p + 1) - 1) with (8 * size p + 7) by lia. rewrite <- w_128.
  unfold num, is_byte in *. destruct (Z.ltb_spec h 128).
  - replace (_ <? 0) with false by nia. nia.
  - replace (_ <? 0) with true by nia. nia.
Qed.

Lemma fits_lt n m v : fits n v -> fits m v -> ~ (n < m)%nat.
Proof.
  intros (Hn1 & Hn & _) (_ & _ & Hm) Hlt. specialize (Hm ltac:(lia)). assert (2 ^ (8 * Z.of_nat n - 1) <= 2 ^ (8 * Z.of_nat m - 9)).
  { apply Z.pow_le_mono_r; lia. }
  lia.
Qed.
Lemma fits_unique n m v : fits n v -> fits m v -> n = m.
Proof. intros Hn Hm. pose proof (fits_lt _ _ _ Hn Hm). pose proof (fits_lt _ _ _ Hm Hn). lia. Qed.

Lemma length_canonical n v : length (canonical n v) = n.
Proof. apply length_WriteLE. Qed.
Lemma canonical_ok n v : bytes_ok (canonical n v).
Proof. apply WriteLE_ok. Qed.

(** [serialize] writes the minimal encoding and no other. *)
Lemma serialize_iff p h v : bytes_ok p -> is_byte h -> (length p <= 7)%nat -> - 2 ^ 63 <= v < 2 ^ 63 ->
  CScriptNum.serialize v = Ok (p ++ [h]) <-> v = num p h /\ fits (length (p ++ [h])) v.
Proof.
  intros Hp Hh Hl Hv. split.
  - intros E. destruct (decide (v = 0)) as [->|Hv0]; [by destruct p|].
    destruct (decide (v = - 2 ^ 63)) as [->|Hm]; [done|].
    destruct (serialize_canonical v ltac:(lia) Hv0) as (n & Hn & Hf & E'). rewrite E in E'.
    injection E' as E'. assert (length (p ++ [h]) = n) as Hlen by (by rewrite E', length_canonical).
    rewrite Hlen. split; [|done]. symmetry.
    assert (ReadLE (p ++ [h]) = Z.abs v + if v <? 0 then 2 ^ (8 * Z.of_nat n - 1) else 0) as Er.
    { rewrite E'. unfold canonical. rewrite ReadLE_WriteLE. destruct Hf as (Hn1 & Hf & _).
      apply Z.mod_small. rewrite pow_256 by lia.
      replace (2 ^ (8 * Z.of_nat n)) with (2 * 2 ^ (8 * Z.of_nat n - 1))
        by (rewrite <- Z.pow_succ_r by lia; f_equal; lia).
      destruct (v <? 0); lia. }
    pose proof (w_pos p) as Hw. pose proof (ReadLE_range p Hp) as Hr. destruct Hf as (Hn1 & Hf & _).
    rewrite <- Hlen, length_app in Er, Hf. cbn [length] in *. rewrite ReadLE_app in Er. cbn [ReadLE] in Er.
    replace (8 * Z.of_nat (length p + 1) - 1) with (8 * size p + 7) in * by lia.
    rewrite <- w_128 in *. unfold num, is_byte in *.
    destruct (Z.ltb_spec v 0), (Z.ltb_spec h 128); nia.
  - intros (-> & Hf). assert (num p h <> 0) as Hn0 by (destruct Hf; lia).
    destruct (decide (num p h = - 2 ^ 63)) as [Hm|Hm].
    { exfalso. destruct Hf as (_ & Hf & _). rewrite length_app in Hf. cbn [length] in Hf.
      assert (2 ^ (8 * Z.of_nat (length p + 1) - 1) <= 2 ^ 63) by (apply Z.pow_le_mono_r; lia). lia. }
    destruct (serialize_canonical (num p h) ltac:(lia) Hn0) as (n & _ & Hf' & ->). f_equal.
    rewrite (fits_unique _ _ _ Hf' Hf). by apply canonical_num.
Qed.

Lemma of_vch_iff vch v m : bytes_ok vch -> m <= 8 -> - 2 ^ 63 <= v < 2 ^ 63 ->
  CScriptNum.of_vch vch true m = Ok v <-> size vch <= m /\ CScriptNum.serialize v = Ok vch.
Proof.
  intros Hb Hm Hv. unfold CScriptNum.of_vch. destruct (Z.ltb_spec m (size vch)); [split; [done|lia]|].
  destruct (snoc_or_nil vch) as [->|(p & h & ->)].
  - simpl. split; [intros [= <-]; done|]. intros (_ & E).
    destruct (decide (v = 0)) as [->|Hv0]; [done|]. exfalso.
    destruct (decide (v = - 2 ^ 63)) as [->|Hm1]; [done|].
    destruct (serialize_canonical v ltac:(lia) Hv0) as (n & _ & (Hn & _) & E'). rewrite E in E'.
    injection E' as E'. apply (f_equal length) in E'. rewrite length_canonical in E'. simpl in E'. lia.
  - apply bytes_ok_app in Hb as (Hp & Hh). apply Forall_cons_iff in Hh as (Hh & _).
    assert (length p <= 7)%nat as Hl by (rewrite length_app in *; simpl in *; lia).
    rewrite serialize_iff by done. rewrite set_vch_num by done. cbn [andb].
    pose proof (minimal_fits p h Hp Hh) as Hfit.
    destruct (_ && _) eqn:E.
    + split; [done|]. intros (_ & -> & Hf). by apply Hfit in Hf.
    + split; [intros [= <-]; split; [done|]; split; [done|]; by apply Hfit|]. intros (_ & -> & _). done.
Qed.

(** Amounts of gas and money: what is written as a number is read as one. *)
Lemma vch_to_uint64_serialize v : - 2 ^ 63 < v < 2 ^ 63 ->
  exists b, CScriptNum.serialize v = Ok b /\ bytes_ok b /\ size b <= 8 /\
    CScriptNum.vch_to_uint64 b = (if v <? 0 then Throw "Negative gas value." else Ok v).
Proof.
  intros Hv. destruct (decide (v = 0)) as [->|Hv0].
  { exists []. repeat split; [constructor|simpl; lia]. }
  destruct (serialize_canonical v Hv Hv0) as (n & Hn & Hf & E). exists (canonical n v).
  pose proof (canonical_ok n v) as Hok. split; [done|]. split; [done|]. rewrite length_canonical. split; [lia|].
  destruct (snoc_or_nil (canonical n v)) as [En|(p & h & Ep)].
  { apply (f_equal length) in En. rewrite length_canonical in En. destruct Hf. simpl in En. lia. }
  rewrite Ep in *. apply bytes_ok_app in Hok as (Hp & Hh). apply Forall_cons_iff in Hh as (Hh & _).
  assert (length p <= 7)%nat as Hl by (apply (f_equal length) in Ep; rewrite length_canonical, length_app in Ep; simpl in *; lia).
  apply serialize_iff in E as (-> & _); [|done..|lia].
  unfold CScriptNum.vch_to_uint64. rewrite last_last. rewrite length_app. cbn [length].
  replace (8 <? _) with false by lia. destruct (p ++ [h]) eqn:El; [by destruct p|]. rewrite <- El.
  rewrite or_bytes_spec; [|lia|by apply bytes_ok_snoc|simpl; lia].
  rewrite land_80 by done. pose proof (w_pos p) as Hw. pose proof (w_63 p Hl) as Hw2.
  pose proof (ReadLE_range p Hp) as Hr. rewrite ReadLE_app. cbn [ReadLE]. unfold num, is_byte in *.
  destruct (Z.ltb_spec h 128); cbn [negb].
  - replace (_ <? 0) with false by nia. f_equal. unfold wrap. rewrite Z.mod_small by nia. nia.
  - replace (_ <? 0) with true by nia. done.
Qed.

(** ** Instructions *)

(** An instruction a script is built from: a push of data, or an opcode that
    pushes none. *)
Inductive instr := Push (b : bytes) | Opcode (op : Z).
Definition instr_ok (i : instr) : Prop :=
  match i with Push b => bytes_ok b /\ size b < 2 ^ 32 | Opcode op => OP_PUSHDATA4 < op <= 0xff end.
(** The opcode the parser finds, and the data. *)
Definition opcode_of (i : instr) : Z :=
  match i with
  | Push b => if size b <? OP_PUSHDATA1 then size b else if size b <=? 0xff then OP_PUSHDATA1
              else if size b <=? 0xffff then OP_PUSHDATA2 else OP_PUSHDATA4
  | Opcode op => op
  end.
Definition data_of (i : instr) : bytes := match i with Push b => b | Opcode _ => [] end.
(** The stream [CScript() << i1 << i2 << ...]. *)
Definition append (s : bytes) (i : instr) : outcome bytes :=
  match i with Push b => Ok (CScript.push_data b s) | Opcode op => CScript.push_opcode op s end.
Fixpoint build (s : bytes) (ins : list instr) : outcome bytes :=
  match ins with [] => Ok s | i :: ins => s ← append s i; build s ins end.
Definition instr_bytes (i : instr) : bytes :=
  match i with Push b => CScript.push_header b ++ b | Opcode op => [op] end.
Definition script_bytes (ins : list instr) : bytes := concat (map instr_bytes ins).

Lemma build_spec ins : forall s, Forall instr_ok ins -> build s ins = Ok (s ++ script_bytes ins).
Proof.
  induction ins as [|i ins IH]; intros s Hok; [by rewrite app_nil_r|]. apply Forall_cons_iff in Hok as (Hi & Hok).
  unfold script_bytes. cbn [build map concat].
  assert (append s i = Ok (s ++ instr_bytes i)) as ->; [|cbn [mbind outcome_bind]; by rewrite IH, <- app_assoc].
  destruct i as [b|op]; simpl in Hi |- *; [done|]. unfold CScript.push_opcode, OP_PUSHDATA4 in *.
  by replace ((op <? 0) || (255 <? op)) with false by lia.
Qed.

Lemma take_data_app op b r : CScript.take_data op (size b) (b ++ r) = Some (op, b, r).
Proof.
  unfold CScript.take_data. replace (_ <? _) with false by (rewrite length_app; lia).
  by rewrite Nat2Z.id, take_app_length, drop_app_length.
Qed.

Lemma length_field_read n x (r : bytes) : 0 <= x < 256 ^ Z.of_nat n ->
  (size (WriteLE n x ++ r) <? Z.of_nat n) = false /\ ReadLE (take n (WriteLE n x ++ r)) = x /\ drop n (WriteLE n x ++ r) = r.
Proof.
  intros Hx. pose proof (length_WriteLE n x) as Hl. split; [rewrite length_app; lia|].
  split; [rewrite take_app_length', ReadLE_WriteLE, Z.mod_small by done; done|by apply drop_app_length'].
Qed.

Lemma GetOp2_instr i r : instr_ok i -> CScript.GetOp2 (instr_bytes i ++ r) = Some (opcode_of i, data_of i, r).
Proof.
  destruct i as [b|op]; cbn [instr_ok instr_bytes opcode_of data_of].
  - intros (_ & Hb). rewrite <- app_assoc. unfold CScript.push_header, OP_PUSHDATA1, OP_PUSHDATA2, OP_PUSHDATA4 in *.
    destruct (Z.ltb_spec (size b) 76); [|destruct (Z.leb_spec (size b) 255); [|destruct (Z.leb_spec (size b) 65535)]];
      cbn [app CScript.GetOp2]; unfold OP_PUSHDATA1, OP_PUSHDATA2, OP_PUSHDATA4 in *.
    + replace (size b <=? 78) with true by lia. replace (size b <? 76) with true by lia. apply take_data_app.
    + replace (size (size b :: b ++ r) <? 1) with false by (cbn [length]; lia).
      cbn [take drop ReadLE]. rewrite Z.mul_0_r, Z.add_0_r. apply take_data_app.
    + destruct (length_field_read 2 (size b) (b ++ r)) as (E1 & E2 & E3); [simpl; lia|].
      change (Z.of_nat 2) with 2 in E1. cbn [Z.leb Z.ltb Z.eqb Z.compare Pos.compare Pos.compare_cont Pos.eqb].
      rewrite E1, E2, E3. apply take_data_app.
    + destruct (length_field_read 4 (size b) (b ++ r)) as (E1 & E2 & E3); [simpl; lia|].
      change (Z.of_nat 4) with 4 in E1. cbn [Z.leb Z.ltb Z.eqb Z.compare Pos.compare Pos.compare_cont Pos.eqb].
      rewrite E1, E2, E3. apply take_data_app.
  - unfold OP_PUSHDATA4. intros Hop. cbn [app CScript.GetOp2]. unfold OP_PUSHDATA4. by replace (op <=? 78) with false by lia.
Qed.

(** [GetOp2] moves forward, so every loop over a script ends. *)
Lemma take_data_shrinks op n pc o v pc' : CScript.take_data op n pc = Some (o, v, pc') -> (length pc' <= length pc)%nat.
Proof. unfold CScript.take_data. case_match; intros [= <- <- <-]. rewrite length_drop. lia. Qed.
Lemma GetOp2_shrinks pc o v pc' : CScript.GetOp2 pc = Some (o, v, pc') -> (length pc' < length pc)%nat.
Proof.
  destruct pc as [|op pc]; [done|]. cbn [CScript.GetOp2 length].
  repeat case_match; try (by intros [= <- <- <-]; lia); try done;
    intros E%take_data_shrinks; rewrite ?length_drop in E; lia.
Qed.

Section Over.
Context {A : Type} (bad : A -> A) (body : A -> Z -> bytes -> A).

Lemma for_ops_more f : forall g pc a, (length pc < f)%nat -> (length pc < g)%nat ->
  CScript.for_ops f pc bad body a = CScript.for_ops g pc bad body a.
Proof.
  induction f as [|f IH]; intros [|g] pc a Hf Hg; [lia..|]. cbn [CScript.for_ops].
  destruct pc as [|b pc]; [done|]. destruct (CScript.GetOp2 (b :: pc)) as [[[o v] pc']|] eqn:E; [|done].
  apply GetOp2_shrinks in E. apply IH; lia.
Qed.

Lemma over_unfold s a : CScript.over s bad body a =
  match s with
  | [] => a
  | _ => match CScript.GetOp2 s with
         | None => bad a
         | Some (o, v, s') => CScript.over s' bad body (body a o v)
         end
  end.
Proof.
  unfold CScript.over at 1. cbn [CScript.for_ops]. destruct s as [|b s]; [done|].
  destruct (CScript.GetOp2 (b :: s)) as [[[o v] s']|] eqn:E; [|done]. apply GetOp2_shrinks in E.
  apply for_ops_more; cbn [length] in *; lia.
Qed.

Lemma over_script ins : forall a, Forall instr_ok ins ->
  CScript.over (script_bytes ins) bad body a = foldl (fun a i => body a (opcode_of i) (data_of i)) a ins.
Proof.
  induction ins as [|i ins IH]; intros a Hok; [done|]. apply Forall_cons_iff in Hok as (Hi & Hok).
  rewrite over_unfold. unfold script_bytes. cbn [map concat foldl]. fold (script_bytes ins).
  destruct (instr_bytes i ++ script_bytes ins) eqn:E.
  { pose proof (GetOp2_instr i (script_bytes ins) Hi) as H. by rewrite E in H. }
  rewrite <- E, GetOp2_instr by done. by apply IH.
Qed.
End Over.

Definition is_opcode (op : Z) (i : instr) : bool := match i with Opcode op' => op' =? op | Push _ => false end.

Lemma Find_count op ins : Forall instr_ok ins -> OP_PUSHDATA4 < op ->
  CScript.Find op (script_bytes ins) = size (List.filter (is_opcode op) ins).
Proof.
  intros Hok Hop. unfold CScript.Find. rewrite over_script by done. clear Hok.
  assert (forall n, foldl (fun n i => if opcode_of i =? op then n + 1 else n) n ins
    = n + size (List.filter (is_opcode op) ins)) as E; [|by rewrite E].
  induction ins as [|i ins IH]; intros n; cbn [foldl List.filter]; [simpl; lia|]. rewrite IH.
  replace (opcode_of i =? op) with (is_opcode op i); [destruct (is_opcode op i); cbn [length]; lia|].
  destruct i as [b|o]; [|done]. unfold opcode_of, is_opcode, OP_PUSHDATA1, OP_PUSHDATA2, OP_PUSHDATA4 in *.
  symmetry. repeat case_match; lia.
Qed.

(** Numbers in scripts have one encoding.  For at most eight bytes, the
    constructor [CScriptNum(vch, true, nMaxNumSize)] accepts exactly the byte
    strings of at most [nMaxNumSize] bytes that [serialize] writes, and gives
    back the number that was serialized. *)
Theorem scriptnum_canonical vch v nMaxNumSize :
  bytes_ok vch -> nMaxNumSize <= 8 -> - 2 ^ 63 <= v < 2 ^ 63 ->
  CScriptNum.of_vch vch true nMaxNumSize = Ok v <->
  size vch <= nMaxNumSize /\ CScriptNum.serialize v = Ok vch.
Proof. apply of_vch_iff. Qed.

Lemma scriptnum_canonical_witness :
  CScriptNum.of_vch [0xe8; 0x83] true 4 = Ok (-1000) <-> 2 <= 4 /\ CScriptNum.serialize (-1000) = Ok [0xe8; 0x83].
Proof. apply (scriptnum_canonical [0xe8; 0x83] (-1000) 4); [repeat constructor; unfold is_byte; lia|lia|lia]. Defined.

(** An amount of gas or money that a contract script carries is read as it
    was written: [vch_to_uint64] of what [CScriptNum(v).getvch()] wrote is [v],
    and for a negative [v] it throws. *)
Theorem gas_number_roundtrip v : - 2 ^ 63 < v < 2 ^ 63 ->
  (b ← CScriptNum.serialize v; CScriptNum.vch_to_uint64 b) =
  if v <? 0 then Throw "Negative gas value." else Ok v.
Proof. intros Hv. destruct (vch_to_uint64_serialize v Hv) as (b & -> & _ & _ & E). done. Qed.

Lemma gas_number_roundtrip_witness :
  (b ← CScriptNum.serialize 2500000; CScriptNum.vch_to_uint64 b) = Ok 2500000.
Proof. apply (gas_number_roundtrip 2500000). lia. Defined.

(** A script built with [CScript() << i1 << i2 << ...] from pushes of data
    (of less than 2^32 bytes) and opcodes is parsed back by [GetOp] into these
    instructions, in order, with their data: every loop over the script is the
    fold over the instructions and reaches the end.  A byte of pushed data is
    never taken for an opcode: [Find(op)] counts the instructions [op] only. *)
Theorem script_instructions ins s :
  Forall instr_ok ins -> build [] ins = Ok s ->
  (forall A (bad : A -> A) (body : A -> Z -> bytes -> A) (a : A),
     CScript.over s bad body a = foldl (fun a i => body a (opcode_of i) (data_of i)) a ins) /\
  forall op, OP_PUSHDATA4 < op -> CScript.Find op s = size (List.filter (is_opcode op) ins).
Proof.
  intros Hok. rewrite build_spec by done. intros [= <-]. split; intros; [by apply over_script|by apply Find_count].
Qed.

(** A script that pushes the bytes 0xc1 (OP_CREATE) and 0xc2 (OP_CALL). *)
Definition sample_script : list instr := [Push [0xc1; 0xc2]; Push (replicate 80 0xc1); Opcode OP_CALL].
Lemma sample_script_ok : Forall instr_ok sample_script.
Proof.
  repeat constructor; try (unfold is_byte, OP_PUSHDATA4, OP_CALL; lia); try (simpl; lia).
Qed.
Lemma script_instructions_witness :
  exists s, build [] sample_script = Ok s /\ CScript.Find OP_CREATE s = 0 /\ CScript.Find OP_CALL s = 1.
Proof.
  eexists. split; [vm_compute; reflexivity|].
  split; apply (script_instructions sample_script _ sample_script_ok eq_refl); reflexivity.
Defined.
