(* ===== verification/InterpreterSafe.v ===== *)
(** * The interpreter always returns

    Whatever the script, the stack and the checker, [EvalScript] returns: no loop
    runs on, no assertion fails and no arithmetic overflows.  The statement is
    carried through the opcodes by [safe], a judgement that composes along the
    statements of a block. *)

From S2P Require Import Prelude Script ScriptProofs Interpreter.
From Stdlib Require Import ZifyBool.

(** What the interpreter needs of the hash functions: they return bytes. *)
Class ScriptCryptoLaws `{SC : ScriptCrypto} : Prop := {
  RIPEMD160_ok v : bytes_ok (RIPEMD160 v);
  SHA1_ok v : bytes_ok (SHA1 v);
  SHA256_ok v : bytes_ok (SHA256 v);
}.

(** ** Numbers *)

Lemma lor_80_byte h : is_byte h -> is_byte (Z.lor h 0x80).
Proof.
  unfold is_byte. intros H. split; [apply Z.lor_nonneg; lia|].
  destruct (Z.eq_dec (Z.lor h 128) 0) as [->|Hn]; [lia|].
  assert (0 <= Z.lor h 128) by (apply Z.lor_nonneg; lia).
  change 256 with (2 ^ 8). apply Z.log2_lt_pow2; [lia|]. rewrite Z.log2_lor by lia.
  apply Z.max_lub_lt; [|done]. destruct (Z.eq_dec h 0) as [->|]; [done|]. apply Z.log2_lt_pow2; lia.
Qed.

Lemma magnitude_ok f : forall a, 0 <= a -> bytes_ok (CScriptNum.magnitude f a).
Proof.
  induction f as [|f IH]; intros a Ha; cbn [CScriptNum.magnitude]; [constructor|].
  destruct (a =? 0); [constructor|]. apply bytes_ok_cons. split.
  - rewrite land_255. apply is_byte_mod.
  - apply IH. by apply Z.shiftr_nonneg.
Qed.

Lemma bytes_ok_last l : bytes_ok l -> is_byte (List.last l 0).
Proof.
  intros H. destruct (snoc_or_nil l) as [->|(q & x & ->)]; [unfold is_byte; simpl; lia|].
  rewrite last_last. apply bytes_ok_app in H as (_ & H). by apply bytes_ok_cons in H as (H & _).
Qed.
Lemma bytes_ok_removelast l : bytes_ok l -> bytes_ok (removelast l).
Proof.
  intros H. destruct (snoc_or_nil l) as [->|(q & x & ->)]; [constructor|].
  rewrite removelast_last. by apply bytes_ok_app in H as (H & _).
Qed.

Lemma serialize_ok v : v <> CScriptNum.int64_min -> exists b, CScriptNum.serialize v = Ok b /\ bytes_ok b.
Proof.
  intros Hv. unfold CScriptNum.serialize. destruct (v =? 0); [by exists []; split; [done|constructor]|].
  destruct (Z.eqb_spec v CScriptNum.int64_min); [done|]. eexists. split; [done|].
  pose proof (magnitude_ok 8 (if v <? 0 then - v else v) ltac:(destruct (Z.ltb_spec v 0); lia)) as Hm.
  destruct (negb _); [|destruct (v <? 0)]; [|unfold CScriptNum.or_back|done].
  - apply bytes_ok_snoc; [done|]. unfold is_byte. destruct (v <? 0); lia.
  - apply bytes_ok_snoc; [by apply bytes_ok_removelast|]. by apply lor_80_byte, bytes_ok_last.
Qed.

Lemma of_vch_bound v b m : bytes_ok v -> m <= 8 ->
  match CScriptNum.of_vch v b m with
  | Ok n => Z.abs n < 2 ^ (8 * m)
  | Throw _ => True
  | _ => False
  end.
Proof.
  intros Hb Hm. unfold CScriptNum.of_vch. destruct (Z.ltb_spec m (size v)) as [|Hs]; [done|]. destruct (_ && _); [done|].
  destruct (snoc_or_nil v) as [->|(p & h & ->)].
  { simpl in *. apply Z.pow_pos_nonneg; lia. }
  rewrite length_app in Hs. cbn [length] in Hs.
  apply bytes_ok_app in Hb as (Hp & Hh). apply bytes_ok_cons in Hh as (Hh & _).
  rewrite set_vch_num; [|done|done|lia]. destruct (num_abs p h Hp Hh ltac:(lia)) as (-> & _).
  pose proof (ReadLE_range p Hp). pose proof (Z.mod_pos_bound h 128 ltac:(lia)).
  assert (256 ^ size p * 256 <= 2 ^ (8 * m)) as Hle; [|nia].
  change 256 with (256 ^ 1) at 2. rewrite <- Z.pow_add_r, pow_256 by lia. apply Z.pow_le_mono_r; lia.
Qed.

(** ** Safety *)
Create HintDb safe discriminated.

Definition vals (s : Vars) : Prop :=
  Forall bytes_ok (stack s) /\ Forall bytes_ok (altstack s) /\ bytes_ok (pc s) /\ bytes_ok (pbegincodehash s).
Definition depth (s : Vars) : Z := size (stack s) + size (altstack s).

(** How [EvalScript] may be left from inside the loop. *)
Definition left_ok (N : Z) (b : bool) (e : ScriptError) (s : Vars) : Prop :=
  Forall bytes_ok (stack s) /\ if b then e = SCRIPT_ERR_UNKNOWN_ERROR /\ size (stack s) <= N + 1 else e <> SCRIPT_ERR_OK.

Definition wpe {A} (N : Z) (m : EM A) (Q : A -> Vars -> Prop) (s : Vars) : Prop :=
  match m s with
  | (Ok (Go a), s') => Q a s'
  | (Ok (Ret b e), s') => left_ok N b e s'
  | (Throw _, s') => Forall bytes_ok (stack s')
  | _ => False
  end.
Definition safe {A} (N : Z) (m : EM A) (P : A -> Prop) : Prop :=
  forall s, vals s -> wpe N m (fun a s' => vals s' /\ pc s' = pc s /\ P a) s.

Lemma wpe_bind {A B} N (m : EM A) (k : A -> EM B) Q s :
  wpe N m (fun a s' => wpe N (k a) Q s') s -> wpe N (m ≫= k) Q s.
Proof. unfold wpe, mbind, EM_bind. destruct (m s) as [[[a|b e]| | | | |] s']; done. Qed.
Lemma wpe_mono {A} N (m : EM A) (Q R : A -> Vars -> Prop) s :
  (forall a s', Q a s' -> R a s') -> wpe N m Q s -> wpe N m R s.
Proof. unfold wpe. intros H. destruct (m s) as [[[a|b e]| | | | |] s']; auto. Qed.

Lemma wpe_get {A} N (f : Vars -> A) (Q : A -> Vars -> Prop) s : Q (f s) s -> wpe N (get f) Q s.
Proof. done. Qed.
Lemma wpe_put N f (Q : unit -> Vars -> Prop) s : Q tt (f s) -> wpe N (put f) Q s.
Proof. done. Qed.
Lemma wpe_require N b e (Q : unit -> Vars -> Prop) s :
  vals s -> e <> SCRIPT_ERR_OK -> (b = true -> Q tt s) -> wpe N (require b e) Q s.
Proof. intros Hs He HQ. unfold require. destruct b; [by apply HQ|]. by split; [apply Hs|]. Qed.

Section Safe.
Context `{SC : ScriptCrypto} `{SL : !ScriptCryptoLaws} (flags : Z) (checker : SignatureChecker) (sigversion : SigVersion) (N : Z).

Lemma safe_bind {A B} (m : EM A) (k : A -> EM B) P Q :
  safe N m P -> (forall a, P a -> safe N (k a) Q) -> safe N (m ≫= k) Q.
Proof.
  intros Hm Hk s Hs. apply wpe_bind. eapply wpe_mono; [|by apply Hm]. cbv beta. intros a s' (Hs' & Hpc & Ha).
  rewrite <- Hpc. by apply Hk.
Qed.
Lemma safe_ret {A} (a : A) (P : A -> Prop) : P a -> safe N (mret a) P.
Proof. intros Ha s Hs. done. Qed.
Lemma safe_weaken {A} (m : EM A) (P : A -> Prop) : safe N m P -> safe N m (fun _ => True).
Proof. intros H s Hs. eapply wpe_mono; [|by apply H]. by intros a s' (? & ? & _). Qed.
Lemma safe_if {A} (b : bool) (m n : EM A) P : safe N m P -> safe N n P -> safe N (if b then m else n) P.
Proof. by destruct b. Qed.
Lemma safe_error {A} e (P : A -> Prop) : e <> SCRIPT_ERR_OK -> safe N (error e) P.
Proof. intros He s Hs. split; [apply Hs|done]. Qed.
Lemma safe_require b e (P : unit -> Prop) : e <> SCRIPT_ERR_OK -> P tt -> safe N (require b e) P.
Proof. intros. unfold require. destruct b; [by apply safe_ret|by apply safe_error]. Qed.
Lemma safe_require_then {A} b e (m : EM A) P :
  e <> SCRIPT_ERR_OK -> (b = true -> safe N m P) -> safe N (require b e ≫= fun _ => m) P.
Proof.
  intros He Hm. unfold require. destruct b.
  - intros s Hs. by apply Hm.
  - intros s Hs. split; [apply Hs|done].
Qed.
Lemma safe_lift {A} (r : outcome A) (P : A -> Prop) :
  match r with Ok a => P a | Throw _ => True | _ => False end -> safe N (lift r) P.
Proof. intros H s Hs. unfold wpe, lift. destruct r; try done. apply Hs. Qed.
Lemma safe_get {A} (f : Vars -> A) (P : A -> Prop) : (forall s, vals s -> P (f s)) -> safe N (get f) P.
Proof. intros H s Hs. unfold wpe, get. auto. Qed.
Lemma safe_put f : (forall s, vals s -> vals (f s) /\ pc (f s) = pc s) -> safe N (put f) (fun _ => True).
Proof. intros H s Hs. unfold wpe, put. destruct (H s Hs). done. Qed.

Lemma safe_stacktop i : safe N (stacktop i) bytes_ok.
Proof.
  intros s Hs. unfold wpe, stacktop. destruct Hs as (H1 & H2 & H3 & H4). 
  destruct (if i <=? 0 then None else _) as [v|] eqn:E; [|done]. destruct (i <=? 0); [done|].
  repeat split; try done. by eapply Forall_lookup_1 in H1.
Qed.
Lemma safe_popstack : safe N popstack (fun _ => True).
Proof.
  intros s (H1 & H2 & H3 & H4). unfold wpe, popstack. destruct (stack s) as [|v l] eqn:E; [by rewrite E|].
  apply Forall_cons_iff in H1 as (_ & H1). done.
Qed.
Lemma safe_push v : bytes_ok v -> safe N (push_back v) (fun _ => True).
Proof.
  intros Hv. apply safe_put. intros s (H1 & H2 & H3 & H4). repeat split; try done.
  apply Forall_cons_iff. done.
Qed.
Lemma safe_stack : safe N (get stack) (Forall bytes_ok).
Proof. apply safe_get. intros s Hs. apply Hs. Qed.
Lemma safe_need n : safe N (need n) (fun _ => True).
Proof. eapply safe_bind; [apply safe_stack|]. intros l _. by apply safe_require. Qed.
Lemma safe_number i m : m <= 8 -> safe N (number flags i m) (fun n => Z.abs n < 2 ^ (8 * m)).
Proof.
  intros Hm. eapply safe_bind; [apply safe_stacktop|]. intros v Hv. apply safe_lift.
  by apply of_vch_bound.
Qed.
Lemma safe_push_number n : n <> CScriptNum.int64_min -> safe N (push_number n) (fun _ => True).
Proof.
  intros Hn. destruct (serialize_ok n Hn) as (b & E & Hb). eapply (safe_bind _ _ bytes_ok).
  - apply safe_lift. by rewrite E.
  - intros v Hv. by apply safe_push.
Qed.
Lemma safe_num4 i : safe N (num4 flags i) (fun n => Z.abs n < 2 ^ 32).
Proof. by apply safe_number. Qed.
Lemma safe_reject o : o <> Some SCRIPT_ERR_OK -> safe N (reject o) (fun _ => True).
Proof. intros H. destruct o as [e|]; [apply safe_error; congruence|by apply safe_ret]. Qed.
Lemma of_bool_ok b : bytes_ok (of_bool b).
Proof. destruct b; repeat constructor; unfold is_byte; lia. Qed.
#[local] Hint Resolve safe_stacktop safe_popstack safe_stack safe_need safe_num4 of_bool_ok : safe.

(** Walks along the statements of a block. *)
Ltac step :=
  match goal with
  | |- safe _ (@mbind _ _ unit _ _ (require _ _)) _ => apply safe_require_then; [done|intros ?]
  | |- safe _ (@mbind _ _ unit _ _ _) _ => eapply (safe_bind _ _ (fun _ => True)); [|intros _ _]
  | |- safe _ (@mbind _ _ _ _ _ (get stack)) _ => eapply (safe_bind _ _ (Forall bytes_ok)); [apply safe_stack|intros ? ?]
  | |- safe _ (@mbind _ _ _ _ _ (get _)) _ => eapply (safe_bind _ _ (fun _ => True)); [by apply safe_get|intros ? _]
  | |- safe _ (@mbind _ _ _ _ _ (stacktop _)) _ => eapply safe_bind; [apply safe_stacktop|intros ? ?]
  | |- safe _ (@mbind _ _ _ _ _ (num4 _ _)) _ => eapply safe_bind; [apply safe_num4|intros ? ?]
  | |- safe _ (@mbind _ _ _ _ _ (number _ _ _)) _ => eapply safe_bind; [apply safe_number; lia|intros ? ?]
  | |- safe _ (mret _) _ => by apply safe_ret
  | |- safe _ (error _) _ => by apply safe_error
  | |- safe _ (require _ _) _ => by apply safe_require
  | |- safe _ (push_back _) _ => apply safe_push; by auto with safe nocore
  | |- safe _ (push_number _) _ => apply safe_push_number; first [lia | idtac]
  | |- safe _ (if _ then _ else _) _ => apply safe_if
  | |- safe _ (let _ := _ in _) _ => cbv zeta
  | |- safe _ _ _ => solve [auto with safe nocore]
  end.
Ltac steps := repeat step.

Lemma discouraged_safe : safe N (discouraged flags) (fun _ => True).
Proof. unfold discouraged. steps. Qed.
#[local] Hint Resolve discouraged_safe : safe.

Lemma case_CHECKLOCKTIMEVERIFY_safe : safe N (case_CHECKLOCKTIMEVERIFY flags checker) (fun _ => True).
Proof. unfold case_CHECKLOCKTIMEVERIFY. steps. Qed.
Lemma case_CHECKSEQUENCEVERIFY_safe : safe N (case_CHECKSEQUENCEVERIFY flags checker) (fun _ => True).
Proof. unfold case_CHECKSEQUENCEVERIFY. steps. Qed.
Lemma safe_put_vfExec f : safe N (put (fun s => set_vfExec (f s) s)) (fun _ => True).
Proof. by apply safe_put. Qed.
Lemma case_IF_safe opcode fExec : safe N (case_IF flags sigversion opcode fExec) (fun _ => True).
Proof.
  unfold case_IF. eapply (safe_bind _ _ (fun _ => True)); [|intros; apply (safe_put_vfExec (fun s => a :: vfExec s))]. steps.
Qed.
Lemma case_ELSE_safe : safe N case_ELSE (fun _ => True).
Proof. unfold case_ELSE. step. destruct a; [step|]. by apply safe_put. Qed.
Lemma case_ENDIF_safe : safe N case_ENDIF (fun _ => True).
Proof. unfold case_ENDIF. step. destruct a; [step|]. by apply safe_put. Qed.
Lemma case_VERIFY_safe : safe N case_VERIFY (fun _ => True).
Proof. unfold case_VERIFY. steps. Qed.
Lemma case_TOALTSTACK_safe : safe N case_TOALTSTACK (fun _ => True).
Proof.
  unfold case_TOALTSTACK. steps. apply safe_put. intros s (Hs1 & Hs2 & Hs3 & Hs4). repeat split; try done.
  by apply Forall_cons_iff.
Qed.
Lemma case_FROMALTSTACK_safe : safe N case_FROMALTSTACK (fun _ => True).
Proof.
  unfold case_FROMALTSTACK. eapply (safe_bind _ _ (Forall bytes_ok)); [apply safe_get; by intros s (_ & H & _)|].
  intros [|v l] Hl; [step|]. apply Forall_cons_iff in Hl as (Hv & Hl). steps.
  apply safe_put. intros s (Hs1 & Hs2 & Hs3 & Hs4). done.
Qed.

Lemma rearrange_ok opcode l l' : Forall bytes_ok l -> rearrange opcode l = Some l' -> Forall bytes_ok l'.
Proof.
  intros Hl. unfold rearrange, stack_2DROP, stack_2DUP, stack_3DUP, stack_2OVER, stack_2ROT, stack_2SWAP, stack_IFDUP, stack_DROP, stack_DUP, stack_NIP, stack_OVER, stack_ROT, stack_SWAP, stack_TUCK.
  repeat case_match; intros [= <-]; subst; repeat apply Forall_cons_iff in Hl as [? Hl];
    repeat (apply Forall_cons_iff; split); try done.
Qed.
Lemma case_rearrange_safe opcode : safe N (case_rearrange opcode) (fun _ => True).
Proof.
  unfold case_rearrange. step. destruct (rearrange opcode a) as [l'|] eqn:E; [|step].
  apply safe_put. intros s (Hs1 & Hs2 & Hs3 & Hs4). repeat split; try done. cbn. eapply rearrange_ok; [|exact E]. done.
Qed.
Lemma case_DEPTH_safe : safe N case_DEPTH (fun _ => True).
Proof. unfold case_DEPTH. steps. unfold CScriptNum.int64_min. lia. Qed.
Lemma case_SIZE_safe : safe N case_SIZE (fun _ => True).
Proof. unfold case_SIZE. steps. unfold CScriptNum.int64_min. lia. Qed.
Lemma case_PICK_safe opcode : safe N (case_PICK flags opcode) (fun _ => True).
Proof.
  unfold case_PICK. steps. apply safe_put. intros s (Hs1 & Hs2 & Hs3 & Hs4). repeat split; try done.
  apply Forall_app. split; [by apply Forall_take|by apply Forall_drop].
Qed.
Lemma case_EQUAL_safe opcode : safe N (case_EQUAL opcode) (fun _ => True).
Proof. unfold case_EQUAL. steps. Qed.
Lemma case_WITHIN_safe : safe N (case_WITHIN flags) (fun _ => True).
Proof. unfold case_WITHIN. steps. Qed.
Lemma case_hash_safe opcode : safe N (case_hash opcode) (fun _ => True).
Proof.
  unfold case_hash, Hash160, Hash256. steps. apply safe_push.
  repeat case_match; auto using RIPEMD160_ok, SHA1_ok, SHA256_ok.
Qed.

Ltac if_cases := repeat match goal with |- context [if ?b then _ else _] => destruct b eqn:? end.
Lemma unary_bound opcode n : Z.abs n < 2 ^ 32 ->
  is_one opcode [OP_1ADD; OP_1SUB; OP_NEGATE; OP_ABS; OP_NOT; OP_0NOTEQUAL] = true ->
  match unary opcode n with Ok m => Z.abs m < 2 ^ 33 | _ => False end.
Proof.
  intros Hn. unfold is_one, unary, CScriptNum.add_assign, CScriptNum.sub_assign, CScriptNum.negate, b2z,
    CScriptNum.int64_min, CScriptNum.int64_max. cbn [existsb].
  intros. if_cases; lia.
Qed.
Lemma case_unary_safe opcode :
  is_one opcode [OP_1ADD; OP_1SUB; OP_NEGATE; OP_ABS; OP_NOT; OP_0NOTEQUAL] = true ->
  safe N (case_unary flags opcode) (fun _ => True).
Proof.
  intros Hop. unfold case_unary. steps. eapply (safe_bind _ _ (fun m => Z.abs m < 2 ^ 33)).
  - apply safe_lift. pose proof (unary_bound opcode a) as Hu. destruct (unary opcode a); by auto.
  - intros m Hm. steps. unfold CScriptNum.int64_min. lia.
Qed.

Definition binary_ops : list Z :=
  [OP_ADD; OP_SUB; OP_BOOLAND; OP_BOOLOR; OP_NUMEQUAL; OP_NUMEQUALVERIFY; OP_NUMNOTEQUAL; OP_LESSTHAN;
   OP_GREATERTHAN; OP_LESSTHANOREQUAL; OP_GREATERTHANOREQUAL; OP_MIN; OP_MAX].
Lemma binary_bound opcode n m : Z.abs n < 2 ^ 32 -> Z.abs m < 2 ^ 32 -> is_one opcode binary_ops = true ->
  match binary opcode n m with Ok r => Z.abs r < 2 ^ 33 | _ => False end.
Proof.
  intros Hn Hm. unfold is_one, binary_ops, binary, checked64, CScriptNum.int64_min, CScriptNum.int64_max, b2z. cbn [existsb].
  intros. if_cases; lia.
Qed.
Lemma case_binary_safe opcode : is_one opcode binary_ops = true -> safe N (case_binary flags opcode) (fun _ => True).
Proof.
  intros Hop. unfold case_binary. steps. eapply (safe_bind _ _ (fun m => Z.abs m < 2 ^ 33)).
  - apply safe_lift. pose proof (binary_bound opcode a a0) as Hu. destruct (binary opcode a a0); by auto.
  - intros m Hm. steps. unfold CScriptNum.int64_min. lia.
Qed.

Lemma CheckSignatureEncoding_error v : CheckSignatureEncoding v flags <> Some SCRIPT_ERR_OK.
Proof. unfold CheckSignatureEncoding, IsLowDERSignature. repeat case_match; congruence. Qed.
Lemma CheckPubKeyEncoding_error v : CheckPubKeyEncoding v flags sigversion <> Some SCRIPT_ERR_OK.
Proof. unfold CheckPubKeyEncoding. repeat case_match; congruence. Qed.
Lemma check_encodings_safe a b : safe N (check_encodings flags sigversion a b) (fun _ => True).
Proof.
  unfold check_encodings. step; apply safe_reject; [apply CheckSignatureEncoding_error|apply CheckPubKeyEncoding_error].
Qed.
#[local] Hint Resolve check_encodings_safe : safe.

Lemma case_CHECKSIG_safe opcode : safe N (case_CHECKSIG flags checker sigversion opcode) (fun _ => True).
Proof. unfold case_CHECKSIG. steps. Qed.

Lemma drop_sigs_safe n : forall isig code, safe N (drop_sigs sigversion n isig code) (fun _ => True).
Proof. induction n as [|n IH]; intros isig code; cbn [drop_sigs]; steps. Qed.
Lemma sig_loop_safe f : forall code isig ikey nSigs nKeys, nKeys <= Z.of_nat f -> nSigs <= nKeys ->
  safe N (sig_loop flags checker sigversion f code isig ikey nSigs nKeys) (fun _ => True).
Proof.
  induction f as [|f IH]; intros code isig ikey nSigs nKeys Hk Hs; cbn [sig_loop].
  - replace (nSigs <=? 0) with true by lia. steps.
  - step; [step|]. do 2 step. step; [step|]. cbv zeta. destruct (_ <? _) eqn:E; [step|].
    apply IH; [lia|]. destruct (CheckSig _ _ _ _ _); lia.
Qed.
Lemma clean_up_safe n : forall ok ikey2, safe N (clean_up flags n ok ikey2) (fun _ => True).
Proof. induction n as [|n IH]; intros ok ikey2; cbn [clean_up]; steps. Qed.
Lemma case_CHECKMULTISIG_safe verify : safe N (case_CHECKMULTISIG flags checker sigversion verify) (fun _ => True).
Proof.
  unfold case_CHECKMULTISIG. step; [step|]. step. cbv zeta. step. step; [by apply safe_put|]. step. step. step; [step|].
  step. step. step; [step|]. step.
  eapply safe_bind; [apply drop_sigs_safe|]. intros code' _.
  eapply safe_bind; [apply sig_loop_safe; lia|]. intros ok _.
  step; [apply clean_up_safe|]. steps.
Qed.

(** [CREATE], [CALL] and [OOPS]: the only way to leave with success. *)
Lemma case_contract_safe opcode (Q : unit -> Vars -> Prop) s :
  vals s -> is_byte opcode -> depth s <= N -> wpe N (case_contract opcode) Q s.
Proof.
  intros (H1 & H2 & H3 & H4) Hop Hd. unfold depth in Hd. unfold wpe, case_contract. split.
  - apply Forall_cons_iff. split; [by apply bytes_ok_cons|done].
  - split; [done|]. cbn [stack set_stack length]. lia.
Qed.

#[local] Hint Resolve case_CHECKLOCKTIMEVERIFY_safe case_CHECKSEQUENCEVERIFY_safe case_IF_safe case_ELSE_safe
  case_ENDIF_safe case_VERIFY_safe case_TOALTSTACK_safe case_FROMALTSTACK_safe case_rearrange_safe case_DEPTH_safe
  case_SIZE_safe case_PICK_safe case_EQUAL_safe case_unary_safe case_binary_safe case_WITHIN_safe case_hash_safe
  case_CHECKSIG_safe case_CHECKMULTISIG_safe : safe.

Lemma switch_safe opcode fExec s : vals s -> is_byte opcode -> depth s <= N ->
  wpe N (switch flags checker sigversion opcode fExec) (fun _ s' => vals s' /\ pc s' = pc s) s.
Proof.
  intros Hs Hop Hd.
  assert (forall m, safe N m (fun _ : unit => True) -> wpe N m (fun _ s' => vals s' /\ pc s' = pc s) s) as Hsafe.
  { intros m Hm. eapply wpe_mono; [|by apply Hm]. by intros ? ? (? & ? & _). }
  unfold switch. fold binary_ops.
  repeat match goal with
  | |- wpe _ (if ?b then _ else _) _ _ =>
      destruct b eqn:?; [first [by apply case_contract_safe | apply Hsafe; unfold case_SMARTCODE, case_pushnum; steps]|]
  end.
  - unfold CScriptNum.int64_min, OP_1. unfold is_byte in Hop. lia.
  - apply safe_put. by intros s' (? & ? & ? & ?).
  - apply Hsafe. step.
Qed.

Lemma GetOp2_ok p o v p' : bytes_ok p -> CScript.GetOp2 p = Some (o, v, p') -> is_byte o /\ bytes_ok v /\ bytes_ok p'.
Proof.
  intros Hp. destruct p as [|b p]; [done|]. apply bytes_ok_cons in Hp as (Hb & Hp). cbn [CScript.GetOp2].
  unfold CScript.take_data. repeat case_match; intros [= <- <- <-]; split; try done;
    (split; [first [constructor | apply bytes_ok_take]|try apply bytes_ok_drop]); try apply bytes_ok_drop; done.
Qed.

Lemma execute_safe opcode v fExec s : vals s -> is_byte opcode -> bytes_ok v -> depth s <= N ->
  wpe N (execute flags checker sigversion opcode v fExec) (fun _ s' => vals s' /\ pc s' = pc s) s.
Proof.
  intros Hs Hop Hv Hd. unfold execute. destruct (fExec && _).
  - eapply wpe_mono; [|apply (safe_bind _ _ (fun _ => True) (fun _ => True)); [|intros _ _|exact Hs]];
      [by intros ? ? (? & ? & _)|step|step].
  - destruct (fExec || _); [by apply switch_safe|done].
Qed.

Lemma turn_safe s : vals s -> depth s <= N -> pc s <> [] ->
  wpe N (turn flags checker sigversion) (fun _ s' => vals s' /\ depth s' <= MAX_STACK_SIZE /\ (length (pc s') < length (pc s))%nat) s.
Proof.
  intros Hs Hd Hne. unfold turn. do 2 (apply wpe_bind, wpe_get).
  destruct (CScript.GetOp2 (pc s)) as [[[opcode v] p']|] eqn:E; [|split; [apply Hs|done]].
  pose proof (GetOp2_shrinks _ _ _ _ E) as Hlen. assert (bytes_ok (pc s)) as Hpc by apply Hs.
  destruct (GetOp2_ok _ _ _ _ Hpc E) as (Hop & Hv & Hp').
  apply wpe_bind, wpe_put. set (s1 := set_pc p' s).
  assert (vals s1 /\ depth s1 <= N /\ pc s1 = p') as Hs1 by (by destruct Hs as (? & ? & ? & ?)).
  clearbody s1. apply wpe_bind, wpe_require; [apply Hs1|done|intros _]. apply wpe_bind.
  apply (wpe_mono _ _ (fun _ s' => vals s' /\ depth s' <= N /\ pc s' = p')).
  - clear Hs Hd Hne. intros [] s2 (Hs2 & Hd2 & Hp2). apply wpe_bind, wpe_require; [done|done|intros _].
    apply wpe_bind. eapply wpe_mono; [|by apply execute_safe]. intros [] s3 (Hs3 & Hp3).
    apply wpe_bind, wpe_get, wpe_require; [done|done|]. intros Hd3. unfold depth. split; [done|]. split; [lia|]. congruence.
  - destruct Hs1 as ((? & ? & ? & ?) & ? & ?). unfold count_op. destruct (OP_16 <? opcode); [|done].
    apply wpe_bind, wpe_put, wpe_bind, wpe_get, wpe_require; done.
Qed.

Lemma eval_loop_safe f : MAX_STACK_SIZE <= N -> forall s, vals s -> depth s <= N -> (length (pc s) <= f)%nat ->
  wpe N (eval_loop flags checker sigversion f) (fun _ s' => Forall bytes_ok (stack s') /\ depth s' <= N) s.
Proof.
  intros HN. induction f as [|f IH]; intros s Hs Hd Hf; cbn [eval_loop]; apply wpe_bind, wpe_get.
  - destruct (pc s); [|simpl in Hf; lia]. split; [apply Hs|done].
  - destruct (pc s) as [|b p] eqn:E; [split; [apply Hs|done]|]. apply wpe_bind.
    eapply wpe_mono; [|apply turn_safe; [done|done|by rewrite E]]. cbv beta. intros [] s' (Hs' & Hd' & Hlen).
    rewrite E in Hlen. apply IH; [done|lia|lia].
Qed.
End Safe.

(** C30: [EvalScript] returns for every script, stack, flag word and checker: its
    loops end, no assertion fails, and no integer operation overflows.  When it
    returns true it has set [SCRIPT_ERR_OK], or left [SCRIPT_ERR_UNKNOWN_ERROR] at
    one of the contract opcodes, and the stack holds at most 1001 values (or one
    more than it held); when it returns false it has set an error; the values on
    the stack are byte strings. *)
Theorem EvalScript_total `{SC : ScriptCrypto} `{SL : !ScriptCryptoLaws}
  (flags : Z) (checker : SignatureChecker) (sigversion : SigVersion) (st : list bytes) (script : bytes) :
  bytes_ok script -> Forall bytes_ok st ->
  exists ok e st', EvalScript flags checker sigversion st script = (Ok (ok, e), st') /\
    Forall bytes_ok st' /\
    if ok then (e = SCRIPT_ERR_OK \/ e = SCRIPT_ERR_UNKNOWN_ERROR) /\ size st' <= Z.max (size st) MAX_STACK_SIZE + 1
    else e <> SCRIPT_ERR_OK.
Proof.
  intros Hscript Hst. unfold EvalScript. destruct (MAX_SCRIPT_SIZE <? size script); [by eexists _, _, _|].
  pose proof (eval_loop_safe flags checker sigversion (Z.max (size st) MAX_STACK_SIZE) (length script) ltac:(lia)
    (mkVars script script st [] [] 0)) as H.
  unfold wpe in H. destruct (eval_loop _ _ _ _ _) as [[[[]|b e]| | | | |] s']; cbn [stack altstack pc] in H.
  - destruct H as (H & Hd); [done|unfold depth; simpl; lia|done|]. unfold depth in Hd.
    destruct (vfExec s'); eexists _, _, _; (split; [done|]); split; try done. split; [by left|]. lia.
  - destruct H as (H & He); [done|unfold depth; simpl; lia|done|]. eexists _, _, _. split; [done|]. split; [done|].
    destruct b; [|done]. destruct He as (-> & He). split; [by right|]. done.
  - eexists _, _, _. split; [done|]. split; [|done]. apply H; [done|unfold depth; simpl; lia|done].
  - exfalso. apply H; [done|unfold depth; simpl; lia|done].
  - exfalso. apply H; [done|unfold depth; simpl; lia|done].
  - exfalso. apply H; [done|unfold depth; simpl; lia|done].
  - exfalso. apply H; [done|unfold depth; simpl; lia|done].
Qed.

(** Toy hash functions, to run scripts with. *)
Definition sample_crypto : ScriptCrypto := {|
  RIPEMD160 v := replicate 20 (size v mod 256);
  SHA1 v := replicate 20 1;
  SHA256 v := replicate 32 (List.fold_right Z.add 0 v mod 256);
  CheckLowS v := true;
|}.
Lemma sample_crypto_laws : ScriptCryptoLaws (SC := sample_crypto).
Proof. split; intros; apply bytes_ok_replicate; try apply is_byte_mod; unfold is_byte; lia. Qed.

(** [OP_1 OP_IF OP_2 OP_3 OP_ADD OP_ELSE OP_RETURN OP_ENDIF] *)
Definition sample_arith : bytes := [OP_1; OP_IF; OP_2; OP_3; OP_ADD; OP_ELSE; OP_RETURN; OP_ENDIF].
Lemma EvalScript_total_witness :
  exists ok e st', EvalScript (SC := sample_crypto) 0 BaseSignatureChecker SIGVERSION_BASE [] sample_arith = (Ok (ok, e), st') /\
    Forall bytes_ok st' /\
    if ok then (e = SCRIPT_ERR_OK \/ e = SCRIPT_ERR_UNKNOWN_ERROR) /\ size st' <= Z.max 0 MAX_STACK_SIZE + 1
    else e <> SCRIPT_ERR_OK.
Proof.
  apply (@EvalScript_total sample_crypto sample_crypto_laws 0 BaseSignatureChecker SIGVERSION_BASE [] sample_arith).
  - apply bytes_ok_check. vm_compute. reflexivity.
  - constructor.
Defined.
