(* ===== verification/InterpreterThms.v ===== *)
(** * What scripts do

    The interpreter on the scripts the program builds: a pay-to-public-key-hash
    output is spent by a valid signature and by nothing else, a multi-signature
    is accepted when the signatures match keys in their order, and an output
    that carries a contract is accepted without any signature. *)

From S2P Require Import Prelude Script ScriptProofs Interpreter InterpreterSafe.
From Stdlib Require Import ZifyBool.

(** ** Running one instruction *)
Lemma EM_go {A B} (m : EM A) (k : A -> EM B) s a s' : m s = (Ok (Go a), s') -> (m ≫= k) s = k a s'.
Proof. intros E. unfold mbind, EM_bind. by rewrite E. Qed.
Lemma EM_leave {A B} (m : EM A) (k : A -> EM B) s b e s' : m s = (Ok (Ret b e), s') -> (m ≫= k) s = (Ok (Ret b e), s').
Proof. intros E. unfold mbind, EM_bind. by rewrite E. Qed.
Lemma EM_assoc {A B C} (m : EM A) (k : A -> EM B) (h : B -> EM C) s : ((m ≫= k) ≫= h) s = (m ≫= fun a => k a ≫= h) s.
Proof. unfold mbind, EM_bind. by destruct (m s) as [[[]| | | | |] ?]. Qed.

Section Run.
Context `{SC : ScriptCrypto} (flags : Z) (checker : SignatureChecker) (sigversion : SigVersion).
Local Abbreviation loop := (eval_loop flags checker sigversion).

Lemma loop_end f s : pc s = [] -> loop f s = (Ok (Go tt), s).
Proof.
  intros E. destruct f; cbn [eval_loop]; rewrite (EM_go _ _ _ (pc s) s) by done; by rewrite E.
Qed.
Lemma loop_turn f s b p : pc s = b :: p -> loop (S f) s = (turn flags checker sigversion ;; loop f) s.
Proof. intros E. cbn [eval_loop]. rewrite (EM_go _ _ _ (pc s) s) by done. by rewrite E. Qed.
Lemma loop_instr f s i r : instr_ok i -> pc s = instr_bytes i ++ r -> loop (S f) s = (turn flags checker sigversion ;; loop f) s.
Proof.
  intros Hi E. pose proof (GetOp2_instr i r Hi) as H. rewrite <- E in H.
  destruct (pc s) as [|b p] eqn:Ep; [done|]. by eapply loop_turn.
Qed.

(** The turn, once the instruction is read. *)
Lemma turn_instr s i r : instr_ok i -> pc s = instr_bytes i ++ r -> size (data_of i) <= MAX_SCRIPT_ELEMENT_SIZE ->
  turn flags checker sigversion s =
  (count_op (opcode_of i) ;;
   require (negb (disabled (opcode_of i))) SCRIPT_ERR_DISABLED_OPCODE ;;
   execute flags checker sigversion (opcode_of i) (data_of i) (forallb id (vfExec s)) ;;
   n ← get (fun s => size (stack s) + size (altstack s));
   require (negb (MAX_STACK_SIZE <? n)) SCRIPT_ERR_STACK_SIZE) (set_pc r s).
Proof.
  intros Hi E Hd. unfold turn. do 2 (erewrite EM_go by done). rewrite E, GetOp2_instr by done.
  rewrite (EM_go _ _ _ tt (set_pc r s)) by done. rewrite (EM_go _ _ _ tt (set_pc r s)); [done|].
  unfold require. by replace (MAX_SCRIPT_ELEMENT_SIZE <? size (data_of i)) with false by lia.
Qed.

(** Data is pushed as it is, when it is written minimally or need not be. *)
Definition pushable (b : bytes) : Prop :=
  instr_ok (Push b) /\ size b <= MAX_SCRIPT_ELEMENT_SIZE /\
  fRequireMinimal flags && negb (CheckMinimalPush b (opcode_of (Push b))) = false.

Lemma opcode_of_push b : opcode_of (Push b) <= OP_PUSHDATA4.
Proof. unfold opcode_of, OP_PUSHDATA1, OP_PUSHDATA2, OP_PUSHDATA4. repeat case_match; lia. Qed.

Lemma disabled_range op : disabled op = true -> OP_16 < op.
Proof.
  unfold disabled, OP_CAT, OP_SUBSTR, OP_LEFT, OP_RIGHT, OP_INVERT, OP_AND, OP_OR, OP_XOR, OP_2MUL, OP_2DIV, OP_MUL,
    OP_DIV, OP_MOD, OP_LSHIFT, OP_RSHIFT, OP_16. lia.
Qed.

Lemma turn_push b r s : pushable b -> pc s = instr_bytes (Push b) ++ r -> forallb id (vfExec s) = true ->
  depth s < MAX_STACK_SIZE ->
  turn flags checker sigversion s = (Ok (Go tt), set_stack (b :: stack s) (set_pc r s)).
Proof.
  intros (Hi & Hb & Hm) E Hx Hd. rewrite (turn_instr s (Push b) r) by done. cbn [data_of]. rewrite Hx.
  pose proof (opcode_of_push b) as Hop. unfold count_op.
  replace (OP_16 <? opcode_of (Push b)) with false by (unfold OP_16, OP_PUSHDATA4 in *; lia).
  rewrite (EM_go _ _ _ tt (set_pc r s)) by done.
  destruct (disabled (opcode_of (Push b))) eqn:Ed.
  { apply disabled_range in Ed. unfold OP_16, OP_PUSHDATA4 in *. lia. }
  rewrite (EM_go _ _ _ tt (set_pc r s)) by done. unfold execute. cbn [andb].
  replace (opcode_of (Push b) <=? OP_PUSHDATA4) with true by lia. rewrite Hm.
  rewrite (EM_go _ _ _ tt (set_stack (b :: stack s) (set_pc r s))) by done.
  rewrite (EM_go _ _ _ (depth s + 1) (set_stack (b :: stack s) (set_pc r s))).
  - unfold require. by replace (MAX_STACK_SIZE <? depth s + 1) with false by lia.
  - unfold get, depth. cbn [stack altstack set_stack set_pc length]. do 3 f_equal. lia.
Qed.

Lemma loop_pushes bs : forall f s r, Forall pushable bs -> pc s = script_bytes (map Push bs) ++ r ->
  forallb id (vfExec s) = true -> depth s + size bs <= MAX_STACK_SIZE -> (length bs <= f)%nat ->
  loop f s = loop (f - length bs) (set_stack (rev bs ++ stack s) (set_pc r s)).
Proof.
  induction bs as [|b bs IH]; intros f s r Hbs E Hx Hd Hf.
  - simpl in *. rewrite Nat.sub_0_r. destruct s; cbn in *. by subst.
  - apply Forall_cons_iff in Hbs as (Hb & Hbs). unfold script_bytes in E. cbn [map concat] in E. fold (script_bytes (map Push bs)) in E.
    rewrite <- app_assoc in E. destruct f as [|f]; [simpl in Hf; lia|]. cbn [length] in *.
    rewrite (loop_instr f s (Push b) _ (proj1 Hb) E). rewrite (EM_go _ _ _ tt _ (turn_push b _ s Hb E Hx ltac:(lia))).
    rewrite (IH f _ r); [|done|done|done| |lia].
    + cbn [set_stack set_pc stack rev]. by rewrite <- app_assoc.
    + unfold depth in *. cbn [stack altstack set_stack set_pc length]. lia.
Qed.

(** An opcode that is counted and executed. *)
Lemma turn_opcode op r s : OP_16 < op <= 0xff -> disabled op = false -> pc s = op :: r -> forallb id (vfExec s) = true ->
  nOpCount s < MAX_OPS_PER_SCRIPT ->
  turn flags checker sigversion s =
  (switch flags checker sigversion op true ;;
   n ← get (fun s => size (stack s) + size (altstack s));
   require (negb (MAX_STACK_SIZE <? n)) SCRIPT_ERR_STACK_SIZE) (set_nOpCount (nOpCount s + 1) (set_pc r s)).
Proof.
  intros Hop Hdis E Hx Hn. rewrite (turn_instr s (Opcode op) r); [|unfold instr_ok, OP_16, OP_PUSHDATA4 in *; lia|done|done].
  cbn [opcode_of data_of]. rewrite Hx, Hdis. unfold count_op. replace (OP_16 <? op) with true by lia.
  set (s1 := set_nOpCount (nOpCount s + 1) (set_pc r s)).
  rewrite EM_assoc, (EM_go _ _ _ tt s1) by done. rewrite EM_assoc, (EM_go _ _ _ (nOpCount s + 1) s1) by done.
  unfold require at 1. replace (MAX_OPS_PER_SCRIPT <? nOpCount s + 1) with false by lia.
  rewrite (EM_go _ _ _ tt s1) by done. rewrite (EM_go _ _ _ tt s1) by done.
  unfold execute. by replace (op <=? OP_PUSHDATA4) with false by (unfold OP_16, OP_PUSHDATA4 in *; lia).
Qed.

(** ** Contract scripts *)
Definition contract_op (op : Z) : Prop := op = OP_CREATE \/ op = OP_CALL \/ op = OP_OOPS.
(** [CScript() << f1 << ... << fn << op] *)
Definition contract_script (fields : list bytes) (op : Z) : bytes := script_bytes (map Push fields) ++ [op].

Lemma switch_contract op s : contract_op op ->
  switch flags checker sigversion op true s =
  (Ok (Ret true SCRIPT_ERR_UNKNOWN_ERROR), set_stack ((op :: pc s) :: stack s) s).
Proof. intros [->|[->| ->]]; reflexivity. Qed.

Lemma script_bytes_length ins : Forall instr_ok ins -> (length ins <= length (script_bytes ins))%nat.
Proof.
  induction 1 as [|i ins Hi Hins IH]; [done|]. unfold script_bytes. cbn [map concat length]. fold (script_bytes ins).
  rewrite length_app. enough (1 <= length (instr_bytes i))%nat by lia.
  pose proof (GetOp2_instr i [] Hi) as H. rewrite app_nil_r in H. destruct (instr_bytes i); [done|simpl; lia].
Qed.
Lemma pushable_instr fields : Forall pushable fields -> Forall instr_ok (map Push fields).
Proof. intros H. apply Forall_map. eapply Forall_impl; [|exact H]. by intros b (Hb & _). Qed.

Lemma EvalScript_contract fields op st : contract_op op -> Forall pushable fields ->
  size (contract_script fields op) <= MAX_SCRIPT_SIZE -> size st + size fields <= MAX_STACK_SIZE ->
  EvalScript flags checker sigversion st (contract_script fields op) =
  (Ok (true, SCRIPT_ERR_UNKNOWN_ERROR), [op] :: rev fields ++ st).
Proof.
  intros Hop Hf Hsz Hst. unfold EvalScript. replace (MAX_SCRIPT_SIZE <? _) with false by lia.
  assert (length fields < length (contract_script fields op))%nat as Hlen.
  { unfold contract_script. rewrite length_app. cbn [length].
    pose proof (script_bytes_length _ (pushable_instr _ Hf)) as H. rewrite length_map in H. lia. }
  rewrite (loop_pushes fields _ _ [op]); [|done|done|done|unfold depth; cbn [stack altstack length]; lia|lia].
  cbn [stack]. destruct (length _ - length fields)%nat as [|f] eqn:Ef; [lia|].
  set (s1 := set_stack _ _). rewrite (loop_turn _ s1 op []) by done.
  rewrite (EM_leave _ _ _ true SCRIPT_ERR_UNKNOWN_ERROR (set_stack ([op] :: rev fields ++ st) (set_nOpCount 1 (set_pc [] s1)))).
  - done.
  - rewrite (turn_opcode op [] s1); [| |by destruct Hop as [->|[->| ->]]|done|done|done].
    + apply EM_leave. rewrite switch_contract by done. done.
    + destruct Hop as [->|[->| ->]]; unfold OP_16, OP_CREATE, OP_CALL, OP_OOPS; lia.
Qed.
End Run.

(** ** Witness programs and script hashes *)
Definition consistent (flags : Z) : Prop :=
  (has flags SCRIPT_VERIFY_CLEANSTACK = true -> has flags SCRIPT_VERIFY_WITNESS = true) /\
  (has flags SCRIPT_VERIFY_WITNESS = true -> has flags SCRIPT_VERIFY_P2SH = true).

Lemma final_checks_one flags v : consistent flags -> final_checks flags [] false [v] = Ok (true, SCRIPT_ERR_OK).
Proof.
  intros (H1 & H2). unfold final_checks.
  destruct (has flags SCRIPT_VERIFY_CLEANSTACK), (has flags SCRIPT_VERIFY_WITNESS), (has flags SCRIPT_VERIFY_P2SH);
    try done; try (by specialize (H1 eq_refl)); by specialize (H2 eq_refl).
Qed.
Lemma final_checks_unclean flags st : consistent flags -> has flags SCRIPT_VERIFY_CLEANSTACK = false ->
  final_checks flags [] false st = Ok (true, SCRIPT_ERR_OK).
Proof.
  intros (_ & H2) E. unfold final_checks. rewrite E.
  destruct (has flags SCRIPT_VERIFY_WITNESS), (has flags SCRIPT_VERIFY_P2SH); try done. by specialize (H2 eq_refl).
Qed.

(** A script that pushes and then names a contract opcode is neither a witness
    program nor a script hash. *)
Lemma push_header_cons b : exists c l, CScript.push_header b = c :: l /\ 0 <= c <= OP_PUSHDATA4 /\
  (c = size b /\ l = [] \/ OP_PUSHDATA1 <= c).
Proof.
  unfold CScript.push_header, OP_PUSHDATA1, OP_PUSHDATA2, OP_PUSHDATA4.
  destruct (Z.ltb_spec (size b) 76); [|destruct (size b <=? 255); [|destruct (size b <=? 65535)]]; eexists _, _; (split; [done|]);
    (split; [lia|]); first [by left | right; lia].
Qed.

Lemma contract_script_head fields op : contract_op op ->
  exists c l, contract_script fields op = c :: l /\ (c <= OP_PUSHDATA4 \/ OP_CREATE <= c).
Proof.
  intros Hop. unfold contract_script. destruct fields as [|b bs].
  - exists op, []. split; [done|]. right. destruct Hop as [->|[->| ->]]; unfold OP_CREATE, OP_CALL, OP_OOPS; lia.
  - unfold script_bytes. cbn [map concat instr_bytes]. destruct (push_header_cons b) as (c & l & -> & Hc & _).
    eexists _, _. split; [done|]. lia.
Qed.

Lemma nthz_cons_0 c l : nthz (c :: l) 0 = c.
Proof. done. Qed.
Lemma nthz_cons_1 c d l : nthz (c :: d :: l) 1 = d.
Proof. done. Qed.

Lemma contract_not_p2sh fields op : contract_op op -> CScript.IsPayToScriptHash (contract_script fields op) = false.
Proof.
  intros Hop. destruct (contract_script_head fields op Hop) as (c & l & -> & Hc).
  unfold CScript.IsPayToScriptHash, CScript.at_. change (nthz (c :: l) 0) with c.
  replace (c =? OP_HASH160) with false by (unfold OP_HASH160, OP_PUSHDATA4, OP_CREATE in *; lia).
  by rewrite andb_false_r.
Qed.

Lemma contract_not_witness fields op : contract_op op -> CScript.IsWitnessProgram (contract_script fields op) = None.
Proof.
  intros Hop. unfold CScript.IsWitnessProgram. destruct (_ || _) eqn:Esz; [done|].
  destruct (negb _ && _) eqn:E0; [done|]. destruct (Z.eqb_spec (CScript.at_ (contract_script fields op) 1 + 2) (size (contract_script fields op))) as [E|]; [|done].
  exfalso. destruct fields as [|b bs]; [simpl in Esz; lia|].
  unfold contract_script, script_bytes, CScript.at_ in *. cbn [map concat instr_bytes] in *.
  destruct (push_header_cons b) as (c & l & Eh & Hc & Hl). rewrite Eh in *. cbn [app] in *. rewrite nthz_cons_0 in E0.
  unfold OP_0, OP_1, OP_16, OP_PUSHDATA1, OP_PUSHDATA4 in *.
  assert (c = 0) as -> by lia. destruct Hl as [(Hb & ->)|]; [|lia]. destruct b; [|simpl in Hb; lia]. cbn [app] in *.
  destruct bs as [|g gs]; [simpl in Esz; lia|]. cbn [map concat instr_bytes] in *.
  destruct (push_header_cons g) as (d & m & Eg & Hd & Hm). rewrite Eg in *. cbn [app] in *. rewrite nthz_cons_1 in E.
  cbn [length] in *. rewrite !length_app in *. cbn [length] in *. destruct Hm as [(-> & ->)|]; [cbn [length] in *; lia|].
  unfold OP_PUSHDATA1 in *. lia.
Qed.

(** C39: an output that carries a contract is spendable by anyone.  For a script
    made of pushes and one of the opcodes [OP_CREATE], [OP_CALL] and [OP_OOPS],
    [VerifyScript] with an empty input script succeeds, whatever the checker of
    signatures says, under every consistent set of flags without the policy flags
    for minimal pushes and clean stacks (so under those of blocks). *)
Theorem contract_output_unprotected `{SC : ScriptCrypto} (flags : Z) (checker : SignatureChecker)
    (fields : list bytes) (op : Z) :
  consistent flags -> has flags SCRIPT_VERIFY_CLEANSTACK = false ->
  contract_op op -> Forall (pushable flags) fields ->
  size (contract_script fields op) <= MAX_SCRIPT_SIZE -> size fields <= MAX_STACK_SIZE ->
  VerifyScript flags checker [] (contract_script fields op) [] = Ok (true, SCRIPT_ERR_OK).
Proof.
  intros Hc Hclean Hop Hf Hsz Hn. unfold VerifyScript.
  replace (_ && negb (CScript.IsPushOnly [])) with false by (by rewrite andb_false_r).
  unfold eval at 1. cbn [EvalScript eval_loop length]. unfold eval_true, eval.
  assert (EvalScript flags checker SIGVERSION_BASE [] [] = (Ok (true, SCRIPT_ERR_OK), [])) as -> by done.
  rewrite EvalScript_contract by (try done; simpl; lia).
  assert (CastToBool [op] = true) as -> by (by destruct Hop as [->|[->| ->]]).
  unfold witness_program. rewrite contract_not_witness, contract_not_p2sh, andb_false_r by done.
  assert (final_checks flags [] false ([op] :: rev fields ++ []) = Ok (true, SCRIPT_ERR_OK)) as E
    by (by apply final_checks_unclean).
  by destruct (has flags SCRIPT_VERIFY_WITNESS).
Qed.

(** A call of a contract with amount zero, the address of the caller in the
    second field. *)
Definition sample_fields : list bytes := [[]; replicate 20 7; [1]; [2]; [0x60; 0x00]; replicate 20 9].
Lemma contract_output_unprotected_witness :
  VerifyScript (SC := sample_crypto) (Z.lor SCRIPT_VERIFY_P2SH SCRIPT_VERIFY_WITNESS) BaseSignatureChecker []
    (contract_script sample_fields OP_CALL) [] = Ok (true, SCRIPT_ERR_OK).
Proof.
  apply (@contract_output_unprotected sample_crypto (Z.lor SCRIPT_VERIFY_P2SH SCRIPT_VERIFY_WITNESS)
    BaseSignatureChecker sample_fields OP_CALL).
  - by split.
  - reflexivity.
  - right. left. reflexivity.
  - repeat constructor; try (apply bytes_ok_check; vm_compute; reflexivity); vm_compute; congruence.
  - vm_compute. congruence.
  - vm_compute. congruence.
Defined.

(** ** Paying to the hash of a public key *)
Section P2PKH.
Context `{SC : ScriptCrypto} (flags : Z) (checker : SignatureChecker) (sigversion : SigVersion).
Local Abbreviation loop := (eval_loop flags checker sigversion).
Local Abbreviation exec op := (switch flags checker sigversion op true).

Definition counted (op : Z) : bool := (OP_16 <? op) && (op <=? 0xff) && negb (disabled op).
(** The variables when the switch is entered. *)
Definition entered (r : bytes) (s : Vars) : Vars := set_nOpCount (nOpCount s + 1) (set_pc r s).

Lemma loop_go f s op r s' : counted op = true -> pc s = op :: r -> forallb id (vfExec s) = true ->
  nOpCount s < MAX_OPS_PER_SCRIPT -> exec op (entered r s) = (Ok (Go tt), s') -> depth s' <= MAX_STACK_SIZE ->
  loop (S f) s = loop f s'.
Proof.
  intros Hop E Hx Hn Hgo Hd. unfold counted in Hop. rewrite (loop_turn _ _ _ _ _ _ _ E).
  rewrite (EM_go _ _ _ tt s'); [done|]. rewrite (turn_opcode _ _ _ op r s); [|lia|lia|done..].
  rewrite (EM_go _ _ _ tt s') by done. rewrite (EM_go _ _ _ (depth s') s') by done.
  unfold require. by replace (MAX_STACK_SIZE <? depth s') with false by lia.
Qed.
Lemma loop_leave f s op r b e s' : counted op = true -> pc s = op :: r -> forallb id (vfExec s) = true ->
  nOpCount s < MAX_OPS_PER_SCRIPT -> exec op (entered r s) = (Ok (Ret b e), s') ->
  loop (S f) s = (Ok (Ret b e), s').
Proof.
  intros Hop E Hx Hn Hret. unfold counted in Hop. rewrite (loop_turn _ _ _ _ _ _ _ E). apply EM_leave.
  rewrite (turn_opcode _ _ _ op r s); [|lia|lia|done..]. by apply EM_leave.
Qed.

(** [CScript() << OP_DUP << OP_HASH160 << h << OP_EQUALVERIFY << OP_CHECKSIG] *)
Definition p2pkh (h : bytes) : bytes := CScript.push_data h [OP_DUP; OP_HASH160] ++ [OP_EQUALVERIFY; OP_CHECKSIG].

(** The outcome of [OP_CHECKSIG] as the last instruction. *)
Definition checksig_result (sig pubkey code : bytes) : (bool * ScriptError) + bool :=
  match CheckSignatureEncoding sig flags, CheckPubKeyEncoding pubkey flags sigversion with
  | Some e, _ => inl (false, e)
  | None, Some e => inl (false, e)
  | None, None =>
    if CheckSig checker sig pubkey (drop_sig sigversion code sig) sigversion then inr true
    else if has flags SCRIPT_VERIFY_NULLFAIL && (0 <? size sig) then inl (false, SCRIPT_ERR_SIG_NULLFAIL)
    else inr false
  end.

Lemma need_ok n s : n <= size (stack s) -> need n s = (Ok (Go tt), s).
Proof.
  intros H. unfold need. rewrite (EM_go _ _ _ (stack s) s) by done. unfold require. by replace (n <=? _) with true by lia.
Qed.
Lemma exec_hash160 s a st : stack s = a :: st -> exec OP_HASH160 s = (Ok (Go tt), set_stack (Hash160 a :: st) s).
Proof.
  intros E. change (exec OP_HASH160) with (case_hash OP_HASH160). unfold case_hash.
  rewrite (EM_go _ _ _ tt s) by (apply need_ok; rewrite E; cbn [length]; lia).
  rewrite (EM_go (stacktop 1) _ s a s) by (unfold stacktop; by rewrite E).
  erewrite EM_go by (unfold popstack; by rewrite E). done.
Qed.

Lemma exec_checksig s sig pubkey st : stack s = pubkey :: sig :: st ->
  match checksig_result sig pubkey (pbegincodehash s) with
  | inl (b, e) => exec OP_CHECKSIG s = (Ok (Ret b e), s)
  | inr ok => exec OP_CHECKSIG s = (Ok (Go tt), set_stack (of_bool ok :: st) s)
  end.
Proof.
  intros E. change (exec OP_CHECKSIG) with (case_CHECKSIG flags checker sigversion OP_CHECKSIG). unfold checksig_result, case_CHECKSIG.
  assert (need 2 s = (Ok (Go tt), s)) as En by (apply need_ok; rewrite E; cbn [length]; lia).
  rewrite !(EM_go _ _ _ _ _ En).
  rewrite !(EM_go (stacktop 2) _ s sig s) by (unfold stacktop; by rewrite E).
  rewrite !(EM_go (stacktop 1) _ s pubkey s) by (unfold stacktop; by rewrite E).
  rewrite !(EM_go (get pbegincodehash) _ s (pbegincodehash s) s) by done. cbv zeta.
  unfold check_encodings. rewrite !EM_assoc.
  destruct (CheckSignatureEncoding sig flags); [by apply EM_leave|]. rewrite !(EM_go (reject None) _ s tt s) by done.
  destruct (CheckPubKeyEncoding pubkey flags sigversion); [by apply EM_leave|]. rewrite !(EM_go (reject None) _ s tt s) by done.
  destruct (CheckSig _ _ _ _ _); cbn [negb andb].
  - rewrite (EM_go _ _ _ tt s) by done. do 3 (erewrite EM_go by (unfold popstack; cbn; by rewrite ?E)). done.
  - destruct (has flags SCRIPT_VERIFY_NULLFAIL && _); [by apply EM_leave|].
    rewrite (EM_go _ _ _ tt s) by done. do 3 (erewrite EM_go by (unfold popstack; cbn; by rewrite ?E)). done.
Qed.

Lemma pushable_direct b : bytes_ok b -> 2 <= size b < OP_PUSHDATA1 -> pushable flags b.
Proof.
  unfold OP_PUSHDATA1. intros Hb Hl. split; [split; [done|lia]|]. split; [unfold MAX_SCRIPT_ELEMENT_SIZE; lia|].
  unfold CheckMinimalPush, opcode_of, OP_PUSHDATA1. replace (size b <? 76) with true by lia.
  replace (size b =? 0) with false by lia. replace (size b =? 1) with false by lia.
  replace (size b <=? 75) with true by lia. rewrite Z.eqb_refl. by rewrite andb_false_r.
Qed.

Lemma exec_equalverify s a b st : stack s = a :: b :: st ->
  exec OP_EQUALVERIFY s =
  if bool_decide (b = a) then (Ok (Go tt), set_stack st s)
  else (Ok (Ret false SCRIPT_ERR_EQUALVERIFY), set_stack (vchFalse :: st) s).
Proof.
  intros E. change (exec OP_EQUALVERIFY) with (case_EQUAL OP_EQUALVERIFY). unfold case_EQUAL.
  assert (need 2 s = (Ok (Go tt), s)) as En by (apply need_ok; rewrite E; cbn [length]; lia).
  rewrite (EM_go _ _ _ _ _ En).
  rewrite (EM_go (stacktop 2) _ s b s) by (unfold stacktop; by rewrite E).
  rewrite (EM_go (stacktop 1) _ s a s) by (unfold stacktop; by rewrite E). cbv zeta.
  do 3 (erewrite EM_go by (unfold popstack; cbn; by rewrite ?E)). by destruct (bool_decide (b = a)).
Qed.

Lemma EvalScript_p2pkh sig pubkey h st : bytes_ok h -> size h = 20 -> size st + 4 <= MAX_STACK_SIZE ->
  EvalScript flags checker sigversion (pubkey :: sig :: st) (p2pkh h) =
  if bool_decide (Hash160 pubkey = h) then
    match checksig_result sig pubkey (p2pkh h) with
    | inl r => (Ok r, pubkey :: sig :: st)
    | inr ok => (Ok (true, SCRIPT_ERR_OK), of_bool ok :: st)
    end
  else (Ok (false, SCRIPT_ERR_EQUALVERIFY), vchFalse :: pubkey :: sig :: st).
Proof.
  intros Hh Hs Hst. unfold EvalScript.
  assert (CScript.push_header h = [20]) as Ehd by (unfold CScript.push_header; by rewrite Hs).
  assert (p2pkh h = OP_DUP :: OP_HASH160 :: instr_bytes (Push h) ++ [OP_EQUALVERIFY; OP_CHECKSIG]) as E
    by (unfold p2pkh, CScript.push_data; cbn [instr_bytes app]; by rewrite <- app_assoc).
  assert (length (p2pkh h) = 25%nat) as -> by (rewrite E; cbn [instr_bytes length]; rewrite Ehd, !length_app; cbn [length]; lia).
  replace (MAX_SCRIPT_SIZE <? _) with false by done. set (code := p2pkh h) in *.
  unfold MAX_STACK_SIZE in *.
  set (s0 := mkVars code code (pubkey :: sig :: st) [] [] 0).
  set (tail := [OP_EQUALVERIFY; OP_CHECKSIG]) in *. set (body := instr_bytes (Push h) ++ tail) in *.
  set (s1 := set_stack (pubkey :: pubkey :: sig :: st) (entered (OP_HASH160 :: body) s0)).
  rewrite (loop_go 24 s0 OP_DUP (OP_HASH160 :: body) s1); [|done|exact E|done|done|done|unfold depth, MAX_STACK_SIZE; cbn; lia].
  set (s2 := set_stack (Hash160 pubkey :: pubkey :: sig :: st) (entered body s1)).
  rewrite (loop_go 23 s1 OP_HASH160 body s2); [|done|done|done|done|by apply exec_hash160|unfold depth, MAX_STACK_SIZE; cbn; lia].
  rewrite (loop_instr _ _ _ 22 s2 (Push h) tail); [|by split; [done|lia]|done].
  rewrite (EM_go _ _ _ tt _ (turn_push _ _ _ h tail s2 (pushable_direct h Hh ltac:(unfold OP_PUSHDATA1; lia)) eq_refl eq_refl
    ltac:(unfold depth, MAX_STACK_SIZE; cbn; lia))).
  set (s3 := set_stack _ _).
  pose proof (exec_equalverify (entered [OP_CHECKSIG] s3) h (Hash160 pubkey) (pubkey :: sig :: st) eq_refl) as Ev.
  destruct (bool_decide (Hash160 pubkey = h)).
  - set (s4 := set_stack (pubkey :: sig :: st) (entered [OP_CHECKSIG] s3)) in *.
    rewrite (loop_go 21 s3 OP_EQUALVERIFY [OP_CHECKSIG] s4); [|done|done|done|done|done|unfold depth, MAX_STACK_SIZE; cbn; lia].
    pose proof (exec_checksig (entered [] s4) sig pubkey st eq_refl) as Ec. cbn [pbegincodehash entered set_nOpCount set_pc] in Ec.
    change (pbegincodehash s4) with code in Ec. destruct (checksig_result sig pubkey code) as [[b e]|ok].
    + by rewrite (loop_leave 20 s4 OP_CHECKSIG [] b e _ eq_refl eq_refl eq_refl eq_refl Ec).
    + rewrite (loop_go 20 s4 OP_CHECKSIG [] _ eq_refl eq_refl eq_refl eq_refl Ec) by (unfold depth, MAX_STACK_SIZE; cbn; lia).
      by rewrite loop_end.
  - by rewrite (loop_leave 21 s3 OP_EQUALVERIFY [OP_CHECKSIG] _ _ _ eq_refl eq_refl eq_refl eq_refl Ev).
Qed.
End P2PKH.

Lemma EvalScript_pushes `{SC : ScriptCrypto} flags checker sigversion st bs :
  Forall (pushable flags) bs -> size (script_bytes (map Push bs)) <= MAX_SCRIPT_SIZE -> size st + size bs <= MAX_STACK_SIZE ->
  EvalScript flags checker sigversion st (script_bytes (map Push bs)) = (Ok (true, SCRIPT_ERR_OK), rev bs ++ st).
Proof.
  intros Hbs Hsz Hst. unfold EvalScript. replace (MAX_SCRIPT_SIZE <? _) with false by lia.
  pose proof (script_bytes_length _ (pushable_instr _ _ Hbs)) as Hlen. rewrite length_map in Hlen.
  rewrite (loop_pushes _ _ _ bs _ _ []); [|done|by rewrite app_nil_r|done|unfold depth; cbn [stack altstack length]; lia|done].
  by rewrite loop_end.
Qed.

Lemma IsPushOnly_pushes bs : Forall instr_ok (map Push bs) -> CScript.IsPushOnly (script_bytes (map Push bs)) = true.
Proof.
  intros H. unfold CScript.IsPushOnly. rewrite over_script by done. clear H.
  induction bs as [|b bs IH]; [done|]. cbn [map foldl]. pose proof (opcode_of_push b).
  by replace (OP_16 <? opcode_of (Push b)) with false by (unfold OP_16, OP_PUSHDATA4 in *; lia).
Qed.

Lemma p2pkh_plain h : bytes_ok h -> size h = 20 ->
  CScript.IsWitnessProgram (p2pkh h) = None /\ CScript.IsPayToScriptHash (p2pkh h) = false.
Proof.
  intros Hh Hs. unfold CScript.IsWitnessProgram, CScript.IsPayToScriptHash, p2pkh, CScript.push_data. cbn [app].
  split; [by destruct (_ || _)|by destruct (_ =? 23)].
Qed.

(** C32: an output paid to the hash of a public key, spent with a signature and a
    key of two to 75 bytes.  [VerifyScript] accepts exactly when the key hashes to
    the hash of the output, signature and key pass the checks of encoding that the
    flags ask for, and the checker accepts the signature for the output script
    (with the signature removed from it); in every other case the error names the
    first check that failed. *)
Theorem verify_p2pkh `{SC : ScriptCrypto} (flags : Z) (checker : SignatureChecker) (sig pubkey h : bytes) :
  consistent flags -> bytes_ok sig -> bytes_ok pubkey -> bytes_ok h ->
  2 <= size sig <= 75 -> 2 <= size pubkey <= 75 -> size h = 20 ->
  VerifyScript flags checker (CScript.push_data pubkey (CScript.push_data sig [])) (p2pkh h) [] =
  Ok (if negb (bool_decide (Hash160 pubkey = h)) then (false, SCRIPT_ERR_EQUALVERIFY) else
      match CheckSignatureEncoding sig flags, CheckPubKeyEncoding pubkey flags SIGVERSION_BASE with
      | Some e, _ => (false, e)
      | None, Some e => (false, e)
      | None, None =>
        if CheckSig checker sig pubkey (drop_sig SIGVERSION_BASE (p2pkh h) sig) SIGVERSION_BASE then (true, SCRIPT_ERR_OK)
        else (false, if has flags SCRIPT_VERIFY_NULLFAIL then SCRIPT_ERR_SIG_NULLFAIL else SCRIPT_ERR_EVAL_FALSE)
      end).
Proof.
  intros Hc Hsig Hkey Hh Hs1 Hs2 Hs3.
  assert (CScript.push_data pubkey (CScript.push_data sig []) = script_bytes (map Push [sig; pubkey])) as ->.
  { unfold CScript.push_data, script_bytes. cbn [map concat instr_bytes]. by rewrite app_nil_r, app_nil_l. }
  assert (Forall (pushable flags) [sig; pubkey]) as Hp.
  { repeat constructor; apply pushable_direct; try done; unfold OP_PUSHDATA1; lia. }
  unfold VerifyScript. rewrite IsPushOnly_pushes, andb_false_r by (by eapply pushable_instr).
  unfold eval at 1. rewrite EvalScript_pushes; [|done| |done].
  2:{ unfold script_bytes. cbn [map concat instr_bytes]. unfold CScript.push_header, OP_PUSHDATA1, MAX_SCRIPT_SIZE.
      replace (size sig <? 76) with true by lia. replace (size pubkey <? 76) with true by lia.
      rewrite !length_app. cbn [length]. lia. }
  unfold eval_true, eval. change (rev [sig; pubkey] ++ []) with [pubkey; sig]. rewrite EvalScript_p2pkh by done.
  destruct (bool_decide (Hash160 pubkey = h)); [|done]. cbn [negb]. unfold checksig_result.
  destruct (CheckSignatureEncoding sig flags) as [e|]; [done|]. destruct (CheckPubKeyEncoding _ _ _) as [e|]; [done|].
  destruct (CheckSig _ _ _ _ _).
  - change (CastToBool (of_bool true)) with true. unfold witness_program.
    destruct (p2pkh_plain h Hh Hs3) as (-> & ->). rewrite andb_false_r.
    pose proof (final_checks_one flags vchTrue Hc) as E. by destruct (has flags SCRIPT_VERIFY_WITNESS).
  - replace (0 <? size sig) with true by lia. rewrite andb_true_r. by destruct (has flags SCRIPT_VERIFY_NULLFAIL).
Qed.

(** A checker that accepts the signature 1 2 3 of any script. *)
Definition sample_checker : SignatureChecker :=
  mkChecker (fun sig _ _ _ => bool_decide (sig = [1; 2; 3])) (fun _ => false) (fun _ => false).
Lemma verify_p2pkh_witness :
  VerifyScript (SC := sample_crypto) SCRIPT_VERIFY_P2SH sample_checker
    (CScript.push_data (replicate 33 2) (CScript.push_data [1; 2; 3] [])) (p2pkh (replicate 20 32)) [] =
  Ok (true, SCRIPT_ERR_OK).
Proof.
  rewrite (@verify_p2pkh sample_crypto SCRIPT_VERIFY_P2SH sample_checker [1; 2; 3] (replicate 33 2) (replicate 20 32)).
  - vm_compute. reflexivity.
  - by split.
  - apply bytes_ok_check. reflexivity.
  - apply bytes_ok_check. reflexivity.
  - apply bytes_ok_check. reflexivity.
  - vm_compute. split; congruence.
  - vm_compute. split; congruence.
  - reflexivity.
Defined.

(** ** Multiple signatures *)
Section Multisig.
Context `{SC : ScriptCrypto} (flags : Z) (checker : SignatureChecker) (sigversion : SigVersion).

Definition valid (code sig key : bytes) : Prop := CheckSig checker sig key code sigversion = true.
(** The signatures are valid for keys in the same order. *)
Definition matching (code : bytes) (sigs keys : list bytes) : Prop :=
  exists ks, sublist ks keys /\ Forall2 (valid code) sigs ks.
(** What the loop computes. *)
Fixpoint greedy (code : bytes) (sigs keys : list bytes) : bool :=
  match sigs, keys with
  | [], _ => true
  | _ :: _, [] => false
  | g :: gs, k :: ks => if CheckSig checker g k code sigversion then greedy code gs ks else greedy code sigs ks
  end.

Lemma matching_tail code g gs ks k : matching code (g :: gs) (k :: ks) -> matching code gs ks.
Proof.
  intros (l & Hl & Hv). apply Forall2_cons_inv_l in Hv as (k' & l' & Hk & Hv & ->). exists l'. split; [|done].
  inversion Hl; subst; [done|]. etrans; [|done]. by apply sublist_cons.
Qed.
Lemma greedy_matching code keys : forall sigs, greedy code sigs keys = true <-> matching code sigs keys.
Proof.
  induction keys as [|k ks IH]; intros [|g gs]; cbn [greedy].
  1,3: by split; [intros _; exists []; by split; [apply sublist_nil_l|constructor]|].
  - split; [done|]. intros (l & Hl & Hv). apply sublist_nil_r in Hl as ->. inversion Hv.
  - destruct (CheckSig checker g k code sigversion) eqn:E; rewrite IH.
    + split; [|apply matching_tail]. intros (l & Hl & Hv). exists (k :: l). split; [by apply sublist_skip|by constructor].
    + split; intros (l & Hl & Hv); exists l; (split; [|done]); [by apply sublist_cons|].
      inversion Hl; subst; [|done]. inversion Hv; subst. unfold valid in *. congruence.
Qed.
Lemma greedy_short code keys : forall sigs, (length keys < length sigs)%nat -> greedy code sigs keys = false.
Proof.
  induction keys as [|k ks IH]; intros [|g gs] H; simpl in *; try lia; try done.
  destruct (CheckSig _ _ _ _ _); apply IH; simpl; lia.
Qed.

Definition encodings_pass (sigs keys : list bytes) : Prop :=
  Forall (fun sig => CheckSignatureEncoding sig flags = None) sigs /\
  Forall (fun key => CheckPubKeyEncoding key flags sigversion = None) keys.

(** [l] lies on the stack from [stacktop(-i)] downwards. *)
Definition lies (s : Vars) (i : Z) (l : list bytes) : Prop :=
  0 < i /\ exists u v, stack s = u ++ l ++ v /\ size u = i - 1.
Lemma lies_top s i x l : lies s i (x :: l) -> stacktop i s = (Ok (Go x), s).
Proof.
  intros (Hi & u & v & E & Hu). unfold stacktop. replace (i <=? 0) with false by lia. rewrite E.
  replace (Z.to_nat (i - 1)) with (length u) by lia. cbn [app]. by rewrite list_lookup_middle.
Qed.
Lemma lies_next s i x l : lies s i (x :: l) -> lies s (i + 1) l.
Proof.
  intros (Hi & u & v & E & Hu). split; [lia|]. exists (u ++ [x]), v. split; [by rewrite E, <- !app_assoc|].
  rewrite length_app. simpl. lia.
Qed.

Lemma sig_loop_greedy code s keys : forall f sigs isig ikey,
  encodings_pass sigs keys -> lies s isig sigs -> lies s ikey keys -> (length sigs <= length keys <= f)%nat ->
  sig_loop flags checker sigversion f code isig ikey (size sigs) (size keys) s = (Ok (Go (greedy code sigs keys)), s).
Proof.
  induction keys as [|k ks IH]; intros f sigs isig ikey (He1 & He2) Hs Hk Hl.
  { destruct sigs; [|simpl in Hl; lia]. by destruct f. }
  destruct sigs as [|g gs]; [by destruct f|]. destruct f as [|f]; [simpl in Hl; lia|].
  apply Forall_cons_iff in He1 as (Hg & He1). apply Forall_cons_iff in He2 as (Hkk & He2).
  pose proof Hs as Hs'. pose proof Hk as Hk'. apply lies_top in Hs', Hk'.
  cbn [sig_loop]. replace (size (g :: gs) <=? 0) with false by (simpl; lia).
  rewrite (EM_go _ _ _ _ _ Hs'), (EM_go _ _ _ _ _ Hk'). unfold check_encodings. rewrite Hg, Hkk.
  rewrite (EM_go _ _ _ tt s) by done. cbv zeta. cbn [greedy]. cbn [length] in Hl.
  replace (size (k :: ks) - 1) with (size ks) by (cbn [length]; lia).
  destruct (CheckSig checker g k code sigversion).
  - replace (size (g :: gs) - 1) with (size gs) by (cbn [length]; lia).
    replace (size ks <? size gs) with false by lia. apply IH; [done|by apply lies_next in Hs|by apply lies_next in Hk|lia].
  - destruct (Z.ltb_spec (size ks) (size (g :: gs))) as [Hlt|Hge].
    + rewrite greedy_short by lia. done.
    + apply IH; [by split; [apply Forall_cons_iff|]|done|by apply lies_next in Hk|lia].
Qed.

Lemma drop_sigs_fold s sigs : forall isig code, lies s isig sigs ->
  drop_sigs sigversion (length sigs) isig code s = (Ok (Go (foldl (drop_sig sigversion) code sigs)), s).
Proof.
  induction sigs as [|g gs IH]; intros isig code Hs; [done|]. cbn [length drop_sigs foldl].
  rewrite (EM_go _ _ _ _ _ (lies_top _ _ _ _ Hs)). apply IH. by apply lies_next in Hs.
Qed.

Lemma clean_up_pops l : forall s ok ikey2 r, negb ok && has flags SCRIPT_VERIFY_NULLFAIL = false -> stack s = l ++ r ->
  clean_up flags (length l) ok ikey2 s = (Ok (Go tt), set_stack r s).
Proof.
  induction l as [|x l IH]; intros s ok ikey2 r Hf E.
  - cbn in *. destruct s; cbn in *. by subst.
  - cbn [length clean_up]. rewrite Hf. cbn [andb]. rewrite (EM_go _ _ _ tt s) by done.
    rewrite (EM_go _ _ _ tt (set_stack (l ++ r) s)) by (unfold popstack; by rewrite E). by rewrite (IH _ _ _ r).
Qed.

Lemma num4_reads i v n s : stacktop i s = (Ok (Go v), s) ->
  CScriptNum.of_vch v (fRequireMinimal flags) CScriptNum.nDefaultMaxNumSize = Ok n -> num4 flags i s = (Ok (Go n), s).
Proof. intros E En. unfold num4, number. rewrite (EM_go _ _ _ _ _ E). unfold lift. by rewrite En. Qed.
Lemma getint_small n : 0 <= n <= 20 -> CScriptNum.getint n = n.
Proof. intros. unfold CScriptNum.getint. by replace (2 ^ 31 - 1 <? n) with false by lia; replace (n <? - 2 ^ 31) with false by lia. Qed.

Lemma checkmultisig_run verify s vn vm keys sigs dummy r :
  stack s = vn :: keys ++ vm :: sigs ++ dummy :: r ->
  CScriptNum.of_vch vn (fRequireMinimal flags) CScriptNum.nDefaultMaxNumSize = Ok (size keys) ->
  CScriptNum.of_vch vm (fRequireMinimal flags) CScriptNum.nDefaultMaxNumSize = Ok (size sigs) ->
  size sigs <= size keys <= MAX_PUBKEYS_PER_MULTISIG -> nOpCount s + size keys <= MAX_OPS_PER_SCRIPT ->
  encodings_pass sigs keys -> has flags SCRIPT_VERIFY_NULLFAIL = false ->
  has flags SCRIPT_VERIFY_NULLDUMMY && (0 <? size dummy) = false ->
  let code := foldl (drop_sig sigversion) (pbegincodehash s) sigs in
  let ok := greedy code sigs keys in
  let s' := set_nOpCount (nOpCount s + size keys) s in
  case_CHECKMULTISIG flags checker sigversion verify s =
  if verify then
    if ok then (Ok (Go tt), set_stack r s')
    else (Ok (Ret false SCRIPT_ERR_CHECKMULTISIGVERIFY), set_stack (vchFalse :: r) s')
  else (Ok (Go tt), set_stack (of_bool ok :: r) s').
Proof.
  intros E En Em Hlen Hops Henc Hnf Hnd code ok s'. unfold MAX_PUBKEYS_PER_MULTISIG in Hlen.
  assert (size (stack s) = size keys + size sigs + 3 + size r) as Hsz
    by (rewrite E; cbn [length]; rewrite length_app; cbn [length]; rewrite length_app; cbn [length]; lia).
  assert (forall t, stack t = stack s -> lies t 2 (keys ++ vm :: sigs)) as Hall.
  { intros t Et. split; [lia|]. exists [vn], (dummy :: r). split; [by rewrite Et, E, <- app_assoc|done]. }
  assert (forall t, stack t = stack s -> lies t 2 keys /\ lies t (2 + size keys) (vm :: sigs)) as Hparts.
  { intros t Et. destruct (Hall t Et) as (_ & u & v & Ev & Hu). split; (split; [lia|]).
    - exists u, ((vm :: sigs) ++ v). split; [by rewrite Ev, <- app_assoc|done].
    - exists (u ++ keys), v. split; [by rewrite Ev, <- !app_assoc|]. rewrite length_app. lia. }
  unfold case_CHECKMULTISIG. rewrite (EM_go _ _ _ tt s) by (apply need_ok; lia).
  rewrite (EM_go _ _ _ (size keys) s) by (eapply num4_reads; [unfold stacktop; by rewrite E|done]). cbv zeta.
  rewrite (getint_small (size keys)) by lia. unfold MAX_PUBKEYS_PER_MULTISIG.
  replace ((size keys <? 0) || (20 <? size keys)) with false by lia.
  rewrite (EM_go _ _ _ tt s) by done. rewrite (EM_go _ _ _ tt s') by done. rewrite (EM_go _ _ _ (nOpCount s + size keys) s') by done.
  replace (MAX_OPS_PER_SCRIPT <? _) with false by lia. rewrite (EM_go _ _ _ tt s') by done.
  rewrite (EM_go _ _ _ tt s') by (apply need_ok; change (stack s') with (stack s); lia).
  destruct (Hparts s' eq_refl) as (Hk & Hm).
  rewrite (EM_go _ _ _ (size sigs) s') by (eapply num4_reads; [by eapply lies_top|done]).
  rewrite (getint_small (size sigs)) by lia. replace ((size sigs <? 0) || (size keys <? size sigs)) with false by lia.
  rewrite (EM_go _ _ _ tt s') by done. rewrite (EM_go _ _ _ tt s') by (apply need_ok; change (stack s') with (stack s); lia).
  rewrite (EM_go _ _ _ (pbegincodehash s) s') by done. rewrite !Nat2Z.id. apply lies_next in Hm.
  rewrite (EM_go _ _ _ code s') by (by apply drop_sigs_fold).
  rewrite (EM_go _ _ _ ok s') by (apply sig_loop_greedy; [done|done|done|lia]).
  rewrite (EM_go _ _ _ tt (set_stack (dummy :: r) s')).
  2:{ replace (Z.to_nat _) with (length (vn :: keys ++ vm :: sigs)) by (cbn [length]; rewrite length_app; cbn [length]; lia).
      apply clean_up_pops; [by rewrite Hnf, andb_false_r|].
      change (stack s') with (stack s). rewrite E. cbn [app]. by rewrite <- app_assoc. }
  set (s2 := set_stack (dummy :: r) s').
  rewrite (EM_go _ _ _ tt s2) by (apply need_ok; cbn [stack s2 set_stack length]; lia).
  rewrite (EM_go _ _ _ dummy s2) by done. rewrite Hnd. rewrite (EM_go _ _ _ tt s2) by done.
  rewrite (EM_go _ _ _ tt (set_stack r s')) by done. rewrite (EM_go _ _ _ tt (set_stack (of_bool ok :: r) s')) by done.
  destruct verify; [|done]. by destruct ok.
Qed.
End Multisig.

(** C31: [OP_CHECKMULTISIG] with [m] signatures and [n] keys, [m <= n <= 20].  When the
    two numbers decode, the encodings of the signatures and keys pass, there is
    room for [n] more operations, NULLFAIL is off and the extra value under the
    arguments is empty or NULLDUMMY off, it removes its arguments and that value and
    pushes true exactly when the signatures are valid for keys in the same order:
    checking each signature against the keys from where the last one was found,
    and stopping when too few keys are left, misses no assignment.
    [OP_SMARTCODE] does the same.  (With NULLFAIL or NULLDUMMY on, the failing case
    is an error instead of a false.) *)
Theorem checkmultisig_matches `{SC : ScriptCrypto} (flags : Z) (checker : SignatureChecker) (sigversion : SigVersion)
    (smartcode : bool) (s : Vars) (vn vm dummy : bytes) (keys sigs r : list bytes) :
  stack s = vn :: keys ++ vm :: sigs ++ dummy :: r ->
  CScriptNum.of_vch vn (fRequireMinimal flags) CScriptNum.nDefaultMaxNumSize = Ok (size keys) ->
  CScriptNum.of_vch vm (fRequireMinimal flags) CScriptNum.nDefaultMaxNumSize = Ok (size sigs) ->
  size sigs <= size keys <= MAX_PUBKEYS_PER_MULTISIG -> nOpCount s + size keys <= MAX_OPS_PER_SCRIPT ->
  encodings_pass flags sigversion sigs keys -> has flags SCRIPT_VERIFY_NULLFAIL = false ->
  has flags SCRIPT_VERIFY_NULLDUMMY && (0 <? size dummy) = false ->
  let code := foldl (drop_sig sigversion) (pbegincodehash s) sigs in
  exists ok, (ok = true <-> matching checker sigversion code sigs keys) /\
    switch flags checker sigversion (if smartcode then OP_SMARTCODE else OP_CHECKMULTISIG) true s =
    (Ok (Go tt), set_stack (of_bool ok :: r) (set_nOpCount (nOpCount s + size keys) s)).
Proof.
  intros E En Em Hlen Hops Henc Hnf Hnd code. exists (greedy checker sigversion code sigs keys).
  split; [apply greedy_matching|].
  pose proof (checkmultisig_run flags checker sigversion false s vn vm keys sigs dummy r E En Em Hlen Hops Henc Hnf Hnd) as H.
  by destruct smartcode.
Qed.

(** Two of three keys: the checker accepts a signature for the key it equals. *)
Definition key_checker : SignatureChecker :=
  mkChecker (fun sig key _ _ => bool_decide (sig = key)) (fun _ => false) (fun _ => false).
Definition two_of_three : Vars := mkVars [] [] [[3]; [7]; [8]; [9]; [2]; [7]; [9]; []] [] [] 1.
Lemma checkmultisig_matches_witness :
  exists ok, (ok = true <-> matching key_checker SIGVERSION_BASE [] [[7]; [9]] [[7]; [8]; [9]]) /\
    switch (SC := sample_crypto) 0 key_checker SIGVERSION_BASE OP_CHECKMULTISIG true two_of_three =
    (Ok (Go tt), set_stack [of_bool ok] (set_nOpCount 4 two_of_three)).
Proof.
  apply (@checkmultisig_matches sample_crypto 0 key_checker SIGVERSION_BASE false two_of_three [3] [2] []
    [[7]; [8]; [9]] [[7]; [9]] []); try reflexivity.
  - vm_compute. split; congruence.
  - vm_compute. congruence.
  - split; repeat constructor.
Defined.
