(* ===== verification/ScFixedHash.v ===== *)
(** * Byte arrays, big-endian integers and fixed hashes

    Model of the parts of [src/src/scfixedhash.h], [src/src/sccommon.h] and
    [src/src/sccommon.cpp] the contract engine computes with: [toBigEndian] and
    [fromBigEndian], [vector_ref], [FixedHash<N>] (its byte array, a list of
    [N] bytes), the conversions between 256-bit stack words and addresses, and
    the two's-complement views [u2s] and [s2u]. *)

From S2P Require Import Prelude.

(** ** Big-endian integers *)

(** [toBigEndian(_val, o_out)] with an output of [n] bytes. *)
Fixpoint toBigEndian (n : nat) (val : Z) : bytes :=
  match n with
  | O => []
  | S n' => toBigEndian n' (Z.shiftr val 8) ++ [Z.land val 255]
  end.

(** [fromBigEndian<T>(_bytes)]; [cast] is the conversion to [T]. *)
Definition fromBigEndian (cast : Z -> Z) (bs : bytes) : Z :=
  fold_left (fun ret i => cast (Z.lor (Z.shiftl ret 8) i)) bs 0.

(** The value of a big-endian byte string. *)
Fixpoint be_value (acc : Z) (bs : bytes) : Z :=
  match bs with
  | [] => acc
  | b :: bs' => be_value (acc * 256 + b) bs'
  end.

Lemma length_toBigEndian n v : length (toBigEndian n v) = n.
Proof. revert v. induction n; intros; simpl; rewrite ?length_app, ?IHn; simpl; lia. Qed.

Lemma toBigEndian_bytes_ok n v : bytes_ok (toBigEndian n v).
Proof.
  revert v. induction n; intros; simpl; [constructor|].
  apply bytes_ok_app. split; [done|].
  repeat constructor; rewrite land_255; apply is_byte_mod.
Qed.

Lemma be_value_app a l1 l2 : be_value a (l1 ++ l2) = be_value (be_value a l1) l2.
Proof. revert a. induction l1; intros; simpl; auto. Qed.

Lemma be_value_acc a l : be_value a l = a * 256 ^ size l + be_value 0 l.
Proof.
  revert a. induction l as [|b l IH]; intros; simpl length; simpl be_value.
  - lia.
  - rewrite (IH (a * 256 + b)), (IH (0 * 256 + b)).
    rewrite Nat2Z.inj_succ, Z.pow_succ_r by lia. lia.
Qed.

Lemma be_value_range l : bytes_ok l -> 0 <= be_value 0 l < 256 ^ size l.
Proof.
  induction 1 as [|b l Hb Hl IH]; [simpl; lia|].
  simpl be_value. rewrite be_value_acc. simpl length.
  rewrite Nat2Z.inj_succ, Z.pow_succ_r by lia. unfold is_byte in Hb. nia.
Qed.

Lemma be_value_toBigEndian n v : be_value 0 (toBigEndian n v) = v mod 256 ^ Z.of_nat n.
Proof.
  revert v. induction n; intros; simpl be_value.
  - by rewrite Z.mod_1_r.
  - simpl toBigEndian. rewrite be_value_app, IHn. simpl be_value.
    rewrite land_255, shiftr_8, Nat2Z.inj_succ, Z.pow_succ_r by lia.
    rewrite (Z.rem_mul_r v 256) by lia. lia.
Qed.

Lemma toBigEndian_be_value l : bytes_ok l -> toBigEndian (length l) (be_value 0 l) = l.
Proof.
  induction l as [|b l IH] using rev_ind; [done|]. intros H.
  apply bytes_ok_app in H as [Hl [Hb _]%bytes_ok_cons].
  rewrite length_app. simpl. rewrite Nat.add_1_r. simpl.
  rewrite be_value_app. simpl. rewrite land_255, shiftr_8.
  unfold is_byte in Hb.
  rewrite Z.div_add_l, (Z.div_small b) by lia. rewrite Z.add_0_r, IH by done.
  by rewrite Z.add_comm, Z.mod_add, Z.mod_small by lia.
Qed.

Lemma fromBigEndian_spec w l :
  0 <= w -> bytes_ok l -> fromBigEndian (wrap w) l = wrap w (be_value 0 l).
Proof.
  intros Hw. unfold fromBigEndian.
  enough (forall a, bytes_ok l -> forall a', wrap w a' = a ->
    fold_left (fun ret i => wrap w (Z.lor (Z.shiftl ret 8) i)) l a = wrap w (be_value a' l)).
  { intros. apply (H 0); [done|]. unfold wrap. apply Z.mod_0_l. lia. }
  induction l as [|b l IH]; intros a Hl a' Ha; simpl; [done|].
  inversion Hl; subst. apply IH; [done|].
  rewrite lor_byte by done. unfold wrap.
  by rewrite (Zplus_mod (a' mod _ * 256)), Zmult_mod_idemp_l, <- Zplus_mod.
Qed.

(** [fromBigEndian<bigint>] does not wrap. *)
Lemma fromBigEndian_bigint l :
  bytes_ok l -> fromBigEndian (fun x => x) l = be_value 0 l.
Proof.
  unfold fromBigEndian. generalize 0 as a.
  induction l as [|b l IH]; intros a Hl; simpl; [done|].
  apply bytes_ok_cons in Hl as [? ?]. rewrite lor_byte by done. by apply IH.
Qed.

(** [Invalid256], that is [~(u256)0] *)
Definition Invalid256 : Z := 2 ^ 256 - 1.

(** ** [vector_ref<byte const>] *)

(** [cropped(_begin, _count)]: a null reference when out of bounds. *)
Definition cropped (d : bytes) (_begin _count : Z) : bytes :=
  if (_begin <=? size d) && (_count <=? size d) && (_begin + _count <=? size d)
  then take (Z.to_nat _count) (drop (Z.to_nat _begin) d) else [].

(** [cropped(_begin)] *)
Definition cropped_from (d : bytes) (_begin : Z) : bytes :=
  if _begin <=? size d then drop (Z.to_nat _begin) d else [].

(** [copyTo(_t)]: the target's bytes after the copy. *)
Definition copyTo (d t : bytes) : bytes :=
  take (length t) d ++ drop (length d) t.

(** [populate(_t)] for a target at least as long as the source. *)
Definition populate (d t : bytes) : bytes :=
  take (length t) d ++ replicate (length t - length d) 0.

(** [contentsEqual(_c)] *)
Definition contentsEqual (d c : bytes) : bool :=
  match d with
  | [] => match c with [] => true | _ => false end
  | _ => bool_decide (length c = length d) && bool_decide (c = d)
  end.

(** ** [FixedHash<N>] *)
Module FixedHash.
(** [FixedHash()] *)
Definition zero (N : nat) : bytes := replicate N 0.

(** [FixedHash(Arith const&)] *)
Definition of_arith (N : nat) (v : Z) : bytes := toBigEndian N v.

(** [operator Arith()] *)
Definition to_arith (N : nat) (h : bytes) : Z :=
  fromBigEndian (wrap (8 * Z.of_nat N)) h.

(** [FixedHash(bytes const&, FailIfDifferent)] *)
Definition of_bytes (N : nat) (b : bytes) : bytes :=
  if bool_decide (length b = N) then b else zero N.

(** [FixedHash(FixedHash<M> const&, _t)] and the other branches of
    [FixedHash(bytes const&, _t)]. *)
Definition align_left (N : nat) (b : bytes) : bytes :=
  take N b ++ replicate (N - length b) 0.
Definition align_right (N : nat) (b : bytes) : bytes :=
  replicate (N - length b) 0 ++ drop (length b - N) b.

(** [explicit operator bool()] *)
Definition to_bool (h : bytes) : bool := existsb (fun b => negb (b =? 0)) h.

(** [operator==] *)
Definition eqb (h c : bytes) : bool := bool_decide (h = c).

(** [operator<] *)
Fixpoint ltb (h c : bytes) : bool :=
  match h, c with
  | a :: h', b :: c' => if a <? b then true else if b <? a then false else ltb h' c'
  | _, _ => false
  end.
Definition leb (h c : bytes) : bool := eqb h c || ltb h c.

(** [operator^], [operator|], [operator&], [operator~] *)
Definition lxor (h c : bytes) : bytes := zip_with Z.lxor h c.
Definition lor (h c : bytes) : bytes := zip_with Z.lor h c.
Definition land (h c : bytes) : bytes := zip_with Z.land h c.
Definition lnot (h : bytes) : bytes := (fun b => u8 (Z.lnot b)) <$> h.

(** [operator++]: the loop runs from the last byte while the sum is zero.
    [h] is the array read backwards. *)
Fixpoint incr_rev (h : bytes) : bytes :=
  match h with
  | [] => []
  | b :: h' => let b' := u8 (b + 1) in
               if b' =? 0 then b' :: incr_rev h' else b' :: h'
  end.
Definition incr (h : bytes) : bytes := reverse (incr_rev (reverse h)).

(** [contains(_c)]: all one-bits of [_c] are set in [h]. *)
Definition contains (h c : bytes) : bool := eqb (land h c) c.

(** The inner loop of [firstBitSet()] on a non-zero byte. *)
Fixpoint first_bit_in (fuel : nat) (ret d : Z) : Z :=
  match fuel with
  | O => ret
  | S f => if Z.eqb (Z.land d 128) 0 then first_bit_in f (ret + 1) (u8 (Z.shiftl d 1))
           else ret
  end.
(** [firstBitSet()] *)
Fixpoint firstBitSet_from (ret : Z) (h : bytes) : Z :=
  match h with
  | [] => ret
  | d :: h' => if d =? 0 then firstBitSet_from (ret + 8) h'
               else first_bit_in 8 ret d
  end.
Definition firstBitSet (h : bytes) : Z := firstBitSet_from 0 h.
End FixedHash.

(** ** Addresses: [Address] is [h160]. *)

Definition null_address : bytes := FixedHash.zero 20.

(** [right160(_t)] *)
Definition right160 (t : bytes) : bytes := take 20 (drop 12 t).

(** [asAddress(_item)] *)
Definition asAddress (item : Z) : bytes := right160 (FixedHash.of_arith 32 item).

(** [fromAddress(_a)] *)
Definition fromAddress (a : bytes) : Z := FixedHash.to_arith 20 a.

(** ** Two's complement *)

(** [u2s(_u)] *)
Definition u2s (u : Z) : Z :=
  if Z.testbit u 255 then - (2 ^ 256 - u) else u.

(** [s2u(_u)] *)
Definition s2u (u : Z) : Z :=
  if 0 <=? u then u256 u else u256 (2 ^ 256 + u).

(** ** Lemmas *)

Lemma length_zero N : length (FixedHash.zero N) = N.
Proof. apply length_replicate. Qed.

Lemma of_arith_to_arith (N : nat) h :
  bytes_ok h -> length h = N -> FixedHash.of_arith N (FixedHash.to_arith N h) = h.
Proof.
  intros Hok <-. unfold FixedHash.of_arith, FixedHash.to_arith.
  rewrite fromBigEndian_spec by (done || lia).
  rewrite wrap_small; [by apply toBigEndian_be_value|].
  unfold in_range. rewrite Z.pow_mul_r by lia. by apply be_value_range.
Qed.

Lemma to_arith_of_arith N v :
  FixedHash.to_arith N (FixedHash.of_arith N v) = wrap (8 * Z.of_nat N) v.
Proof.
  unfold FixedHash.of_arith, FixedHash.to_arith.
  rewrite fromBigEndian_spec by (apply toBigEndian_bytes_ok || lia).
  rewrite be_value_toBigEndian. unfold wrap.
  rewrite Z.pow_mul_r by lia. apply Zmod_mod.
Qed.

Lemma drop_toBigEndian n m v : drop m (toBigEndian (m + n) v) = toBigEndian n v.
Proof.
  revert v. induction n; intros; simpl.
  - rewrite drop_ge; [done|]. rewrite length_toBigEndian. lia.
  - rewrite Nat.add_succ_r. simpl. rewrite drop_app_le, IHn; [done|].
    rewrite length_toBigEndian. lia.
Qed.

Lemma asAddress_eq x : asAddress x = toBigEndian 20 x.
Proof.
  unfold asAddress, right160, FixedHash.of_arith.
  rewrite (drop_toBigEndian 20 12). apply take_ge. by rewrite length_toBigEndian.
Qed.

Lemma length_asAddress x : length (asAddress x) = 20%nat.
Proof. by rewrite asAddress_eq, length_toBigEndian. Qed.

Lemma u2s_range u : in_range 256 u -> - 2 ^ 255 <= u2s u < 2 ^ 255.
Proof.
  unfold in_range, u2s. intros Hu. rewrite (Z.testbit_odd u 255), Z.shiftr_div_pow2 by lia.
  assert (u / 2 ^ 255 = 0 \/ u / 2 ^ 255 = 1) as [E|E].
  { assert (0 <= u / 2 ^ 255 < 2); [|lia].
    split; [apply Z.div_pos; lia|apply Z.div_lt_upper_bound; lia]. }
  all: rewrite E; simpl Z.odd; pose proof (Z.div_mod u (2 ^ 255)) as D;
    pose proof (Z.mod_pos_bound u (2 ^ 255)); rewrite E in D; lia.
Qed.

Lemma u2s_mod u : u2s u mod 2 ^ 256 = u mod 2 ^ 256.
Proof.
  unfold u2s. destruct (Z.testbit u 255); [|done].
  replace (- (2 ^ 256 - u)) with (u + (-1) * 2 ^ 256) by lia.
  by rewrite Z.mod_add by lia.
Qed.

Lemma s2u_spec v : - 2 ^ 256 <= v -> s2u v = v mod 2 ^ 256.
Proof.
  intros. unfold s2u, wrap. destruct (Z.leb_spec 0 v); [done|].
  replace (2 ^ 256 + v) with (v + 1 * 2 ^ 256) by lia. by rewrite Z.mod_add by lia.
Qed.

(** *** [firstBitSet] *)

Lemma first_bit_in_spec d ret :
  0 < d < 256 -> FixedHash.first_bit_in 8 ret d = ret + 7 - Z.log2 d.
Proof.
  intros Hd.
  assert (forallb (fun d => FixedHash.first_bit_in 8 0 d =? 7 - Z.log2 d)
            (Z.of_nat <$> seq 1 255) = true) as H by reflexivity.
  assert (forall n r d, FixedHash.first_bit_in n r d = r + FixedHash.first_bit_in n 0 d) as G.
  { clear. induction n; intros; simpl; [lia|]. case_match; [|lia].
    rewrite IHn, (IHn 1). lia. }
  rewrite forallb_forall in H. rewrite G. enough (In d (Z.of_nat <$> seq 1 255)) as I.
  { apply H in I. lia. }
  apply in_map_iff. exists (Z.to_nat d). split; [lia|]. apply in_seq. lia.
Qed.

Lemma firstBitSet_from_spec h ret :
  bytes_ok h -> 0 < be_value 0 h ->
  FixedHash.firstBitSet_from ret h = ret + 8 * size h - 1 - Z.log2 (be_value 0 h).
Proof.
  intros Hok. revert ret.
  induction Hok as [|d h Hd Hh IH]; intros ret Hpos; [simpl in Hpos; lia|].
  cbn [FixedHash.firstBitSet_from be_value] in *. rewrite (be_value_acc (_ + d)) in *.
  simpl length. rewrite Nat2Z.inj_succ.
  pose proof (be_value_range h Hh) as R. unfold is_byte in Hd.
  destruct (Z.eqb_spec d 0) as [->|Hne].
  - rewrite IH by lia.
    replace ((0 * 256 + 0) * 256 ^ size h + be_value 0 h) with (be_value 0 h) by lia. lia.
  - rewrite first_bit_in_spec by lia.
    replace (0 * 256 + d) with d by lia.
    rewrite (Z.log2_unique' (d * 256 ^ size h + be_value 0 h) (Z.log2 d + 8 * size h)
      (d * 256 ^ size h + be_value 0 h - 2 ^ (Z.log2 d + 8 * size h))).
    + lia.
    + pose proof (Z.log2_nonneg d). lia.
    + pose proof (Z.log2_spec d ltac:(lia)) as [L1 L2].
      rewrite Z.pow_add_r, Z.pow_mul_r by (try apply Z.log2_nonneg; lia).
      change (2 ^ 8) with 256. rewrite Z.pow_succ_r in L2 by apply Z.log2_nonneg. nia.
    + lia.
Qed.

Lemma firstBitSet_from_range h ret : bytes_ok h ->
  ret <= FixedHash.firstBitSet_from ret h <= ret + 8 * size h.
Proof.
  intros Hok. revert ret. induction Hok as [|d h Hd Hh IH]; intros ret; simpl; [lia|].
  destruct (Z.eqb_spec d 0); [specialize (IH (ret + 8)); lia|]. unfold is_byte in Hd.
  change (ret <= FixedHash.first_bit_in 8 ret d <= ret + 8 * Z.of_nat (S (length h))).
  rewrite first_bit_in_spec by lia.
  assert (Z.log2 d < 8) by (apply Z.log2_lt_pow2; lia). pose proof (Z.log2_nonneg d). lia.
Qed.
