(* ===== verification/ScSha3.v ===== *)
(** * Keccak and SHA3-256

    Model of [src/src/scsha3.h] (libkeccak-tiny: [keccakf] and the sponge
    [hash]) and of [sha3] in [src/src/sccommon.cpp].  The 200-byte sponge state
    is a byte list; the permutation works on its 25 little-endian lanes. *)

From S2P Require Import Prelude ScFixedHash.

(** ** Constants *)
Definition rho : list Z :=
  [1; 3; 6; 10; 15; 21; 28; 36; 45; 55; 2; 14; 27; 41; 56; 8; 25; 43; 62; 18; 39; 61; 20; 44].
Definition pi : list nat :=
  [10; 7; 11; 17; 18; 3; 5; 16; 8; 21; 24; 4; 15; 23; 19; 13; 12; 2; 20; 14; 22; 9; 6; 1]%nat.
Definition RC : list Z :=
  [0x1; 0x8082; 0x800000000000808a; 0x8000000080008000;
   0x808b; 0x80000001; 0x8000000080008081; 0x8000000000008009;
   0x8a; 0x88; 0x80008009; 0x8000000a;
   0x8000808b; 0x800000000000008b; 0x8000000000008089; 0x8000000000008003;
   0x8000000000008002; 0x8000000000000080; 0x800a; 0x800000008000000a;
   0x8000000080008081; 0x8000000000008080; 0x80000001; 0x8000000080008008].

(** [rol(x, s)] *)
Definition rol (x s : Z) : Z := Z.lor (u64 (Z.shiftl x s)) (Z.shiftr x (64 - s)).

(** ** [keccakf] *)

(** Lane [i] of the state. *)
Abbreviation lane a i := (nth i a 0).

Section Loops.
(** [FOR5(v, s, e)]: [v] takes the values [0, s, ..., 4 s]. *)
Definition for5 {A} (s : nat) (e : nat -> A -> A) (a : A) : A :=
  foldl (fun a k => e (k * s)%nat a) a [0; 1; 2; 3; 4]%nat.

Definition theta_b (a : list Z) : list Z :=
  for5 1 (fun x b => <[x := for5 5 (fun y acc => Z.lxor acc (lane a (x + y))) 0]> b)
    [0; 0; 0; 0; 0].
Definition theta (a : list Z) : list Z :=
  let b := theta_b a in
  for5 1 (fun x a => for5 5 (fun y a =>
    <[(y + x)%nat := Z.lxor (lane a (y + x))
        (Z.lxor (lane b ((x + 4) mod 5)) (rol (lane b ((x + 1) mod 5)) 1))]> a) a) a.

(** One iteration of [REPEAT24]: [t] is the lane carried along. *)
Definition rho_pi_step (x : nat) (at_ : list Z * Z) : list Z * Z :=
  let (a, t) := at_ in
  let b0 := lane a (nth x pi O) in
  (<[nth x pi O := rol t (nth x rho 0)]> a, b0).
Definition rho_pi (a : list Z) : list Z :=
  fst (foldl (fun s x => rho_pi_step x s) (a, lane a 1) (seq 0 24)).

Definition chi (a : list Z) : list Z :=
  for5 5 (fun y a =>
    let b := for5 1 (fun x b => <[x := lane a (y + x)]> b) [0; 0; 0; 0; 0] in
    for5 1 (fun x a => <[(y + x)%nat :=
      Z.lxor (lane b x) (Z.land (u64 (Z.lnot (lane b ((x + 1) mod 5)))) (lane b ((x + 2) mod 5)))]> a) a) a.

Definition iota (i : nat) (a : list Z) : list Z :=
  <[O := Z.lxor (lane a 0) (nth i RC 0)]> a.

Definition keccak_round (a : list Z) (i : nat) : list Z :=
  iota i (chi (rho_pi (theta a))).
Definition keccakf_lanes (a : list Z) : list Z :=
  foldl keccak_round a (seq 0 24).
End Loops.

(** The state is an array of bytes that [keccakf] reads as [uint64_t]s of a
    little-endian machine. *)
Fixpoint lanes_of_bytes (n : nat) (s : bytes) : list Z :=
  match n with
  | O => []
  | S n' => be_value 0 (reverse (take 8 s)) :: lanes_of_bytes n' (drop 8 s)
  end.
Definition bytes_of_lanes (a : list Z) : bytes :=
  concat ((fun v => reverse (toBigEndian 8 v)) <$> a).

Definition keccakf (s : bytes) : bytes :=
  bytes_of_lanes (keccakf_lanes (lanes_of_bytes 25 s)).

(** ** The sponge *)

(** [xorin(dst, src, len)] *)
Definition xorin (dst src : bytes) (len : nat) : bytes :=
  zip_with Z.lxor (take len dst) (take len src) ++ drop len dst.

(** [foldP(in, inlen, xorin)]: returns the state and what is left of the input. *)
Fixpoint absorb (fuel : nat) (rate : nat) (a inp : bytes) : bytes * bytes :=
  match fuel with
  | O => (a, inp)
  | S f => if (rate <=? length inp)%nat
           then absorb f rate (keccakf (xorin a inp rate)) (drop rate inp)
           else (a, inp)
  end.

(** [foldP(out, outlen, setout); setout(a, out, outlen)] *)
Fixpoint squeeze (fuel : nat) (rate outlen : nat) (a : bytes) : bytes :=
  match fuel with
  | O => take outlen a
  | S f => if (rate <=? outlen)%nat
           then take rate a ++ squeeze f rate (outlen - rate) (keccakf a)
           else take outlen a
  end.

(** [hash(out, outlen, in, inlen, rate, delim)] *)
Definition hash (outlen : nat) (inp : bytes) (rate : nat) (delim : Z) : bytes :=
  let (a, rest) := absorb (length inp) rate (replicate 200 0) inp in
  let inlen := length rest in
  let a := <[inlen := Z.lxor (lane a inlen) delim]> a in
  let a := <[(rate - 1)%nat := Z.lxor (lane a (rate - 1)) 0x80]> a in
  let a := xorin a rest inlen in
  squeeze outlen rate outlen (keccakf a).

(** [sha3_256(out, 32, in, inlen)] as [sha3(_input)] calls it. *)
Definition sha3 (inp : bytes) : bytes := hash 32 inp (200 - 256 / 4) 0x01.

Definition EmptySHA3 : bytes := sha3 [].

(** ** Reference: the step mappings of FIPS 202

    A state is a function of the column [x] and row [y]; lane [(x, y)] is stored
    at index [x + 5 y].  The rotation offsets are those of the standard's rho
    table. *)
Module Fips202.
Definition state := nat -> nat -> Z.
Definition of_lanes (a : list Z) : state := fun x y => lane a (x + 5 * y).
Definition to_lanes (s : state) : list Z :=
  (fun i => s (i mod 5) (i / 5))%nat <$> seq 0 25.

Definition C (s : state) (x : nat) : Z :=
  foldl (fun acc y => Z.lxor acc (s x y)) 0 (seq 0 5).
Definition theta (s : state) : state := fun x y =>
  Z.lxor (s x y) (Z.lxor (C s ((x + 4) mod 5)) (rol (C s ((x + 1) mod 5)) 1)).

(** Table 2 of the standard, row [y], column [x]. *)
Definition offsets : list (list Z) :=
  [[0; 1; 62; 28; 27]; [36; 44; 6; 55; 20]; [3; 10; 43; 25; 39];
   [41; 45; 15; 21; 8]; [18; 2; 61; 56; 14]].
Definition rot (v s : Z) : Z := if s =? 0 then v else rol v s.
Definition rho (s : state) : state := fun x y => rot (s x y) (nth x (nth y offsets []) 0).
Definition pi (s : state) : state := fun x y => s ((x + 3 * y) mod 5)%nat x.
Definition chi (s : state) : state := fun x y =>
  Z.lxor (s x y) (Z.land (u64 (Z.lnot (s ((x + 1) mod 5)%nat y))) (s ((x + 2) mod 5)%nat y)).
Definition iota (i : nat) (s : state) : state := fun x y =>
  if (x =? 0)%nat && (y =? 0)%nat then Z.lxor (s x y) (nth i RC 0) else s x y.

Definition round (s : state) (i : nat) : state := iota i (chi (pi (rho (theta s)))).
End Fips202.

Lemma list25 (a : list Z) : length a = 25%nat ->
  exists a0 a1 a2 a3 a4 a5 a6 a7 a8 a9 a10 a11 a12 a13 a14 a15 a16 a17 a18 a19 a20 a21 a22 a23 a24,
  a = [a0;a1;a2;a3;a4;a5;a6;a7;a8;a9;a10;a11;a12;a13;a14;a15;a16;a17;a18;a19;a20;a21;a22;a23;a24].
Proof.
  intros H. do 25 (destruct a as [|? a]; [discriminate H|]).
  destruct a; [|discriminate H]. repeat eexists.
Qed.

(** The in-place round, with its chain of carried lanes, computes the
    standard's composition of step mappings. *)
Lemma keccak_round_fips a i :
  length a = 25%nat ->
  keccak_round a i = Fips202.to_lanes (Fips202.round (Fips202.of_lanes a) i).
Proof.
  intros H. apply list25 in H. repeat match goal with E : exists _, _ |- _ => destruct E end. subst.
  unfold keccak_round, Fips202.round, iota, Fips202.iota. generalize (nth i RC 0) as rc; intros rc.
  lazy -[Z.lxor Z.land rol wrap Z.lnot]. reflexivity.
Qed.

Lemma length_keccak_round a i : length a = 25%nat -> length (keccak_round a i) = 25%nat.
Proof. intros. by rewrite keccak_round_fips. Qed.

Definition fips_keccakf (a : list Z) : list Z :=
  foldl (fun a i => Fips202.to_lanes (Fips202.round (Fips202.of_lanes a) i)) a (seq 0 24).

Lemma keccakf_lanes_fips a : length a = 25%nat -> keccakf_lanes a = fips_keccakf a.
Proof.
  unfold keccakf_lanes, fips_keccakf. generalize (seq 0 24) as l. intros l. revert a.
  induction l as [|i l IH]; intros a Ha; simpl; [done|].
  rewrite <- keccak_round_fips by done. apply IH. by apply length_keccak_round.
Qed.

Lemma length_keccakf_lanes a : length a = 25%nat -> length (keccakf_lanes a) = 25%nat.
Proof.
  unfold keccakf_lanes. generalize (seq 0 24) as l. intros l. revert a.
  induction l; intros; simpl; [done|]. by apply IHl, length_keccak_round.
Qed.

Lemma length_lanes_of_bytes n s : length (lanes_of_bytes n s) = n.
Proof. revert s. induction n; intros; simpl; auto. Qed.

Lemma length_bytes_of_lanes a : length (bytes_of_lanes a) = (8 * length a)%nat.
Proof.
  unfold bytes_of_lanes. induction a as [|v a IH]; [done|].
  rewrite fmap_cons. cbn [concat length]. rewrite length_app, IH, length_reverse, length_toBigEndian. lia.
Qed.

Lemma bytes_of_lanes_ok a : bytes_ok (bytes_of_lanes a).
Proof.
  unfold bytes_of_lanes. induction a as [|v a IH]; [constructor|].
  rewrite fmap_cons. cbn [concat]. apply bytes_ok_app. split; [|done].
  apply Forall_reverse, toBigEndian_bytes_ok.
Qed.

Lemma length_keccakf s : length (keccakf s) = 200%nat.
Proof.
  unfold keccakf. rewrite length_bytes_of_lanes, length_keccakf_lanes; [done|].
  apply length_lanes_of_bytes.
Qed.

Lemma sha3_unfold inp : exists a, sha3 inp = take 32 (keccakf a).
Proof.
  unfold sha3, hash. destruct (absorb _ _ _ _) as [a rest]. by eexists.
Qed.

Lemma length_sha3 inp : length (sha3 inp) = 32%nat.
Proof. destruct (sha3_unfold inp) as [a ->]. rewrite length_take, length_keccakf. lia. Qed.

Lemma sha3_bytes_ok inp : bytes_ok (sha3 inp).
Proof. destruct (sha3_unfold inp) as [a ->]. apply bytes_ok_take, bytes_of_lanes_ok. Qed.
