(* ===== verification/ScSha3Spec.v ===== *)
(** * The hash function against its standard

    [sha3] of [src/src/scsha3.h] is the Keccak sponge with the original padding:
    the reference pads the whole message, cuts it into blocks, and absorbs them
    with the permutation of FIPS 202. *)

From S2P Require Import Prelude ScFixedHash ScSha3.
From Stdlib Require Import ZifyBool.

Module Keccak256.
(** [Keccak-f[1600]] on the bytes of the state. *)
Definition f (s : bytes) : bytes := bytes_of_lanes (fips_keccakf (lanes_of_bytes 25 s)).

(** [pad10*1] after the domain bits, in bytes: [k] bytes fill the last block. *)
Definition pad (k : nat) : bytes :=
  match k with
  | O => []
  | 1%nat => [0x81]
  | S (S k') => 0x01 :: replicate k' 0 ++ [0x80]
  end.
Definition padded (rate : nat) (m : bytes) : bytes := m ++ pad (rate - length m mod rate).

(** A block is added to the first bytes of the state. *)
Definition add_block (s b : bytes) : bytes := zip_with Z.lxor s (b ++ replicate (200 - length b) 0).

Fixpoint absorb_blocks (n rate : nat) (s m : bytes) : bytes :=
  match n with
  | O => s
  | S n' => absorb_blocks n' rate (f (add_block s (take rate m))) (drop rate m)
  end.

Definition rate : nat := 136.
Definition keccak256 (m : bytes) : bytes :=
  let p := padded rate m in
  take 32 (absorb_blocks (length p / rate) rate (replicate 200 0) p).
End Keccak256.

Section Sponge.
Import Keccak256.
Open Scope nat_scope.

Lemma keccakf_f s : keccakf s = f s.
Proof. unfold keccakf, f. by rewrite keccakf_lanes_fips by apply length_lanes_of_bytes. Qed.

Lemma length_f s : length (f s) = 200.
Proof. rewrite <- keccakf_f. apply length_keccakf. Qed.

Lemma zip_zero (l : list Z) n : length l <= n -> zip_with Z.lxor l (replicate n 0%Z) = l.
Proof.
  revert n. induction l as [|x l IH]; intros [|n] H; simpl in *; try done; [lia|].
  rewrite Z.lxor_0_r, IH by lia. done.
Qed.

Lemma length_add_block s b : length s = 200 -> length b <= 200 -> length (add_block s b) = 200.
Proof. intros Hs Hb. unfold add_block. rewrite length_zip_with, length_app, length_replicate. lia. Qed.

Lemma xorin_add_block a src n : length a = 200 -> n <= length src -> n <= 200 ->
  xorin a src n = add_block a (take n src).
Proof.
  intros Ha Hn H2. unfold xorin, add_block. rewrite <- (take_drop n a) at 3.
  rewrite zip_with_app by (rewrite !length_take; lia). f_equal.
  symmetry. apply zip_zero. rewrite length_drop, length_take. lia.
Qed.

(** The loop absorbs the full blocks and leaves the rest. *)
Lemma absorb_full r fuel : 0 < r <= 200 -> forall a m, length a = 200 -> length m <= fuel ->
  absorb fuel r a m = (absorb_blocks (length m / r) r a m, drop (r * (length m / r)) m).
Proof.
  intros Hr. induction fuel as [|fuel IH]; intros a m Ha Hm; cbn [absorb].
  { replace (length m) with 0 by lia. rewrite Nat.Div0.div_0_l, Nat.mul_0_r. done. }
  destruct (Nat.leb_spec r (length m)) as [Hle|Hlt].
  2:{ rewrite Nat.div_small by done. by rewrite Nat.mul_0_r. }
  assert (length m / r = S (length (drop r m) / r)) as ->.
  { rewrite length_drop, <- Nat.add_1_r, <- Nat.div_add by lia. f_equal. lia. }
  rewrite IH; [|rewrite length_keccakf; done|rewrite length_drop; lia].
  cbn [absorb_blocks]. rewrite keccakf_f, xorin_add_block by lia. f_equal.
  rewrite drop_drop. f_equal. lia.
Qed.

(** Blocks that lie in the message do not see the padding. *)
Lemma absorb_blocks_app n r a m p : n * r <= length m ->
  absorb_blocks (S n) r a (m ++ p) = f (add_block (absorb_blocks n r a m) (take r (drop (r * n) m ++ p))).
Proof.
  revert a m. induction n as [|n IH]; intros a m Hn.
  - cbn [absorb_blocks]. by rewrite Nat.mul_0_r.
  - change (absorb_blocks (S (S n)) r a (m ++ p))
      with (absorb_blocks (S n) r (f (add_block a (take r (m ++ p)))) (drop r (m ++ p))).
    rewrite take_app_le, drop_app_le, IH by (rewrite ?length_drop; lia).
    cbn [absorb_blocks]. rewrite drop_drop. by replace (r + r * n) with (r * S n) by lia.
Qed.

Lemma lane_insert (a : bytes) j v i : j < length a -> lane (<[j := v]> a) i = if decide (i = j) then v else lane a i.
Proof.
  intros Hj. rewrite !nth_lookup. case_decide as E; [subst; by rewrite list_lookup_insert_eq|].
  by rewrite list_lookup_insert_ne.
Qed.

Lemma lane_add_block s b i : length s = 200 -> length b <= 200 -> i < 200 ->
  lane (add_block s b) i = Z.lxor (lane s i) (lane b i).
Proof.
  intros Hs Hb Hi. unfold add_block. rewrite !nth_lookup, lookup_zip_with.
  destruct (lookup_lt_is_Some_2 s i) as [x Hx]; [lia|]. rewrite Hx. simpl.
  destruct (decide (i < length b)) as [H|H].
  - rewrite lookup_app_l by done. destruct (lookup_lt_is_Some_2 b i H) as [y Hy]. by rewrite Hy.
  - rewrite lookup_app_r by lia. rewrite lookup_replicate_2 by lia.
    rewrite (lookup_ge_None_2 b) by lia. done.
Qed.

Lemma length_pad k : length (pad k) = k.
Proof. destruct k as [|[|k]]; [done|done|]. simpl. rewrite length_app, length_replicate. simpl. lia. Qed.

Lemma lane_app (b p : bytes) i : lane (b ++ p) i = if decide (i < length b) then lane b i else lane p (i - length b).
Proof. case_decide; [by rewrite app_nth1|by rewrite app_nth2 by lia]. Qed.

Lemma lane_pad k i : 0 < k ->
  lane (pad k) i = Z.lxor (if decide (i = 0) then 1%Z else 0%Z) (if decide (S i = k) then 0x80%Z else 0%Z).
Proof.
  intros Hk. destruct k as [|[|k]]; [lia| |].
  - destruct i as [|i]; [done|]. by destruct i.
  - destruct i as [|i]; [done|]. cbn [pad nth]. rewrite (decide_False (P := S i = 0)) by lia.
    rewrite nth_lookup. destruct (decide (S (S i) = S (S k))) as [E|E].
    + injection E as ->. by rewrite lookup_app_r, length_replicate, Nat.sub_diag by (rewrite length_replicate; done).
    + destruct (decide (i < k)).
      * by rewrite lookup_app_l, lookup_replicate_2 by (rewrite ?length_replicate; lia).
      * rewrite lookup_ge_None_2; [done|]. rewrite length_app, length_replicate. simpl. lia.
Qed.

(** The last block: the two marks and the rest of the input. *)
Lemma last_block r a rest : length a = 200 -> length rest < r -> r <= 200 ->
  let a1 := <[length rest := Z.lxor (lane a (length rest)) 0x01]> a in
  let a2 := <[r - 1 := Z.lxor (lane a1 (r - 1)) 0x80]> a1 in
  xorin a2 rest (length rest) = add_block a (rest ++ pad (r - length rest)).
Proof.
  intros Ha Hlt Hr a1 a2. assert (length a1 = 200) as H1 by (unfold a1; by rewrite length_insert).
  assert (length a2 = 200) as H2 by (unfold a2; by rewrite length_insert).
  assert (length (rest ++ pad (r - length rest)) <= 200) as Hp by (rewrite length_app, length_pad; lia).
  rewrite xorin_add_block, firstn_all by lia.
  apply nth_ext with 0%Z 0%Z; [by rewrite !length_add_block by lia|].
  intros i Hi. rewrite length_add_block in Hi by lia. fold (lane (add_block a2 rest) i).
  fold (lane (add_block a (rest ++ pad (r - length rest))) i).
  rewrite !lane_add_block, lane_app by lia.
  assert (lane rest i = if decide (i < length rest) then lane rest i else 0%Z) as ->.
  { case_decide; [done|]. by apply nth_overflow; lia. }
  unfold a2. rewrite lane_insert by lia. unfold a1. rewrite !lane_insert by lia.
  rewrite lane_pad by lia.
  repeat case_decide; try lia; rewrite ?Z.lxor_0_r, ?Z.lxor_0_l, ?Z.lxor_assoc; try congruence.
Qed.

End Sponge.

(** C12: [sha3], with its in-place rounds, its loop over full blocks and the two
    marks it sets in the last one, computes the Keccak-256 of the standard: the
    padded message absorbed block by block with the permutation of FIPS 202. *)
Theorem sha3_is_keccak256 (m : bytes) : sha3 m = Keccak256.keccak256 m.
Proof.
  unfold sha3, hash. change (200 - 256 / 4)%nat with 136%nat.
  rewrite absorb_full by (rewrite ?length_replicate; lia).
  set (n := (length m / 136)%nat). set (rest := drop (136 * n) m).
  pose proof (Nat.div_mod (length m) 136 ltac:(lia)) as Hdm. fold n in Hdm.
  pose proof (Nat.mod_upper_bound (length m) 136 ltac:(lia)) as Hlt.
  assert (length rest = length m mod 136)%nat as Hrest by (unfold rest; rewrite length_drop; lia).
  set (a := Keccak256.absorb_blocks n 136 (replicate 200 0) m).
  assert (length a = 200%nat) as Ha.
  { unfold a. destruct n; [apply length_replicate|]. clear. revert m. generalize (replicate 200 0).
    induction n as [|n IH]; intros l m; cbn [Keccak256.absorb_blocks]; [apply length_f|apply IH]. }
  cbn zeta. rewrite last_block by lia. rewrite keccakf_f. cbn [squeeze].
  unfold Keccak256.keccak256, Keccak256.padded, Keccak256.rate.
  rewrite length_app, length_pad.
  assert ((length m + (136 - length m mod 136)) / 136 = S n)%nat as ->.
  { symmetry. apply (Nat.div_unique _ _ _ 0); lia. }
  rewrite absorb_blocks_app by lia. fold a. fold rest.
  assert (take 136 (rest ++ Keccak256.pad (136 - length rest)) = rest ++ Keccak256.pad (136 - length rest)) as Et.
  { apply firstn_all2. rewrite length_app, length_pad. lia. }
  rewrite <- Hrest, Et. reflexivity.
Qed.
