(* ===== verification/ScInstruction.v ===== *)
(** * Instruction set, instruction tables and gas schedule

    Model of [src/src/scvm.h] (enum [Instruction], enum [Tier],
    [EVMSchedule], [c_instructions], [c_instructionInfo]) and of the table
    functions at the top of [src/src/scvm.cpp]. *)

From S2P Require Import Prelude.

(** ** [enum class Instruction : uint8_t] *)
Module Instruction.
(** A value of the enum is any [uint8_t]; [OTHER] holds those that no
    enumerator names. *)
Inductive t : Type :=
| STOP | ADD | MUL | SUB | DIV | SDIV | MOD | SMOD
| ADDMOD | MULMOD | EXP | SIGNEXTEND | LT | GT | SLT | SGT
| EQ | ISZERO | AND | OR | XOR | NOT | BYTE | SHA3
| ADDRESS | BALANCE | ORIGIN | CALLER | CALLVALUE | CALLDATALOAD | CALLDATASIZE | CALLDATACOPY
| CODESIZE | CODECOPY | GASPRICE | EXTCODESIZE | EXTCODECOPY | BLOCKHASH | COINBASE | TIMESTAMP
| NUMBER | DIFFICULTY | GASLIMIT | JUMPTO | JUMPIF | JUMPV | JUMPSUB | JUMPSUBV
| RETURNSUB | POP | MLOAD | MSTORE | MSTORE8 | SLOAD | SSTORE | JUMP
| JUMPI | PC | MSIZE | GAS | JUMPDEST | BEGINSUB | BEGINDATA | PUSH1
| PUSH2 | PUSH3 | PUSH4 | PUSH5 | PUSH6 | PUSH7 | PUSH8 | PUSH9
| PUSH10 | PUSH11 | PUSH12 | PUSH13 | PUSH14 | PUSH15 | PUSH16 | PUSH17
| PUSH18 | PUSH19 | PUSH20 | PUSH21 | PUSH22 | PUSH23 | PUSH24 | PUSH25
| PUSH26 | PUSH27 | PUSH28 | PUSH29 | PUSH30 | PUSH31 | PUSH32 | DUP1
| DUP2 | DUP3 | DUP4 | DUP5 | DUP6 | DUP7 | DUP8 | DUP9
| DUP10 | DUP11 | DUP12 | DUP13 | DUP14 | DUP15 | DUP16 | SWAP1
| SWAP2 | SWAP3 | SWAP4 | SWAP5 | SWAP6 | SWAP7 | SWAP8 | SWAP9
| SWAP10 | SWAP11 | SWAP12 | SWAP13 | SWAP14 | SWAP15 | SWAP16 | LOG0
| LOG1 | LOG2 | LOG3 | LOG4 | PUSHC | JUMPC | JUMPCI | BAD
| CREATE | CALL | CALLCODE | RETURN | DELEGATECALL | STATICCALL | REVERT | SUICIDE
| OTHER (b : Z).

(** [(uint8_t) i] *)
Definition to_byte (i : t) : Z :=
  match i with
  | STOP => 0x00 | ADD => 0x01 | MUL => 0x02 | SUB => 0x03 | DIV => 0x04
  | SDIV => 0x05 | MOD => 0x06 | SMOD => 0x07 | ADDMOD => 0x08 | MULMOD => 0x09
  | EXP => 0x0a | SIGNEXTEND => 0x0b | LT => 0x10 | GT => 0x11 | SLT => 0x12
  | SGT => 0x13 | EQ => 0x14 | ISZERO => 0x15 | AND => 0x16 | OR => 0x17
  | XOR => 0x18 | NOT => 0x19 | BYTE => 0x1a | SHA3 => 0x20 | ADDRESS => 0x30
  | BALANCE => 0x31 | ORIGIN => 0x32 | CALLER => 0x33 | CALLVALUE => 0x34 | CALLDATALOAD => 0x35
  | CALLDATASIZE => 0x36 | CALLDATACOPY => 0x37 | CODESIZE => 0x38 | CODECOPY => 0x39 | GASPRICE => 0x3a
  | EXTCODESIZE => 0x3b | EXTCODECOPY => 0x3c | BLOCKHASH => 0x40 | COINBASE => 0x41 | TIMESTAMP => 0x42
  | NUMBER => 0x43 | DIFFICULTY => 0x44 | GASLIMIT => 0x45 | JUMPTO => 0x4a | JUMPIF => 0x4b
  | JUMPV => 0x4c | JUMPSUB => 0x4d | JUMPSUBV => 0x4e | RETURNSUB => 0x4f | POP => 0x50
  | MLOAD => 0x51 | MSTORE => 0x52 | MSTORE8 => 0x53 | SLOAD => 0x54 | SSTORE => 0x55
  | JUMP => 0x56 | JUMPI => 0x57 | PC => 0x58 | MSIZE => 0x59 | GAS => 0x5a
  | JUMPDEST => 0x5b | BEGINSUB => 0x5c | BEGINDATA => 0x5d | PUSH1 => 0x60 | PUSH2 => 0x61
  | PUSH3 => 0x62 | PUSH4 => 0x63 | PUSH5 => 0x64 | PUSH6 => 0x65 | PUSH7 => 0x66
  | PUSH8 => 0x67 | PUSH9 => 0x68 | PUSH10 => 0x69 | PUSH11 => 0x6a | PUSH12 => 0x6b
  | PUSH13 => 0x6c | PUSH14 => 0x6d | PUSH15 => 0x6e | PUSH16 => 0x6f | PUSH17 => 0x70
  | PUSH18 => 0x71 | PUSH19 => 0x72 | PUSH20 => 0x73 | PUSH21 => 0x74 | PUSH22 => 0x75
  | PUSH23 => 0x76 | PUSH24 => 0x77 | PUSH25 => 0x78 | PUSH26 => 0x79 | PUSH27 => 0x7a
  | PUSH28 => 0x7b | PUSH29 => 0x7c | PUSH30 => 0x7d | PUSH31 => 0x7e | PUSH32 => 0x7f
  | DUP1 => 0x80 | DUP2 => 0x81 | DUP3 => 0x82 | DUP4 => 0x83 | DUP5 => 0x84
  | DUP6 => 0x85 | DUP7 => 0x86 | DUP8 => 0x87 | DUP9 => 0x88 | DUP10 => 0x89
  | DUP11 => 0x8a | DUP12 => 0x8b | DUP13 => 0x8c | DUP14 => 0x8d | DUP15 => 0x8e
  | DUP16 => 0x8f | SWAP1 => 0x90 | SWAP2 => 0x91 | SWAP3 => 0x92 | SWAP4 => 0x93
  | SWAP5 => 0x94 | SWAP6 => 0x95 | SWAP7 => 0x96 | SWAP8 => 0x97 | SWAP9 => 0x98
  | SWAP10 => 0x99 | SWAP11 => 0x9a | SWAP12 => 0x9b | SWAP13 => 0x9c | SWAP14 => 0x9d
  | SWAP15 => 0x9e | SWAP16 => 0x9f | LOG0 => 0xa0 | LOG1 => 0xa1 | LOG2 => 0xa2
  | LOG3 => 0xa3 | LOG4 => 0xa4 | PUSHC => 0xac | JUMPC => 0xad | JUMPCI => 0xae
  | BAD => 0xaf | CREATE => 0xf0 | CALL => 0xf1 | CALLCODE => 0xf2 | RETURN => 0xf3
  | DELEGATECALL => 0xf4 | STATICCALL => 0xfa | REVERT => 0xfd | SUICIDE => 0xff
  | OTHER b => b
  end.

(** [Instruction(b)] *)
Definition of_byte (b : Z) : t :=
  match b with
  | 0x00 => STOP | 0x01 => ADD | 0x02 => MUL | 0x03 => SUB | 0x04 => DIV
  | 0x05 => SDIV | 0x06 => MOD | 0x07 => SMOD | 0x08 => ADDMOD | 0x09 => MULMOD
  | 0x0a => EXP | 0x0b => SIGNEXTEND | 0x10 => LT | 0x11 => GT | 0x12 => SLT
  | 0x13 => SGT | 0x14 => EQ | 0x15 => ISZERO | 0x16 => AND | 0x17 => OR
  | 0x18 => XOR | 0x19 => NOT | 0x1a => BYTE | 0x20 => SHA3 | 0x30 => ADDRESS
  | 0x31 => BALANCE | 0x32 => ORIGIN | 0x33 => CALLER | 0x34 => CALLVALUE | 0x35 => CALLDATALOAD
  | 0x36 => CALLDATASIZE | 0x37 => CALLDATACOPY | 0x38 => CODESIZE | 0x39 => CODECOPY | 0x3a => GASPRICE
  | 0x3b => EXTCODESIZE | 0x3c => EXTCODECOPY | 0x40 => BLOCKHASH | 0x41 => COINBASE | 0x42 => TIMESTAMP
  | 0x43 => NUMBER | 0x44 => DIFFICULTY | 0x45 => GASLIMIT | 0x4a => JUMPTO | 0x4b => JUMPIF
  | 0x4c => JUMPV | 0x4d => JUMPSUB | 0x4e => JUMPSUBV | 0x4f => RETURNSUB | 0x50 => POP
  | 0x51 => MLOAD | 0x52 => MSTORE | 0x53 => MSTORE8 | 0x54 => SLOAD | 0x55 => SSTORE
  | 0x56 => JUMP | 0x57 => JUMPI | 0x58 => PC | 0x59 => MSIZE | 0x5a => GAS
  | 0x5b => JUMPDEST | 0x5c => BEGINSUB | 0x5d => BEGINDATA | 0x60 => PUSH1 | 0x61 => PUSH2
  | 0x62 => PUSH3 | 0x63 => PUSH4 | 0x64 => PUSH5 | 0x65 => PUSH6 | 0x66 => PUSH7
  | 0x67 => PUSH8 | 0x68 => PUSH9 | 0x69 => PUSH10 | 0x6a => PUSH11 | 0x6b => PUSH12
  | 0x6c => PUSH13 | 0x6d => PUSH14 | 0x6e => PUSH15 | 0x6f => PUSH16 | 0x70 => PUSH17
  | 0x71 => PUSH18 | 0x72 => PUSH19 | 0x73 => PUSH20 | 0x74 => PUSH21 | 0x75 => PUSH22
  | 0x76 => PUSH23 | 0x77 => PUSH24 | 0x78 => PUSH25 | 0x79 => PUSH26 | 0x7a => PUSH27
  | 0x7b => PUSH28 | 0x7c => PUSH29 | 0x7d => PUSH30 | 0x7e => PUSH31 | 0x7f => PUSH32
  | 0x80 => DUP1 | 0x81 => DUP2 | 0x82 => DUP3 | 0x83 => DUP4 | 0x84 => DUP5
  | 0x85 => DUP6 | 0x86 => DUP7 | 0x87 => DUP8 | 0x88 => DUP9 | 0x89 => DUP10
  | 0x8a => DUP11 | 0x8b => DUP12 | 0x8c => DUP13 | 0x8d => DUP14 | 0x8e => DUP15
  | 0x8f => DUP16 | 0x90 => SWAP1 | 0x91 => SWAP2 | 0x92 => SWAP3 | 0x93 => SWAP4
  | 0x94 => SWAP5 | 0x95 => SWAP6 | 0x96 => SWAP7 | 0x97 => SWAP8 | 0x98 => SWAP9
  | 0x99 => SWAP10 | 0x9a => SWAP11 | 0x9b => SWAP12 | 0x9c => SWAP13 | 0x9d => SWAP14
  | 0x9e => SWAP15 | 0x9f => SWAP16 | 0xa0 => LOG0 | 0xa1 => LOG1 | 0xa2 => LOG2
  | 0xa3 => LOG3 | 0xa4 => LOG4 | 0xac => PUSHC | 0xad => JUMPC | 0xae => JUMPCI
  | 0xaf => BAD | 0xf0 => CREATE | 0xf1 => CALL | 0xf2 => CALLCODE | 0xf3 => RETURN
  | 0xf4 => DELEGATECALL | 0xfa => STATICCALL | 0xfd => REVERT | 0xff => SUICIDE
  | _ => OTHER b
  end.

(** Enumerators are compared by value. *)
Definition eqb (i j : t) : bool := to_byte i =? to_byte j.

Lemma to_of_byte b : to_byte (of_byte b) = b.
Proof. destruct b as [|p|p]; try reflexivity. do 8 (destruct p as [p|p|]; try reflexivity). Qed.

(** Comparing with a named instruction. *)
Lemma eqb_of_byte b op : of_byte (to_byte op) = op ->
  eqb (of_byte b) op = true <-> of_byte b = op.
Proof.
  intros Hop. unfold eqb. rewrite to_of_byte, Z.eqb_eq. split; [intros ->; done|].
  intros H. by rewrite <- H, to_of_byte.
Qed.
End Instruction.

(** ** [enum class Tier : unsigned] *)
Module Tier.
Inductive t : Type := Zero | Base | VeryLow | Low | Mid | High | Ext | Special | Invalid.
Definition to_Z (x : t) : Z :=
  match x with
  | Zero => 0 | Base => 1 | VeryLow => 2 | Low => 3 | Mid => 4
  | High => 5 | Ext => 6 | Special => 7 | Invalid => 8
  end.
End Tier.

(** ** [struct InstructionInfo] *)
Record InstructionInfo := mkInfo {
  name : string;
  additional : Z;
  args : Z;
  ret : Z;
  sideEffects : bool;
  gasPriceTier : Tier.t
}.

(** ** [struct InstructionMetric] *)
Record InstructionMetric := mkMetric {
  metric_tier : Tier.t;
  metric_args : Z;
  metric_ret : Z
}.

(** ** [c_instructions]: mnemonics *)
Definition c_instructions : list (string * Instruction.t) :=
  [
   ("STOP", Instruction.STOP); ("ADD", Instruction.ADD); ("SUB", Instruction.SUB);
   ("MUL", Instruction.MUL); ("DIV", Instruction.DIV); ("SDIV", Instruction.SDIV);
   ("MOD", Instruction.MOD); ("SMOD", Instruction.SMOD); ("EXP", Instruction.EXP);
   ("BNOT", Instruction.NOT); ("LT", Instruction.LT); ("GT", Instruction.GT);
   ("SLT", Instruction.SLT); ("SGT", Instruction.SGT); ("EQ", Instruction.EQ);
   ("NOT", Instruction.ISZERO); ("AND", Instruction.AND); ("OR", Instruction.OR);
   ("XOR", Instruction.XOR); ("BYTE", Instruction.BYTE); ("ADDMOD", Instruction.ADDMOD);
   ("MULMOD", Instruction.MULMOD); ("SIGNEXTEND", Instruction.SIGNEXTEND); ("SHA3", Instruction.SHA3);
   ("ADDRESS", Instruction.ADDRESS); ("BALANCE", Instruction.BALANCE); ("ORIGIN", Instruction.ORIGIN);
   ("CALLER", Instruction.CALLER); ("CALLVALUE", Instruction.CALLVALUE); ("CALLDATALOAD", Instruction.CALLDATALOAD);
   ("CALLDATASIZE", Instruction.CALLDATASIZE); ("CALLDATACOPY", Instruction.CALLDATACOPY); ("CODESIZE", Instruction.CODESIZE);
   ("CODECOPY", Instruction.CODECOPY); ("GASPRICE", Instruction.GASPRICE); ("EXTCODESIZE", Instruction.EXTCODESIZE);
   ("EXTCODECOPY", Instruction.EXTCODECOPY); ("BLOCKHASH", Instruction.BLOCKHASH); ("COINBASE", Instruction.COINBASE);
   ("TIMESTAMP", Instruction.TIMESTAMP); ("NUMBER", Instruction.NUMBER); ("DIFFICULTY", Instruction.DIFFICULTY);
   ("GASLIMIT", Instruction.GASLIMIT); ("JUMPTO", Instruction.JUMPTO); ("JUMPIF", Instruction.JUMPTO);
   ("JUMPSUB", Instruction.JUMPSUB); ("JUMPV", Instruction.JUMPV); ("JUMPSUBV", Instruction.JUMPSUBV);
   ("RETURNSUB", Instruction.RETURNSUB); ("POP", Instruction.POP); ("MLOAD", Instruction.MLOAD);
   ("MSTORE", Instruction.MSTORE); ("MSTORE8", Instruction.MSTORE8); ("SLOAD", Instruction.SLOAD);
   ("SSTORE", Instruction.SSTORE); ("JUMP", Instruction.JUMP); ("JUMPI", Instruction.JUMPI);
   ("PC", Instruction.PC); ("MSIZE", Instruction.MSIZE); ("GAS", Instruction.GAS);
   ("BEGIN", Instruction.JUMPDEST); ("JUMPDEST", Instruction.JUMPDEST); ("BEGINDATA", Instruction.BEGINDATA);
   ("BEGINSUB", Instruction.BEGINSUB); ("PUSH1", Instruction.PUSH1); ("PUSH2", Instruction.PUSH2);
   ("PUSH3", Instruction.PUSH3); ("PUSH4", Instruction.PUSH4); ("PUSH5", Instruction.PUSH5);
   ("PUSH6", Instruction.PUSH6); ("PUSH7", Instruction.PUSH7); ("PUSH8", Instruction.PUSH8);
   ("PUSH9", Instruction.PUSH9); ("PUSH10", Instruction.PUSH10); ("PUSH11", Instruction.PUSH11);
   ("PUSH12", Instruction.PUSH12); ("PUSH13", Instruction.PUSH13); ("PUSH14", Instruction.PUSH14);
   ("PUSH15", Instruction.PUSH15); ("PUSH16", Instruction.PUSH16); ("PUSH17", Instruction.PUSH17);
   ("PUSH18", Instruction.PUSH18); ("PUSH19", Instruction.PUSH19); ("PUSH20", Instruction.PUSH20);
   ("PUSH21", Instruction.PUSH21); ("PUSH22", Instruction.PUSH22); ("PUSH23", Instruction.PUSH23);
   ("PUSH24", Instruction.PUSH24); ("PUSH25", Instruction.PUSH25); ("PUSH26", Instruction.PUSH26);
   ("PUSH27", Instruction.PUSH27); ("PUSH28", Instruction.PUSH28); ("PUSH29", Instruction.PUSH29);
   ("PUSH30", Instruction.PUSH30); ("PUSH31", Instruction.PUSH31); ("PUSH32", Instruction.PUSH32);
   ("DUP1", Instruction.DUP1); ("DUP2", Instruction.DUP2); ("DUP3", Instruction.DUP3);
   ("DUP4", Instruction.DUP4); ("DUP5", Instruction.DUP5); ("DUP6", Instruction.DUP6);
   ("DUP7", Instruction.DUP7); ("DUP8", Instruction.DUP8); ("DUP9", Instruction.DUP9);
   ("DUP10", Instruction.DUP10); ("DUP11", Instruction.DUP11); ("DUP12", Instruction.DUP12);
   ("DUP13", Instruction.DUP13); ("DUP14", Instruction.DUP14); ("DUP15", Instruction.DUP15);
   ("DUP16", Instruction.DUP16); ("SWAP1", Instruction.SWAP1); ("SWAP2", Instruction.SWAP2);
   ("SWAP3", Instruction.SWAP3); ("SWAP4", Instruction.SWAP4); ("SWAP5", Instruction.SWAP5);
   ("SWAP6", Instruction.SWAP6); ("SWAP7", Instruction.SWAP7); ("SWAP8", Instruction.SWAP8);
   ("SWAP9", Instruction.SWAP9); ("SWAP10", Instruction.SWAP10); ("SWAP11", Instruction.SWAP11);
   ("SWAP12", Instruction.SWAP12); ("SWAP13", Instruction.SWAP13); ("SWAP14", Instruction.SWAP14);
   ("SWAP15", Instruction.SWAP15); ("SWAP16", Instruction.SWAP16); ("LOG0", Instruction.LOG0);
   ("LOG1", Instruction.LOG1); ("LOG2", Instruction.LOG2); ("LOG3", Instruction.LOG3);
   ("LOG4", Instruction.LOG4); ("CREATE", Instruction.CREATE); ("CALL", Instruction.CALL);
   ("CALLCODE", Instruction.CALLCODE); ("RETURN", Instruction.RETURN); ("DELEGATECALL", Instruction.DELEGATECALL);
   ("SUICIDE", Instruction.SUICIDE); ("PUSHC", Instruction.PUSHC); ("JUMPC", Instruction.JUMPC);
   ("JUMPCI", Instruction.JUMPCI)
  ]%string.

(** ** [c_instructionInfo]

    A [std::map] built from an initializer list keeps the first of two entries
    with the same key, as the search below does. *)
Definition c_instructionInfo : list (Instruction.t * InstructionInfo) :=
  [
   (Instruction.STOP, mkInfo "STOP" 0 0 0 true Tier.Zero);
   (Instruction.ADD, mkInfo "ADD" 0 2 1 false Tier.VeryLow);
   (Instruction.SUB, mkInfo "SUB" 0 2 1 false Tier.VeryLow);
   (Instruction.MUL, mkInfo "MUL" 0 2 1 false Tier.Low);
   (Instruction.DIV, mkInfo "DIV" 0 2 1 false Tier.Low);
   (Instruction.SDIV, mkInfo "SDIV" 0 2 1 false Tier.Low);
   (Instruction.MOD, mkInfo "MOD" 0 2 1 false Tier.Low);
   (Instruction.SMOD, mkInfo "SMOD" 0 2 1 false Tier.Low);
   (Instruction.EXP, mkInfo "EXP" 0 2 1 false Tier.Special);
   (Instruction.NOT, mkInfo "NOT" 0 1 1 false Tier.VeryLow);
   (Instruction.LT, mkInfo "LT" 0 2 1 false Tier.VeryLow);
   (Instruction.GT, mkInfo "GT" 0 2 1 false Tier.VeryLow);
   (Instruction.SLT, mkInfo "SLT" 0 2 1 false Tier.VeryLow);
   (Instruction.SGT, mkInfo "SGT" 0 2 1 false Tier.VeryLow);
   (Instruction.EQ, mkInfo "EQ" 0 2 1 false Tier.VeryLow);
   (Instruction.ISZERO, mkInfo "ISZERO" 0 1 1 false Tier.VeryLow);
   (Instruction.AND, mkInfo "AND" 0 2 1 false Tier.VeryLow);
   (Instruction.OR, mkInfo "OR" 0 2 1 false Tier.VeryLow);
   (Instruction.XOR, mkInfo "XOR" 0 2 1 false Tier.VeryLow);
   (Instruction.BYTE, mkInfo "BYTE" 0 2 1 false Tier.VeryLow);
   (Instruction.ADDMOD, mkInfo "ADDMOD" 0 3 1 false Tier.Mid);
   (Instruction.MULMOD, mkInfo "MULMOD" 0 3 1 false Tier.Mid);
   (Instruction.SIGNEXTEND, mkInfo "SIGNEXTEND" 0 2 1 false Tier.Low);
   (Instruction.SHA3, mkInfo "SHA3" 0 2 1 false Tier.Special);
   (Instruction.ADDRESS, mkInfo "ADDRESS" 0 0 1 false Tier.Base);
   (Instruction.BALANCE, mkInfo "BALANCE" 0 1 1 false Tier.Special);
   (Instruction.ORIGIN, mkInfo "ORIGIN" 0 0 1 false Tier.Base);
   (Instruction.CALLER, mkInfo "CALLER" 0 0 1 false Tier.Base);
   (Instruction.CALLVALUE, mkInfo "CALLVALUE" 0 0 1 false Tier.Base);
   (Instruction.CALLDATALOAD, mkInfo "CALLDATALOAD" 0 1 1 false Tier.VeryLow);
   (Instruction.CALLDATASIZE, mkInfo "CALLDATASIZE" 0 0 1 false Tier.Base);
   (Instruction.CALLDATACOPY, mkInfo "CALLDATACOPY" 0 3 0 true Tier.VeryLow);
   (Instruction.CODESIZE, mkInfo "CODESIZE" 0 0 1 false Tier.Base);
   (Instruction.CODECOPY, mkInfo "CODECOPY" 0 3 0 true Tier.VeryLow);
   (Instruction.GASPRICE, mkInfo "GASPRICE" 0 0 1 false Tier.Base);
   (Instruction.EXTCODESIZE, mkInfo "EXTCODESIZE" 0 1 1 false Tier.Special);
   (Instruction.EXTCODECOPY, mkInfo "EXTCODECOPY" 0 4 0 true Tier.Special);
   (Instruction.BLOCKHASH, mkInfo "BLOCKHASH" 0 1 1 false Tier.Ext);
   (Instruction.COINBASE, mkInfo "COINBASE" 0 0 1 false Tier.Base);
   (Instruction.TIMESTAMP, mkInfo "TIMESTAMP" 0 0 1 false Tier.Base);
   (Instruction.NUMBER, mkInfo "NUMBER" 0 0 1 false Tier.Base);
   (Instruction.DIFFICULTY, mkInfo "DIFFICULTY" 0 0 1 false Tier.Base);
   (Instruction.GASLIMIT, mkInfo "GASLIMIT" 0 0 1 false Tier.Base);
   (Instruction.JUMPTO, mkInfo "JUMPTO" 4 1 0 true Tier.VeryLow);
   (Instruction.JUMPIF, mkInfo "JUMPIF" 4 2 0 true Tier.Low);
   (Instruction.JUMPV, mkInfo "JUMPV" 4 1 0 true Tier.Mid);
   (Instruction.JUMPSUB, mkInfo "JUMPSUB" 4 1 0 true Tier.Low);
   (Instruction.JUMPSUBV, mkInfo "JUMPSUBV" 4 1 0 true Tier.Mid);
   (Instruction.RETURNSUB, mkInfo "RETURNSUB" 0 1 0 true Tier.Mid);
   (Instruction.POP, mkInfo "POP" 0 1 0 false Tier.Base);
   (Instruction.MLOAD, mkInfo "MLOAD" 0 1 1 false Tier.VeryLow);
   (Instruction.MSTORE, mkInfo "MSTORE" 0 2 0 true Tier.VeryLow);
   (Instruction.MSTORE8, mkInfo "MSTORE8" 0 2 0 true Tier.VeryLow);
   (Instruction.SLOAD, mkInfo "SLOAD" 0 1 1 false Tier.Special);
   (Instruction.SSTORE, mkInfo "SSTORE" 0 2 0 true Tier.Special);
   (Instruction.JUMP, mkInfo "JUMP" 0 1 0 true Tier.Mid);
   (Instruction.JUMPI, mkInfo "JUMPI" 0 2 0 true Tier.High);
   (Instruction.PC, mkInfo "PC" 0 0 1 false Tier.Base);
   (Instruction.MSIZE, mkInfo "MSIZE" 0 0 1 false Tier.Base);
   (Instruction.GAS, mkInfo "GAS" 0 0 1 false Tier.Base);
   (Instruction.JUMPDEST, mkInfo "JUMPDEST" 0 0 0 true Tier.Special);
   (Instruction.BEGINDATA, mkInfo "BEGINDATA" 0 0 0 true Tier.Special);
   (Instruction.BEGINSUB, mkInfo "BEGINSUB" 0 0 0 true Tier.Special);
   (Instruction.PUSH1, mkInfo "PUSH1" 1 0 1 false Tier.VeryLow);
   (Instruction.PUSH2, mkInfo "PUSH2" 2 0 1 false Tier.VeryLow);
   (Instruction.PUSH3, mkInfo "PUSH3" 3 0 1 false Tier.VeryLow);
   (Instruction.PUSH4, mkInfo "PUSH4" 4 0 1 false Tier.VeryLow);
   (Instruction.PUSH5, mkInfo "PUSH5" 5 0 1 false Tier.VeryLow);
   (Instruction.PUSH6, mkInfo "PUSH6" 6 0 1 false Tier.VeryLow);
   (Instruction.PUSH7, mkInfo "PUSH7" 7 0 1 false Tier.VeryLow);
   (Instruction.PUSH8, mkInfo "PUSH8" 8 0 1 false Tier.VeryLow);
   (Instruction.PUSH9, mkInfo "PUSH9" 9 0 1 false Tier.VeryLow);
   (Instruction.PUSH10, mkInfo "PUSH10" 10 0 1 false Tier.VeryLow);
   (Instruction.PUSH11, mkInfo "PUSH11" 11 0 1 false Tier.VeryLow);
   (Instruction.PUSH12, mkInfo "PUSH12" 12 0 1 false Tier.VeryLow);
   (Instruction.PUSH13, mkInfo "PUSH13" 13 0 1 false Tier.VeryLow);
   (Instruction.PUSH14, mkInfo "PUSH14" 14 0 1 false Tier.VeryLow);
   (Instruction.PUSH15, mkInfo "PUSH15" 15 0 1 false Tier.VeryLow);
   (Instruction.PUSH16, mkInfo "PUSH16" 16 0 1 false Tier.VeryLow);
   (Instruction.PUSH17, mkInfo "PUSH17" 17 0 1 false Tier.VeryLow);
   (Instruction.PUSH18, mkInfo "PUSH18" 18 0 1 false Tier.VeryLow);
   (Instruction.PUSH19, mkInfo "PUSH19" 19 0 1 false Tier.VeryLow);
   (Instruction.PUSH20, mkInfo "PUSH20" 20 0 1 false Tier.VeryLow);
   (Instruction.PUSH21, mkInfo "PUSH21" 21 0 1 false Tier.VeryLow);
   (Instruction.PUSH22, mkInfo "PUSH22" 22 0 1 false Tier.VeryLow);
   (Instruction.PUSH23, mkInfo "PUSH23" 23 0 1 false Tier.VeryLow);
   (Instruction.PUSH24, mkInfo "PUSH24" 24 0 1 false Tier.VeryLow);
   (Instruction.PUSH25, mkInfo "PUSH25" 25 0 1 false Tier.VeryLow);
   (Instruction.PUSH26, mkInfo "PUSH26" 26 0 1 false Tier.VeryLow);
   (Instruction.PUSH27, mkInfo "PUSH27" 27 0 1 false Tier.VeryLow);
   (Instruction.PUSH28, mkInfo "PUSH28" 28 0 1 false Tier.VeryLow);
   (Instruction.PUSH29, mkInfo "PUSH29" 29 0 1 false Tier.VeryLow);
   (Instruction.PUSH30, mkInfo "PUSH30" 30 0 1 false Tier.VeryLow);
   (Instruction.PUSH31, mkInfo "PUSH31" 31 0 1 false Tier.VeryLow);
   (Instruction.PUSH32, mkInfo "PUSH32" 32 0 1 false Tier.VeryLow);
   (Instruction.DUP1, mkInfo "DUP1" 0 1 2 false Tier.VeryLow);
   (Instruction.DUP2, mkInfo "DUP2" 0 2 3 false Tier.VeryLow);
   (Instruction.DUP3, mkInfo "DUP3" 0 3 4 false Tier.VeryLow);
   (Instruction.DUP4, mkInfo "DUP4" 0 4 5 false Tier.VeryLow);
   (Instruction.DUP5, mkInfo "DUP5" 0 5 6 false Tier.VeryLow);
   (Instruction.DUP6, mkInfo "DUP6" 0 6 7 false Tier.VeryLow);
   (Instruction.DUP7, mkInfo "DUP7" 0 7 8 false Tier.VeryLow);
   (Instruction.DUP8, mkInfo "DUP8" 0 8 9 false Tier.VeryLow);
   (Instruction.DUP9, mkInfo "DUP9" 0 9 10 false Tier.VeryLow);
   (Instruction.DUP10, mkInfo "DUP10" 0 10 11 false Tier.VeryLow);
   (Instruction.DUP11, mkInfo "DUP11" 0 11 12 false Tier.VeryLow);
   (Instruction.DUP12, mkInfo "DUP12" 0 12 13 false Tier.VeryLow);
   (Instruction.DUP13, mkInfo "DUP13" 0 13 14 false Tier.VeryLow);
   (Instruction.DUP14, mkInfo "DUP14" 0 14 15 false Tier.VeryLow);
   (Instruction.DUP15, mkInfo "DUP15" 0 15 16 false Tier.VeryLow);
   (Instruction.DUP16, mkInfo "DUP16" 0 16 17 false Tier.VeryLow);
   (Instruction.SWAP1, mkInfo "SWAP1" 0 2 2 false Tier.VeryLow);
   (Instruction.SWAP2, mkInfo "SWAP2" 0 3 3 false Tier.VeryLow);
   (Instruction.SWAP3, mkInfo "SWAP3" 0 4 4 false Tier.VeryLow);
   (Instruction.SWAP4, mkInfo "SWAP4" 0 5 5 false Tier.VeryLow);
   (Instruction.SWAP5, mkInfo "SWAP5" 0 6 6 false Tier.VeryLow);
   (Instruction.SWAP6, mkInfo "SWAP6" 0 7 7 false Tier.VeryLow);
   (Instruction.SWAP7, mkInfo "SWAP7" 0 8 8 false Tier.VeryLow);
   (Instruction.SWAP8, mkInfo "SWAP8" 0 9 9 false Tier.VeryLow);
   (Instruction.SWAP9, mkInfo "SWAP9" 0 10 10 false Tier.VeryLow);
   (Instruction.SWAP10, mkInfo "SWAP10" 0 11 11 false Tier.VeryLow);
   (Instruction.SWAP11, mkInfo "SWAP11" 0 12 12 false Tier.VeryLow);
   (Instruction.SWAP12, mkInfo "SWAP12" 0 13 13 false Tier.VeryLow);
   (Instruction.SWAP13, mkInfo "SWAP13" 0 14 14 false Tier.VeryLow);
   (Instruction.SWAP14, mkInfo "SWAP14" 0 15 15 false Tier.VeryLow);
   (Instruction.SWAP15, mkInfo "SWAP15" 0 16 16 false Tier.VeryLow);
   (Instruction.SWAP16, mkInfo "SWAP16" 0 17 17 false Tier.VeryLow);
   (Instruction.LOG0, mkInfo "LOG0" 0 2 0 true Tier.Special);
   (Instruction.LOG1, mkInfo "LOG1" 0 3 0 true Tier.Special);
   (Instruction.LOG2, mkInfo "LOG2" 0 4 0 true Tier.Special);
   (Instruction.LOG3, mkInfo "LOG3" 0 5 0 true Tier.Special);
   (Instruction.LOG4, mkInfo "LOG4" 0 6 0 true Tier.Special);
   (Instruction.CREATE, mkInfo "CREATE" 0 3 1 true Tier.Special);
   (Instruction.CALL, mkInfo "CALL" 0 7 1 true Tier.Special);
   (Instruction.CALLCODE, mkInfo "CALLCODE" 0 7 1 true Tier.Special);
   (Instruction.RETURN, mkInfo "RETURN" 0 2 0 true Tier.Zero);
   (Instruction.DELEGATECALL, mkInfo "DELEGATECALL" 0 6 1 true Tier.Special);
   (Instruction.SUICIDE, mkInfo "SUICIDE" 0 1 0 true Tier.Special);
   (Instruction.PUSHC, mkInfo "PUSHC" 2 0 1 false Tier.VeryLow);
   (Instruction.JUMPC, mkInfo "JUMPC" 0 1 0 true Tier.Mid);
   (Instruction.JUMPCI, mkInfo "JUMPCI" 0 1 0 true Tier.High);
   (Instruction.STOP, mkInfo "BAD" 0 0 0 true Tier.Zero)
  ]%string.

(** [instructionInfo(_inst)] *)
Definition instructionInfo (inst : Instruction.t) : InstructionInfo :=
  match find (fun e => Instruction.eqb (fst e) inst) c_instructionInfo with
  | Some (_, i) => i
  | None => mkInfo "" 0 0 0 false Tier.Invalid
  end.

(** [isValidInstruction(_inst)] *)
Definition isValidInstruction (inst : Instruction.t) : bool :=
  existsb (fun e => Instruction.eqb (fst e) inst) c_instructionInfo.

(** [VM::initMetrics()] fills [c_metrics]. *)
Definition initMetrics : list InstructionMetric :=
  (fun i => let op := instructionInfo (Instruction.of_byte i) in
            mkMetric (gasPriceTier op) (args op) (ret op)) <$> seqZ 0 256.

(** ** [struct EVMSchedule] *)
Record EVMSchedule := mkSchedule {
  exceptionalFailedCodeDeposit : bool;
  haveDelegateCall : bool;
  eip150Mode : bool;
  eip158Mode : bool;
  tierStepGas : list Z;
  expGas : Z;
  expByteGas : Z;
  sha3Gas : Z;
  sha3WordGas : Z;
  sloadGas : Z;
  sstoreSetGas : Z;
  sstoreResetGas : Z;
  sstoreRefundGas : Z;
  jumpdestGas : Z;
  logGas : Z;
  logDataGas : Z;
  logTopicGas : Z;
  createGas : Z;
  callGas : Z;
  callStipend : Z;
  callValueTransferGas : Z;
  callNewAccountGas : Z;
  suicideRefundGas : Z;
  memoryGas : Z;
  quadCoeffDiv : Z;
  createDataGas : Z;
  txGas : Z;
  txCreateGas : Z;
  txDataZeroGas : Z;
  txDataNonZeroGas : Z;
  copyGas : Z;
  extcodesizeGas : Z;
  extcodecopyGas : Z;
  balanceGas : Z;
  suicideGas : Z;
  maxCodeSize : Z
}.

(** [DefaultSchedule]: the default member initialisers. *)
Definition DefaultSchedule : EVMSchedule := {|
  exceptionalFailedCodeDeposit := true;
  haveDelegateCall := true;
  eip150Mode := false;
  eip158Mode := false;
  tierStepGas := [0; 2; 3; 5; 8; 10; 20; 0];
  expGas := 10;
  expByteGas := 10;
  sha3Gas := 30;
  sha3WordGas := 6;
  sloadGas := 50;
  sstoreSetGas := 20000;
  sstoreResetGas := 5000;
  sstoreRefundGas := 15000;
  jumpdestGas := 1;
  logGas := 375;
  logDataGas := 8;
  logTopicGas := 375;
  createGas := 32000;
  callGas := 40;
  callStipend := 2300;
  callValueTransferGas := 9000;
  callNewAccountGas := 25000;
  suicideRefundGas := 24000;
  memoryGas := 3;
  quadCoeffDiv := 512;
  createDataGas := 200;
  txGas := 21000;
  txCreateGas := 53000;
  txDataZeroGas := 4;
  txDataNonZeroGas := 68;
  copyGas := 3;
  extcodesizeGas := 20;
  extcodecopyGas := 20;
  balanceGas := 20;
  suicideGas := 0;
  maxCodeSize := 2 ^ 32 - 1
|}.

Definition staticCallDepthLimit (s : EVMSchedule) : bool := negb (eip150Mode s).
Definition suicideChargesNewAccountGas (s : EVMSchedule) : bool := eip150Mode s.
Definition emptinessIsNonexistence (s : EVMSchedule) : bool := eip158Mode s.
Definition zeroValueTransferChargesNewAccountGas (s : EVMSchedule) : bool := negb (eip158Mode s).
