(* ===== verification/ScVm.v ===== *)
(** * The contract virtual machine

    Model of class [VM] ([src/src/scvm.h], [src/src/scvm.cpp]) and of the
    interface [ExtVMFace] through which it reaches the account state.

    - The object's members are the record [VM]; member functions are
      computations of type [SE (VM W) _], so an exception leaves the members as
      they were when it was thrown, which [exec] observes.
    - The stack is the array [m_stackSpace] of 1025 words; [m_SP] is kept as the
      index [m_SP - m_stack], so [-1] is the cell below the first slot
      ([m_stack = m_stackSpace + 1]).  An access outside the array is [Undef].
    - Memory and code are byte lists; an access outside them is [Undef].
    - The two places where the source reads an object through a pointer of
      another type, and the read [tierStepGas[8]] past the end of an array of
      eight, have no defined value: they are the fields of [Platform], over
      which every theorem quantifies.
    - The switch of [interpretCases] is one definition per [CASE]. *)

From S2P Require Import Prelude ScFixedHash ScSha3 ScInstruction.
Import Instruction.

(** ** Values the language does not define *)
Class Platform := {
  oob_tierStepGas : Z;     (** what [tierStepGas[8]] yields, an [unsigned] *)
  u160_view : bytes -> Z;  (** what reading an [Address] through a [u160] pointer yields *)
  oob_tierStepGas_range : in_range 32 oob_tierStepGas;
  u160_view_range a : in_range 160 (u160_view a)
}.

(** ** [struct LogEntry], [struct SubState], [struct CallParameters] *)
Record LogEntry := mkLog { log_address : bytes; topics : list bytes; log_data : bytes }.

Record SubState := mkSub { suicides : gset bytes; logs : list LogEntry; refunds : Z }.

(** [SubState::operator+=] *)
Definition SubState_add (s1 s2 : SubState) : SubState :=
  mkSub (suicides s1 ∪ suicides s2) (logs s1 ++ logs s2) (u256 (refunds s1 + refunds s2)).
(** [SubState::clear()] *)
Definition SubState_clear (s : SubState) : SubState := mkSub ∅ [] 0.

Record CallParameters := mkCall {
  senderAddress : bytes;
  codeAddress : bytes;
  receiveAddress : bytes;
  valueTransfer : Z;
  apparentValue : Z;
  call_gas : Z;
  call_data : bytes
}.

(** ** [class ExtVMFace] / [class ExtVM]

    The data members; [W] is the type of the account state [m_s]. *)
Record ExtVM (W : Type) := mkExt {
  myAddress : bytes;
  caller : bytes;
  origin : bytes;
  value : Z;
  gasPrice : Z;
  data : bytes;
  code : bytes;
  codeHash : bytes;
  sub : SubState;
  depth : Z;
  m_s : W
}.
Arguments mkExt {W}.
Arguments myAddress {W}.
Arguments caller {W}.
Arguments origin {W}.
Arguments value {W}.
Arguments gasPrice {W}.
Arguments data {W}.
Arguments code {W}.
Arguments codeHash {W}.
Arguments sub {W}.
Arguments depth {W}.
Arguments m_s {W}.

Definition set_sub {W} (x : SubState) (e : ExtVM W) : ExtVM W :=
  mkExt (myAddress e) (caller e) (origin e) (value e) (gasPrice e) (data e) (code e)
    (codeHash e) x (depth e) (m_s e).
Definition set_m_s {W W'} (x : W') (e : ExtVM W) : ExtVM W' :=
  mkExt (myAddress e) (caller e) (origin e) (value e) (gasPrice e) (data e) (code e)
    (codeHash e) (sub e) (depth e) x.

(** The virtual member functions. *)
Class ExtVMOps (W : Type) := {
  ext_store : Z -> SE (ExtVM W) Z;
  ext_setStore : Z -> Z -> SE (ExtVM W) unit;
  ext_balance : bytes -> SE (ExtVM W) Z;
  ext_codeAt : bytes -> SE (ExtVM W) bytes;
  ext_codeSizeAt : bytes -> SE (ExtVM W) Z;
  ext_exists : bytes -> SE (ExtVM W) bool;
  ext_suicide : bytes -> SE (ExtVM W) unit;
  (** endowment, gas, init code; the new address and the gas left *)
  ext_create : Z -> Z -> bytes -> SE (ExtVM W) (bytes * Z);
  (** the output, or none if the call failed, and the gas left *)
  ext_call : CallParameters -> SE (ExtVM W) (option bytes * Z);
  evmSchedule : EVMSchedule
}.

(** [ExtVMFace::log], not overridden. *)
Definition ext_log {W} (ts : list bytes) (d : bytes) : SE (ExtVM W) unit :=
  modify (fun e => set_sub (mkSub (suicides (sub e)) (logs (sub e) ++ [mkLog (myAddress e) ts d])
                              (refunds (sub e))) e).
(** [ExtVMFace::blockHash] *)
Definition ext_blockHash (n : Z) : bytes := FixedHash.zero 32.

(** ** [class VM] *)

(** The member functions [m_bounce] points to. *)
Inductive MemFnPtr := InitEntry | InterpretCases | CaseCreate | CaseCall.

(** The arguments [onOperation] passes to the tracing callback. *)
Record OpEvent := mkEvent {
  ev_steps : Z; ev_PC : Z; ev_OP : Instruction.t; ev_newMem : Z; ev_runGas : Z; ev_gas : Z
}.

(** [m_trace] records the calls of the callback [m_onOp], which is absent when
    [m_onOp] is [false].  [m_caseInit], [m_bounce], ... are the members of the
    same name; [io_gas] is the caller's variable the member points to. *)
Record VM (W : Type) := mkVM {
  io_gas : Z;
  m_io_gas : Z;
  m_ctx : ExtVM W;
  m_onOp : bool;
  m_caseInit : bool;
  m_bounce : option MemFnPtr;
  m_nSteps : Z;
  m_output : bytes;
  m_mem : bytes;
  m_code : bytes;
  m_stackSpace : list Z;
  m_pool : list Z;
  m_jumpDests : list Z;
  m_OP : Instruction.t;
  m_PC : Z;
  m_SP : Z;
  m_runGas : Z;
  m_newMemSize : Z;
  m_copyMemSize : Z;
  m_trace : list OpEvent
}.
Arguments mkVM {W}.
Arguments io_gas {W}.
Arguments m_io_gas {W}.
Arguments m_ctx {W}.
Arguments m_onOp {W}.
Arguments m_caseInit {W}.
Arguments m_bounce {W}.
Arguments m_nSteps {W}.
Arguments m_output {W}.
Arguments m_mem {W}.
Arguments m_code {W}.
Arguments m_stackSpace {W}.
Arguments m_pool {W}.
Arguments m_jumpDests {W}.
Arguments m_OP {W}.
Arguments m_PC {W}.
Arguments m_SP {W}.
Arguments m_runGas {W}.
Arguments m_newMemSize {W}.
Arguments m_copyMemSize {W}.
Arguments m_trace {W}.

Definition set_io_gas {W} (x : Z) (v : VM W) : VM W :=
  mkVM x (m_io_gas v) (m_ctx v) (m_onOp v) (m_caseInit v) (m_bounce v) (m_nSteps v) (m_output v) (m_mem v) (m_code v) (m_stackSpace v) (m_pool v) (m_jumpDests v) (m_OP v) (m_PC v) (m_SP v) (m_runGas v) (m_newMemSize v) (m_copyMemSize v) (m_trace v).
Definition set_m_io_gas {W} (x : Z) (v : VM W) : VM W :=
  mkVM (io_gas v) x (m_ctx v) (m_onOp v) (m_caseInit v) (m_bounce v) (m_nSteps v) (m_output v) (m_mem v) (m_code v) (m_stackSpace v) (m_pool v) (m_jumpDests v) (m_OP v) (m_PC v) (m_SP v) (m_runGas v) (m_newMemSize v) (m_copyMemSize v) (m_trace v).
Definition set_m_ctx {W} (x : ExtVM W) (v : VM W) : VM W :=
  mkVM (io_gas v) (m_io_gas v) x (m_onOp v) (m_caseInit v) (m_bounce v) (m_nSteps v) (m_output v) (m_mem v) (m_code v) (m_stackSpace v) (m_pool v) (m_jumpDests v) (m_OP v) (m_PC v) (m_SP v) (m_runGas v) (m_newMemSize v) (m_copyMemSize v) (m_trace v).
Definition set_m_onOp {W} (x : bool) (v : VM W) : VM W :=
  mkVM (io_gas v) (m_io_gas v) (m_ctx v) x (m_caseInit v) (m_bounce v) (m_nSteps v) (m_output v) (m_mem v) (m_code v) (m_stackSpace v) (m_pool v) (m_jumpDests v) (m_OP v) (m_PC v) (m_SP v) (m_runGas v) (m_newMemSize v) (m_copyMemSize v) (m_trace v).
Definition set_m_caseInit {W} (x : bool) (v : VM W) : VM W :=
  mkVM (io_gas v) (m_io_gas v) (m_ctx v) (m_onOp v) x (m_bounce v) (m_nSteps v) (m_output v) (m_mem v) (m_code v) (m_stackSpace v) (m_pool v) (m_jumpDests v) (m_OP v) (m_PC v) (m_SP v) (m_runGas v) (m_newMemSize v) (m_copyMemSize v) (m_trace v).
Definition set_m_bounce {W} (x : option MemFnPtr) (v : VM W) : VM W :=
  mkVM (io_gas v) (m_io_gas v) (m_ctx v) (m_onOp v) (m_caseInit v) x (m_nSteps v) (m_output v) (m_mem v) (m_code v) (m_stackSpace v) (m_pool v) (m_jumpDests v) (m_OP v) (m_PC v) (m_SP v) (m_runGas v) (m_newMemSize v) (m_copyMemSize v) (m_trace v).
Definition set_m_nSteps {W} (x : Z) (v : VM W) : VM W :=
  mkVM (io_gas v) (m_io_gas v) (m_ctx v) (m_onOp v) (m_caseInit v) (m_bounce v) x (m_output v) (m_mem v) (m_code v) (m_stackSpace v) (m_pool v) (m_jumpDests v) (m_OP v) (m_PC v) (m_SP v) (m_runGas v) (m_newMemSize v) (m_copyMemSize v) (m_trace v).
Definition set_m_output {W} (x : bytes) (v : VM W) : VM W :=
  mkVM (io_gas v) (m_io_gas v) (m_ctx v) (m_onOp v) (m_caseInit v) (m_bounce v) (m_nSteps v) x (m_mem v) (m_code v) (m_stackSpace v) (m_pool v) (m_jumpDests v) (m_OP v) (m_PC v) (m_SP v) (m_runGas v) (m_newMemSize v) (m_copyMemSize v) (m_trace v).
Definition set_m_mem {W} (x : bytes) (v : VM W) : VM W :=
  mkVM (io_gas v) (m_io_gas v) (m_ctx v) (m_onOp v) (m_caseInit v) (m_bounce v) (m_nSteps v) (m_output v) x (m_code v) (m_stackSpace v) (m_pool v) (m_jumpDests v) (m_OP v) (m_PC v) (m_SP v) (m_runGas v) (m_newMemSize v) (m_copyMemSize v) (m_trace v).
Definition set_m_code {W} (x : bytes) (v : VM W) : VM W :=
  mkVM (io_gas v) (m_io_gas v) (m_ctx v) (m_onOp v) (m_caseInit v) (m_bounce v) (m_nSteps v) (m_output v) (m_mem v) x (m_stackSpace v) (m_pool v) (m_jumpDests v) (m_OP v) (m_PC v) (m_SP v) (m_runGas v) (m_newMemSize v) (m_copyMemSize v) (m_trace v).
Definition set_m_stackSpace {W} (x : list Z) (v : VM W) : VM W :=
  mkVM (io_gas v) (m_io_gas v) (m_ctx v) (m_onOp v) (m_caseInit v) (m_bounce v) (m_nSteps v) (m_output v) (m_mem v) (m_code v) x (m_pool v) (m_jumpDests v) (m_OP v) (m_PC v) (m_SP v) (m_runGas v) (m_newMemSize v) (m_copyMemSize v) (m_trace v).
Definition set_m_pool {W} (x : list Z) (v : VM W) : VM W :=
  mkVM (io_gas v) (m_io_gas v) (m_ctx v) (m_onOp v) (m_caseInit v) (m_bounce v) (m_nSteps v) (m_output v) (m_mem v) (m_code v) (m_stackSpace v) x (m_jumpDests v) (m_OP v) (m_PC v) (m_SP v) (m_runGas v) (m_newMemSize v) (m_copyMemSize v) (m_trace v).
Definition set_m_jumpDests {W} (x : list Z) (v : VM W) : VM W :=
  mkVM (io_gas v) (m_io_gas v) (m_ctx v) (m_onOp v) (m_caseInit v) (m_bounce v) (m_nSteps v) (m_output v) (m_mem v) (m_code v) (m_stackSpace v) (m_pool v) x (m_OP v) (m_PC v) (m_SP v) (m_runGas v) (m_newMemSize v) (m_copyMemSize v) (m_trace v).
Definition set_m_OP {W} (x : Instruction.t) (v : VM W) : VM W :=
  mkVM (io_gas v) (m_io_gas v) (m_ctx v) (m_onOp v) (m_caseInit v) (m_bounce v) (m_nSteps v) (m_output v) (m_mem v) (m_code v) (m_stackSpace v) (m_pool v) (m_jumpDests v) x (m_PC v) (m_SP v) (m_runGas v) (m_newMemSize v) (m_copyMemSize v) (m_trace v).
Definition set_m_PC {W} (x : Z) (v : VM W) : VM W :=
  mkVM (io_gas v) (m_io_gas v) (m_ctx v) (m_onOp v) (m_caseInit v) (m_bounce v) (m_nSteps v) (m_output v) (m_mem v) (m_code v) (m_stackSpace v) (m_pool v) (m_jumpDests v) (m_OP v) x (m_SP v) (m_runGas v) (m_newMemSize v) (m_copyMemSize v) (m_trace v).
Definition set_m_SP {W} (x : Z) (v : VM W) : VM W :=
  mkVM (io_gas v) (m_io_gas v) (m_ctx v) (m_onOp v) (m_caseInit v) (m_bounce v) (m_nSteps v) (m_output v) (m_mem v) (m_code v) (m_stackSpace v) (m_pool v) (m_jumpDests v) (m_OP v) (m_PC v) x (m_runGas v) (m_newMemSize v) (m_copyMemSize v) (m_trace v).
Definition set_m_runGas {W} (x : Z) (v : VM W) : VM W :=
  mkVM (io_gas v) (m_io_gas v) (m_ctx v) (m_onOp v) (m_caseInit v) (m_bounce v) (m_nSteps v) (m_output v) (m_mem v) (m_code v) (m_stackSpace v) (m_pool v) (m_jumpDests v) (m_OP v) (m_PC v) (m_SP v) x (m_newMemSize v) (m_copyMemSize v) (m_trace v).
Definition set_m_newMemSize {W} (x : Z) (v : VM W) : VM W :=
  mkVM (io_gas v) (m_io_gas v) (m_ctx v) (m_onOp v) (m_caseInit v) (m_bounce v) (m_nSteps v) (m_output v) (m_mem v) (m_code v) (m_stackSpace v) (m_pool v) (m_jumpDests v) (m_OP v) (m_PC v) (m_SP v) (m_runGas v) x (m_copyMemSize v) (m_trace v).
Definition set_m_copyMemSize {W} (x : Z) (v : VM W) : VM W :=
  mkVM (io_gas v) (m_io_gas v) (m_ctx v) (m_onOp v) (m_caseInit v) (m_bounce v) (m_nSteps v) (m_output v) (m_mem v) (m_code v) (m_stackSpace v) (m_pool v) (m_jumpDests v) (m_OP v) (m_PC v) (m_SP v) (m_runGas v) (m_newMemSize v) x (m_trace v).
Definition set_m_trace {W} (x : list OpEvent) (v : VM W) : VM W :=
  mkVM (io_gas v) (m_io_gas v) (m_ctx v) (m_onOp v) (m_caseInit v) (m_bounce v) (m_nSteps v) (m_output v) (m_mem v) (m_code v) (m_stackSpace v) (m_pool v) (m_jumpDests v) (m_OP v) (m_PC v) (m_SP v) (m_runGas v) (m_newMemSize v) (m_copyMemSize v) x.

(** A [VM] object as [new VM] leaves it, with the arguments [exec] stores. *)
Definition new_VM {W} (gas : Z) (ctx : ExtVM W) (onOp : bool) : VM W :=
  mkVM gas 0 ctx onOp false None 0 [] [] [] (replicate 1025 0) (replicate 256 0) [] STOP
    0 (-1) 0 0 0 [].

Section Machine.
Context {W : Type} `{EX : !ExtVMOps W} `{PL : !Platform}.

Abbreviation M := (SE (VM W)).
Implicit Types s : VM W.

Definition m_schedule : EVMSchedule := evmSchedule.

(** *** Exceptions *)
Definition throwOutOfGas {A} : M A := throw "Out Of Gas".
Definition throwBadInstruction {A} : M A := throw "Bad Instruction".
Definition throwBadJumpDestination {A} : M A := throw "Bad Jump Destination".
Definition throwBadStack {A} : M A := throw "Bad Stack".
Definition throwRevertInstruction {A} : M A := throw "Revert Instruction".

(** [toInt63(v)] *)
Definition toInt63 (v : Z) : M Z :=
  if 0x7FFFFFFFFFFFFFFF <? v then throwOutOfGas else mret v.

(** *** Access to the stack, memory, code and context *)

(** [m_stack[i]] *)
Definition rd (i : Z) : M Z := fun s =>
  if (-1 <=? i) && (i <? 1024) then (Ok (nth (Z.to_nat (i + 1)) (m_stackSpace s) 0), s)
  else (Undef "m_stack read", s).
Definition wr (i v : Z) : M unit := fun s =>
  if (-1 <=? i) && (i <? 1024)
  then (Ok tt, set_m_stackSpace (<[Z.to_nat (i + 1) := v]> (m_stackSpace s)) s)
  else (Undef "m_stack write", s).

(** [*(m_SP - k)], as a value and as an lvalue. *)
Definition top (k : Z) : M Z := sp ← gets m_SP; rd (sp - k).
Definition set_top (k v : Z) : M unit := sp ← gets m_SP; wr (sp - k) v.
(** [m_SP -= n] *)
Definition drop_sp (n : Z) : M unit := modify (fun s => set_m_SP (m_SP s - n) s).
(** [*m_SP--] *)
Definition pop : M Z := v ← top 0; drop_sp 1;; mret v.
(** [*++m_SP = v] *)
Definition push (v : Z) : M unit := drop_sp (-1);; set_top 0 v.

(** [m_code[i]] *)
Definition code_at (i : Z) : M Z := fun s =>
  match m_code s !! Z.to_nat i with
  | Some b => if 0 <=? i then (Ok b, s) else (Undef "m_code read", s)
  | None => (Undef "m_code read", s)
  end.

(** The [n] bytes at [m_mem.data() + off]; a reference to no bytes is not
    followed. *)
Definition mem_ref (off n : Z) : M bytes := fun s =>
  if n =? 0 then (Ok [], s)
  else if (0 <=? off) && (0 <=? n) && (off + n <=? size (m_mem s))
  then (Ok (take (Z.to_nat n) (drop (Z.to_nat off) (m_mem s))), s)
  else (Undef "m_mem read", s).
(** Overwriting the bytes at [m_mem.data() + off]. *)
Definition mem_write (off : Z) (bs : bytes) : M unit := fun s =>
  if size bs =? 0 then (Ok tt, s)
  else if (0 <=? off) && (off + size bs <=? size (m_mem s))
  then (Ok tt, set_m_mem (take (Z.to_nat off) (m_mem s) ++ bs
                          ++ drop (Z.to_nat off + length bs) (m_mem s)) s)
  else (Undef "m_mem write", s).

(** A member function of [*m_ctx]. *)
Definition ctx {A} (m : SE (ExtVM W) A) : M A := zoom m_ctx set_m_ctx m.
Definition face {A} (f : ExtVM W -> A) : M A := gets (fun s => f (m_ctx s)).

Definition set_PC (x : Z) : M unit := modify (set_m_PC x).
Definition set_runGas (x : Z) : M unit := modify (set_m_runGas x).
Definition set_newMem (x : Z) : M unit := modify (set_m_newMemSize x).
Definition set_copyMem (x : Z) : M unit := modify (set_m_copyMemSize x).
Definition set_bounce (x : option MemFnPtr) : M unit := modify (set_m_bounce x).

(** *** Metering *)

(** [onOperation()] *)
Definition onOperation : M unit := fun s =>
  if m_onOp s then
    let n := u64 (m_nSteps s + 1) in
    let e := mkEvent n (m_PC s) (m_OP s)
               (if size (m_mem s) <? m_newMemSize s
                then (m_newMemSize s - size (m_mem s)) / 32 else 0)
               (m_runGas s) (m_io_gas s) in
    (Ok tt, set_m_trace (m_trace s ++ [e]) (set_m_nSteps n s))
  else (Ok tt, s).

(** [checkStack(_removed, _added)] *)
Definition checkStack (removed added : Z) : M unit :=
  sp ← gets m_SP;
  let stack_size := 1 + sp in
  let usedSize := stack_size - removed in
  if (usedSize <? 0) || (1024 <? usedSize + added) then throwBadStack else mret tt.

(** [gasForMem(_size)]; dividing by zero throws [std::overflow_error]. *)
Definition gasForMem (sz : Z) : M Z :=
  let s := sz / 32 in
  if quadCoeffDiv m_schedule =? 0 then throw "Division by zero."
  else toInt63 (u512 (u512 (memoryGas m_schedule * s) + u512 (s * s) / quadCoeffDiv m_schedule)).

(** [memNeed(_offset, _size)] *)
Definition memNeed (off sz : Z) : M Z :=
  toInt63 (if sz =? 0 then 0 else u512 (off + sz)).

(** [updateIOGas()] *)
Definition updateIOGas : M unit :=
  io ← gets m_io_gas; run ← gets m_runGas;
  if io <? run then throwOutOfGas else modify (set_m_io_gas (u64 (io - run))).

(** [updateGas()] *)
Definition updateGas : M unit :=
  new ← gets m_newMemSize; mem ← gets (fun s => size (m_mem s));
  (if mem <? new then
     g1 ← gasForMem new; g0 ← gasForMem mem; d ← toInt63 (u64 (g1 - g0));
     run ← gets m_runGas; set_runGas (u64 (run + d))
   else mret tt);;
  run ← gets m_runGas; copy ← gets m_copyMemSize;
  set_runGas (u64 (run + u64 (copyGas m_schedule * (u64 (copy + 31) / 32))));;
  io ← gets m_io_gas; run ← gets m_runGas;
  if io <? run then throwOutOfGas else mret tt.

(** [updateMem()] *)
Definition updateMem : M unit :=
  new ← gets m_newMemSize;
  set_newMem (u64 (new + 31) / 32 * 32);;
  updateGas;;
  new ← gets m_newMemSize;
  modify (fun s => if size (m_mem s) <? new
                   then set_m_mem (m_mem s ++ replicate (Z.to_nat new - length (m_mem s)) 0) s
                   else s).

(** [onOperation(); updateIOGas();] *)
Definition charge : M unit := onOperation;; updateIOGas.

(** [logGasMem()] *)
Definition logGasMem : M unit :=
  op ← gets m_OP;
  let n := u32 (to_byte op - to_byte LOG0) in
  sz ← top 1;
  g ← toInt63 (u512 (u32 (logGas m_schedule + u32 (logTopicGas m_schedule * n))
                     + u512 (logDataGas m_schedule * sz)));
  set_runGas g;;
  off ← top 0; sz ← top 1; need ← memNeed off sz;
  set_newMem need;;
  updateMem.

(** [m_schedule->tierStepGas[t]] *)
Definition tier_gas (t : Tier.t) : Z :=
  match tierStepGas m_schedule !! Z.to_nat (Tier.to_Z t) with
  | Some g => g
  | None => oob_tierStepGas
  end.

(** [c_metrics[m_OP]] *)
Definition metric (op : Instruction.t) : InstructionMetric :=
  nth (Z.to_nat (to_byte op)) initMetrics (mkMetric Tier.Invalid 0 0).

(** [fetchInstruction()] *)
Definition fetchInstruction : M unit :=
  pc ← gets m_PC; b ← code_at pc;
  let op := of_byte b in
  modify (set_m_OP op);;
  let m := metric op in
  checkStack (metric_args m) (metric_ret m);;
  g ← toInt63 (tier_gas (metric_tier m));
  set_runGas g;;
  mem ← gets (fun s => size (m_mem s));
  set_newMem mem;;
  set_copyMem 0.

(** *** Arithmetic helpers *)

(** The loop of [exp256]; a 256-bit exponent is zero after 256 shifts. *)
Fixpoint exp256_loop (fuel : nat) (result base exponent : Z) : Z :=
  match fuel with
  | O => result
  | S f =>
    if exponent =? 0 then result
    else
      let result := if Z.odd exponent then u256 (result * base) else result in
      exp256_loop f result (u256 (base * base)) (Z.shiftr exponent 1)
  end.
(** [exp256(_base, _exponent)] *)
Definition exp256 (base exponent : Z) : Z := exp256_loop 256 1 base exponent.

(** [divWorkaround], [modWorkaround]: division of [s512]s truncates. *)
Definition divWorkaround (a b : Z) : Z := Z.quot a b.
Definition modWorkaround (a b : Z) : Z := Z.rem a b.

(** *** Jump destinations *)

(** [std::lower_bound] on the vector [l]: the index of the first element that
    is not less than [v], by halving [first, first + len). *)
Fixpoint lower_bound (fuel : nat) (l : list Z) (v : Z) (first len : nat) : nat :=
  match fuel with
  | O => first
  | S f =>
    if (len =? 0)%nat then first
    else
      let half := (len / 2)%nat in
      if nth (first + half) l 0 <? v
      then lower_bound f l v (first + half + 1) (len - half - 1)
      else lower_bound f l v first half
  end.
(** [std::binary_search] *)
Definition binary_search (l : list Z) (v : Z) : bool :=
  match l !! lower_bound (length l) l v 0 (length l) with
  | Some x => negb (v <? x)
  | None => false
  end.

(** The test of [verifyJumpDest]: [-1] when [dest] is no jump destination. *)
Definition jump_dest (jumpDests : list Z) (dest : Z) : Z :=
  if (dest <=? 0x7FFFFFFFFFFFFFFF) && binary_search jumpDests (u64 dest)
  then u64 dest else -1.

(** [verifyJumpDest(_dest)], which throws. *)
Definition verifyJumpDest (dest : Z) : M Z :=
  jd ← gets m_jumpDests;
  let r := jump_dest jd dest in
  if r =? -1 then throwBadJumpDestination else mret r.

(** *** [copyDataToMemory(_data, _sp)] *)
Definition copyDataToMemory (_data : bytes) : M unit :=
  x ← pop; let offset := u64 x in
  bigIndex ← pop; let index := u64 bigIndex in
  y ← pop; let sz := u64 y in
  let sizeToBeCopied :=
    if size _data <? bigIndex + sz
    then if size _data <? bigIndex then 0 else u64 (size _data - index)
    else sz in
  mem_write offset (take (Z.to_nat sizeToBeCopied) (drop (Z.to_nat index) _data));;
  mem_write (offset + sizeToBeCopied) (replicate (Z.to_nat (sz - sizeToBeCopied)) 0).

(** *** Instructions that call out *)

Definition NEXT_PC : M unit := pc ← gets m_PC; set_PC (u64 (pc + 1)).

(** [caseCreate()] *)
Definition caseCreate : M unit :=
  set_bounce (Some InterpretCases);;
  off ← top 1; sz ← top 2; need ← memNeed off sz; set_newMem need;;
  g ← toInt63 (createGas m_schedule); set_runGas g;;
  updateMem;; charge;;
  endowment ← pop;
  x ← pop; let initOff := u64 x in
  y ← pop; let initSize := u64 y in
  (if negb (endowment =? 0) then throw "Create With Value" else mret tt);;
  my ← face myAddress; bal ← ctx (ext_balance my); d ← face depth;
  (if (endowment <=? bal) && (d <? 1024) then
     io ← gets m_io_gas; modify (set_io_gas io);;
     let createGas := if staticCallDepthLimit m_schedule then io else u256 (io - io / 64) in
     init ← mem_ref initOff initSize;
     r ← ctx (ext_create endowment createGas init);
     let '(m_c, gas) := r in
     push (u160_view m_c);;
     let io' := u256 (io - u256 (createGas - gas)) in
     modify (set_io_gas io');; modify (set_m_io_gas (u64 io'))
   else push 0);;
  NEXT_PC.

(** [caseCallSetup(callParams, o_output)]: whether to call, the parameters, and
    the offset and size of the output area. *)
Definition caseCallSetup : M (bool * CallParameters * Z * Z) :=
  g ← toInt63 (callGas m_schedule); set_runGas g;;
  op ← gets m_OP;
  let delegate := eqb op DELEGATECALL in
  (if eqb op CALL then
     a ← top 1; ex ← ctx (ext_exists (asAddress a));
     if negb ex then
       v ← top 2;
       if (0 <? v) || zeroValueTransferChargesNewAccountGas m_schedule
       then n ← toInt63 (callNewAccountGas m_schedule); run ← gets m_runGas; set_runGas (u64 (run + n))
       else mret tt
     else mret tt
   else mret tt);;
  (if negb delegate then
     v ← top 2;
     if 0 <? v
     then n ← toInt63 (callValueTransferGas m_schedule); run ← gets m_runGas; set_runGas (u64 (run + n))
     else mret tt
   else mret tt);;
  let sizesOffset := if delegate then 3 else 4 in
  sp ← gets m_SP;
  inputOffset ← rd (1 + sp - sizesOffset);
  inputSize ← rd (1 + sp - sizesOffset - 1);
  outputOffset ← rd (1 + sp - sizesOffset - 2);
  outputSize ← rd (1 + sp - sizesOffset - 3);
  inputMemNeed ← memNeed inputOffset inputSize;
  outputMemNeed ← memNeed outputOffset outputSize;
  set_newMem (Z.max inputMemNeed outputMemNeed);;
  updateMem;; updateIOGas;;
  req ← top 0; io ← gets m_io_gas;
  let callgas := if staticCallDepthLimit m_schedule then req
                 else Z.min req (u64 (io - io / 64)) in
  g ← toInt63 callgas; set_runGas g;;
  charge;;
  v ← (if negb delegate then top 2 else mret 0);
  let callgas := if 0 <? v then u256 (callgas + callStipend m_schedule) else callgas in
  drop_sp 1;;
  a ← top 0; let codeAddr := asAddress a in
  drop_sp 1;;
  ctxval ← face value;
  vals ← (if delegate then mret (ctxval, 0) else x ← top 0; drop_sp 1;; mret (x, x));
  let '(apparent, transfer) := vals in
  x ← pop; let inOff := u64 x in
  x ← pop; let inSize := u64 x in
  x ← pop; let outOff := u64 x in
  x ← pop; let outSize := u64 x in
  my ← face myAddress; bal ← ctx (ext_balance my); d ← face depth;
  if (transfer <=? bal) && (d <? 1024) then
    who ← face caller;
    inp ← mem_ref inOff inSize;
    mret (true, mkCall (if delegate then who else my) codeAddr
                  (if eqb op CALL then codeAddr else my) transfer apparent callgas inp,
          outOff, outSize)
  else mret (false, mkCall [] codeAddr [] transfer apparent callgas [], 0, 0).

(** [caseCall()] *)
Definition caseCall : M unit :=
  set_bounce (Some InterpretCases);;
  r ← caseCallSetup;
  let '(ok, params, outOff, outSize) := r in
  gas ← (if (ok : bool) then
           r ← ctx (ext_call params);
           let '(out, gas) := r in
           match out with
           | Some o => mem_write outOff (take (Z.to_nat outSize) o);; push 1;; mret gas
           | None => push 0;; mret gas
           end
         else push 0;; mret (call_gas params));
  io ← gets m_io_gas; modify (set_m_io_gas (u64 (io + u64 gas)));;
  NEXT_PC.

(** *** The switch of [interpretCases()]

    [NEXT] increments the program counter and loops, [CONTINUE] loops, [BREAK]
    returns to [exec]. *)
Inductive flow := Loop | Return.
Definition NEXT : M flow := NEXT_PC;; mret Loop.
Definition CONTINUE : M flow := mret Loop.
Definition BREAK : M flow := mret Return.

Definition case_CREATE : M flow := set_bounce (Some CaseCreate);; BREAK.
Definition case_CALL : M flow := set_bounce (Some CaseCall);; BREAK.
Definition case_DELEGATECALL : M flow :=
  if negb (haveDelegateCall m_schedule) then throwBadInstruction else case_CALL.

Definition case_RETURN : M flow :=
  off ← top 0; sz ← top 1; need ← memNeed off sz; set_newMem need;;
  updateMem;; charge;;
  x ← pop; let b := u64 x in
  y ← pop; let s := u64 y in
  out ← mem_ref b s;
  modify (set_m_output out);; modify (set_m_mem []);;
  set_bounce None;; BREAK.

(** The output reference is built without a bounds check and dropped by the
    exception, so it is not read. *)
Definition case_REVERT : M flow :=
  onOperation;; set_copyMem 0;; updateMem;; updateIOGas;;
  x ← pop; let b := u64 x in
  y ← pop; let s := u64 y in
  mem ← gets m_mem;
  modify (set_m_output (take (Z.to_nat s) (drop (Z.to_nat b) mem)));; modify (set_m_mem []);;
  throwRevertInstruction.

Definition case_SUICIDE : M flow :=
  g ← toInt63 (suicideGas m_schedule); set_runGas g;;
  x ← top 0; let dest := asAddress x in
  my ← face myAddress; bal ← ctx (ext_balance my);
  (if (0 <? bal) || zeroValueTransferChargesNewAccountGas m_schedule then
     if suicideChargesNewAccountGas m_schedule then
       ex ← ctx (ext_exists dest);
       if negb ex then run ← gets m_runGas; set_runGas (u64 (run + callNewAccountGas m_schedule))
       else mret tt
     else mret tt
   else mret tt);;
  charge;;
  ctx (ext_suicide dest);;
  set_bounce None;; BREAK.

Definition case_STOP : M flow := charge;; set_bounce None;; BREAK.

(** Instructions that may expand memory. *)
Definition case_MLOAD : M flow :=
  x ← top 0; n ← toInt63 x; set_newMem (u64 (n + 32));;
  updateMem;; charge;;
  a ← top 0; w ← mem_ref (u32 a) 32;
  set_top 0 (FixedHash.to_arith 32 w);;
  NEXT.
Definition case_MSTORE : M flow :=
  x ← top 0; n ← toInt63 x; set_newMem (u64 (n + 32));;
  updateMem;; charge;;
  a ← top 0; v ← top 1; mem_write (u32 a) (FixedHash.of_arith 32 v);;
  drop_sp 2;; NEXT.
Definition case_MSTORE8 : M flow :=
  x ← top 0; n ← toInt63 x; set_newMem (u64 (n + 1));;
  updateMem;; charge;;
  a ← top 0; v ← top 1; mem_write (u32 a) [Z.land v 0xff];;
  drop_sp 2;; NEXT.
Definition case_SHA3 : M flow :=
  sz ← top 1;
  g ← toInt63 (u512 (sha3Gas m_schedule + u512 (u512 (sz + 31) / 32 * sha3WordGas m_schedule)));
  set_runGas g;;
  off ← top 0; sz ← top 1; need ← memNeed off sz; set_newMem need;;
  updateMem;; charge;;
  x ← pop; let inOff := u64 x in
  y ← pop; let inSize := u64 y in
  d ← mem_ref inOff inSize;
  push (FixedHash.to_arith 32 (sha3 d));;
  NEXT.

(** [LOG0] ... [LOG4]: [n] topics. *)
Fixpoint log_topics (k : Z) (n : nat) : M (list bytes) :=
  match n with
  | O => mret []
  | S n' => v ← top k; ts ← log_topics (k + 1) n'; mret (FixedHash.of_arith 32 v :: ts)
  end.
Definition case_LOG (n : nat) : M flow :=
  logGasMem;; charge;;
  ts ← log_topics 2 n;
  off ← top 0; sz ← top 1; d ← mem_ref (u64 off) (u64 sz);
  ctx (ext_log ts d);;
  drop_sp (2 + Z.of_nat n);; NEXT.

Definition case_EXP : M flow :=
  expon ← top 1;
  g ← toInt63 (u32 (expGas m_schedule + u32 (expByteGas m_schedule *
         u32 (32 - FixedHash.firstBitSet (FixedHash.of_arith 32 expon) / 8))));
  set_runGas g;; charge;;
  base ← pop;
  set_top 0 (exp256 base expon);; NEXT.

(** Instructions that replace the top of the stack, the two top words, or the
    three top words, by a function of them. *)
Definition unop (f : Z -> Z) : M flow :=
  charge;; a ← top 0; set_top 0 (f a);; NEXT.
Definition binop (f : Z -> Z -> Z) : M flow :=
  charge;; a ← top 0; b ← top 1; set_top 1 (f a b);; drop_sp 1;; NEXT.
Definition ternop (f : Z -> Z -> Z -> Z) : M flow :=
  charge;; a ← top 0; b ← top 1; c ← top 2; set_top 2 (f a b c);; drop_sp 2;; NEXT.
(** Instructions that push a word read from the machine. *)
Definition pushop (m : M Z) : M flow := charge;; v ← m; push v;; NEXT.

Definition Z_of_bool (b : bool) : Z := if b then 1 else 0.

Definition op_ADD (a b : Z) : Z := u256 (b + a).
Definition op_MUL (a b : Z) : Z := u256 (b * a).
Definition op_SUB (a b : Z) : Z := u256 (a - b).
Definition op_DIV (a b : Z) : Z := if b =? 0 then 0 else divWorkaround a b.
Definition op_SDIV (a b : Z) : Z := if b =? 0 then 0 else s2u (divWorkaround (u2s a) (u2s b)).
Definition op_MOD (a b : Z) : Z := if b =? 0 then 0 else modWorkaround a b.
Definition op_SMOD (a b : Z) : Z := if b =? 0 then 0 else s2u (modWorkaround (u2s a) (u2s b)).
Definition op_NOT (a : Z) : Z := u256 (Z.lnot a).
Definition op_LT (a b : Z) : Z := Z_of_bool (a <? b).
Definition op_GT (a b : Z) : Z := Z_of_bool (b <? a).
Definition op_SLT (a b : Z) : Z := Z_of_bool (u2s a <? u2s b).
Definition op_SGT (a b : Z) : Z := Z_of_bool (u2s b <? u2s a).
Definition op_EQ (a b : Z) : Z := Z_of_bool (a =? b).
Definition op_ISZERO (a : Z) : Z := if a =? 0 then 1 else 0.
Definition op_AND (a b : Z) : Z := Z.land a b.
Definition op_OR (a b : Z) : Z := Z.lor a b.
Definition op_XOR (a b : Z) : Z := Z.lxor a b.
Definition op_BYTE (a b : Z) : Z :=
  if a <? 32 then Z.land (Z.shiftr b (u32 (8 * (31 - a)))) 0xff else 0.
Definition op_ADDMOD (a b c : Z) : Z := if c =? 0 then 0 else u256 (u512 (a + b) mod c).
Definition op_MULMOD (a b c : Z) : Z := if c =? 0 then 0 else u256 (u512 (a * b) mod c).
Definition op_SIGNEXTEND (a number : Z) : Z :=
  if a <? 31 then
    let testBit := a * 8 + 7 in
    let mask := u256 (u256 (Z.shiftl 1 testBit) - 1) in
    if Z.testbit number testBit then Z.lor number (u256 (Z.lnot mask)) else Z.land number mask
  else number.

Definition case_BALANCE : M flow :=
  g ← toInt63 (balanceGas m_schedule); set_runGas g;; charge;;
  a ← top 0; b ← ctx (ext_balance (asAddress a)); set_top 0 b;; NEXT.

(** [CALLDATALOAD]: the word at offset [a] of [d], zero beyond its end; the
    three branches of the source. *)
Definition calldataload (d : bytes) (a : Z) : Z :=
  if u512 (a + 31) <? size d then
    FixedHash.to_arith 32 (take 32 (drop (Z.to_nat (u64 a)) d))
  else if size d <=? a then 0
  else
    let i0 := u64 a in
    FixedHash.to_arith 32
      ((fun j => let i := Z.to_nat (i0 + Z.of_nat j) in
                 if (Z.of_nat i <? size d) then nth i d 0 else 0) <$> seq 0 32).
Definition case_CALLDATALOAD : M flow :=
  charge;; a ← top 0; d ← face data; set_top 0 (calldataload d a);; NEXT.

Definition case_EXTCODESIZE : M flow :=
  g ← toInt63 (extcodesizeGas m_schedule); set_runGas g;; charge;;
  a ← top 0; n ← ctx (ext_codeSizeAt (asAddress a)); set_top 0 n;; NEXT.

(** [CALLDATACOPY] and [CODECOPY] differ in the source of the data. *)
Definition case_COPY (src : M bytes) : M flow :=
  n ← top 2; c ← toInt63 n; set_copyMem c;;
  off ← top 0; n ← top 2; need ← memNeed off n; set_newMem need;;
  updateMem;; charge;;
  d ← src; copyDataToMemory d;; NEXT.
Definition case_EXTCODECOPY : M flow :=
  g ← toInt63 (extcodecopyGas m_schedule); set_runGas g;;
  n ← top 3; c ← toInt63 n; set_copyMem c;;
  off ← top 1; n ← top 3; need ← memNeed off n; set_newMem need;;
  updateMem;; charge;;
  a ← top 0; drop_sp 1;;
  d ← ctx (ext_codeAt (asAddress a)); copyDataToMemory d;; NEXT.

Definition case_BLOCKHASH : M flow :=
  unop (fun n => FixedHash.to_arith 32 (ext_blockHash n)).

Definition case_POP : M flow := charge;; drop_sp 1;; NEXT.

Definition case_PUSHC : M flow :=
  charge;;
  pc ← gets m_PC; let pc := u64 (pc + 1) in
  h ← code_at pc; pool ← gets m_pool; push (nth (Z.to_nat h) pool 0);;
  let pc := u64 (pc + 1) in
  n ← code_at pc; set_PC (u64 (pc + n));; CONTINUE.

Definition case_PUSH1 : M flow :=
  charge;;
  pc ← gets m_PC; let pc := u64 (pc + 1) in
  b ← code_at pc; push b;; set_PC (u64 (pc + 1));; CONTINUE.

(** The loop [for (++m_PC; numBytes--; ++m_PC)]. *)
Fixpoint push_bytes (numBytes : nat) : M unit :=
  match numBytes with
  | O => mret tt
  | S n =>
    v ← top 0; pc ← gets m_PC; b ← code_at pc;
    set_top 0 (Z.lor (u256 (Z.shiftl v 8)) b);;
    set_PC (u64 (pc + 1));; push_bytes n
  end.
Definition case_PUSHn : M flow :=
  charge;;
  op ← gets m_OP;
  push 0;;
  pc ← gets m_PC; set_PC (u64 (pc + 1));;
  push_bytes (Z.to_nat (to_byte op - to_byte PUSH1 + 1));; CONTINUE.

Definition case_JUMP : M flow :=
  charge;; d ← top 0; pc ← verifyJumpDest d; set_PC pc;; drop_sp 1;; CONTINUE.
Definition case_JUMPI : M flow :=
  charge;; c ← top 1;
  (if negb (c =? 0) then d ← top 0; pc ← verifyJumpDest d; set_PC pc else NEXT_PC);;
  drop_sp 2;; CONTINUE.
Definition case_JUMPC : M flow :=
  charge;; d ← top 0; set_PC (u64 d);; drop_sp 1;; CONTINUE.
Definition case_JUMPCI : M flow :=
  charge;; c ← top 1;
  (if negb (c =? 0) then d ← top 0; set_PC (u64 d) else NEXT_PC);;
  drop_sp 2;; CONTINUE.

Definition case_DUP : M flow :=
  charge;;
  op ← gets m_OP; let n := 1 + to_byte op - to_byte DUP1 in
  sp ← gets m_SP; v ← rd (1 + sp - n); set_top (-1) v;; drop_sp (-1);; NEXT.
Definition case_SWAP : M flow :=
  charge;;
  op ← gets m_OP; let n := to_byte op - to_byte SWAP1 + 2 in
  d ← top 0; sp ← gets m_SP; v ← rd (1 + sp - n); set_top 0 v;; wr (1 + sp - n) d;; NEXT.

Definition case_SLOAD : M flow :=
  g ← toInt63 (sloadGas m_schedule); set_runGas g;; charge;;
  k ← top 0; v ← ctx (ext_store k); set_top 0 v;; NEXT.
Definition case_SSTORE : M flow :=
  k ← top 0; v ← top 1; old ← ctx (ext_store k);
  (if (old =? 0) && negb (v =? 0) then
     g ← toInt63 (sstoreSetGas m_schedule); set_runGas g
   else
     old ← ctx (ext_store k);
     if negb (old =? 0) && (v =? 0) then
       g ← toInt63 (sstoreResetGas m_schedule); set_runGas g;;
       ctx (modify (fun e => set_sub (mkSub (suicides (sub e)) (logs (sub e))
                                (u256 (refunds (sub e) + sstoreRefundGas m_schedule))) e))
     else g ← toInt63 (sstoreResetGas m_schedule); set_runGas g);;
  charge;;
  ctx (ext_setStore k v);; drop_sp 2;; NEXT.

Definition case_JUMPDEST : M flow := set_runGas 1;; charge;; NEXT.

(** The switch: the code of the label selected by [m_OP]. *)
Definition switch (op : Instruction.t) : M flow :=
  match op with
  | CREATE => case_CREATE
  | DELEGATECALL => case_DELEGATECALL
  | STATICCALL | CALL | CALLCODE => case_CALL
  | RETURN => case_RETURN
  | REVERT => case_REVERT
  | SUICIDE => case_SUICIDE
  | STOP => case_STOP
  | MLOAD => case_MLOAD
  | MSTORE => case_MSTORE
  | MSTORE8 => case_MSTORE8
  | SHA3 => case_SHA3
  | LOG0 => case_LOG 0
  | LOG1 => case_LOG 1
  | LOG2 => case_LOG 2
  | LOG3 => case_LOG 3
  | LOG4 => case_LOG 4
  | EXP => case_EXP
  | ADD => binop op_ADD
  | MUL => binop op_MUL
  | SUB => binop op_SUB
  | DIV => binop op_DIV
  | SDIV => binop op_SDIV
  | MOD => binop op_MOD
  | SMOD => binop op_SMOD
  | NOT => unop op_NOT
  | LT => binop op_LT
  | GT => binop op_GT
  | SLT => binop op_SLT
  | SGT => binop op_SGT
  | EQ => binop op_EQ
  | ISZERO => unop op_ISZERO
  | AND => binop op_AND
  | OR => binop op_OR
  | XOR => binop op_XOR
  | BYTE => binop op_BYTE
  | ADDMOD => ternop op_ADDMOD
  | MULMOD => ternop op_MULMOD
  | SIGNEXTEND => binop op_SIGNEXTEND
  | ADDRESS => pushop (face (fun e => fromAddress (myAddress e)))
  | ORIGIN => pushop (face (fun e => fromAddress (origin e)))
  | BALANCE => case_BALANCE
  | CALLER => pushop (face (fun e => fromAddress (caller e)))
  | CALLVALUE => pushop (face value)
  | CALLDATALOAD => case_CALLDATALOAD
  | CALLDATASIZE => pushop (face (fun e => size (data e)))
  | CODESIZE => pushop (face (fun e => size (code e)))
  | EXTCODESIZE => case_EXTCODESIZE
  | CALLDATACOPY => case_COPY (face data)
  | CODECOPY => case_COPY (face code)
  | EXTCODECOPY => case_EXTCODECOPY
  | GASPRICE => pushop (face gasPrice)
  | BLOCKHASH => case_BLOCKHASH
  | COINBASE => pushop (mret (u160_view null_address))
  | TIMESTAMP => pushop (mret 123456789)
  | NUMBER => pushop (mret 0)
  | DIFFICULTY => pushop (mret 0)
  | GASLIMIT => pushop (mret 400000)
  | POP => case_POP
  | PUSHC => case_PUSHC
  | PUSH1 => case_PUSH1
  | PUSH2 | PUSH3 | PUSH4 | PUSH5 | PUSH6 | PUSH7 | PUSH8 | PUSH9 | PUSH10 | PUSH11
  | PUSH12 | PUSH13 | PUSH14 | PUSH15 | PUSH16 | PUSH17 | PUSH18 | PUSH19 | PUSH20
  | PUSH21 | PUSH22 | PUSH23 | PUSH24 | PUSH25 | PUSH26 | PUSH27 | PUSH28 | PUSH29
  | PUSH30 | PUSH31 | PUSH32 => case_PUSHn
  | JUMP => case_JUMP
  | JUMPI => case_JUMPI
  | JUMPTO | JUMPIF | JUMPV | JUMPSUB | JUMPSUBV | RETURNSUB => throwBadInstruction
  | JUMPC => case_JUMPC
  | JUMPCI => case_JUMPCI
  | DUP1 | DUP2 | DUP3 | DUP4 | DUP5 | DUP6 | DUP7 | DUP8 | DUP9 | DUP10 | DUP11 | DUP12
  | DUP13 | DUP14 | DUP15 | DUP16 => case_DUP
  | SWAP1 | SWAP2 | SWAP3 | SWAP4 | SWAP5 | SWAP6 | SWAP7 | SWAP8 | SWAP9 | SWAP10
  | SWAP11 | SWAP12 | SWAP13 | SWAP14 | SWAP15 | SWAP16 => case_SWAP
  | SLOAD => case_SLOAD
  | SSTORE => case_SSTORE
  | PC => pushop (gets m_PC)
  | MSIZE => pushop (gets (fun s => size (m_mem s)))
  | GAS => pushop (gets m_io_gas)
  | JUMPDEST => case_JUMPDEST
  | _ => throwBadInstruction
  end.

(** One iteration of the loop [for (;;) { fetchInstruction(); switch (m_OP) ... }]. *)
Definition step : M flow := fetchInstruction;; op ← gets m_OP; switch op.

Fixpoint cases_loop (fuel : nat) : M unit :=
  match fuel with
  | O => fail Diverge
  | S f => k ← step; match k with Loop => cases_loop f | Return => mret tt end
  end.

(** [interpretCases()]: the first call only sets [m_caseInit]. *)
Definition interpretCases (fuel : nat) : M unit :=
  init ← gets m_caseInit;
  if (init : bool) then cases_loop fuel else modify (set_m_caseInit true).

(** *** [copyCode], [optimize] *)

(** [m_code[i] = b] *)
Definition set_code_at (i b : Z) : M unit := fun s =>
  if (0 <=? i) && (i <? size (m_code s))
  then (Ok tt, set_m_code (<[Z.to_nat i := b]> (m_code s)) s)
  else (Undef "m_code write", s).

(** [copyCode(_ctxraBytes)] *)
Definition copyCode (ctxraBytes : nat) : M unit :=
  modify (fun s => set_m_code (code (m_ctx s) ++ replicate ctxraBytes 0) s).

Definition is_push (op : Instruction.t) : bool :=
  (to_byte PUSH1 <=? to_byte op) && (to_byte op <=? to_byte PUSH32).
Definition is_synthetic (op : Instruction.t) : bool :=
  eqb op PUSHC || eqb op JUMPC || eqb op JUMPCI.
(** [(byte)op - (byte)Instruction::PUSH1 + 1] *)
Definition push_size (op : Instruction.t) : Z := to_byte op - to_byte PUSH1 + 1.

(** The loop that builds the table of jump destinations and overwrites
    synthetic instructions of the user's code. *)
Fixpoint build_jumpDests (fuel : nat) (nBytes pc : Z) : M unit :=
  if pc <? nBytes then
    match fuel with
    | O => fail Diverge
    | S f =>
      b ← code_at pc; let op := of_byte b in
      (if is_synthetic op then set_code_at pc (to_byte BAD) else mret tt);;
      if eqb op JUMPDEST then
        modify (fun s => set_m_jumpDests (m_jumpDests s ++ [pc]) s);;
        build_jumpDests f nBytes (pc + 1)
      else if is_push op then build_jumpDests f nBytes (pc + push_size op + 1)
      else build_jumpDests f nBytes (pc + 1)
    end
  else mret tt.

(** [struct hash256] *)
Definition hashInit : Z := 2166136261.
Definition hashByte (hash b : Z) : Z := u32 (Z.lxor hash b * 16777619).
Definition getHash (hash : Z) : Z := Z.land (Z.lxor (Z.shiftr hash 8) hash) 0xff.

(** [hash256::insertVal]: whether the constant is in the pool now, and the
    table [empty]; the pool itself is the member [m_pool]. *)
Definition insertVal (empty : list bool) (hash val : Z) : M (bool * list bool) := fun s =>
  let h := Z.to_nat hash in
  if nth h empty false
  then (Ok (true, <[h := false]> empty), set_m_pool (<[h := val]> (m_pool s)) s)
  else (Ok (nth h (m_pool s) 0 =? val, empty), s).

(** [for (uint64_t i = pc + 2, n = nPush; --n; ++i)]: the pushed value and the
    hash of its bytes but the first. *)
Fixpoint decode_push (n : nat) (i val hash : Z) : M (Z * Z) :=
  match n with
  | O => mret (val, hash)
  | S n' => b ← code_at i; decode_push n' (i + 1) (Z.lor (u256 (Z.shiftl val 8)) b) (hashByte hash b)
  end.

(** [verifyJumpDest(val, false)] *)
Definition verifyJumpDest_nothrow (val : Z) : M Z :=
  jd ← gets m_jumpDests; mret (jump_dest jd val).

(** The body of the second loop for a [PUSHn] at [pc]. *)
Definition optimize_push (empty : list bool) (pc : Z) (op : Instruction.t) : M (list bool) :=
  let nPush := push_size op in
  b ← code_at (pc + 1);
  vh ← decode_push (Z.to_nat (nPush - 1)) (pc + 2) b hashInit;
  let '(val, h) := vh in
  empty ←
    (if 1 <? nPush then
       let hash := getHash h in
       r ← insertVal empty hash val;
       let '(ok, empty) := r in
       (if ok : bool then
          set_code_at pc (to_byte PUSHC);; set_code_at (pc + 1) hash;;
          set_code_at (pc + 2) (nPush - 1)
        else mret tt);;
       mret empty
     else mret empty);
  let i := pc + nPush + 1 in
  b ← code_at i; let op := of_byte b in
  (if eqb op JUMP then
     d ← verifyJumpDest_nothrow val; when (0 <=? d) (set_code_at i (to_byte JUMPC))
   else if eqb op JUMPI then
     d ← verifyJumpDest_nothrow val; when (0 <=? d) (set_code_at i (to_byte JUMPCI))
   else mret tt);;
  mret empty.

Fixpoint optimize_loop (fuel : nat) (empty : list bool) (nBytes pc : Z) : M unit :=
  if pc <? nBytes then
    match fuel with
    | O => fail Diverge
    | S f =>
      b ← code_at pc; let op := of_byte b in
      if is_push op
      then empty ← optimize_push empty pc op; optimize_loop f empty nBytes (pc + push_size op + 1)
      else optimize_loop f empty nBytes (pc + 1)
    end
  else mret tt.

(** The two loops of [optimize()], each of which advances by at least one byte
    per iteration; between them the constructor of [hash256] clears the pool. *)
Definition optimize : M unit :=
  copyCode 33;;
  nBytes ← gets (fun s => size (code (m_ctx s)));
  build_jumpDests (Z.to_nat nBytes) nBytes 0;;
  modify (set_m_pool (replicate 256 0));;
  optimize_loop (Z.to_nat nBytes) (replicate 256 true) nBytes 0.

(** [initEntry()] *)
Definition initEntry (fuel : nat) : M unit :=
  set_bounce (Some InterpretCases);;
  interpretCases fuel;;
  optimize.

(** *** [exec] *)
Definition call_bounce (fuel : nat) (f : MemFnPtr) : M unit :=
  match f with
  | InitEntry => initEntry fuel
  | InterpretCases => interpretCases fuel
  | CaseCreate => caseCreate
  | CaseCall => caseCall
  end.

(** [do ( this->*m_bounce )(); while (m_bounce);] *)
Fixpoint trampoline (fuel : nat) : M unit :=
  match fuel with
  | O => fail Diverge
  | S f =>
    b ← gets m_bounce;
    match b with
    | None => mret tt
    | Some p => call_bounce f p;; trampoline f
    end
  end.

(** [exec(_io_gas, _ctx, _onOp)] on a fresh object: the output, and the object
    as it is left; [io_gas] is the caller's variable. *)
Definition exec (fuel : nat) : M bytes := fun s =>
  match (modify (fun s => set_m_io_gas (u64 (io_gas s)) s);;
         set_bounce (Some InitEntry);; trampoline fuel) s with
  | (Ok _, s) => (Ok (m_output s), set_io_gas (m_io_gas s) s)
  | (Throw w, s) => (Throw w, set_io_gas (m_io_gas s) s)
  | (r, s) => (recast r, s)
  end.

(** *** [decodeJumpDest], [decodeJumpvDest] *)
Definition decodeJumpDest (pc : Z) : M (Z * Z) :=
  b0 ← code_at pc; b1 ← code_at (u64 (pc + 1)); b2 ← code_at (u64 (pc + 2));
  b3 ← code_at (u64 (pc + 3));
  mret (Z.lor (Z.shiftl (Z.lor (Z.shiftl (Z.lor (Z.shiftl b0 8) b1) 8) b2) 8) b3, u64 (pc + 4)).

(** Returns the destination; advances [m_PC] past the table and pops the index.
    When the table is empty [n - 1] is the [int] -1, converted to [uint64_t]. *)
Definition decodeJumpvDest : M Z :=
  x ← pop; let i := u64 x in
  _pc ← gets m_PC; let pc := u64 (_pc + 1) in
  n ← code_at pc;
  let i := if n <=? i then u64 (n - 1) else i in
  r ← decodeJumpDest (u64 (pc + u64 (i * 4)));
  set_PC (u64 (_pc + (1 + n * 4)));;
  mret (fst r).

End Machine.

(** ** [class ExtVM]

    [create] and [call] are stubs in the source: they hand back an empty address
    and an empty output, and the gas untouched. *)
Definition ExtVM_create {W} (endowment gas : Z) (init : bytes) : SE (ExtVM W) (bytes * Z) :=
  mret (FixedHash.zero 20, gas).
Definition ExtVM_call {W} (p : CallParameters) : SE (ExtVM W) (option bytes * Z) :=
  mret (Some [], call_gas p).
Definition ExtVM_exists {W} (a : bytes) : SE (ExtVM W) bool := mret true.
Definition ExtVM_suicide {W} (a : bytes) : SE (ExtVM W) unit := mret tt.

(** ** [struct VersionVM] *)
Record VersionVM := mkVersion { format : Z; rootVM : Z; vmVersion : Z; flagOptions : Z }.

(** The packed little-endian layout: two bits of [format], six of [rootVM]. *)
Definition toRaw (v : VersionVM) : Z :=
  Z.lor (format v) (Z.lor (Z.shiftl (rootVM v) 2)
    (Z.lor (Z.shiftl (vmVersion v) 8) (Z.shiftl (flagOptions v) 16))).
Definition fromRaw (val : Z) : VersionVM :=
  mkVersion (Z.land val 3) (Z.land (Z.shiftr val 2) 63) (Z.land (Z.shiftr val 8) 255)
    (Z.land (Z.shiftr val 16) 65535).
Definition GetNoExec : VersionVM := mkVersion 0 0 0 0.
Definition GetEVMDefault : VersionVM := mkVersion 0 1 0 0.

(** ** [eachInstruction], [disassemble] *)

(** The inner loop: the value of the [additional] bytes at [rest], absent ones
    read as zero, and the bytes after them. *)
Fixpoint instruction_data (additional : nat) (val : Z) (rest : bytes) : Z * bytes :=
  match additional with
  | O => (val, rest)
  | S n =>
    match rest with
    | b :: rest' => instruction_data n (Z.lor (u256 (Z.shiftl val 8)) b) rest'
    | [] => instruction_data n (u256 (Z.shiftl val 8)) []
    end
  end.

(** The calls [eachInstruction] makes of its callback, in order. *)
Fixpoint eachInstruction (fuel : nat) (mem : bytes) : list (Instruction.t * Z) :=
  match fuel, mem with
  | S f, b :: rest =>
    let instr := Instruction.of_byte b in
    let n := if isValidInstruction instr then additional (instructionInfo instr) else 0 in
    let '(d, rest') := instruction_data (Z.to_nat n) 0 rest in
    (instr, d) :: eachInstruction f rest'
  | _, _ => []
  end.
