(* ===== verification/ScVmLogic.v ===== *)
(** * Reasoning about the virtual machine

    Weakest-precondition rules for the primitives of [ScVm], the
    well-formedness [wfd] of the machine's data, what the machine relies on from
    the external interface ([ExtVMLaws]) and from the gas schedule
    ([schedule_ok]), and the exact metering of memory expansion. *)

From S2P Require Import Prelude ScFixedHash ScSha3 ScInstruction ScVm.
Import Instruction.

(** ** What the machine needs of a schedule *)
Record schedule_ok (sc : EVMSchedule) : Prop := {
  so_tiers : exists base veryLow low mid high ext special,
    tierStepGas sc = [0; base; veryLow; low; mid; high; ext; special] /\
    Forall (fun g => 1 <= g < 2 ^ 32) [base; veryLow; low; mid; high; ext] /\
    in_range 32 special;
  so_pos : Forall (fun g => 1 <= g < 2 ^ 31)
    [expGas sc; sha3Gas sc; logGas sc; balanceGas sc; extcodesizeGas sc; extcodecopyGas sc;
     sloadGas sc; sstoreSetGas sc; sstoreResetGas sc; createGas sc; callGas sc; quadCoeffDiv sc];
  so_nonneg : Forall (fun g => 0 <= g < 2 ^ 31)
    [sha3WordGas sc; logDataGas sc; memoryGas sc; suicideGas sc; callNewAccountGas sc;
     callValueTransferGas sc; callStipend sc; sstoreRefundGas sc];
  so_exp : 0 <= expByteGas sc < 2 ^ 24;
  so_topic : 0 <= logTopicGas sc < 2 ^ 24;
  so_copy : 0 <= copyGas sc <= 16;
  so_stipend : callStipend sc <= callValueTransferGas sc
}.

Lemma DefaultSchedule_ok : schedule_ok DefaultSchedule.
Proof.
  split; cbn; try lia.
  - exists 2, 3, 5, 8, 10, 20, 0. split; [done|]. split; [repeat constructor; lia|].
    unfold in_range. lia.
  - repeat constructor; lia.
  - repeat constructor; lia.
Qed.

(** ** What the machine needs of the external interface

    [ext_inv] is an invariant of the context the machine runs in.  Every
    operation keeps it, returns or throws, and yields a value of its C++ type;
    [create] and [call] hand back at most the gas they were given. *)
Definition throws {S} (P : S -> Prop) : outcome unit -> S -> Prop :=
  fun r s => (exists w, r = Throw w) /\ P s.

Class ExtVMLaws (W : Type) `{EX : !ExtVMOps W} := {
  ext_inv : ExtVM W -> Prop;
  ext_inv_sub e x : ext_inv e -> suicides x = suicides (sub e) -> ext_inv (set_sub x e);
  ext_inv_range e : ext_inv e ->
    in_range 256 (value e) /\ in_range 256 (gasPrice e) /\ size (data e) < 2 ^ 63 /\
    size (code e) < 2 ^ 62 /\ bytes_ok (data e) /\ bytes_ok (code e) /\
    bytes_ok (myAddress e) /\ bytes_ok (caller e) /\ bytes_ok (origin e) /\
    length (myAddress e) = 20%nat /\ length (caller e) = 20%nat /\ length (origin e) = 20%nat;
  ext_store_ok k e : ext_inv e -> in_range 256 k ->
    wp (ext_store k) (fun v e' => in_range 256 v /\ ext_inv e') (throws ext_inv) e;
  ext_setStore_ok k v e : ext_inv e -> in_range 256 k -> in_range 256 v ->
    wp (ext_setStore k v) (fun _ e' => ext_inv e') (throws ext_inv) e;
  ext_balance_ok a e : ext_inv e ->
    wp (ext_balance a) (fun v e' => in_range 256 v /\ ext_inv e') (throws ext_inv) e;
  ext_codeAt_ok a e : ext_inv e ->
    wp (ext_codeAt a) (fun c e' => bytes_ok c /\ size c < 2 ^ 63 /\ ext_inv e') (throws ext_inv) e;
  ext_codeSizeAt_ok a e : ext_inv e ->
    wp (ext_codeSizeAt a) (fun n e' => in_range 256 n /\ ext_inv e') (throws ext_inv) e;
  ext_exists_ok a e : ext_inv e ->
    wp (ext_exists a) (fun _ e' => ext_inv e') (throws ext_inv) e;
  ext_suicide_ok a e : ext_inv e ->
    wp (ext_suicide a) (fun _ e' => ext_inv e') (throws ext_inv) e;
  ext_create_ok v g c e : ext_inv e -> 0 <= g ->
    wp (ext_create v g c) (fun r e' => 0 <= snd r <= g /\ ext_inv e') (throws ext_inv) e;
  ext_call_ok p e : ext_inv e -> 0 <= call_gas p ->
    wp (ext_call p) (fun r e' => 0 <= snd r <= call_gas p /\
                                 match fst r with Some o => bytes_ok o | None => True end /\
                                 ext_inv e') (throws ext_inv) e;
  evmSchedule_ok : schedule_ok evmSchedule
}.

(** Puts the numeric facts of [H : schedule_ok sc] into the context. *)
Ltac schedule_facts H :=
  let Hp := fresh "Hpos" in let Hn := fresh "Hnonneg" in
  pose proof (so_pos _ H) as Hp; pose proof (so_nonneg _ H) as Hn;
  pose proof (so_exp _ H); pose proof (so_topic _ H); pose proof (so_copy _ H);
  pose proof (so_stipend _ H);
  repeat (apply Forall_cons_iff in Hp as [? Hp]); repeat (apply Forall_cons_iff in Hn as [? Hn]);
  clear Hp Hn; cbv beta in *.

(** ** Reading a member of an updated object *)
Ltac reduce_proj p s :=
  lazymatch s with
  | _ _ =>
    let x := eval cbn [set_io_gas set_m_io_gas set_m_ctx set_m_onOp set_m_caseInit set_m_bounce
      set_m_nSteps set_m_output set_m_mem set_m_code set_m_stackSpace set_m_pool set_m_jumpDests
      set_m_OP set_m_PC set_m_SP set_m_runGas set_m_newMemSize set_m_copyMemSize set_m_trace
      io_gas m_io_gas m_ctx m_onOp m_caseInit m_bounce m_nSteps m_output m_mem m_code m_stackSpace
      m_pool m_jumpDests m_OP m_PC m_SP m_runGas m_newMemSize m_copyMemSize m_trace] in (p s) in
    change (p s) with x in *
  end.

Ltac vm_proj :=
  repeat match goal with
  | |- context [@m_SP ?W ?s] => reduce_proj (@m_SP W) s
  | |- context [@m_stackSpace ?W ?s] => reduce_proj (@m_stackSpace W) s
  | |- context [@m_io_gas ?W ?s] => reduce_proj (@m_io_gas W) s
  | |- context [@m_runGas ?W ?s] => reduce_proj (@m_runGas W) s
  | |- context [@m_mem ?W ?s] => reduce_proj (@m_mem W) s
  | |- context [@m_newMemSize ?W ?s] => reduce_proj (@m_newMemSize W) s
  | |- context [@m_copyMemSize ?W ?s] => reduce_proj (@m_copyMemSize W) s
  | |- context [@m_ctx ?W ?s] => reduce_proj (@m_ctx W) s
  | |- context [@m_PC ?W ?s] => reduce_proj (@m_PC W) s
  | |- context [@m_OP ?W ?s] => reduce_proj (@m_OP W) s
  | |- context [@m_code ?W ?s] => reduce_proj (@m_code W) s
  | |- context [@m_pool ?W ?s] => reduce_proj (@m_pool W) s
  | |- context [@m_jumpDests ?W ?s] => reduce_proj (@m_jumpDests W) s
  | |- context [@m_caseInit ?W ?s] => reduce_proj (@m_caseInit W) s
  | |- context [@m_bounce ?W ?s] => reduce_proj (@m_bounce W) s
  | |- context [@m_onOp ?W ?s] => reduce_proj (@m_onOp W) s
  | |- context [@m_output ?W ?s] => reduce_proj (@m_output W) s
  | |- context [@m_trace ?W ?s] => reduce_proj (@m_trace W) s
  | |- context [@m_nSteps ?W ?s] => reduce_proj (@m_nSteps W) s
  | |- context [@io_gas ?W ?s] => reduce_proj (@io_gas W) s
  end.

(** [m_stack[i]] in the array [m_stackSpace]. *)
Definition slot (st : list Z) (i : Z) : Z := nth (Z.to_nat (i + 1)) st 0.

(** ** Rules for the primitives *)
Section Rules.
Context {W : Type} `{EX : !ExtVMOps W} `{PL : !Platform}.
Implicit Types (s : VM W) (E : outcome unit -> VM W -> Prop).

Lemma wp_rd i Q E s : -1 <= i < 1024 -> Q (slot (m_stackSpace s) i) s -> wp (rd i) Q E s.
Proof.
  intros Hi HQ. unfold wp, rd.
  replace ((-1 <=? i) && (i <? 1024)) with true by lia. done.
Qed.

Lemma wp_wr i v Q E s : -1 <= i < 1024 ->
  Q tt (set_m_stackSpace (<[Z.to_nat (i + 1) := v]> (m_stackSpace s)) s) -> wp (wr i v) Q E s.
Proof.
  intros Hi HQ. unfold wp, wr.
  replace ((-1 <=? i) && (i <? 1024)) with true by lia. done.
Qed.

Lemma wp_top k Q E s : -1 <= m_SP s - k < 1024 -> Q (slot (m_stackSpace s) (m_SP s - k)) s -> wp (top k) Q E s.
Proof. intros. unfold top. apply wp_bind, wp_gets. by apply wp_rd. Qed.

Lemma wp_set_top k v Q E s : -1 <= m_SP s - k < 1024 ->
  Q tt (set_m_stackSpace (<[Z.to_nat (m_SP s - k + 1) := v]> (m_stackSpace s)) s) ->
  wp (set_top k v) Q E s.
Proof. intros. unfold set_top. apply wp_bind, wp_gets. by apply wp_wr. Qed.

Lemma wp_drop_sp n Q E s : Q tt (set_m_SP (m_SP s - n) s) -> wp (drop_sp n) Q E s.
Proof. done. Qed.

Lemma wp_pop Q E s : -1 <= m_SP s < 1024 ->
  Q (slot (m_stackSpace s) (m_SP s)) (set_m_SP (m_SP s - 1) s) -> wp pop Q E s.
Proof.
  intros H HQ. unfold pop. apply wp_bind, wp_top; [lia|].
  apply wp_bind, wp_drop_sp. apply wp_ret. by rewrite Z.sub_0_r.
Qed.

Lemma wp_push v Q E s : -2 <= m_SP s < 1023 ->
  Q tt (set_m_stackSpace (<[Z.to_nat (m_SP s + 2) := v]> (m_stackSpace s))
          (set_m_SP (m_SP s + 1) s)) ->
  wp (push v) Q E s.
Proof.
  intros H HQ. unfold push. apply wp_bind, wp_drop_sp. apply wp_set_top; vm_proj; [lia|].
  replace (m_SP s - -1 - 0 + 1) with (m_SP s + 2) by lia.
  by replace (m_SP s - -1) with (m_SP s + 1) by lia.
Qed.

Lemma wp_toInt63 v Q E s : (v < 2 ^ 63 -> Q v s) -> E (Throw "Out Of Gas") s -> wp (toInt63 v) Q E s.
Proof. intros. unfold toInt63. destruct (Z.ltb_spec 0x7FFFFFFFFFFFFFFF v); [done|]. apply wp_ret. auto with lia. Qed.

Lemma wp_face {A} (f : ExtVM W -> A) Q E s : Q (f (m_ctx s)) s -> wp (face f) Q E s.
Proof. done. Qed.

Lemma wp_ctx {A} (m : SE (ExtVM W) A) Q E s :
  wp m (fun a e => Q a (set_m_ctx e s)) (fun r e => E r (set_m_ctx e s)) (m_ctx s) ->
  wp (ctx m) Q E s.
Proof. apply wp_zoom. Qed.

Lemma wp_code_at i b Q E s : 0 <= i -> m_code s !! Z.to_nat i = Some b -> Q b s -> wp (code_at i) Q E s.
Proof.
  intros Hi Hb HQ. unfold wp, code_at. rewrite Hb.
  by replace (0 <=? i) with true by lia.
Qed.

Lemma wp_mem_ref off n Q E s :
  0 <= off -> 0 <= n -> (0 < n -> off + n <= size (m_mem s)) ->
  Q (take (Z.to_nat n) (drop (Z.to_nat off) (m_mem s))) s -> wp (mem_ref off n) Q E s.
Proof.
  intros Ho Hn Hb HQ. unfold wp, mem_ref. destruct (Z.eqb_spec n 0) as [->|]; [done|].
  replace ((0 <=? off) && (0 <=? n) && (off + n <=? size (m_mem s))) with true by lia. done.
Qed.

(** The memory after writing [bs] at [off]. *)
Definition written (off : Z) (bs mem : bytes) : bytes :=
  if size bs =? 0 then mem
  else take (Z.to_nat off) mem ++ bs ++ drop (Z.to_nat off + length bs) mem.

Lemma wp_mem_write off bs Q E s :
  0 <= off -> (0 < size bs -> off + size bs <= size (m_mem s)) ->
  Q tt (set_m_mem (written off bs (m_mem s)) s) -> wp (mem_write off bs) Q E s.
Proof.
  intros Ho Hb HQ. unfold wp, mem_write, written in *. destruct (Z.eqb_spec (size bs) 0).
  - by destruct s.
  - by replace ((0 <=? off) && (off + size bs <=? size (m_mem s))) with true by lia.
Qed.

Lemma length_written off bs mem :
  0 <= off -> (0 < size bs -> off + size bs <= size mem) ->
  length (written off bs mem) = length mem.
Proof.
  intros. unfold written. destruct (Z.eqb_spec (size bs) 0); [done|].
  rewrite !length_app, length_take, length_drop. lia.
Qed.

Lemma written_bytes_ok off bs mem : bytes_ok bs -> bytes_ok mem -> bytes_ok (written off bs mem).
Proof.
  intros. unfold written. case_match; [done|].
  rewrite !bytes_ok_app. eauto using bytes_ok_take, bytes_ok_drop.
Qed.

(** *** Metering *)

Lemma wp_updateIOGas Q E s : in_range 64 (m_io_gas s) -> 0 <= m_runGas s ->
  (m_runGas s <= m_io_gas s -> Q tt (set_m_io_gas (m_io_gas s - m_runGas s) s)) ->
  (m_io_gas s < m_runGas s -> E (Throw "Out Of Gas") s) -> wp updateIOGas Q E s.
Proof.
  intros Hio Hr HQ HE. unfold updateIOGas, wp, mbind, SE_bind, gets. cbn.
  destruct (Z.ltb_spec (m_io_gas s) (m_runGas s)); cbn; [auto|].
  rewrite wrap_small by (unfold in_range in *; lia). auto.
Qed.

(** The tracing callback only touches [m_nSteps] and [m_trace]. *)
Lemma wp_onOperation Q E s :
  (forall n t, Q tt (set_m_nSteps n (set_m_trace t s))) -> wp onOperation Q E s.
Proof.
  intros HQ. unfold wp, onOperation. destruct (m_onOp s).
  - apply HQ.
  - specialize (HQ (m_nSteps s) (m_trace s)). by destruct s.
Qed.

Lemma wp_charge Q E s : in_range 64 (m_io_gas s) -> 0 <= m_runGas s ->
  (forall n t, m_runGas s <= m_io_gas s ->
     Q tt (set_m_io_gas (m_io_gas s - m_runGas s) (set_m_nSteps n (set_m_trace t s)))) ->
  (forall n t, E (Throw "Out Of Gas") (set_m_nSteps n (set_m_trace t s))) -> wp charge Q E s.
Proof.
  intros Hio Hr HQ HE. unfold charge. apply wp_bind, wp_onOperation. intros n t.
  apply wp_updateIOGas; vm_proj; eauto.
Qed.

Lemma wp_memNeed off sz Q E s : in_range 256 off -> in_range 256 sz ->
  ((if sz =? 0 then 0 else off + sz) < 2 ^ 63 -> Q (if sz =? 0 then 0 else off + sz) s) ->
  E (Throw "Out Of Gas") s -> wp (memNeed off sz) Q E s.
Proof.
  intros Ho Hs HQ HE. unfold memNeed. unfold in_range in *.
  destruct (Z.eqb_spec sz 0); (apply wp_toInt63; [|done]).
  - done.
  - rewrite wrap_small by (unfold in_range; lia). done.
Qed.

(** The price of a memory of [n] bytes, over the integers. *)
Definition Cmem (sc : EVMSchedule) (n : Z) : Z :=
  memoryGas sc * (n / 32) + (n / 32) * (n / 32) / quadCoeffDiv sc.

Lemma Cmem_mono sc a b : schedule_ok sc -> 0 <= a <= b -> Cmem sc a <= Cmem sc b.
Proof.
  intros Hs Hab. schedule_facts Hs.
  unfold Cmem. assert (0 <= a / 32 <= b / 32).
  { split; [apply Z.div_pos; lia|apply Z.div_le_mono; lia]. }
  assert (a / 32 * (a / 32) / quadCoeffDiv sc <= b / 32 * (b / 32) / quadCoeffDiv sc).
  { apply Z.div_le_mono; [lia|]. apply Z.mul_le_mono_nonneg; lia. }
  apply Z.add_le_mono; [apply Z.mul_le_mono_nonneg_l|]; lia.
Qed.

Lemma Cmem_nonneg sc n : schedule_ok sc -> 0 <= n -> 0 <= Cmem sc n.
Proof.
  intros Hs Hn. etransitivity; [|apply (Cmem_mono sc 0 n); auto; lia].
  unfold Cmem. rewrite Zdiv_0_l, Z.mul_0_r. simpl. rewrite Zdiv_0_l. lia.
Qed.

Context (SOK : schedule_ok evmSchedule).

Lemma wp_gasForMem n Q E s : 0 <= n < 2 ^ 64 ->
  (Cmem evmSchedule n < 2 ^ 63 -> Q (Cmem evmSchedule n) s) -> E (Throw "Out Of Gas") s ->
  wp (gasForMem n) Q E s.
Proof.
  intros Hn HQ HE. schedule_facts SOK.
  unfold gasForMem, m_schedule. destruct (Z.eqb_spec (quadCoeffDiv evmSchedule) 0); [lia|].
  assert (0 <= n / 32 < 2 ^ 64) as Hd.
  { split; [apply Z.div_pos; lia|]. apply Z.div_lt_upper_bound; lia. }
  assert (0 <= n / 32 * (n / 32) < 2 ^ 128) by nia.
  assert (0 <= n / 32 * (n / 32) / quadCoeffDiv evmSchedule < 2 ^ 128) as Hdiv.
  { split; [apply Z.div_pos; lia|]. apply Z.div_lt_upper_bound; nia. }
  rewrite (wrap_small 512 (n / 32 * (n / 32))) by (unfold in_range; lia).
  rewrite (wrap_small 512 (memoryGas _ * _)) by (unfold in_range; nia).
  rewrite wrap_small by (unfold in_range; nia).
  by apply wp_toInt63.
Qed.

(** The size [updateMem] rounds a request up to, and the gas it adds. *)
Definition round32 (n : Z) : Z := (n + 31) / 32 * 32.
Definition memGas (s : VM W) : Z :=
  (if size (m_mem s) <? round32 (m_newMemSize s)
   then Cmem evmSchedule (round32 (m_newMemSize s)) - Cmem evmSchedule (size (m_mem s)) else 0)
  + copyGas evmSchedule * ((m_copyMemSize s + 31) / 32).
Definition grown (mem : bytes) (n : Z) : bytes := mem ++ replicate (Z.to_nat n - length mem) 0.

Lemma round32_spec n : 0 <= n -> n <= round32 n < n + 32 /\ round32 n mod 32 = 0.
Proof.
  intros. unfold round32. split; [|apply Z.mod_mul; lia].
  pose proof (Z.div_mod (n + 31) 32). pose proof (Z.mod_pos_bound (n + 31) 32). lia.
Qed.

Lemma wp_updateGas Q E s :
  0 <= m_newMemSize s < 2 ^ 64 -> size (m_mem s) < 2 ^ 64 -> round32 (m_newMemSize s) = m_newMemSize s ->
  0 <= m_runGas s -> 0 <= m_copyMemSize s < 2 ^ 63 ->
  m_runGas s + copyGas evmSchedule * ((m_copyMemSize s + 31) / 32) < 2 ^ 63 ->
  (m_runGas s + memGas s <= m_io_gas s -> Q tt (set_m_runGas (m_runGas s + memGas s) s)) ->
  (forall x, E (Throw "Out Of Gas") (set_m_runGas x s)) ->
  wp updateGas Q E s.
Proof.
  intros Hn Hm Hr0 Hrun Hcopy Hsum HQ HE. schedule_facts SOK.
  assert (E (Throw "Out Of Gas") s) by (specialize (HE (m_runGas s)); by destruct s).
  unfold updateGas. apply wp_bind, wp_gets, wp_bind, wp_gets.
  unfold memGas in HQ. rewrite Hr0 in HQ.
  set (C := copyGas evmSchedule * ((m_copyMemSize s + 31) / 32)) in *.
  assert (0 <= (m_copyMemSize s + 31) / 32) by (apply Z.div_pos; lia).
  assert (0 <= C) by (unfold C; apply Z.mul_nonneg_nonneg; lia).
  assert (forall x, 0 <= x < 2 ^ 63 -> x = (if size (m_mem s) <? m_newMemSize s
     then Cmem evmSchedule (m_newMemSize s) - Cmem evmSchedule (size (m_mem s)) else 0) ->
     wp (run ← gets m_runGas; copy ← gets m_copyMemSize;
         set_runGas (u64 (run + u64 (copyGas m_schedule * (u64 (copy + 31) / 32))));;
         io ← gets m_io_gas; run ← gets m_runGas;
         if io <? run then throwOutOfGas else mret tt) Q E (set_m_runGas (m_runGas s + x) s)) as Hk.
  { intros x Hx Hxe. rewrite <- Hxe in HQ.
    repeat (apply wp_bind, wp_gets). apply wp_bind, wp_modify.
    repeat (apply wp_bind, wp_gets). vm_proj. unfold m_schedule.
    rewrite (wrap_small _ (m_copyMemSize s + 31)) by (unfold in_range; lia).
    fold C. rewrite (wrap_small _ C) by (unfold in_range; lia).
    rewrite wrap_small by (unfold in_range; lia).
    destruct (Z.ltb_spec (m_io_gas s) (m_runGas s + x + C)).
    - apply wp_throw. apply HE.
    - apply wp_ret. rewrite Z.add_assoc in HQ. by apply HQ. }
  apply wp_bind. destruct (Z.ltb_spec (size (m_mem s)) (m_newMemSize s)).
  - pose proof (Cmem_mono evmSchedule (size (m_mem s)) (m_newMemSize s) SOK ltac:(lia)) as Hmono.
    apply wp_bind, wp_gasForMem; [lia| |done]. intros Hc1.
    apply wp_bind, wp_gasForMem; [lia| |done]. intros Hc0.
    assert (0 <= Cmem evmSchedule (size (m_mem s))) as Hpos.
    { apply Cmem_nonneg; [done|lia]. }
    rewrite wrap_small by (unfold in_range; lia).
    apply wp_bind, wp_toInt63; [|done]. intros Hd. apply wp_bind, wp_gets, wp_modify.
    rewrite wrap_small by (unfold in_range; lia). apply Hk; [lia|done].
  - apply wp_ret. specialize (Hk 0 ltac:(lia) eq_refl). rewrite Z.add_0_r in Hk. by destruct s.
Qed.

(** [updateMem] prices the expansion exactly: no intermediate value wraps. *)
Lemma wp_updateMem Q E s :
  0 <= m_newMemSize s < 2 ^ 64 - 32 -> size (m_mem s) < 2 ^ 64 ->
  0 <= m_runGas s -> 0 <= m_copyMemSize s < 2 ^ 63 ->
  m_runGas s + copyGas evmSchedule * ((m_copyMemSize s + 31) / 32) < 2 ^ 63 ->
  (m_runGas s + memGas s <= m_io_gas s ->
   Q tt (set_m_mem (grown (m_mem s) (round32 (m_newMemSize s)))
          (set_m_runGas (m_runGas s + memGas s) (set_m_newMemSize (round32 (m_newMemSize s)) s)))) ->
  (forall x n, E (Throw "Out Of Gas") (set_m_runGas x (set_m_newMemSize n s))) ->
  wp updateMem Q E s.
Proof.
  intros Hn Hm Hrun Hcopy Hsum HQ HE. unfold updateMem.
  apply wp_bind, wp_gets, wp_bind, wp_modify.
  rewrite wrap_small by (unfold in_range; lia). fold (round32 (m_newMemSize s)).
  destruct (round32_spec (m_newMemSize s) ltac:(lia)) as [Hr Hmod].
  assert (round32 (round32 (m_newMemSize s)) = round32 (m_newMemSize s)) as Hrr.
  { unfold round32 at 2. unfold round32. rewrite Z.div_add_l by lia. change (31 / 32) with 0. lia. }
  apply wp_bind, wp_updateGas; vm_proj; auto; try lia.
  unfold memGas. vm_proj. rewrite Hrr. intros Hle.
  apply wp_bind, wp_gets, wp_modify. vm_proj. specialize (HQ Hle). unfold grown, memGas in HQ.
  destruct (Z.ltb_spec (size (m_mem s)) (round32 (m_newMemSize s))) as [|Hge]; [done|].
  replace (Z.to_nat (round32 (m_newMemSize s)) - length (m_mem s))%nat with 0%nat in HQ by lia.
  simpl in HQ. rewrite app_nil_r in HQ.
  by destruct s.
Qed.
End Rules.

(** ** Well-formed machine data *)
Section Wellformed.
Context {W : Type} `{EX : !ExtVMOps W} `{EL : !ExtVMLaws W} `{PL : !Platform}.
Implicit Types (s : VM W).

Record wfd s : Prop := {
  wfd_len : length (m_stackSpace s) = 1025%nat;
  wfd_stack : Forall (in_range 256) (m_stackSpace s);
  wfd_gas : in_range 64 (m_io_gas s);
  wfd_mem : bytes_ok (m_mem s);
  wfd_mem32 : size (m_mem s) mod 32 = 0;
  wfd_mem64 : size (m_mem s) < 2 ^ 63 + 64;
  wfd_ctx : ext_inv (m_ctx s)
}.

Lemma slot_range st i : Forall (in_range 256) st -> in_range 256 (slot st i).
Proof.
  intros Hst. unfold slot. destruct (nth_in_or_default (Z.to_nat (i + 1)) st 0) as [Hin| ->].
  - by apply (proj1 (List.Forall_forall _ _) Hst).
  - unfold in_range. lia.
Qed.

Lemma slot_insert st i j v : length st = 1025%nat -> -1 <= i < 1024 -> -1 <= j ->
  slot (<[Z.to_nat (i + 1) := v]> st) j = if decide (i = j) then v else slot st j.
Proof.
  intros Hl Hi Hj. unfold slot. rewrite !nth_lookup. case_decide as Hd.
  - subst. rewrite list_lookup_insert_eq by lia. done.
  - rewrite list_lookup_insert_ne by lia. done.
Qed.

(** The step after which an exception may leave: the remaining gas is at most
    [g]. *)
Definition fails (g : Z) : outcome unit -> VM W -> Prop :=
  throws (fun s' => 0 <= m_io_gas s' <= g).

Lemma fails_intro g w s : 0 <= m_io_gas s <= g -> fails g (Throw w) s.
Proof. split; eauto. Qed.

(** [fetchInstruction] has accepted the instruction [op]. *)
Record fetched (op : Instruction.t) s : Prop := {
  fe_op : m_OP s = op;
  fe_SP : m_SP s < 1024;
  fe_args : metric_args (metric op) <= 1 + m_SP s;
  fe_ret : 1 + m_SP s - metric_args (metric op) + metric_ret (metric op) <= 1024;
  fe_gas : m_runGas s = tier_gas (metric_tier (metric op));
  fe_mem : m_newMemSize s = size (m_mem s);
  fe_copy : m_copyMemSize s = 0
}.

(** [s'] follows [s] by an instruction that goes on to the next byte: the
    stack moves as [c_metrics] says and at least one unit of gas is paid. *)
Record next (op : Instruction.t) s s' : Prop := {
  nx_wfd : wfd s';
  nx_code : m_code s' = m_code s;
  nx_pool : m_pool s' = m_pool s;
  nx_jumpDests : m_jumpDests s' = m_jumpDests s;
  nx_caseInit : m_caseInit s' = m_caseInit s;
  nx_bounce : m_bounce s' = m_bounce s;
  nx_out : m_output s' = m_output s;
  nx_PC : m_PC s' = u64 (m_PC s + 1);
  nx_SP : m_SP s' = m_SP s - metric_args (metric op) + metric_ret (metric op);
  nx_gas : m_io_gas s' < m_io_gas s
}.
End Wellformed.
