(* ===== verification/ScVmArith.v ===== *)
(** * The word operations of the virtual machine

    What the instructions on 256-bit words compute, as integer arithmetic. *)

From Stdlib Require Import Zpow_facts.
From S2P Require Import Prelude ScFixedHash ScSha3 ScInstruction ScVm.

Lemma to_arith_range N h : in_range (8 * Z.of_nat N) (FixedHash.to_arith N h).
Proof.
  unfold FixedHash.to_arith, fromBigEndian.
  assert (in_range (8 * Z.of_nat N) 0) as H0 by (unfold in_range; lia).
  revert H0. generalize 0 as a. induction h as [|b h IH]; intros a Ha; simpl; [done|].
  apply IH. apply wrap_range. lia.
Qed.

Lemma to_arith_32 h : in_range 256 (FixedHash.to_arith 32 h).
Proof. apply to_arith_range. Qed.

Lemma fromAddress_range a : in_range 256 (fromAddress a).
Proof. apply (in_range_mono 160); [lia|]. apply (to_arith_range 20). Qed.

(** ** Exponentiation *)

Lemma mul_pow_mod r b e m : 0 < m -> r * (b mod m) ^ e mod m = r * b ^ e mod m.
Proof.
  intros. rewrite <- Z.mul_mod_idemp_r, <- Zpower_mod by lia.
  by rewrite Z.mul_mod_idemp_r by lia.
Qed.

Lemma exp256_loop_spec fuel r b e :
  0 <= e < 2 ^ Z.of_nat fuel -> wrap 256 r = r ->
  exp256_loop fuel r b e = u256 (r * b ^ e).
Proof.
  revert r b e. induction fuel as [|f IH]; intros r b e He Hr; cbn [exp256_loop].
  - replace e with 0 by lia. by rewrite Z.mul_1_r.
  - destruct (Z.eqb_spec e 0) as [->|Hne]; [by rewrite Z.mul_1_r|].
    rewrite Nat2Z.inj_succ, Z.pow_succ_r in He by lia.
    assert (e = 2 * Z.div2 e + Z.b2z (Z.odd e)) as Hd by apply Z.div2_odd.
    rewrite <- Z.div2_spec. unfold wrap in *.
    assert (0 <= Z.div2 e < 2 ^ Z.of_nat f) by (destruct (Z.odd e); simpl in Hd; lia).
    assert (b ^ e = (b * b) ^ Z.div2 e * b ^ Z.b2z (Z.odd e)) as Hp.
    { rewrite Hd at 1. rewrite Z.pow_add_r by (destruct (Z.odd e); simpl; lia).
      by rewrite Z.pow_mul_r, Z.pow_2_r by lia. }
    rewrite IH; [|done|by destruct (Z.odd e); [apply Zmod_mod|]]. rewrite Hp.
    rewrite mul_pow_mod by lia. destruct (Z.odd e); simpl Z.b2z.
    + rewrite Z.pow_1_r, Z.mul_mod_idemp_l by lia. f_equal. ring.
    + by rewrite Z.pow_0_r, Z.mul_1_r.
Qed.

Lemma exp256_spec b e : in_range 256 e -> exp256 b e = b ^ e mod 2 ^ 256.
Proof.
  intros [? ?]. unfold exp256. rewrite exp256_loop_spec; [|lia|done]. by rewrite Z.mul_1_l.
Qed.

(** ** Results are words *)
Lemma Z_of_bool_range b : in_range 256 (Z_of_bool b).
Proof. destruct b; unfold in_range; simpl; lia. Qed.

Lemma quot_range a b : in_range 256 a -> in_range 256 b -> b <> 0 -> in_range 256 (Z.quot a b).
Proof.
  unfold in_range. intros. rewrite Z.quot_div_nonneg by lia.
  split; [apply Z.div_pos; lia|]. apply Z.div_lt_upper_bound; nia.
Qed.
Lemma rem_range a b : in_range 256 a -> in_range 256 b -> b <> 0 -> in_range 256 (Z.rem a b).
Proof.
  unfold in_range. intros. rewrite Z.rem_mod_nonneg by lia.
  pose proof (Z.mod_pos_bound a b). lia.
Qed.
Lemma s2u_range v : in_range 256 (s2u v).
Proof. unfold s2u. case_match; by apply wrap_range. Qed.

Section Ranges.
Context (a b c : Z) (Ha : in_range 256 a) (Hb : in_range 256 b) (Hc : in_range 256 c).

Lemma zero_range : in_range 256 0.
Proof. unfold in_range. lia. Qed.

Local Hint Resolve zero_range Z_of_bool_range s2u_range quot_range rem_range : core.

Lemma op_DIV_range : in_range 256 (op_DIV a b).
Proof. unfold op_DIV, divWorkaround. destruct (Z.eqb_spec b 0); auto. Qed.
Lemma op_MOD_range : in_range 256 (op_MOD a b).
Proof. unfold op_MOD, modWorkaround. destruct (Z.eqb_spec b 0); auto. Qed.
Lemma op_SDIV_range : in_range 256 (op_SDIV a b).
Proof. unfold op_SDIV. case_match; auto. Qed.
Lemma op_SMOD_range : in_range 256 (op_SMOD a b).
Proof. unfold op_SMOD. case_match; auto. Qed.
Lemma op_ISZERO_range : in_range 256 (op_ISZERO a).
Proof. unfold op_ISZERO. case_match; unfold in_range; lia. Qed.
Lemma op_BYTE_range : in_range 256 (op_BYTE a b).
Proof.
  unfold op_BYTE. case_match; auto. rewrite land_255.
  apply (in_range_mono 8); [lia|]. apply is_byte_mod.
Qed.
Lemma op_ADDMOD_range : in_range 256 (op_ADDMOD a b c).
Proof. unfold op_ADDMOD. case_match; auto. by apply wrap_range. Qed.
Lemma op_MULMOD_range : in_range 256 (op_MULMOD a b c).
Proof. unfold op_MULMOD. case_match; auto. by apply wrap_range. Qed.
Lemma op_SIGNEXTEND_range : in_range 256 (op_SIGNEXTEND a b).
Proof.
  unfold op_SIGNEXTEND. repeat case_match; auto.
  - apply in_range_lor; auto; [lia|]. by apply wrap_range.
  - apply in_range_land; auto. lia.
Qed.
Lemma calldataload_range d : in_range 256 (calldataload d a).
Proof. unfold calldataload. repeat case_match; auto using to_arith_32. Qed.
End Ranges.

Create HintDb word discriminated.
#[export] Hint Resolve zero_range Z_of_bool_range op_DIV_range op_MOD_range op_SDIV_range
  op_SMOD_range op_ISZERO_range op_BYTE_range op_ADDMOD_range op_MULMOD_range
  op_SIGNEXTEND_range calldataload_range to_arith_32 fromAddress_range : word.

(** ** Signed division, sign extension, bytes of words *)

Lemma op_SDIV_spec a b : in_range 256 a -> in_range 256 b -> b <> 0 ->
  op_SDIV a b = Z.quot (u2s a) (u2s b) mod 2 ^ 256.
Proof.
  intros Ha Hb Hb0. unfold op_SDIV, divWorkaround. destruct (Z.eqb_spec b 0); [done|].
  apply s2u_spec. pose proof (u2s_range a Ha). pose proof (u2s_range b Hb).
  assert (u2s b <> 0) as Hne.
  { intros E. pose proof (u2s_mod b) as M. rewrite E in M. unfold in_range in Hb.
    rewrite (Z.mod_small b) in M by lia. rewrite Zmod_0_l in M. lia. }
  assert (Z.abs (Z.quot (u2s a) (u2s b)) <= Z.abs (u2s a)); [|lia].
  rewrite <- Z.quot_abs by done.
  apply Z.quot_le_upper_bound; nia.
Qed.

Lemma op_SMOD_spec a b : in_range 256 a -> in_range 256 b -> b <> 0 ->
  op_SMOD a b = Z.rem (u2s a) (u2s b) mod 2 ^ 256.
Proof.
  intros Ha Hb Hb0. unfold op_SMOD, modWorkaround. destruct (Z.eqb_spec b 0); [done|].
  apply s2u_spec. pose proof (u2s_range a Ha). pose proof (u2s_range b Hb).
  assert (Z.abs (Z.rem (u2s a) (u2s b)) <= Z.abs (u2s a)); [|lia].
  destruct (Z.eq_dec (u2s b) 0) as [->|Hne]; [by rewrite Z.rem_0_r_ext|].
  rewrite <- Z.rem_abs by done. apply Z.rem_le; lia.
Qed.

(** The value of the low [n] bits of [x] read as a two's complement number. *)
Definition signed_low (n x : Z) : Z :=
  let y := x mod 2 ^ n in if y <? 2 ^ (n - 1) then y else y - 2 ^ n.

Lemma mod_succ_bit x t : 0 <= t ->
  x mod 2 ^ (t + 1) = x mod 2 ^ t + (if Z.testbit x t then 2 ^ t else 0).
Proof.
  intros. rewrite Z.testbit_odd, Z.shiftr_div_pow2 by lia.
  rewrite Z.pow_add_r by lia. change (2 ^ 1) with 2.
  rewrite Z.rem_mul_r by lia. f_equal.
  rewrite Zmod_odd. destruct (Z.odd (x / 2 ^ t)); lia.
Qed.

(** Setting every bit from [t] up. *)
Lemma lor_high x t : 0 <= t <= 256 -> in_range 256 x ->
  Z.lor x (u256 (Z.lnot (Z.ones t))) = x mod 2 ^ t + (2 ^ 256 - 2 ^ t).
Proof.
  intros Ht Hx. assert (0 < 2 ^ t <= 2 ^ 256) by (pose proof (Z.pow_le_mono_r 2 t 256); lia).
  assert (2 ^ 256 - 2 ^ t = Z.shiftl (Z.ones (256 - t)) t) as ->.
  { rewrite Z.shiftl_mul_pow2, Z.ones_equiv by lia.
    rewrite <- Z.sub_1_r, Z.mul_sub_distr_r, <- Z.pow_add_r by lia.
    replace (256 - t + t) with 256 by lia. lia. }
  rewrite Z.add_nocarry_lxor, Z.lxor_lor.
  2,3: apply Z.bits_inj'; intros n Hn; rewrite Z.land_spec, Z.bits_0.
  2,3: destruct (Z.lt_ge_cases n t); [rewrite Z.shiftl_spec_low, andb_false_r by lia; done|];
       rewrite Z.mod_pow2_bits_high by lia; done.
  apply Z.bits_inj'. intros n Hn. rewrite !Z.lor_spec. unfold wrap.
  apply in_range_ones in Hx; [|lia].
  destruct (Z.lt_ge_cases n 256).
  - rewrite Z.mod_pow2_bits_low, Z.lnot_spec by lia.
    destruct (Z.lt_ge_cases n t).
    + rewrite Z.ones_spec_low, Z.mod_pow2_bits_low, Z.shiftl_spec_low by lia. done.
    + rewrite Z.ones_spec_high, Z.mod_pow2_bits_high, Z.shiftl_spec, Z.ones_spec_low by lia.
      apply orb_true_r.
  - rewrite Z.mod_pow2_bits_high, Z.mod_pow2_bits_high, Z.shiftl_spec, Z.ones_spec_high by lia.
    rewrite <- Hx, Z.land_spec, Z.ones_spec_high by lia. by rewrite andb_false_r.
Qed.

Lemma op_SIGNEXTEND_spec a x : 0 <= a -> in_range 256 x ->
  op_SIGNEXTEND a x = if a <? 31 then signed_low (8 * (a + 1)) x mod 2 ^ 256 else x.
Proof.
  intros Ha Hx. unfold op_SIGNEXTEND. destruct (Z.ltb_spec a 31); [|done].
  set (t := a * 8 + 7). assert (0 <= t < 248) by (unfold t; lia).
  replace (8 * (a + 1)) with (t + 1) by (unfold t; lia).
  assert (0 < 2 ^ t < 2 ^ 248) by (pose proof (Z.pow_lt_mono_r 2 t 248); lia).
  rewrite Z.shiftl_1_l, (wrap_small 256 (2 ^ t)), (wrap_small 256 (2 ^ t - 1)) by (unfold in_range; lia).
  rewrite Z.sub_1_r, <- Z.ones_equiv. unfold signed_low. rewrite mod_succ_bit by lia.
  replace (t + 1 - 1) with t by lia. pose proof (Z.mod_pos_bound x (2 ^ t)).
  rewrite Z.pow_add_r by lia. destruct (Z.testbit x t).
  - rewrite lor_high by (done || lia).
    destruct (Z.ltb_spec (x mod 2 ^ t + 2 ^ t) (2 ^ t)); [lia|].
    replace (x mod 2 ^ t + 2 ^ t - 2 ^ t * 2 ^ 1) with (x mod 2 ^ t - 2 ^ t) by lia.
    apply Z.mod_unique_pos with (-1); lia.
  - rewrite Z.land_ones by lia. destruct (Z.ltb_spec (x mod 2 ^ t + 0) (2 ^ t)); [|lia].
    rewrite Z.add_0_r. symmetry. apply Z.mod_small. lia.
Qed.

Lemma nth_toBigEndian n i v : (i < n)%nat ->
  nth i (toBigEndian n v) 0 = v / 256 ^ (Z.of_nat n - 1 - Z.of_nat i) mod 256.
Proof.
  revert v. induction n as [|n IH]; intros v Hi; [lia|]. cbn [toBigEndian].
  destruct (decide (i = n)) as [->|].
  - rewrite app_nth2, length_toBigEndian, Nat.sub_diag by (rewrite length_toBigEndian; lia).
    replace (Z.of_nat (S n) - 1 - Z.of_nat n) with 0 by lia.
    simpl nth. by rewrite land_255, Z.div_1_r.
  - rewrite app_nth1, IH, shiftr_8 by (rewrite ?length_toBigEndian; lia).
    rewrite Z.div_div by lia. rewrite <- Z.pow_succ_r by lia. do 3 f_equal. lia.
Qed.

Lemma op_BYTE_spec a x : 0 <= a ->
  op_BYTE a x = nth (Z.to_nat a) (toBigEndian 32 x) 0.
Proof.
  intros Ha. unfold op_BYTE. destruct (Z.ltb_spec a 32) as [Hlt|Hge].
  - rewrite nth_toBigEndian, land_255 by lia. rewrite wrap_small by (unfold in_range; lia).
    rewrite Z.shiftr_div_pow2, (Z.pow_mul_r 2 8) by lia. do 3 f_equal. lia.
  - symmetry. apply nth_overflow. rewrite length_toBigEndian. lia.
Qed.

Lemma calldataload_spec d a : in_range 256 a -> size d < 2 ^ 63 ->
  calldataload d a =
  FixedHash.to_arith 32 (take 32 (drop (Z.to_nat a) d ++ replicate 32 0)).
Proof.
  intros Ha Hd. unfold in_range in Ha. unfold calldataload.
  rewrite (wrap_small 512) by (unfold in_range; lia).
  destruct (Z.ltb_spec (a + 31) (size d)).
  - rewrite wrap_small by (unfold in_range; lia). rewrite take_app_le; [done|].
    rewrite length_drop. lia.
  - destruct (Z.leb_spec (size d) a).
    + rewrite drop_ge by lia. done.
    + rewrite wrap_small by (unfold in_range; lia). f_equal.
      apply list_eq_same_length with 32%nat.
      { rewrite length_take, length_app, length_replicate. lia. }
      { by rewrite length_fmap, length_seq. }
      intros i x y Hi. rewrite list_lookup_fmap, lookup_seq_lt by lia. simpl.
      rewrite lookup_take_lt by lia. intros Hx Hy. simplify_eq.
      destruct (Z.ltb_spec (Z.of_nat (Z.to_nat (a + Z.of_nat i))) (size d)).
      * rewrite lookup_app_l, lookup_drop in Hy by (rewrite length_drop; lia).
        replace (Z.to_nat (a + Z.of_nat i)) with (Z.to_nat a + i)%nat by lia.
        by rewrite (nth_lookup_Some _ _ _ _ Hy).
      * rewrite lookup_app_r in Hy by (rewrite length_drop; lia).
        change (replicate 32 0 !! (i - length (drop (Z.to_nat a) d))%nat = Some y) in Hy.
        by apply lookup_replicate in Hy as [-> _].
Qed.
