(* ===== verification/ScVmSafe.v ===== *)
(** * Safety of the interpreter loop

    For every instruction: run on well-formed data that [fetchInstruction] has
    accepted, it does not leave the stack, the memory or the code, keeps the
    data well-formed, moves the stack pointer as the table [c_metrics] says, and
    pays for itself. *)

From S2P Require Import Prelude ScFixedHash ScSha3 ScInstruction ScVm ScVmLogic ScVmArith.
Import Instruction.

Section Helpers.
Context {W : Type} `{EX : !ExtVMOps W} `{EL : !ExtVMLaws W} `{PL : !Platform}.
Implicit Types (s : VM W).

Lemma insert_range i v (st : list Z) :
  Forall (in_range 256) st -> in_range 256 v -> Forall (in_range 256) (<[i := v]> st).
Proof. apply Forall_insert. Qed.

(** What each instruction proves: from [s] it goes on with [next]. *)
Definition goes_on (op : Instruction.t) (s : VM W) : flow -> VM W -> Prop :=
  fun k s' => k = Loop /\ next op s s'.

Lemma tier_gas_pos t : t ∈ [Tier.Base; Tier.VeryLow; Tier.Low; Tier.Mid; Tier.High; Tier.Ext] ->
  1 <= tier_gas t < 2 ^ 32.
Proof.
  intros Ht. unfold tier_gas, m_schedule.
  destruct (so_tiers _ evmSchedule_ok) as (b & v & l & m & h & e & sp & -> & Hf & _).
  repeat (apply Forall_cons_iff in Hf as [? Hf]).
  set_unfold in Ht. destruct_or?; subst; done.
Qed.

Lemma grown_size mem n : 0 <= n -> size (grown mem n) = Z.max (size mem) n.
Proof. intros. unfold grown. rewrite length_app, length_replicate. lia. Qed.
Lemma grown_bytes_ok mem n : bytes_ok mem -> bytes_ok (grown mem n).
Proof.
  intros. unfold grown. apply bytes_ok_app. split; [done|].
  apply bytes_ok_replicate. unfold is_byte. lia.
Qed.
Lemma grown_mod mem n : 0 <= n -> size mem mod 32 = 0 -> size (grown mem (round32 n)) mod 32 = 0.
Proof.
  intros. destruct (round32_spec n ltac:(done)) as [? ?].
  rewrite grown_size by lia. by destruct (Z.max_spec (size mem) (round32 n)) as [[_ ->]|[_ ->]].
Qed.

(** A call into the context under the interface's laws. *)
Lemma wp_ctx_law {A} (m : SE (ExtVM W) A) P Q g s :
  wp m P (throws ext_inv) (m_ctx s) -> 0 <= m_io_gas s <= g ->
  (forall a e, P a e -> Q a (set_m_ctx e s)) -> wp (ctx m) Q (fails g) s.
Proof.
  intros Hm Hg HQ. apply wp_ctx. eapply wp_mono; [exact Hm|exact HQ|].
  intros r e [[w ->] _]. by apply fails_intro.
Qed.

(** Expansion of memory under metering, for a request of less than [2^63 + 32]
    bytes. *)
Lemma wp_updateMem_safe Q g s :
  0 <= m_newMemSize s < 2 ^ 63 + 32 -> size (m_mem s) < 2 ^ 63 + 64 -> 0 <= m_runGas s ->
  m_copyMemSize s = 0 /\ m_runGas s < 2 ^ 63 \/
  0 <= m_copyMemSize s < 2 ^ 63 /\ m_runGas s < 2 ^ 62 ->
  0 <= m_io_gas s <= g -> bytes_ok (m_mem s) -> size (m_mem s) mod 32 = 0 ->
  (forall run mem n, m_runGas s <= run <= m_io_gas s -> bytes_ok mem -> size mem mod 32 = 0 ->
     m_newMemSize s <= size mem -> size mem < 2 ^ 63 + 64 ->
     Q tt (set_m_mem mem (set_m_runGas run (set_m_newMemSize n s)))) ->
  wp updateMem Q (fails g) s.
Proof.
  intros Hn Hm Hr Hc Hg Hok Hm32 HQ. pose proof evmSchedule_ok as SOK. schedule_facts SOK.
  assert (0 <= (m_copyMemSize s + 31) / 32) by (apply Z.div_pos; lia).
  assert (m_runGas s + copyGas evmSchedule * ((m_copyMemSize s + 31) / 32) < 2 ^ 63) as Hsum.
  { destruct Hc as [[-> ?]|[? ?]]; [change ((0 + 31) / 32) with 0; lia|].
    assert ((m_copyMemSize s + 31) / 32 < 2 ^ 58 + 1) by (apply Z.div_lt_upper_bound; lia). nia. }
  destruct (round32_spec (m_newMemSize s) ltac:(lia)) as [Hr32 Hmod].
  apply wp_updateMem; auto; try lia; [|intros; apply fails_intro; vm_proj; lia].
  intros Hle. apply HQ; auto using grown_bytes_ok.
  - unfold memGas.
    assert (0 <= copyGas evmSchedule * ((m_copyMemSize s + 31) / 32)) by nia.
    split; [|done]. case_match; [|lia].
    pose proof (Cmem_mono _ (size (m_mem s)) (round32 (m_newMemSize s)) SOK ltac:(lia)). lia.
  - apply grown_mod; [lia|done].
  - rewrite grown_size; lia.
  - rewrite grown_size; lia.
Qed.

Lemma wp_memNeed_safe off sz Q E s : in_range 256 off -> in_range 256 sz ->
  (forall need, 0 <= need < 2 ^ 63 -> (0 < sz -> off + sz <= need) -> Q need s) ->
  E (Throw "Out Of Gas") s -> wp (memNeed off sz) Q E s.
Proof.
  unfold in_range. intros Ho Hs HQ HE. apply wp_memNeed; auto. intros Hlt. apply HQ.
  - destruct (Z.eqb_spec sz 0); lia.
  - intros. by destruct (Z.eqb_spec sz 0); [lia|].
Qed.

Lemma wp_mem_ref_safe off n Q E s : bytes_ok (m_mem s) ->
  0 <= off -> 0 <= n -> (0 < n -> off + n <= size (m_mem s)) ->
  (forall bs, bytes_ok bs -> size bs <= n -> Q bs s) -> wp (mem_ref off n) Q E s.
Proof.
  intros Hok Ho Hn Hb HQ. apply wp_mem_ref; auto. apply HQ.
  - by apply bytes_ok_take, bytes_ok_drop.
  - rewrite length_take. lia.
Qed.

Lemma wp_mem_write_safe off bs Q E s : bytes_ok (m_mem s) -> bytes_ok bs ->
  0 <= off -> (0 < size bs -> off + size bs <= size (m_mem s)) ->
  (forall mem, bytes_ok mem -> length mem = length (m_mem s) -> Q tt (set_m_mem mem s)) ->
  wp (mem_write off bs) Q E s.
Proof.
  intros Hok Hbs Ho Hb HQ. apply wp_mem_write; auto.
  apply HQ; [by apply written_bytes_ok|by apply length_written].
Qed.

Lemma wrap_le w x : 0 <= w -> 0 <= x -> 0 <= wrap w x <= x.
Proof.
  intros. unfold wrap. split; [apply Z.mod_pos_bound; lia|].
  pose proof (Z.mod_le x (2 ^ w)). lia.
Qed.

Lemma mul_range x y a b : 0 <= x <= a -> 0 <= y <= b -> 0 <= x * y <= a * b.
Proof. intros. split; [apply Z.mul_nonneg_nonneg|apply Z.mul_le_mono_nonneg]; lia. Qed.
Lemma fetched_tier op s : fetched op s ->
  metric_tier (metric op) ∈ [Tier.Base; Tier.VeryLow; Tier.Low; Tier.Mid; Tier.High; Tier.Ext] ->
  1 <= m_runGas s < 2 ^ 32.
Proof. intros Hf Ht. rewrite (fe_gas _ _ Hf). by apply tier_gas_pos. Qed.

Lemma in_range_64_256 x : in_range 64 x -> in_range 256 x.
Proof. apply in_range_mono. lia. Qed.
End Helpers.

#[export] Hint Resolve insert_range slot_range grown_bytes_ok grown_mod wrap_range
  in_range_land in_range_lor in_range_lxor written_bytes_ok toBigEndian_bytes_ok : word.

(** ** Symbolic execution *)

(** Stack positions are written [m_SP s - c]. *)
Ltac norm_sp :=
  rewrite ?Z.sub_0_r;
  repeat match goal with
  | |- context [@m_SP ?W ?s - ?a - ?b] =>
    let c := eval vm_compute in (a + b) in
    lazymatch c with
    | Z.pos _ => replace (m_SP s - a - b) with (m_SP s - c) by lia
    end
  | |- context [1 + @m_SP ?W ?s - ?a] =>
    let c := eval vm_compute in (a - 1) in
    lazymatch c with
    | Z.pos _ => replace (1 + m_SP s - a) with (m_SP s - c) by lia
    end
  end.

(** Closes the side conditions of symbolic execution. *)
Ltac side :=
  vm_proj;
  match goal with
  | |- fails _ _ _ => apply fails_intro; vm_proj; lia
  | |- _ => first [assumption | lia | unfold in_range; lia]
  end.

Ltac vm_step :=
  lazymatch goal with
  | |- wp (_ ≫= _) _ _ _ => apply wp_bind
  | |- wp (mret _) _ _ _ => apply wp_ret
  | |- wp (gets _) _ _ _ => apply wp_gets; vm_proj
  | |- wp (modify _) _ _ _ => apply wp_modify
  | |- wp (set_PC _) _ _ _ => apply wp_modify
  | |- wp (set_runGas _) _ _ _ => apply wp_modify
  | |- wp (set_newMem _) _ _ _ => apply wp_modify
  | |- wp (set_copyMem _) _ _ _ => apply wp_modify
  | |- wp (set_bounce _) _ _ _ => apply wp_modify
  | |- wp (face _) _ _ _ => apply wp_face; vm_proj
  | |- wp (top _) _ _ _ => apply wp_top; [side|vm_proj; norm_sp]
  | |- wp (rd _) _ _ _ => apply wp_rd; [side|vm_proj; norm_sp]
  | |- wp (wr _ _) _ _ _ => apply wp_wr; [side|]
  | |- wp (set_top _ _) _ _ _ => apply wp_set_top; [side|vm_proj]
  | |- wp (drop_sp _) _ _ _ => apply wp_drop_sp; vm_proj; norm_sp
  | |- wp pop _ _ _ => apply wp_pop; [side|vm_proj; norm_sp]
  | |- wp (push _) _ _ _ => apply wp_push; [side|vm_proj]
  | |- wp NEXT_PC _ _ _ => unfold NEXT_PC
  | |- wp NEXT _ _ _ => unfold NEXT
  | |- wp CONTINUE _ _ _ => unfold CONTINUE
  | |- wp BREAK _ _ _ => unfold BREAK
  | |- wp charge _ _ _ =>
      apply wp_charge; [side|side| let n := fresh "n" in let t := fresh "t" in intros n t ?; vm_proj
                       |intros; side]
  | |- wp (toInt63 _) _ _ _ => apply wp_toInt63; [intros ?|side]
  | |- wp throwOutOfGas _ _ _ => apply wp_throw; side
  | |- wp throwBadInstruction _ _ _ => apply wp_throw; side
  | |- wp (throw _) _ _ _ => apply wp_throw; side
  end.

(** Closes [next op s s'] for the state symbolic execution has reached. *)
Ltac vm_wfd :=
  split; vm_proj; rewrite ?length_insert; eauto 6 with word;
  try (unfold in_range; lia).
Ltac vm_next :=
  split; [reflexivity|]; split; vm_proj; try reflexivity; try lia; vm_wfd.

Ltac vm_start :=
  intros [Hl Hst Hg Hm Hm32 Hm64 Hc] [Hop Hsp Ha Hr Hgas Hmem Hcopy]; intros;
  repeat match goal with H : metric_args _ = _ |- _ => rewrite H in * end;
  repeat match goal with H : metric_ret _ = _ |- _ => rewrite H in * end;
  pose proof Hg as [? ?]; pose proof evmSchedule_ok as SOK.

(** The words read so far are in range. *)
Ltac slot_facts :=
  repeat match goal with
  | Hst : Forall (in_range 256) ?st |- context [slot ?st ?i] =>
    lazymatch goal with
    | H : 0 <= slot st i < 2 ^ 256 |- _ => fail
    | _ => pose proof (slot_range st i Hst : 0 <= slot st i < 2 ^ 256)
    end
  end.

Ltac mem_side := vm_proj; slot_facts; rewrite ?wrap_small by (unfold in_range; lia);
  first [assumption | lia | by apply slot_range].
Ltac vm_step' :=
  lazymatch goal with
  | |- wp updateMem _ _ _ =>
      apply wp_updateMem_safe; [mem_side|mem_side|mem_side|mem_side|mem_side|mem_side|mem_side|];
      let run := fresh "run" in let mem := fresh "mem" in let n := fresh "n" in
      let H1 := fresh "Hrun" in let H2 := fresh "Hmok" in let H3 := fresh "Hmod" in
      let H4 := fresh "Hnew" in let H5 := fresh "Hlim" in
      intros run mem n H1 H2 H3 H4 H5; revert H1 H4; vm_proj; intros H1 H4
  | |- wp (memNeed _ _) _ _ _ =>
      apply wp_memNeed_safe; [mem_side|mem_side| |side];
      let need := fresh "need" in let H := fresh "Hneed" in intros need ? H; slot_facts;
      revert H; slot_facts; intros H
  | |- wp (set_newMem _) _ _ _ => slot_facts; rewrite ?wrap_small by (unfold in_range; lia); vm_step
  | |- wp updateIOGas _ _ _ =>
      apply wp_updateIOGas; [side|side|intros ?; vm_proj|intros; side]
  | |- wp (ctx (modify _)) _ _ _ => apply wp_ctx, wp_modify
  | |- _ => vm_step
  end.

Ltac mem_access :=
  slot_facts;
  repeat match goal with
  | |- context [wrap ?w ?x] =>
    lazymatch goal with
    | H : 0 <= wrap w x <= x |- _ => fail
    | _ => pose proof (wrap_le w x ltac:(lia) ltac:(lia))
    end
  end.

(** Starts a proof about the instruction [op], whose metric is computed. *)
Ltac vm_start_at op :=
  let a := eval vm_compute in (metric_args (metric op)) in
  let r := eval vm_compute in (metric_ret (metric op)) in
  let Hw := fresh in let Hf := fresh in
  intros Hw Hf; assert (metric_args (metric op) = a) as Hma by reflexivity;
  assert (metric_ret (metric op) = r) as Hmr by reflexivity; revert Hw Hf Hma Hmr;
  vm_start; match goal with SOK : schedule_ok _ |- _ => schedule_facts SOK end; unfold m_schedule in *.

(** A call into the context; [law] is the interface's law for it. *)
Ltac vm_ctx law := eapply wp_ctx_law; [apply law; vm_proj; auto|vm_proj; lia|].

Ltac tier_ok :=
  match goal with
  | Hf : fetched ?op ?s |- 1 <= m_runGas ?s < _ =>
    let H := fresh in
    assert (1 <= m_runGas s < 2 ^ 32) as H by
      (apply (fetched_tier op); [done|]; vm_compute (metric_tier (metric op));
       repeat first [apply list_elem_of_here | apply list_elem_of_further]);
    lia
  end.

Ltac range_ok :=
  intros; first [by apply wrap_range | by eauto with word | apply in_range_land; auto; lia
                |apply in_range_lor; auto; lia | apply in_range_lxor; auto; lia].

(** The values the zero-argument instructions push are words. *)
Ltac push_ok :=
  let s' := fresh "s'" in let Hw := fresh "Hw" in let Hpc := fresh "Hpc" in
  let HQ := fresh "HQ" in
  intros s' ? ? Hw Hpc HQ; repeat vm_step;
  destruct (ext_inv_range _ (wfd_ctx _ Hw)) as (? & ? & ? & ? & _); apply HQ;
  first [ done | by eauto with word
        | apply (in_range_mono 160); [lia|apply u160_view_range]
        | apply in_range_64_256; rewrite ?Hpc; by (auto || apply wfd_gas)
        | pose proof (wfd_mem64 _ Hw); unfold in_range in *; lia ].

Section Safe.
Context {W : Type} `{EX : !ExtVMOps W} `{EL : !ExtVMLaws W} `{PL : !Platform}.
Implicit Types (s : VM W).

(** The instructions of one shape differ in their metric and their function. *)
Lemma unop_ok f op s : wfd s -> fetched op s -> 1 <= m_runGas s < 2 ^ 63 ->
  metric_args (metric op) = 1 -> metric_ret (metric op) = 1 ->
  (forall a, in_range 256 a -> in_range 256 (f a)) ->
  wp (unop f) (goes_on op s) (fails (m_io_gas s)) s.
Proof. vm_start. unfold unop. repeat vm_step. vm_next. Qed.

Lemma binop_ok f op s : wfd s -> fetched op s -> 1 <= m_runGas s < 2 ^ 63 ->
  metric_args (metric op) = 2 -> metric_ret (metric op) = 1 ->
  (forall a b, in_range 256 a -> in_range 256 b -> in_range 256 (f a b)) ->
  wp (binop f) (goes_on op s) (fails (m_io_gas s)) s.
Proof. vm_start. unfold binop. repeat vm_step. vm_next. Qed.

Lemma ternop_ok f op s : wfd s -> fetched op s -> 1 <= m_runGas s < 2 ^ 63 ->
  metric_args (metric op) = 3 -> metric_ret (metric op) = 1 ->
  (forall a b c, in_range 256 a -> in_range 256 b -> in_range 256 c -> in_range 256 (f a b c)) ->
  wp (ternop f) (goes_on op s) (fails (m_io_gas s)) s.
Proof. vm_start. unfold ternop. repeat vm_step. vm_next. Qed.

Lemma pushop_ok m op s : wfd s -> fetched op s -> 1 <= m_runGas s < 2 ^ 63 ->
  metric_args (metric op) = 0 -> metric_ret (metric op) = 1 ->
  (forall s' Q E, wfd s' -> m_PC s' = m_PC s ->
     (forall v, in_range 256 v -> Q v s') -> wp m Q E s') ->
  wp (pushop m) (goes_on op s) (fails (m_io_gas s)) s.
Proof.
  intros Hw Hf Hrun Hma Hmr Hpush. revert Hw Hf Hma Hmr. vm_start. unfold pushop. do 2 vm_step.
  vm_step. apply Hpush; [vm_wfd|done|]. intros v Hv. repeat vm_step. vm_next.
Qed.

(** *** Instructions that expand memory *)

Lemma MLOAD_ok s : wfd s -> fetched MLOAD s -> 1 <= m_runGas s < 2 ^ 32 ->
  wp case_MLOAD (goes_on MLOAD s) (fails (m_io_gas s)) s.
Proof.
  vm_start_at MLOAD. unfold case_MLOAD. repeat vm_step'. mem_access.
  apply wp_mem_ref_safe; vm_proj; auto; try lia. intros. repeat vm_step'. vm_next.
Qed.

Lemma MSTORE_ok s : wfd s -> fetched MSTORE s -> 1 <= m_runGas s < 2 ^ 32 ->
  wp case_MSTORE (goes_on MSTORE s) (fails (m_io_gas s)) s.
Proof.
  vm_start_at MSTORE. unfold case_MSTORE. repeat vm_step'. mem_access.
  assert (length (FixedHash.of_arith 32 (slot (m_stackSpace s) (m_SP s - 1))) = 32%nat) as Hlen
    by apply length_toBigEndian.
  apply wp_mem_write_safe; vm_proj; auto using toBigEndian_bytes_ok; try lia.
  intros. repeat vm_step'. vm_next. all: vm_proj; congruence || lia.
Qed.

Lemma MSTORE8_ok s : wfd s -> fetched MSTORE8 s -> 1 <= m_runGas s < 2 ^ 32 ->
  wp case_MSTORE8 (goes_on MSTORE8 s) (fails (m_io_gas s)) s.
Proof.
  vm_start_at MSTORE8. unfold case_MSTORE8. repeat vm_step'. mem_access.
  apply wp_mem_write_safe; vm_proj; auto; try (simpl; lia).
  { rewrite land_255. constructor; [apply is_byte_mod|constructor]. }
  intros. repeat vm_step'. vm_next. all: congruence || lia.
Qed.

Lemma SHA3_ok s : wfd s -> fetched SHA3 s ->
  wp case_SHA3 (goes_on SHA3 s) (fails (m_io_gas s)) s.
Proof.
  vm_start_at SHA3. unfold case_SHA3. do 2 vm_step'.
  set (z := slot (m_stackSpace s) (m_SP s - 1)). pose proof (slot_range _ (m_SP s - 1) Hst) as Hz.
  fold z in Hz. unfold in_range in Hz.
  assert (0 <= (z + 31) / 32 < 2 ^ 256) as Hd.
  { split; [apply Z.div_pos; lia|apply Z.div_lt_upper_bound; lia]. }
  unfold m_schedule in *.
  assert (0 <= (z + 31) / 32 * sha3WordGas (evmSchedule (W:=W)) <= 2 ^ 256 * 2 ^ 31)
    by (apply mul_range; lia).
  rewrite (wrap_small 512 (z + 31)) by (unfold in_range; lia).
  rewrite (wrap_small 512 (_ * _)) by (unfold in_range; lia).
  rewrite wrap_small by (unfold in_range; lia). repeat vm_step'. mem_access.
  apply wp_mem_ref_safe; vm_proj; auto; try lia. intros. repeat vm_step'. vm_next.
Qed.

(** [copyDataToMemory] writes inside the area that was paid for. *)
Lemma copyDataToMemory_ok d Q E s :
  Forall (in_range 256) (m_stackSpace s) -> bytes_ok (m_mem s) -> bytes_ok d -> size d < 2 ^ 63 ->
  2 <= m_SP s < 1024 -> slot (m_stackSpace s) (m_SP s - 2) < 2 ^ 63 ->
  (0 < slot (m_stackSpace s) (m_SP s - 2) ->
   slot (m_stackSpace s) (m_SP s) + slot (m_stackSpace s) (m_SP s - 2) <= size (m_mem s)) ->
  (forall mem, bytes_ok mem -> length mem = length (m_mem s) ->
     Q tt (set_m_mem mem (set_m_SP (m_SP s - 3) s))) ->
  wp (copyDataToMemory d) Q E s.
Proof.
  intros Hst Hok Hd Hd63 Hsp Hsz Hbound HQ. unfold copyDataToMemory.
  repeat vm_step'. revert Hsz Hbound HQ. mem_access.
  set (off := slot (m_stackSpace s) (m_SP s)) in *.
  set (big := slot (m_stackSpace s) (m_SP s - 1)) in *.
  set (sz := slot (m_stackSpace s) (m_SP s - 2)) in *. intros Hsz Hbound HQ.
  rewrite (wrap_small 64 sz) by (unfold in_range; lia).
  set (n := if size d <? big + sz then _ else _).
  assert (0 <= n <= sz) as Hn.
  { unfold n. destruct (Z.ltb_spec (size d) (big + sz)); [|lia].
    destruct (Z.ltb_spec (size d) big); [lia|].
    rewrite (wrap_small 64 big), wrap_small by (unfold in_range; lia). lia. }
  set (bs := take (Z.to_nat n) (drop (Z.to_nat (u64 big)) d)).
  assert (size bs <= n) by (unfold bs; rewrite length_take; lia).
  apply wp_mem_write_safe; vm_proj; auto; try lia.
  { by apply bytes_ok_take, bytes_ok_drop. }
  intros mem Hmok Hlen. apply wp_mem_write_safe; vm_proj; auto.
  - apply bytes_ok_replicate. unfold is_byte. lia.
  - lia.
  - rewrite length_replicate. lia.
  - intros mem' Hmok' Hlen'. apply HQ; congruence.
Qed.

Lemma COPY_ok src op s : wfd s -> fetched op s -> 1 <= m_runGas s < 2 ^ 32 ->
  metric_args (metric op) = 3 -> metric_ret (metric op) = 0 ->
  (forall s' Q E, m_ctx s' = m_ctx s ->
     (forall d, bytes_ok d -> size d < 2 ^ 63 -> Q d s') -> wp src Q E s') ->
  wp (case_COPY src) (goes_on op s) (fails (m_io_gas s)) s.
Proof.
  vm_start. unfold case_COPY. repeat vm_step'.
  match goal with HH : forall _ Q E, _ -> _ -> wp src Q E _ |- _ => apply HH end; [done|].
  intros d Hd Hd63. vm_step. apply copyDataToMemory_ok; vm_proj; auto; try lia.
  intros. repeat vm_step'. vm_next. all: congruence || lia.
Qed.

Lemma EXTCODECOPY_ok s : wfd s -> fetched EXTCODECOPY s ->
  wp case_EXTCODECOPY (goes_on EXTCODECOPY s) (fails (m_io_gas s)) s.
Proof.
  vm_start_at EXTCODECOPY. unfold case_EXTCODECOPY. do 3 vm_step'. unfold m_schedule in *.
  repeat vm_step'.
  eapply wp_ctx_law; [apply ext_codeAt_ok; done|vm_proj; lia|]. intros d e (Hd & Hd63 & He).
  vm_step. apply copyDataToMemory_ok; vm_proj; norm_sp; auto; try lia.
  intros. repeat vm_step'. vm_next. all: congruence || lia.
Qed.

(** *** Instructions that consult the context *)

Lemma BALANCE_ok s : wfd s -> fetched BALANCE s ->
  wp case_BALANCE (goes_on BALANCE s) (fails (m_io_gas s)) s.
Proof.
  vm_start_at BALANCE. unfold case_BALANCE. do 3 vm_step'. unfold m_schedule in *.
  repeat vm_step'. vm_ctx ext_balance_ok. intros v e [Hv He]. repeat vm_step'. vm_next.
Qed.

Lemma EXTCODESIZE_ok s : wfd s -> fetched EXTCODESIZE s ->
  wp case_EXTCODESIZE (goes_on EXTCODESIZE s) (fails (m_io_gas s)) s.
Proof.
  vm_start_at EXTCODESIZE. unfold case_EXTCODESIZE. do 3 vm_step'. unfold m_schedule in *.
  repeat vm_step'. vm_ctx ext_codeSizeAt_ok. intros v e [Hv He]. repeat vm_step'. vm_next.
Qed.

Lemma CALLDATALOAD_ok s : wfd s -> fetched CALLDATALOAD s -> 1 <= m_runGas s < 2 ^ 32 ->
  wp case_CALLDATALOAD (goes_on CALLDATALOAD s) (fails (m_io_gas s)) s.
Proof. vm_start_at CALLDATALOAD. unfold case_CALLDATALOAD. repeat vm_step'. vm_next. Qed.

Lemma SLOAD_ok s : wfd s -> fetched SLOAD s ->
  wp case_SLOAD (goes_on SLOAD s) (fails (m_io_gas s)) s.
Proof.
  vm_start_at SLOAD. unfold case_SLOAD. do 3 vm_step'. unfold m_schedule in *.
  repeat vm_step'. vm_ctx ext_store_ok; try by apply slot_range. intros v e [Hv He]. repeat vm_step'. vm_next.
Qed.

Lemma SSTORE_ok s : wfd s -> fetched SSTORE s ->
  wp case_SSTORE (goes_on SSTORE s) (fails (m_io_gas s)) s.
Proof.
  vm_start_at SSTORE. unfold case_SSTORE. repeat vm_step'.
  vm_ctx ext_store_ok; try by apply slot_range. intros v e [Hv He]. vm_step.
  assert (forall g e' , 1 <= g < 2 ^ 31 -> ext_inv e' ->
    wp (charge;; ctx (ext_setStore (slot (m_stackSpace s) (m_SP s)) (slot (m_stackSpace s) (m_SP s - 1)));;
        drop_sp 2;; NEXT) (goes_on SSTORE s) (fails (m_io_gas s))
      (set_m_runGas g (set_m_ctx e' s))) as Hrest.
  { intros g e' Hg' He'. repeat vm_step'. vm_ctx ext_setStore_ok; try by apply slot_range.
    intros [] e2 He2. repeat vm_step'. vm_next. }
  unfold m_schedule. case_match.
  - do 3 vm_step'. apply Hrest; auto.
  - vm_step. vm_ctx ext_store_ok; try by apply slot_range. intros v2 e2 [Hv2 He2]. case_match.
    + do 5 vm_step'. apply (Hrest _ (set_sub _ e2)); auto. by apply ext_inv_sub.
    + do 3 vm_step'. apply Hrest; auto.
Qed.

(** *** Stack instructions *)
Lemma POP_ok s : wfd s -> fetched POP s -> 1 <= m_runGas s < 2 ^ 32 ->
  wp case_POP (goes_on POP s) (fails (m_io_gas s)) s.
Proof. vm_start_at POP. unfold case_POP. repeat vm_step'. vm_next. Qed.

Lemma JUMPDEST_ok s : wfd s -> fetched JUMPDEST s ->
  wp case_JUMPDEST (goes_on JUMPDEST s) (fails (m_io_gas s)) s.
Proof. vm_start_at JUMPDEST. unfold case_JUMPDEST. repeat vm_step'. vm_next. Qed.

Lemma DUP_ok op s : wfd s -> fetched op s -> 1 <= m_runGas s < 2 ^ 32 ->
  1 <= 1 + to_byte op - to_byte DUP1 ->
  metric_args (metric op) = 1 + to_byte op - to_byte DUP1 ->
  metric_ret (metric op) = 1 + metric_args (metric op) ->
  wp case_DUP (goes_on op s) (fails (m_io_gas s)) s.
Proof.
  vm_start. unfold case_DUP. do 4 vm_step'. rewrite Hop. repeat vm_step'. vm_next.
Qed.

Lemma SWAP_ok op s : wfd s -> fetched op s -> 1 <= m_runGas s < 2 ^ 32 ->
  2 <= to_byte op - to_byte SWAP1 + 2 ->
  metric_args (metric op) = to_byte op - to_byte SWAP1 + 2 ->
  metric_ret (metric op) = metric_args (metric op) ->
  wp case_SWAP (goes_on op s) (fails (m_io_gas s)) s.
Proof.
  vm_start. unfold case_SWAP. do 4 vm_step'. rewrite Hop. repeat vm_step'. vm_next.
Qed.

(** *** [EXP] and the [LOG] instructions *)
Lemma exp_gas_range x : in_range 256 x ->
  0 <= 32 - FixedHash.firstBitSet (FixedHash.of_arith 32 x) / 8 <= 32.
Proof.
  intros. unfold FixedHash.firstBitSet, FixedHash.of_arith.
  pose proof (firstBitSet_from_range (toBigEndian 32 x) 0 (toBigEndian_bytes_ok _ _)) as Hf.
  rewrite length_toBigEndian in Hf. set (f := FixedHash.firstBitSet_from 0 _) in *.
  assert (0 <= f / 8 <= 32); [|lia].
  split; [apply Z.div_pos; lia|]. apply Z.div_le_upper_bound; lia.
Qed.

Lemma EXP_ok s : wfd s -> fetched EXP s ->
  wp case_EXP (goes_on EXP s) (fails (m_io_gas s)) s.
Proof.
  vm_start_at EXP. unfold case_EXP. do 2 vm_step'. unfold m_schedule.
  pose proof (slot_range _ (m_SP s - 1) Hst) as Hx. set (x := slot _ _) in *.
  pose proof (exp_gas_range x Hx) as Hb. set (b := 32 - _) in *.
  assert (0 <= expByteGas (evmSchedule (W:=W)) * b <= 2 ^ 24 * 32) by (apply mul_range; lia).
  rewrite (wrap_small 32 b) by (unfold in_range; lia).
  rewrite (wrap_small 32 (_ * b)) by (unfold in_range; lia).
  rewrite wrap_small by (unfold in_range; lia).
  repeat vm_step'. vm_next. unfold x in Hx. rewrite exp256_spec by done.
  apply insert_range; [done|]. by apply (wrap_range 256).
Qed.

Lemma log_topics_ok n : forall k Q E s, 0 <= k -> -1 <= m_SP s - k - Z.of_nat n + 1 ->
  m_SP s < 1024 -> (forall ts, Q ts s) -> wp (log_topics k n) Q E s.
Proof.
  induction n as [|n IH]; intros k Q E s Hk Hsp Hsp' HQ; cbn [log_topics]; [by apply wp_ret|].
  apply wp_bind, wp_top; [lia|]. apply wp_bind, IH; try lia. intros ts. apply wp_ret, HQ.
Qed.

Lemma LOG_ok op n s : wfd s -> fetched op s -> (n <= 4)%nat ->
  to_byte op - to_byte LOG0 = Z.of_nat n ->
  metric_args (metric op) = 2 + Z.of_nat n -> metric_ret (metric op) = 0 ->
  wp (case_LOG n) (goes_on op s) (fails (m_io_gas s)) s.
Proof.
  vm_start. schedule_facts SOK. unfold case_LOG, logGasMem. do 3 vm_step'. rewrite Hop.
  match goal with HH : to_byte op - _ = _ |- _ => rewrite HH end.
  do 2 vm_step'. unfold m_schedule. pose proof (slot_range _ (m_SP s - 1) Hst) as Hx.
  set (x := slot _ _) in *. unfold in_range in Hx.
  assert (0 <= logDataGas (evmSchedule (W:=W)) * x <= 2 ^ 31 * 2 ^ 256) by (apply mul_range; lia).
  assert (0 <= logTopicGas (evmSchedule (W:=W)) * Z.of_nat n <= 2 ^ 24 * 4) by (apply mul_range; lia).
  rewrite (wrap_small 32 (Z.of_nat n)) by (unfold in_range; lia).
  rewrite (wrap_small 32 (logTopicGas _ * _)) by (unfold in_range; lia).
  rewrite (wrap_small 32 (logGas _ + _)) by (unfold in_range; lia).
  rewrite (wrap_small 512 (logDataGas _ * _)) by (unfold in_range; lia).
  rewrite wrap_small by (unfold in_range; lia). repeat vm_step'.
  apply log_topics_ok; vm_proj; try lia. intros ts. repeat vm_step'. mem_access.
  apply wp_mem_ref_safe; vm_proj; auto; try lia. intros. unfold ext_log. repeat vm_step'.
  vm_next. by apply ext_inv_sub.
Qed.

(** *** The switch *)

(** The instructions that do not simply go on to the next byte. *)
Definition is_special (op : Instruction.t) : bool :=
  is_push op ||
  match op with
  | CREATE | DELEGATECALL | STATICCALL | CALL | CALLCODE | RETURN | REVERT | SUICIDE | STOP
  | PUSHC | JUMP | JUMPI | JUMPC | JUMPCI => true
  | _ => false
  end.

Lemma plain_ok op s : is_special op = false -> wfd s -> fetched op s -> in_range 64 (m_PC s) ->
  wp (switch op) (goes_on op s) (fails (m_io_gas s)) s.
Proof.
  intros Hsp Hw Hf Hpc. pose proof (wfd_gas _ Hw : 0 <= _ < _) as Hio.
  destruct op; try discriminate Hsp; cbn [switch];
  lazymatch goal with
  | |- wp throwBadInstruction _ _ _ => apply wp_throw, fails_intro; lia
  | |- wp case_BLOCKHASH _ _ _ => apply unop_ok; auto; [tier_ok|range_ok]
  | |- wp (binop _) _ _ _ => apply binop_ok; auto; [tier_ok|range_ok]
  | |- wp (unop _) _ _ _ => apply unop_ok; auto; [tier_ok|range_ok]
  | |- wp (ternop _) _ _ _ => apply ternop_ok; auto; [tier_ok|range_ok]
  | |- wp (pushop _) _ _ _ => apply pushop_ok; auto; [tier_ok|push_ok]
  | |- wp (case_LOG _) _ _ _ => apply LOG_ok; auto; lia
  | |- wp (case_COPY _) _ _ _ => apply COPY_ok; auto; [tier_ok|]
  | |- wp case_DUP _ _ _ => apply DUP_ok; auto; [tier_ok|by vm_compute]
  | |- wp case_SWAP _ _ _ => apply SWAP_ok; auto; [tier_ok|by vm_compute]
  | |- wp case_MLOAD _ _ _ => apply MLOAD_ok; auto; tier_ok
  | |- wp case_MSTORE _ _ _ => apply MSTORE_ok; auto; tier_ok
  | |- wp case_MSTORE8 _ _ _ => apply MSTORE8_ok; auto; tier_ok
  | |- wp case_CALLDATALOAD _ _ _ => apply CALLDATALOAD_ok; auto; tier_ok
  | |- wp case_POP _ _ _ => apply POP_ok; auto; tier_ok
  | |- _ => eauto using SHA3_ok, EXTCODECOPY_ok, BALANCE_ok, EXTCODESIZE_ok, SLOAD_ok, SSTORE_ok,
              JUMPDEST_ok, EXP_ok
  end.
  all: intros s' Q E Hc HQ; apply wp_face; rewrite Hc;
    destruct (ext_inv_range _ (wfd_ctx _ Hw)) as (? & ? & ? & ? & ? & ? & _); apply HQ; auto; lia.
Qed.

(** *** Instructions that end the execution *)
Definition halts (s : VM W) : flow -> VM W -> Prop := fun k s' =>
  k = Return /\ m_bounce s' = None /\ 0 <= m_io_gas s' <= m_io_gas s /\ bytes_ok (m_output s') /\
  ext_inv (m_ctx s').

Lemma STOP_ok s : wfd s -> fetched STOP s -> bytes_ok (m_output s) ->
  wp case_STOP (halts s) (fails (m_io_gas s)) s.
Proof.
  vm_start_at STOP. unfold case_STOP.
  assert (m_runGas s = 0) as Hz.
  { rewrite Hgas. unfold tier_gas, m_schedule.
    by destruct (so_tiers _ SOK) as (? & ? & ? & ? & ? & ? & ? & -> & _). }
  repeat vm_step'. unfold halts. vm_proj. auto with lia.
Qed.

Lemma RETURN_ok s : wfd s -> fetched RETURN s ->
  wp case_RETURN (halts s) (fails (m_io_gas s)) s.
Proof.
  vm_start_at RETURN. unfold case_RETURN.
  assert (m_runGas s = 0) as Hz.
  { rewrite Hgas. unfold tier_gas, m_schedule.
    by destruct (so_tiers _ SOK) as (? & ? & ? & ? & ? & ? & ? & -> & _). }
  repeat vm_step'. mem_access.
  apply wp_mem_ref_safe; vm_proj; auto; try lia. intros. repeat vm_step'.
  unfold halts. vm_proj. auto with lia.
Qed.

Lemma SUICIDE_ok s : wfd s -> fetched SUICIDE s -> bytes_ok (m_output s) ->
  wp case_SUICIDE (halts s) (fails (m_io_gas s)) s.
Proof.
  vm_start_at SUICIDE. unfold case_SUICIDE. do 3 vm_step'. unfold m_schedule. repeat vm_step'.
  vm_ctx ext_balance_ok. intros v e [Hv He].
  assert (forall g e', 0 <= g < 2 ^ 32 -> ext_inv e' ->
    wp (charge;; ctx (ext_suicide (asAddress (slot (m_stackSpace s) (m_SP s))));;
        set_bounce None;; BREAK) (halts s) (fails (m_io_gas s))
      (set_m_runGas g (set_m_ctx e' s))) as Hrest.
  { intros g e' Hg' He'. repeat vm_step'. vm_ctx ext_suicide_ok. intros [] e2 He2.
    repeat vm_step'. unfold halts. vm_proj. auto with lia. }
  repeat vm_step'. case_match; [|vm_step; apply Hrest; auto; vm_proj; lia].
  case_match; [|vm_step; apply Hrest; auto; vm_proj; lia].
  vm_step. vm_ctx ext_exists_ok. intros b e2 He2.
  destruct b; cbn [negb]; [vm_step; apply Hrest; auto; vm_proj; lia|].
  do 3 vm_step'. rewrite wrap_small by (unfold in_range; lia). apply Hrest; auto. lia.
Qed.
End Safe.
