(* ===== verification/ScVmCalls.v ===== *)
(** * Safety of the instructions that call out

    [caseCreate], [caseCallSetup] and [caseCall]: they stay inside the stack and
    the memory, and whatever the callee hands back, the machine ends up with
    strictly less gas than before the instruction. *)

From S2P Require Import Prelude ScFixedHash ScSha3 ScInstruction ScVm ScVmLogic ScVmArith ScVmSafe.
Import Instruction.

Section Calls.
Context {W : Type} `{EX : !ExtVMOps W} `{EL : !ExtVMLaws W} `{PL : !Platform}.
Implicit Types (s : VM W).

(** The call returns to the interpreter at the next byte. *)
Definition resumes (op : Instruction.t) (s s' : VM W) : Prop :=
  next op (set_m_bounce (Some InterpretCases) s) s'.

Lemma caseCreate_ok s : wfd s -> fetched CREATE s ->
  wp caseCreate (fun _ => resumes CREATE s) (fails (m_io_gas s)) s.
Proof.
  vm_start_at CREATE. unfold caseCreate. repeat vm_step'. unfold m_schedule. repeat vm_step'.
  case_match; [vm_step'|]. vm_step. vm_step'. repeat vm_step'.
  vm_ctx ext_balance_ok. intros v e [Hv He]. repeat vm_step'.
  set (io := m_io_gas s - run). assert (0 <= io < m_io_gas s) as Hio by (unfold io; lia).
  case_match.
  - repeat vm_step'. set (cg := if staticCallDepthLimit _ then io else _).
    assert (0 <= cg <= io) as Hcg.
    { unfold cg. case_match; [lia|].
      assert (0 <= io / 64 <= io) by (split; [apply Z.div_pos|apply Z.div_le_upper_bound]; lia).
      rewrite wrap_small by (unfold in_range; lia). lia. }
    mem_access. apply wp_mem_ref_safe; vm_proj; auto; try lia. intros init Hi Hlen. vm_step.
    vm_ctx ext_create_ok; [lia|]. intros [c g] e' [Hg' He']. simpl in Hg'. repeat vm_step'.
    rewrite (wrap_small 256 (cg - g)) by (unfold in_range; lia).
    rewrite (wrap_small 256 (io - _)), (wrap_small 64 (io - _)) by (unfold in_range; lia).
    split; vm_proj; try reflexivity; try lia. vm_wfd.
    apply insert_range; [done|]. apply (in_range_mono 160); [lia|apply u160_view_range].
  - repeat vm_step'. split; vm_proj; try reflexivity; try lia. vm_wfd.
Qed.

(** The members the call instructions leave alone. *)
Record frame (s s' : VM W) : Prop := {
  fr_code : m_code s' = m_code s;
  fr_pool : m_pool s' = m_pool s;
  fr_jumpDests : m_jumpDests s' = m_jumpDests s;
  fr_caseInit : m_caseInit s' = m_caseInit s;
  fr_bounce : m_bounce s' = m_bounce s;
  fr_out : m_output s' = m_output s;
  fr_PC : m_PC s' = m_PC s
}.

Definition is_call (op : Instruction.t) : Prop := op = CALL \/ op = CALLCODE \/ op = DELEGATECALL.

(** Runs up to the next [toInt63]. *)
Ltac to_gas :=
  repeat lazymatch goal with |- wp (toInt63 _) _ _ _ => fail | _ => vm_step' end.

(** The value that is transferred, read from the stack. *)
Definition call_value (op : Instruction.t) (s : VM W) : Z :=
  if eqb op DELEGATECALL then 0 else slot (m_stackSpace s) (m_SP s - 2).

(** The gas the setup sets aside for the callee, stipend included, is less than
    what was there before. *)
Definition setup_post (op : Instruction.t) (s : VM W)
    (r : bool * CallParameters * Z * Z) (s' : VM W) : Prop :=
  let '(ok, params, outOff, outSize) := r in
  wfd s' /\ frame s s' /\ m_SP s' = m_SP s - metric_args (metric op) /\
  0 <= call_gas params /\ m_io_gas s' + call_gas params < m_io_gas s /\
  (ok = true -> 0 <= outOff /\ 0 <= outSize /\ (0 < outSize -> outOff + outSize <= size (m_mem s'))).

(** The prices known before memory: [callGas], the new account, the transfer. *)
Definition price_post (op : Instruction.t) (s : VM W) (_ : unit) (s' : VM W) : Prop :=
  exists g e, s' = set_m_runGas g (set_m_ctx e s) /\ ext_inv e /\
    callGas evmSchedule <= g < 2 ^ 34 /\
    (0 < call_value op s -> callGas evmSchedule + callValueTransferGas evmSchedule <= g).

Lemma caseCallSetup_ok op s : is_call op -> wfd s -> fetched op s ->
  wp caseCallSetup (setup_post op s) (fails (m_io_gas s)) s.
Proof.
  intros Hcall. vm_start. schedule_facts SOK. unfold caseCallSetup, m_schedule.
  assert (eqb op DELEGATECALL = true /\ metric_args (metric op) = 6 \/
          eqb op DELEGATECALL = false /\ metric_args (metric op) = 7) as Hargs.
  { destruct Hcall as [->|[->| ->]]; [right|right|left]; done. }
  do 6 vm_step'. rewrite Hop.
  apply (wp_seq (fun _ s' => exists g e, s' = set_m_runGas g (set_m_ctx e s) /\ ext_inv e /\
    callGas evmSchedule <= g < 2 ^ 33)).
  { assert (exists g e, set_m_runGas (callGas evmSchedule) s = set_m_runGas g (set_m_ctx e s) /\
      ext_inv e /\ callGas evmSchedule <= g < 2 ^ 33) as Hsame.
    { exists (callGas evmSchedule), (m_ctx s). repeat split; auto; lia. }
    case_match; [|by vm_step]. do 2 vm_step'. vm_step. vm_ctx ext_exists_ok. intros b e He.
    destruct b; cbn [negb].
    { vm_step. exists (callGas evmSchedule), e. repeat split; auto; lia. }
    do 2 vm_step'. case_match.
    - do 5 vm_step'. rewrite wrap_small by (unfold in_range; lia).
      eexists _, e. split; [reflexivity|]. split; [done|]. lia.
    - vm_step. exists (callGas evmSchedule), e. repeat split; auto; lia. }
  intros [] s1 (g & e & -> & He & Hgr).
  apply (wp_seq (price_post op s)).
  { unfold price_post, call_value. destruct (eqb op DELEGATECALL); cbn [negb].
    - vm_step. exists g, e. repeat split; auto; simpl; lia.
    - do 2 vm_step'. case_match.
      + do 5 vm_step'. rewrite wrap_small by (unfold in_range; lia).
        eexists _, e. split; [reflexivity|]. split; [done|]. lia.
      + vm_step. exists g, e. repeat split; auto; lia. }
  clear g e He Hgr. intros [] s1 (g & e & -> & He & Hgr & Hprice).
  unfold call_value in Hprice.
  destruct Hargs as [[Hd Hm']|[Hd Hm']]; rewrite Hd in *; rewrite Hm' in *; cbn [negb];
  to_gas; set (cg := if staticCallDepthLimit _ then _ else _);
  (assert (0 <= cg) as Hcg0 by
    (unfold cg; slot_facts; case_match; [lia|]; unfold wrap;
     pose proof (Z.mod_pos_bound (m_io_gas s - run - (m_io_gas s - run) / 64) (2 ^ 64)); lia));
  clearbody cg; repeat vm_step';
  vm_ctx ext_balance_ok; intros v e2 [Hv He2]; repeat vm_step';
  set (cg' := if 0 <? _ then u256 _ else cg);
  (assert (0 <= cg' /\ m_io_gas s - run - cg + cg' < m_io_gas s) as Hcg' by
    (unfold cg'; revert Hprice; match goal with |- context [0 <? ?x] => destruct (Z.ltb_spec 0 x) end;
     rewrite ?wrap_small by (unfold in_range; lia); lia));
  clearbody cg'; (case_match; [|vm_step]).
  2,4: split; [vm_wfd|]; split; [done|]; vm_proj; cbn [call_gas]; auto with lia.
  all: repeat vm_step'; revert Hneed Hneed0; mem_access; intros Hneed Hneed0.
  all: apply wp_mem_ref_safe; vm_proj; auto; try lia; intros inp Hinp Hlen; vm_step.
  all: split; [vm_wfd|]; split; [done|]; vm_proj; cbn [call_gas]; auto with lia.
Qed.

Lemma caseCall_ok op s : is_call op -> wfd s -> fetched op s ->
  wp caseCall (fun _ => resumes op s) (fails (m_io_gas s)) s.
Proof.
  intros Hcall Hw Hf. assert (metric_ret (metric op) = 1) as Hmr
    by (destruct Hcall as [->|[->| ->]]; done).
  pose proof (fe_SP _ _ Hf). pose proof (fe_args _ _ Hf) as Ha. pose proof (fe_ret _ _ Hf).
  pose proof (wfd_gas _ Hw : 0 <= _ < _) as Hio0.
  assert (6 <= metric_args (metric op)) by (destruct Hcall as [->|[->| ->]]; done).
  unfold caseCall. do 2 vm_step. eapply wp_seq.
  { apply (caseCallSetup_ok op (set_m_bounce (Some InterpretCases) s)); auto.
    - by destruct Hw; split.
    - by destruct Hf; split. }
  intros [[[ok p] outOff] outSize] s1 (Hw1 & Hfr & Hsp & Hcg & Hsum & Hout).
  revert Hsp Hsum. vm_proj. intros Hsp Hsum. destruct Hw1 as [Hl Hst Hg Hm Hm32 Hm64 Hc].
  pose proof (Hg : 0 <= _ < _) as Hio1.
  assert (forall g mem st e, 0 <= g <= call_gas p -> bytes_ok mem -> length mem = length (m_mem s1) ->
    Forall (in_range 256) st -> length st = 1025%nat -> ext_inv e ->
    wp (io ← gets m_io_gas; modify (set_m_io_gas (u64 (io + u64 g)));; NEXT_PC)
       (fun _ => resumes op s) (fails (m_io_gas s))
       (set_m_stackSpace st (set_m_SP (m_SP s1 + 1) (set_m_mem mem (set_m_ctx e s1))))) as Hrest.
  { intros g mem st e Hgg Hmok Hlen Hst' Hl' He. repeat vm_step'.
    rewrite (wrap_small 64 g), (wrap_small 64 (_ + g)) by (unfold in_range; lia).
    destruct Hfr. split; vm_proj; try congruence; try lia.
    split; vm_proj; auto; try (unfold in_range; lia); try congruence; lia. }
  destruct ok.
  - specialize (Hout eq_refl) as (Ho & Hs & Hb). vm_step. vm_step. vm_ctx ext_call_ok.
    intros [out g] e (Hgg & Ho' & He). simpl in Hgg, Ho'. destruct out as [o|].
    + vm_step. apply wp_mem_write_safe; vm_proj; auto using bytes_ok_take.
      { rewrite length_take. lia. }
      intros mem Hmok Hlen. do 3 vm_step'. apply Hrest; auto.
      * apply insert_range; auto. unfold in_range. lia.
      * by rewrite length_insert.
    + do 3 vm_step'. apply (Hrest g (m_mem s1)); auto with word. by rewrite length_insert.
  - do 4 vm_step'. apply (Hrest _ (m_mem s1) _ (m_ctx s1)); auto with word; [lia|].
    by rewrite length_insert.
Qed.
End Calls.
