(* ===== verification/ScVmOpt.v ===== *)
(** * The code optimiser

    What [VM::optimize] leaves behind: the table of jump destinations, the code
    in which synthetic instructions of the user are disarmed, and the rewriting
    of pushes and constant jumps, described instruction by instruction
    ([opt_ok]). *)

From Stdlib Require Import Sorted.
From stdpp Require Import sorting.
From S2P Require Import Prelude ScFixedHash ScSha3 ScInstruction ScVm ScVmLogic ScVmArith.
Import Instruction.

(** ** Instruction boundaries of a code *)

(** The length of the instruction that begins with byte [b]. *)
Definition instr_len (b : Z) : Z :=
  if is_push (of_byte b) then push_size (of_byte b) + 1 else 1.

(** The offsets at which a sequential reading of [c] finds instructions; the
    last one is the first offset at or after the end of the code. *)
Inductive boundary (c : bytes) : Z -> Prop :=
| boundary_0 : boundary c 0
| boundary_S pc : boundary c pc -> pc < size c -> boundary c (pc + instr_len (nthz c pc)).

Lemma push_size_range op : is_push op = true -> 1 <= push_size op <= 32.
Proof.
  unfold is_push, push_size. intros [H1 H2]%andb_true_iff. simpl (to_byte PUSH1) in *.
  simpl (to_byte PUSH32) in *. lia.
Qed.

Lemma instr_len_range b : 1 <= instr_len b <= 33.
Proof.
  unfold instr_len. destruct (is_push (of_byte b)) eqn:E; [|lia].
  apply push_size_range in E. lia.
Qed.

Lemma boundary_nonneg c pc : boundary c pc -> 0 <= pc.
Proof. induction 1; [lia|]. pose proof (instr_len_range (nthz c pc)). lia. Qed.

(** Instructions do not overlap. *)
Lemma boundary_gap_aux c (n : nat) : forall p q, q < Z.of_nat n ->
  boundary c p -> boundary c q -> p < q -> p + instr_len (nthz c p) <= q.
Proof.
  induction n as [|n IH]; intros p q Hn Hp Hq Hlt.
  { pose proof (boundary_nonneg _ _ Hp). lia. }
  destruct Hq as [|q0 Hq0 Hq0n]; [pose proof (boundary_nonneg _ _ Hp); lia|].
  pose proof (instr_len_range (nthz c q0)).
  destruct (Z.lt_trichotomy p q0) as [Hc|[->|Hc]]; [|lia|].
  { pose proof (IH p q0 ltac:(lia) Hp Hq0 Hc). lia. }
  (* [q0 < p < q0 + len]: the predecessor of [p] is then no other than [q0] *)
  destruct Hp as [|p0 Hp0 Hp0n]; [pose proof (boundary_nonneg _ _ Hq0); lia|].
  pose proof (instr_len_range (nthz c p0)).
  destruct (Z.lt_trichotomy p0 q0) as [Hc'|[->|Hc']]; [|lia|].
  - pose proof (IH p0 q0 ltac:(lia) Hp0 Hq0 Hc'). lia.
  - pose proof (IH q0 p0 ltac:(lia) Hq0 Hp0 Hc'). lia.
Qed.

Lemma boundary_gap c p q : boundary c p -> boundary c q -> p < q -> p + instr_len (nthz c p) <= q.
Proof.
  intros. apply (boundary_gap_aux c (Z.to_nat (q + 1))); auto.
  pose proof (boundary_nonneg c q). lia.
Qed.

Lemma boundary_le c q : boundary c q -> q <= size c + 32.
Proof. destruct 1 as [|pc]; [lia|]. pose proof (instr_len_range (nthz c pc)). lia. Qed.

(** The predecessor of a boundary. *)
Lemma boundary_pred c p q : boundary c p -> p < size c -> boundary c q ->
  p + instr_len (nthz c p) = q + instr_len (nthz c q) -> q = p.
Proof.
  intros Hp Hpn Hq E. pose proof (instr_len_range (nthz c p)). pose proof (instr_len_range (nthz c q)).
  destruct (Z.lt_trichotomy p q) as [Hc|[->|Hc]]; [|done|].
  - pose proof (boundary_gap c p q Hp Hq Hc). lia.
  - pose proof (boundary_gap c q p Hq Hp Hc). lia.
Qed.

(** ** The value a push instruction pushes *)

(** The [k] bytes of [c] at [i], zero beyond the end. *)
Definition operand (c : bytes) (i : Z) (k : nat) : bytes :=
  (fun j => nthz c (i + Z.of_nat j)) <$> seq 0 k.

Definition push_val (c : bytes) (pc : Z) : Z :=
  be_value 0 (operand c (pc + 1) (Z.to_nat (push_size (of_byte (nthz c pc))))).

Lemma operand_S c i k : operand c i (S k) = nthz c i :: operand c (i + 1) k.
Proof.
  unfold operand. simpl. rewrite Z.add_0_r. f_equal. rewrite <- seq_shift, <- list_fmap_compose.
  apply list_fmap_ext. intros j x _. simpl. f_equal. lia.
Qed.

Lemma operand_bytes_ok c i k : bytes_ok c -> bytes_ok (operand c i k).
Proof.
  intros Hc. unfold operand. apply Forall_fmap, Forall_forall. intros j _. simpl.
  by apply nthz_byte.
Qed.
Lemma length_operand c i k : length (operand c i k) = k.
Proof. unfold operand. by rewrite length_fmap, length_seq. Qed.

Lemma operand_ext c c' i k :
  (forall j, i <= j < i + Z.of_nat k -> nthz c j = nthz c' j) -> operand c i k = operand c' i k.
Proof.
  intros H. apply list_fmap_ext. intros n x Hx. apply lookup_seq in Hx as [-> ?]. apply H. lia.
Qed.

(** ** The table of jump destinations *)
Definition is_jumpdest (c : bytes) (pc : Z) : Prop :=
  boundary c pc /\ of_byte (nthz c pc) = JUMPDEST.

(** [l] lists the jump destinations before [pc] in ascending order. *)
Definition jumpdests_to (c : bytes) (pc : Z) (l : list Z) : Prop :=
  StronglySorted Z.lt l /\ forall x, x ∈ l <-> is_jumpdest c x /\ x < pc.

Lemma jumpdest_lt c x : is_jumpdest c x -> x < size c.
Proof.
  intros [Hb Hx]. destruct (Z.lt_ge_cases x (size c)); [done|].
  rewrite nthz_beyond in Hx by lia. discriminate Hx.
Qed.

(** What the first loop makes of a byte at a boundary. *)
Definition lowered (b : Z) : Z := if is_synthetic (of_byte b) then to_byte BAD else b.

(** The code after the first loop, up to [pc]. *)
Record pass1_to (c : bytes) (pc : Z) (code : bytes) : Prop := {
  p1_len : length code = (length c + 33)%nat;
  p1_ok : bytes_ok code;
  p1_op q : boundary c q -> q < pc -> nthz code q = lowered (nthz c q);
  p1_arg q j : boundary c q -> q < pc -> q < j < q + instr_len (nthz c q) -> nthz code j = nthz c j;
  p1_rest j : pc <= j -> nthz code j = nthz c j
}.

Lemma StronglySorted_snoc l x :
  StronglySorted Z.lt l -> (forall y, y ∈ l -> y < x) -> StronglySorted Z.lt (l ++ [x]).
Proof.
  induction 1 as [|y l Hl IH Hy]; intros Hx; simpl; [repeat constructor|].
  constructor; [apply IH; set_solver|]. apply Forall_app. split; [done|].
  constructor; [|constructor]. apply Hx. set_solver.
Qed.

Lemma jumpdests_step c pc l : boundary c pc -> jumpdests_to c pc l ->
  jumpdests_to c (pc + instr_len (nthz c pc))
    (if eqb (of_byte (nthz c pc)) JUMPDEST then l ++ [pc] else l).
Proof.
  intros Hb [Hs Hl]. pose proof (instr_len_range (nthz c pc)) as Hi.
  assert (forall x, is_jumpdest c x -> pc < x -> pc + instr_len (nthz c pc) <= x) as Hgap.
  { intros x [Hx _]. by apply boundary_gap. }
  destruct (eqb _ _) eqn:E.
  - assert (is_jumpdest c pc) as Hj by (split; [done|]; by apply eqb_of_byte in E).
    split; [apply StronglySorted_snoc; [done|]; intros y Hy; apply Hl in Hy; lia|].
    intros x. rewrite elem_of_app, Hl, list_elem_of_singleton. split.
    + intros [[Hx ?]| ->]; split; auto; lia.
    + intros [Hx Hlt]. destruct (Z.lt_trichotomy x pc) as [?|[->|Hc]]; auto.
      pose proof (Hgap x Hx Hc). lia.
  - split; [done|]. intros x. rewrite Hl. split; intros [Hx Hlt]; split; auto; [lia|].
    destruct (Z.lt_trichotomy x pc) as [?|[->|Hc]]; auto.
    + destruct Hx as [_ Hx]. apply (eqb_of_byte _ JUMPDEST) in Hx; [congruence|done].
    + pose proof (Hgap x Hx Hc). lia.
Qed.

Lemma pass1_step c pc code code' : bytes_ok c -> boundary c pc -> pc < size c -> pass1_to c pc code ->
  code' = (if is_synthetic (of_byte (nthz c pc)) then <[Z.to_nat pc := to_byte BAD]> code else code) ->
  pass1_to c (pc + instr_len (nthz c pc)) code'.
Proof.
  intros Hc Hb Hn [Hlen Hok Hop Harg Hrest] ->. pose proof (boundary_nonneg _ _ Hb) as H0.
  pose proof (instr_len_range (nthz c pc)) as Hi. set (code' := if is_synthetic _ then _ else _).
  assert (forall j, 0 <= j -> nthz code' j =
    if decide (j = pc) then lowered (nthz code pc) else nthz code j) as Hat.
  { intros j Hj. unfold code', lowered. rewrite (Hrest pc) by lia.
    destruct (is_synthetic _) eqn:E; [rewrite nthz_insert by lia|]; repeat case_decide; try done.
    subst. by rewrite Hrest by lia. }
  assert (forall q, boundary c q -> q < pc + instr_len (nthz c pc) -> q <= pc) as Hbefore.
  { intros q Hq Hlt. destruct (Z.lt_ge_cases pc q) as [Hc'|]; [|lia].
    pose proof (boundary_gap c pc q Hb Hq Hc'). lia. }
  split.
  - unfold code'. case_match; [rewrite length_insert|]; done.
  - unfold code'. case_match; [|done]. apply Forall_insert; [done|]. unfold is_byte. simpl. lia.
  - intros q Hq Hlt. specialize (Hbefore q Hq Hlt). rewrite Hat by (by eapply boundary_nonneg).
    case_decide; [subst; by rewrite Hrest by lia|]. apply Hop; [done|lia].
  - intros q j Hq Hlt Hj. specialize (Hbefore q Hq Hlt). pose proof (boundary_nonneg _ _ Hq).
    rewrite Hat by lia. destruct (Z.eq_dec q pc) as [->|].
    + rewrite decide_False by lia. apply Hrest. lia.
    + pose proof (boundary_gap c q pc Hq Hb ltac:(lia)). rewrite decide_False by lia.
      apply (Harg q); auto. lia.
  - intros j Hj. rewrite Hat by lia. rewrite decide_False by lia. apply Hrest. lia.
Qed.

(** ** What the second loop makes of an instruction *)

(** The instruction at [p] is a push and the next one is at [q]. *)
Definition pushes_to (c : bytes) (p q : Z) : Prop :=
  boundary c p /\ p < size c /\ is_push (of_byte (nthz c p)) = true /\
  q = p + instr_len (nthz c p).

(** The byte at a boundary: as the first loop left it, or a constant jump whose
    destination has been verified. *)
Inductive opt_head (c : bytes) (jd : list Z) (code : bytes) (q : Z) : Prop :=
| head_same : nthz code q = lowered (nthz c q) -> opt_head c jd code q
| head_jumpc p : of_byte (nthz c q) = JUMP -> nthz code q = to_byte JUMPC ->
    pushes_to c p q -> 0 <= jump_dest jd (push_val c p) -> opt_head c jd code q
| head_jumpci p : of_byte (nthz c q) = JUMPI -> nthz code q = to_byte JUMPCI ->
    pushes_to c p q -> 0 <= jump_dest jd (push_val c p) -> opt_head c jd code q.

(** The instruction at a boundary with its operand, or a push of a pooled
    constant. *)
Inductive opt_at (c : bytes) (jd pool : list Z) (code : bytes) (q : Z) : Prop :=
| opt_same : opt_head c jd code q ->
    (forall j, q < j < q + instr_len (nthz c q) -> nthz code j = nthz c j) -> opt_at c jd pool code q
| opt_pushc : is_push (of_byte (nthz c q)) = true -> 1 < push_size (of_byte (nthz c q)) ->
    nthz code q = to_byte PUSHC -> 0 <= nthz code (q + 1) < 256 ->
    nthz code (q + 2) = push_size (of_byte (nthz c q)) - 1 ->
    nthz pool (nthz code (q + 1)) = push_val c q -> opt_at c jd pool code q.

Record pass2_to (c : bytes) (jd : list Z) (code1 : bytes) (pc : Z)
    (empty : list bool) (pool : list Z) (code : bytes) : Prop := {
  p2_len : length code = (length c + 33)%nat;
  p2_ok : bytes_ok code;
  p2_pool : length pool = 256%nat;
  p2_empty : length empty = 256%nat;
  p2_done q : boundary c q -> q < pc -> opt_at c jd pool code q;
  p2_used q : boundary c q -> q < pc -> nthz code q = to_byte PUSHC ->
    nth (Z.to_nat (nthz code (q + 1))) empty false = false;
  p2_here : opt_head c jd code pc;
  p2_rest j : pc < j -> nthz code j = nthz code1 j
}.

(** The result of the optimiser. *)
Record opt_ok (c : bytes) (jd pool : list Z) (code : bytes) : Prop := {
  oo_len : length code = (length c + 33)%nat;
  oo_ok : bytes_ok code;
  oo_at q : boundary c q -> q < size c -> opt_at c jd pool code q;
  oo_end q : boundary c q -> size c <= q -> nthz code q = 0;
  oo_jd : jumpdests_to c (size c) jd
}.

Lemma opt_head_local c jd code code' q :
  nthz code' q = nthz code q -> opt_head c jd code q -> opt_head c jd code' q.
Proof.
  intros E [H|p H1 H2 H3 H4|p H1 H2 H3 H4];
    [apply head_same|apply (head_jumpc _ _ _ _ p)|apply (head_jumpci _ _ _ _ p)]; congruence.
Qed.

Lemma opt_at_local c jd pool pool' code code' q :
  (forall j, q <= j < q + instr_len (nthz c q) -> nthz code' j = nthz code j) ->
  (nthz code q = to_byte PUSHC -> nthz pool' (nthz code (q + 1)) = nthz pool (nthz code (q + 1))) ->
  opt_at c jd pool code q -> opt_at c jd pool' code' q.
Proof.
  intros E Hpool [Hh Ha|Hp Hk Hc Hr H2 Hv]; pose proof (instr_len_range (nthz c q)).
  - apply opt_same; [apply (opt_head_local _ _ code); [apply E; lia|done]|].
    intros j Hj. rewrite E by lia. by apply Ha.
  - assert (2 < instr_len (nthz c q)) by (unfold instr_len; rewrite Hp; lia).
    specialize (Hpool Hc).
    assert (nthz code' (q + 1) = nthz code (q + 1)) as E1 by (apply E; lia).
    apply opt_pushc; rewrite ?E1, ?(E q), ?(E (q + 2)) by lia; auto. congruence.
Qed.

Lemma lowered_push b : is_push (of_byte b) = true -> lowered b = b.
Proof.
  unfold lowered, is_push, is_synthetic, eqb. rewrite to_of_byte. cbn [to_byte].
  intros ?%andb_true_iff. case_match eqn:E; [|done]. lia.
Qed.

Lemma push_of_lowered b : is_push (of_byte (lowered b)) = true -> is_push (of_byte b) = true.
Proof. unfold lowered. case_match; [by vm_compute|done]. Qed.

(** The code after the first loop. *)
Record pass1_done (c code1 : bytes) : Prop := {
  p1d_op q : boundary c q -> nthz code1 q = lowered (nthz c q);
  p1d_arg q j : boundary c q -> q < size c -> q < j < q + instr_len (nthz c q) ->
    nthz code1 j = nthz c j
}.

Lemma pass1_end c pc code : pass1_to c pc code -> size c <= pc -> pass1_done c code.
Proof.
  intros [Hlen Hok Hop Harg Hrest] Hpc. split.
  - intros q Hq. destruct (Z.lt_ge_cases q pc); [by apply Hop|].
    rewrite Hrest, nthz_beyond by lia. done.
  - intros q j Hq Hlt Hj. apply (Harg q); auto. lia.
Qed.

Section Pass2.
Context (c : bytes) (jd : list Z) (code1 : bytes) (P1 : pass1_done c code1).
Context (pc : Z) (Hb : boundary c pc) (Hn : pc < size c).

Abbreviation pc' := (pc + instr_len (nthz c pc)).

Lemma head_not_pushc code q : opt_head c jd code q -> nthz code q <> to_byte PUSHC.
Proof.
  intros [->|p _ -> _ _|p _ -> _ _]; [|by vm_compute|by vm_compute].
  unfold lowered, is_synthetic, eqb. rewrite to_of_byte. case_match eqn:E; [by vm_compute|].
  apply orb_false_iff in E as [[E _]%orb_false_iff _]. by apply Z.eqb_neq in E.
Qed.

Lemma before_next q : boundary c q -> q < pc' -> q <= pc.
Proof.
  intros Hq Hlt. destruct (Z.lt_ge_cases pc q) as [Hc'|]; [|lia].
  pose proof (boundary_gap c pc q Hb Hq Hc'). lia.
Qed.

Lemma boundary_next : boundary c pc'.
Proof. by constructor. Qed.

(** The instruction at [pc] is left alone. *)
Lemma pass2_keep empty pool code :
  pass2_to c jd code1 pc empty pool code -> pass2_to c jd code1 pc' empty pool code.
Proof.
  intros [Hlen Hok Hpool Hemp Hdone Hused Hhere Hrest].
  pose proof (instr_len_range (nthz c pc)). split; auto.
  - intros q Hq Hlt. specialize (before_next q Hq Hlt) as Hle.
    destruct (Z.eq_dec q pc) as [->|]; [|apply Hdone; [done|lia]].
    apply opt_same; [done|]. intros j Hj. rewrite Hrest by lia. by apply (p1d_arg _ _ P1 pc).
  - intros q Hq Hlt Hp. specialize (before_next q Hq Hlt) as Hle.
    destruct (Z.eq_dec q pc) as [->|]; [|apply Hused; [done|lia|done]].
    exfalso. by apply (head_not_pushc code pc).
  - apply head_same. rewrite Hrest by lia. apply (p1d_op _ _ P1), boundary_next.
  - intros j Hj. apply Hrest. lia.
Qed.

(** The push at [pc] now reads its constant from slot [h] of the pool. *)
Lemma pass2_pool empty pool code empty' pool' h :
  is_push (of_byte (nthz c pc)) = true -> 1 < push_size (of_byte (nthz c pc)) -> 0 <= h < 256 ->
  empty' = <[Z.to_nat h := false]> empty ->
  (nth (Z.to_nat h) empty false = true /\ pool' = <[Z.to_nat h := push_val c pc]> pool \/
   nth (Z.to_nat h) empty false = false /\ pool' = pool /\ nthz pool h = push_val c pc) ->
  pass2_to c jd code1 pc empty pool code ->
  pass2_to c jd code1 pc' empty' pool'
    (<[Z.to_nat (pc + 2) := push_size (of_byte (nthz c pc)) - 1]>
      (<[Z.to_nat (pc + 1) := h]> (<[Z.to_nat pc := to_byte PUSHC]> code))).
Proof.
  intros Hp Hk Hh -> Hins [Hlen Hok Hpool Hemp Hdone Hused Hhere Hrest].
  pose proof (boundary_nonneg _ _ Hb) as H0. pose proof (push_size_range _ Hp) as Hk32.
  assert (instr_len (nthz c pc) = push_size (of_byte (nthz c pc)) + 1) as Hil
    by (unfold instr_len; by rewrite Hp).
  set (k := push_size _) in *. set (code' := <[Z.to_nat (pc + 2) := _]> _).
  assert (forall j, 0 <= j -> nthz code' j =
    if decide (j = pc) then to_byte PUSHC else if decide (j = pc + 1) then h
    else if decide (j = pc + 2) then k - 1 else nthz code j) as Hat.
  { intros j Hj. unfold code'. rewrite !nthz_insert by (rewrite ?length_insert; lia).
    repeat case_decide; try lia; done. }
  assert (nthz code' pc = to_byte PUSHC) as Hat0 by (rewrite Hat by lia; by rewrite decide_True).
  assert (nthz code' (pc + 1) = h) as Hat1
    by (rewrite Hat by lia; rewrite decide_False, decide_True by lia; done).
  assert (nthz code' (pc + 2) = k - 1) as Hat2
    by (rewrite Hat by lia; rewrite !decide_False, decide_True by lia; done).
  assert (length pool' = 256%nat) as Hpl
    by (destruct Hins as [[_ ->]|(_ & -> & _)]; rewrite ?length_insert; done).
  split; auto.
  - unfold code'. by rewrite !length_insert.
  - unfold code'. repeat apply Forall_insert; auto; unfold is_byte; simpl; lia.
  - by rewrite length_insert.
  - intros q Hq Hlt. specialize (before_next q Hq Hlt) as Hle. pose proof (boundary_nonneg _ _ Hq).
    destruct (Z.eq_dec q pc) as [->|].
    + apply opt_pushc; rewrite ?Hat0, ?Hat1, ?Hat2; auto.
      destruct Hins as [[_ ->]|(_ & -> & Hv)]; [|done].
      rewrite nthz_insert by lia. by rewrite decide_True.
    + pose proof (boundary_gap c q pc Hq Hb ltac:(lia)) as Hgap.
      apply (opt_at_local _ _ pool _ code); [| |apply Hdone; auto; lia].
      * intros j Hj. rewrite Hat by lia. by repeat rewrite decide_False by lia.
      * intros Hpc. destruct Hins as [[He ->]|(_ & -> & _)]; [|done].
        specialize (Hused q Hq ltac:(lia) Hpc).
        pose proof (nthz_byte _ (q + 1) Hok) as [? ?]. rewrite nthz_insert by lia.
        rewrite decide_False; [done|]. intros E. rewrite <- E in Hused. congruence.
  - intros q Hq Hlt. specialize (before_next q Hq Hlt) as Hle. pose proof (boundary_nonneg _ _ Hq).
    destruct (Z.eq_dec q pc) as [->|].
    + intros _. rewrite Hat1, nth_lookup, list_lookup_insert_eq by lia. done.
    + pose proof (boundary_gap c q pc Hq Hb ltac:(lia)) as Hgap.
      pose proof (instr_len_range (nthz c q)).
      rewrite (Hat q), (decide_False (P := q = pc)), !decide_False by lia. intros Hqc.
      specialize (Hused q Hq ltac:(lia) Hqc).
      assert (2 < instr_len (nthz c q)) as H2.
      { destruct (Hdone q Hq ltac:(lia)) as [Hh' _|Hp' Hk' _ _ _ _].
        - exfalso. by apply (head_not_pushc code q).
        - unfold instr_len. rewrite Hp'. lia. }
      rewrite Hat, !decide_False by lia. rewrite nth_lookup in *.
      destruct (decide (Z.to_nat h = Z.to_nat (nthz code (q + 1)))) as [<-|].
      * by rewrite list_lookup_insert_eq by lia.
      * by rewrite list_lookup_insert_ne by lia.
  - apply head_same. rewrite Hat by lia. rewrite !decide_False by lia. rewrite Hrest by lia.
    apply (p1d_op _ _ P1), boundary_next.
  - intros j Hj. rewrite Hat by lia. rewrite !decide_False by lia. apply Hrest. lia.
Qed.
End Pass2.

(** A jump after a push of a verified destination becomes a constant jump. *)
Lemma pass2_jump c jd code1 pc empty pool code (b : Z) :
  boundary c pc -> pc < size c -> is_byte b -> pass2_to c jd code1 pc empty pool code ->
  opt_head c jd (<[Z.to_nat pc := b]> code) pc ->
  pass2_to c jd code1 pc empty pool (<[Z.to_nat pc := b]> code).
Proof.
  intros Hb Hn Hbyte [Hlen Hok Hpool Hemp Hdone Hused Hhere Hrest] Hhead.
  pose proof (boundary_nonneg _ _ Hb) as H0.
  assert (forall q j, boundary c q -> q < pc -> q <= j < q + instr_len (nthz c q) ->
    nthz (<[Z.to_nat pc := b]> code) j = nthz code j) as Hat.
  { intros q j Hq Hlt Hj. pose proof (boundary_gap c q pc Hq Hb Hlt).
    pose proof (boundary_nonneg _ _ Hq). rewrite nthz_insert by lia.
    by rewrite decide_False by lia. }
  split; auto.
  - by rewrite length_insert.
  - by apply Forall_insert.
  - intros q Hq Hlt. apply (opt_at_local _ _ pool _ code); auto. intros j Hj. by apply (Hat q).
  - intros q Hq Hlt. pose proof (instr_len_range (nthz c q)).
    rewrite (Hat q q) by (auto; lia). intros Hp.
    destruct (Hdone q Hq Hlt) as [Hh _|Hpp Hk _ _ _ _].
    + exfalso. by apply (head_not_pushc c jd code q).
    + rewrite (Hat q) by (auto; unfold instr_len; rewrite ?Hpp; lia). by apply Hused.
  - intros j Hj. rewrite nthz_insert, decide_False by lia. by apply Hrest.
Qed.

Lemma pass2_const_jump c jd code1 pc q empty pool code op new :
  pushes_to c pc q -> pass2_to c jd code1 q empty pool code -> of_byte (nthz code q) = op ->
  op = JUMP /\ new = JUMPC \/ op = JUMPI /\ new = JUMPCI -> 0 <= jump_dest jd (push_val c pc) ->
  pass2_to c jd code1 q empty pool (<[Z.to_nat q := to_byte new]> code).
Proof.
  intros Hpush H2 Hop Hnew Hd. pose proof Hpush as (Hb & Hn & Hp & Hq).
  assert (boundary c q) as Hbq by (rewrite Hq; by constructor).
  pose proof (boundary_nonneg _ _ Hbq). pose proof (p2_len _ _ _ _ _ _ _ H2) as Hlen.
  assert (of_byte (nthz c q) = op) as Hcop.
  { destruct (p2_here _ _ _ _ _ _ _ H2) as [Hl|p' H1 H1' _ _|p' H1 H1' _ _];
      [|rewrite H1' in Hop; destruct Hnew as [[-> _]|[-> _]]; discriminate Hop..].
    rewrite Hl in Hop. unfold lowered in Hop. case_match; [|done].
    destruct Hnew as [[-> _]|[-> _]]; discriminate Hop. }
  assert (q < size c) as Hqn.
  { destruct (Z.lt_ge_cases q (size c)); [done|]. rewrite nthz_beyond in Hcop by lia.
    destruct Hnew as [[-> _]|[-> _]]; discriminate Hcop. }
  apply pass2_jump; auto.
  - destruct Hnew as [[_ ->]|[_ ->]]; unfold is_byte; simpl; lia.
  - assert (nthz (<[Z.to_nat q := to_byte new]> code) q = to_byte new) as Hat
      by (rewrite nthz_insert by lia; by rewrite decide_True).
    destruct Hnew as [[-> ->]|[-> ->]];
      [apply (head_jumpc _ _ _ _ pc)|apply (head_jumpci _ _ _ _ pc)]; auto.
Qed.

Lemma sorted_NoDup l : StronglySorted Z.lt l -> NoDup l.
Proof.
  induction 1 as [|x l Hl IH Hx]; constructor; [|done]. intros Hin.
  rewrite List.Forall_forall in Hx. specialize (Hx x ltac:(by apply list_elem_of_In)). lia.
Qed.

(** The table is determined by the code. *)
Lemma jumpdests_unique c n l1 l2 : jumpdests_to c n l1 -> jumpdests_to c n l2 -> l1 = l2.
Proof.
  intros [S1 H1] [S2 H2].
  apply (StronglySorted_unique_strong Z.lt); auto; [intros; lia|].
  apply NoDup_Permutation; auto using sorted_NoDup. intros x. by rewrite H1, H2.
Qed.

Section Optimize.
Context {W : Type} `{EX : !ExtVMOps W} `{PL : !Platform}.
Implicit Types (s : VM W) (E : outcome unit -> VM W -> Prop).

Lemma wp_set_code_at i b Q E s : 0 <= i < size (m_code s) ->
  Q tt (set_m_code (<[Z.to_nat i := b]> (m_code s)) s) -> wp (set_code_at i b) Q E s.
Proof.
  intros Hi HQ. unfold wp, set_code_at.
  by replace ((0 <=? i) && (i <? size (m_code s))) with true by lia.
Qed.

Lemma wp_code_nth i Q E s : 0 <= i < size (m_code s) -> Q (nthz (m_code s) i) s ->
  wp (code_at i) Q E s.
Proof. intros. eapply wp_code_at; [lia| |done]. by apply nthz_lookup. Qed.

(** The first loop. *)
Lemma build_jumpDests_ok c fuel : bytes_ok c -> forall pc Q E s,
  boundary c pc -> size c - pc <= Z.of_nat fuel -> pass1_to c pc (m_code s) ->
  jumpdests_to c pc (m_jumpDests s) ->
  (forall pc' code jd, boundary c pc' -> size c <= pc' -> pass1_to c pc' code ->
     jumpdests_to c pc' jd -> Q tt (set_m_code code (set_m_jumpDests jd s))) ->
  wp (build_jumpDests fuel (size c) pc) Q E s.
Proof.
  intros Hc. induction fuel as [|f IH]; intros pc Q E s Hb Hfuel Hp Hj HQ; cbn [build_jumpDests].
  { replace (pc <? size c) with false by lia. apply wp_ret.
    specialize (HQ pc (m_code s) (m_jumpDests s) Hb ltac:(lia) Hp Hj). by destruct s. }
  destruct (Z.ltb_spec pc (size c)) as [Hlt|Hge].
  2: { apply wp_ret. specialize (HQ pc (m_code s) (m_jumpDests s) Hb ltac:(lia) Hp Hj).
       by destruct s. }
  pose proof (boundary_nonneg _ _ Hb) as H0. pose proof (p1_len _ _ _ Hp) as Hlen.
  pose proof (p1_rest _ _ _ Hp pc ltac:(lia)) as Hat. pose proof (instr_len_range (nthz c pc)) as Hi.
  apply wp_bind, wp_code_nth; [lia|]. rewrite Hat.
  set (code' := if is_synthetic (of_byte (nthz c pc)) then <[Z.to_nat pc := to_byte BAD]> (m_code s)
                else m_code s).
  pose proof (pass1_step c pc (m_code s) code' Hc Hb Hlt Hp eq_refl) as Hp'.
  pose proof (jumpdests_step c pc _ Hb Hj) as Hj'.
  apply (wp_seq (fun _ s' => s' = set_m_code code' s)).
  { unfold code'. destruct (is_synthetic _); [apply wp_set_code_at; [lia|done]|].
    apply wp_ret. by destruct s. }
  intros [] s' ->. destruct (eqb (of_byte (nthz c pc)) JUMPDEST) eqn:Ej.
  - apply wp_bind, wp_modify. apply eqb_of_byte in Ej; [|done].
    assert (instr_len (nthz c pc) = 1) as Hl1 by (unfold instr_len; by rewrite Ej).
    rewrite Hl1 in *. apply IH; vm_proj; auto; [|lia]. rewrite <- Hl1. by constructor.
  - assert (forall m, m = pc + instr_len (nthz c pc) ->
      wp (build_jumpDests f (size c) m) Q E (set_m_code code' s)) as Hk.
    { intros m ->. apply IH; vm_proj; auto; [by constructor|lia]. }
    unfold instr_len in Hk. destruct (is_push (of_byte (nthz c pc))); apply Hk; lia.
Qed.

Lemma decode_push_ok n : forall i val h (j : nat) Q E s, bytes_ok (m_code s) ->
  0 <= i -> i + Z.of_nat n <= size (m_code s) -> (j + n <= 32)%nat ->
  0 <= val < 256 ^ Z.of_nat j ->
  (forall h', Q (be_value val (operand (m_code s) i n), h') s) -> wp (decode_push n i val h) Q E s.
Proof.
  induction n as [|n IH]; intros i val h j Q E s Hok Hi Hlen Hj Hv HQ; cbn [decode_push].
  { by apply wp_ret. }
  apply wp_bind, wp_code_nth; [lia|]. pose proof (nthz_byte _ i Hok) as Hb.
  assert (256 ^ Z.of_nat (S j) = 256 * 256 ^ Z.of_nat j) as Hpow.
  { rewrite Nat2Z.inj_succ, Z.pow_succ_r by lia. done. }
  assert (256 ^ Z.of_nat (S j) <= 2 ^ 256).
  { change (2 ^ 256) with (256 ^ 32). apply Z.pow_le_mono_r; lia. }
  unfold is_byte in Hb. rewrite wrap_small.
  2: { unfold in_range. rewrite shiftl_8. lia. }
  rewrite lor_byte by done. apply (IH _ _ _ (S j)); auto; try lia.
  intros h'. specialize (HQ h'). by rewrite operand_S in HQ.
Qed.

Lemma getHash_range h : 0 <= getHash h < 256.
Proof. unfold getHash. rewrite land_255. apply is_byte_mod. Qed.

Section Loop2.
Context (c : bytes) (Hc : bytes_ok c) (jd : list Z) (code1 : bytes) (P1 : pass1_done c code1).

(** Entering a constant in the pool. *)
Lemma wp_insertVal empty h val Q E s : 0 <= h < 256 -> length empty = 256%nat ->
  (forall pool, (nth (Z.to_nat h) empty false = true /\ pool = <[Z.to_nat h := val]> (m_pool s) \/
                 nth (Z.to_nat h) empty false = false /\ pool = m_pool s /\ nthz (m_pool s) h = val) ->
     Q (true, <[Z.to_nat h := false]> empty) (set_m_pool pool s)) ->
  Q (false, empty) s -> wp (insertVal empty h val) Q E s.
Proof.
  intros Hh Hlen Hin Hout. unfold wp, insertVal.
  destruct (nth (Z.to_nat h) empty false) eqn:He; [apply Hin; auto|].
  destruct (Z.eqb_spec (nth (Z.to_nat h) (m_pool s) 0) val) as [Hv|]; [|done].
  specialize (Hin (m_pool s)). rewrite (list_insert_id empty) in Hin.
  - assert (set_m_pool (m_pool s) s = s) as <- by (by destruct s). apply Hin. auto.
  - rewrite nth_lookup in He. destruct (lookup_lt_is_Some_2 empty (Z.to_nat h)) as [b Hb]; [lia|].
    rewrite Hb in He. simpl in He. by subst.
Qed.

(** The part of the loop's body that looks at the next instruction. *)
Lemma jump_rewrite_ok pc q empty pool code Q E s :
  pushes_to c pc q -> m_jumpDests s = jd -> pass2_to c jd code1 q empty pool code ->
  m_code s = code -> m_pool s = pool ->
  (forall code', pass2_to c jd code1 q empty pool code' -> Q empty (set_m_code code' s)) ->
  wp (b ← code_at q; let op := of_byte b in
      (if eqb op JUMP then
         d ← verifyJumpDest_nothrow (push_val c pc); when (0 <=? d) (set_code_at q (to_byte JUMPC))
       else if eqb op JUMPI then
         d ← verifyJumpDest_nothrow (push_val c pc); when (0 <=? d) (set_code_at q (to_byte JUMPCI))
       else mret tt);; mret empty) Q E s.
Proof.
  intros Hpush Hjd H2 Hcode Hpool HQ. subst code pool.
  pose proof Hpush as (Hb & Hn & Hp & Hq). pose proof (boundary_nonneg _ _ Hb) as H0.
  assert (boundary c q) as Hbq by (rewrite Hq; by constructor).
  pose proof (boundary_nonneg _ _ Hbq). pose proof (boundary_le _ _ Hbq).
  pose proof (p2_len _ _ _ _ _ _ _ H2) as Hlen.
  assert (Q empty s) as Hsame by (specialize (HQ (m_code s) H2); by destruct s).
  assert (forall op new, of_byte (nthz (m_code s) q) = op -> op = JUMP /\ new = JUMPC \/
      op = JUMPI /\ new = JUMPCI -> 0 <= jump_dest jd (push_val c pc) ->
      wp (set_code_at q (to_byte new)) (fun _ => Q empty) E s) as Hset.
  { intros op new Hop Hnew Hd. apply wp_set_code_at; [lia|]. apply HQ.
    by apply (pass2_const_jump c jd code1 pc _ _ _ _ op). }
  apply wp_bind, wp_code_nth; [lia|]. cbv zeta. apply wp_bind.
  apply (wp_mono _ (fun _ => Q empty) _ E); [|intros [] s' Hs'; exact Hs'|done].
  destruct (eqb (of_byte (nthz (m_code s) q)) JUMP) eqn:Ej.
  { apply eqb_of_byte in Ej; [|done]. apply wp_bind, wp_bind, wp_gets, wp_ret, wp_when; [|done].
    intros Hd. rewrite Hjd in Hd. apply (Hset JUMP); auto. lia. }
  destruct (eqb (of_byte (nthz (m_code s) q)) JUMPI) eqn:Ei; [|by apply wp_ret].
  apply eqb_of_byte in Ei; [|done]. apply wp_bind, wp_bind, wp_gets, wp_ret, wp_when; [|done].
  intros Hd. rewrite Hjd in Hd. apply (Hset JUMPI); auto. lia.
Qed.

Lemma optimize_push_ok pc empty Q E s :
  boundary c pc -> pc < size c -> is_push (of_byte (nthz c pc)) = true -> m_jumpDests s = jd ->
  pass2_to c jd code1 pc empty (m_pool s) (m_code s) ->
  (forall empty' pool code, pass2_to c jd code1 (pc + instr_len (nthz c pc)) empty' pool code ->
     Q empty' (set_m_code code (set_m_pool pool s))) ->
  wp (optimize_push empty pc (of_byte (nthz c pc))) Q E s.
Proof.
  intros Hb Hn Hp Hjd H2 HQ. pose proof (boundary_nonneg _ _ Hb) as H0.
  pose proof (push_size_range _ Hp) as Hk32. pose proof (p2_len _ _ _ _ _ _ _ H2) as Hlen.
  assert (instr_len (nthz c pc) = push_size (of_byte (nthz c pc)) + 1) as Hil
    by (unfold instr_len; by rewrite Hp).
  unfold optimize_push. set (k := push_size (of_byte (nthz c pc))) in *.
  assert (operand (m_code s) (pc + 1) (Z.to_nat k) = operand c (pc + 1) (Z.to_nat k)) as Hop.
  { apply operand_ext. intros j Hj. rewrite (p2_rest _ _ _ _ _ _ _ H2) by lia.
    apply (p1d_arg _ _ P1 pc); auto. lia. }
  apply wp_bind, wp_code_nth; [lia|].
  pose proof (nthz_byte _ (pc + 1) (p2_ok _ _ _ _ _ _ _ H2)) as Hbyte.
  apply wp_bind, (decode_push_ok _ _ _ _ 1);
    [by eapply p2_ok|lia|lia|lia|unfold is_byte in Hbyte; lia|]. intros h.
  replace (be_value (nthz (m_code s) (pc + 1)) (operand (m_code s) (pc + 2) (Z.to_nat (k - 1))))
    with (push_val c pc).
  2: { unfold push_val. fold k. rewrite <- Hop.
       replace (Z.to_nat k) with (S (Z.to_nat (k - 1))) by lia. rewrite operand_S. simpl.
       do 2 f_equal. lia. }
  apply (wp_seq (fun empty' s' => exists pool code, s' = set_m_code code (set_m_pool pool s) /\
    pass2_to c jd code1 (pc + instr_len (nthz c pc)) empty' pool code)).
  - assert (exists pool code, s = set_m_code code (set_m_pool pool s) /\
      pass2_to c jd code1 (pc + instr_len (nthz c pc)) empty pool code) as Hkeep.
    { exists (m_pool s), (m_code s). split; [by destruct s|]. by apply pass2_keep. }
    destruct (Z.ltb_spec 1 k); [|by apply wp_ret].
    apply wp_bind, wp_insertVal; [apply getHash_range|by eapply p2_empty| |by apply wp_ret].
    intros pool Hpool. apply wp_bind.
    apply wp_bind, wp_set_code_at; [vm_proj; lia|].
    apply wp_bind, wp_set_code_at; [vm_proj; rewrite length_insert; lia|].
    apply wp_set_code_at; [vm_proj; rewrite !length_insert; lia|]. apply wp_ret. vm_proj.
    eexists pool, _. split; [reflexivity|].
    eapply (pass2_pool c jd code1 P1 pc Hb Hn); [done|done|apply getHash_range|done|exact Hpool|exact H2].
  - intros empty' s' (pool & code & -> & H2').
    replace (pc + k + 1) with (pc + instr_len (nthz c pc)) by lia.
    apply (jump_rewrite_ok pc _ empty' pool code); auto; [by split|].
    intros code' H2''. apply (HQ _ _ _ H2'').
Qed.

(** A byte that is no push in the rewritten code was none in the user's. *)
Lemma head_not_push code q : opt_head c jd code q -> is_push (of_byte (nthz code q)) = false ->
  instr_len (nthz c q) = 1.
Proof.
  unfold instr_len. intros [Hl|p H1 _ _ _|p H1 _ _ _] Hnp; [|by rewrite H1..].
  destruct (is_push (of_byte (nthz c q))) eqn:E; [|done].
  rewrite Hl, lowered_push in Hnp by done. congruence.
Qed.
Lemma head_push code q : opt_head c jd code q -> is_push (of_byte (nthz code q)) = true ->
  nthz code q = nthz c q /\ is_push (of_byte (nthz c q)) = true.
Proof.
  intros [Hl|p _ -> _ _|p _ -> _ _] Hp; [|discriminate Hp..].
  rewrite Hl in Hp. pose proof (push_of_lowered _ Hp) as Hp'.
  split; [|done]. rewrite Hl. by apply lowered_push.
Qed.

Lemma optimize_loop_ok fuel : forall pc empty Q E s,
  boundary c pc -> size c - pc <= Z.of_nat fuel -> m_jumpDests s = jd ->
  pass2_to c jd code1 pc empty (m_pool s) (m_code s) ->
  (forall pc' empty' pool code, boundary c pc' -> size c <= pc' ->
     pass2_to c jd code1 pc' empty' pool code -> Q tt (set_m_code code (set_m_pool pool s))) ->
  wp (optimize_loop fuel empty (size c) pc) Q E s.
Proof.
  induction fuel as [|f IH]; intros pc empty Q E s Hb Hfuel Hjd H2 HQ; cbn [optimize_loop].
  { replace (pc <? size c) with false by lia. apply wp_ret.
    specialize (HQ pc empty _ _ Hb ltac:(lia) H2). by destruct s. }
  destruct (Z.ltb_spec pc (size c)) as [Hlt|Hge].
  2: { apply wp_ret. specialize (HQ pc empty _ _ Hb ltac:(lia) H2). by destruct s. }
  pose proof (boundary_nonneg _ _ Hb) as H0. pose proof (p2_len _ _ _ _ _ _ _ H2) as Hlen.
  pose proof (instr_len_range (nthz c pc)) as Hi.
  pose proof (p2_here _ _ _ _ _ _ _ H2) as Hhead.
  apply wp_bind, wp_code_nth; [lia|]. cbv zeta.
  destruct (is_push (of_byte (nthz (m_code s) pc))) eqn:Hp.
  - destruct (head_push _ _ Hhead Hp) as [-> Hp'].
    apply wp_bind, optimize_push_ok; auto. intros empty' pool code H2'.
    replace (pc + push_size (of_byte (nthz c pc)) + 1) with (pc + instr_len (nthz c pc))
      by (unfold instr_len; rewrite Hp'; lia).
    apply IH; auto; [by constructor|lia].
  - pose proof (head_not_push _ _ Hhead Hp) as Hl. apply IH; auto; [|lia|].
    + rewrite <- Hl. by constructor.
    + rewrite <- Hl. by apply pass2_keep.
Qed.
End Loop2.

Lemma pass2_init c jd code1 : bytes_ok code1 -> length code1 = (length c + 33)%nat ->
  pass1_done c code1 -> pass2_to c jd code1 0 (replicate 256 true) (replicate 256 0) code1.
Proof.
  intros Hok Hlen P1. split; auto.
  - intros q Hq ?. pose proof (boundary_nonneg _ _ Hq). lia.
  - intros q Hq ?. pose proof (boundary_nonneg _ _ Hq). lia.
  - apply head_same. apply (p1d_op _ _ P1). constructor.
Qed.

Lemma pass2_end c jd code1 pc empty pool code : pass1_done c code1 -> boundary c pc ->
  size c <= pc -> jumpdests_to c (size c) jd -> pass2_to c jd code1 pc empty pool code ->
  opt_ok c jd pool code.
Proof.
  intros P1 Hb Hge Hjd [Hlen Hok Hpool Hemp Hdone Hused Hhere Hrest].
  split; auto.
  - intros q Hq Hlt. apply Hdone; [done|lia].
  - intros q Hq Hq'. assert (q = pc) as ->.
    { destruct Hq as [|q0 Hq0 Hlt0].
      { destruct Hb as [|p0 Hp0 Hlt1]; [done|pose proof (boundary_nonneg _ _ Hp0); lia]. }
      destruct Hb as [|p0 Hp0 Hlt1]; [pose proof (boundary_nonneg _ _ Hq0);lia|].
      destruct (Z.lt_trichotomy q0 p0) as [Hc|[->|Hc]]; [|done|].
      - pose proof (boundary_gap c q0 p0 Hq0 Hp0 Hc). lia.
      - pose proof (boundary_gap c p0 q0 Hp0 Hq0 Hc). lia. }
    destruct Hhere as [Hl|p H1 _ _ _|p H1 _ _ _].
    + by rewrite Hl, (nthz_beyond c) by lia.
    + by rewrite (nthz_beyond c) in H1 by lia.
    + by rewrite (nthz_beyond c) in H1 by lia.
Qed.

(** The table of the whole code. *)
Lemma jumpdests_full c pc jd : size c <= pc -> jumpdests_to c pc jd -> jumpdests_to c (size c) jd.
Proof.
  intros Hge [Hs Hl]. split; [done|]. intros x. rewrite Hl.
  split; intros [Hx ?]; (split; [done|]); pose proof (jumpdest_lt c x Hx); lia.
Qed.

(** [copyCode] and the first loop. *)
Lemma first_loop_ok Q E s : let c := code (m_ctx s) in bytes_ok c -> m_jumpDests s = [] ->
  (forall code1 jd, pass1_done c code1 -> length code1 = (length c + 33)%nat -> bytes_ok code1 ->
     jumpdests_to c (size c) jd -> Q tt (set_m_code code1 (set_m_jumpDests jd s))) ->
  wp (build_jumpDests (Z.to_nat (size c)) (size c) 0) Q E (set_m_code (c ++ replicate 33 0) s).
Proof.
  intros c Hc Hjd HQ. apply (build_jumpDests_ok c); auto; vm_proj; try lia.
  - constructor.
  - split.
    + by rewrite length_app, length_replicate.
    + apply bytes_ok_app. split; [done|]. apply bytes_ok_replicate. unfold is_byte. lia.
    + intros q Hq ?. pose proof (boundary_nonneg _ _ Hq). lia.
    + intros q j Hq ?. pose proof (boundary_nonneg _ _ Hq). lia.
    + intros j Hj. apply nthz_app_zeros.
  - rewrite Hjd. split; [constructor|]. intros x. split; [by intros ?%elem_of_nil|].
    intros [[Hx _] ?]. pose proof (boundary_nonneg _ _ Hx). lia.
  - intros pc code1 jd Hb Hge Hp1 Hj. apply HQ; [by eapply pass1_end|by eapply p1_len|by eapply p1_ok|].
    by eapply jumpdests_full.
Qed.

(** [optimize] always returns, and leaves the code described by [opt_ok]. *)
Lemma optimize_ok Q E s : bytes_ok (code (m_ctx s)) -> m_jumpDests s = [] ->
  (forall c' pool jd, opt_ok (code (m_ctx s)) jd pool c' ->
     Q tt (set_m_code c' (set_m_pool pool (set_m_jumpDests jd s)))) ->
  wp optimize Q E s.
Proof.
  intros Hc Hjd HQ. unfold optimize, copyCode.
  apply wp_bind, wp_modify, wp_bind, wp_gets. vm_proj. apply wp_bind, first_loop_ok; auto.
  intros code1 jd P1 Hlen Hok Hj. apply wp_bind, wp_modify. set (c := code (m_ctx s)) in *.
  apply (optimize_loop_ok c jd code1 P1); vm_proj; auto.
  - constructor.
  - lia.
  - by apply pass2_init.
  - intros pc' empty' pool code' Hb' Hge' H2.
    apply (HQ code' pool jd). by eapply pass2_end.
Qed.
End Optimize.

(** ** Looking up a jump destination *)
Lemma sorted_nth l i j : StronglySorted Z.lt l -> (i < j < length l)%nat -> nth i l 0 < nth j l 0.
Proof.
  intros Hs. revert i j. induction Hs as [|x l Hl IH Hx]; intros i j Hij; [simpl in Hij; lia|].
  destruct j as [|j]; [lia|]. simpl in *. destruct i as [|i].
  - rewrite List.Forall_forall in Hx. apply Hx, nth_In. lia.
  - apply IH. lia.
Qed.

Lemma lower_bound_ok l v fuel : StronglySorted Z.lt l -> forall first len,
  (len <= fuel)%nat -> (first + len <= length l)%nat ->
  (forall i, (i < first)%nat -> nth i l 0 < v) ->
  (forall i, (first + len <= i < length l)%nat -> v <= nth i l 0) ->
  let r := lower_bound fuel l v first len in
  (r <= length l)%nat /\ (forall i, (i < r)%nat -> nth i l 0 < v) /\
  (forall i, (r <= i < length l)%nat -> v <= nth i l 0).
Proof.
  intros Hs. induction fuel as [|f IH]; intros first len Hf Hlen Hlo Hhi; cbn [lower_bound].
  { split; [lia|]. split; [done|]. intros i Hi. apply Hhi. lia. }
  destruct (Nat.eqb_spec len 0) as [->|Hne].
  { split; [lia|]. split; [done|]. intros i Hi. apply Hhi. lia. }
  assert (len / 2 < len)%nat as Hhalf by (apply Nat.div_lt; lia). set (half := (len / 2)%nat) in *.
  destruct (Z.ltb_spec (nth (first + half) l 0) v) as [Hlt|Hge].
  - apply IH; try lia.
    + intros i Hi. destruct (decide (i = first + half)%nat) as [->|]; [done|].
      pose proof (sorted_nth l i (first + half) Hs ltac:(lia)). lia.
    + intros i Hi. apply Hhi. lia.
  - apply IH; try lia; [done|].
    intros i Hi. destruct (decide (i = first + half)%nat) as [->|]; [done|].
    pose proof (sorted_nth l (first + half) i Hs ltac:(lia)). lia.
Qed.

Lemma binary_search_spec l v : StronglySorted Z.lt l -> binary_search l v = true <-> v ∈ l.
Proof.
  intros Hs. unfold binary_search.
  pose proof (lower_bound_ok l v (length l) Hs 0 (length l) ltac:(lia) ltac:(lia)) as Hlb.
  cbv zeta in Hlb. destruct Hlb as (Hr & Hlo & Hhi); [intros; lia|intros; lia|].
  set (r := lower_bound _ _ _ _ _) in *. split.
  - destruct (l !! r) as [x|] eqn:E; [|done]. intros Hx.
    pose proof (lookup_lt_Some _ _ _ E). pose proof (Hhi r ltac:(lia)) as Hge.
    rewrite (nth_lookup_Some _ _ _ _ E) in Hge.
    replace v with x by (destruct (Z.ltb_spec v x); simpl in Hx; (discriminate || lia)).
    by eapply list_elem_of_lookup_2.
  - intros [i Hi]%list_elem_of_lookup_1. pose proof (lookup_lt_Some _ _ _ Hi) as Hil.
    pose proof (nth_lookup_Some _ _ 0 _ Hi) as Hn.
    assert (r <= i)%nat as Hri by (destruct (decide (i < r)%nat) as [Hlt|]; [apply Hlo in Hlt; lia|lia]).
    destruct (lookup_lt_is_Some_2 l r) as [x Hx]; [lia|]. rewrite Hx.
    pose proof (Hhi r ltac:(lia)) as Hge. rewrite (nth_lookup_Some _ _ _ _ Hx) in Hge.
    destruct (Z.ltb_spec v x); [|done]. destruct (decide (r = i)) as [Heq|]; [rewrite Heq in Hx; simplify_eq; lia|].
    pose proof (sorted_nth l r i Hs ltac:(lia)) as Hlt.
    rewrite (nth_lookup_Some _ _ _ _ Hx), Hn in Hlt. lia.
Qed.

(** The test of [verifyJumpDest] against the table of a code. *)
Lemma jump_dest_spec c jd dest : jumpdests_to c (size c) jd -> size c < 2 ^ 63 -> 0 <= dest ->
  (is_jumpdest c dest /\ jump_dest jd dest = dest) \/
  (~ is_jumpdest c dest /\ jump_dest jd dest = -1).
Proof.
  intros [Hs Hl] Hc Hd. unfold jump_dest.
  destruct (Z.leb_spec dest 0x7FFFFFFFFFFFFFFF) as [Hle|Hgt]; cbn [andb].
  - rewrite wrap_small by (unfold in_range; lia).
    destruct (binary_search jd dest) eqn:E.
    + apply binary_search_spec, Hl in E as [E _]; auto.
    + right. split; [|done]. intros Hj. apply not_true_iff_false in E. apply E.
      apply binary_search_spec; [done|]. apply Hl. split; [done|]. by apply jumpdest_lt.
  - right. split; [|done]. intros Hj. pose proof (jumpdest_lt c dest Hj). lia.
Qed.

Lemma push_val_range c q : bytes_ok c -> is_push (of_byte (nthz c q)) = true ->
  in_range 256 (push_val c q).
Proof.
  intros Hc Hp. unfold push_val. pose proof (push_size_range _ Hp).
  pose proof (be_value_range _ (operand_bytes_ok c (q + 1)
    (Z.to_nat (push_size (of_byte (nthz c q)))) Hc)) as Hr.
  rewrite length_operand in Hr. unfold in_range. change (2 ^ 256) with (256 ^ 32).
  pose proof (Z.pow_le_mono_r 256 (Z.of_nat (Z.to_nat (push_size (of_byte (nthz c q))))) 32). lia.
Qed.
