(* ===== verification/ScVmRun.v ===== *)
(** * Execution of a whole contract

    The invariant of the interpreter loop on optimised code, one step of the
    loop, and from them safety and termination of [exec]. *)

From S2P Require Import Prelude ScFixedHash ScSha3 ScInstruction ScVm ScVmLogic ScVmArith ScVmSafe ScVmCalls ScVmOpt.
Import Instruction.

Lemma metric_nonneg op : 0 <= metric_args (metric op) /\ 0 <= metric_ret (metric op).
Proof.
  assert (Forall (fun m => 0 <= metric_args m /\ 0 <= metric_ret m) initMetrics) as H.
  { apply Forall_forall. intros m Hm. apply (proj1 (forallb_forall
      (fun m => (0 <=? metric_args m) && (0 <=? metric_ret m)) initMetrics)) in Hm; [lia|done]. }
  unfold metric. destruct (nth_in_or_default (Z.to_nat (to_byte op)) initMetrics
    (mkMetric Tier.Invalid 0 0)) as [Hin| ->]; [|simpl; lia].
  by apply (proj1 (List.Forall_forall _ _) H).
Qed.

(** The push instructions share their metric. *)
Lemma push_canonical b x : is_push (of_byte b) = true -> of_byte b <> OTHER x.
Proof.
  unfold is_push. rewrite to_of_byte. cbn [to_byte]. intros Hb E.
  assert (forallb (fun b => match of_byte b with OTHER _ => false | _ => true end)
    (seqZ 96 32) = true) as H by reflexivity.
  rewrite forallb_forall in H. specialize (H b). rewrite E in H.
  discriminate H. apply list_elem_of_In, elem_of_seqZ. lia.
Qed.

Lemma push_metric op : is_push op = true -> (forall x, op <> OTHER x) ->
  metric_args (metric op) = 0 /\ metric_ret (metric op) = 1 /\ metric_tier (metric op) = Tier.VeryLow.
Proof. destruct op; try discriminate; auto. intros _ H. by destruct (H b). Qed.

Section Operand.
Context {W : Type} `{EX : !ExtVMOps W} `{EL : !ExtVMLaws W} `{PL : !Platform}.
Implicit Types (s : VM W).

Lemma tier_gas_range t : 0 <= tier_gas t < 2 ^ 32.
Proof.
  unfold tier_gas, m_schedule.
  destruct (so_tiers _ evmSchedule_ok) as (b & v & l & m & h & e & sp & -> & Hf & Hs).
  repeat (apply Forall_cons_iff in Hf as [? Hf]). unfold in_range in Hs.
  destruct t; simpl; try lia. apply oob_tierStepGas_range.
Qed.

Lemma slot_same st i : -1 <= i < 1024 -> length st = 1025%nat -> <[Z.to_nat (i + 1) := slot st i]> st = st.
Proof.
  intros Hi Hl. apply list_insert_id. unfold slot. rewrite nth_lookup.
  by destruct (lookup_lt_is_Some_2 st (Z.to_nat (i + 1))) as [x ->]; [lia|].
Qed.

(** The loop that assembles the operand of [PUSHn]. *)
Lemma push_bytes_ok n : forall (j : nat) Q E s, bytes_ok (m_code s) -> length (m_stackSpace s) = 1025%nat ->
  -1 <= m_SP s < 1024 -> 0 <= m_PC s -> m_PC s + Z.of_nat n <= size (m_code s) ->
  size (m_code s) < 2 ^ 63 -> (j + n <= 32)%nat ->
  0 <= slot (m_stackSpace s) (m_SP s) < 256 ^ Z.of_nat j ->
  Q tt (set_m_PC (m_PC s + Z.of_nat n) (set_m_stackSpace
     (<[Z.to_nat (m_SP s + 1) := be_value (slot (m_stackSpace s) (m_SP s))
          (operand (m_code s) (m_PC s) n)]> (m_stackSpace s)) s)) ->
  wp (push_bytes n) Q E s.
Proof.
  induction n as [|n IH]; intros j Q E s Hok Hl Hsp Hpc Hlen H63 Hj Hv HQ; cbn [push_bytes].
  { apply wp_ret. simpl in HQ. rewrite Z.add_0_r, slot_same in HQ by done. by destruct s. }
  assert (256 ^ Z.of_nat (S j) = 256 * 256 ^ Z.of_nat j) as Hpow.
  { rewrite Nat2Z.inj_succ, Z.pow_succ_r by lia. done. }
  assert (256 ^ Z.of_nat (S j) <= 2 ^ 256).
  { change (2 ^ 256) with (256 ^ 32). apply Z.pow_le_mono_r; lia. }
  pose proof (nthz_byte _ (m_PC s) Hok) as Hb. unfold is_byte in Hb.
  apply wp_bind, wp_top; [lia|]. rewrite Z.sub_0_r. apply wp_bind, wp_gets.
  apply wp_bind, wp_code_nth; [lia|]. apply wp_bind, wp_set_top; [lia|].
  rewrite Z.sub_0_r, (wrap_small 256 (Z.shiftl _ 8)) by (unfold in_range; rewrite shiftl_8; lia).
  rewrite lor_byte by done. apply wp_bind, wp_modify. vm_proj.
  rewrite wrap_small by (unfold in_range; lia).
  assert (slot (<[Z.to_nat (m_SP s + 1) := slot (m_stackSpace s) (m_SP s) * 256 + nthz (m_code s) (m_PC s)]>
    (m_stackSpace s)) (m_SP s) = slot (m_stackSpace s) (m_SP s) * 256 + nthz (m_code s) (m_PC s)) as Hs
    by (rewrite slot_insert by lia; by rewrite decide_True).
  apply (IH (S j)); vm_proj; auto; try lia.
  - by rewrite length_insert.
  - rewrite operand_S in HQ. rewrite Hs, list_insert_insert_eq. cbn [be_value] in HQ.
    replace (m_PC s + 1 + Z.of_nat n) with (m_PC s + Z.of_nat (S n)) by lia. done.
Qed.
End Operand.

Section Run.
Context {W : Type} `{EX : !ExtVMOps W} `{EL : !ExtVMLaws W} `{PL : !Platform}.
Context (c : bytes) (Hc : bytes_ok c) (Hc63 : size c < 2 ^ 62).
Implicit Types (s : VM W).

(** The byte the machine is about to execute. *)
Abbreviation here s := (nthz (m_code s) (m_PC s)).

(** At a constant jump the verified constant is on the stack. *)
Definition const_jump s : Prop := forall p, pushes_to c p (m_PC s) ->
  here s = to_byte JUMPC \/ here s = to_byte JUMPCI ->
  0 <= m_SP s /\ slot (m_stackSpace s) (m_SP s) = push_val c p.

(** The invariant of the loop.  [m_SP] can be one word below the empty stack
    after [JUMPCI], whose metric counts one argument of its two. *)
Record running s : Prop := {
  ru_wfd : wfd s;
  ru_SP : -2 <= m_SP s < 1024;
  ru_opt : opt_ok c (m_jumpDests s) (m_pool s) (m_code s);
  ru_PC : boundary c (m_PC s);
  ru_jump : const_jump s;
  ru_init : m_caseInit s = true;
  ru_out : bytes_ok (m_output s)
}.

(** [fetchInstruction] rejects a stack the instruction does not fit on. *)
Lemma fetch_ok s : running s ->
  wp fetchInstruction (fun _ s' => exists g, fetched (of_byte (here s)) s' /\ 
      s' = set_m_copyMemSize 0 (set_m_newMemSize (size (m_mem s)) (set_m_runGas g
             (set_m_OP (of_byte (here s)) s)))) (fails (m_io_gas s)) s.
Proof.
  intros [Hw Hsp Hopt Hpc _ _ _]. pose proof (wfd_gas _ Hw : 0 <= _ < _) as Hg.
  pose proof (boundary_nonneg _ _ Hpc). pose proof (boundary_le _ _ Hpc).
  pose proof (oo_len _ _ _ _ Hopt) as Hlen.
  unfold fetchInstruction. apply wp_bind, wp_gets, wp_bind, wp_code_nth; [lia|].
  apply wp_bind, wp_modify. set (op := of_byte _).
  destruct (metric_nonneg op) as [Ha Hr]. apply wp_bind. unfold checkStack.
  apply wp_bind, wp_gets. vm_proj.
  destruct ((1 + m_SP s - metric_args (metric op) <? 0) || _) eqn:E.
  { apply wp_throw, fails_intro. vm_proj. lia. }
  pose proof (tier_gas_range (metric_tier (metric op))).
  apply wp_ret, wp_bind, wp_toInt63; [intros _|apply fails_intro; vm_proj; lia].
  repeat vm_step. eexists. split; [|reflexivity]. split; vm_proj; auto; lia.
Qed.

(** ** Pushes *)

(** [s'] follows [s] by pushing [v] and moving on by [n] bytes. *)
Record pushed (v n : Z) s s' : Prop := {
  pu_wfd : wfd s';
  pu_code : m_code s' = m_code s;
  pu_pool : m_pool s' = m_pool s;
  pu_jumpDests : m_jumpDests s' = m_jumpDests s;
  pu_caseInit : m_caseInit s' = m_caseInit s;
  pu_out : m_output s' = m_output s;
  pu_PC : m_PC s' = m_PC s + n;
  pu_SP : m_SP s' = m_SP s + 1;
  pu_top : slot (m_stackSpace s') (m_SP s') = v;
  pu_gas : m_io_gas s' < m_io_gas s
}.

Lemma PUSHn_ok op s : wfd s -> fetched op s -> is_push op = true -> bytes_ok (m_code s) ->
  1 <= m_runGas s < 2 ^ 32 -> -1 <= m_SP s < 1023 ->
  0 <= m_PC s -> m_PC s + 33 <= size (m_code s) -> size (m_code s) < 2 ^ 63 ->
  wp case_PUSHn (fun k s' => k = Loop /\
      pushed (be_value 0 (operand (m_code s) (m_PC s + 1) (Z.to_nat (push_size op)))) (push_size op + 1) s s')
    (fails (m_io_gas s)) s.
Proof.
  intros [Hl Hst Hg Hm Hm32 Hm64 Hctx] [Hop _ _ _ _ _ _] Hp Hok Hrun Hsp Hpc Hlen H63.
  pose proof (Hg : 0 <= _ < _). pose proof (push_size_range _ Hp) as Hk.
  unfold case_PUSHn. repeat vm_step. rewrite Hop. fold (push_size op).
  rewrite wrap_small by (unfold in_range; lia).
  assert (slot (<[Z.to_nat (m_SP s + 2) := 0]> (m_stackSpace s)) (m_SP s + 1) = 0) as Hz.
  { replace (m_SP s + 2) with (m_SP s + 1 + 1) by lia.
    rewrite slot_insert by lia. by rewrite decide_True. }
  apply (push_bytes_ok _ 0); vm_proj; auto; try lia; try (by rewrite length_insert).
  repeat vm_step. split; [done|]. rewrite Hz, Z2Nat.id by lia.
  pose proof (be_value_range _ (operand_bytes_ok (m_code s) (m_PC s + 1)
    (Z.to_nat (push_size op)) Hok)) as Hv. rewrite length_operand in Hv.
  assert (256 ^ Z.of_nat (Z.to_nat (push_size op)) <= 2 ^ 256).
  { change (2 ^ 256) with (256 ^ 32). apply Z.pow_le_mono_r; lia. }
  split; vm_proj; try reflexivity; try lia.
  - split; vm_proj; rewrite ?length_insert; auto.
    + repeat apply insert_range; auto; unfold in_range; lia.
    + unfold in_range. lia.
  - rewrite slot_insert by (rewrite ?length_insert; lia). by rewrite decide_True.
Qed.

Lemma PUSH1_ok s : wfd s -> fetched PUSH1 s -> bytes_ok (m_code s) ->
  1 <= m_runGas s < 2 ^ 32 -> -1 <= m_SP s < 1023 ->
  0 <= m_PC s -> m_PC s + 33 <= size (m_code s) -> size (m_code s) < 2 ^ 63 ->
  wp case_PUSH1 (fun k s' => k = Loop /\ pushed (nthz (m_code s) (m_PC s + 1)) 2 s s')
    (fails (m_io_gas s)) s.
Proof.
  intros [Hl Hst Hg Hm Hm32 Hm64 Hctx] _ Hok Hrun Hsp Hpc Hlen H63.
  pose proof (Hg : 0 <= _ < _). pose proof (nthz_byte _ (m_PC s + 1) Hok) as Hb. unfold is_byte in Hb.
  unfold case_PUSH1. repeat vm_step. rewrite (wrap_small _ (m_PC s + 1)) by (unfold in_range; lia).
  apply wp_code_nth; vm_proj; [lia|]. repeat vm_step. rewrite wrap_small by (unfold in_range; lia).
  split; [done|]. split; vm_proj; try reflexivity; try lia.
  - split; vm_proj; rewrite ?length_insert; auto; [|unfold in_range; lia].
    apply insert_range; auto. unfold in_range. lia.
  - replace (m_SP s + 2) with (m_SP s + 1 + 1) by lia.
    rewrite slot_insert by lia. by rewrite decide_True.
Qed.

Lemma PUSHC_ok s h n : wfd s -> fetched PUSHC s -> 1 <= m_runGas s < 2 ^ 32 -> -1 <= m_SP s < 1023 ->
  0 <= m_PC s -> m_PC s + 33 <= size (m_code s) -> size (m_code s) < 2 ^ 63 ->
  nthz (m_code s) (m_PC s + 1) = h -> nthz (m_code s) (m_PC s + 2) = n -> 0 <= n < 256 ->
  in_range 256 (nthz (m_pool s) h) ->
  wp case_PUSHC (fun k s' => k = Loop /\ pushed (nthz (m_pool s) h) (n + 2) s s')
    (fails (m_io_gas s)) s.
Proof.
  intros [Hl Hst Hg Hm Hm32 Hm64 Hctx] _ Hrun Hsp Hpc Hlen H63 Hh Hn Hn256 Hv.
  pose proof (Hg : 0 <= _ < _). unfold case_PUSHC. repeat vm_step.
  rewrite (wrap_small _ (m_PC s + 1)) by (unfold in_range; lia).
  apply wp_code_nth; vm_proj; [lia|]. repeat vm_step. rewrite Hh.
  replace (m_PC s + 1 + 1) with (m_PC s + 2) by lia.
  rewrite (wrap_small _ (m_PC s + 2)) by (unfold in_range; lia).
  apply wp_code_nth; vm_proj; [lia|]. repeat vm_step. rewrite Hn, wrap_small by (unfold in_range; lia).
  fold (nthz (m_pool s) h). split; [done|]. split; vm_proj; try reflexivity; try lia.
  - split; vm_proj; rewrite ?length_insert; auto; [|unfold in_range; lia]. by apply insert_range.
  - replace (m_SP s + 2) with (m_SP s + 1 + 1) by lia.
    rewrite slot_insert by lia. by rewrite decide_True.
Qed.

(** ** Jumps *)

(** [s'] follows [s] by a jump to [pc]; [n] words are gone. *)
Record jumped (pc n : Z) s s' : Prop := {
  ju_wfd : wfd s';
  ju_code : m_code s' = m_code s;
  ju_pool : m_pool s' = m_pool s;
  ju_jumpDests : m_jumpDests s' = m_jumpDests s;
  ju_caseInit : m_caseInit s' = m_caseInit s;
  ju_out : m_output s' = m_output s;
  ju_PC : m_PC s' = pc;
  ju_SP : m_SP s' = m_SP s - n;
  ju_gas : m_io_gas s' < m_io_gas s
}.

Ltac vm_jumped :=
  split; vm_proj; try reflexivity; try lia;
  split; vm_proj; auto; unfold in_range; lia.

Ltac jump_start s :=
  intros [Hl Hst Hg Hm Hm32 Hm64 Hctx] Hrun Hsp; pose proof (Hg : 0 <= _ < _);
  pose proof (slot_range _ (m_SP s) Hst : 0 <= _ < _).

Lemma wp_verifyJumpDest d Q g s : 0 <= d -> jumpdests_to c (size c) (m_jumpDests s) ->
  (is_jumpdest c d -> Q d s) -> 0 <= m_io_gas s <= g ->
  wp (verifyJumpDest d) Q (fails g) s.
Proof.
  intros Hd Hj HQ Hg. unfold verifyJumpDest. apply wp_bind, wp_gets.
  destruct (jump_dest_spec c _ d Hj ltac:(lia) Hd) as [[Hi ->]|[Hi ->]].
  - destruct (Z.eqb_spec d (-1)); [lia|]. apply wp_ret. auto.
  - apply wp_throw. by apply fails_intro.
Qed.

Lemma JUMP_ok s : wfd s -> 1 <= m_runGas s < 2 ^ 32 -> 0 <= m_SP s < 1024 ->
  jumpdests_to c (size c) (m_jumpDests s) ->
  wp case_JUMP (fun k s' => k = Loop /\ exists d, is_jumpdest c d /\ jumped d 1 s s')
    (fails (m_io_gas s)) s.
Proof.
  jump_start s. intros Hj. unfold case_JUMP. repeat vm_step.
  apply wp_verifyJumpDest; vm_proj; auto; try lia. intros Hd.
  repeat vm_step. split; [done|]. eexists. split; [exact Hd|]. vm_jumped.
Qed.

Lemma JUMPC_ok s : wfd s -> 1 <= m_runGas s < 2 ^ 32 -> 0 <= m_SP s < 1024 ->
  is_jumpdest c (slot (m_stackSpace s) (m_SP s)) ->
  wp case_JUMPC (fun k s' => k = Loop /\ exists d, is_jumpdest c d /\ jumped d 1 s s')
    (fails (m_io_gas s)) s.
Proof.
  jump_start s. intros Hd. pose proof (jumpdest_lt c _ Hd). unfold case_JUMPC. repeat vm_step.
  rewrite wrap_small by (unfold in_range; lia).
  split; [done|]. eexists. split; [exact Hd|]. vm_jumped.
Qed.

Lemma JUMPI_ok s : wfd s -> 1 <= m_runGas s < 2 ^ 32 -> 1 <= m_SP s < 1024 ->
  jumpdests_to c (size c) (m_jumpDests s) -> 0 <= m_PC s < 2 ^ 63 ->
  wp case_JUMPI (fun k s' => k = Loop /\ exists d, (is_jumpdest c d \/ d = m_PC s + 1) /\ jumped d 2 s s')
    (fails (m_io_gas s)) s.
Proof.
  jump_start s. intros Hj Hpc. unfold case_JUMPI. repeat vm_step.
  destruct (slot _ (m_SP s - 1) =? 0); cbn [negb]; repeat vm_step.
  - rewrite wrap_small by (unfold in_range; lia). split; [done|].
    exists (m_PC s + 1). split; [auto|]. vm_jumped.
  - apply wp_verifyJumpDest; vm_proj; auto; try lia. intros Hd.
    repeat vm_step. split; [done|]. eexists. split; [left; exact Hd|]. vm_jumped.
Qed.

Lemma JUMPCI_ok s : wfd s -> 1 <= m_runGas s < 2 ^ 32 -> 0 <= m_SP s < 1024 ->
  is_jumpdest c (slot (m_stackSpace s) (m_SP s)) -> 0 <= m_PC s < 2 ^ 63 ->
  wp case_JUMPCI (fun k s' => k = Loop /\ exists d, (is_jumpdest c d \/ d = m_PC s + 1) /\ jumped d 2 s s')
    (fails (m_io_gas s)) s.
Proof.
  jump_start s. intros Hd Hpc. pose proof (jumpdest_lt c _ Hd). unfold case_JUMPCI. repeat vm_step.
  destruct (slot _ (m_SP s - 1) =? 0); cbn [negb]; repeat vm_step;
    rewrite wrap_small by (unfold in_range; lia); (split; [done|]).
  - exists (m_PC s + 1). split; [auto|]. vm_jumped.
  - eexists. split; [left; exact Hd|]. vm_jumped.
Qed.

(** ** Re-establishing the invariant *)

Lemma jumpdest_not_const jd pool code q : opt_ok c jd pool code -> is_jumpdest c q ->
  nthz code q = to_byte JUMPC \/ nthz code q = to_byte JUMPCI -> False.
Proof.
  intros Ho [Hb Hj] Hq. pose proof (jumpdest_lt c q (conj Hb Hj)) as Hlt.
  destruct (oo_at _ _ _ _ Ho q Hb Hlt) as [[Hl|p H1 _ _ _|p H1 _ _ _] _|Hp _ _ _ _ _]; try congruence.
  - rewrite Hl in Hq. unfold lowered in Hq. rewrite Hj in Hq. simpl in Hq.
    assert (of_byte (nthz c q) = JUMPC \/ of_byte (nthz c q) = JUMPCI) as Hx
      by (destruct Hq as [-> | ->]; auto).
    destruct Hx; congruence.
  - by rewrite Hj in Hp.
Qed.

(** After an instruction of one byte that is no push, the next one is no
    constant jump. *)
Lemma fallthrough_not_const jd pool code q : opt_ok c jd pool code ->
  boundary c q -> q < size c -> is_push (of_byte (nthz c q)) = false ->
  forall p, pushes_to c p (q + 1) -> False.
Proof.
  intros Ho Hb Hlt Hnp p (Hbp & Hpn & Hp & Hpe).
  assert (instr_len (nthz c q) = 1) as Hl by (unfold instr_len; by rewrite Hnp).
  assert (p = q) as -> by (apply (boundary_pred c q p); auto; lia). congruence.
Qed.

Lemma opt_here s : running s -> m_PC s < size c ->
  opt_at c (m_jumpDests s) (m_pool s) (m_code s) (m_PC s).
Proof. intros [] ?. by apply oo_at. Qed.

Lemma running_next op s s' : running s -> fetched op s -> m_PC s < size c ->
  is_push (of_byte (nthz c (m_PC s))) = false -> next op s s' -> running s'.
Proof.
  intros [Hw Hsp Hopt Hpc Hj Hi Ho] Hf Hlt Hnp [Hw' E1 E2 E3 E4 E5 E6 EPC ESP Hg].
  pose proof (boundary_nonneg _ _ Hpc).
  rewrite wrap_small in EPC by (unfold in_range; lia).
  pose proof (fe_args _ _ Hf). pose proof (fe_ret _ _ Hf). destruct (metric_nonneg op).
  split; rewrite ?E1, ?E2, ?E3, ?E4, ?E6, ?ESP; auto; try lia.
  - rewrite EPC. assert (instr_len (nthz c (m_PC s)) = 1) as Hl by (unfold instr_len; by rewrite Hnp).
    rewrite <- Hl. by constructor.
  - intros p Hp. rewrite EPC in Hp.
    exfalso. by apply (fallthrough_not_const _ _ _ _ Hopt Hpc Hlt Hnp p).
Qed.

Lemma running_pushed v s s' : running s -> m_PC s < size c -> -1 <= m_SP s < 1023 ->
  is_push (of_byte (nthz c (m_PC s))) = true -> v = push_val c (m_PC s) ->
  pushed v (instr_len (nthz c (m_PC s))) s s' -> running s'.
Proof.
  intros [Hw Hsp Hopt Hpc Hj Hi Ho] Hlt Hsp' Hp -> [Hw' E1 E2 E3 E4 E6 EPC ESP Htop Hg].
  split; rewrite ?E1, ?E2, ?E3, ?E4, ?E6; auto; try lia.
  - rewrite EPC. by constructor.
  - intros p (Hbp & Hpn & Hpp & Hpe) _. split; [lia|]. rewrite Htop. f_equal. symmetry.
    apply (boundary_pred c (m_PC s) p); auto. congruence.
Qed.

Lemma running_jumped d n s s' : running s -> -2 <= m_SP s - n -> 0 <= n -> m_PC s < size c ->
  is_jumpdest c d \/ d = m_PC s + 1 /\ is_push (of_byte (nthz c (m_PC s))) = false ->
  jumped d n s s' -> running s'.
Proof.
  intros [Hw Hsp Hopt Hpc Hj Hi Ho] Hn Hn0 Hlt Hd [Hw' E1 E2 E3 E4 E6 EPC ESP Hg].
  split; rewrite ?E1, ?E2, ?E3, ?E4, ?E6; auto; try lia.
  - rewrite EPC. destruct Hd as [[Hb _]|[-> Hnp]]; [done|].
    assert (instr_len (nthz c (m_PC s)) = 1) as Hl by (unfold instr_len; by rewrite Hnp).
    rewrite <- Hl. by constructor.
  - intros p Hp Hh. rewrite E1, EPC in *. destruct Hd as [Hd|[-> Hnp]]; exfalso.
    + by apply (jumpdest_not_const _ _ _ _ Hopt Hd).
    + by apply (fallthrough_not_const _ _ _ _ Hopt Hpc Hlt Hnp p).
Qed.

(** ** One iteration of the loop *)

(** No instruction of [c] is one whose metric is missing from the table. *)
Definition metered : Prop := forall q, boundary c q ->
  of_byte (nthz c q) <> STATICCALL /\ of_byte (nthz c q) <> REVERT.

(** The machine is about to call out for the instruction [op]. *)
Definition waiting (op : Instruction.t) s : Prop :=
  running s /\ fetched op s /\ m_PC s < size c /\ of_byte (nthz c (m_PC s)) = op.

Definition calls_out s (s' : VM W) : Prop := exists op,
  (m_bounce s' = Some CaseCreate /\ op = CREATE \/ m_bounce s' = Some CaseCall /\ is_call op) /\
  waiting op s' /\ m_io_gas s' = m_io_gas s.

Definition step_post s (k : flow) s' : Prop :=
  match k with
  | Loop => running s' /\ m_io_gas s' < m_io_gas s
  | Return => halts s k s' \/ calls_out s s'
  end.

Lemma step_push s b : running s -> fetched (of_byte (here s)) s -> b = nthz c (m_PC s) ->
  m_PC s < size c -> here s = b -> is_push (of_byte b) = true ->
  (forall j, m_PC s < j < m_PC s + instr_len b -> nthz (m_code s) j = nthz c j) ->
  wp (switch (of_byte (here s))) (step_post s) (fails (m_io_gas s)) s.
Proof.
  intros Hr Hf Hb Hlt Hh Hp Harg. pose proof (oo_ok _ _ _ _ (ru_opt _ Hr)) as Hok. pose proof (push_size_range _ Hp) as Hk.
  pose proof (boundary_nonneg _ _ (ru_PC _ Hr)) as H0.
  pose proof (oo_len _ _ _ _ (ru_opt _ Hr)) as Hlen.
  assert (instr_len b = push_size (of_byte b) + 1) as Hil by (unfold instr_len; by rewrite Hp).
  assert (operand (m_code s) (m_PC s + 1) (Z.to_nat (push_size (of_byte b))) =
          operand c (m_PC s + 1) (Z.to_nat (push_size (of_byte b)))) as Hop.
  { apply operand_ext. intros j Hj. apply Harg. lia. }
  rewrite Hh in *. set (op := of_byte b) in *.
  assert (forall x, op <> OTHER x) as Hcan by (intros x; by apply push_canonical).
  destruct (push_metric op Hp Hcan) as (Ha & Hr' & Ht).
  pose proof (fe_args _ _ Hf) as Hfa. pose proof (fe_ret _ _ Hf) as Hfr.
  rewrite Ha, Hr' in *. pose proof (fe_SP _ _ Hf).
  assert (1 <= m_runGas s < 2 ^ 32) as Hrun.
  { apply (fetched_tier op); [done|]. rewrite Ht. apply list_elem_of_further, list_elem_of_here. }
  assert (op = PUSH1 \/ switch (W:=W) op = case_PUSHn) as Hsw.
  { clearbody op. clear -Hp Hcan. destruct op; try discriminate Hp; auto. by destruct (Hcan b). }
  assert (forall v, v = push_val c (m_PC s) -> forall s', pushed v (instr_len b) s s' ->
    running s' /\ m_io_gas s' < m_io_gas s) as Hrest.
  { intros v Hv s' Hpu. subst b. split; [by apply (running_pushed v s); auto; lia|by apply Hpu]. }
  destruct Hsw as [Hop1| ->].
  - rewrite Hop1 in *. cbn [switch]. eapply wp_mono; [apply PUSH1_ok; auto; try lia; by apply Hr| |done].
    intros k s' [-> Hpu]. apply (Hrest (nthz (m_code s) (m_PC s + 1))).
    + unfold push_val. subst b. fold op. rewrite Hop1. change (push_size PUSH1) with 1.
      rewrite Harg by lia. change (Z.to_nat 1) with 1%nat. rewrite operand_S. simpl. lia.
    + rewrite Hil. exact Hpu.
  - eapply wp_mono; [apply (PUSHn_ok op); auto; try lia; by apply Hr| |done].
    intros k s' [-> Hpu]. rewrite Hop, <- Hil in Hpu.
    apply (Hrest _ (eq_refl _)). subst b. exact Hpu.
Qed.

(** A push of a pooled constant. *)
Lemma step_pushc s : running s -> fetched PUSHC s -> m_PC s < size c ->
  is_push (of_byte (nthz c (m_PC s))) = true -> 1 < push_size (of_byte (nthz c (m_PC s))) ->
  nthz (m_code s) (m_PC s + 2) = push_size (of_byte (nthz c (m_PC s))) - 1 ->
  nthz (m_pool s) (nthz (m_code s) (m_PC s + 1)) = push_val c (m_PC s) ->
  wp (switch PUSHC) (step_post s) (fails (m_io_gas s)) s.
Proof.
  intros Hr Hf Hlt Hp Hk Hn Hv. pose proof (push_size_range _ Hp) as Hk'.
  pose proof (boundary_nonneg _ _ (ru_PC _ Hr)) as H0.
  pose proof (oo_len _ _ _ _ (ru_opt _ Hr)) as Hlen.
  assert (instr_len (nthz c (m_PC s)) = push_size (of_byte (nthz c (m_PC s))) + 1) as Hil
    by (unfold instr_len; by rewrite Hp).
  assert (metric_args (metric PUSHC) = 0) as Ha by done.
  assert (metric_ret (metric PUSHC) = 1) as Hr' by done.
  pose proof (fe_args _ _ Hf). pose proof (fe_ret _ _ Hf). pose proof (fe_SP _ _ Hf).
  cbn [switch]. eapply wp_mono; [eapply PUSHC_ok; eauto; try lia; [by apply Hr|tier_ok|]| |done].
  - rewrite Hv. by apply push_val_range.
  - intros k s' [-> Hpu]. rewrite Hv in Hpu.
    replace (push_size (of_byte (nthz c (m_PC s))) - 1 + 2) with (instr_len (nthz c (m_PC s))) in Hpu by lia.
    split; [|by apply Hpu]. apply (running_pushed (push_val c (m_PC s)) s); auto. lia.
Qed.

(** A constant jump. *)
Lemma step_const_jump s p op : running s -> fetched op s -> m_PC s < size c ->
  here s = to_byte op -> op = JUMPC \/ op = JUMPCI ->
  is_push (of_byte (nthz c (m_PC s))) = false ->
  pushes_to c p (m_PC s) -> 0 <= jump_dest (m_jumpDests s) (push_val c p) ->
  wp (switch op) (step_post s) (fails (m_io_gas s)) s.
Proof.
  intros Hr Hf Hlt Hh Hop Hnp Hp Hd. pose proof (boundary_nonneg _ _ (ru_PC _ Hr)) as H0.
  destruct (ru_jump _ Hr p Hp) as [Hsp Htop]; [destruct Hop; subst; auto|].
  assert (is_jumpdest c (slot (m_stackSpace s) (m_SP s))) as Hjd.
  { rewrite Htop. pose proof Hp as (_ & _ & Hpp & _). pose proof (push_val_range c p Hc Hpp) as [? ?].
    destruct (jump_dest_spec c (m_jumpDests s) (push_val c p)) as [[? _]|[_ E]]; auto; try lia.
    apply (oo_jd _ _ _ _ (ru_opt _ Hr)). }
  pose proof (fe_SP _ _ Hf). pose proof (ru_wfd _ Hr) as Hw. destruct Hop as [-> | ->]; cbn [switch].
  - eapply wp_mono; [apply JUMPC_ok; auto; tier_ok| |done].
    intros k s' (-> & d & Hd' & Hj). split; [|by apply Hj]. apply (running_jumped d 1 s); auto; lia.
  - eapply wp_mono; [apply JUMPCI_ok; auto; [tier_ok|lia]| |done].
    intros k s' (-> & d & Hd' & Hj). split; [|by apply Hj].
    apply (running_jumped d 2 s); auto; [lia|lia|]. destruct Hd'; auto.
Qed.

(** The instructions that are neither pushes nor rewritten. *)
Lemma step_other s : running s -> fetched (of_byte (here s)) s -> metered -> m_PC s < size c ->
  here s = lowered (nthz c (m_PC s)) -> is_push (of_byte (nthz c (m_PC s))) = false ->
  wp (switch (of_byte (here s))) (step_post s) (fails (m_io_gas s)) s.
Proof.
  intros Hr Hf Hmet Hlt Hh Hnp. pose proof (boundary_nonneg _ _ (ru_PC _ Hr)) as H0.
  pose proof (ru_wfd _ Hr) as Hw. pose proof (wfd_gas _ Hw : 0 <= _ < _) as Hg.
  assert (is_synthetic (of_byte (here s)) = false) as Hns.
  { rewrite Hh. unfold lowered. case_match; [by vm_compute|done]. }
  assert (is_push (of_byte (here s)) = false) as Hnp'.
  { rewrite Hh. unfold lowered. case_match; [by vm_compute|done]. }
  assert (is_special (of_byte (here s)) = true -> of_byte (nthz c (m_PC s)) = of_byte (here s)) as Hsame.
  { rewrite Hh. unfold lowered. case_match; [by vm_compute|done]. }
  destruct (Hmet _ (ru_PC _ Hr)) as [Hm1 Hm2]. set (op := of_byte (here s)) in *.
  destruct (is_special op) eqn:Hsp.
  2: { eapply wp_mono; [apply plain_ok; auto; unfold in_range; lia| |done].
       intros k s' [-> Hn]. split; [by apply (running_next op s)|by apply Hn]. }
  specialize (Hsame eq_refl). rewrite Hsame in Hm1, Hm2.
  pose proof (fe_SP _ _ Hf) as HSP. pose proof (fe_args _ _ Hf) as Hargs.
  assert (forall p, (m_bounce (set_m_bounce (Some p) s) = Some CaseCreate /\ op = CREATE \/
      m_bounce (set_m_bounce (Some p) s) = Some CaseCall /\ is_call op) ->
      step_post s Return (set_m_bounce (Some p) s)) as Hout.
  { intros p Hp. right. exists op. split; [exact Hp|]. split; [|done]. split; [|split]; auto.
    - destruct Hr as [[] ? ? ? ? ? ?]. split; [split; assumption|assumption..].
    - destruct Hf. split; assumption. }
  clearbody op. destruct op; try discriminate Hsp; try discriminate Hns; try done; cbn [switch].
  10: apply wp_throw, fails_intro; lia.
  1, 7, 9: eapply wp_mono; [first [apply STOP_ok | apply RETURN_ok | apply SUICIDE_ok]; auto; by apply Hr|
    intros k s' Hk; pose proof Hk as [-> _]; by left|done].
  - change (metric_args (metric JUMP)) with 1 in Hargs.
    eapply wp_mono; [apply JUMP_ok; auto; [tier_ok|lia|by eapply oo_jd, Hr]| |done].
    intros k s' (-> & d & Hd & Hj). split; [|by apply Hj]. apply (running_jumped d 1 s); auto; lia.
  - change (metric_args (metric JUMPI)) with 2 in Hargs.
    eapply wp_mono; [apply JUMPI_ok; auto; [tier_ok|lia|by eapply oo_jd, Hr|lia]| |done].
    intros k s' (-> & d & Hd & Hj). split; [|by apply Hj].
    apply (running_jumped d 2 s); auto; [lia|lia|]. destruct Hd; auto.
  - repeat vm_step. apply Hout. auto.
  - repeat vm_step. apply Hout. unfold is_call. auto.
  - repeat vm_step. apply Hout. unfold is_call. auto.
  - unfold case_DELEGATECALL. case_match; [apply wp_throw, fails_intro; lia|].
    repeat vm_step. apply Hout. unfold is_call. auto.
Qed.

(** One iteration: it never leaves the arrays, keeps the invariant, and uses
    gas unless the execution ends or calls out. *)
Lemma step_ok s : running s -> metered -> wp step (step_post s) (fails (m_io_gas s)) s.
Proof.
  intros Hr Hmet. unfold step. eapply wp_seq; [by apply fetch_ok|].
  intros [] s1 (g & Hf & Hs1). assert (running s1) as Hr1.
  { subst s1. destruct Hr as [[] ? ? ? ? ? ?]. split; [split; assumption|assumption..]. }
  assert (m_io_gas s1 = m_io_gas s) as Hg by (by subst s1).
  assert (here s1 = here s) as Hh by (by subst s1).
  apply wp_bind, wp_gets. rewrite (fe_op _ _ Hf).
  eapply wp_mono with (Q := step_post s1) (E := fails (m_io_gas s1)).
  2: { intros k s' Hk. unfold step_post, halts, calls_out in *. by rewrite Hg in Hk. }
  2: { by rewrite Hg. }
  rewrite <- Hh in *. clear Hh Hg Hs1 Hr s. rename s1 into s.
  destruct (Z.lt_ge_cases (m_PC s) (size c)) as [Hlt|Hge].
  2: { rewrite (oo_end _ _ _ _ (ru_opt _ Hr1) _ (ru_PC _ Hr1) Hge) in *. cbn [of_byte switch].
       eapply wp_mono; [apply STOP_ok; auto; by apply Hr1|intros k s' Hk; pose proof Hk as [-> _]; by left|done]. }
  destruct (opt_here s Hr1 Hlt) as [[Hl|p H1 H2 H3 H4|p H1 H2 H3 H4] Harg|Hp Hk Hh Hrange Hn Hv].
  - destruct (is_push (of_byte (nthz c (m_PC s)))) eqn:Hp; [|by apply step_other].
    apply (step_push s (nthz c (m_PC s))); auto. rewrite Hl. by apply lowered_push.
  - rewrite H2 in *. apply (step_const_jump s p); auto. by rewrite H1.
  - rewrite H2 in *. apply (step_const_jump s p); auto. by rewrite H1.
  - rewrite Hh in *. by apply step_pushc.
Qed.

(** ** The loop and the trampoline *)
Definition stops s (s' : VM W) : Prop :=
  halts s Return s' \/ exists s0, calls_out s0 s' /\ m_io_gas s0 <= m_io_gas s.

Lemma stops_weaken s1 s2 s' : m_io_gas s1 <= m_io_gas s2 -> stops s1 s' -> stops s2 s'.
Proof.
  intros Hle [(H1 & H2 & H3 & H4)|(s0 & H1 & H2)].
  - left. split; [done|]. split; [done|]. split; [lia|done].
  - right. exists s0. split; [done|lia].
Qed.

Lemma fails_weaken g1 g2 r (s : VM W) : g1 <= g2 -> fails g1 r s -> fails g2 r s.
Proof. intros Hle [Hw Hg]. split; [done|]. cbn in *. clear -Hle Hg. lia. Qed.

Lemma cases_loop_ok (Hmet : metered) fuel : forall s, running s -> m_io_gas s < Z.of_nat fuel ->
  wp (cases_loop fuel) (fun _ => stops s) (fails (m_io_gas s)) s.
Proof.
  induction fuel as [|f IH]; intros s Hr Hf; cbn [cases_loop].
  { pose proof (wfd_gas _ (ru_wfd _ Hr) : 0 <= _ < _). lia. }
  eapply wp_seq; [by apply step_ok|]. intros [|] s' Hk; cbn in Hk.
  - destruct Hk as [Hr' Hg']. eapply wp_mono; [apply IH; [done|lia]| |].
    + intros [] s2. apply stops_weaken. lia.
    + intros r s2. apply fails_weaken. lia.
  - apply wp_ret. destruct Hk as [Hk|Hk]; [by left|]. right. by exists s.
Qed.

(** The same without a bound on the number of iterations. *)
Lemma cases_loop_partial (Hmet : metered) fuel : forall s, running s ->
  wp (cases_loop fuel) (fun _ => stops s) (fun _ _ => True) s.
Proof.
  induction fuel as [|f IH]; intros s Hr; cbn [cases_loop]; [done|].
  eapply (wp_seq (step_post s)).
  { eapply wp_mono; [by apply step_ok|done|done]. }
  intros [|] s' Hk; cbn in Hk.
  - destruct Hk as [Hr' Hg']. eapply wp_mono; [by apply IH| |done].
    intros [] s2. apply stops_weaken. lia.
  - apply wp_ret. destruct Hk as [Hk|Hk]; [by left|]. right. by exists s.
Qed.

Lemma running_resumes op s s' : waiting op s -> is_push op = false -> resumes op s s' -> running s'.
Proof.
  intros (Hr & Hf & Hlt & Hop) Hnp Hn.
  apply (running_next op (set_m_bounce (Some InterpretCases) s)); auto.
  - destruct Hr as [[] ? ? ? ? ? ?]. split; [split; assumption|assumption..].
  - destruct Hf. split; assumption.
  - vm_proj. by rewrite Hop.
Qed.

Lemma call_out_ok s0 s p : m_bounce s = Some p -> calls_out s0 s ->
  wp (call_bounce 0 p) (fun _ s' => running s' /\ m_bounce s' = Some InterpretCases /\
     m_io_gas s' < m_io_gas s) (fails (m_io_gas s)) s /\ p <> InterpretCases /\ p <> InitEntry.
Proof.
  intros Hb (op & Hop & Hw & _). pose proof Hw as (Hr & Hf & _ & _). rewrite Hb in Hop.
  destruct Hop as [[Ep ->]|[Ep Hcall]]; simplify_eq; (split; [|done]); cbn [call_bounce].
  - eapply wp_mono; [apply caseCreate_ok; auto; by apply Hr| |done].
    intros [] s' Hn. split; [by apply (running_resumes CREATE s)|]. by destruct Hn.
  - eapply wp_mono; [apply (caseCall_ok op); auto; by apply Hr| |done].
    intros [] s' Hn. split; [|by destruct Hn]. apply (running_resumes op s); auto.
    by destruct Hcall as [->|[->| ->]].
Qed.

Lemma call_bounce_fuel f p : p <> InterpretCases -> p <> InitEntry ->
  call_bounce (W:=W) f p = call_bounce 0 p.
Proof. by destruct p. Qed.

Definition finished (g : Z) (s' : VM W) : Prop :=
  0 <= m_io_gas s' <= g /\ bytes_ok (m_output s') /\ ext_inv (m_ctx s').

Lemma trampoline_ok (Hmet : metered) n : forall fuel s, running s ->
  m_bounce s = Some InterpretCases -> m_io_gas s < Z.of_nat n -> (2 * n + 1 <= fuel)%nat ->
  wp (trampoline fuel) (fun _ => finished (m_io_gas s)) (fails (m_io_gas s)) s.
Proof.
  induction n as [|n IH]; intros fuel s Hr Hb Hg Hf.
  { pose proof (wfd_gas _ (ru_wfd _ Hr) : 0 <= _ < _). lia. }
  destruct fuel as [|[|fuel]]; [lia|lia|]. cbn [trampoline].
  apply wp_bind, wp_gets. rewrite Hb. cbn [call_bounce]. eapply wp_seq.
  { unfold interpretCases. apply wp_bind, wp_gets. rewrite (ru_init _ Hr).
    apply cases_loop_ok; auto. lia. }
  intros [] s1 [(_ & Hb1 & Hg1 & Ho1)|(s0 & Hout & Hle)].
  - apply wp_bind, wp_gets. rewrite Hb1. by apply wp_ret.
  - apply wp_bind, wp_gets. destruct (m_bounce s1) as [p|] eqn:Hb1.
    2: { destruct Hout as (op & [[? _]|[? _]] & _); congruence. }
    pose proof Hout as (_ & _ & (Hr1 & _) & Hg1).
    destruct (call_out_ok s0 s1 p Hb1 Hout) as (Hcall & Hp1 & Hp2).
    eapply wp_seq.
    { rewrite call_bounce_fuel by done. eapply wp_mono; [exact Hcall|done|].
      intros r s2. apply fails_weaken. lia. }
    intros [] s2 (Hr2 & Hb2 & Hg2). eapply wp_mono; [apply IH; auto; lia| |].
    + intros [] s3 [? ?]. split; [lia|done].
    + intros r s3. apply fails_weaken. lia.
Qed.
End Run.

(** ** [exec] *)
Section Exec.
Context {W : Type} `{EX : !ExtVMOps W} `{EL : !ExtVMLaws W} `{PL : !Platform}.
Implicit Types (s : VM W).

(** A fresh object whose code has been prepared. *)
Lemma start_running gas (e : ExtVM W) onOp c' pool jd : ext_inv e -> opt_ok (code e) jd pool c' ->
  running (code e) (set_m_code c' (set_m_pool pool (set_m_jumpDests jd
    (set_m_caseInit true (set_m_bounce (Some InterpretCases)
      (set_m_io_gas (u64 gas) (new_VM gas e onOp))))))).
Proof.
  intros He Hopt. assert (in_range 64 (u64 gas)) by (by apply wrap_range).
  split.
  - split; try done; try (simpl; lia).
    + by apply Forall_replicate.
    + constructor.
  - simpl. lia.
  - exact Hopt.
  - constructor.
  - intros p (Hb & _ & _ & E0) _. cbn in E0. pose proof (boundary_nonneg _ _ Hb).
    pose proof (instr_len_range (nthz (code e) p)). lia.
  - done.
  - constructor.
Qed.

(** A fresh object, once [initEntry] has run. *)
Lemma initEntry_ok fuel gas (e : ExtVM W) onOp Q E : ext_inv e -> 0 <= gas ->
  let s := set_m_bounce (Some InitEntry) (set_m_io_gas (u64 gas) (new_VM gas e onOp)) in
  (forall s', running (code e) s' -> m_bounce s' = Some InterpretCases ->
     m_io_gas s' = u64 gas -> Q tt s') ->
  wp (initEntry fuel) Q E s.
Proof.
  intros He Hg s HQ. destruct (ext_inv_range _ He) as (_ & _ & _ & Hsz & _ & Hok & _).
  unfold initEntry, interpretCases. apply wp_bind, wp_modify, wp_bind, wp_bind, wp_gets.
  cbn [m_caseInit s new_VM set_m_bounce set_m_io_gas]. apply wp_modify.
  apply optimize_ok; [done|done|]. intros c' pool jd Hopt. apply HQ; [|done|done].
  by apply start_running.
Qed.

Lemma exec_ok gas (e : ExtVM W) onOp fuel : ext_inv e -> metered (code e) -> 0 <= gas ->
  2 * u64 gas + 4 <= Z.of_nat fuel ->
  wp (exec fuel) (fun out s' => bytes_ok out /\ 0 <= io_gas s' <= gas /\ ext_inv (m_ctx s'))
     (throws (fun s' => 0 <= io_gas s' <= gas)) (new_VM gas e onOp).
Proof.
  intros He Hmet Hg Hf. destruct (ext_inv_range _ He) as (_ & _ & _ & Hsz & _ & Hok & _).
  pose proof (wrap_le 64 gas ltac:(lia) Hg) as Hu. destruct fuel as [|fuel]; [lia|].
  assert (wp (modify (fun s => set_m_io_gas (u64 (io_gas s)) s);; set_bounce (Some InitEntry);;
              trampoline (S fuel)) (fun _ => finished gas) (fails gas) (new_VM gas e onOp)) as Hw.
  { apply wp_bind, wp_modify, wp_bind, wp_modify. cbn [trampoline]. apply wp_bind, wp_gets.
    cbn [m_bounce set_m_bounce]. cbn [call_bounce]. apply wp_bind, initEntry_ok; auto.
    intros s' Hr Hb Hgas. eapply wp_mono; [apply (trampoline_ok (code e) Hok Hsz Hmet (Z.to_nat (u64 gas) + 1)); auto; lia| |].
    - intros [] s2 [? ?]. split; [lia|done].
    - intros r s2. apply fails_weaken. lia. }
  unfold wp in *. unfold exec.
  destruct ((modify _;; _) (new_VM gas e onOp)) as [[] s']; cbn in Hw |- *.
  - destruct Hw as (? & ? & ?). auto.
  - destruct Hw as [_ Hw]. split; [eauto|]. exact Hw.
  - by destruct Hw as [[w Hw] _].
  - by destruct Hw as [[w Hw] _].
  - by destruct Hw as [[w Hw] _].
  - by destruct Hw as [[w Hw] _].
Qed.
End Exec.
