(* ===== verification/ScVmSim.v ===== *)
(** * The optimiser does not change what a contract does

    A reference machine skips the second loop of [optimize]: it runs the code as
    the user wrote it, with synthetic instructions disarmed, and without
    tracing.  The machine of the source simulates it step by step; the one
    exception is a conditional jump to a pushed constant on a stack that holds
    nothing else. *)

From S2P Require Import Prelude ScFixedHash ScSha3 ScInstruction ScVm ScVmLogic ScVmArith ScVmSafe ScVmCalls ScVmOpt ScVmRun.
Import Instruction.

Section Natural.
Context {W : Type} `{EX : !ExtVMOps W} `{PL : !Platform}.
Context (k2 p2 : list Z).
Implicit Types (s : VM W).

(** The reference machine's view of a machine. *)
Definition plain_view s : VM W :=
  set_m_code k2 (set_m_pool p2 (set_m_onOp false (set_m_trace [] (set_m_nSteps 0 s)))).

(** [m] does the same on a machine and on its plain view. *)
Definition natural {A} (m : SE (VM W) A) : Prop :=
  forall s, m (plain_view s) = (fst (m s), plain_view (snd (m s))).

Lemma natural_bind {A B} (m : SE (VM W) A) (k : A -> SE (VM W) B) :
  natural m -> (forall a, natural (k a)) -> natural (m ≫= k).
Proof.
  intros Hm Hk s. unfold mbind, SE_bind. rewrite Hm. destruct (m s) as [[] s']; simpl; try done. apply Hk.
Qed.
Lemma natural_ret {A} (a : A) : natural (mret a).
Proof. done. Qed.
Lemma natural_fail {A} (r : outcome A) : natural (fail r).
Proof. done. Qed.
Lemma natural_throw {A} w : natural (@throw (VM W) A w).
Proof. done. Qed.
Lemma natural_gets {A} (f : VM W -> A) : (forall s, f (plain_view s) = f s) -> natural (gets f).
Proof. intros H s. unfold gets. by rewrite H. Qed.
Lemma natural_modify f : (forall s, f (plain_view s) = plain_view (f s)) -> natural (modify f).
Proof. intros H s. unfold modify. by rewrite H. Qed.
Lemma natural_ctx {A} (m : SE (ExtVM W) A) : natural (ctx m).
Proof. intros s. unfold ctx, zoom. cbn. destruct (m (m_ctx s)) as [r e]. done. Qed.
Lemma natural_face {A} (f : ExtVM W -> A) : natural (face f).
Proof. by apply natural_gets. Qed.
Lemma natural_rd i : natural (rd i).
Proof. intros s. unfold rd. case_match; done. Qed.
Lemma natural_wr i v : natural (wr i v).
Proof. intros s. unfold wr. case_match; done. Qed.
Lemma natural_mem_ref off n : natural (mem_ref off n).
Proof. intros s. unfold mem_ref. cbn. repeat case_match; done. Qed.
Lemma natural_mem_write off bs : natural (mem_write off bs).
Proof. intros s. unfold mem_write. cbn. repeat case_match; done. Qed.
Lemma natural_onOperation : natural onOperation.
Proof. intros s. unfold onOperation. cbn. case_match; done. Qed.
End Natural.

Create HintDb natural discriminated.
#[export] Hint Resolve natural_ret natural_fail natural_throw natural_ctx natural_face natural_rd
  natural_wr natural_mem_ref natural_mem_write natural_onOperation : natural.

(** Decomposes a computation into primitives. *)
Ltac natural :=
  repeat match goal with
  | |- forall _, _ => intros ?
  | |- natural _ _ (_ ≫= _) => apply natural_bind
  | |- natural _ _ (match ?x with _ => _ end) => destruct x
  | |- natural _ _ (gets _) => apply natural_gets; reflexivity
  | |- natural _ _ (modify _) => apply natural_modify; try reflexivity
  | |- natural _ _ _ => solve [auto with natural]
  | |- natural _ _ ?m =>
      let h := lazymatch m with ?f _ _ _ _ => f | ?f _ _ _ => f | ?f _ _ => f | ?f _ => f | ?f => f end in
      unfold h
  end.

Section Natural2.
Context {W : Type} `{EX : !ExtVMOps W} `{PL : !Platform}.
Context (k2 p2 : list Z).
Abbreviation natural m := (natural (W:=W) k2 p2 m).

Lemma natural_toInt63 v : natural (toInt63 v).
Proof. unfold toInt63. natural. Qed.
Lemma natural_memNeed a b : natural (memNeed a b).
Proof. apply natural_toInt63. Qed.
Lemma natural_updateIOGas : natural updateIOGas.
Proof. unfold updateIOGas. natural. Qed.
Hint Resolve natural_toInt63 natural_memNeed natural_updateIOGas : natural.
Lemma natural_charge : natural charge.
Proof. unfold charge. natural. Qed.
Lemma natural_top k : natural (top k).
Proof. unfold top. natural. Qed.
Lemma natural_set_top k v : natural (set_top k v).
Proof. unfold set_top. natural. Qed.
Lemma natural_drop_sp n : natural (drop_sp n).
Proof. unfold drop_sp. natural. Qed.
Hint Resolve natural_charge natural_top natural_set_top natural_drop_sp : natural.
Lemma natural_pop : natural pop.
Proof. unfold pop. natural. Qed.
Lemma natural_push v : natural (push v).
Proof. unfold push. natural. Qed.
Lemma natural_updateMem : natural updateMem.
Proof. unfold updateMem, updateGas, gasForMem. natural. cbn. by case_match. Qed.
Hint Resolve natural_pop natural_push natural_updateMem : natural.

Lemma natural_NEXT : natural NEXT.
Proof. unfold NEXT, NEXT_PC, set_PC. natural. Qed.
Lemma natural_NEXT_PC : natural NEXT_PC.
Proof. unfold NEXT_PC, set_PC. natural. Qed.
Hint Resolve natural_NEXT natural_NEXT_PC : natural.

Lemma natural_log_topics k n : natural (log_topics k n).
Proof. revert k. induction n; intros k; cbn [log_topics]; natural. Qed.
Lemma natural_copyDataToMemory d : natural (copyDataToMemory d).
Proof. unfold copyDataToMemory. natural. Qed.
Lemma natural_verifyJumpDest d : natural (verifyJumpDest d).
Proof. unfold verifyJumpDest, throwBadJumpDestination. natural. Qed.
Hint Resolve natural_log_topics natural_copyDataToMemory natural_verifyJumpDest : natural.

Lemma natural_unop f : natural (unop f).
Proof. unfold unop. natural. Qed.
Lemma natural_binop f : natural (binop f).
Proof. unfold binop. natural. Qed.
Lemma natural_ternop f : natural (ternop f).
Proof. unfold ternop. natural. Qed.
Lemma natural_pushop m : natural m -> natural (pushop m).
Proof. intros. unfold pushop. natural. Qed.
Lemma natural_COPY src : natural src -> natural (case_COPY src).
Proof. intros. unfold case_COPY, set_newMem, set_copyMem. natural. Qed.
Lemma natural_LOG n : natural (case_LOG n).
Proof. unfold case_LOG, logGasMem, set_runGas, set_newMem. natural. Qed.
Hint Resolve natural_unop natural_binop natural_ternop natural_LOG : natural.

(** Only the pushes look at the code or the pool. *)
Lemma natural_switch op : is_push op = false -> op <> PUSHC -> natural (switch op).
Proof.
  intros Hp Hc. destruct op; try discriminate Hp; try done; cbn [switch]; auto with natural.
  all: try (apply natural_pushop; natural).
  all: try (apply natural_COPY; natural).
  all: natural.
Qed.

Lemma natural_caseCreate : natural caseCreate.
Proof. unfold caseCreate. natural. Qed.
Lemma natural_caseCall : natural caseCall.
Proof. unfold caseCall, caseCallSetup. natural. Qed.
End Natural2.

(** ** The exact effect of the rewritten instructions *)
Section Exact.
Context {W : Type} `{EX : !ExtVMOps W} `{PL : !Platform}.
Implicit Types (s : VM W).

(** What tracing may change. *)
Definition quiet s (n : Z) (t : list OpEvent) : Prop :=
  m_onOp s = false -> n = m_nSteps s /\ t = m_trace s.

(** After paying: the machine before an instruction of known price acts. *)
Definition paid n t s : VM W :=
  set_m_io_gas (m_io_gas s - m_runGas s) (set_m_nSteps n (set_m_trace t s)).

Definition out_of_gas s (r : outcome unit) (s' : VM W) : Prop :=
  r = Throw "Out Of Gas" /\ m_io_gas s < m_runGas s /\
  exists n t, quiet s n t /\ s' = set_m_nSteps n (set_m_trace t s).

(** The state after paying and then [f]. *)
Definition pays (f : VM W -> VM W) s (k : flow) (s' : VM W) : Prop :=
  k = Loop /\ m_runGas s <= m_io_gas s /\ exists n t, quiet s n t /\ s' = f (paid n t s).

Lemma wp_charge_exact Q s : in_range 64 (m_io_gas s) -> 0 <= m_runGas s ->
  (forall n t, quiet s n t -> m_runGas s <= m_io_gas s -> Q tt (paid n t s)) ->
  wp charge Q (out_of_gas s) s.
Proof.
  intros Hio Hr HQ. unfold charge. apply wp_bind. unfold wp at 1, onOperation.
  destruct (m_onOp s) eqn:Eon.
  - apply wp_updateIOGas; vm_proj; auto.
    + intros Hle. apply HQ; [intros E; congruence|done].
    + intros Hlt. split; [done|]. split; [done|]. eexists _, _. split; [|reflexivity].
      intros E. congruence.
  - apply wp_updateIOGas; auto.
    + intros Hle. specialize (HQ (m_nSteps s) (m_trace s) ltac:(done) Hle). by destruct s.
    + intros Hlt. split; [done|]. split; [done|]. exists (m_nSteps s), (m_trace s).
      split; [done|]. by destruct s.
Qed.

Definition push_to (v pc : Z) s : VM W :=
  set_m_PC pc (set_m_stackSpace (<[Z.to_nat (m_SP s + 2) := v]> (m_stackSpace s))
    (set_m_SP (m_SP s + 1) s)).
Definition jump_to (d n : Z) s : VM W := set_m_PC d (set_m_SP (m_SP s - n) s).

Context s (Hl : length (m_stackSpace s) = 1025%nat) (Hg : in_range 64 (m_io_gas s))
  (Hrun : 0 <= m_runGas s) (Hpc : 0 <= m_PC s) (Hlen : m_PC s + 33 <= size (m_code s))
  (H63 : size (m_code s) < 2 ^ 63).

Ltac exact_done := split; [done|]; split; [assumption|]; eexists _, _; split; [eassumption|].

Lemma PUSHC_exact h n : -1 <= m_SP s < 1023 ->
  nthz (m_code s) (m_PC s + 1) = h -> nthz (m_code s) (m_PC s + 2) = n -> 0 <= n < 256 ->
  wp case_PUSHC (pays (push_to (nthz (m_pool s) h) (m_PC s + (n + 2))) s) (out_of_gas s) s.
Proof.
  intros Hsp Hh Hn Hn256. unfold case_PUSHC. apply wp_bind, wp_charge_exact; auto.
  intros m t Hq Hle. unfold paid. apply wp_bind, wp_gets. vm_proj.
  rewrite (wrap_small _ (m_PC s + 1)) by (unfold in_range; lia).
  apply wp_bind, wp_code_nth; vm_proj; [lia|]. apply wp_bind, wp_gets. vm_proj.
  apply wp_bind, wp_push; vm_proj; [lia|].
  replace (m_PC s + 1 + 1) with (m_PC s + 2) by lia.
  rewrite (wrap_small _ (m_PC s + 2)) by (unfold in_range; lia).
  apply wp_bind, wp_code_nth; vm_proj; [lia|]. apply wp_bind, wp_modify, wp_ret.
  rewrite Hn, Hh, wrap_small by (unfold in_range; lia). exact_done.
  unfold push_to, paid. vm_proj. by replace (m_PC s + 2 + n) with (m_PC s + (n + 2)) by lia.
Qed.

Lemma PUSH1_exact : -1 <= m_SP s < 1023 ->
  wp case_PUSH1 (pays (push_to (nthz (m_code s) (m_PC s + 1)) (m_PC s + 2)) s) (out_of_gas s) s.
Proof.
  intros Hsp. unfold case_PUSH1. apply wp_bind, wp_charge_exact; auto.
  intros m t Hq Hle. unfold paid. apply wp_bind, wp_gets. vm_proj.
  rewrite (wrap_small _ (m_PC s + 1)) by (unfold in_range; lia).
  apply wp_bind, wp_code_nth; vm_proj; [lia|]. apply wp_bind, wp_push; vm_proj; [lia|].
  apply wp_bind, wp_modify, wp_ret. rewrite wrap_small by (unfold in_range; lia). exact_done.
  unfold push_to, paid. vm_proj. by replace (m_PC s + 1 + 1) with (m_PC s + 2) by lia.
Qed.

Lemma PUSHn_exact op : m_OP s = op -> is_push op = true -> bytes_ok (m_code s) -> -1 <= m_SP s < 1023 ->
  wp case_PUSHn (pays (push_to (be_value 0 (operand (m_code s) (m_PC s + 1) (Z.to_nat (push_size op))))
      (m_PC s + (push_size op + 1))) s) (out_of_gas s) s.
Proof.
  intros Hop Hp Hok Hsp. pose proof (push_size_range _ Hp) as Hk.
  unfold case_PUSHn. apply wp_bind, wp_charge_exact; auto.
  intros m t Hq Hle. unfold paid. apply wp_bind, wp_gets. vm_proj.
  apply wp_bind, wp_push; vm_proj; [lia|]. apply wp_bind, wp_gets. vm_proj.
  apply wp_bind, wp_modify. rewrite Hop. fold (push_size op).
  rewrite wrap_small by (unfold in_range; lia).
  assert (slot (<[Z.to_nat (m_SP s + 2) := 0]> (m_stackSpace s)) (m_SP s + 1) = 0) as Hz.
  { replace (m_SP s + 2) with (m_SP s + 1 + 1) by lia.
    rewrite slot_insert by lia. by rewrite decide_True. }
  apply wp_bind, (push_bytes_ok _ 0); vm_proj; auto; try lia; try (by rewrite length_insert).
  apply wp_ret. exact_done. rewrite Hz, Z2Nat.id by lia. unfold push_to, paid. vm_proj.
  replace (m_SP s + 1 + 1) with (m_SP s + 2) by lia. rewrite list_insert_insert_eq.
  by replace (m_PC s + 1 + push_size op) with (m_PC s + (push_size op + 1)) by lia.
Qed.

Lemma JUMP_exact d : 0 <= m_SP s < 1024 -> slot (m_stackSpace s) (m_SP s) = d ->
  jump_dest (m_jumpDests s) d = d -> 0 <= d ->
  wp case_JUMP (pays (jump_to d 1) s) (out_of_gas s) s.
Proof.
  intros Hsp Hd Hj Hd0. unfold case_JUMP. apply wp_bind, wp_charge_exact; auto.
  intros m t Hq Hle. unfold paid. apply wp_bind, wp_top; vm_proj; [lia|]. rewrite Z.sub_0_r, Hd.
  unfold verifyJumpDest. apply wp_bind, wp_bind, wp_gets. vm_proj. rewrite Hj.
  destruct (Z.eqb_spec d (-1)); [lia|]. apply wp_ret, wp_bind, wp_modify, wp_bind, wp_drop_sp.
  apply wp_ret. exact_done. done.
Qed.

Lemma JUMPC_exact d : 0 <= m_SP s < 1024 -> slot (m_stackSpace s) (m_SP s) = d -> 0 <= d < 2 ^ 63 ->
  wp case_JUMPC (pays (jump_to d 1) s) (out_of_gas s) s.
Proof.
  intros Hsp Hd Hd0. unfold case_JUMPC. apply wp_bind, wp_charge_exact; auto.
  intros m t Hq Hle. unfold paid. apply wp_bind, wp_top; vm_proj; [lia|]. rewrite Z.sub_0_r, Hd.
  apply wp_bind, wp_modify, wp_bind, wp_drop_sp, wp_ret. rewrite wrap_small by (unfold in_range; lia).
  exact_done. done.
Qed.

Definition branch d : Z := if slot (m_stackSpace s) (m_SP s - 1) =? 0 then m_PC s + 1 else d.

Lemma JUMPI_exact d : 1 <= m_SP s < 1024 -> slot (m_stackSpace s) (m_SP s) = d ->
  jump_dest (m_jumpDests s) d = d -> 0 <= d ->
  wp case_JUMPI (pays (jump_to (branch d) 2) s) (out_of_gas s) s.
Proof.
  intros Hsp Hd Hj Hd0. unfold case_JUMPI, branch. apply wp_bind, wp_charge_exact; auto.
  intros m t Hq Hle. unfold paid. apply wp_bind, wp_top; vm_proj; [lia|].
  destruct (slot (m_stackSpace s) (m_SP s - 1) =? 0); cbn [negb]; apply wp_bind.
  - apply wp_bind, wp_gets, wp_modify. vm_proj. apply wp_bind, wp_drop_sp, wp_ret.
    rewrite wrap_small by (unfold in_range; lia). exact_done. done.
  - apply wp_bind, wp_top; vm_proj; [lia|]. rewrite Z.sub_0_r, Hd.
    unfold verifyJumpDest. apply wp_bind, wp_bind, wp_gets. vm_proj. rewrite Hj.
    destruct (Z.eqb_spec d (-1)); [lia|]. apply wp_ret, wp_modify, wp_bind, wp_drop_sp.
    apply wp_ret. exact_done. done.
Qed.

Lemma JUMPCI_exact d : 0 <= m_SP s < 1024 -> slot (m_stackSpace s) (m_SP s) = d -> 0 <= d < 2 ^ 63 ->
  wp case_JUMPCI (pays (jump_to (branch d) 2) s) (out_of_gas s) s.
Proof.
  intros Hsp Hd Hd0. unfold case_JUMPCI, branch. apply wp_bind, wp_charge_exact; auto.
  intros m t Hq Hle. unfold paid. apply wp_bind, wp_top; vm_proj; [lia|].
  destruct (slot (m_stackSpace s) (m_SP s - 1) =? 0); cbn [negb]; apply wp_bind.
  - apply wp_bind, wp_gets, wp_modify. vm_proj. apply wp_bind, wp_drop_sp, wp_ret.
    rewrite wrap_small by (unfold in_range; lia). exact_done. done.
  - apply wp_bind, wp_top; vm_proj; [lia|]. rewrite Z.sub_0_r, Hd.
    apply wp_modify, wp_bind, wp_drop_sp, wp_ret. rewrite wrap_small by (unfold in_range; lia).
    exact_done. done.
Qed.
End Exact.

(** ** One step *)
Section StepEq.
Context {W : Type} `{EX : !ExtVMOps W} `{EL : !ExtVMLaws W} `{PL : !Platform}.

(** The test of [checkStack]. *)
Definition stack_bad (op : Instruction.t) (sp : Z) : bool :=
  let used := 1 + sp - metric_args (metric op) in
  (used <? 0) || (1024 <? used + metric_ret (metric op)).

(** The machine after a successful fetch of [op]. *)
Definition loaded (op : Instruction.t) (s : VM W) : VM W :=
  set_m_copyMemSize 0 (set_m_newMemSize (size (m_mem s))
    (set_m_runGas (tier_gas (metric_tier (metric op))) (set_m_OP op s))).

Lemma step_eq (s : VM W) op : 0 <= m_PC s < size (m_code s) ->
  of_byte (nthz (m_code s) (m_PC s)) = op ->
  step s = if stack_bad op (m_SP s) then (Throw "Bad Stack", set_m_OP op s) else switch op (loaded op s).
Proof.
  intros Hpc Hop. pose proof (tier_gas_range (metric_tier (metric op))) as Ht.
  unfold step, fetchInstruction, checkStack, toInt63, stack_bad.
  unfold mbind, SE_bind, gets, code_at, modify. cbv beta.
  rewrite nthz_lookup by done. replace (0 <=? m_PC s) with true by lia. rewrite Hop.
  cbn [m_SP set_m_OP]. cbv zeta.
  rewrite (proj2 (Z.ltb_ge 0x7FFFFFFFFFFFFFFF (tier_gas _))) by lia.
  destruct (_ || _); done.
Qed.
End StepEq.

Section Sim.
Context {W : Type} `{EX : !ExtVMOps W} `{EL : !ExtVMLaws W} `{PL : !Platform}.
Context (c : bytes) (Hc : bytes_ok c) (Hc62 : size c < 2 ^ 62).
Context (code1 : bytes) (P1 : pass1_done c code1) (L1 : length code1 = (length c + 33)%nat)
  (O1 : bytes_ok code1).
Implicit Types (s : VM W).

(** The reference machine that corresponds to [s]; its [m_OP] may differ. *)
Definition view (o : Instruction.t) s : VM W := set_m_OP o (plain_view code1 (replicate 256 0) s).

(** The two machines end alike; after a result in [P] they also agree on the
    current instruction. *)
Definition related_at {A} (P : A -> Prop) (x y : outcome A * VM W) : Prop :=
  fst x = fst y /\ exists o, snd y = view o (snd x) /\
    (forall a, fst x = Ok a -> P a -> o = m_OP (snd x)).
Abbreviation related := (related_at (eq Return)).

Lemma related_natural {A} P (m : SE (VM W) A) s : natural code1 (replicate 256 0) m ->
  related_at P (m s) (m (view (m_OP s) s)).
Proof.
  intros Hm. assert (view (m_OP s) s = plain_view code1 (replicate 256 0) s) as -> by (by destruct s).
  rewrite Hm. split; [done|]. exists (m_OP (snd (m s))). simpl. split; [|done].
  by destruct (snd (m s)).
Qed.

(** Two instructions that pay the same and then do the same. *)
Lemma related_pays (m1 m2 : SE (VM W) flow) (f : VM W -> VM W) s o :
  (forall s, f (view o s) = view o (f s)) ->
  wp m1 (pays f s) (out_of_gas s) s -> wp m2 (pays f (view o s)) (out_of_gas (view o s)) (view o s) ->
  related (m1 s) (m2 (view o s)).
Proof.
  intros Hf H1 H2. unfold wp in *. destruct (m1 s) as [r1 s1], (m2 (view o s)) as [r2 s2].
  assert (m_io_gas (view o s) = m_io_gas s /\ m_runGas (view o s) = m_runGas s) as [Eg Er] by done.
  destruct r1; destruct r2; try (by destruct H1); try (by destruct H2);
    unfold pays, out_of_gas in H1, H2; rewrite ?Eg, ?Er in H2;
    destruct H1 as (E1 & Hle1 & n1 & t1 & _ & ->), H2 as (E2 & Hle2 & n2 & t2 & Hq2 & ->); try lia;
    simpl in E1, E2; simplify_eq; destruct (Hq2 eq_refl) as [-> ->].
  - split; [done|]. exists o. simpl. split; [by rewrite <- Hf|by intros k [= <-]].
  - split; [done|]. exists o. done.
Qed.

Lemma loaded_view op1 op2 o s : metric_tier (metric op1) = metric_tier (metric op2) ->
  loaded op2 (view o s) = view op2 (loaded op1 s).
Proof. intros E. unfold loaded. rewrite <- E. done. Qed.

(** The rewritten instruction [op1] at [PC] stands for the user's [op2]: same
    metric, same tier, same effect. *)
Lemma related_step s o op1 op2 : running c s ->
  of_byte (nthz (m_code s) (m_PC s)) = op1 -> of_byte (nthz code1 (m_PC s)) = op2 ->
  metric_tier (metric op1) = metric_tier (metric op2) ->
  stack_bad op1 (m_SP s) = stack_bad op2 (m_SP s) ->
  (stack_bad op1 (m_SP s) = false ->
   related (switch op1 (loaded op1 s)) (switch op2 (view op2 (loaded op1 s)))) ->
  related (step s) (step (view o s)).
Proof.
  intros Hr H1 H2 Ht Hsb Hrel. pose proof (boundary_nonneg _ _ (ru_PC _ _ Hr)).
  pose proof (boundary_le _ _ (ru_PC _ _ Hr)). pose proof (oo_len _ _ _ _ (ru_opt _ _ Hr)).
  rewrite (step_eq s op1), (step_eq (view o s) op2) by (done || (cbn; lia)).
  change (m_SP (view o s)) with (m_SP s). rewrite <- Hsb.
  destruct (stack_bad op1 (m_SP s)).
  - split; [done|]. by exists op2.
  - rewrite (loaded_view op1) by done. by apply Hrel.
Qed.

Lemma sim_same s o op : running c s -> of_byte (nthz (m_code s) (m_PC s)) = op ->
  of_byte (nthz code1 (m_PC s)) = op -> is_push op = false -> op <> PUSHC ->
  related (step s) (step (view o s)).
Proof.
  intros Hr H1 H2 Hp Hpc. apply (related_step s o op op); auto. intros _.
  by apply (related_natural _ (switch op) (loaded op s)), natural_switch.
Qed.

Lemma push_to_view v pc o s : push_to v pc (view o s) = view o (push_to v pc s).
Proof. done. Qed.
Lemma jump_to_view d n o s : jump_to d n (view o s) = view o (jump_to d n s).
Proof. done. Qed.

(** The facts about the loaded machine the exact rules ask for. *)
Lemma loaded_facts op s : running c s -> m_PC s < size c ->
  let s1 := loaded op s in
  length (m_stackSpace s1) = 1025%nat /\ in_range 64 (m_io_gas s1) /\ 0 <= m_runGas s1 /\
  0 <= m_PC s1 /\ m_PC s1 + 33 <= size (m_code s1) /\ size (m_code s1) < 2 ^ 63 /\
  m_PC s1 + 33 <= size code1 /\ size code1 < 2 ^ 63.
Proof.
  intros Hr Hlt. pose proof (boundary_nonneg _ _ (ru_PC _ _ Hr)).
  pose proof (oo_len _ _ _ _ (ru_opt _ _ Hr)). pose proof (tier_gas_range (metric_tier (metric op))).
  destruct (ru_wfd _ _ Hr). unfold loaded. cbv zeta. vm_proj.
  split_and!; auto; lia.
Qed.

Lemma operand_code1 q : boundary c q -> q < size c -> is_push (of_byte (nthz c q)) = true ->
  operand code1 (q + 1) (Z.to_nat (push_size (of_byte (nthz c q)))) =
  operand c (q + 1) (Z.to_nat (push_size (of_byte (nthz c q)))).
Proof.
  intros Hb Hlt Hp. pose proof (push_size_range _ Hp). apply operand_ext. intros j Hj.
  apply (p1d_arg _ _ P1 q); auto. unfold instr_len. rewrite Hp. lia.
Qed.

(** The reference machine pushes the operand. *)
Lemma plain_push s op : running c s -> m_PC s < size c -> of_byte (nthz c (m_PC s)) = op ->
  is_push op = true -> (forall x, op <> OTHER x) -> forall s1, m_OP s1 = op ->
  m_code s1 = code1 -> m_PC s1 = m_PC s -> -1 <= m_SP s1 < 1023 -> length (m_stackSpace s1) = 1025%nat ->
  in_range 64 (m_io_gas s1) -> 0 <= m_runGas s1 ->
  wp (switch op) (pays (push_to (push_val c (m_PC s)) (m_PC s + instr_len (nthz c (m_PC s)))) s1)
     (out_of_gas s1) s1.
Proof.
  intros Hr Hlt Hop Hp Hcan s1 Eop Ec Epc Hsp Hl Hg Hrun.
  pose proof (boundary_nonneg _ _ (ru_PC _ _ Hr)).
  assert (is_push (of_byte (nthz c (m_PC s))) = true) as Hp' by (by rewrite Hop).
  pose proof (operand_code1 _ (ru_PC _ _ Hr) Hlt Hp') as Hopd.
  unfold push_val, instr_len. rewrite Hp', <- Hopd, Hop.
  assert (op = PUSH1 \/ switch (W:=W) op = case_PUSHn) as [-> | ->].
  { clear -Hp Hcan. destruct op; try discriminate Hp; auto. by destruct (Hcan b). }
  - change (push_size PUSH1) with 1. rewrite <- Epc. change (Z.to_nat 1) with 1%nat.
    rewrite operand_S. cbn [be_value operand fmap list_fmap]. cbn [seq list_fmap].
    replace (0 * 256 + nthz code1 (m_PC s1 + 1)) with (nthz code1 (m_PC s1 + 1)) by lia.
    rewrite <- Ec. apply PUSH1_exact; auto; rewrite ?Ec, ?Epc; lia.
  - rewrite <- Epc, <- Ec. apply PUSHn_exact; auto; rewrite ?Ec, ?Epc; auto; lia.
Qed.

Lemma stack_bad_push sp op1 op2 :
  metric_args (metric op1) = metric_args (metric op2) ->
  metric_ret (metric op1) = metric_ret (metric op2) -> stack_bad op1 sp = stack_bad op2 sp.
Proof. intros E1 E2. unfold stack_bad. by rewrite E1, E2. Qed.

(** A push, rewritten to [PUSHC] or not. *)
Lemma sim_push s o : running c s -> m_PC s < size c ->
  is_push (of_byte (nthz c (m_PC s))) = true -> opt_at c (m_jumpDests s) (m_pool s) (m_code s) (m_PC s) ->
  related (step s) (step (view o s)).
Proof.
  intros Hr Hlt Hp Hat. set (q := m_PC s) in *. set (op2 := of_byte (nthz c q)) in *.
  assert (forall x, op2 <> OTHER x) as Hcan by (intros x; by apply push_canonical).
  destruct (push_metric op2 Hp Hcan) as (Ha & Hret & Ht).
  pose proof (ru_PC _ _ Hr) as Hb. fold q in Hb.
  assert (of_byte (nthz code1 q) = op2) as H2 by (by rewrite (p1d_op _ _ P1), lowered_push).
  assert (instr_len (nthz c q) = push_size op2 + 1) as Hil by (unfold instr_len; fold op2; by rewrite Hp).
  pose proof (push_size_range _ Hp) as Hk. pose proof (ru_SP _ _ Hr).
  assert (forall op1, stack_bad op1 (m_SP s) = false -> metric_args (metric op1) = 0 ->
    metric_ret (metric op1) = 1 -> -1 <= m_SP s < 1023) as Hroom.
  { intros op1 Hsb E1 E2. unfold stack_bad in Hsb. rewrite E1, E2 in Hsb. lia. }
  destruct Hat as [Hh Harg|_ Hk1 Hh Hrange Hn Hv].
  - assert (nthz (m_code s) q = nthz c q) as Hsame.
    { destruct Hh as [Hl|p H1 _ _ _|p H1 _ _ _]; [by rewrite Hl, lowered_push|..];
        fold op2 in H1; by rewrite H1 in Hp. }
    apply (related_step s o op2 op2); auto; [by fold q; rewrite Hsame|]. intros Hsb.
    specialize (Hroom op2 Hsb Ha Hret).
    destruct (loaded_facts op2 s Hr Hlt) as (F1 & F2 & F3 & F4 & F5 & F6 & F7 & F8).
    apply related_pays with (f := push_to (push_val c q) (q + instr_len (nthz c q))); [done| |].
    + assert (operand (m_code s) (q + 1) (Z.to_nat (push_size op2)) =
        operand c (q + 1) (Z.to_nat (push_size op2))) as Hopd
        by (apply operand_ext; intros j Hj; apply Harg; lia).
      unfold push_val. fold op2. rewrite <- Hopd, Hil.
      assert (op2 = PUSH1 \/ switch (W:=W) op2 = case_PUSHn) as [E| ->].
      { clear -Hp Hcan. clearbody op2. destruct op2; try discriminate Hp; auto. by destruct (Hcan b). }
      * rewrite E in *. change (Z.to_nat (push_size PUSH1)) with 1%nat. rewrite operand_S.
        cbn [be_value operand fmap list_fmap seq]. rewrite Z.add_0_l.
        by apply (PUSH1_exact (loaded PUSH1 s)).
      * apply (PUSHn_exact (loaded op2 s)); auto. apply (oo_ok _ _ _ _ (ru_opt _ _ Hr)).
    + by apply plain_push with (s := s).
  - apply (related_step s o PUSHC op2); auto.
    { fold q. by rewrite Hh. }
    { by apply stack_bad_push. }
    intros Hsb. specialize (Hroom PUSHC Hsb eq_refl eq_refl).
    destruct (loaded_facts PUSHC s Hr Hlt) as (F1 & F2 & F3 & F4 & F5 & F6 & F7 & F8).
    apply related_pays with (f := push_to (push_val c q) (q + instr_len (nthz c q))); [done| |].
    + rewrite <- Hv, Hil. replace (push_size op2 + 1) with (push_size op2 - 1 + 2) by lia.
      apply (PUSHC_exact (loaded PUSHC s)); auto. lia.
    + apply plain_push with (s := s); auto.
Qed.

(** The stack underrun that [JUMPCI] misses. *)
Definition underrun s : Prop :=
  nthz (m_code s) (m_PC s) = to_byte JUMPCI /\ m_SP s = 0.

Lemma sim_const_jump s o p op1 op2 : running c s -> m_PC s < size c ->
  op1 = JUMPC /\ op2 = JUMP \/ op1 = JUMPCI /\ op2 = JUMPI ->
  nthz (m_code s) (m_PC s) = to_byte op1 -> of_byte (nthz c (m_PC s)) = op2 ->
  pushes_to c p (m_PC s) -> 0 <= jump_dest (m_jumpDests s) (push_val c p) -> ~ underrun s ->
  related (step s) (step (view o s)).
Proof.
  intros Hr Hlt Hops H1 H2 Hp Hd Hnu. pose proof (boundary_nonneg _ _ (ru_PC _ _ Hr)).
  destruct (ru_jump _ _ Hr p Hp) as [Hsp Htop]; [destruct Hops as [[-> _]|[-> _]]; auto|].
  pose proof Hp as (_ & _ & Hpp & _). pose proof (push_val_range c p Hc Hpp) as [Hv0 _].
  pose proof (ru_SP _ _ Hr) as Hsp'.
  destruct (jump_dest_spec c (m_jumpDests s) (push_val c p)) as [[Hj Hjd]|[_ E]]; auto; try lia.
  { apply (oo_jd _ _ _ _ (ru_opt _ _ Hr)). }
  pose proof (jumpdest_lt c _ Hj).
  assert (of_byte (nthz code1 (m_PC s)) = op2) as H2'.
  { rewrite (p1d_op _ _ P1) by (exact (ru_PC _ _ Hr)). unfold lowered. rewrite H2.
    destruct Hops as [[_ ->]|[_ ->]]; done. }
  assert (op1 = JUMPCI -> 1 <= m_SP s) as Hsp1.
  { intros ->. destruct (Z.eq_dec (m_SP s) 0); [|lia]. exfalso. apply Hnu. by split. }
  apply (related_step s o op1 op2); auto.
  - rewrite H1. destruct Hops as [[-> _]|[-> _]]; done.
  - destruct Hops as [[-> ->]|[-> ->]]; done.
  - destruct Hops as [[-> ->]|[-> ->]]; [done|]. specialize (Hsp1 eq_refl). unfold stack_bad.
    change (metric_args (metric JUMPCI)) with 1. change (metric_args (metric JUMPI)) with 2.
    change (metric_ret (metric JUMPCI)) with 0. change (metric_ret (metric JUMPI)) with 0. lia.
  - intros _. destruct (loaded_facts op1 s Hr Hlt) as (F1 & F2 & F3 & F4 & F5 & F6 & F7 & F8).
    destruct Hops as [[-> ->]|[-> ->]]; cbn [switch].
    + apply related_pays with (f := jump_to (push_val c p) 1); [done| |].
      * apply (JUMPC_exact (loaded JUMPC s)); auto; unfold loaded; vm_proj; auto; lia.
      * apply (JUMP_exact (view JUMP (loaded JUMPC s))); auto; unfold view, plain_view, loaded; vm_proj; auto; lia.
    + specialize (Hsp1 eq_refl).
      apply related_pays with (f := jump_to (branch (loaded JUMPCI s) (push_val c p)) 2); [done| |].
      * apply (JUMPCI_exact (loaded JUMPCI s)); auto; unfold loaded; vm_proj; auto; lia.
      * apply (JUMPI_exact (view JUMPI (loaded JUMPCI s))); auto; unfold view, plain_view, loaded; vm_proj; auto; lia.
Qed.

(** Every step of the optimised machine is a step of the reference machine. *)
Lemma step_sim s o : running c s -> ~ underrun s -> related (step s) (step (view o s)).
Proof.
  intros Hr Hnu. pose proof (ru_PC _ _ Hr) as Hb.
  destruct (Z.lt_ge_cases (m_PC s) (size c)) as [Hlt|Hge].
  2: { apply (sim_same s o STOP); auto.
       - by rewrite (oo_end _ _ _ _ (ru_opt _ _ Hr) _ Hb Hge).
       - by rewrite (p1d_op _ _ P1), nthz_beyond by done. }
  pose proof (opt_here c s Hr Hlt) as Hat.
  destruct (is_push (of_byte (nthz c (m_PC s)))) eqn:Hp; [by apply sim_push|].
  destruct Hat as [[Hl|p H1 H2 H3 H4|p H1 H2 H3 H4] _|Hp' _ _ _ _ _]; [..|congruence].
  - apply (sim_same s o (of_byte (lowered (nthz c (m_PC s))))).
    + done.
    + by rewrite Hl.
    + by rewrite (p1d_op _ _ P1).
    + unfold lowered. case_match; [done|done].
    + unfold lowered. case_match eqn:E; [done|]. intros E'. rewrite E' in E. discriminate E.
  - apply (sim_const_jump s o p JUMPC JUMP); auto.
  - apply (sim_const_jump s o p JUMPCI JUMPI); auto.
Qed.

(** ** The loop and the trampoline *)

(** The reference machine stops with [Bad Stack] at the jump; the optimised one
    goes on for at most one more instruction and then stops as well. *)
Definition agrees {A} (x y : outcome A * VM W) : Prop :=
  related_at (fun _ => True) x y \/
  (fst y = Throw "Bad Stack" /\
   (fst x = Throw "Bad Stack" \/ fst x = Throw "Out Of Gas" \/ fst x = Diverge)).

Context (Hmet : metered c).

(** A [JUMPCI] in the optimised code was a [JUMPI], and its verified
    destination is on the stack. *)
Lemma at_jumpci s : running c s -> nthz (m_code s) (m_PC s) = to_byte JUMPCI ->
  m_PC s < size c /\ of_byte (nthz c (m_PC s)) = JUMPI /\
  is_jumpdest c (slot (m_stackSpace s) (m_SP s)).
Proof.
  intros Hr Hh. pose proof (ru_PC _ _ Hr) as Hb.
  destruct (Z.lt_ge_cases (m_PC s) (size c)) as [Hlt|Hge].
  2: { rewrite (oo_end _ _ _ _ (ru_opt _ _ Hr) _ Hb Hge) in Hh. discriminate Hh. }
  destruct (opt_here c s Hr Hlt) as [[Hl|p _ Hx _ _|p H1 _ Hp Hd] _|_ _ Hx _ _ _];
    [|rewrite Hx in Hh; discriminate Hh| |rewrite Hx in Hh; discriminate Hh].
  { rewrite Hl in Hh. unfold lowered in Hh. case_match eqn:E; [discriminate Hh|].
    rewrite Hh in E. discriminate E. }
  destruct (ru_jump _ _ Hr p Hp) as [_ ->]; [auto|]. pose proof Hp as (_ & _ & Hpp & _).
  pose proof (push_val_range c p Hc Hpp) as [Hv0 _]. split; [done|]. split; [done|].
  destruct (jump_dest_spec c (m_jumpDests s) (push_val c p)) as [[Hj _]|[_ E]]; auto; try lia.
  apply (oo_jd _ _ _ _ (ru_opt _ _ Hr)).
Qed.

Lemma underrun_step s o : running c s -> underrun s -> fst (step (view o s)) = Throw "Bad Stack".
Proof.
  intros Hr [Hh Hsp]. pose proof (ru_PC _ _ Hr) as Hb. pose proof (boundary_nonneg _ _ Hb).
  pose proof (boundary_le _ _ Hb). destruct (at_jumpci s Hr Hh) as (Hlt & Hji & _).
  rewrite (step_eq (view o s) JUMPI).
  - change (m_SP (view o s)) with (m_SP s). by rewrite Hsp.
  - cbn. lia.
  - change (of_byte (nthz code1 (m_PC s)) = JUMPI). rewrite (p1d_op _ _ P1) by done.
    unfold lowered. by rewrite Hji.
Qed.

Lemma below_stack_stops s : running c s -> m_SP s = -2 -> fst (step s) = Throw "Bad Stack".
Proof.
  intros Hr Hsp. pose proof (ru_PC _ _ Hr) as Hb. pose proof (boundary_nonneg _ _ Hb).
  pose proof (boundary_le _ _ Hb). pose proof (oo_len _ _ _ _ (ru_opt _ _ Hr)).
  set (op := of_byte (nthz (m_code s) (m_PC s))). rewrite (step_eq s op) by (done || lia).
  destruct (metric_nonneg op). unfold stack_bad. rewrite Hsp.
  by replace ((1 + -2 - metric_args (metric op) <? 0)) with true by lia.
Qed.

Lemma underrun_loop s fuel : running c s -> underrun s ->
  fst (cases_loop fuel s) = Throw "Bad Stack" \/ fst (cases_loop fuel s) = Throw "Out Of Gas" \/
  fst (cases_loop fuel s) = Diverge.
Proof.
  intros Hr Hu. pose proof Hu as [Hh Hsp]. destruct fuel as [|fuel]; [auto|]. cbn [cases_loop].
  pose proof (step_ok c Hc Hc62 s Hr Hmet) as Hok. unfold wp in Hok.
  pose proof (boundary_nonneg _ _ (ru_PC _ _ Hr)).
  destruct (at_jumpci s Hr Hh) as (Hlt & _ & Hj). pose proof (jumpdest_lt c _ Hj).
  pose proof Hj as [Hj0%boundary_nonneg _]. pose proof (oo_len _ _ _ _ (ru_opt _ _ Hr)) as Hlen.
  assert (step s = switch JUMPCI (loaded JUMPCI s)) as Hst.
  { rewrite (step_eq s JUMPCI) by (lia || by rewrite Hh). by rewrite Hsp. }
  destruct (loaded_facts JUMPCI s Hr Hlt) as (F1 & F2 & F3 & F4 & F5 & F6 & _ & _).
  pose proof (JUMPCI_exact (loaded JUMPCI s) F1 F2 F3 F4 F5 F6 _ ltac:(unfold loaded; vm_proj; lia)
    eq_refl ltac:(unfold loaded; vm_proj; lia)) as Hex. rewrite Hst in Hok.
  unfold mbind, SE_bind. rewrite Hst. change (switch JUMPCI) with (case_JUMPCI (W:=W)) in *. unfold wp in Hex.
  destruct (case_JUMPCI (loaded JUMPCI s)) as [r s1]. destruct r as [k|w|w|w|z|].
  - destruct Hex as (-> & _ & n & t & _ & Hs1). destruct Hok as [Hr1 _].
    destruct fuel as [|fuel]; [auto|]. left. cbn [cases_loop]. unfold mbind, SE_bind.
    assert (fst (step s1) = Throw "Bad Stack") as Hbs.
    { apply below_stack_stops; [done|]. rewrite Hs1. cbn. lia. }
    destruct (step s1) as [r2 s2]. simpl in Hbs. by subst r2.
  - destruct Hex as (E1 & _). simpl in E1. simplify_eq. auto.
  - by destruct Hex as (E1 & _).
  - by destruct Hex as (E1 & _).
  - by destruct Hex as (E1 & _).
  - by destruct Hex as (E1 & _).
Qed.

Lemma cases_loop_sim fuel : forall s o, running c s ->
  agrees (cases_loop fuel s) (cases_loop fuel (view o s)).
Proof.
  induction fuel as [|f IH]; intros s o Hr.
  { left. split; [done|]. by exists o. }
  destruct (decide (nthz (m_code s) (m_PC s) = to_byte JUMPCI /\ m_SP s = 0)) as [Hu|Hnu].
  { right. split; [|by apply underrun_loop]. cbn [cases_loop]. unfold mbind, SE_bind.
    pose proof (underrun_step s o Hr Hu) as E. destruct (step (view o s)) as [r s2]. simpl in E. by subst r. }
  pose proof (step_sim s o Hr Hnu) as (E1 & o' & E2 & E3).
  pose proof (step_ok c Hc Hc62 s Hr Hmet) as Hok. cbn [cases_loop]. unfold mbind, SE_bind.
  unfold wp in Hok. destruct (step s) as [r1 s1], (step (view o s)) as [r2 s2]. simpl in *. subst r2 s2.
  destruct r1 as [[|]| | | | |]; try (left; split; [done|]; by exists o').
  - destruct Hok as [Hr1 _]. by apply IH.
  - left. split; [done|]. exists o'. split; [done|]. intros [] _ _. by apply (E3 Return).
Qed.

Lemma agrees_bind {A B} (m1 m2 : SE (VM W) A) (k : A -> SE (VM W) B) s s2 :
  agrees (m1 s) (m2 s2) ->
  (forall a s1, m1 s = (Ok a, s1) -> agrees (k a s1) (k a (view (m_OP s1) s1))) ->
  agrees ((m1 ≫= k) s) ((m2 ≫= k) s2).
Proof.
  intros Hm Hk. unfold mbind, SE_bind. destruct (m1 s) as [r1 t1], (m2 s2) as [r2 t2].
  destruct Hm as [(E1 & o & E2 & E3)|[E1 E2]]; simpl in *.
  - subst r2 t2. destruct r1 as [a| | | | |]; try (left; split; [done|]; by exists o).
    rewrite (E3 a eq_refl I). by apply Hk.
  - subst r2. right. split; [done|]. by destruct E2 as [->|[->| ->]]; auto.
Qed.

Definition ready s : Prop :=
  (running c s /\ m_bounce s = Some InterpretCases) \/ (exists s0, calls_out c s0 s) \/ m_bounce s = None.

Lemma call_out_next s p : m_bounce s = Some p -> (exists s0, calls_out c s0 s) ->
  (p = CaseCreate \/ p = CaseCall) /\
  forall f a s1, call_bounce f p s = (Ok a, s1) -> ready s1.
Proof.
  intros Hb (s0 & Hout). destruct (call_out_ok c Hc62 s0 s p Hb Hout) as (Hw & Hp1 & Hp2).
  split; [destruct p; auto; done|]. intros f a s1 E.
  rewrite (call_bounce_fuel f p Hp1 Hp2) in E. apply (wp_run _ _ _ _ _ _ Hw) in E as (Hr & Hb' & _).
  left. auto.
Qed.

Lemma trampoline_sim fuel : forall s o, ready s -> (running c s /\ m_bounce s = Some InterpretCases \/ o = m_OP s) ->
  agrees (trampoline fuel s) (trampoline fuel (view o s)).
Proof.
  induction fuel as [|f IH]; intros s o Hrd Ho.
  { left. split; [done|]. by exists o. }
  cbn [trampoline]. unfold mbind at 1 3, SE_bind at 1 3, gets.
  change (m_bounce (view o s)) with (m_bounce s).
  destruct Hrd as [[Hr Hb]|[Hout|Hb]].
  - rewrite Hb. apply agrees_bind.
    + cbn [call_bounce]. unfold interpretCases, mbind, SE_bind, gets.
      change (m_caseInit (view o s)) with (m_caseInit s). rewrite (ru_init _ _ Hr).
      by apply cases_loop_sim.
    + intros [] s1 E. apply IH; [|by right]. cbn [call_bounce] in E.
      unfold interpretCases, mbind, SE_bind, gets in E. rewrite (ru_init _ _ Hr) in E.
      pose proof (wp_run _ _ _ _ _ _ (cases_loop_partial c Hc Hc62 Hmet f s Hr) E) as [(_ & Hb1 & _)|(s0 & H0 & _)].
      * right. by right.
      * right. left. eauto.
  - assert (o = m_OP s) as ->.
    { destruct Ho as [[_ Hb]|Ho]; [|done].
      destruct Hout as (s0 & op & [[E _]|[E _]] & _); congruence. }
    destruct (m_bounce s) as [p|] eqn:Hb.
    2: { destruct Hout as (s0 & op & [[E _]|[E _]] & _); congruence. }
    destruct (call_out_next s p Hb Hout) as [Hp Hnext]. apply agrees_bind.
    + left. destruct Hp as [-> | ->]; cbn [call_bounce]; apply related_natural;
        [apply natural_caseCreate|apply natural_caseCall].
    + intros [] s1 E. apply IH; [by eapply Hnext|by right].
  - rewrite Hb. left. split; [done|]. exists o. split; [done|]. intros [] _ _.
    destruct Ho as [[_ E]|Ho]; [congruence|done].
Qed.
End Sim.

(** ** [exec] *)
Section ExecSim.
Context {W : Type} `{EX : !ExtVMOps W} `{EL : !ExtVMLaws W} `{PL : !Platform}.

(** [exec] with another way to prepare the code. *)
Definition exec_with (prepare : SE (VM W) unit) (fuel : nat) : SE (VM W) bytes := fun s =>
  match (modify (fun s => set_m_io_gas (u64 (io_gas s)) s);; set_bounce (Some InterpretCases);;
         modify (set_m_caseInit true);; prepare;; trampoline fuel) s with
  | (Ok _, s) => (Ok (m_output s), set_io_gas (m_io_gas s) s)
  | (Throw w, s) => (Throw w, set_io_gas (m_io_gas s) s)
  | (r, s) => (recast r, s)
  end.

(** [optimize] without its second loop. *)
Definition disarm : SE (VM W) unit :=
  copyCode 33;;
  nBytes ← gets (fun s => size (code (m_ctx s)));
  build_jumpDests (Z.to_nat nBytes) nBytes 0.

Lemma initEntry_eq fuel (s : VM W) : m_caseInit s = false ->
  initEntry fuel (set_m_bounce (Some InitEntry) s) =
  optimize (set_m_caseInit true (set_m_bounce (Some InterpretCases) s)).
Proof.
  intros H. unfold initEntry, interpretCases, set_bounce, mbind, SE_bind, gets, modify.
  change (m_caseInit (set_m_bounce _ (set_m_bounce _ s))) with (m_caseInit s). by rewrite H.
Qed.

Lemma exec_eq fuel gas (e : ExtVM W) onOp :
  exec (S fuel) (new_VM gas e onOp) = exec_with optimize fuel (new_VM gas e onOp).
Proof.
  unfold exec, exec_with. cbn [trampoline]. unfold set_bounce, mbind, SE_bind, gets, modify.
  change (m_bounce (set_m_bounce (Some InitEntry) _)) with (Some InitEntry). cbn [call_bounce].
  rewrite initEntry_eq by done. done.
Qed.

(** What the caller of [exec] observes: the result, the gas left, the context
    with the account state, and the machine's memory and stack. *)
Definition observed {A} (x : outcome A * VM W) :=
  (fst x, io_gas (snd x), m_ctx (snd x), m_mem (snd x), m_stackSpace (snd x)).

(** Both ways to prepare the code lead to corresponding machines. *)
Lemma prepared gas (e : ExtVM W) onOp : ext_inv e ->
  let start b := set_m_caseInit true (set_m_bounce (Some InterpretCases)
                   (set_m_io_gas (u64 gas) (new_VM gas e b))) in
  exists t1 code1, optimize (start onOp) = (Ok tt, t1) /\
    disarm (start false) = (Ok tt, view code1 STOP t1) /\ running (code e) t1 /\
    m_bounce t1 = Some InterpretCases /\
    pass1_done (code e) code1 /\ length code1 = (length (code e) + 33)%nat /\ bytes_ok code1.
Proof.
  intros He start. destruct (ext_inv_range _ He) as (_ & _ & _ & Hsz & _ & Hok & _).
  assert (wp optimize (fun _ s' => exists c' pool jd, opt_ok (code e) jd pool c' /\
     s' = set_m_code c' (set_m_pool pool (set_m_jumpDests jd (start onOp)))) (fun _ _ => False)
     (start onOp)) as H1 by (apply optimize_ok; [done|done|]; intros; eauto 6).
  assert (wp disarm (fun _ s' => exists code1 jd, pass1_done (code e) code1 /\
     length code1 = (length (code e) + 33)%nat /\ bytes_ok code1 /\
     jumpdests_to (code e) (size (code e)) jd /\ s' = set_m_code code1 (set_m_jumpDests jd (start false)))
     (fun _ _ => False) (start false)) as H2.
  { unfold disarm, copyCode. apply wp_bind, wp_modify, wp_bind, wp_gets.
    apply (first_loop_ok _ _ (start false)); [done|done|]. intros; eauto 8. }
  unfold wp in H1, H2. destruct (optimize (start onOp)) as [[[]| | | | |] t1]; try done.
  destruct (disarm (start false)) as [[[]| | | | |] t2]; try done.
  destruct H1 as (c' & pool & jd & Hopt & ->), H2 as (code1 & jd2 & P1 & L1 & O1 & J2 & ->).
  pose proof (jumpdests_unique _ _ _ _ (oo_jd _ _ _ _ Hopt) J2) as <-.
  eexists _, code1. split; [reflexivity|]. split; [reflexivity|]. split; [|done].
  by apply start_running.
Qed.

Lemma exec_sim gas (e : ExtVM W) onOp fuel : ext_inv e -> metered (code e) -> 0 <= gas ->
  2 * u64 gas + 4 <= Z.of_nat fuel ->
  let x := exec (S fuel) (new_VM gas e onOp) in
  let y := exec_with disarm fuel (new_VM gas e false) in
  observed x = observed y \/
  (fst y = Throw "Bad Stack" /\ (fst x = Throw "Bad Stack" \/ fst x = Throw "Out Of Gas")).
Proof.
  intros He Hmet Hg Hf. destruct (ext_inv_range _ He) as (_ & _ & _ & Hsz & _ & Hok & _).
  pose proof (exec_ok gas e onOp (S fuel) He Hmet Hg ltac:(lia)) as Hx. unfold wp in Hx.
  rewrite exec_eq in *. destruct (prepared gas e onOp He) as (t1 & code1 & E1 & E2 & Hr & Hb & P1 & L1 & O1).
  pose proof (trampoline_sim (code e) Hok Hsz code1 P1 L1 O1 Hmet fuel t1 STOP) as Hsim.
  specialize (Hsim ltac:(left; auto) ltac:(left; auto)).
  unfold exec_with, set_bounce, mbind, SE_bind, modify in *.
  change (io_gas (new_VM gas e onOp)) with gas in *. change (io_gas (new_VM gas e false)) with gas in *.
  rewrite E1, E2 in *. destruct (trampoline fuel t1) as [r1 u1], (trampoline fuel (view code1 STOP t1)) as [r2 u2].
  destruct Hsim as [(Er & o & Eu & _)|[Ey Exx]]; simpl in *.
  - subst r2 u2. left. by destruct r1.
  - subst r2. right. split; [done|]. destruct Exx as [->|[->| ->]]; auto.
    destruct Hx as [[w Hw] _]. discriminate Hw.
Qed.
End ExecSim.
