(* ===== verification/ScRlp.v ===== *)
(** * RLP: reading and writing the recursive length prefix encoding

    Model of [src/src/scrlp.h] and [src/src/scrlp.cpp]: the constants, the
    reader class [RLP] (strictness flags, lengths, payloads, the item iterator,
    the subscript operator with its mutable cache, the conversions) and the
    writer class [RLPStream] with its stack of unfinished lists.

    The bytes an [RLP] refers to are the list [m_data]; the functions that only
    look at those bytes take them as their argument.  Exceptions are [Throw];
    loops that the source bounds only by the data carry a bound that
    [ScRlpRead] shows to be enough. *)

From S2P Require Import Prelude ScFixedHash.

(** ** Constants *)
Definition c_rlpMaxLengthBytes : Z := 8.
Definition c_rlpDataImmLenStart : Z := 0x80.
Definition c_rlpListStart : Z := 0xc0.
Definition c_rlpDataImmLenCount : Z :=
  u8 (c_rlpListStart - c_rlpDataImmLenStart - c_rlpMaxLengthBytes).
Definition c_rlpDataIndLenZero : Z := u8 (c_rlpDataImmLenStart + c_rlpDataImmLenCount - 1).
Definition c_rlpListImmLenCount : Z := u8 (256 - c_rlpListStart - c_rlpMaxLengthBytes).
Definition c_rlpListIndLenZero : Z := u8 (c_rlpListStart + c_rlpListImmLenCount - 1).

(** [numeric_limits<size_t>::max()] *)
Definition size_t_max : Z := 2 ^ 64 - 1.

(** [bytesRequired(_i)]: shifts [_i] out, a byte at a time. *)
Fixpoint bytesRequired_loop (fuel : nat) (i _i : Z) : Z :=
  match fuel with
  | O => i
  | S f => if _i =? 0 then i else bytesRequired_loop f (i + 1) (Z.shiftr _i 8)
  end.
Definition bytesRequired (_i : Z) : Z :=
  bytesRequired_loop (S (Z.to_nat (Z.log2 _i))) 0 _i.

(** [intTraits<_T>]: the size limit of an integer type and the conversion to it. *)
Record intTraits := mkIntTraits { maxSize : Z; cast : Z -> Z }.
Definition int_uint8 : intTraits := mkIntTraits 1 u8.
Definition int_unsigned : intTraits := mkIntTraits 4 u32.
Definition int_uint64 : intTraits := mkIntTraits 8 u64.
Definition int_u160 : intTraits := mkIntTraits 20 u160.
Definition int_u256 : intTraits := mkIntTraits 32 u256.
Definition int_bigint : intTraits := mkIntTraits (2 ^ 32 - 1) (fun x => x).

Module RLP.

(** ** Conversion flags *)
Definition AllowNonCanon : Z := 1.
Definition ThrowOnFail : Z := 4.
Definition FailIfTooBig : Z := 8.
Definition FailIfTooSmall : Z := 16.
Definition Strict : Z := Z.lor ThrowOnFail FailIfTooBig.
Definition VeryStrict : Z := Z.lor (Z.lor ThrowOnFail FailIfTooBig) FailIfTooSmall.
Definition LaissezFaire : Z := AllowNonCanon.

(** [_flags & f] as a condition *)
Definition has (_flags f : Z) : bool := negb (Z.land _flags f =? 0).

(** ** The shape of an item *)
Definition isNull (d : bytes) : bool := size d =? 0.
Definition isEmpty (d : bytes) : bool :=
  negb (isNull d) && ((nthz d 0 =? c_rlpDataImmLenStart) || (nthz d 0 =? c_rlpListStart)).
Definition isData (d : bytes) : bool := negb (isNull d) && (nthz d 0 <? c_rlpListStart).
Definition isList (d : bytes) : bool := negb (isNull d) && (c_rlpListStart <=? nthz d 0).
Definition isSingleByte (d : bytes) : bool :=
  negb (isNull d) && (nthz d 0 <? c_rlpDataImmLenStart).

Definition requireGood (d : bytes) : outcome unit :=
  if isNull d then Throw "Bad RLP" else
  if negb (nthz d 0 =? c_rlpDataImmLenStart + 1) then Ok tt else
  if size d <? 2 then Throw "Bad RLP" else
  if nthz d 1 <? c_rlpDataImmLenStart then Throw "Bad RLP" else Ok tt.

(** The loop [ret = (ret << 8) | m_data[i + 1]] for [i] below [lengthSize]. *)
Fixpoint length_loop (n : nat) (d : bytes) (i ret : Z) : Z :=
  match n with
  | O => ret
  | S n' => length_loop n' d (i + 1) (u64 (Z.lor (Z.shiftl ret 8) (nthz d (i + 1))))
  end.

(** The two branches of [length()] that read a length of [lengthSize] bytes;
    [limit] is the least length that needs them. *)
Definition length_ind (d : bytes) (lengthSize limit : Z) : outcome Z :=
  if size d <=? lengthSize then Throw "Bad RLP" else
  if (1 <? size d) && (nthz d 1 =? 0) then Throw "Bad RLP" else
  if 8 <? lengthSize then Throw "Undersized RLP" else
  if nthz d 1 =? 0 then Throw "Bad RLP" else
  let ret := length_loop (Z.to_nat lengthSize) d 0 0 in
  if ret <? limit then Throw "Bad RLP" else
  if size_t_max - 0x100 <=? ret then Throw "Undersized RLP" else Ok ret.

(** [length()] *)
Definition length_ (d : bytes) : outcome Z :=
  if isNull d then Ok 0 else
  _ ← requireGood d;
  let n := nthz d 0 in
  if n <? c_rlpDataImmLenStart then Ok 1 else
  if n <=? c_rlpDataIndLenZero then Ok (n - c_rlpDataImmLenStart) else
  if n <? c_rlpListStart then
    length_ind d (n - c_rlpDataIndLenZero)
      (c_rlpListStart - c_rlpDataImmLenStart - c_rlpMaxLengthBytes) else
  if n <=? c_rlpListIndLenZero then Ok (n - c_rlpListStart) else
  length_ind d (n - c_rlpListIndLenZero) (0x100 - c_rlpListStart - c_rlpMaxLengthBytes).

Definition lengthSize (d : bytes) : Z :=
  if isData d && (c_rlpDataIndLenZero <? nthz d 0) then nthz d 0 - c_rlpDataIndLenZero else
  if isList d && (c_rlpListIndLenZero <? nthz d 0) then nthz d 0 - c_rlpListIndLenZero else 0.

Definition payloadOffset (d : bytes) : Z := if isSingleByte d then 0 else 1 + lengthSize d.

Definition actualSize (d : bytes) : outcome Z :=
  if isNull d then Ok 0 else
  if isSingleByte d then Ok 1 else
  if isData d || isList d then l ← length_ d; Ok (u64 (payloadOffset d + l)) else Ok 0.

Definition payload (d : bytes) : outcome bytes :=
  l ← length_ d;
  if size d <? l then Throw "Bad RLP" else Ok (cropped d (payloadOffset d) l).

Definition isInt (d : bytes) : outcome bool :=
  if isNull d then Ok false else
  _ ← requireGood d;
  let n := nthz d 0 in
  if n <? c_rlpDataImmLenStart then Ok (negb (n =? 0)) else
  if n =? c_rlpDataImmLenStart then Ok true else
  if n <=? c_rlpDataIndLenZero then
    if size d <=? 1 then Throw "Bad RLP" else Ok (negb (nthz d 1 =? 0)) else
  if n <? c_rlpListStart then
    if size d <=? 1 + n - c_rlpDataIndLenZero then Throw "Bad RLP"
    else Ok (negb (nthz d (1 + n - c_rlpDataIndLenZero) =? 0))
  else Ok false.

(** [RLP(bytesConstRef _d, Strictness _s)]: the resulting [m_data]. *)
Definition check_size (d : bytes) (_s : Z) : outcome bytes :=
  m ← (if has _s FailIfTooBig then
         a ← actualSize d;
         if a <? size d then
           if has _s ThrowOnFail then Throw "Oversized RLP" else Ok []
         else Ok d
       else Ok d);
  if has _s FailIfTooSmall then
    a ← actualSize m;
    if size d <? a then
      if has _s ThrowOnFail then Throw "Undersized RLP" else Ok []
    else Ok m
  else Ok m.

(** [sizeAsEncoded(_data)] *)
Definition sizeAsEncoded (_data : bytes) : outcome Z :=
  m ← check_size _data (Z.lor ThrowOnFail FailIfTooSmall);
  actualSize m.

(** [items()]: the loop drops one item at a time. *)
Fixpoint items_loop (fuel : nat) (d : bytes) (i : Z) : outcome Z :=
  match fuel with
  | O => Diverge
  | S f => if size d =? 0 then Ok i
           else s ← sizeAsEncoded d; items_loop f (cropped_from d s) (i + 1)
  end.
Definition items (d : bytes) : outcome Z :=
  if isList d then p ← payload d; items_loop (S (length p)) p 0 else Ok 0.

Definition itemCount (d : bytes) : outcome Z := if isList d then items d else Ok 0.
Definition itemCountStrict (d : bytes) : outcome Z :=
  if negb (isList d) then Throw "Bad Cast" else items d.
(** [size()] and [sizeStrict()] *)
Definition size_ (d : bytes) : outcome Z := if isData d then length_ d else Ok 0.
Definition sizeStrict (d : bytes) : outcome Z :=
  if negb (isData d) then Throw "Bad Cast" else length_ d.

(** ** The object: its bytes and the list-indexing cache *)
Record t := mk {
  m_data : bytes;
  m_lastIndex : Z;
  m_lastEnd : Z;
  m_lastItem : bytes }.

Definition of_data (d : bytes) : t := mk d size_t_max 0 [].
(** [RLP()] *)
Definition null : t := of_data [].
(** [RLP(_d, _s)] *)
Definition new (d : bytes) (_s : Z) : outcome t := m ← check_size d _s; Ok (of_data m).

Definition set_lastIndex (i : Z) (r : t) : t := mk (m_data r) i (m_lastEnd r) (m_lastItem r).
Definition set_lastEnd (e : Z) (r : t) : t := mk (m_data r) (m_lastIndex r) e (m_lastItem r).
Definition set_lastItem (b : bytes) (r : t) : t := mk (m_data r) (m_lastIndex r) (m_lastEnd r) b.

(** The loop of [operator[]]. *)
Fixpoint index_loop (fuel : nat) (_i : Z) : SE t unit :=
  match fuel with
  | O => fail Diverge
  | S f =>
    r ← gets id;
    if (m_lastIndex r <? _i) && negb (size (m_lastItem r) =? 0) then
      p ← lift_outcome (payload (m_data r));
      _ ← modify (set_lastItem (cropped_from p (m_lastEnd r)));
      it ← gets m_lastItem;
      s ← lift_outcome (sizeAsEncoded it);
      _ ← modify (set_lastItem (cropped it 0 s));
      it ← gets m_lastItem;
      _ ← modify (fun r => set_lastEnd (u64 (m_lastEnd r + size it)) r);
      _ ← modify (fun r => set_lastIndex (u64 (m_lastIndex r + 1)) r);
      index_loop f _i
    else mret tt
  end.

(** [operator[](_i)] *)
Definition index (_i : Z) : SE t t :=
  r ← gets id;
  _ ← when (_i <? m_lastIndex r)
    (p ← lift_outcome (payload (m_data r));
     s ← lift_outcome (sizeAsEncoded p);
     _ ← modify (set_lastEnd s);
     p ← lift_outcome (payload (m_data r));
     _ ← modify (set_lastItem (cropped p 0 s));
     modify (set_lastIndex 0));
  _ ← index_loop (S (S (length (m_data r)))) _i;
  it ← gets m_lastItem;
  lift_outcome (new it (Z.lor ThrowOnFail FailIfTooSmall)).

(** ** The iterator

    Iterators are compared by the address and the count of the current item, so
    a [bytesConstRef] into the parent's bytes [d] is an offset, absent for the
    null reference, and a count. *)
Record vref := mkRef { r_at : option Z; r_count : Z }.
#[global] Instance vref_eq_dec : EqDecision vref.
Proof. solve_decision. Defined.

(** The bytes a reference into [d] denotes. *)
Definition view (d : bytes) (r : vref) : bytes :=
  match r_at r with
  | Some p => take (Z.to_nat (r_count r)) (drop (Z.to_nat p) d)
  | None => []
  end.
Definition ref_cropped (r : vref) (_begin _count : Z) : vref :=
  match r_at r with
  | Some p => if (_begin <=? r_count r) && (_count <=? r_count r) && (_begin + _count <=? r_count r)
              then mkRef (Some (p + _begin)) _count else mkRef None 0
  | None => mkRef None 0
  end.
(** [next().data()] *)
Definition ref_next (r : vref) : option Z := (fun p => p + r_count r) <$> r_at r.

Record iterator := mkIt { m_remaining : Z; m_currentItem : vref }.

(** [payload()] as a reference into the item's own bytes. *)
Definition payload_ref (d : bytes) : outcome vref :=
  l ← length_ d;
  if size d <? l then Throw "Bad RLP"
  else Ok (ref_cropped (mkRef (Some 0) (size d)) (payloadOffset d) l).

(** [iterator(_parent, _begin)] *)
Definition begin_ (d : bytes) : outcome iterator :=
  if isList d then
    pl ← payload_ref d;
    s ← sizeAsEncoded (view d pl);
    let cur := ref_cropped pl 0 s in
    Ok (mkIt (u64 (r_count pl - r_count cur)) cur)
  else Ok (mkIt 0 (mkRef (Some (size d)) 0)).
Definition end_ (d : bytes) : iterator := mkIt 0 (mkRef (Some (size d)) 0).

(** [iterator::operator++()] *)
Definition incr (d : bytes) (it : iterator) : outcome iterator :=
  if negb (m_remaining it =? 0) then
    let cur := mkRef (ref_next (m_currentItem it)) (m_remaining it) in
    s ← sizeAsEncoded (view d cur);
    let cur := ref_cropped cur 0 s in
    Ok (mkIt (m_remaining it - Z.min (m_remaining it) (r_count cur)) cur)
  else Ok (mkIt 0 (mkRef (ref_next (m_currentItem it)) 0)).

(** [for (auto const& i : *this) body(i)], collecting what [body] returns; each
    [i] is [RLP(m_currentItem)]. *)
Fixpoint for_loop {A} (fuel : nat) (d : bytes) (body : t -> outcome A) (it : iterator)
    : outcome (list A) :=
  match fuel with
  | O => Diverge
  | S f =>
    if bool_decide (m_currentItem it = m_currentItem (end_ d)) then Ok []
    else
      i ← new (view d (m_currentItem it)) VeryStrict;
      a ← body i;
      it' ← incr d it;
      l ← for_loop f d body it';
      Ok (a :: l)
  end.
Definition for_items {A} (fuel : nat) (d : bytes) (body : t -> outcome A) : outcome (list A) :=
  it ← begin_ d; for_loop fuel d body it.

(** A bound for the loop over the items of [d]: every item takes a byte. *)
Definition enough (d : bytes) : nat := S (length d).

(** ** Conversions *)

Definition toBytes (_flags : Z) (d : bytes) : outcome bytes :=
  if negb (isData d) then
    if has _flags ThrowOnFail then Throw "Bad Cast" else Ok []
  else
    p ← payload d;
    l ← length_ d;
    (* [l] bytes from the payload's address *)
    if l <=? size p then Ok (take (Z.to_nat l) p) else Undef "toBytes reads past the data".

(** [toBytesConstRef(_flags)] and [toString(_flags)] *)
Definition toBytesConstRef (_flags : Z) (d : bytes) : outcome bytes :=
  if negb (isData d) then
    if has _flags ThrowOnFail then Throw "Bad Cast" else Ok []
  else
    p ← payload d;
    l ← length_ d;
    Ok (cropped p 0 l).

(** [toInt<_T>(_flags)] *)
Definition toInt (T : intTraits) (_flags : Z) (d : bytes) : outcome Z :=
  _ ← requireGood d;
  i ← isInt d;
  if (negb i && negb (has _flags AllowNonCanon)) || isList d || isNull d then
    if has _flags ThrowOnFail then Throw "Bad Cast" else Ok 0
  else
    p ← payload d;
    if (maxSize T <? size p) && has _flags FailIfTooBig then
      if has _flags ThrowOnFail then Throw "Bad Cast" else Ok 0
    else Ok (fromBigEndian (cast T) p).

(** [toHash<FixedHash<N>>(_flags)] *)
Definition toHash (N : nat) (_flags : Z) (d : bytes) : outcome bytes :=
  _ ← requireGood d;
  p ← payload d;
  let l := size p in
  if negb (isData d) || ((Z.of_nat N <? l) && has _flags FailIfTooBig)
     || ((l <? Z.of_nat N) && has _flags FailIfTooSmall) then
    if has _flags ThrowOnFail then Throw "Bad Cast" else Ok (FixedHash.zero N)
  else
    let s := Z.min (Z.of_nat N) l in
    Ok (take (N - Z.to_nat s) (FixedHash.zero N) ++ take (Z.to_nat s) p).

(** [toList(_flags)] *)
Definition toList (fuel : nat) (_flags : Z) (d : bytes) : outcome (list t) :=
  if negb (isList d) then
    if has _flags ThrowOnFail then Throw "Bad Cast" else Ok []
  else for_items fuel d (fun i => Ok i).

(** [Converter<T>::convert(_r, _flags)] for byte strings, integers and hashes;
    a converter works on the object it reads, whose cache it may move. *)
Definition convert_bytes (_flags : Z) : SE t bytes :=
  r ← gets m_data; lift_outcome (toBytes _flags r).
Definition convert_int (T : intTraits) (_flags : Z) : SE t Z :=
  r ← gets m_data; lift_outcome (toInt T _flags r).
Definition convert_hash (N : nat) (_flags : Z) : SE t bytes :=
  r ← gets m_data; lift_outcome (toHash N _flags r).

(** [toVector<T>(_flags)]; [conv] is [convert<T>(_flags)]. *)
Definition toVector {T} (fuel : nat) (conv : Z -> SE t T) (_flags : Z) (d : bytes)
    : outcome (list T) :=
  if isList d then
    _ ← itemCount d;
    for_items fuel d (fun i => fst (conv _flags i))
  else if has _flags ThrowOnFail then Throw "Bad Cast" else Ok [].

(** [toPair<T, U>(_flags)]; [dT] and [dU] are the default-constructed values. *)
Definition toPair {T U} (dT : T) (dU : U) (cT : Z -> SE t T) (cU : Z -> SE t U) (_flags : Z)
    : SE t (T * U) :=
  r ← gets m_data;
  n ← lift_outcome (itemCountStrict r);
  if negb (n =? 2) then
    if has _flags ThrowOnFail then throw "Bad Cast" else mret (dT, dU)
  else
    i0 ← index 0;
    a ← lift_outcome (fst (cT _flags i0));
    i1 ← index 1;
    b ← lift_outcome (fst (cU _flags i1));
    mret (a, b).

(** The loop of [toArray<T, N>]: items [i], ..., [i + n - 1]. *)
Fixpoint toArray_loop {T} (cT : Z -> SE t T) (_flags : Z) (n : nat) (i : Z) : SE t (list T) :=
  match n with
  | O => mret []
  | S n' =>
    x ← index i;
    a ← lift_outcome (fst (cT _flags x));
    l ← toArray_loop cT _flags n' (i + 1);
    mret (a :: l)
  end.
Definition toArray {T} (dT : T) (N : nat) (cT : Z -> SE t T) (_flags : Z) : SE t (list T) :=
  r ← gets m_data;
  n ← lift_outcome (itemCountStrict r);
  if negb (n =? Z.of_nat N) then
    if has _flags ThrowOnFail then throw "Bad Cast" else mret (replicate N dT)
  else toArray_loop cT _flags N 0.

End RLP.

(** ** The writer *)
Module RLPStream.

(** [m_listStack]'s back is the head of the list. *)
Record t := mk { m_out : bytes; m_listStack : list (Z * Z) }.

(** [RLPStream()] *)
Definition new : t := mk [] [].

Definition push_back (b : Z) : SE t unit :=
  modify (fun s => mk (m_out s ++ [b]) (m_listStack s)).
Definition insert_end (l : bytes) : SE t unit :=
  modify (fun s => mk (m_out s ++ l) (m_listStack s)).

(** The loop [for (; _i; _i >>= 8) *(b--) = (byte)_i] with [b] at offset [b]. *)
Fixpoint write_be (fuel : nat) (out : bytes) (b _i : Z) : outcome bytes :=
  match fuel with
  | O => Diverge
  | S f => if _i =? 0 then Ok out else
           if (b <? 0) || (size out <=? b) then Undef "write outside m_out" else
           write_be f (<[Z.to_nat b := u8 _i]> out) (b - 1) (Z.shiftr _i 8)
  end.
Definition write_int (out : bytes) (b _i : Z) : outcome bytes :=
  write_be (S (S (Z.to_nat (Z.log2 _i)))) out b _i.

(** [pushInt(_i, _br)] *)
Definition pushInt (_i _br : Z) : SE t unit :=
  _ ← insert_end (replicate (Z.to_nat _br) 0);
  s ← gets id;
  out ← lift_outcome (write_int (m_out s) (size (m_out s) - 1) _i);
  modify (fun s => mk out (m_listStack s)).

(** [pushCount(_count, _base)] *)
Definition pushCount (_count _base : Z) : SE t unit :=
  let br := bytesRequired _count in
  if 0xff <? br + _base then throw "Count too large for RLP" else
  _ ← push_back (u8 (br + _base));
  pushInt _count br.

(** The bytes of [m_out] once the list that began at [p] is complete: the
    payload is moved up by [encodeSize] and the header written before it. *)
Definition close_list (out : bytes) (p : Z) : outcome bytes :=
  let s := size out - p in
  let brs := bytesRequired s in
  let encodeSize := if s <? c_rlpListImmLenCount then 1 else 1 + brs in
  let os := length out in
  (* resize, then memmove *)
  let o := out ++ replicate (Z.to_nat encodeSize) 0 in
  let o := take (Z.to_nat (p + encodeSize)) o ++ take (os - Z.to_nat p) (drop (Z.to_nat p) o) in
  if s <? c_rlpListImmLenCount then Ok (<[Z.to_nat p := u8 (c_rlpListStart + s)]> o)
  else if c_rlpListIndLenZero + brs <=? 0xff then
    write_int (<[Z.to_nat p := u8 (c_rlpListIndLenZero + brs)]> o) (p + brs) s
  else Throw "itemCount too large for RLP".

(** The loop of [noteAppended(_itemCount)], over the stack of open lists. *)
Fixpoint note_loop (_itemCount : Z) (out : bytes) (st : list (Z * Z)) : outcome unit * t :=
  match st with
  | [] => (Ok tt, mk out [])
  | (first, p) :: st' =>
    if first <? _itemCount then (Throw "itemCount too large", mk out st)
    else if negb (first - _itemCount =? 0) then (Ok tt, mk out ((first - _itemCount, p) :: st'))
    else match close_list out p with
         | Ok out' => note_loop 1 out' st'
         | r => (recast r, mk out st')
         end
  end.
Definition noteAppended (_itemCount : Z) : SE t unit := fun s =>
  if _itemCount =? 0 then (Ok tt, s) else note_loop _itemCount (m_out s) (m_listStack s).

(** [appendRaw(_s, _itemCount)] *)
Definition appendRaw (_s : bytes) (_itemCount : Z) : SE t unit :=
  _ ← insert_end _s; noteAppended _itemCount.

(** [appendList(bytesConstRef _rlp)] *)
Definition appendList_raw (_rlp : bytes) : SE t unit :=
  _ ← (if size _rlp <? c_rlpListImmLenCount
       then push_back (u8 (size _rlp + c_rlpListStart))
       else pushCount (size _rlp) c_rlpListIndLenZero);
  appendRaw _rlp 1.

(** [appendList(size_t _items)] *)
Definition appendList (_items : Z) : SE t unit :=
  if negb (_items =? 0) then
    modify (fun s => mk (m_out s) ((_items, size (m_out s)) :: m_listStack s))
  else appendList_raw [].

(** The [_compact] loop of [append(bytesConstRef, bool)]: skip leading zeros. *)
Fixpoint skip_zeros (l : bytes) : bytes :=
  match l with
  | b :: l' => if b =? 0 then skip_zeros l' else l
  | [] => []
  end.

(** [append(bytesConstRef _s, bool _compact)] *)
Definition append (_s : bytes) (_compact : bool) : SE t unit :=
  let d := if _compact then skip_zeros _s else _s in
  let s := size d in
  _ ← (if (s =? 1) && (nthz d 0 <? c_rlpDataImmLenStart) then push_back (nthz d 0)
       else
         _ ← (if s <? c_rlpDataImmLenCount then push_back (u8 (s + c_rlpDataImmLenStart))
              else pushCount s c_rlpDataIndLenZero);
         appendRaw d 0);
  noteAppended 1.

(** [append(bigint _i)], also reached from [append(unsigned)], [append(u160)]
    and [append(u256)]. *)
Definition append_int (_i : Z) : SE t unit :=
  _ ← (if _i =? 0 then push_back c_rlpDataImmLenStart
       else if _i <? c_rlpDataImmLenStart then push_back (u8 _i)
       else
         let br := bytesRequired _i in
         _ ← (if br <? c_rlpDataImmLenCount then push_back (u8 (br + c_rlpDataImmLenStart))
              else
                let brbr := bytesRequired br in
                if 0xff <? c_rlpDataIndLenZero + brbr then throw "Number too large for RLP"
                else
                  _ ← push_back (u8 (c_rlpDataIndLenZero + brbr));
                  pushInt br brbr);
         pushInt _i br);
  noteAppended 1.

(** [append(FixedHash<N> _s, _compact, _allOrNothing)] *)
Definition append_hash (_s : bytes) (_compact _allOrNothing : bool) : SE t unit :=
  if _allOrNothing && negb (FixedHash.to_bool _s) then append [] false else append _s _compact.

(** [appendVector(_s)], with [app] the append of one element. *)
Fixpoint append_each {T} (app : T -> SE t unit) (l : list T) : SE t unit :=
  match l with
  | [] => mret tt
  | x :: l' => _ ← app x; append_each app l'
  end.
Definition appendVector {T} (app : T -> SE t unit) (_s : list T) : SE t unit :=
  _ ← appendList (size _s); append_each app _s.

(** [append(std::pair<T, U> const&)] *)
Definition append_pair {T U} (appT : T -> SE t unit) (appU : U -> SE t unit) (_s : T * U)
    : SE t unit :=
  _ ← appendList 2; _ ← appT (fst _s); appU (snd _s).

(** [clear()] *)
Definition clear : SE t unit := modify (fun _ => new).

(** [out()] *)
Definition out : SE t bytes :=
  s ← gets id;
  match m_listStack s with
  | [] => mret (m_out s)
  | _ => throw "listStack is not empty"
  end.

(** [RLPStream(size_t _listItems)] *)
Definition with_list (_listItems : Z) : outcome unit * t := appendList _listItems new.

(** [rlp(_t)]: a single item. *)
Definition rlp {T} (app : T -> SE t unit) (_t : T) : outcome bytes :=
  fst ((_ ← app _t; out) new).

End RLPStream.

(** [RLPNull] and [RLPEmptyList] *)
Definition RLPNull : outcome bytes := RLPStream.rlp (fun s => RLPStream.append s false) [].
Definition RLPEmptyList : outcome bytes := fst ((_ ← RLPStream.appendList 0; RLPStream.out) RLPStream.new).

Example RLPNull_val : RLPNull = Ok [0x80].
Proof. reflexivity. Qed.
Example RLPEmptyList_val : RLPEmptyList = Ok [0xc0].
Proof. reflexivity. Qed.
