(* ===== verification/ScRlpWrite.v ===== *)
(** * The RLP writer against a reference encoder

    [encode] is the encoding of nested byte strings by recursion on the data,
    with the header computed before the payload.  [RLPStream] writes payloads
    first and inserts a list's header when its last item has been appended; it
    produces exactly the output of [encode]. *)

From S2P Require Import Prelude ScFixedHash ScRlp.
From Stdlib Require Import ZifyBool.

(** ** Numbers of bytes *)

Lemma bytesRequired_loop_spec f i k : 0 <= i < 2 ^ Z.of_nat f ->
  exists n, bytesRequired_loop f k i = k + Z.of_nat n /\ i < 256 ^ Z.of_nat n /\
    (i = 0 -> n = 0%nat) /\ (0 < i -> (0 < n)%nat /\ 256 ^ (Z.of_nat n - 1) <= i).
Proof.
  revert i k. induction f as [|f IH]; intros i k Hi.
  - exists 0%nat. simpl in *. lia.
  - simpl bytesRequired_loop. destruct (Z.eqb_spec i 0) as [->|Hne].
    { exists 0%nat. simpl. lia. }
    rewrite shiftr_8. destruct (IH (i / 256) (k + 1)) as (n & -> & H1 & H2 & H3).
    { rewrite Nat2Z.inj_succ, Z.pow_succ_r in Hi by lia.
      split; [apply Z.div_pos; lia|]. apply Z.div_lt_upper_bound; lia. }
    exists (S n). rewrite Nat2Z.inj_succ, Z.pow_succ_r by lia.
    pose proof (Z.div_mod i 256 ltac:(lia)). pose proof (Z.mod_pos_bound i 256 ltac:(lia)).
    split; [lia|]. split; [lia|]. split; [lia|]. intros _. split; [lia|].
    destruct (Z.eq_dec (i / 256) 0) as [E|E].
    + rewrite H2 by done. simpl. lia.
    + destruct H3 as [Hn H3]; [lia|]. replace (Z.succ (Z.of_nat n) - 1) with (Z.succ (Z.of_nat n - 1)) by lia.
      rewrite Z.pow_succ_r by lia. lia.
Qed.

(** [bytesRequired] is the number of digits in base 256. *)
Lemma bytesRequired_spec i : 0 <= i ->
  exists n, bytesRequired i = Z.of_nat n /\ i < 256 ^ Z.of_nat n /\
    (i = 0 -> n = 0%nat) /\ (0 < i -> (0 < n)%nat /\ 256 ^ (Z.of_nat n - 1) <= i).
Proof.
  intros Hi. unfold bytesRequired. apply bytesRequired_loop_spec.
  rewrite Nat2Z.inj_succ, Z2Nat.id by apply Z.log2_nonneg.
  destruct (Z.eq_dec i 0) as [->|]; [simpl; lia|].
  pose proof (Z.log2_spec i). lia.
Qed.

Lemma bytesRequired_le i m : 0 <= i < 256 ^ Z.of_nat m -> bytesRequired i <= Z.of_nat m.
Proof.
  intros Hi. destruct (bytesRequired_spec i) as (n & -> & _ & Hz & Hp); [lia|].
  destruct (Z.eq_dec i 0) as [E|E]; [rewrite Hz by done; lia|].
  destruct Hp as [Hn Hp]; [lia|].
  assert (256 ^ (Z.of_nat n - 1) < 256 ^ Z.of_nat m) as H by lia. apply Z.pow_lt_mono_r_iff in H; lia.
Qed.

Lemma bytesRequired_unique i n : 256 ^ (Z.of_nat n - 1) <= i < 256 ^ Z.of_nat n -> (0 < n)%nat ->
  bytesRequired i = Z.of_nat n.
Proof.
  intros Hi Hn. assert (0 < 256 ^ (Z.of_nat n - 1)) by (apply Z.pow_pos_nonneg; lia).
  destruct (bytesRequired_spec i) as (m & -> & H1 & _ & Hp); [lia|].
  destruct Hp as [Hm Hp]; [lia|].
  assert (256 ^ (Z.of_nat n - 1) < 256 ^ Z.of_nat m) as L1 by lia.
  assert (256 ^ (Z.of_nat m - 1) < 256 ^ Z.of_nat n) as L2 by lia.
  apply Z.pow_lt_mono_r_iff in L1, L2; lia.
Qed.

(** ** The reference encoding *)
#[warnings="-register-all"]
Inductive item := IData (b : bytes) | IList (l : list item).

(** Induction through the nested lists. *)
Lemma item_ind' (P : item -> Prop) :
  (forall b, P (IData b)) -> (forall l, Forall P l -> P (IList l)) -> forall it, P it.
Proof.
  intros Hd Hl. fix IH 1. intros [b|l]; [apply Hd|]. apply Hl.
  induction l as [|x l IHl]; constructor; [apply IH|apply IHl].
Qed.

(** The header of a string or a list of [n] payload bytes. *)
Definition header (imm ind n : Z) : bytes :=
  if n <? 56 then [imm + n]
  else (ind + bytesRequired n) :: toBigEndian (Z.to_nat (bytesRequired n)) n.

Definition data_header (b : bytes) : bytes :=
  match b with
  | [x] => if x <? 0x80 then [] else header 0x80 0xb7 1
  | _ => header 0x80 0xb7 (size b)
  end.
Definition list_header (p : bytes) : bytes := header 0xc0 0xf7 (size p).

Fixpoint encode (it : item) : bytes :=
  match it with
  | IData b => data_header b ++ b
  | IList l => let p := concat (map encode l) in list_header p ++ p
  end.

(** Byte strings whose length the reader accepts. *)
Definition rlp_limit : Z := 2 ^ 64 - 0x101.

Fixpoint data_ok (it : item) : Prop :=
  match it with
  | IData b => bytes_ok b
  | IList l => fold_right (fun x => and (data_ok x)) True l
  end.

Lemma data_ok_list l : data_ok (IList l) <-> Forall data_ok l.
Proof.
  simpl. induction l as [|x l IH]; simpl; [by split; constructor|].
  by rewrite IH, Forall_cons_iff.
Qed.

(** ** The writer *)
Module StreamProof.
Import RLPStream.

(** Writing an integer backwards from the end of a gap of its own width. *)
Lemma write_be_spec f n pre mid post i :
  (n < f)%nat -> length mid = n -> 0 <= i < 256 ^ Z.of_nat n ->
  ((0 < n)%nat -> 256 ^ (Z.of_nat n - 1) <= i) ->
  write_be f (pre ++ mid ++ post) (size pre + Z.of_nat n - 1) i
  = Ok (pre ++ toBigEndian n i ++ post).
Proof.
  revert n mid post i. induction f as [|f IH]; intros n mid post i Hf Hmid Hi Hlow; [lia|].
  simpl write_be. destruct n as [|n].
  { destruct mid; [|done]. simpl in Hi. destruct (Z.eqb_spec i 0); [|lia]. done. }
  specialize (Hlow ltac:(lia)). rewrite Nat2Z.inj_succ in *.
  assert (0 < 256 ^ (Z.succ (Z.of_nat n) - 1)) by (apply Z.pow_pos_nonneg; lia).
  destruct (Z.eqb_spec i 0); [lia|].
  destruct mid as [|x mid _] using rev_ind; [done|]. rewrite length_app in Hmid; simpl in Hmid.
  rewrite <- app_assoc. rewrite !length_app. simpl length.
  destruct (_ || _) eqn:E; [exfalso; clear - E Hmid; lia|]. clear E.
  replace (<[_ := _]> _) with (pre ++ mid ++ [u8 i] ++ post).
  2:{ rewrite insert_app_r_alt by lia. f_equal. rewrite insert_app_r_alt by lia. f_equal.
      replace (_ - _ - _)%nat with 0%nat by lia. done. }
  replace (size pre + Z.succ (Z.of_nat n) - 1 - 1) with (size pre + Z.of_nat n - 1) by lia.
  rewrite Z.pow_succ_r in Hi by lia. rewrite shiftr_8.
  pose proof (Z.div_mod i 256 ltac:(lia)). pose proof (Z.mod_pos_bound i 256 ltac:(lia)).
  rewrite IH.
  - simpl toBigEndian. rewrite <- !app_assoc, land_255, shiftr_8. done.
  - lia.
  - lia.
  - split; [apply Z.div_pos; lia|apply Z.div_lt_upper_bound; lia].
  - intros. replace (Z.succ (Z.of_nat n) - 1) with (Z.succ (Z.of_nat n - 1)) in Hlow by lia.
    rewrite Z.pow_succ_r in Hlow by lia. lia.
Qed.

Lemma write_int_spec pre mid post i :
  0 <= i -> size mid = bytesRequired i ->
  write_int (pre ++ mid ++ post) (size pre + size mid - 1) i
  = Ok (pre ++ toBigEndian (Z.to_nat (bytesRequired i)) i ++ post).
Proof.
  intros Hi Hmid. destruct (bytesRequired_spec i Hi) as (n & Hn & H1 & H2 & H3).
  rewrite Hn in *. rewrite Hmid, Nat2Z.id. unfold write_int. apply write_be_spec; try lia.
  - destruct (Z.eq_dec i 0) as [->|]; [rewrite H2 by done; lia|].
    destruct H3 as [? H3]; [lia|].
    assert (2 ^ (8 * (Z.of_nat n - 1)) <= i) as L.
    { rewrite Z.pow_mul_r by lia. done. }
    apply Z.log2_le_mono in L. rewrite Z.log2_pow2 in L by lia. lia.
Qed.

(** Each writer operation as a whole: the bytes it adds, then the bookkeeping. *)
Definition put (l : bytes) (s : t) : t := mk (m_out s ++ l) (m_listStack s).

Lemma put_put a b s : put b (put a s) = put (a ++ b) s.
Proof. unfold put. simpl. by rewrite app_assoc. Qed.

Lemma pushInt_spec i s : 0 <= i ->
  pushInt i (bytesRequired i) s = (Ok tt, put (toBigEndian (Z.to_nat (bytesRequired i)) i) s).
Proof.
  intros Hi. destruct (bytesRequired_spec i Hi) as (n & Hn & _).
  unfold pushInt, insert_end, gets, modify, lift_outcome, mbind, SE_bind. simpl.
  pose proof (write_int_spec (m_out s) (replicate (Z.to_nat (bytesRequired i)) 0) [] i Hi) as W.
  rewrite !app_nil_r, length_replicate in W. rewrite length_app, length_replicate.
  replace (Z.of_nat (_ + _) - 1) with (size (m_out s) + Z.of_nat (Z.to_nat (bytesRequired i)) - 1) by lia.
  rewrite W by lia. done.
Qed.

Lemma pushCount_spec n base s : 0 <= n < 2 ^ 64 -> 0 <= base <= 0xf7 ->
  pushCount n base s
  = (Ok tt, put ((base + bytesRequired n) :: toBigEndian (Z.to_nat (bytesRequired n)) n) s).
Proof.
  intros Hn Hb. pose proof (bytesRequired_le n 8 Hn).
  destruct (bytesRequired_spec n) as (m & Hm & _); [lia|].
  unfold pushCount. destruct (Z.ltb_spec 0xff (bytesRequired n + base)); [lia|].
  unfold mbind at 1, SE_bind. simpl. rewrite pushInt_spec by lia.
  change (mk (m_out s ++ ?l) (m_listStack s)) with (put l s). rewrite put_put. simpl.
  rewrite wrap_small by (unfold in_range; lia). by rewrite Z.add_comm.
Qed.

Lemma push_header_spec imm ind n s : 0 <= n < 2 ^ 64 -> 0 <= imm <= 0xc0 -> 0 <= ind <= 0xf7 ->
  (if n <? 56 then push_back (u8 (n + imm)) else pushCount n ind) s
  = (Ok tt, put (header imm ind n) s).
Proof.
  intros. unfold header. destruct (Z.ltb_spec n 56).
  - unfold push_back, modify, put. rewrite wrap_small by (unfold in_range; lia).
    by rewrite Z.add_comm.
  - by apply pushCount_spec.
Qed.

Lemma append_spec b s : bytes_ok b -> size b < 2 ^ 64 ->
  append b false s = noteAppended 1 (put (encode (IData b)) s).
Proof.
  intros Hb Hs. unfold append. change c_rlpDataImmLenCount with 56.
  unfold mbind at 1, SE_bind. destruct (_ && _) eqn:E.
  - destruct b as [|x [|y b]]; cbn [length] in E; try (exfalso; clear - E; lia).
    change (nthz [x] 0) with x in *.
    simpl. destruct (Z.ltb_spec x 128); [done|]. change c_rlpDataImmLenStart with 128 in E. lia.
  - unfold mbind, SE_bind. rewrite push_header_spec by (lia || done).
    unfold appendRaw, insert_end, modify, noteAppended, mbind, SE_bind. simpl.
    rewrite <- app_assoc. f_equal. f_equal. f_equal. change c_rlpDataImmLenStart with 128 in *.
    unfold data_header. destruct b as [|x [|]]; try done.
    change (nthz [x] 0) with x in E. simpl in E. by rewrite E.
Qed.

(** The canonical byte string of an integer. *)
Definition int_bytes (i : Z) : bytes := toBigEndian (Z.to_nat (bytesRequired i)) i.

Lemma int_bytes_small i : 0 < i < 128 -> int_bytes i = [i].
Proof.
  intros. unfold int_bytes. rewrite (bytesRequired_unique i 1) by (simpl; lia). simpl.
  by rewrite land_255, Z.mod_small by lia.
Qed.

Lemma append_int_spec i s : 0 <= i -> bytesRequired i < 2 ^ 32 ->
  append_int i s = noteAppended 1 (put (encode (IData (int_bytes i))) s).
Proof.
  intros Hi Hbr. destruct (bytesRequired_spec i Hi) as (n & Hn & H1 & H2 & H3).
  unfold append_int. change c_rlpDataImmLenCount with 56. change c_rlpDataImmLenStart with 128.
  unfold mbind at 1, SE_bind.
  destruct (Z.eqb_spec i 0) as [->|Hne]; [done|].
  destruct (Z.ltb_spec i 128).
  { rewrite int_bytes_small by lia. simpl. destruct (Z.ltb_spec i 128); [|lia].
    by rewrite wrap_small by (unfold in_range; lia). }
  destruct H3 as [Hpos Hlow]; [lia|].
  cbn [encode]. assert (data_header (int_bytes i) = header 0x80 0xb7 (bytesRequired i)) as ->.
  { unfold data_header. assert (length (int_bytes i) = n) as L.
    { unfold int_bytes. rewrite length_toBigEndian. lia. }
    assert (be_value 0 (int_bytes i) = i) as V.
    { unfold int_bytes. rewrite be_value_toBigEndian, Hn, Nat2Z.id, Z.mod_small by lia. done. }
    rewrite Hn, <- L. destruct (int_bytes i) as [|x [|]]; try done. simpl in V.
    destruct (Z.ltb_spec x 128); [lia|done]. }
  unfold mbind, SE_bind.
  match goal with |- context [(if bytesRequired i <? 56 then ?a else ?b) s] =>
    replace ((if bytesRequired i <? 56 then a else b) s)
      with (Ok tt, put (header 0x80 0xb7 (bytesRequired i)) s) end.
  - rewrite pushInt_spec by lia. by rewrite put_put.
  - symmetry. unfold header. destruct (Z.ltb_spec (bytesRequired i) 56).
    + unfold push_back, modify, put. rewrite wrap_small by (unfold in_range; lia).
      by rewrite Z.add_comm.
    + pose proof (pushCount_spec (bytesRequired i) 0xb7 s) as P. unfold pushCount in P.
      rewrite Z.add_comm in P. change c_rlpDataIndLenZero with 183.
      pose proof (bytesRequired_le (bytesRequired i) 4 ltac:(lia)).
      destruct (Z.ltb_spec 0xff (183 + bytesRequired (bytesRequired i))); [lia|].
      apply P; lia.
Qed.

(** Completing the list that began at [p] puts its header before its payload. *)
Lemma close_list_spec pre p : size p < 2 ^ 64 ->
  close_list (pre ++ p) (size pre) = Ok (pre ++ list_header p ++ p).
Proof.
  intros Hp. unfold close_list. rewrite length_app.
  replace (Z.of_nat (length pre + length p) - size pre) with (size p) by lia.
  change c_rlpListImmLenCount with 56. change c_rlpListIndLenZero with 0xf7.
  pose proof (bytesRequired_le (size p) 8 ltac:(lia)).
  destruct (bytesRequired_spec (size p)) as (n & Hn & _ & _ & _); [lia|].
  set (e := if size p <? 56 then 1 else 1 + bytesRequired (size p)).
  assert (0 < e <= 9) as He by (subst e; case_match; lia).
  set (o := take _ _ ++ _).
  assert (exists g, length g = Z.to_nat e /\ o = pre ++ g ++ p) as (g & Hg & ->).
  { exists (take (Z.to_nat e) (p ++ replicate (Z.to_nat e) 0)). split.
    { rewrite length_take, length_app, length_replicate. lia. }
    subst o. rewrite app_assoc. f_equal.
    - rewrite <- app_assoc, take_app, take_ge by lia. f_equal. f_equal. lia.
    - rewrite Nat2Z.id, <- app_assoc, drop_app_length.
      rewrite take_app_le by lia. apply take_ge. lia. }
  unfold list_header, header. subst e. rewrite Nat2Z.id. destruct (Z.ltb_spec (size p) 56).
  - destruct g as [|x [|]]; try done. f_equal. rewrite insert_app_r_alt by lia.
    change c_rlpListStart with 192. rewrite Nat.sub_diag, wrap_small by (unfold in_range; lia). done.
  - destruct (Z.leb_spec (247 + bytesRequired (size p)) 255); [|lia].
    destruct g as [|x g]; simpl in Hg; [lia|].
    rewrite insert_app_r_alt, Nat.sub_diag, wrap_small by (unfold in_range; lia). simpl.
    pose proof (write_int_spec (pre ++ [247 + bytesRequired (size p)]) g p (size p)) as W.
    rewrite <- !app_assoc, length_app in W. simpl in W.
    replace (size pre + bytesRequired (size p)) with
      (Z.of_nat (length pre + 1) + size g - 1) by lia. apply W; lia.
Qed.

(** Writing an item through the stream, the way the callers do. *)
Fixpoint stream_item (it : item) : SE t unit :=
  match it with
  | IData b => append b false
  | IList l => appendVector stream_item l
  end.

(** Appending the last [length l] of the items a list announced. *)
Lemma append_each_spec {T} (app : T -> SE t unit) (enc : T -> bytes) l : l <> [] ->
  Forall (fun x => size (enc x) < 2 ^ 64 -> forall s, app x s = noteAppended 1 (put (enc x) s)) l ->
  forall pre q st, size (q ++ concat (map enc l)) < 2 ^ 64 ->
  append_each app l (mk (pre ++ q) ((size l, size pre) :: st))
  = let p := q ++ concat (map enc l) in noteAppended 1 (mk (pre ++ list_header p ++ p) st).
Proof.
  induction l as [|x l IH]; intros Hne Hl pre q st Hs; [done|]. clear Hne.
  apply Forall_cons_iff in Hl as [Hx Hl].
  simpl in Hs. simpl append_each. unfold mbind at 1, SE_bind.
  rewrite !length_app in Hs. rewrite Hx by lia.
  unfold noteAppended at 1, put. simpl.
  destruct (Z.ltb_spec (Z.of_nat (S (length l))) 1); [lia|].
  rewrite <- app_assoc. destruct l as [|y l].
  - simpl. rewrite !app_nil_r, close_list_spec; [|rewrite length_app; lia].
    unfold noteAppended. simpl. by destruct (note_loop _ _ _) as [[[]| | | | |] ?].
  - simpl length. destruct (Z.eqb_spec (Z.of_nat (S (S (length l))) - 1) 0); [lia|].
    cbn [negb]. replace (Z.of_nat (S (S (length l))) - 1) with (size (y :: l)) by (simpl; lia).
    rewrite (IH ltac:(done) Hl pre (q ++ enc x) st).
    + simpl. by rewrite <- !app_assoc.
    + rewrite <- app_assoc, !length_app. lia.
Qed.

Lemma appendList_raw_spec p s : size p < 2 ^ 64 ->
  appendList_raw p s = noteAppended 1 (put (list_header p ++ p) s).
Proof.
  intros. unfold appendList_raw, mbind at 1, SE_bind. change c_rlpListImmLenCount with 56.
  rewrite push_header_spec by (lia || done).
  unfold appendRaw, insert_end, modify, mbind, SE_bind, put. simpl. by rewrite <- app_assoc.
Qed.

Lemma stream_item_spec it : size (encode it) < 2 ^ 64 -> data_ok it ->
  forall s, stream_item it s = noteAppended 1 (put (encode it) s).
Proof.
  induction it as [b|l IH] using item_ind'; intros Hs Hok s.
  - apply append_spec; [done|]. simpl in Hs. rewrite length_app in Hs. lia.
  - simpl in Hs. apply data_ok_list in Hok. rewrite length_app in Hs.
    simpl stream_item. unfold appendVector, appendList, mbind, SE_bind.
    destruct l as [|x l].
    { simpl. rewrite appendList_raw_spec by done.
      by destruct (noteAppended _ _) as [[[]| | | | |] ?]. }
    pose proof (append_each_spec stream_item encode (x :: l) ltac:(done)) as A.
    assert (Forall (fun x => size (encode x) < 2 ^ 64 ->
      forall s, stream_item x s = noteAppended 1 (put (encode x) s)) (x :: l)) as F.
    { eapply List.Forall_impl; [|apply (Forall_and IH Hok)]. intros y [H1 H2]. auto. }
    specialize (A F (m_out s) [] (m_listStack s)). rewrite app_nil_r in A. apply A. simpl in *. rewrite ?length_app in *. lia.
Qed.

Lemma rlp_encode it : size (encode it) < 2 ^ 64 -> data_ok it ->
  rlp stream_item it = Ok (encode it).
Proof.
  intros Hs Hok. unfold rlp, mbind, SE_bind. rewrite stream_item_spec by done. done.
Qed.
End StreamProof.
