(* ===== verification/ScRlpRead.v ===== *)
(** * The RLP reader accepts exactly the canonical encodings

    [head] relates the header of an item to its payload.  The reader's length
    computations find the header of every item ([reads]) and accept nothing else
    ([head_sound]).  On a well-formed list counting, iterating and subscripting
    in any order through the mutable cache agree, and reading back what the
    writer wrote gives the item that was written. *)

From S2P Require Import Prelude ScFixedHash ScRlp ScRlpWrite.
From Stdlib Require Import ZifyBool.
Import RLP.

(** ** Lengths of lengths *)

Lemma length_loop_spec l pre q acc :
  length_loop (length l) (pre ++ l ++ q) (size pre - 1) acc
  = fold_left (fun ret i => u64 (Z.lor (Z.shiftl ret 8) i)) l acc.
Proof.
  revert pre acc. induction l as [|x l IH]; intros; [done|]. cbn [length length_loop].
  replace (size pre - 1 + 1) with (size pre) by lia.
  assert (nthz (pre ++ (x :: l) ++ q) (size pre) = x) as ->.
  { unfold nthz. rewrite Nat2Z.id, app_nth2, Nat.sub_diag by lia. done. }
  specialize (IH (pre ++ [x])). rewrite <- app_assoc in IH. simpl in IH.
  rewrite length_app in IH. simpl in IH.
  replace (Z.of_nat (length pre + 1) - 1) with (size pre) in IH by lia. apply IH.
Qed.

Lemma read_length x l q : bytes_ok l -> (length l <= 8)%nat ->
  length_loop (length l) (x :: l ++ q) 0 0 = be_value 0 l.
Proof.
  intros Hl Hn. transitivity (fold_left (fun ret i => u64 (Z.lor (Z.shiftl ret 8) i)) l 0).
  { apply (length_loop_spec l [x] q 0). }
  change (fold_left _ l 0) with (fromBigEndian u64 l). rewrite fromBigEndian_spec by (done || lia).
  pose proof (be_value_range l Hl). apply wrap_small. unfold in_range.
  pose proof (Z.pow_le_mono_r 256 (size l) 8). lia.
Qed.

(** A number with a non-zero leading byte needs all its bytes. *)
Lemma leading_byte b l : bytes_ok (b :: l) ->
  b <> 0 <-> bytesRequired (be_value 0 (b :: l)) = size (b :: l).
Proof.
  intros H. pose proof (be_value_range _ H) as R. apply bytes_ok_cons in H as [Hb Hl].
  pose proof (be_value_range _ Hl). simpl be_value in *. rewrite be_value_acc in *.
  simpl length in *. rewrite Nat2Z.inj_succ in *. unfold is_byte in Hb. split.
  - intros. rewrite (bytesRequired_unique _ (S (length l))); try lia.
    rewrite Nat2Z.inj_succ. split; [|lia].
    replace (Z.succ (size l) - 1) with (size l) by lia. nia.
  - intros Hr ->. rewrite Z.add_0_l in Hr.
    pose proof (bytesRequired_le (be_value 0 l) (length l) ltac:(lia)).
    replace (0 * 256 * 256 ^ size l + be_value 0 l) with (be_value 0 l) in Hr by lia. lia.
Qed.

Lemma length_ind_complete x n q : 56 <= n < rlp_limit ->
  length_ind (x :: toBigEndian (Z.to_nat (bytesRequired n)) n ++ q) (bytesRequired n) 56 = Ok n.
Proof.
  unfold rlp_limit. intros Hn. destruct (bytesRequired_spec n) as (m & Hm & Hlt & _ & Hp); [lia|].
  destruct Hp as [Hpos _]; [lia|].
  pose proof (bytesRequired_le n 8 ltac:(simpl; lia)) as H8. rewrite Hm in *. rewrite Nat2Z.id.
  pose proof (toBigEndian_bytes_ok m n) as Hok.
  pose proof (be_value_toBigEndian m n) as Hv. rewrite Z.mod_small in Hv by lia.
  pose proof (length_toBigEndian m n) as Hl.
  pose proof (read_length x _ q Hok ltac:(lia)) as Hr. rewrite Hl, Hv in Hr.
  destruct (toBigEndian m n) as [|b l]; simpl in Hl; [lia|].
  assert (b <> 0) as Hb. { apply (leading_byte b l Hok). rewrite Hv, Hm. simpl. lia. }
  unfold length_ind. simpl length. rewrite length_app.
  change (nthz (x :: (b :: l) ++ q) 1) with b.
  rewrite Nat2Z.id, Hr. unfold size_t_max.
  repeat (match goal with |- (if ?c then _ else _) = _ => destruct c eqn:?; [lia|] end). done.
Qed.

Lemma length_ind_sound x d ls n : bytes_ok d -> 1 <= ls <= 8 ->
  length_ind (x :: d) ls 56 = Ok n ->
  56 <= n < rlp_limit /\ ls = bytesRequired n /\
  exists q, d = toBigEndian (Z.to_nat ls) n ++ q.
Proof.
  intros Hok Hls. unfold length_ind.
  repeat (match goal with |- (if ?c then _ else _) = _ -> _ => destruct c eqn:?; [done|] end).
  intros [= Hn]. simpl length in *.
  set (l := take (Z.to_nat ls) d). set (q := drop (Z.to_nat ls) d).
  assert (d = l ++ q) as Hd by (symmetry; apply take_drop).
  assert (length l = Z.to_nat ls) as Hl by (subst l; rewrite length_take; lia).
  rewrite Hd in Hok. apply bytes_ok_app in Hok as [Hok _].
  rewrite Hd, <- Hl, read_length in Hn by (done || lia).
  unfold rlp_limit, size_t_max in *. rewrite <- Hl, Hd, read_length in * by (done || lia).
  split; [lia|]. rewrite <- Hn. split.
  - destruct l as [|b l]; simpl in Hl; [lia|].
    pose proof (proj1 (leading_byte b l Hok)) as B. rewrite B; [simpl; lia|].
    intros ->. simpl in *. change (nthz (x :: 0 :: l ++ q) 1) with 0 in *. lia.
  - exists q. by rewrite toBigEndian_be_value.
Qed.

(** ** Items *)

(** [head k h p]: [h] is the header of the payload [p]; [k] tells a list. *)
Inductive head : bool -> bytes -> bytes -> Prop :=
| head_data b : bytes_ok b -> size b < rlp_limit -> head false (data_header b) b
| head_list p : bytes_ok p -> size p < rlp_limit -> head true (list_header p) p.

Definition is_item (c : bytes) : Prop := exists k h p, head k h p /\ c = h ++ p.

Lemma size_header imm ind n : 0 <= n ->
  size (header imm ind n) = if n <? 56 then 1 else 1 + bytesRequired n.
Proof.
  intros. destruct (bytesRequired_spec n) as (m & Hm & _); [lia|].
  unfold header. case_match; [done|]. simpl length. rewrite length_toBigEndian. lia.
Qed.

(** What the reader computes from the first bytes of an item. *)
Record reads_as (d : bytes) (k : bool) (off len : Z) : Prop := {
  ra_null : isNull d = false;
  ra_list : isList d = k;
  ra_data : isData d = negb k;
  ra_length : length_ d = Ok len;
  ra_offset : payloadOffset d = off }.

Ltac rlp_consts :=
  change c_rlpListStart with 0xc0 in *; change c_rlpDataImmLenStart with 0x80 in *;
  change c_rlpDataIndLenZero with 0xb7 in *; change c_rlpListIndLenZero with 0xf7 in *;
  change c_rlpMaxLengthBytes with 8 in *.

Ltac decide_ifs :=
  repeat match goal with
  | |- context [if ?c then _ else _] =>
      first [replace c with true by lia | replace c with false by lia]
  end.

(** The value of the first byte decides everything but long lengths. *)
Lemma reads_single x q : 0 <= x < 0x80 -> reads_as (x :: q) false 0 1.
Proof.
  intros. split; unfold length_, requireGood, isData, isList, payloadOffset, isSingleByte, isNull.
  all: change (nthz (x :: q) 0) with x; rlp_consts; simpl length.
  all: try lia. all: unfold mbind, outcome_bind; by decide_ifs.
Qed.

Lemma reads_short (k : bool) x q : (if k then 0xc0 else 0x80) <= x < (if k then 0xc0 else 0x80) + 56 ->
  (x = 0x81 -> 0x80 <= nthz q 0 /\ q <> []) ->
  reads_as (x :: q) k 1 (x - if k then 0xc0 else 0x80).
Proof.
  intros Hx Hg.
  split; unfold length_, requireGood, isData, isList, payloadOffset, lengthSize, isSingleByte,
    isNull, isData, isList, isNull.
  all: change (nthz (x :: q) 0) with x; change (nthz (x :: q) 1) with (nthz q 0); rlp_consts.
  all: assert ((size (x :: q) =? 0) = false) as -> by (simpl length; lia).
  all: destruct k; try lia; decide_ifs; simpl negb; simpl andb; try done.
  destruct (x =? 129) eqn:E; [|unfold mbind, outcome_bind; by decide_ifs].
  destruct Hg as [Hg1 Hg2]; [lia|]. destruct q; [done|].
  unfold mbind, outcome_bind; simpl length; by decide_ifs.
Qed.

Lemma reads_long (k : bool) n q : 56 <= n < rlp_limit ->
  let x := (if k then 0xf7 else 0xb7) + bytesRequired n in
  reads_as (x :: toBigEndian (Z.to_nat (bytesRequired n)) n ++ q) k (1 + bytesRequired n) n.
Proof.
  intros Hn x. pose proof (length_ind_complete x n q Hn) as L. unfold rlp_limit in Hn.
  destruct (bytesRequired_spec n) as (m & Hm & Hlt & _ & Hp); [lia|].
  destruct Hp as [Hpos _]; [lia|].
  pose proof (bytesRequired_le n 8 ltac:(simpl; lia)) as H8.
  set (d := _ :: _) in *. assert (isNull d = false) as N by (unfold isNull; subst d; simpl length; lia).
  assert (nthz d 0 = x) as X by done.
  assert (x - (if k then 0xf7 else 0xb7) = bytesRequired n) as Xn by lia.
  split; unfold length_, requireGood, payloadOffset, lengthSize, isSingleByte, isData, isList;
    rewrite N, ?X; rlp_consts; destruct k; simpl negb; simpl andb; try done; try lia.
  all: unfold mbind, outcome_bind; decide_ifs; simpl; decide_ifs; rewrite ?Xn; try done; lia.
Qed.

(** The reader finds the header of every item, whatever follows it. *)
Lemma reads k h p q : head k h p -> reads_as (h ++ p ++ q) k (size h) (size p).
Proof.
  intros [b Hb Hs|b Hb Hs].
  - assert (data_header b = header 0x80 0xb7 (size b) /\ ~ (exists x, b = [x] /\ x < 0x80) \/
            exists x, b = [x] /\ 0 <= x < 0x80 /\ data_header b = []) as [[-> Hn]|(x & -> & Hx & ->)].
    { destruct b as [|x [|y b]].
      - left. split; [done|]. by intros (? & ? & _).
      - simpl. apply bytes_ok_cons in Hb as [Hx _]. unfold is_byte in Hx.
        destruct (Z.ltb_spec x 128); [right; eauto with lia|left].
        split; [done|]. intros (? & [= ->] & ?). lia.
      - left. split; [done|]. by intros (? & ? & _). }
    2:{ by apply reads_single. }
    rewrite size_header by lia. unfold header. destruct (Z.ltb_spec (size b) 56).
    + pose proof (reads_short false (0x80 + size b) (b ++ q)) as R. simpl in R.
      replace (128 + size b - 128) with (size b) in R by lia. apply R; [lia|].
      intros E. destruct b as [|x [|]]; simpl in E; try lia. simpl.
      apply bytes_ok_cons in Hb as [Hx _]. unfold is_byte in Hx.
      split; [|done]. change (nthz (x :: q) 0) with x.
      destruct (Z.ltb_spec x 128); [exfalso; eauto|lia].
    + simpl. apply (reads_long false). lia.
  - unfold list_header. rewrite size_header by lia. unfold header. destruct (Z.ltb_spec (size b) 56).
    + pose proof (reads_short true (0xc0 + size b) (b ++ q)) as R. simpl in R.
      replace (192 + size b - 192) with (size b) in R by lia. apply R; lia.
    + simpl. apply (reads_long true). lia.
Qed.

Lemma head_size k h p : head k h p -> 0 < size h + size p < 2 ^ 64.
Proof.
  assert (forall imm ind n, 0 <= n < rlp_limit -> 0 < size (header imm ind n) + n < 2 ^ 64) as A.
  { unfold rlp_limit. intros imm ind n Hn. rewrite size_header by lia.
    pose proof (bytesRequired_le n 8 ltac:(simpl; lia)).
    destruct (bytesRequired_spec n) as (m & Hm & _); [lia|]. case_match; lia. }
  intros [b Hb Hs|b Hb Hs]; [|apply A; lia].
  destruct b as [|x [|]]; try (apply A; simpl in *; lia).
  simpl. case_match; [done|]. apply A. unfold rlp_limit. lia.
Qed.

Section Item.
Context (k : bool) (h p q : bytes) (H : head k h p).

Lemma reads_payload : payload (h ++ p ++ q) = Ok p.
Proof.
  destruct (reads k h p q H) as [_ _ _ L O]. unfold payload. rewrite L. simpl.
  rewrite O, !length_app. replace (_ <? _) with false by lia. f_equal. unfold cropped.
  rewrite !length_app. replace (_ && _) with true by lia.
  rewrite !Nat2Z.id, drop_app_length. apply take_app_length.
Qed.

Lemma reads_actualSize : actualSize (h ++ p ++ q) = Ok (size h + size p).
Proof.
  destruct (reads k h p q H) as [N Li D L O]. unfold actualSize.
  rewrite N, L, O, Li, D. simpl.
  assert (isSingleByte (h ++ p ++ q) = true -> size h + size p = 1) as S.
  { intros S. unfold payloadOffset in O. rewrite S in O. rewrite <- O.
    unfold length_ in L. rewrite N in L. unfold isSingleByte in S.
    apply andb_true_iff in S as [_ S]. unfold requireGood in L. rewrite N in L.
    rlp_consts. replace (_ =? 128 + 1) with false in L by lia. simpl in L.
    rewrite S in L. injection L as <-. done. }
  destruct (isSingleByte _); [by rewrite S|]. replace (negb k || k) with true by (by destruct k).
  f_equal. apply wrap_small. pose proof (head_size k h p H). unfold in_range. lia.
Qed.

Lemma reads_sizeAsEncoded : sizeAsEncoded (h ++ p ++ q) = Ok (size h + size p).
Proof.
  unfold sizeAsEncoded, check_size. simpl. rewrite reads_actualSize. simpl.
  rewrite !length_app. replace (_ <? _) with false by lia. apply reads_actualSize.
Qed.
End Item.

Lemma reads_new k h p s : head k h p -> new (h ++ p) s = Ok (of_data (h ++ p)).
Proof.
  intros H. unfold new, check_size. pose proof (reads_actualSize k h p [] H) as A.
  rewrite app_nil_r in A. rewrite A. simpl. rewrite length_app.
  destruct (has s FailIfTooBig); simpl.
  - replace (_ <? _) with false by lia. simpl. rewrite A. simpl.
    destruct (has s FailIfTooSmall); [|done]. simpl. replace (_ <? _) with false by lia. done.
  - rewrite A. destruct (has s FailIfTooSmall); [|done]. simpl. replace (_ <? _) with false by lia. done.
Qed.

(** ** Nothing else is accepted *)

(** The canonical header whose first byte is [x], for a payload that follows. *)
Lemma head_intro (k : bool) hd p : bytes_ok p -> size p < rlp_limit ->
  hd = header (if k then 0xc0 else 0x80) (if k then 0xf7 else 0xb7) (size p) ->
  (k = false -> forall y, p = [y] -> 0x80 <= y) -> head k hd p.
Proof.
  intros Hp Hs -> Hy. destruct k; [by constructor|].
  replace (header _ _ _) with (data_header p); [by constructor|].
  destruct p as [|y [|]]; try done. simpl. specialize (Hy eq_refl y eq_refl).
  by destruct (Z.ltb_spec y 128); [lia|].
Qed.

Lemma head_sound_short (k : bool) x d : bytes_ok d ->
  let imm := if k then 0xc0 else 0x80 in
  imm <= x < imm + 56 -> 1 + (x - imm) <= size (x :: d) ->
  (x = 0x81 -> 0x80 <= nthz d 0) ->
  exists p q, x :: d = [x] ++ p ++ q /\ head k [x] p /\ size p = x - imm.
Proof.
  intros Hd imm Hx Hs Hg. simpl length in Hs.
  exists (take (Z.to_nat (x - imm)) d), (drop (Z.to_nat (x - imm)) d).
  assert (size (take (Z.to_nat (x - imm)) d) = x - imm) as L by (rewrite length_take; lia).
  split; [by rewrite take_drop|]. split; [|done]. apply head_intro.
  - by apply bytes_ok_take.
  - unfold rlp_limit. lia.
  - rewrite L. unfold header. replace (_ <? _) with true by lia. f_equal. subst imm. lia.
  - intros -> y Ey. rewrite Ey in L. simpl in L. destruct d as [|z d].
    + by rewrite take_nil in Ey.
    + replace (Z.to_nat (x - imm)) with 1%nat in Ey by lia. simpl in Ey.
      rewrite take_0 in Ey. injection Ey as <-. apply Hg. subst imm. lia.
Qed.

Lemma head_sound_long (k : bool) x d n : bytes_ok d ->
  let ind := if k then 0xf7 else 0xb7 in
  ind < x <= ind + 8 -> length_ind (x :: d) (x - ind) 56 = Ok n ->
  1 + (x - ind) + n <= size (x :: d) ->
  exists h p q, x :: d = h ++ p ++ q /\ head k h p /\ size h = 1 + (x - ind) /\ size p = n.
Proof.
  intros Hd ind Hx HL Hs.
  apply length_ind_sound in HL as (Hn & Hb & q & ->); [|done|lia].
  apply bytes_ok_app in Hd as [_ Hq].
  simpl length in Hs. rewrite length_app, length_toBigEndian in Hs.
  exists (x :: toBigEndian (Z.to_nat (x - ind)) n), (take (Z.to_nat n) q), (drop (Z.to_nat n) q).
  assert (size (take (Z.to_nat n) q) = n) as L by (rewrite length_take; lia).
  split; [simpl; by rewrite take_drop|]. split; [|split; [simpl; rewrite length_toBigEndian; lia|done]].
  apply head_intro.
  - by apply bytes_ok_take.
  - lia.
  - rewrite L. unfold header. replace (_ <? _) with false by lia. rewrite <- Hb.
    f_equal. subst ind. lia.
  - intros _ y Ey. rewrite Ey in L. simpl in L. lia.
Qed.

Lemma head_sound d l : bytes_ok d -> d <> [] -> length_ d = Ok l -> payloadOffset d + l <= size d ->
  exists k h p q, d = h ++ p ++ q /\ head k h p /\ size h = payloadOffset d /\ size p = l.
Proof.
  destruct d as [|x d]; [done|]. intros Hok _. apply bytes_ok_cons in Hok as [Hx Hd].
  unfold is_byte in Hx. unfold length_, requireGood, payloadOffset, lengthSize, isSingleByte, isData, isList.
  assert (isNull (x :: d) = false) as -> by (unfold isNull; simpl length; lia).
  change (nthz (x :: d) 0) with x. change (nthz (x :: d) 1) with (nthz d 0). rlp_consts.
  simpl negb. simpl andb. unfold mbind, outcome_bind. intros HL Hs.
  destruct (Z.ltb_spec x 128).
  { replace (_ =? _) with false in HL by lia. simpl in HL. injection HL as <-.
    exists false, [], [x], d. split; [done|]. split; [|done].
    assert (head false (data_header [x]) [x]) as A.
    { constructor; [repeat constructor; unfold is_byte; lia|unfold rlp_limit; simpl; lia]. }
    simpl in A. by replace (x <? 128) with true in A by lia. }
  destruct (Z.leb_spec x 183).
  { replace (183 <? x) with false in * by lia. replace (247 <? x) with false in * by lia.
    rewrite !andb_false_r in *.
    destruct (head_sound_short false x d) as (p & q & -> & Hh & Hp); try (done || lia).
    - destruct (x =? 129) eqn:E; simpl in HL; repeat case_match; simplify_eq; lia.
    - intros ->. simpl in HL. repeat case_match; simplify_eq; lia.
    - exists false, [x], p, q. repeat split; try done.
      destruct (x =? 129) eqn:E; simpl in HL; repeat case_match; simplify_eq; lia. }
  replace (x =? 128 + 1) with false in HL by lia. simpl in HL.
  destruct (Z.ltb_spec x 192); [|destruct (Z.leb_spec x 247)].
  - replace (183 <? x) with true in * by lia. simpl in *.
    destruct (head_sound_long false x d l) as (h & p & q & ?); try (done || lia). eauto 10.
  - replace (247 <? x) with false in * by lia. rewrite andb_false_r in *. injection HL as <-.
    destruct (head_sound_short true x d) as (p & q & -> & Hh & Hp); try (done || lia).
    exists true, [x], p, q. repeat split; try done. 
  - replace (247 <? x) with true in * by lia. replace (192 <=? x) with true in * by lia. simpl in *.
    destruct (head_sound_long true x d l) as (h & p & q & ?); try (done || lia). eauto 10.
Qed.

(** ** Sequences of items *)

Lemma item_size c : is_item c -> 0 < size c < 2 ^ 64.
Proof. intros (k & h & p & H & ->). rewrite length_app. pose proof (head_size _ _ _ H). lia. Qed.

Lemma item_sizeAsEncoded c q : is_item c -> sizeAsEncoded (c ++ q) = Ok (size c).
Proof.
  intros (k & h & p & H & ->). rewrite <- app_assoc, (reads_sizeAsEncoded _ _ _ _ H), length_app.
  f_equal. lia.
Qed.

Lemma item_new c s : is_item c -> new c s = Ok (of_data c).
Proof. intros (k & h & p & H & ->). by apply (reads_new k). Qed.

Lemma length_bound d l : bytes_ok d -> length_ d = Ok l -> 0 <= l < rlp_limit.
Proof.
  intros Hd. unfold length_, rlp_limit. destruct (isNull d); [intros [= <-]; lia|].
  destruct (requireGood d); try done. simpl.
  assert (0 <= nthz d 0 < 256) by (apply nthz_byte; done). rlp_consts.
  assert (forall ls lim, 0 <= lim -> length_ind d ls lim = Ok l -> 0 <= l < 2 ^ 64 - 0x101) as A.
  { intros ls lim Hlim. unfold length_ind, size_t_max.
    repeat (match goal with |- (if ?c then _ else _) = _ -> _ => destruct c eqn:?; [done|] end).
    intros [= <-]. lia. }
  repeat case_match; try (intros [= <-]; lia); apply A; lia.
Qed.

Lemma payloadOffset_bound d : bytes_ok d -> 0 <= payloadOffset d <= 9.
Proof.
  intros Hd. unfold payloadOffset, lengthSize, isData, isList. rlp_consts.
  assert (0 <= nthz d 0 < 256) by (apply nthz_byte; done).
  repeat case_match; lia.
Qed.

Lemma actualSize_sound d n : bytes_ok d -> d <> [] -> actualSize d = Ok n -> n <= size d ->
  exists c q, d = c ++ q /\ is_item c /\ size c = n.
Proof.
  intros Hok Hne Ha Hs. enough (exists l, length_ d = Ok l /\ n = payloadOffset d + l) as (l & Hl & ->).
  { destruct (head_sound d l) as (k & h & p & q & -> & H & Hh & Hp); try done.
    exists (h ++ p), q. rewrite <- app_assoc, length_app. split; [done|].
    split; [by exists k, h, p|]. lia. }
  destruct d as [|x d]; [done|]. unfold actualSize in Ha.
  assert (isNull (x :: d) = false) as N by (unfold isNull; simpl length; lia).
  rewrite N in Ha. destruct (isSingleByte (x :: d)) eqn:S.
  - injection Ha as <-. exists 1. unfold payloadOffset. rewrite S. split; [|done].
    apply bytes_ok_cons in Hok as [Hx _]. unfold isSingleByte in S. rewrite N in S.
    change (nthz (x :: d) 0) with x in S. unfold is_byte in Hx. rlp_consts.
    apply (reads_single x d). simpl in S. lia.
  - assert (isData (x :: d) || isList (x :: d) = true) as E.
    { unfold isData, isList. rewrite N. simpl negb. simpl andb. rlp_consts. lia. }
    rewrite E in Ha. destruct (length_ (x :: d)) as [l| | | | |] eqn:L; try done.
    simpl in Ha. injection Ha as <-. exists l. split; [done|].
    pose proof (length_bound _ _ Hok L). pose proof (payloadOffset_bound _ Hok).
    apply wrap_small. unfold in_range, rlp_limit in *. lia.
Qed.

Lemma sizeAsEncoded_sound d n : bytes_ok d -> d <> [] -> sizeAsEncoded d = Ok n ->
  exists c q, d = c ++ q /\ is_item c /\ size c = n.
Proof.
  intros Hok Hne. unfold sizeAsEncoded, check_size. simpl.
  destruct (actualSize d) as [a| | | | |] eqn:A; try done. simpl.
  destruct (Z.ltb_spec (size d) a); [done|]. simpl. rewrite A. intros [= <-].
  by apply actualSize_sound.
Qed.

(** [tiled p l]: [p] is the concatenation of the items [l]. *)
Definition tiled (p : bytes) (l : list bytes) : Prop := p = concat l /\ Forall is_item l.

Lemma tiled_cons c p l : tiled p (c :: l) <-> exists q, p = c ++ q /\ is_item c /\ tiled q l.
Proof.
  unfold tiled. simpl. rewrite Forall_cons_iff. split.
  - intros (-> & ? & ?). eauto.
  - by intros (q & -> & ? & -> & ?).
Qed.

Lemma tiled_length p l : tiled p l -> (length l <= length p)%nat.
Proof.
  revert p. induction l as [|c l IH]; intros p; [simpl; lia|].
  rewrite tiled_cons. intros (q & -> & Hc & Hq). apply item_size in Hc. apply IH in Hq.
  rewrite length_app. simpl. lia.
Qed.

Lemma cropped_from_app c q : cropped_from (c ++ q) (size c) = q.
Proof.
  unfold cropped_from. rewrite length_app. replace (_ <=? _) with true by lia.
  by rewrite Nat2Z.id, drop_app_length.
Qed.
Lemma cropped_app c q : cropped (c ++ q) 0 (size c) = c.
Proof.
  unfold cropped. rewrite length_app. replace (_ && _) with true by lia.
  by rewrite Nat2Z.id, drop_0, take_app_length.
Qed.

(** Counting the items. *)
Lemma items_loop_tiled l f p i : tiled p l -> (length l < f)%nat ->
  items_loop f p i = Ok (i + size l).
Proof.
  revert f p i. induction l as [|c l IH]; intros [|f] p i Ht Hf; simpl length in *; try lia.
  - destruct Ht as [-> _]. simpl. f_equal. lia.
  - apply tiled_cons in Ht as (q & -> & Hc & Hq). pose proof (item_size c Hc) as Hs.
    cbn [items_loop]. rewrite length_app. replace (_ =? 0) with false by lia.
    rewrite item_sizeAsEncoded by done. simpl. rewrite cropped_from_app, (IH f) by (done || lia).
    f_equal. lia.
Qed.

Lemma items_tiled h p q l : head true h p -> tiled p l -> items (h ++ p ++ q) = Ok (size l).
Proof.
  intros H Ht. unfold items. rewrite (ra_list _ _ _ _ (reads _ _ _ q H)), (reads_payload _ _ _ q H).
  unfold mbind, outcome_bind. apply (items_loop_tiled l _ p 0); [done|]. apply tiled_length in Ht. lia.
Qed.

(** *** The iterator *)

(** The iterator on the item [c] that lies between [pre] and [rest]. *)
Definition at_item (pre c rest : bytes) : iterator :=
  mkIt (size rest) (mkRef (Some (size pre)) (size c)).

Lemma view_at pre c rest : view (pre ++ c ++ rest) (mkRef (Some (size pre)) (size c)) = c.
Proof. unfold view. simpl. by rewrite !Nat2Z.id, drop_app_length, take_app_length. Qed.

Lemma view_next pre c r : view (pre ++ c ++ r) (mkRef (Some (size pre + size c)) (size r)) = r.
Proof.
  pose proof (view_at (pre ++ c) r []) as V.
  by rewrite app_nil_r, <- app_assoc, length_app, Nat2Z.inj_add in V.
Qed.

(** Advancing to the item [c'] after [c]. *)
Lemma incr_at pre c c' rest : is_item c' ->
  incr (pre ++ c ++ c' ++ rest) (at_item pre c (c' ++ rest)) = Ok (at_item (pre ++ c) c' rest).
Proof.
  intros Hc. pose proof (item_size c' Hc). unfold incr, at_item. cbn [m_remaining m_currentItem].
  assert (0 < size (c' ++ rest)) by (rewrite length_app; lia).
  replace (size (c' ++ rest) =? 0) with false by lia. unfold ref_next. simpl.
  rewrite view_next, item_sizeAsEncoded by done. simpl. unfold ref_cropped. simpl.
  rewrite !length_app. replace (_ && _) with true by lia. simpl. f_equal. f_equal; [lia|].
  do 2 f_equal. lia.
Qed.

Lemma not_end pre c rest : c <> [] ->
  bool_decide (m_currentItem (at_item pre c rest) = m_currentItem (end_ (pre ++ c ++ rest))) = false.
Proof. intros. apply bool_decide_eq_false. simpl. intros [= ? Hc]. destruct c; [done|]. simpl in Hc. lia. Qed.

Section ForLoop.
Context {A : Type} (body : t -> outcome A).

Lemma for_loop_end f d : for_loop (S f) d body (mkIt 0 (mkRef (Some (size d)) 0)) = Ok [].
Proof. simpl. by rewrite bool_decide_true. Qed.

Lemma incr_last pre c : incr (pre ++ c) (at_item pre c []) = Ok (mkIt 0 (mkRef (Some (size (pre ++ c))) 0)).
Proof. unfold incr, at_item, ref_next. simpl. by rewrite length_app, Nat2Z.inj_add. Qed.

(** The loop visits the items in order. *)
Lemma for_loop_tiled f pre c l : Forall is_item (c :: l) -> (S (length l) < f)%nat ->
  for_loop f (pre ++ c ++ concat l) body (at_item pre c (concat l))
  = mapM (fun c => body (of_data c)) (c :: l).
Proof.
  revert f pre c. induction l as [|c' l IH]; intros [|f] pre c Hl Hf; simpl length in *; try lia.
  all: apply Forall_cons_iff in Hl as [Hc Hl]; pose proof (item_size c Hc) as Hs.
  all: cbn [for_loop]; rewrite not_end, view_at, item_new by (done || (intros ->; simpl in Hs; lia)).
  all: cbn [mapM]; unfold mbind, outcome_bind, mret, outcome_ret; destruct (body _); try done.
  - simpl concat. rewrite app_nil_r, incr_last. destruct f; [lia|]. by rewrite for_loop_end.
  - apply Forall_cons_iff in Hl as [Hc' Hl]. simpl concat. rewrite incr_at by done.
    specialize (IH f (pre ++ c) c'). rewrite <- app_assoc in IH. rewrite IH; [done| |lia].
    by constructor.
Qed.

(** If the loop completes, what it walked over was a sequence of items. *)
Lemma for_loop_sound f pre c rest out : bytes_ok rest -> c <> [] ->
  for_loop f (pre ++ c ++ rest) body (at_item pre c rest) = Ok out ->
  exists l, tiled rest l.
Proof.
  revert pre c rest out. induction f as [|f IH]; intros pre c rest out Hr Hc; [done|].
  cbn [for_loop]. rewrite not_end by done. unfold mbind, outcome_bind.
  destruct (new _ _) as [i| | | | |]; try done. destruct (body i); try done.
  destruct (decide (rest = [])) as [->|Hne]; [intros _; exists []; by split|].
  destruct (incr _ _) as [it'| | | | |] eqn:Hi; try done.
  assert (exists c' q, rest = c' ++ q /\ is_item c') as (c' & q & -> & Hc').
  { unfold incr in Hi. assert (negb (m_remaining (at_item pre c rest) =? 0) = true) as E.
    { destruct rest; [done|]. simpl. lia. }
    rewrite E in Hi. unfold ref_next in Hi. simpl in Hi. rewrite view_next in Hi.
    destruct (sizeAsEncoded rest) as [n| | | | |] eqn:Hn; try done.
    destruct (sizeAsEncoded_sound rest n) as (c' & q & ? & ? & ?); eauto. }
  rewrite incr_at in Hi by done. injection Hi as <-.
  destruct (for_loop f _ _ _) as [l| | | | |] eqn:Hl; try done. intros _.
  apply bytes_ok_app in Hr as [_ Hq].
  pose proof (IH (pre ++ c) c' q l Hq) as IH'. rewrite <- app_assoc in IH'.
  destruct IH' as (l' & Hl'); [|done|].
  - intros ->. apply item_size in Hc'. simpl in Hc'. lia.
  - exists (c' :: l'). apply tiled_cons. eauto.
Qed.
End ForLoop.

Lemma reads_exact k h p : head k h p -> reads_as (h ++ p) k (size h) (size p).
Proof. intros H. pose proof (reads k h p [] H) as R. by rewrite app_nil_r in R. Qed.

Lemma reads_payload_ref h p : head true h p ->
  payload_ref (h ++ p) = Ok (mkRef (Some (size h)) (size p)).
Proof.
  intros H. destruct (reads_exact _ _ _ H) as [_ _ _ Le O]. unfold payload_ref.
  rewrite Le, O. simpl. rewrite length_app. replace (_ <? _) with false by lia.
  unfold ref_cropped. cbn [r_at r_count]. by replace (_ && _) with true by lia.
Qed.

Lemma begin_spec h p : head true h p ->
  begin_ (h ++ p) = (s ← sizeAsEncoded p;
    let cur := ref_cropped (mkRef (Some (size h)) (size p)) 0 s in
    Ok (mkIt (u64 (size p - r_count cur)) cur)).
Proof.
  intros H. unfold begin_. rewrite (ra_list _ _ _ _ (reads_exact _ _ _ H)).
  rewrite reads_payload_ref by done. unfold mbind at 1, outcome_bind at 1.
  pose proof (view_at h p []) as V. rewrite app_nil_r in V. by rewrite V.
Qed.

Lemma begin_first h c q : head true h (c ++ q) -> is_item c ->
  begin_ (h ++ c ++ q) = Ok (at_item h c q).
Proof.
  intros H Hc. rewrite begin_spec by done. rewrite item_sizeAsEncoded by done.
  pose proof (head_size _ _ _ H) as Hh. simpl. unfold ref_cropped. cbn [r_at r_count].
  rewrite !length_app in *. replace (_ && _) with true by lia. simpl. unfold at_item.
  f_equal. f_equal; [|by rewrite Z.add_0_r]. rewrite wrap_small; [lia|]. unfold in_range. lia.
Qed.

Section ForItems.
Context {A : Type} (body : t -> outcome A) (h p : bytes) (H : head true h p).

Lemma for_items_tiled l f : tiled p l -> (S (length l) < f)%nat ->
  for_items f (h ++ p) body = mapM (fun c => body (of_data c)) l.
Proof.
  intros Ht Hf. unfold for_items. destruct l as [|c l].
  - destruct Ht as [-> _]. rewrite begin_spec by done. destruct f; [simpl in Hf; lia|].
    cbn [concat]. rewrite app_nil_r.
    unfold mbind, outcome_bind, ref_cropped. simpl sizeAsEncoded. cbn [length r_at r_count andb].
    rewrite Z.add_0_r. apply (for_loop_end body f h).
  - destruct Ht as [E Hl]. simpl in E. subst p. apply Forall_cons_iff in Hl as Hc.
    rewrite begin_first by (done || apply Hc). apply for_loop_tiled; [done|]. simpl in Hf. lia.
Qed.

Lemma for_items_sound f out : bytes_ok p -> for_items f (h ++ p) body = Ok out ->
  exists l, tiled p l.
Proof.
  intros Hok Ho. destruct (decide (p = [])) as [->|Hne]; [exists []; by split|].
  unfold for_items in Ho. assert (exists c q, p = c ++ q /\ is_item c) as (c & q & -> & Hc).
  { rewrite begin_spec in Ho by done. destruct (sizeAsEncoded p) as [n| | | | |] eqn:Hn; try done.
    destruct (sizeAsEncoded_sound p n) as (c & q & ? & ? & ?); eauto. }
  pose proof (item_size c Hc) as Hs.
  rewrite begin_first in Ho by done. simpl in Ho. apply bytes_ok_app in Hok as [_ Hq].
  destruct (for_loop_sound body f h c q out Hq) as (l & Hl); [|done|].
  - intros ->. simpl in Hs. lia.
  - exists (c :: l). apply tiled_cons. eauto.
Qed.
End ForItems.

(** ** Byte strings, integers and hashes *)

Lemma head_bytes k h p : head k h p -> bytes_ok p.
Proof. by intros []. Qed.

Lemma toBytes_head fl h p : head false h p -> toBytes fl (h ++ p) = Ok p.
Proof.
  intros H. pose proof (reads_payload _ _ _ [] H) as P. rewrite app_nil_r in P.
  destruct (reads_exact _ _ _ H) as [_ _ D L _]. unfold toBytes. rewrite D, P, L.
  simpl. rewrite Z.leb_refl, Nat2Z.id. by rewrite take_ge.
Qed.

Lemma toHash_head N fl h p : head false h p -> length p = N -> toHash N fl (h ++ p) = Ok p.
Proof.
  intros H <-. pose proof (reads_payload _ _ _ [] H) as P. rewrite app_nil_r in P.
  destruct (reads_exact _ _ _ H) as [Nu _ D L _]. unfold toHash. rewrite D, P.
  assert (requireGood (h ++ p) = Ok tt) as ->.
  { unfold length_ in L. rewrite Nu in L. by destruct (requireGood _) as [[]| | | | |]. }
  simpl. rewrite Z.ltb_irrefl. simpl. rewrite Z.min_id, Nat2Z.id, Nat.sub_diag, take_0, take_ge by lia.
  done.
Qed.

Lemma reads_requireGood k h p : head k h p -> requireGood (h ++ p) = Ok tt.
Proof.
  intros H. destruct (reads_exact _ _ _ H) as [Nu _ _ L _].
  unfold length_ in L. rewrite Nu in L. by destruct (requireGood _) as [[]| | | | |].
Qed.

(** The integer test looks at the first byte of the payload. *)
Lemma isInt_head h p : head false h p ->
  isInt (h ++ p) = Ok (match p with [] => true | b :: _ => negb (b =? 0) end).
Proof.
  intros H. pose proof (reads_requireGood _ _ _ H) as G. pose proof (reads_exact _ _ _ H) as [N _ _ _ _].
  unfold isInt. rewrite N, G. unfold mbind, outcome_bind. rlp_consts.
  inversion H as [b Hb Hs|]; subst. clear H G N.
  assert (forall x q, nthz (x :: q) 0 = x) as Z0 by done.
  assert (forall x q, nthz (x :: q) 1 = nthz q 0) as Z1 by done.
  destruct p as [|b p]; [done|]. apply bytes_ok_cons in Hb as [Hb Hp]. unfold is_byte in Hb.
  destruct (decide (p = [] /\ b < 128)) as [[-> Hlt]|Hn].
  { simpl data_header. replace (b <? 128) with true by lia. cbn [app].
    rewrite !Z0. by replace (b <? 128) with true by lia. }
  assert (data_header (b :: p) = header 128 183 (size (b :: p))) as ->.
  { destruct p; [|done]. simpl. by destruct (Z.ltb_spec b 128); [by destruct Hn|]. }
  unfold header, rlp_limit in *. simpl length in *. destruct (Z.ltb_spec (Z.of_nat (S (length p))) 56).
  - cbn [app]. rewrite !Z0, Z1, Z0. simpl length. decide_ifs. done.
  - set (n := Z.of_nat _) in *. destruct (bytesRequired_spec n) as (m & Hm & _ & _ & Hpos); [lia|].
    pose proof (bytesRequired_le n 8 ltac:(simpl; lia)). cbn [app].
    rewrite !Z0. simpl length. rewrite length_app, length_toBigEndian. simpl length.
    destruct Hpos as [? _]; [lia|]. decide_ifs. rewrite Hm.
    replace (1 + (183 + Z.of_nat m) - 183) with (1 + Z.of_nat m) by lia.
    assert (forall x q, nthz (x :: q) (1 + Z.of_nat m) = nthz q (Z.of_nat m)) as Zm.
    { intros. unfold nthz. by replace (Z.to_nat (1 + Z.of_nat m)) with (S (Z.to_nat (Z.of_nat m))) by lia. }
    rewrite Zm. unfold nthz. rewrite !Nat2Z.id, app_nth2; rewrite length_toBigEndian; [|lia].
    by rewrite Nat.sub_diag.
Qed.

(** Reading an integer: its canonical bytes, with the size limit of the type. *)
Lemma toInt_head T h p : head false h p -> (forall b q, p = b :: q -> b <> 0) ->
  toInt T Strict (h ++ p)
  = if maxSize T <? size p then Throw "Bad Cast" else Ok (fromBigEndian (cast T) p).
Proof.
  intros H Hz. pose proof (reads_payload _ _ _ [] H) as P. rewrite app_nil_r in P.
  destruct (reads_exact _ _ _ H) as [N Li _ _ _]. unfold toInt.
  rewrite (reads_requireGood _ _ _ H), isInt_head by done. unfold mbind, outcome_bind.
  rewrite Li, N, P. replace (match p with [] => true | _ :: _ => _ end) with true.
  - simpl. rewrite andb_true_r. done.
  - destruct p as [|b q]; [done|]. specialize (Hz b q eq_refl). lia.
Qed.

(** The bytes of an integer have no leading zero. *)
Lemma int_bytes_leading i b q : 0 <= i -> StreamProof.int_bytes i = b :: q -> b <> 0.
Proof.
  intros Hi E. destruct (bytesRequired_spec i Hi) as (n & Hn & Hlt & _).
  pose proof (toBigEndian_bytes_ok n i) as Hok. pose proof (length_toBigEndian n i) as Hl.
  pose proof (be_value_toBigEndian n i) as Hv. rewrite Z.mod_small in Hv by lia.
  unfold StreamProof.int_bytes in E. rewrite Hn, Nat2Z.id in E. rewrite E in *.
  apply (leading_byte b q Hok). by rewrite Hv, Hn, <- Hl.
Qed.

(** ** The subscript operator and its cache *)

(** The states the cache of a list with items [l] goes through: fresh, or at
    position [k], which is at most the number of items. *)
Definition cache_at (l : list bytes) (k : nat) (r : t) : Prop :=
  (k <= length l)%nat /\ m_lastIndex r = Z.of_nat k /\
  m_lastItem r = default [] (l !! k) /\ m_lastEnd r = size (concat (take (S k) l)).
Definition cache_fresh (r : t) : Prop := m_lastIndex r = size_t_max /\ m_lastItem r = [].
Definition cache_ok (l : list bytes) (r : t) : Prop := cache_fresh r \/ exists k, cache_at l k r.

Section Cache.
Context (d p : bytes) (l : list bytes).
Context (Hpay : payload d = Ok p) (Ht : tiled p l) (Hfit : size d < size_t_max)
        (Hlen : (length p <= length d)%nat).

Local Abbreviation over r := (m_data r = d).

(** The item at position [j], or the empty string after the last item, as the
    operator extracts it. *)
Lemma item_at j : (j <= length l)%nat ->
  let rest := cropped_from p (size (concat (take j l))) in
  let c := default [] (l !! j) in
  sizeAsEncoded rest = Ok (size c) /\ cropped rest 0 (size c) = c /\
  size (concat (take (S j) l)) = size (concat (take j l)) + size c.
Proof.
  destruct Ht as [-> Hl]. intros Hj rest c.
  assert (rest = concat (drop j l)) as ->.
  { subst rest. rewrite <- (take_drop j l) at 1. by rewrite concat_app, cropped_from_app. }
  subst c. destruct (l !! j) as [c|] eqn:Hc; simpl.
  - rewrite (drop_S l c j) by done. simpl. pose proof (Forall_lookup_1 _ _ _ _ Hl Hc).
    split; [by apply item_sizeAsEncoded|]. split; [apply cropped_app|].
    rewrite (take_S_r l j c Hc), concat_app, length_app. simpl. rewrite app_nil_r. lia.
  - apply lookup_ge_None in Hc. rewrite drop_ge by lia. split; [done|]. split; [done|].
    rewrite !take_ge by lia. simpl. lia.
Qed.

Lemma concat_take_le k : (length (concat (take k l)) <= length p)%nat.
Proof.
  destruct Ht as [-> _]. rewrite <- (take_drop k l) at 2. rewrite concat_app, length_app. lia.
Qed.

Lemma cached_item_nonempty k r : cache_at l k r -> (k < length l)%nat <-> m_lastItem r <> [].
Proof.
  intros (Hk & _ & -> & _). split.
  - intros Hlt. destruct (lookup_lt_is_Some_2 l k Hlt) as [c Hc]. rewrite Hc. simpl. intros ->.
    destruct Ht as [_ Hl]. pose proof (item_size _ (Forall_lookup_1 _ _ _ _ Hl Hc)) as Hs.
    simpl in Hs. lia.
  - intros Hne. destruct (l !! k) eqn:Hc; [|done]. by apply lookup_lt_Some in Hc.
Qed.

(** One turn of the loop moves to the next item, or past the last one. *)
Lemma index_loop_step f i k r : over r -> cache_at l k r -> Z.of_nat k < i -> (k < length l)%nat ->
  exists r', over r' /\ cache_at l (S k) r' /\ index_loop (S f) i r = index_loop f i r'.
Proof.
  intros Hd Hat Hi Hkl. pose proof (proj1 (cached_item_nonempty k r Hat) Hkl) as Hne.
  destruct Hat as (Hk & HI & Hit & He). pose proof (tiled_length _ _ Ht) as Hl.
  destruct (item_at (S k) ltac:(lia)) as (Hsz & Hcr & Hcat). unfold size_t_max in Hfit.
  set (c := default [] (l !! S k)) in *.
  exists (mk d (Z.of_nat (S k)) (size (concat (take (S (S k)) l))) c).
  split; [done|]. split; [by repeat split; simpl; try lia|].
  cbn [index_loop]. unfold gets, lift_outcome, modify, mbind, SE_bind, id. rewrite Hd, HI.
  assert (size (m_lastItem r) <> 0) by (by destruct (m_lastItem r)).
  replace (_ && _) with true by lia. rewrite Hpay. simpl. rewrite He, Hsz.
  unfold set_lastItem, set_lastEnd, set_lastIndex. simpl. rewrite Hcr, Hd, HI, Hcat.
  pose proof (concat_take_le (S (S k))).
  rewrite !wrap_small by (unfold in_range; lia). by replace (Z.of_nat k + 1) with (Z.of_nat (S k)) by lia.
Qed.

(** The loop stops at the wanted position or past the last item. *)
Lemma index_loop_spec f i k r : over r -> cache_at l k r -> Z.of_nat k <= i ->
  (length l - k < f)%nat ->
  exists r', index_loop f i r = (Ok tt, r') /\ over r' /\
    cache_at l (Nat.min (Z.to_nat i) (length l)) r'.
Proof.
  revert k r. induction f as [|f IH]; intros k r Hd Hat Hi Hf; [lia|].
  destruct (decide (Z.of_nat k < i /\ (k < length l)%nat)) as [[Hlt Hkl]|Hstop].
  - destruct (index_loop_step f i k r Hd Hat Hlt Hkl) as (r' & Hd' & Hat' & ->).
    apply (IH (S k)); try done; lia.
  - exists r. pose proof (cached_item_nonempty k r Hat) as Hne. pose proof Hat as (Hk & HI & _).
    split; [|split; [done|]].
    + cbn [index_loop]. unfold gets, mbind, SE_bind, id.
      replace (_ && _) with false; [done|]. symmetry. rewrite HI.
      destruct (m_lastItem r) as [|x q]; [by rewrite andb_false_r|].
      assert (k < length l)%nat by (by apply Hne). simpl length. lia.
    + replace (Nat.min _ _) with k; [done|]. lia.
Qed.

(** The part of the operator after the cache has been rewound. *)
Lemma index_from i k r : over r -> cache_at l k r -> Z.of_nat k <= i ->
  exists r', (_ ← index_loop (S (S (length d))) i; it ← gets m_lastItem;
      lift_outcome (new it (Z.lor ThrowOnFail FailIfTooSmall))) r
    = (Ok (of_data (default [] (l !! Z.to_nat i))), r') /\ over r' /\ cache_ok l r'.
Proof.
  intros Hd Hat Hki. pose proof (tiled_length _ _ Ht) as Hl.
  destruct (index_loop_spec (S (S (length d))) i k r Hd Hat Hki ltac:(lia)) as (r' & E & Hd' & Hat').
  exists r'. split; [|split; [done|right; eauto]]. unfold mbind, SE_bind. rewrite E.
  unfold gets, lift_outcome. destruct Hat' as (_ & _ & -> & _).
  assert (l !! Nat.min (Z.to_nat i) (length l) = l !! Z.to_nat i) as ->.
  { destruct (decide (Z.to_nat i <= length l)%nat); [by rewrite Nat.min_l by lia|].
    rewrite Nat.min_r by lia. by rewrite !lookup_ge_None_2 by lia. }
  destruct (l !! Z.to_nat i) eqn:Hx; [|done]. destruct Ht as [_ Hf].
  simpl. rewrite item_new; [done|]. by eapply Forall_lookup_1.
Qed.

(** Subscripting in any order, whatever was asked before: item [i], or the null
    item beyond the end. *)
Lemma index_spec i r : over r -> cache_ok l r -> in_range 64 i ->
  exists r', index i r = (Ok (of_data (default [] (l !! Z.to_nat i))), r') /\
    over r' /\ cache_ok l r'.
Proof.
  intros Hd Hc Hi. unfold in_range, size_t_max in *. pose proof (tiled_length _ _ Ht) as Hl.
  unfold index. rewrite (SE_bind_ok _ _ _ r r) by done. rewrite Hd.
  destruct (Z.ltb_spec i (m_lastIndex r)) as [Hlt|Hge].
  - destruct (item_at 0 ltac:(lia)) as (Hsz & Hcr & Hcat). simpl in Hsz, Hcr.
    pose proof (cropped_from_app [] p) as E0. simpl in E0. rewrite E0 in Hsz, Hcr.
    rewrite (SE_bind_ok _ _ _ tt (mk d 0 (size (concat (take 1 l))) (default [] (l !! 0%nat)))).
    + apply (index_from i 0); [done|by repeat split; simpl; try lia|lia].
    + unfold when, mbind, SE_bind, lift_outcome, modify. rewrite Hpay, Hsz, Hcr, Hcat.
      unfold set_lastItem, set_lastEnd, set_lastIndex. simpl. by rewrite Hd.
  - rewrite (SE_bind_ok _ _ _ tt r) by done. destruct Hc as [[HI Hit]|[k Hat]].
    + unfold size_t_max in HI. exists r. split; [|split; [done|by left]]. rewrite (SE_bind_ok _ _ _ tt r).
      * rewrite (SE_bind_ok _ _ _ [] r) by (unfold gets; by rewrite Hit).
        by rewrite lookup_ge_None_2 by lia.
      * cbn [index_loop]. rewrite (SE_bind_ok _ _ _ r r) by done. rewrite HI.
        by replace (_ && _) with false by (unfold size_t_max; lia).
    + apply (index_from i k r Hd Hat). destruct Hat as (_ & HI & _). lia.
Qed.
End Cache.

(** ** Reading back whole items *)

(** A reader of nested items made of the class's operations. *)
Fixpoint read_item (fuel : nat) (d : bytes) : outcome item :=
  match fuel with
  | O => Diverge
  | S f =>
    r ← new d VeryStrict;
    if isNull (m_data r) then Throw "no item" else
    if isList (m_data r) then
      l ← toList (enough (m_data r)) Strict (m_data r);
      its ← mapM (fun i => read_item f (m_data i)) l;
      Ok (IList its)
    else b ← toBytes Strict (m_data r); Ok (IData b)
  end.

Lemma mapM_ok {A B} (f : A -> B) l : mapM (M := outcome) (fun x => Ok (f x)) l = Ok (map f l).
Proof. induction l as [|x l IH]; [done|]. simpl. by rewrite IH. Qed.

Lemma mapM_Forall2 {A B} (f : A -> outcome B) l k :
  mapM f l = Ok k <-> Forall2 (fun x y => f x = Ok y) l k.
Proof.
  revert k. induction l as [|x l IH]; intros k; simpl.
  - split; [intros [= <-]; constructor|by intros ->%Forall2_nil_inv_l].
  - unfold mbind, outcome_bind, mret, outcome_ret. destruct (f x) as [y| | | | |] eqn:Hx.
    2-6: split; [done|intros (y & ys & Hy & _)%Forall2_cons_inv_l; congruence].
    destruct (mapM f l) as [ys| | | | |].
    2-6: split; [done|by intros (z & zs & _ & Hl%IH & _)%Forall2_cons_inv_l].
    split; [intros [= <-]; constructor; [done|by apply IH]|].
    intros (z & zs & Hz & Hl%IH & ->)%Forall2_cons_inv_l. congruence.
Qed.

Lemma toList_tiled h p l fl : head true h p -> tiled p l ->
  toList (enough (h ++ p)) fl (h ++ p) = Ok (map of_data l).
Proof.
  intros H Hl. unfold toList. rewrite (ra_list _ _ _ _ (reads_exact _ _ _ H)). simpl.
  rewrite (for_items_tiled _ h p H l) by
    (try done; apply tiled_length in Hl; unfold enough; rewrite length_app;
     inversion H; subst; unfold list_header, header; case_match; simpl; lia).
  apply mapM_ok.
Qed.

(** An object made with [VeryStrict] is null or exactly one item. *)
Lemma new_strict_sound d r : bytes_ok d -> new d VeryStrict = Ok r ->
  r = of_data d /\ (d = [] \/ is_item d).
Proof.
  intros Hok. unfold new, check_size. simpl.
  destruct (actualSize d) as [a| | | | |] eqn:A; try done. simpl.
  destruct (Z.ltb_spec a (size d)); [done|]. simpl. rewrite A. simpl.
  destruct (Z.ltb_spec (size d) a); [done|]. intros [= <-]. split; [done|].
  destruct (decide (d = [])) as [|Hne]; [by left|right].
  destruct (actualSize_sound d a) as (c & q & -> & Hc & Hs); try (done || lia).
  rewrite length_app in *. assert (q = []) as -> by (apply length_zero_iff_nil; lia).
  by rewrite app_nil_r.
Qed.

(** Everything [read_item] accepts is the encoding of what it returns, cut into
    items at every level. *)
Definition reads_back (d : bytes) (it : item) : Prop :=
  d = encode it /\
  match it with
  | IList its => exists h p, d = h ++ p /\ head true h p /\ tiled p (map encode its)
  | IData _ => True
  end.

Lemma read_item_sound f d it : bytes_ok d -> read_item f d = Ok it -> reads_back d it.
Proof.
  revert d it. induction f as [|f IH]; intros d it Hok; [done|]. cbn [read_item].
  destruct (new d VeryStrict) as [r| | | | |] eqn:Hn; try done.
  apply new_strict_sound in Hn as [-> [->|(k & h & p & H & ->)]]; [done| |done].
  destruct (reads_exact _ _ _ H) as [Nu L _ _ _].
  unfold mbind at 1, outcome_bind at 1. cbn [m_data of_data]. rewrite Nu, L.
  apply bytes_ok_app in Hok as [_ Hp]. destruct k.
  - destruct (toList _ _ _) as [rs| | | | |] eqn:Hl; try done. simpl.
    destruct (mapM _ rs) as [its| | | | |] eqn:Hm; try done. simpl. intros [= <-].
    assert (exists l, tiled p l) as (l & Ht).
    { unfold toList in Hl. rewrite L in Hl. simpl in Hl. by eapply for_items_sound. }
    rewrite (toList_tiled h p l) in Hl by done. injection Hl as <-.
    apply mapM_Forall2 in Hm. rewrite Forall2_fmap_l in Hm. destruct Ht as [-> Hl].
    assert (l = map encode its) as ->.
    { clear - Hm IH Hp. induction Hm as [|c it l its Hc Hm IHm]; [done|]. simpl in *.
      apply bytes_ok_app in Hp as [Hp1 Hp2]. f_equal; [by apply (IH c it Hp1)|by apply IHm]. }
    split; [by inversion H; subst|]. exists h, (concat (map encode its)). by repeat split.
  - rewrite toBytes_head by done. simpl. intros [= <-]. by inversion H; subst.
Qed.

(** Encodings are bytes, and an item. *)
Lemma header_bytes_ok imm ind n : 0 <= n < rlp_limit -> 0 <= imm <= 0xc0 -> 0 <= ind <= 0xf7 ->
  bytes_ok (header imm ind n).
Proof.
  unfold rlp_limit. intros Hn Hi Hd. unfold header. case_match; apply bytes_ok_cons; unfold is_byte.
  - split; [lia|constructor].
  - destruct (bytesRequired_spec n) as (m & Hm & _); [lia|].
    pose proof (bytesRequired_le n 8 ltac:(simpl; lia)).
    split; [lia|apply toBigEndian_bytes_ok].
Qed.

Lemma encode_head it : data_ok it -> size (encode it) < rlp_limit ->
  bytes_ok (encode it) /\ is_item (encode it).
Proof.
  induction it as [b|l IH] using item_ind'; intros Hok Hs; simpl in *; rewrite length_app in Hs.
  - assert (head false (data_header b) b) as H by (constructor; [done|lia]).
    split; [|by exists false, (data_header b), b]. apply bytes_ok_app. split; [|done].
    unfold data_header. destruct b as [|x [|]]; try (apply header_bytes_ok; simpl in *; lia).
    case_match; [constructor|apply header_bytes_ok; unfold rlp_limit; lia].
  - apply data_ok_list in Hok. set (p := concat (map encode l)) in *.
    assert (bytes_ok p) as Hp.
    { subst p. assert (size (concat (map encode l)) < rlp_limit) as Hs' by lia. clear Hs.
      induction l as [|x l IHl]; [constructor|]. simpl in *. rewrite length_app in Hs'.
      apply Forall_cons_iff in IH as [IHx IH]. apply Forall_cons_iff in Hok as [Hx Hok].
      apply bytes_ok_app. split; [apply IHx; [done|lia]|apply IHl; try done; lia]. }
    assert (head true (list_header p) p) as H by (constructor; [done|lia]).
    split; [|by exists true, (list_header p), p]. apply bytes_ok_app. split; [|done].
    apply header_bytes_ok; lia.
Qed.

Lemma encode_sublist l : Forall data_ok l -> size (concat (map encode l)) < rlp_limit ->
  tiled (concat (map encode l)) (map encode l) /\
  Forall (fun x => size (encode x) <= size (concat (map encode l))) l.
Proof.
  intros Hok Hs.
  assert (Forall (fun x => size (encode x) <= size (concat (map encode l))) l) as Hle.
  { clear. induction l as [|x l IH]; [constructor|]. simpl. rewrite length_app. constructor; [lia|].
    eapply List.Forall_impl; [|exact IH]. simpl; intros; lia. }
  split; [|done]. split; [done|]. apply Forall_fmap, Forall_forall. intros x Hx.
  rewrite !Forall_forall in Hok, Hle. apply encode_head; [by apply Hok|]. specialize (Hle x Hx). lia.
Qed.

Lemma read_item_complete it f : data_ok it -> size (encode it) < rlp_limit ->
  (length (encode it) < f)%nat -> read_item f (encode it) = Ok it.
Proof.
  revert f. induction it as [b|l IH] using item_ind'; intros [|f] Hok Hs Hf; try lia.
  all: cbn [read_item]; destruct (encode_head _ Hok Hs) as [Hb Hi]; rewrite item_new by done.
  all: unfold mbind at 1, outcome_bind at 1; cbn [m_data of_data]; simpl encode in *; rewrite length_app in *.
  - assert (head false (data_header b) b) as H by (constructor; [done|lia]).
    destruct (reads_exact _ _ _ H) as [-> -> _ _ _]. by rewrite toBytes_head.
  - apply data_ok_list in Hok. destruct (encode_sublist l Hok ltac:(lia)) as [Ht Hle].
    set (p := concat (map encode l)) in *.
    assert (0 < size (list_header p)) as Hh by (unfold list_header, header; case_match; simpl length; lia).
    assert (head true (list_header p) p) as H.
    { constructor; [|lia]. by apply bytes_ok_app in Hb as [_ ?]. }
    destruct (reads_exact _ _ _ H) as [-> -> _ _ _].
    rewrite (toList_tiled _ _ (map encode l)) by done. unfold mbind at 1, outcome_bind at 1.
    assert (mapM (fun i => read_item f (m_data i)) (map of_data (map encode l)) = Ok l) as ->; [|done].
    apply mapM_Forall2. rewrite !Forall2_fmap_l. simpl.
    apply Forall2_same_length_lookup_2; [done|]. intros i x y Hx Hy. simplify_eq.
    rewrite Forall_lookup in IH, Hok, Hle. specialize (Hle i x Hx).
    apply (IH i x Hx); [by eapply Hok|lia|lia].
Qed.

(** The items a list of subscripts returns, from one object. *)
Fixpoint index_all (ix : list Z) : SE t (list t) :=
  match ix with
  | [] => mret []
  | i :: ix' => x ← index i; l ← index_all ix'; mret (x :: l)
  end.

Lemma index_all_spec d p l ix r : payload d = Ok p -> tiled p l -> size d < size_t_max ->
  (length p <= length d)%nat -> m_data r = d -> cache_ok l r -> Forall (in_range 64) ix ->
  fst (index_all ix r) = Ok (map (fun i => of_data (default [] (l !! Z.to_nat i))) ix).
Proof.
  intros Hp Ht Hf Hl Hd Hc His. revert r Hd Hc. induction His as [|i ix Hi His IH]; intros; [done|].
  destruct (index_spec d p l Hp Ht Hf Hl i r Hd Hc Hi) as (r' & E & Hd' & Hc').
  cbn [index_all]. rewrite (SE_bind_ok _ _ _ _ _ E). specialize (IH r' Hd' Hc').
  unfold mbind, SE_bind. destruct (index_all ix r') as [o r'']. simpl in IH. by rewrite IH.
Qed.

(** ** Theorems *)

(** The bytes [RLPStream] outputs for any nesting of lists and byte strings
    are the reference encoding of it, although it learns the length of a list
    only after having written it. *)
Theorem rlp_stream_encodes (it : item) :
  size (encode it) < 2 ^ 64 -> data_ok it ->
  RLPStream.rlp StreamProof.stream_item it = Ok (encode it).
Proof. apply StreamProof.rlp_encode. Qed.

Definition sample_item : item :=
  IList [IData [1; 2; 3]; IList []; IData (replicate 60 7); IList [IData [5]; IData []]].
Lemma sample_item_ok : data_ok sample_item.
Proof. repeat split; by apply bytes_ok_check. Qed.
Lemma rlp_stream_encodes_witness :
  RLPStream.rlp StreamProof.stream_item sample_item = Ok (encode sample_item).
Proof. apply (rlp_stream_encodes sample_item); [vm_compute; reflexivity|apply sample_item_ok]. Defined.

(** C9: what the writer wrote, the reader reads back. *)
Theorem rlp_roundtrip (it : item) :
  size (encode it) < rlp_limit -> data_ok it ->
  exists bs, RLPStream.rlp StreamProof.stream_item it = Ok bs /\
    read_item (S (length bs)) bs = Ok it.
Proof.
  intros Hs Hok. exists (encode it). split.
  - apply StreamProof.rlp_encode; [|done]. unfold rlp_limit in Hs. lia.
  - apply read_item_complete; [done|done|lia].
Qed.
Lemma rlp_roundtrip_witness :
  exists bs, RLPStream.rlp StreamProof.stream_item sample_item = Ok bs /\
    read_item (S (length bs)) bs = Ok sample_item.
Proof. apply (rlp_roundtrip sample_item); [vm_compute; reflexivity|apply sample_item_ok]. Defined.

(** Canonicity.  A byte string the strict reader accepts is the encoding of
    the item it returns, so no item has two accepted encodings. *)
Theorem rlp_canonical (fuel : nat) (d : bytes) (it : item) :
  bytes_ok d -> read_item fuel d = Ok it -> d = encode it.
Proof. intros Hok Hr. by apply (read_item_sound fuel). Qed.
Lemma rlp_canonical_witness : [0xc2; 0x05; 0x80] = encode (IList [IData [5]; IData []]).
Proof.
  apply (rlp_canonical 4); [by apply bytes_ok_check|reflexivity].
Defined.

(** On an accepted list the three ways to walk it agree: [items()] counts,
    [toList()] visits, and [operator[]] finds, in any order of subscripts and
    through its mutable cache, the same items; past the end it returns the null
    item. *)
Theorem rlp_walks_agree (fuel : nat) (d : bytes) (its : list item) (ix : list Z) :
  bytes_ok d -> size d < size_t_max -> read_item fuel d = Ok (IList its) ->
  Forall (in_range 64) ix ->
  items d = Ok (size its) /\
  toList (enough d) Strict d = Ok (map (fun it => of_data (encode it)) its) /\
  fst (index_all ix (of_data d))
  = Ok (map (fun i => of_data (default [] (encode <$> its !! Z.to_nat i))) ix).
Proof.
  intros Hok Hs Hr His. apply read_item_sound in Hr as [_ (h & p & -> & H & Ht)]; [|done].
  pose proof (items_tiled h p [] _ H Ht) as Hi. rewrite app_nil_r, length_map in Hi.
  pose proof (reads_payload _ _ _ [] H) as Hp. rewrite app_nil_r in Hp.
  split; [done|]. split; [by rewrite (toList_tiled h p _ _ H Ht), map_map|].
  rewrite (index_all_spec (h ++ p) p (map encode its)); try done.
  - f_equal. apply map_ext. intros i. by rewrite list_lookup_fmap.
  - rewrite length_app. lia.
  - by left.
Qed.
Lemma rlp_walks_agree_witness :
  fst (index_all [2; 0; 7; 3; 1] (of_data (encode sample_item)))
  = Ok (map of_data [encode (IData (replicate 60 7)); [0x83; 1; 2; 3]; []; [0xc2; 5; 0x80]; [0xc0]]).
Proof.
  refine (proj2 (proj2 (rlp_walks_agree 100 (encode sample_item)
    [IData [1; 2; 3]; IList []; IData (replicate 60 7); IList [IData [5]; IData []]] _ _ _ _ _))).
  - apply encode_head; [apply sample_item_ok|vm_compute; reflexivity].
  - vm_compute; reflexivity.
  - vm_compute; reflexivity.
  - repeat constructor; unfold in_range; lia.
Defined.

(** An integer written with [append] is read back by [toInt] at every width
    it fits, and refused with [Bad Cast] at the others. *)
Theorem rlp_int_roundtrip (n : nat) (v : Z) :
  0 <= v -> bytesRequired v < 2 ^ 32 ->
  exists bs, RLPStream.rlp RLPStream.append_int v = Ok bs /\
    toInt (mkIntTraits (Z.of_nat n) (wrap (8 * Z.of_nat n))) Strict bs
    = if v <? 2 ^ (8 * Z.of_nat n) then Ok v else Throw "Bad Cast".
Proof.
  intros Hv Hb. exists (encode (IData (StreamProof.int_bytes v))). split.
  { unfold RLPStream.rlp, mbind, SE_bind. by rewrite StreamProof.append_int_spec. }
  pose proof (toBigEndian_bytes_ok (Z.to_nat (bytesRequired v)) v) as Hok.
  pose proof (length_toBigEndian (Z.to_nat (bytesRequired v)) v) as Hl.
  pose proof (be_value_toBigEndian (Z.to_nat (bytesRequired v)) v) as Hval.
  destruct (bytesRequired_spec v Hv) as (m & Hm & Hlt & Hz & Hpos).
  simpl encode. rewrite toInt_head.
  - unfold StreamProof.int_bytes. rewrite Hl. cbn [maxSize cast]. rewrite Hm, Nat2Z.id in *.
    rewrite fromBigEndian_spec by (done || lia). rewrite Hval, (Z.mod_small v) by lia.
    rewrite Z.pow_mul_r by lia. change (2 ^ 8) with 256. destruct (Z.ltb_spec (Z.of_nat n) (Z.of_nat m)).
    + replace (v <? _) with false; [done|]. symmetry. apply Z.ltb_ge.
      destruct (Z.eq_dec v 0) as [->|]; [specialize (Hz eq_refl); lia|].
      destruct Hpos as [_ Hlow]; [lia|]. pose proof (Z.pow_le_mono_r 256 (Z.of_nat n) (Z.of_nat m - 1)). lia.
    + pose proof (Z.pow_le_mono_r 256 (Z.of_nat m) (Z.of_nat n)).
      replace (v <? _) with true by lia. f_equal. apply wrap_small. unfold in_range.
      rewrite Z.pow_mul_r by lia. change (2 ^ 8) with 256. lia.
  - constructor; [done|]. unfold StreamProof.int_bytes, rlp_limit. rewrite Hl. lia.
  - intros b q. by apply int_bytes_leading.
Qed.
Lemma rlp_int_roundtrip_witness :
  exists bs, RLPStream.rlp RLPStream.append_int 1000000 = Ok bs /\
    toInt (mkIntTraits 4 (wrap 32)) Strict bs = Ok 1000000.
Proof. apply (rlp_int_roundtrip 4 1000000); [lia|reflexivity]. Defined.

(** An [RLP] made without the strict size checks over a list with a byte
    after it: the iterator never meets [end()], which lies behind that byte, so
    [toList] does not return, whatever bound is put on its loop. *)
Theorem rlp_trailing_byte_diverges (fuel : nat) :
  new [0xc0; 0x00] LaissezFaire = Ok (of_data [0xc0; 0x00]) /\
  toList fuel Strict [0xc0; 0x00] = Diverge.
Proof.
  split; [done|]. change (for_loop fuel [0xc0; 0x00] (fun i => Ok i) (mkIt 0 (mkRef (Some 1) 0)) = Diverge).
  induction fuel as [|f IH]; [done|]. cbn [for_loop]. rewrite bool_decide_false by done.
  change (incr [0xc0; 0x00] (mkIt 0 (mkRef (Some 1) 0))) with (Ok (mkIt 0 (mkRef (Some 1) 0))).
  change (new _ _) with (Ok (of_data [])). unfold mbind, outcome_bind. by rewrite IH.
Qed.

(** The cache of [operator[]] is not exception safe.  After a subscript that
    throws on a malformed second item, asking the same object again for its
    first item, which was read before, throws too. *)
Theorem rlp_cache_after_throw :
  let r0 := of_data [0xc3; 0x05; 0x83; 0x01] in
  let '(a, r1) := index 0 r0 in
  let '(b, r2) := index 1 r1 in
  let '(c, _) := index 0 r2 in
  a = Ok (of_data [0x05]) /\ b = Throw "Undersized RLP" /\ c = Throw "Undersized RLP".
Proof. vm_compute. auto. Qed.
