(* ===== verification/ScRlpFields.v ===== *)
(** * Records as RLP lists

    The engine stores a record as a list of fields written one after the other
    and reads it by subscripts.  The lemmas say what such a sequence of writes
    outputs and what each subscript reads. *)

From S2P Require Import Prelude ScFixedHash ScRlp ScRlpWrite ScRlpRead.
From Stdlib Require Import ZifyBool.

Section Writing.
Import RLPStream StreamProof.

(** The computation appends the item. *)
Definition writes (w : SE t unit) (it : item) : Prop :=
  forall s, w s = noteAppended 1 (put (encode it) s).

Lemma writes_int v : in_range 256 v -> writes (append_int v) (IData (int_bytes v)).
Proof.
  unfold in_range. intros Hv s. apply append_int_spec; [lia|].
  pose proof (bytesRequired_le v 32 ltac:(simpl; lia)). lia.
Qed.
Lemma writes_bytes b : bytes_ok b -> size b < 2 ^ 64 -> writes (append b false) (IData b).
Proof. intros Hb Hs s. by apply append_spec. Qed.

Definition fields (l : list (SE t unit * item)) : item := IList (map snd l).

(** A list of announced length and its fields. *)
Lemma fields_written (l : list (SE t unit * item)) :
  l <> [] -> Forall (fun x => writes (fst x) (snd x)) l -> size (encode (fields l)) < 2 ^ 64 ->
  (appendList (size l);; append_each fst l) new = (Ok tt, mk (encode (fields l)) []).
Proof.
  intros Hne Hl Hs. unfold appendList. destruct l as [|x l]; [done|].
  replace (negb (size (x :: l) =? 0)) with true by (simpl length; lia).
  unfold mbind, SE_bind, modify. simpl in Hs. rewrite length_app in Hs.
  pose proof (append_each_spec fst (fun y => encode (snd y)) (x :: l) ltac:(done)) as A.
  specialize (A ltac:(eapply List.Forall_impl; [|exact Hl]; intros y Hy _; apply Hy) [] [] []).
  simpl in A. cbn [m_out m_listStack new length size]. simpl in *. rewrite map_map in Hs. rewrite A by lia.
  unfold noteAppended. simpl. by rewrite map_map.
Qed.
End Writing.

Section Reading.
Import RLP.

Definition list_ok (its : list item) : Prop :=
  Forall data_ok its /\ size (encode (IList its)) < rlp_limit.

(** An object over the list, whose cache was filled by earlier subscripts. *)
Definition over (its : list item) (r : t) : Prop :=
  m_data r = encode (IList its) /\ cache_ok (map encode its) r.

Lemma list_head its : list_ok its ->
  head true (list_header (concat (map encode its))) (concat (map encode its)) /\
  tiled (concat (map encode its)) (map encode its).
Proof.
  intros [Hok Hs]. pose proof (proj2 (data_ok_list its) Hok) as Hd.
  destruct (encode_head _ Hd Hs) as [Hb _]. simpl in Hs, Hb. rewrite length_app in Hs.
  destruct (encode_sublist its Hok) as [Ht _]; [lia|]. split; [|done].
  constructor; [by apply bytes_ok_app in Hb as [_ ?]|lia].
Qed.

Lemma list_new its : list_ok its -> new (encode (IList its)) VeryStrict = Ok (of_data (encode (IList its))) /\
  over its (of_data (encode (IList its))) /\ isList (encode (IList its)) = true /\
  isNull (encode (IList its)) = false /\ items (encode (IList its)) = Ok (size its).
Proof.
  intros Hok. destruct (list_head its Hok) as [Hp Ht]. simpl encode.
  pose proof (reads_exact _ _ _ Hp) as [Nu L _ _ _].
  split; [by apply (reads_new true)|]. split; [by split; [|left]|]. split; [done|]. split; [done|].
  pose proof (items_tiled _ _ [] _ Hp Ht) as Hi. by rewrite app_nil_r, length_map in Hi.
Qed.

Lemma read_field its i r : list_ok its -> over its r -> in_range 64 i ->
  exists r', index i r = (Ok (of_data (default [] (encode <$> its !! Z.to_nat i))), r') /\ over its r'.
Proof.
  intros Hok [Hd Hc] Hi. destruct (list_head its Hok) as [Hp Ht].
  pose proof (reads_payload _ _ _ [] Hp) as P. rewrite app_nil_r in P.
  destruct (index_spec (encode (IList its)) (concat (map encode its)) (map encode its) P Ht) with (i := i) (r := r)
    as (r' & E & Hd' & Hc'); try done.
  - destruct Hok as [_ Hs]. unfold rlp_limit in Hs. unfold size_t_max. lia.
  - simpl. rewrite length_app. lia.
  - exists r'. rewrite E, list_lookup_fmap. done.
Qed.

Lemma read_at its i it r : list_ok its -> over its r -> in_range 64 i -> its !! Z.to_nat i = Some it ->
  exists r', index i r = (Ok (of_data (encode it)), r') /\ over its r'.
Proof.
  intros Hl Ho Hi Hit. destruct (read_field its i r Hl Ho Hi) as (r' & E & Ho').
  rewrite Hit in E. by exists r'.
Qed.

Lemma head_item b : bytes_ok b -> size b < rlp_limit -> head false (data_header b) b.
Proof. intros. by constructor. Qed.

Lemma isData_head h p : head false h p -> isData (h ++ p) = true.
Proof. intros H. by destruct (reads_exact _ _ _ H). Qed.

(** Reading a field as an integer of [n] bytes. *)
Lemma read_int (n : nat) v : in_range 256 v ->
  toInt (mkIntTraits (Z.of_nat n) (wrap (8 * Z.of_nat n))) Strict (encode (IData (StreamProof.int_bytes v)))
  = if v <? 2 ^ (8 * Z.of_nat n) then Ok v else Throw "Bad Cast".
Proof.
  unfold in_range. intros Hv. pose proof (bytesRequired_le v 32 ltac:(simpl; lia)) as Hb.
  pose proof (toBigEndian_bytes_ok (Z.to_nat (bytesRequired v)) v) as Hok.
  pose proof (length_toBigEndian (Z.to_nat (bytesRequired v)) v) as Hl.
  pose proof (be_value_toBigEndian (Z.to_nat (bytesRequired v)) v) as Hval.
  destruct (bytesRequired_spec v ltac:(lia)) as (m & Hm & Hlt & Hz & Hpos).
  simpl encode. rewrite toInt_head.
  - unfold StreamProof.int_bytes. rewrite Hl. cbn [maxSize cast]. rewrite Hm, Nat2Z.id in *.
    rewrite fromBigEndian_spec by (done || lia). rewrite Hval, (Z.mod_small v) by lia.
    rewrite Z.pow_mul_r by lia. change (2 ^ 8) with 256. destruct (Z.ltb_spec (Z.of_nat n) (Z.of_nat m)).
    + replace (v <? _) with false; [done|]. symmetry. apply Z.ltb_ge.
      destruct (Z.eq_dec v 0) as [->|]; [specialize (Hz eq_refl); lia|].
      destruct Hpos as [_ Hlow]; [lia|]. pose proof (Z.pow_le_mono_r 256 (Z.of_nat n) (Z.of_nat m - 1)). lia.
    + pose proof (Z.pow_le_mono_r 256 (Z.of_nat m) (Z.of_nat n)).
      replace (v <? _) with true by lia. f_equal. apply wrap_small. unfold in_range.
      rewrite Z.pow_mul_r by lia. change (2 ^ 8) with 256. lia.
  - apply head_item; [done|]. unfold StreamProof.int_bytes, rlp_limit. rewrite Hl. lia.
  - intros b q. apply int_bytes_leading. lia.
Qed.

Lemma read_u256 v : in_range 256 v ->
  toInt int_u256 Strict (encode (IData (StreamProof.int_bytes v))) = Ok v.
Proof.
  intros Hv. rewrite (read_int 32 v Hv : toInt int_u256 _ _ = _). unfold in_range in Hv.
  by replace (v <? _) with true by lia.
Qed.

Lemma int_bytes_ok v : bytes_ok (StreamProof.int_bytes v).
Proof. apply toBigEndian_bytes_ok. Qed.
Lemma int_bytes_short v : in_range 256 v -> size (StreamProof.int_bytes v) <= 32.
Proof.
  unfold in_range. intros Hv. pose proof (bytesRequired_le v 32 ltac:(simpl; lia)) as Hb.
  unfold StreamProof.int_bytes. rewrite length_toBigEndian.
  destruct (bytesRequired_spec v) as (m & Hm & _); lia.
Qed.

(** The size of a field. *)
Lemma size_data b : size b < rlp_limit -> size (encode (IData b)) <= size b + 9.
Proof.
  intros Hb. simpl encode. rewrite length_app.
  assert (size (header 0x80 0xb7 (size b)) <= 9) as H.
  { rewrite size_header by lia. unfold rlp_limit in Hb. pose proof (bytesRequired_le (size b) 8 ltac:(simpl; lia)).
    case_match; lia. }
  unfold data_header. destruct b as [|x [|]]; simpl in *; try lia. destruct (x <? 128); simpl; lia.
Qed.
Lemma size_list its : size (concat (map encode its)) < rlp_limit ->
  size (encode (IList its)) <= size (concat (map encode its)) + 9.
Proof.
  intros Hb. simpl encode. rewrite length_app. unfold list_header. rewrite Nat2Z.inj_add, size_header by lia.
  unfold rlp_limit in Hb. pose proof (bytesRequired_le _ 8 ltac:(split; [apply Nat2Z.is_nonneg|simpl; apply (Z.lt_trans _ _ _ Hb); lia])).
  case_match; lia.
Qed.
End Reading.

Lemma lift_bind_ok {S A B} (r : outcome A) (k : A -> SE S B) a s :
  r = Ok a -> (lift_outcome r ≫= k) s = k a s.
Proof. by intros ->. Qed.

(** Runs the subscript a reader continues with. *)
Ltac read_next Hl Ho :=
  match goal with
  | |- context [(RLP.index ?i ≫= _) ?r] =>
    let r' := fresh "r" in let E := fresh "E" in let Ho' := fresh "Ho" in
    destruct (read_at _ i _ r Hl Ho ltac:(unfold in_range; lia) eq_refl) as (r' & E & Ho');
    rewrite (SE_bind_ok _ _ _ _ _ E); clear E Ho; rename Ho' into Ho; cbn [RLP.m_data RLP.of_data]
  end.
