(* ===== verification/ScTransaction.v ===== *)
(** * Transactions

    Model of [src/src/sctransaction.h] and [src/src/sctransaction.cpp]: the
    transaction record, its constructors, its serialised form, the parser of
    that form, the basic gas cost and the result record of an execution. *)

From S2P Require Import Prelude ScFixedHash ScInstruction ScRlp ScRlpWrite ScRlpRead ScRlpFields.
From Stdlib Require Import ZifyBool.

(** [struct TransactionSkeleton] *)
Record TransactionSkeleton := mkSkeleton {
  ts_creation : bool;
  ts_from : bytes;
  ts_to : bytes;
  ts_value : Z;
  ts_data : bytes;
  ts_nonce : Z;
  ts_gas : Z;
  ts_gasPrice : Z }.
Definition default_skeleton : TransactionSkeleton :=
  mkSkeleton false (FixedHash.zero 20) (FixedHash.zero 20) 0 [] Invalid256 Invalid256 Invalid256.

(** [enum class TransactionException], [enum class CodeDeposit] *)
Inductive TransactionException :=
| NoException | Unknown | BadRLP | InvalidFormat | OutOfGasIntrinsic | InvalidSignature
| InvalidNonce | NotEnoughCash | OutOfGasBase | BlockGasLimitReached | BadInstruction
| BadJumpDestination | OutOfGas | OutOfStack | StackUnderflow | CreateWithValue | NoInformation.
Inductive CodeDeposit := NoDeposit | DepositFailed | DepositSuccess.
#[global] Instance TransactionException_eq_dec : EqDecision TransactionException.
Proof. solve_decision. Defined.

(** [toTransactionException(_e)] *)
Definition toTransactionException (_e : string) : TransactionException := Unknown.

(** [struct ExecutionResult] *)
Record ExecutionResult := mkResult {
  gasUsed : Z;
  excepted : TransactionException;
  newAddress : bytes;
  output : bytes;
  codeDeposit : CodeDeposit;
  gasRefunded : Z;
  depositSize : Z;
  gasForDeposit : Z }.
Definition default_result : ExecutionResult :=
  mkResult 0 Unknown (FixedHash.zero 20) [] NoDeposit 0 0 0.

Module Transaction.

Inductive Type_ := NullTransaction | ContractCreation | MessageCall.
#[global] Instance Type_eq_dec : EqDecision Type_.
Proof. solve_decision. Defined.

(** The cached hash [m_hashWith], which nothing reads, is left out. *)
Record t := mk {
  m_type : Type_;
  m_nonce : Z;
  m_value : Z;
  m_receiveAddress : bytes;
  m_gasPrice : Z;
  m_gas : Z;
  m_data : bytes;
  m_chainId : Z;
  m_sender : bytes }.

(** [Transaction()] *)
Definition null : t :=
  mk NullTransaction 0 0 (FixedHash.zero 20) 0 0 [] (-4) (FixedHash.zero 20).

(** [TransactionBase(TransactionSkeleton const&)] *)
Definition of_skeleton (_ts : TransactionSkeleton) : t :=
  mk (if ts_creation _ts then ContractCreation else MessageCall) (ts_nonce _ts) (ts_value _ts)
     (ts_to _ts) (ts_gasPrice _ts) (ts_gas _ts) (ts_data _ts) (-4) (ts_from _ts).

(** [Transaction(_isCreation, _value, _gasPrice, _gas, _dest, _data, _nonce)];
    the nonce defaults to [Invalid256]. *)
Definition make (_isCreation : bool) (_value _gasPrice _gas : Z) (_dest _data : bytes) (_nonce : Z) : t :=
  mk (if _isCreation then ContractCreation else MessageCall) _nonce _value _dest _gasPrice _gas
     _data (-4) (FixedHash.zero 20).

(** [forceSender(_a)], [setNonce(_n)] *)
Definition forceSender (_a : bytes) (x : t) : t :=
  mk (m_type x) (m_nonce x) (m_value x) (m_receiveAddress x) (m_gasPrice x) (m_gas x) (m_data x)
     (m_chainId x) _a.
Definition setNonce (_n : Z) (x : t) : t :=
  mk (m_type x) _n (m_value x) (m_receiveAddress x) (m_gasPrice x) (m_gas x) (m_data x)
     (m_chainId x) (m_sender x).

(** [operator==], [operator bool()], [isCreation()] *)
Definition eqb (x _c : t) : bool :=
  bool_decide (m_type x = m_type _c) &&
  (bool_decide (m_type x = ContractCreation) || bool_decide (m_receiveAddress x = m_receiveAddress _c)) &&
  (m_value x =? m_value _c) && bool_decide (m_data x = m_data _c).
Definition to_bool (x : t) : bool := negb (bool_decide (m_type x = NullTransaction)).
Definition isCreation (x : t) : bool := bool_decide (m_type x = ContractCreation).

(** [sender()] and [safeSender()]: the former does not throw. *)
Definition sender (x : t) : bytes := m_sender x.
Definition safeSender (x : t) : bytes := sender x.

(** The [try] block of [TransactionBase(bytesConstRef)], on [rlp]. *)
Definition parse : SE RLP.t t :=
  d ← gets RLP.m_data;
  if negb (RLP.isList d) then throw "transaction RLP must be a list" else
  i ← RLP.index 0;
  nonce ← lift_outcome (RLP.toInt int_u256 RLP.Strict (RLP.m_data i));
  i ← RLP.index 1;
  gasPrice ← lift_outcome (RLP.toInt int_u256 RLP.Strict (RLP.m_data i));
  i ← RLP.index 2;
  gas ← lift_outcome (RLP.toInt int_u256 RLP.Strict (RLP.m_data i));
  i ← RLP.index 3;
  let type := if RLP.isEmpty (RLP.m_data i) then ContractCreation else MessageCall in
  i ← RLP.index 3;
  receiveAddress ← (if RLP.isEmpty (RLP.m_data i) then mret (FixedHash.zero 20)
                    else i ← RLP.index 3;
                         lift_outcome (RLP.toHash 20 RLP.VeryStrict (RLP.m_data i)));
  i ← RLP.index 4;
  value ← lift_outcome (RLP.toInt int_u256 RLP.Strict (RLP.m_data i));
  i ← RLP.index 5;
  if negb (RLP.isData (RLP.m_data i)) then throw "transaction data RLP must be an array" else
  i ← RLP.index 5;
  data ← lift_outcome (RLP.toBytes RLP.LaissezFaire (RLP.m_data i));
  i ← RLP.index 6;
  v ← lift_outcome (RLP.toInt int_uint8 RLP.Strict (RLP.m_data i));
  (* [m_chainId] starts as -4 *)
  let chainId := if 36 <? v then (v - 35) ÷ 2 else if (v =? 27) || (v =? 28) then -4 else -4 in
  n ← lift_outcome (RLP.itemCount d);
  if 9 <? n then throw "to many fields in the transaction RLP" else
  mret (mk type nonce value receiveAddress gasPrice gas data chainId (FixedHash.zero 20)).

(** [TransactionBase(bytesConstRef _rlpData)] *)
Definition of_rlp (_rlpData : bytes) : outcome t :=
  rlp ← RLP.new _rlpData RLP.VeryStrict;
  match fst (parse rlp) with
  | Throw _ => Throw "invalid transaction format"
  | r => r
  end.

(** [streamRLP(_s, _forEip155hash)] *)
Definition streamRLP (x : t) (_forEip155hash : bool) : SE RLPStream.t unit :=
  if bool_decide (m_type x = NullTransaction) then mret tt else
  _ ← RLPStream.appendList ((if _forEip155hash then 3 else 0) + 6);
  _ ← RLPStream.append_int (m_nonce x);
  _ ← RLPStream.append_int (m_gasPrice x);
  _ ← RLPStream.append_int (m_gas x);
  _ ← (if bool_decide (m_type x = MessageCall)
       then RLPStream.append_hash (m_receiveAddress x) false false
       else RLPStream.append [] false);
  _ ← RLPStream.append_int (m_value x);
  _ ← RLPStream.append (m_data x) false;
  if _forEip155hash then
    _ ← RLPStream.append_int (u32 (m_chainId x));
    _ ← RLPStream.append_int (u32 0);
    RLPStream.append_int (u32 0)
  else mret tt.

(** [rlp()] *)
Definition rlp (x : t) : outcome bytes := RLPStream.rlp (fun x => streamRLP x false) x.

(** [sha3()]: calls itself; [fuel] bounds the calls. *)
Fixpoint sha3 (fuel : nat) (x : t) : outcome bytes :=
  match fuel with
  | O => Diverge
  | S f => ret ← sha3 f x; Ok ret
  end.

(** [baseGasRequired(_contractCreation, _data, _es)], at the width of
    [int64_t]: an overflow is undefined. *)
Definition i64 (g : Z) : outcome Z :=
  if (- 2 ^ 63 <=? g) && (g <? 2 ^ 63) then Ok g else Undef "signed overflow".
Fixpoint baseGas_loop (_es : EVMSchedule) (g : Z) (_data : bytes) : outcome Z :=
  match _data with
  | [] => Ok g
  | i :: l =>
    g ← i64 (g + (if negb (i =? 0) then txDataNonZeroGas _es else txDataZeroGas _es));
    baseGas_loop _es g l
  end.
Definition baseGasRequired (_contractCreation : bool) (_data : bytes) (_es : EVMSchedule) : outcome Z :=
  baseGas_loop _es (if _contractCreation then txCreateGas _es else txGas _es) _data.

End Transaction.

Section Proofs.
Import Transaction.

(** ** The serialised form *)

(** A transaction whose numbers fit their types. *)
Record tx_ok (x : t) : Prop := {
  tk_type : m_type x <> NullTransaction;
  tk_nonce : in_range 256 (m_nonce x);
  tk_value : in_range 256 (m_value x);
  tk_gasPrice : in_range 256 (m_gasPrice x);
  tk_gas : in_range 256 (m_gas x);
  tk_to : bytes_ok (m_receiveAddress x) /\ length (m_receiveAddress x) = 20%nat;
  tk_data : bytes_ok (m_data x) /\ size (m_data x) < 2 ^ 62 }.

Definition to_bytes (x : t) : bytes :=
  if bool_decide (m_type x = MessageCall) then m_receiveAddress x else [].

(** The six fields every form of a transaction has. *)
Definition int_item (v : Z) : item := IData (StreamProof.int_bytes v).
Definition core (x : t) : list item :=
  [int_item (m_nonce x); int_item (m_gasPrice x); int_item (m_gas x); IData (to_bytes x);
   int_item (m_value x); IData (m_data x)].
(** The fields the replay-protected form adds. *)
Definition eip155 (x : t) : list item := [int_item (u32 (m_chainId x)); int_item 0; int_item 0].

Lemma int_item_ok v : data_ok (int_item v).
Proof. apply int_bytes_ok. Qed.
Lemma int_item_size v : in_range 256 v -> size (encode (int_item v)) <= 41.
Proof.
  intros H. pose proof (int_bytes_short v H).
  pose proof (size_data (StreamProof.int_bytes v) ltac:(unfold rlp_limit; lia)). unfold int_item. lia.
Qed.

Lemma to_bytes_ok x : tx_ok x -> bytes_ok (to_bytes x) /\ size (to_bytes x) <= 20.
Proof.
  intros [_ _ _ _ _ [? ?] _]. unfold to_bytes. case_match; [by split; [|lia]|split; [constructor|simpl; lia]].
Qed.

Lemma core_ok x : tx_ok x -> Forall data_ok (core x).
Proof.
  intros H. repeat constructor; try apply int_bytes_ok; [by apply to_bytes_ok|apply H].
Qed.
Lemma core_size x : tx_ok x -> size (concat (map encode (core x))) <= size (m_data x) + 300.
Proof.
  intros H. destruct (to_bytes_ok x H) as [_ Ht]. destruct H as [_ Hn Hv Hp Hg _ [_ Hd]].
  unfold core. cbn [map concat]. rewrite !length_app. cbn [length].
  pose proof (int_item_size _ Hn). pose proof (int_item_size _ Hv). pose proof (int_item_size _ Hp).
  pose proof (int_item_size _ Hg). pose proof (size_data (to_bytes x) ltac:(unfold rlp_limit; lia)).
  pose proof (size_data (m_data x) ltac:(unfold rlp_limit; lia)). lia.
Qed.

Lemma with_core_ok x ext : tx_ok x -> Forall data_ok ext -> size (concat (map encode ext)) < 2 ^ 62 ->
  list_ok (core x ++ ext).
Proof.
  intros H Hx Hs. pose proof (core_size x H). destruct H.(tk_data _) as [_ Hd].
  assert (size (concat (map encode (core x ++ ext))) < 2 ^ 63 + 300) as Hc.
  { rewrite map_app, concat_app, length_app. lia. }
  split; [apply Forall_app; split; [by apply core_ok|done]|].
  pose proof (size_list (core x ++ ext) ltac:(unfold rlp_limit; lia)). unfold rlp_limit. lia.
Qed.

(** ** Writing *)
Import StreamProof.

Definition core_writes (x : t) : list (SE RLPStream.t unit * item) :=
  zip [RLPStream.append_int (m_nonce x); RLPStream.append_int (m_gasPrice x); RLPStream.append_int (m_gas x);
       (if bool_decide (m_type x = MessageCall) then RLPStream.append_hash (m_receiveAddress x) false false
        else RLPStream.append [] false);
       RLPStream.append_int (m_value x); RLPStream.append (m_data x) false] (core x).
Definition eip155_writes (x : t) : list (SE RLPStream.t unit * item) :=
  zip [RLPStream.append_int (u32 (m_chainId x)); RLPStream.append_int (u32 0); RLPStream.append_int (u32 0)]
      (eip155 x).

Lemma core_written x : tx_ok x -> Forall (fun y => writes (fst y) (snd y)) (core_writes x).
Proof.
  intros H. pose proof (to_bytes_ok x H) as [Tb Tl]. destruct H as [_ Hn Hv Hp Hg _ [Hd Hl]].
  repeat constructor; simpl; try (by apply writes_int).
  - revert Tb Tl. unfold to_bytes. case_bool_decide; intros; apply writes_bytes; done || lia.
  - apply writes_bytes; [done|lia].
Qed.
Lemma eip155_written x : Forall (fun y => writes (fst y) (snd y)) (eip155_writes x).
Proof.
  repeat constructor; simpl; apply writes_int; try (unfold in_range; lia).
  apply (in_range_mono 32); [lia|]. apply wrap_range. lia.
Qed.

Lemma SE_bind_ext {S A B} (m : SE S A) (k k' : A -> SE S B) s :
  (forall a s', k a s' = k' a s') -> (m ≫= k) s = (m ≫= k') s.
Proof. intros H. unfold mbind, SE_bind. destruct (m s) as [[] ?]; try done. Qed.

(** The two forms of a transaction, as written. *)
Lemma streamRLP_eq x b : m_type x <> NullTransaction -> forall s,
  streamRLP x b s =
  (RLPStream.appendList (size (core_writes x ++ if b then eip155_writes x else []));;
   RLPStream.append_each fst (core_writes x ++ if b then eip155_writes x else [])) s.
Proof.
  intros Ht s. unfold streamRLP. rewrite bool_decide_false by done.
  destruct b; cbn [length size core_writes eip155_writes core eip155 zip zip_with Datatypes.app RLPStream.append_each fst Z.add].
  - do 9 (apply SE_bind_ext; intros [] ?). unfold mbind, SE_bind.
    by destruct (RLPStream.append_int (u32 0) _) as [[[]| | | | |] ?].
  - done.
Qed.

Lemma stream_tx x b : tx_ok x ->
  RLPStream.rlp (fun x => streamRLP x b) x = Ok (encode (IList (core x ++ if b then eip155 x else []))).
Proof.
  intros H. set (l := core_writes x ++ if b then eip155_writes x else []).
  assert (map snd l = core x ++ if b then eip155 x else []) as El by (by destruct b).
  assert (list_ok (map snd l)) as Hl.
  { rewrite El. apply with_core_ok; [done| |].
    - destruct b; repeat constructor; apply int_bytes_ok.
    - destruct b; [|simpl; lia]. cbn [eip155 map concat]. rewrite !length_app.
      pose proof (int_item_size (u32 (m_chainId x)) (in_range_mono 32 256 _ ltac:(lia) (wrap_range 32 _ ltac:(lia)))).
      pose proof (int_item_size 0 ltac:(unfold in_range; lia)). cbn [length]. lia. }
  unfold RLPStream.rlp. rewrite (SE_bind_ok _ _ _ tt (RLPStream.mk (encode (fields l)) [])).
  - unfold fields. by rewrite El.
  - rewrite streamRLP_eq by apply H. apply fields_written; [done| |].
    + apply Forall_app. split; [by apply core_written|]. destruct b; [apply eip155_written|constructor].
    + destruct Hl as [_ Hl]. unfold rlp_limit in Hl. unfold fields. lia.
Qed.

(** ** Parsing *)
Lemma to_empty x : tx_ok x ->
  RLP.isEmpty (encode (IData (to_bytes x))) = negb (bool_decide (m_type x = MessageCall)).
Proof.
  intros [_ _ _ _ _ [_ Hl] _]. unfold to_bytes. case_bool_decide; [|done].
  destruct (m_receiveAddress x) as [|a [|b l]]; try done. cbn [encode]. unfold data_header, header.
  rewrite Hl. done.
Qed.

(** What the parser makes of a transaction with the [v] byte appended. *)
Definition received (x : t) (v : Z) : t :=
  mk (m_type x) (m_nonce x) (m_value x)
     (if bool_decide (m_type x = MessageCall) then m_receiveAddress x else FixedHash.zero 20)
     (m_gasPrice x) (m_gas x) (m_data x) (if 36 <? v then (v - 35) / 2 else -4) (FixedHash.zero 20).

Section Parsing.
Context (x : t) (ext : list item) (Hx : tx_ok x) (Hl : list_ok (core x ++ ext)).

(** The fields up to the data are read; what follows is the [v] byte. *)
Lemma parse_core (r : RLP.t) : over (core x ++ ext) r ->
  exists r', over (core x ++ ext) r' /\
  parse r =
   (i ← RLP.index 6;
    v ← lift_outcome (RLP.toInt int_uint8 RLP.Strict (RLP.m_data i));
    n ← lift_outcome (RLP.itemCount (encode (IList (core x ++ ext))));
    if 9 <? n then throw "to many fields in the transaction RLP" else mret (received x v)) r'.
Proof.
  intros Ho. destruct (list_new _ Hl) as (_ & _ & L & _). destruct (to_bytes_ok x Hx) as [Tb Tl].
  unfold parse. rewrite (SE_bind_ok _ _ _ (RLP.m_data r) r) by done. rewrite (proj1 Ho), L. cbn [negb].
  read_next Hl Ho. rewrite (lift_bind_ok _ _ _ _ (read_u256 _ (tk_nonce x Hx))).
  read_next Hl Ho. rewrite (lift_bind_ok _ _ _ _ (read_u256 _ (tk_gasPrice x Hx))).
  read_next Hl Ho. rewrite (lift_bind_ok _ _ _ _ (read_u256 _ (tk_gas x Hx))).
  read_next Hl Ho. rewrite (to_empty x Hx). read_next Hl Ho. rewrite (to_empty x Hx).
  match goal with |- context [(?m ≫= ?k) ?r] =>
    assert (exists r', m r = (Ok (if bool_decide (m_type x = MessageCall) then m_receiveAddress x
                                  else FixedHash.zero 20), r') /\ over (core x ++ ext) r') as (r' & E & Ho') end.
  { case_bool_decide; cbn [negb]; [|by eexists]. read_next Hl Ho. eexists. split; [|done].
    unfold lift_outcome. f_equal. unfold to_bytes. rewrite bool_decide_true by done.
    destruct (tk_to x Hx). apply toHash_head; [|done]. apply head_item; [done|unfold rlp_limit; lia]. }
  rewrite (SE_bind_ok _ _ _ _ _ E). clear E Ho. rename Ho' into Ho.
  read_next Hl Ho. rewrite (lift_bind_ok _ _ _ _ (read_u256 _ (tk_value x Hx))).
  destruct (tk_data x Hx) as [Db Dl].
  assert (head false (data_header (m_data x)) (m_data x)) as Hd by (apply head_item; [done|unfold rlp_limit; lia]).
  read_next Hl Ho. rewrite (isData_head _ _ Hd : RLP.isData (encode (IData (m_data x))) = true). cbn [negb].
  read_next Hl Ho. rewrite (lift_bind_ok _ _ _ _ (toBytes_head _ _ _ Hd : _ = Ok (m_data x))).
  eexists. split; [exact Ho|]. apply SE_bind_ext. intros i s1. unfold lift_outcome, mbind, SE_bind.
  destruct (RLP.toInt int_uint8 RLP.Strict (RLP.m_data i)) as [v| | | | |]; try done.
  destruct (RLP.itemCount _) as [n| | | | |]; try done. destruct (9 <? n); [done|].
  unfold received, mret, SE_ret. f_equal. f_equal. f_equal.
  - destruct (m_type x) eqn:E; try done. by destruct (tk_type x Hx).
  - destruct (Z.ltb_spec 36 v); [rewrite Z.quot_div_nonneg by lia; done|by destruct (_ || _)].
Qed.

Lemma of_rlp_core :
  of_rlp (encode (IList (core x ++ ext))) =
  match ext with
  | [] => Throw "invalid transaction format"
  | it :: _ =>
    match RLP.toInt int_uint8 RLP.Strict (encode it) with
    | Ok v => if size ext <=? 3 then Ok (received x v) else Throw "invalid transaction format"
    | Throw _ => Throw "invalid transaction format"
    | r => recast r
    end
  end.
Proof.
  destruct (list_new _ Hl) as (Hn & Ho & L & _ & Hi). unfold of_rlp. rewrite Hn. cbn [mbind outcome_bind].
  destruct (parse_core _ Ho) as (r & Ho' & ->).
  destruct ext as [|it ext'].
  - destruct (read_field _ 6 r Hl Ho' ltac:(unfold in_range; lia)) as (r' & E & _).
    by rewrite (SE_bind_ok _ _ _ _ _ E).
  - read_next Hl Ho'. unfold lift_outcome, mbind, SE_bind.
    destruct (RLP.toInt int_uint8 RLP.Strict (encode it)) as [v| | | | |] eqn:Ev; try done.
    unfold RLP.itemCount. rewrite L, Hi, length_app. cbn [core length].
    destruct (Z.leb_spec (Z.of_nat (S (length ext'))) 3).
    + by replace (9 <? _) with false by lia.
    + by replace (9 <? _) with true by lia.
Qed.
End Parsing.

(** ** The basic gas *)
Definition nonzeros (d : bytes) : Z := size (filter (fun i => i <> 0) d).

Lemma baseGas_loop_spec es g d :
  in_range 32 (txDataNonZeroGas es) -> in_range 32 (txDataZeroGas es) -> 0 <= g ->
  g + 2 ^ 32 * size d < 2 ^ 63 ->
  baseGas_loop es g d =
  Ok (g + txDataNonZeroGas es * nonzeros d + txDataZeroGas es * (size d - nonzeros d)).
Proof.
  unfold in_range. intros Hn Hz. revert g. induction d as [|i d IH]; intros g Hg Hs.
  - unfold nonzeros. simpl. f_equal. lia.
  - cbn [baseGas_loop]. simpl length in Hs. unfold nonzeros. rewrite filter_cons.
    unfold mbind, outcome_bind, i64. destruct (Z.eqb_spec i 0); cbn [negb].
    + rewrite decide_False by tauto. replace (_ && _) with true by lia.
      rewrite IH by lia. unfold nonzeros. simpl length. f_equal. lia.
    + rewrite decide_True by done. replace (_ && _) with true by lia.
      rewrite IH by lia. unfold nonzeros. simpl length. f_equal. lia.
Qed.
End Proofs.

(** ** Theorems *)

Definition sample_tx : Transaction.t :=
  Transaction.mk Transaction.MessageCall 7 1000 (replicate 20 0xab) 3 90000 [1; 0; 2] 37 (replicate 20 1).
Lemma sample_tx_ok : tx_ok sample_tx.
Proof. split; try (split; [by apply bytes_ok_check|done]); done. Qed.

(** The parser accepts the six fields of a transaction followed by a byte
    for [v] and at most two more items, and returns those fields; the receiver
    is dropped for a contract creation, and the chain id is decoded from [v].
    With more items it reports an invalid format. *)
Theorem transaction_parses (x : Transaction.t) (v : Z) (rest : list item) :
  tx_ok x -> in_range 8 v -> Forall data_ok rest -> size (concat (map encode rest)) < 2 ^ 61 ->
  Transaction.of_rlp (encode (IList (core x ++ int_item v :: rest))) =
  if size rest <=? 2 then Ok (received x v) else Throw "invalid transaction format".
Proof.
  intros Hx Hv Hr Hs. pose proof (in_range_mono 8 256 v ltac:(lia) Hv) as Hv'.
  pose proof (int_item_size v Hv'). rewrite of_rlp_core; [|done|].
  - unfold int_item. rewrite (read_int 1 v Hv' : RLP.toInt int_uint8 _ _ = _).
    unfold in_range in Hv. replace (v <? _) with true by lia. simpl length.
    destruct (Z.leb_spec (size rest) 2).
    + by replace (_ <=? 3) with true by lia.
    + by replace (_ <=? 3) with false by lia.
  - apply with_core_ok; [done| |].
    + constructor; [apply int_item_ok|done].
    + cbn [map concat]. rewrite length_app. lia.
Qed.
Lemma transaction_parses_witness :
  Transaction.of_rlp (encode (IList (core sample_tx ++ [int_item 37; IData [9]]))) =
  Ok (received sample_tx 37).
Proof.
  apply (transaction_parses sample_tx 37 [IData [9]] sample_tx_ok); [done| |reflexivity].
  repeat constructor; lia.
Defined.

(** The serialised form [rlp()] of a transaction has six fields, but the
    constructor from bytes insists on a seventh: no transaction the engine
    serialises can be read back. *)
Theorem transaction_rlp_unreadable (x : Transaction.t) :
  tx_ok x ->
  exists bs, Transaction.rlp x = Ok bs /\ Transaction.of_rlp bs = Throw "invalid transaction format".
Proof.
  intros Hx. exists (encode (IList (core x ++ []))). split; [by apply (stream_tx x false)|].
  rewrite of_rlp_core; [done|done|]. apply with_core_ok; [done|constructor|simpl; lia].
Qed.
Lemma transaction_rlp_unreadable_witness :
  exists bs, Transaction.rlp sample_tx = Ok bs /\
    Transaction.of_rlp bs = Throw "invalid transaction format".
Proof. apply (transaction_rlp_unreadable sample_tx sample_tx_ok). Defined.

(** The form with the chain id reads back the transaction (its sender and
    the receiver of a creation apart) when the chain id fits a byte; the default
    chain id -4 is written as a 32-bit number and does not. *)
Theorem transaction_eip155_roundtrip (x : Transaction.t) :
  tx_ok x ->
  exists bs, RLPStream.rlp (fun x => Transaction.streamRLP x true) x = Ok bs /\
    Transaction.of_rlp bs =
      (if u32 (Transaction.m_chainId x) <? 256 then Ok (received x (u32 (Transaction.m_chainId x)))
       else Throw "invalid transaction format") /\
    forall v, Transaction.eqb (received x v) x = true.
Proof.
  intros Hx. set (c := u32 (Transaction.m_chainId x)).
  assert (in_range 256 c) as Hc by (apply (in_range_mono 32); [lia|by apply wrap_range]).
  pose proof (int_item_size c Hc). pose proof (int_item_size 0 ltac:(unfold in_range; lia)).
  exists (encode (IList (core x ++ eip155 x))). split; [by apply (stream_tx x true)|]. split.
  - rewrite of_rlp_core; [|done|].
    + unfold eip155, int_item. fold c. rewrite (read_int 1 c Hc : RLP.toInt int_uint8 _ _ = _).
      change (2 ^ (8 * Z.of_nat 1)) with 256. by destruct (c <? 256).
    + apply with_core_ok; [done|repeat constructor; apply int_item_ok|].
      unfold eip155. fold c. cbn [map concat]. rewrite !length_app. cbn [length]. lia.
  - intros v. unfold Transaction.eqb, received. cbn. rewrite Z.eqb_refl.
    rewrite (bool_decide_true (Transaction.m_data x = _)) by done. pose proof (tk_type x Hx).
    destruct (Transaction.m_type x); [done|done|].
    cbn. by rewrite (bool_decide_true (Transaction.m_receiveAddress x = _)).
Qed.
Lemma transaction_eip155_roundtrip_witness :
  exists bs, RLPStream.rlp (fun x => Transaction.streamRLP x true) sample_tx = Ok bs /\
    Transaction.of_rlp bs =
      (if u32 (Transaction.m_chainId sample_tx) <? 256
       then Ok (received sample_tx (u32 (Transaction.m_chainId sample_tx)))
       else Throw "invalid transaction format") /\
    forall v, Transaction.eqb (received sample_tx v) sample_tx = true.
Proof. apply (transaction_eip155_roundtrip sample_tx sample_tx_ok). Defined.

(** [baseGasRequired] charges the base price and a price per data byte that
    depends on whether the byte is zero, and does not overflow [int64_t]. *)
Theorem baseGasRequired_formula (creation : bool) (d : bytes) (es : EVMSchedule) :
  in_range 32 (txDataNonZeroGas es) -> in_range 32 (txDataZeroGas es) ->
  in_range 32 (txCreateGas es) -> in_range 32 (txGas es) -> size d < 2 ^ 30 ->
  Transaction.baseGasRequired creation d es =
  Ok ((if creation then txCreateGas es else txGas es) +
      txDataNonZeroGas es * nonzeros d + txDataZeroGas es * (size d - nonzeros d)).
Proof.
  intros Hn Hz Hc Hg Hs. apply baseGas_loop_spec; try done; unfold in_range in *; destruct creation; lia.
Qed.
Lemma baseGasRequired_formula_witness :
  Transaction.baseGasRequired false [1; 0; 2] DefaultSchedule = Ok (21000 + 68 * 2 + 4 * (3 - 2)).
Proof. apply (baseGasRequired_formula false [1; 0; 2] DefaultSchedule); done. Defined.

(** [sha3()] of a transaction does not return, however many calls are allowed. *)
Lemma transaction_sha3_diverges fuel x : Transaction.sha3 fuel x = Diverge.
Proof. induction fuel as [|f IH]; [done|]. cbn [Transaction.sha3]. by rewrite IH. Qed.
