(* ===== verification/ScDb.v ===== *)
(** * The node database

    Model of [class MemoryDB] and [class OverlayDB] ([src/src/scdb.h],
    [src/src/scdb.cpp]): nodes under their hashes with a reference count, an
    auxiliary table, and a LevelDB database under both.  LevelDB is a map from
    byte strings to byte strings; [Get] leaves the empty string for a key that is
    not there.  Logging is left out. *)

From S2P Require Import Prelude.

(** [m_main], [m_aux] and [m_enforceRefs] of [MemoryDB], and what [OverlayDB::m_db]
    points to. *)
Record OverlayDB := mkDB {
  m_main : gmap bytes (bytes * Z);
  m_aux : gmap bytes (bytes * bool);
  m_enforceRefs : bool;
  m_ldb : option (gmap bytes bytes);
}.
Definition set_m_main x d := mkDB x (m_aux d) (m_enforceRefs d) (m_ldb d).
Definition set_m_aux x d := mkDB (m_main d) x (m_enforceRefs d) (m_ldb d).
Definition set_m_ldb x d := mkDB (m_main d) (m_aux d) (m_enforceRefs d) x.

(** [OverlayDB(_db)] *)
Definition OverlayDB_new (_db : option (gmap bytes bytes)) : OverlayDB := mkDB ∅ ∅ false _db.

Module MemoryDB.
(** [operator=(_c)]: the flag is not copied. *)
Definition assign (_c d : OverlayDB) : OverlayDB := mkDB (m_main _c) (m_aux _c) (m_enforceRefs d) (m_ldb d).

Definition clear (d : OverlayDB) : OverlayDB := set_m_aux ∅ (set_m_main ∅ d).

(** Whether an entry counts, given its reference count. *)
Definition live (d : OverlayDB) (refs : Z) : bool := negb (m_enforceRefs d) || (0 <? refs).

Definition get (d : OverlayDB) : gmap bytes bytes :=
  omap (fun '(v, refs) => if live d refs then Some v else None) (m_main d).

Definition lookup (_h : bytes) (d : OverlayDB) : bytes :=
  match m_main d !! _h with
  | Some (v, refs) => if live d refs then v else []
  | None => []
  end.

Definition exists_ (_h : bytes) (d : OverlayDB) : bool :=
  match m_main d !! _h with
  | Some (v, refs) => live d refs
  | None => false
  end.

(** [insert(_h, _v)]; the count is an [unsigned]. *)
Definition insert (_h _v : bytes) (d : OverlayDB) : OverlayDB :=
  match m_main d !! _h with
  | Some (_, refs) => set_m_main (<[_h := (_v, u32 (refs + 1))]> (m_main d)) d
  | None => set_m_main (<[_h := (_v, 1)]> (m_main d)) d
  end.

Definition kill (_h : bytes) (d : OverlayDB) : bool * OverlayDB :=
  match m_main d !! _h with
  | Some (v, refs) =>
    if 0 <? refs then (true, set_m_main (<[_h := (v, refs - 1)]> (m_main d)) d) else (false, d)
  | None => (false, d)
  end.

Definition lookupAux (_h : bytes) (d : OverlayDB) : bytes :=
  match m_aux d !! _h with
  | Some (v, b) => if negb (m_enforceRefs d) || b then v else []
  | None => []
  end.

(** [m_aux[_h].second = false]: an entry is made when there is none. *)
Definition removeAux (_h : bytes) (d : OverlayDB) : OverlayDB :=
  set_m_aux (<[_h := (from_option fst [] (m_aux d !! _h), false)]> (m_aux d)) d.

Definition insertAux (_h _v : bytes) (d : OverlayDB) : OverlayDB :=
  set_m_aux (<[_h := (_v, true)]> (m_aux d)) d.

(** [purge()] *)
Definition purge (d : OverlayDB) : OverlayDB :=
  mkDB (filter (fun '(_, (_, refs)) => refs <> 0) (m_main d))
       (filter (fun '(_, (_, b)) => b = true) (m_aux d)) (m_enforceRefs d) (m_ldb d).

Definition keys (d : OverlayDB) : gset bytes := dom (filter (fun '(_, (_, refs)) => refs <> 0) (m_main d)).
End MemoryDB.

(** [class EnforceRefs]: the flag is set for the time the object lives. *)
Definition EnforceRefs {A} (_r : bool) (m : SE OverlayDB A) : SE OverlayDB A := fun d =>
  let '(r, d') := m (mkDB (m_main d) (m_aux d) _r (m_ldb d)) in
  (r, mkDB (m_main d') (m_aux d') (m_enforceRefs d) (m_ldb d')).

(** ** [class OverlayDB] *)
Module Overlay.

(** [m_db->Get(m_readOptions, key, &ret)] *)
Definition ldb_get (key : bytes) (d : OverlayDB) : bytes :=
  match m_ldb d with Some m => default [] (m !! key) | None => [] end.

(** [lookup(_h)] *)
Definition lookup (_h : bytes) (d : OverlayDB) : bytes :=
  let ret := MemoryDB.lookup _h d in
  if bool_decide (ret = []) then ldb_get _h d else ret.

Definition exists_ (_h : bytes) (d : OverlayDB) : bool :=
  if MemoryDB.exists_ _h d then true else negb (bool_decide (ldb_get _h d = [])).

(** [kill(_h)]: below the memory table nothing is done. *)
Definition kill (_h : bytes) (d : OverlayDB) : OverlayDB := snd (MemoryDB.kill _h d).

(** [lookupAux(_h)]: in LevelDB the key is followed by the byte 255. *)
Definition lookupAux (_h : bytes) (d : OverlayDB) : bytes :=
  let ret := MemoryDB.lookupAux _h d in
  if bool_decide (ret = []) then ldb_get (_h ++ [255]) d else ret.

(** [rollback()] *)
Definition rollback (d : OverlayDB) : OverlayDB := set_m_main ∅ d.

(** [commit()]: the batch has the entries with a reference and the auxiliary ones;
    [write_ok i] tells whether attempt [i] at writing it succeeds. *)
Definition batch (d : OverlayDB) (m : gmap bytes bytes) : gmap bytes bytes :=
  map_fold (fun h '(v, b) acc => if (b : bool) then <[h ++ [255] := v]> acc else acc)
    (map_fold (fun h '(v, refs) acc => if refs =? 0 then acc else <[h := v]> acc) m (m_main d)) (m_aux d).
Fixpoint commit_attempts (write_ok : nat -> bool) (n : nat) (i : nat) : bool :=
  match n with
  | O => false
  | S n => if write_ok i then true else commit_attempts write_ok n (S i)
  end.
Definition commit (write_ok : nat -> bool) : SE OverlayDB unit := fun d =>
  match m_ldb d with
  | None => (Ok tt, d)
  | Some m =>
    if commit_attempts write_ok 10 0
    then (Ok tt, MemoryDB.clear (set_m_ldb (Some (batch d m)) d))
    else (Exit (-1), d)
  end.

(** [deepkill(_h)]: also from LevelDB; [delete_ok] is the status of [Delete]. *)
Definition deepkill (delete_ok : bool) (_h : bytes) : SE OverlayDB bool := fun d =>
  let d := kill _h d in
  match m_ldb d with
  | None => (Undef "m_db->Delete of a null database", d)
  | Some m => (Ok delete_ok, if delete_ok then set_m_ldb (Some (delete _h m)) d else d)
  end.

End Overlay.

(** ** What the trie relies on *)
Import Overlay.

(** With the flag off an entry is found whatever its count. *)
Lemma find_insert h v d : m_enforceRefs d = false -> v <> [] ->
  lookup h (MemoryDB.insert h v d) = v.
Proof.
  intros Hf Hv. unfold lookup, MemoryDB.lookup, MemoryDB.insert.
  destruct (m_main d !! h) as [[? ?]|]; simpl; rewrite lookup_insert_eq;
    unfold MemoryDB.live; simpl; rewrite Hf; simpl; by rewrite bool_decide_false.
Qed.

Lemma find_insert_ne h h' v d : h <> h' -> lookup h' (MemoryDB.insert h v d) = lookup h' d.
Proof.
  intros Hh. unfold lookup, MemoryDB.lookup, MemoryDB.insert.
  destruct (m_main d !! h) as [[? ?]|]; simpl; by rewrite lookup_insert_ne.
Qed.

(** [kill] touches a count only. *)
Lemma kill_cases h d : kill h d = d \/
  exists v n, m_main d !! h = Some (v, n) /\ kill h d = set_m_main (<[h := (v, n - 1)]> (m_main d)) d.
Proof.
  unfold kill, MemoryDB.kill. destruct (m_main d !! h) as [[v n]|]; [|by left].
  destruct (0 <? n); [right; by exists v, n|by left].
Qed.

Lemma find_kill h h' d : m_enforceRefs d = false -> lookup h' (kill h d) = lookup h' d.
Proof.
  intros Hf. destruct (kill_cases h d) as [->|(v & n & E & ->)]; [done|].
  unfold lookup, MemoryDB.lookup, MemoryDB.live. simpl. rewrite Hf.
  destruct (decide (h = h')) as [<-|]; [|by rewrite lookup_insert_ne].
  by rewrite lookup_insert_eq, E.
Qed.

Lemma enforceRefs_insert h v d : m_enforceRefs (MemoryDB.insert h v d) = m_enforceRefs d.
Proof. unfold MemoryDB.insert. by destruct (m_main d !! h) as [[? ?]|]. Qed.
Lemma enforceRefs_kill h d : m_enforceRefs (kill h d) = m_enforceRefs d.
Proof. by destruct (kill_cases h d) as [->|(v & n & _ & ->)]. Qed.

(** A commit moves every entry that has a reference to disk, and loses the rest. *)
Lemma commit_attempts_spec w n i : commit_attempts w n i = true <-> exists j, (i <= j < i + n)%nat /\ w j = true.
Proof.
  revert i. induction n as [|n IH]; intros i; simpl; [split; [done|]; intros (j & ? & _); lia|].
  destruct (w i) eqn:E; [split; [|done]; intros _; exists i; split; [lia|done]|].
  rewrite IH. split; intros (j & Hj & Hw); exists j; (split; [|done]); [lia|].
  destruct (decide (j = i)) as [->|]; [congruence|lia].
Qed.

Lemma fold_main (x : gmap bytes (bytes * Z)) (m : gmap bytes bytes) h :
  map_fold (fun h '(v, refs) acc => if refs =? 0 then acc else <[h := v]> acc) m x !! h
  = match x !! h with Some (v, refs) => if refs =? 0 then m !! h else Some v | None => m !! h end.
Proof.
  revert h. apply (map_fold_weak_ind (fun (r : gmap bytes bytes) x => forall h, r !! h
    = match x !! h with Some (v, refs) => if refs =? 0 then m !! h else Some v | None => m !! h end)).
  - intros h. by rewrite lookup_empty.
  - intros h' [v refs] x' r Hn IH h. destruct (decide (h' = h)) as [->|Hne].
    + rewrite lookup_insert_eq. destruct (refs =? 0); [by rewrite IH, Hn|by rewrite lookup_insert_eq].
    + rewrite (lookup_insert_ne x') by done. destruct (refs =? 0); [|rewrite lookup_insert_ne by done]; apply IH.
Qed.
Abbreviation add_aux := (fun h '(v, b) (acc : gmap bytes bytes) => if (b : bool) then <[h ++ [255] := v]> acc else acc).
Lemma fold_aux (x : gmap bytes (bytes * bool)) (m : gmap bytes bytes) h :
  map_fold add_aux m x !! (h ++ [255]) = match x !! h with Some (v, true) => Some v | _ => m !! (h ++ [255]) end.
Proof.
  revert h. apply (map_fold_weak_ind (fun (r : gmap bytes bytes) x => forall h, r !! (h ++ [255])
    = match x !! h with Some (v, true) => Some v | _ => m !! (h ++ [255]) end)).
  - intros h. by rewrite lookup_empty.
  - intros h' [v b] x' r Hn IH h. destruct (decide (h' = h)) as [->|Hne].
    + rewrite lookup_insert_eq. specialize (IH h). rewrite Hn in IH. destruct b; [by rewrite lookup_insert_eq|done].
    + rewrite (lookup_insert_ne x') by done. destruct b; [rewrite lookup_insert_ne|]; try apply IH.
      intros E. apply Hne. by apply app_inj_tail in E as [? _].
Qed.
Lemma fold_aux_ne (x : gmap bytes (bytes * bool)) (m : gmap bytes bytes) k :
  (forall h, is_Some (x !! h) -> h ++ [255] <> k) -> map_fold add_aux m x !! k = m !! k.
Proof.
  apply (map_fold_weak_ind (fun (r : gmap bytes bytes) x => (forall h, is_Some (x !! h) -> h ++ [255] <> k) -> r !! k = m !! k)).
  - done.
  - intros h' [v b] x' r Hn IH Hk. rewrite <- IH.
    + destruct b; [|done]. apply lookup_insert_ne, Hk. rewrite lookup_insert_eq. eauto.
    + intros h [y Hy]. apply Hk. destruct (decide (h' = h)) as [->|]; [congruence|]. rewrite lookup_insert_ne by done. eauto.
Qed.

(** A write that fails ten times ends the process. *)
Lemma commit_fails w m d : m_ldb d = Some m -> (forall i, (i < 10)%nat -> w i = false) -> commit w d = (Exit (-1), d).
Proof.
  intros Hm Hw. unfold commit. rewrite Hm. destruct (commit_attempts w 10 0) eqn:E; [|done].
  apply commit_attempts_spec in E as (j & Hj & Ej). rewrite Hw in Ej by lia. done.
Qed.

Definition sized (d : OverlayDB) : Prop :=
  (forall h, is_Some (m_main d !! h) -> length h = 32%nat) /\ (forall h, is_Some (m_aux d !! h) -> length h = 32%nat).

(** [OverlayDB::commit] moves the overlay to the LevelDB database: when one of ten attempts
    at writing succeeds, a node that has a reference is then found on disk, one
    whose count is zero is gone and what was on disk under its hash is found, the
    auxiliary entries in use are found under theirs, and nothing is left in
    memory; when all ten fail, the process ends. *)
Theorem commit_writes_back (w : nat -> bool) (d : OverlayDB) (m : gmap bytes bytes) : m_ldb d = Some m -> sized d ->
  if existsb w (seq 0 10) then
    exists d', commit w d = (Ok tt, d') /\ m_main d' = ∅ /\ m_aux d' = ∅ /\ forall h, length h = 32%nat ->
      lookup h d' = match m_main d !! h with Some (v, refs) => if refs =? 0 then ldb_get h d else v | None => ldb_get h d end /\
      lookupAux h d' = match m_aux d !! h with Some (v, true) => v | _ => ldb_get (h ++ [255]) d end
  else commit w d = (Exit (-1), d).
Proof.
  intros Hm [H1 H2]. destruct (existsb w (seq 0 10)) eqn:Ew.
  - apply existsb_exists in Ew as (i & Hi & Ei). apply in_seq in Hi.
    assert (commit_attempts w 10 0 = true) as Ec by (apply commit_attempts_spec; exists i; split; [lia|done]).
    unfold commit. rewrite Hm, Ec. eexists. split; [done|]. split; [done|]. split; [done|]. intros h Hh.
    unfold lookup, MemoryDB.lookup, lookupAux, MemoryDB.lookupAux, ldb_get. simpl. rewrite !lookup_empty, !bool_decide_true, Hm by done.
    unfold batch. split.
    + rewrite fold_aux_ne, fold_main. { destruct (m_main d !! h) as [[v r]|]; [|done]. by destruct (r =? 0). }
      intros h' Hh' E. apply (f_equal length) in E. rewrite length_app, (H2 h' Hh') in E. simpl in E. lia.
    + rewrite fold_aux, fold_main. destruct (m_main d !! (h ++ [255])) as [x|] eqn:E.
      { pose proof (H1 (h ++ [255]) ltac:(eauto)) as L. rewrite length_app in L. simpl in L. lia. }
      by destruct (m_aux d !! h) as [[v []]|].
  - apply (commit_fails w m); [done|]. intros i Hi. destruct (w i) eqn:E; [|done].
    assert (existsb w (seq 0 10) = true) as H; [|congruence]. apply existsb_exists. exists i. split; [apply in_seq; lia|done].
Qed.
Definition small_db : OverlayDB := mkDB {[replicate 32 1 := ([5], 2)]} ∅ false (Some ∅).
Lemma commit_writes_back_witness : exists d', commit (fun i => (3 <? i)%nat) small_db = (Ok tt, d') /\ lookup (replicate 32 1) d' = [5].
Proof.
  destruct (commit_writes_back (fun i => (3 <? i)%nat) small_db ∅) as (d' & E & _ & _ & R).
  - reflexivity.
  - split; intros h [x Hx]; [|done]. cbn [small_db m_main] in Hx. apply lookup_singleton_Some in Hx as [<- _]. reflexivity.
  - exists d'. split; [exact E|]. apply (R (replicate 32 1)). reflexivity.
Defined.
