(* ===== verification/ScTrie.v ===== *)
(** * The Merkle Patricia trie

    Model of the section [TrieCommon] and of [class GenericTrieDB],
    [FatGenericTrieDB] and [SpecificTrieDB] of [src/src/scdb.h] and
    [src/src/scdb.cpp]: keys as sequences of nibbles with the hex-prefix
    encoding, nodes as RLP lists of two or seventeen items, a child of less than
    32 bytes within its parent and any other child under its hash in the
    database.

    A trie object is a root and the database, which the operations change; an
    operation that moves the root returns the new one.  An [RLP] object is the
    bytes it refers to, and [subscript d i] its subscript: the cache behind
    [operator[]] does not change what it answers ([ScRlpRead.rlp_walks_agree]).
    Recursion over the nodes is bounded by the nibbles of the key. *)

From S2P Require Import Prelude ScFixedHash ScSha3 ScRlp ScDb.

(** ** Nibbles *)

(** Nibble [_i] of [_data], zero past the end. *)
Definition nib (_data : bytes) (_i : Z) : Z :=
  if Z.odd _i then Z.land (nthz _data (_i / 2)) 15 else Z.shiftr (nthz _data (_i / 2)) 4.
(** [nibble(_data, _i)], with the assertion of [operator[]] on the reference. *)
Definition nibble (_data : bytes) (_i : Z) : outcome Z :=
  if _i / 2 <? size _data then Ok (nib _data _i) else Assertion "_i < m_count".

(** [sharedNibbles]; the ends are within the data, so no subscript fails. *)
Fixpoint sharedNibbles_loop (n : nat) (_first : bytes) (_beginFirst : Z) (_second : bytes) (_beginSecond _endSecond : Z) (ret : Z) : Z :=
  match n with
  | O => ret
  | S n =>
    if (_beginSecond <? _endSecond) && (nib _first _beginFirst =? nib _second _beginSecond)
    then sharedNibbles_loop n _first (_beginFirst + 1) _second (_beginSecond + 1) _endSecond (ret + 1)
    else ret
  end.
Definition sharedNibbles (_first : bytes) (_beginFirst _endFirst : Z) (_second : bytes) (_beginSecond _endSecond : Z) : Z :=
  sharedNibbles_loop (Z.to_nat (_endFirst - _beginFirst)) _first _beginFirst _second _beginSecond _endSecond 0.

(** [struct NibbleSlice] *)
Module NibbleSlice.
Record t := mk { data : bytes; offset : Z }.
Definition index (_index : Z) (s : t) : outcome Z := nibble (data s) (offset s + _index).
Definition size_ (s : t) : Z := u32 (size (data s) * 2 - offset s).
Definition empty (s : t) : bool := size_ s =? 0.
Definition mid (_index : Z) (s : t) : t := mk (data s) (offset s + _index).
Definition clear (s : t) : t := mk [] 0.
Definition shared (_k s : t) : Z :=
  sharedNibbles (data s) (offset s) (offset s + size_ s) (data _k) (offset _k) (offset _k + size_ _k).
(** [s.contains(_k)]: [_k] is a prefix of [s]. *)
Definition contains (_k s : t) : bool := shared _k s =? size_ _k.
Definition eqb (_k s : t) : bool := (size_ _k =? size_ s) && (shared _k s =? size_ _k).
(** [s.isEarlierThan(_k)] *)
Fixpoint earlier_loop (n : nat) (i : Z) (_k s : t) : bool :=
  match n with
  | O => i <? size_ _k
  | S n =>
    let a := nib (data s) (offset s + i) in
    let b := nib (data _k) (offset _k + i) in
    if a <? b then true else if b <? a then false else earlier_loop n (i + 1) _k s
  end.
Definition isEarlierThan (_k s : t) : bool := earlier_loop (Z.to_nat (Z.min (size_ _k) (size_ s))) 0 _k s.
End NibbleSlice.
Import NibbleSlice (size_, mid, shared, contains).

(** ** The hex-prefix encoding *)

(** [((_leaf ? 2 : 0) | (odd ? 1 : 0)) * 16] *)
Definition hp_flags (_leaf odd : bool) : Z := Z.lor (if _leaf then 2 else 0) (if odd then 1 else 0) * 16.

(** The loop that appends nibbles [i], [i + 1], ... of [_data]: [d] tells whether a
    nibble goes into the last byte.  [ret] is listed from its back. *)
Fixpoint hp_loop (n : nat) (_data : bytes) (i d : Z) (ret : bytes) : bytes * Z :=
  match n with
  | O => (ret, d)
  | S n =>
    let nb := nib _data i in
    hp_loop n _data (i + 1) (d + 1)
      (if Z.odd d then match ret with b :: l => Z.lor b nb :: l | [] => [nb] end
       else u8 (Z.shiftl nb 4) :: ret)
  end.

(** [hexPrefixEncode(bytesConstRef _data, _leaf, _beginNibble, _endNibble, _offset)] *)
Definition hexPrefixEncode_range (_data : bytes) (_leaf : bool) (_beginNibble _endNibble _offset : Z) : bytes :=
  let begin := _beginNibble + _offset in
  let end_ := (if _endNibble <? 0 then size _data * 2 - _offset + 1 + _endNibble else _endNibble) + _offset in
  let odd := Z.odd (end_ - begin) in
  rev (fst (hp_loop (Z.to_nat (end_ - begin)) _data begin (if odd then 1 else 2) [hp_flags _leaf odd])).

(** [hexPrefixEncode(NibbleSlice _s, _leaf, _begin, _end)] *)
Definition hexPrefixEncode (_s : NibbleSlice.t) (_leaf : bool) (_begin _end : Z) : bytes :=
  hexPrefixEncode_range (NibbleSlice.data _s) _leaf _begin _end (NibbleSlice.offset _s).

(** [hexPrefixEncode(_d1, _o1, _d2, _o2, _leaf)] *)
Definition hexPrefixEncode_two (_s1 _s2 : NibbleSlice.t) (_leaf : bool) : bytes :=
  let '(d1, o1) := (NibbleSlice.data _s1, NibbleSlice.offset _s1) in
  let '(d2, o2) := (NibbleSlice.data _s2, NibbleSlice.offset _s2) in
  let n1 := size d1 * 2 - o1 in
  let n2 := size d2 * 2 - o2 in
  let odd := Z.odd (n1 + n2) in
  let '(ret, d) := hp_loop (Z.to_nat n1) d1 o1 (if odd then 1 else 2) [hp_flags _leaf odd] in
  rev (fst (hp_loop (Z.to_nat n2) d2 o2 d ret)).

(** [hexPrefixEncode(bytes const& _hexVector, _leaf, _begin, _end)]: a nibble per byte. *)
Fixpoint hex_pairs (n : nat) (_hexVector : bytes) (i : Z) : bytes :=
  match n with
  | O => []
  | S n => u8 (nthz _hexVector i * 16 + nthz _hexVector (i + 1)) :: hex_pairs n _hexVector (i + 2)
  end.
Definition hexPrefixEncode_hex (_hexVector : bytes) (_leaf : bool) (_begin _end : Z) : bytes :=
  let end_ := if _end <? 0 then size _hexVector + 1 + _end else _end in
  let odd := negb ((end_ - _begin) mod 2 =? 0) in
  let begin := if odd then _begin + 1 else _begin in
  (if odd then Z.lor (hp_flags _leaf odd) (nthz _hexVector _begin) else hp_flags _leaf odd)
    :: hex_pairs (Z.to_nat ((end_ - begin) / 2)) _hexVector begin.

(** ** Nodes *)

(** [RLP(s)] and [_d[i]] *)
Definition rlp_of (s : bytes) : outcome bytes := r ← RLP.new s RLP.VeryStrict; Ok (RLP.m_data r).
Definition subscript (_d : bytes) (i : Z) : outcome bytes := r ← fst (RLP.index i (RLP.of_data _d)); Ok (RLP.m_data r).

(** [isLeaf(_twoItem)] *)
Definition isLeaf (_twoItem : bytes) : outcome bool :=
  n ← RLP.itemCount _twoItem;
  if negb (RLP.isList _twoItem && (n =? 2)) then Assertion "_twoItem.isList() && _twoItem.itemCount() == 2" else
  i0 ← subscript _twoItem 0;
  pl ← RLP.payload i0;
  match pl with [] => Assertion "_i < m_count" | b :: _ => Ok (negb (Z.land b 0x20 =? 0)) end.

(** [keyOf(bytesConstRef _hpe)] and [keyOf(RLP const& _twoItem)] *)
Definition keyOf_hpe (_hpe : bytes) : NibbleSlice.t :=
  match _hpe with
  | [] => NibbleSlice.mk _hpe 0
  | b :: _ => NibbleSlice.mk _hpe (if Z.land b 0x10 =? 0 then 2 else 1)
  end.
Definition keyOf (_twoItem : bytes) : outcome NibbleSlice.t :=
  i0 ← subscript _twoItem 0; p ← RLP.payload i0; Ok (keyOf_hpe p).

(** [uniqueInUse(_orig, except)] *)
Fixpoint uniqueInUse_loop (n : nat) (i : Z) (_orig : bytes) (except used : Z) : outcome Z :=
  match n with
  | O => Ok used
  | S n =>
    if negb (i =? except) then
      x ← subscript _orig i;
      if negb (RLP.isEmpty x) then
        if used =? 255 then uniqueInUse_loop n (i + 1) _orig except (u8 i) else Ok 255
      else uniqueInUse_loop n (i + 1) _orig except used
    else uniqueInUse_loop n (i + 1) _orig except used
  end.
Definition uniqueInUse (_orig : bytes) (except : Z) : outcome Z := uniqueInUse_loop 17 0 _orig except 255.

(** ** [class GenericTrieDB] *)
Abbreviation T := (SE OverlayDB).

Module GenericTrieDB.

Definition c_shaNull : bytes := sha3 [0x80].

Definition node (_h : bytes) : T bytes := gets (Overlay.lookup _h).
Definition forceInsertNode (_v : bytes) : T bytes := modify (MemoryDB.insert (sha3 _v) _v);; mret (sha3 _v).
Definition forceKillNode (_h : bytes) : T unit := modify (Overlay.kill _h).
(** [killNode(_d, _h)] and [killNode(_d)] *)
Definition killNode_at (_d _h : bytes) : T unit := when (32 <=? size _d) (forceKillNode _h).
Definition killNode (_d : bytes) : T unit := killNode_at _d (sha3 _d).

(** Appending to a stream; the operands of [<<]: strings, hashes and [RLP]s. *)
Definition emit (w : SE RLPStream.t unit) (s : RLPStream.t) : T RLPStream.t :=
  match w s with (Ok _, s') => mret s' | (r, _) => fail (recast r) end.
Definition put_bytes (b : bytes) : RLPStream.t -> T RLPStream.t := emit (RLPStream.append b false).
Definition put_rlp (d : bytes) : RLPStream.t -> T RLPStream.t := emit (RLPStream.appendRaw d 1).
(** [RLPStream s(n)] and [s.out()] *)
Definition stream (n : Z) : T RLPStream.t := emit (RLPStream.appendList n) RLPStream.new.
Definition out (s : RLPStream.t) : T bytes := lift_outcome (fst (RLPStream.out s)).
(** [rlpList(a, b)] *)
Definition rlpList (a b : RLPStream.t -> T RLPStream.t) : T bytes :=
  s ← stream 2; s ← a s; s ← b s; out s.

(** [streamNode(_s, _b)] *)
Definition streamNode (_b : bytes) (_s : RLPStream.t) : T RLPStream.t :=
  if size _b <? 32 then emit (RLPStream.appendRaw _b 1) _s
  else h ← forceInsertNode _b; emit (RLPStream.append_hash h false false) _s.

(** [for (i = 0; i < n; ++i) body] over a stream *)
Fixpoint for_stream (n : nat) (i : Z) (body : Z -> RLPStream.t -> T RLPStream.t) (s : RLPStream.t) : T RLPStream.t :=
  match n with
  | O => mret s
  | S n => s ← body i s; for_stream n (i + 1) body s
  end.
(** [r << _orig[i]] *)
Definition put_item (_orig : bytes) (i : Z) (s : RLPStream.t) : T RLPStream.t :=
  x ← lift_outcome (subscript _orig i); put_rlp x s.

(** [assert(_orig.isList() && (_orig.itemCount() == 2 || _orig.itemCount() == 17))]: the count. *)
Definition countNode (_orig : bytes) : T Z :=
  n ← lift_outcome (RLP.itemCount _orig);
  assertion (RLP.isList _orig && ((n =? 2) || (n =? 17))) "_orig.isList() && (_orig.itemCount() == 2 || _orig.itemCount() == 17)";;
  mret n.

(** [place(_orig, _k, _s)] *)
Definition place (_orig : bytes) (_k : NibbleSlice.t) (_s : bytes) : T bytes :=
  killNode _orig;;
  if RLP.isEmpty _orig then rlpList (put_bytes (hexPrefixEncode _k true 0 (-1))) (put_bytes _s)
  else
    n ← countNode _orig;
    if n =? 2 then rlpList (put_item _orig 0) (put_bytes _s)
    else
      s ← stream 17;
      s ← for_stream 16 0 (put_item _orig) s;
      s ← put_bytes _s s;
      out s.

(** [remove(RLP const& _orig)] *)
Definition removeNode (_orig : bytes) : T bytes :=
  killNode _orig;;
  n ← countNode _orig;
  if n =? 2 then lift_outcome RLPNull
  else
    r ← stream 17;
    r ← for_stream 16 0 (put_item _orig) r;
    r ← put_bytes [] r;
    out r.

(** [cleve(_orig, _s)] *)
Definition cleve (_orig : bytes) (_s : Z) : T bytes :=
  killNode _orig;;
  n ← lift_outcome (RLP.itemCount _orig);
  assertion (RLP.isList _orig && (n =? 2)) "_orig.isList() && _orig.itemCount() == 2";;
  k ← lift_outcome (keyOf _orig);
  assertion (negb (_s =? 0) && (_s <=? size_ k)) "_s && _s <= k.size()";;
  leaf ← lift_outcome (isLeaf _orig);
  bottom ← stream 2;
  bottom ← put_bytes (hexPrefixEncode k leaf _s (-1)) bottom;
  bottom ← put_item _orig 1 bottom;
  top ← stream 2;
  top ← put_bytes (hexPrefixEncode k false 0 _s) top;
  b ← out bottom;
  top ← streamNode b top;
  out top.

(** [deref(_n)] *)
Definition deref (_n : bytes) : T bytes :=
  if RLP.isList _n then mret _n else h ← lift_outcome (RLP.toHash 32 RLP.Strict _n); node h.

(** [graft(_orig)] *)
Definition graft (_orig : bytes) : T bytes :=
  n ← lift_outcome (RLP.itemCount _orig);
  assertion (RLP.isList _orig && (n =? 2)) "_orig.isList() && _orig.itemCount() == 2";;
  i1 ← lift_outcome (subscript _orig 1);
  n ← (if RLP.isList i1 then mret i1
       else lh ← lift_outcome (RLP.toHash 32 RLP.Strict i1);
            s ← node lh;
            forceKillNode lh;;
            lift_outcome (rlp_of s));
  c ← lift_outcome (RLP.itemCount n);
  assertion (c =? 2) "n.itemCount() == 2";;
  k ← lift_outcome (keyOf _orig);
  kn ← lift_outcome (keyOf n);
  leaf ← lift_outcome (isLeaf n);
  rlpList (put_bytes (hexPrefixEncode_two k kn leaf)) (put_item n 1).

(** [merge(_orig, _i)] *)
Definition merge (_orig : bytes) (_i : Z) : T bytes :=
  n ← lift_outcome (RLP.itemCount _orig);
  assertion (RLP.isList _orig && (n =? 17)) "_orig.isList() && _orig.itemCount() == 17";;
  s ← stream 2;
  s ← (if negb (_i =? 16) then
         x ← lift_outcome (subscript _orig _i);
         assertion (negb (RLP.isEmpty x)) "!_orig[_i].isEmpty()";;
         put_bytes (hexPrefixEncode_range [_i] false 1 2 0) s
       else put_bytes (hexPrefixEncode_hex [] true 0 (-1)) s);
  s ← put_item _orig _i s;
  out s.

(** [branch(_orig)] *)
Definition branch (_orig : bytes) : T bytes :=
  n ← lift_outcome (RLP.itemCount _orig);
  assertion (RLP.isList _orig && (n =? 2)) "_orig.isList() && _orig.itemCount() == 2";;
  killNode _orig;;
  k ← lift_outcome (keyOf _orig);
  r ← stream 17;
  leaf ← lift_outcome (isLeaf _orig);
  r ← (if size_ k =? 0 then
         assertion leaf "isLeaf(_orig)";;
         r ← for_stream 16 0 (fun _ => put_bytes []) r;
         put_item _orig 1 r
       else
         b ← lift_outcome (NibbleSlice.index 0 k);
         r ← for_stream 16 0 (fun i r =>
           if i =? b then
             if leaf || (1 <? size_ k) then
               n ← rlpList (put_bytes (hexPrefixEncode (mid 1 k) leaf 0 (-1))) (put_item _orig 1);
               streamNode n r
             else put_item _orig 1 r
           else put_bytes [] r) r;
         put_bytes [] r);
  out r.

(** [isTwoItemNode(_n)] *)
Definition isTwoItemNode (_n : bytes) : T bool :=
  a ← (if RLP.isData _n then
         h ← lift_outcome (RLP.toHash 32 RLP.Strict _n);
         s ← node h;
         d ← lift_outcome (rlp_of s);
         c ← lift_outcome (RLP.itemCount d);
         mret (c =? 2)
       else mret false);
  if (a : bool) then mret true
  else if RLP.isList _n then c ← lift_outcome (RLP.itemCount _n); mret (c =? 2) else mret false.

(** [atAux(_here, _key)] *)
Fixpoint atAux (fuel : nat) (_here : bytes) (_key : NibbleSlice.t) : T bytes :=
  match fuel with
  | O => fail Diverge
  | S f =>
    if RLP.isEmpty _here || RLP.isNull _here then mret []
    else
      itemCount ← countNode _here;
      if itemCount =? 2 then
        k ← lift_outcome (keyOf _here);
        leaf ← lift_outcome (isLeaf _here);
        if NibbleSlice.eqb k _key && leaf then
          i1 ← lift_outcome (subscript _here 1);
          lift_outcome (RLP.toBytesConstRef RLP.LaissezFaire i1)
        else if contains k _key && negb leaf then
          i1 ← lift_outcome (subscript _here 1);
          n ← (if RLP.isList i1 then mret i1 else s ← deref i1; lift_outcome (rlp_of s));
          atAux f n (mid (size_ k) _key)
        else mret []
      else if size_ _key =? 0 then
        i16 ← lift_outcome (subscript _here 16);
        lift_outcome (RLP.toBytesConstRef RLP.LaissezFaire i16)
      else
        b ← lift_outcome (NibbleSlice.index 0 _key);
        n ← lift_outcome (subscript _here b);
        if RLP.isEmpty n then mret []
        else
          n ← (if RLP.isList n then mret n else s ← deref n; lift_outcome (rlp_of s));
          atAux f n (mid 1 _key)
  end.

(** [mergeAtAux(_out, _orig, _k, _v)], with [mergeAt] of a node and its hash. *)
Definition mergeAtAux (mergeAt : bytes -> bytes -> NibbleSlice.t -> bytes -> bool -> T bytes)
    (_orig : bytes) (_k : NibbleSlice.t) (_v : bytes) (_out : RLPStream.t) : T RLPStream.t :=
  let isRemovable := negb (RLP.isList _orig) && negb (RLP.isEmpty _orig) in
  r ← (if isRemovable then
         h ← lift_outcome (RLP.toHash 32 RLP.Strict _orig);
         s ← node h;
         r ← lift_outcome (rlp_of s);
         assertion (negb (RLP.isNull r)) "!r.isNull()";;
         mret r
       else mret _orig);
  b ← mergeAt r (sha3 r) _k _v (negb isRemovable);
  streamNode b _out.

(** [mergeAt(_orig, _origHash, _k, _v, _inLine)] *)
Fixpoint mergeAt (fuel : nat) (_orig _origHash : bytes) (_k : NibbleSlice.t) (_v : bytes) (_inLine : bool) : T bytes :=
  match fuel with
  | O => fail Diverge
  | S f =>
    if RLP.isEmpty _orig then place _orig _k _v
    else
      itemCount ← countNode _orig;
      if itemCount =? 2 then
        k ← lift_outcome (keyOf _orig);
        leaf ← lift_outcome (isLeaf _orig);
        if NibbleSlice.eqb _k k && leaf then place _orig _k _v
        else if contains k _k && negb leaf then
          when (negb _inLine) (killNode_at _orig _origHash);;
          s ← stream 2;
          s ← put_item _orig 0 s;
          i1 ← lift_outcome (subscript _orig 1);
          s ← mergeAtAux (mergeAt f) i1 (mid (size_ k) _k) _v s;
          out s
        else
          let sh := shared k _k in
          if negb (sh =? 0) then
            cleved ← cleve _orig sh;
            r ← lift_outcome (rlp_of cleved);
            mergeAt f r (sha3 r) _k _v true
          else
            branched ← branch _orig;
            r ← lift_outcome (rlp_of branched);
            mergeAt f r (sha3 r) _k _v true
      else if size_ _k =? 0 then place _orig _k _v
      else
        when (negb _inLine) (killNode_at _orig _origHash);;
        n ← lift_outcome (NibbleSlice.index 0 _k);
        r ← stream 17;
        r ← for_stream 17 0 (fun i r =>
          if i =? n then x ← lift_outcome (subscript _orig i); mergeAtAux (mergeAt f) x (mid 1 _k) _v r
          else put_item _orig i r) r;
        out r
  end.

(** [deleteAtAux(_out, _orig, _k)]: nothing when the key was not found. *)
Definition deleteAtAux (deleteAt : bytes -> NibbleSlice.t -> T bytes)
    (_orig : bytes) (_k : NibbleSlice.t) (_out : RLPStream.t) : T (option RLPStream.t) :=
  b ← (if RLP.isEmpty _orig then mret []
       else
         n ← (if RLP.isList _orig then mret _orig
              else h ← lift_outcome (RLP.toHash 32 RLP.Strict _orig); s ← node h; lift_outcome (rlp_of s));
         deleteAt n _k);
  if size b =? 0 then mret None
  else s ← streamNode b _out; mret (Some s).

(** The end of [deleteAt] on a branch: [used] is the only item in use. *)
Definition collapse (_orig : bytes) (used : Z) : T bytes :=
  x ← lift_outcome (subscript _orig used);
  two ← isTwoItemNode x;
  if (two : bool) then
    merged ← merge _orig used;
    r ← lift_outcome (rlp_of merged);
    graft r
  else merge _orig used.

(** The loop over the items of a branch that deletes below item [n]. *)
Fixpoint delete_items (deleteAt : bytes -> NibbleSlice.t -> T bytes) (m : nat) (i : Z) (_orig : bytes) (n : Z)
    (_k : NibbleSlice.t) (r : RLPStream.t) : T (option RLPStream.t) :=
  match m with
  | O => mret (Some r)
  | S m =>
    if i =? n then
      x ← lift_outcome (subscript _orig i);
      r ← deleteAtAux deleteAt x (mid 1 _k) r;
      match r with
      | None => mret None
      | Some r => delete_items deleteAt m (i + 1) _orig n _k r
      end
    else r ← put_item _orig i r; delete_items deleteAt m (i + 1) _orig n _k r
  end.

(** [deleteAt(_orig, _k)] *)
Fixpoint deleteAt (fuel : nat) (_orig : bytes) (_k : NibbleSlice.t) : T bytes :=
  match fuel with
  | O => fail Diverge
  | S f =>
    if RLP.isEmpty _orig then mret []
    else
      itemCount ← countNode _orig;
      if itemCount =? 2 then
        k ← lift_outcome (keyOf _orig);
        leaf ← lift_outcome (isLeaf _orig);
        if NibbleSlice.eqb _k k && leaf then killNode _orig;; lift_outcome RLPNull
        else if contains k _k then
          s ← stream 2;
          s ← put_item _orig 0 s;
          i1 ← lift_outcome (subscript _orig 1);
          s ← deleteAtAux (deleteAt f) i1 (mid (size_ k) _k) s;
          match s with
          | None => mret []
          | Some s =>
            killNode _orig;;
            b ← out s;
            r ← lift_outcome (rlp_of b);
            r1 ← lift_outcome (subscript r 1);
            two ← isTwoItemNode r1;
            if (two : bool) then graft r else out s
          end
        else mret []
      else
        i16 ← lift_outcome (subscript _orig 16);
        if (size_ _k =? 0) && negb (RLP.isEmpty i16) then
          killNode _orig;;
          used ← lift_outcome (uniqueInUse _orig 16);
          if negb (used =? 255) then collapse _orig used
          else
            r ← stream 17;
            r ← for_stream 16 0 (put_item _orig) r;
            r ← put_bytes [] r;
            out r
        else
          r ← stream 17;
          n ← lift_outcome (NibbleSlice.index 0 _k);
          r ← delete_items (deleteAt f) 17 0 _orig n _k r;
          match r with
          | None => mret []
          | Some r =>
            killNode _orig;;
            b ← out r;
            rlp ← lift_outcome (rlp_of b);
            used ← lift_outcome (uniqueInUse rlp 255);
            if used =? 255 then out r else collapse rlp used
          end
  end.

(** Bounds for the recursions: a level of the trie takes a nibble; [mergeAt]
    makes five more calls where a node is split. *)
Definition depth (_key : bytes) : nat := S (2 * length _key).

(** [at(_key)], [insert(_key, _value)], [remove(_key)] *)
Definition at_ (m_root _key : bytes) : T bytes :=
  s ← node m_root; r ← lift_outcome (rlp_of s); atAux (depth _key) r (NibbleSlice.mk _key 0).

(** [contains(_key)] *)
Definition contains_ (m_root _key : bytes) : T bool := v ← at_ m_root _key; mret (negb (size v =? 0)).

Definition insert (m_root _key _value : bytes) : T bytes :=
  rootValue ← node m_root;
  assertion (negb (size rootValue =? 0)) "rootValue.size()";;
  r ← lift_outcome (rlp_of rootValue);
  b ← mergeAt (depth _key + 5) r m_root (NibbleSlice.mk _key 0) _value false;
  when (size rootValue <? 32) (forceKillNode m_root);;
  forceInsertNode b.

Definition remove (m_root _key : bytes) : T bytes :=
  rv ← node m_root;
  r ← lift_outcome (rlp_of rv);
  b ← deleteAt (depth _key) r (NibbleSlice.mk _key 0);
  if negb (size b =? 0) then
    when (size rv <? 32) (forceKillNode m_root);;
    forceInsertNode b
  else mret m_root.

(** [init()] and [setRoot(_root, Verification::Normal)] call each other, and
    [root()], [isNull()], [isEmpty()] *)
Definition init_with (setRoot : bytes -> T unit) : T bytes :=
  null ← lift_outcome RLPNull;
  h ← forceInsertNode null;
  setRoot h;;
  s ← node h;
  assertion (negb (size s =? 0)) "node(m_root).size()";;
  mret h.
Fixpoint setRoot_loop (fuel : nat) (_root : bytes) : T unit :=
  match fuel with
  | O => fail Diverge
  | S f =>
    e ← gets (Overlay.exists_ _root);
    (if bool_decide (_root = c_shaNull) && negb e then _ ← init_with (setRoot_loop f); mret tt else mret tt);;
    s ← node _root;
    if size s =? 0 then throw "Root Not Found" else mret tt
  end.
Definition setRoot : bytes -> T unit := setRoot_loop 2.
Definition init : T bytes := init_with setRoot.
Definition root (m_root : bytes) : T bytes :=
  s ← node m_root; if size s =? 0 then throw "Bad Root " else mret m_root.
Definition isNull (m_root : bytes) : T bool := s ← node m_root; mret (size s =? 0).
Definition isEmpty (m_root : bytes) : T bool :=
  s ← node m_root; mret (bool_decide (m_root = c_shaNull) && negb (size s =? 0)).

End GenericTrieDB.

(** ** [class FatGenericTrieDB]: the key of the trie is the hash of the key *)
Module FatGenericTrieDB.
Import GenericTrieDB.
Definition at_ (m_root _key : bytes) : T bytes := GenericTrieDB.at_ m_root (sha3 _key).
Definition contains (m_root _key : bytes) : T bool := contains_ m_root (sha3 _key).
Definition insert (m_root _key _value : bytes) : T bytes :=
  let hash := sha3 _key in
  r ← GenericTrieDB.insert m_root hash _value;
  modify (MemoryDB.insertAux hash _key);;
  mret r.
Definition remove (m_root _key : bytes) : T bytes := GenericTrieDB.remove m_root (sha3 _key).
End FatGenericTrieDB.
