(* ===== verification/ScTrieKeys.v ===== *)
(** * Keys of the trie

    A key is a sequence of nibbles.  [denotes s k] says which key a
    [NibbleSlice] stands for; the operations on slices compute prefixes and
    suffixes of keys, and the overloads of [hexPrefixEncode] all write the
    encoding [hp], which [keyOf] and [isLeaf] read back. *)

From S2P Require Import Prelude ScFixedHash ScSha3 ScRlp ScDb ScTrie.
From Stdlib Require Import ZifyBool.
Import NibbleSlice (size_, mid, shared, contains).

Definition is_nibble (n : Z) : Prop := 0 <= n < 16.
Definition key_ok (k : list Z) : Prop := Forall is_nibble k /\ size k < 2 ^ 30.

(** The nibbles of a byte string. *)
Fixpoint nibbles (d : bytes) : list Z :=
  match d with
  | [] => []
  | b :: d => b / 16 :: b mod 16 :: nibbles d
  end.

Lemma length_nibbles d : length (nibbles d) = (2 * length d)%nat.
Proof. induction d; simpl; lia. Qed.

Lemma nibbles_ok d : bytes_ok d -> Forall is_nibble (nibbles d).
Proof.
  induction d as [|b d IH]; intros Hd; [constructor|]. apply bytes_ok_cons in Hd as [Hb Hd].
  unfold is_byte in Hb. simpl.
  constructor; [|constructor; [|by apply IH]]; unfold is_nibble; [|apply Z.mod_pos_bound; lia].
  split; [apply Z.div_pos; lia|apply Z.div_lt_upper_bound; lia].
Qed.

Lemma land_15 x : Z.land x 15 = x mod 16.
Proof. change 15 with (Z.ones 4). by rewrite Z.land_ones. Qed.
Lemma shiftr_4 x : Z.shiftr x 4 = x / 16.
Proof. by rewrite Z.shiftr_div_pow2. Qed.

Lemma nth_nibbles d (i : nat) :
  nth (2 * i) (nibbles d) 0 = nth i d 0 / 16 /\ nth (2 * i + 1) (nibbles d) 0 = nth i d 0 mod 16.
Proof.
  revert i. induction d as [|b d IH]; intros i.
  - simpl nibbles. rewrite !nth_overflow by (simpl; lia). done.
  - destruct i as [|i]; [done|]. replace (2 * S i)%nat with (S (S (2 * i))) by lia. apply IH.
Qed.

Lemma nib_spec d i : 0 <= i -> nib d i = nth (Z.to_nat i) (nibbles d) 0.
Proof.
  intros Hi. unfold nib, nthz. destruct (nth_nibbles d (Z.to_nat (i / 2))) as [H0 H1].
  pose proof (Z.div_mod i 2 ltac:(lia)) as Hd. rewrite Zodd_mod. pose proof (Z.mod_pos_bound i 2 ltac:(lia)).
  destruct (Z.eqb_spec (i mod 2) 1) as [E|E]; simpl.
  - rewrite land_15, <- H1. f_equal. lia.
  - rewrite shiftr_4, <- H0. f_equal. lia.
Qed.

(** ** Slices *)
Record denotes (s : NibbleSlice.t) (k : list Z) : Prop := {
  dn_data : bytes_ok (NibbleSlice.data s);
  dn_size : size (NibbleSlice.data s) < 2 ^ 30;
  dn_offset : 0 <= NibbleSlice.offset s <= 2 * size (NibbleSlice.data s);
  dn_key : k = drop (Z.to_nat (NibbleSlice.offset s)) (nibbles (NibbleSlice.data s)) }.

Lemma denotes_key d : bytes_ok d -> size d < 2 ^ 30 -> denotes (NibbleSlice.mk d 0) (nibbles d).
Proof. intros Hd Hs. split; simpl; try done. lia. Qed.

Section Slice.
Context (s : NibbleSlice.t) (k : list Z) (Hs : denotes s k).

Lemma slice_length : size k = 2 * size (NibbleSlice.data s) - NibbleSlice.offset s.
Proof. destruct Hs as [_ _ Ho ->]. rewrite length_drop, length_nibbles. lia. Qed.

Lemma slice_size : size_ s = size k.
Proof.
  unfold size_. rewrite slice_length. destruct Hs as [_ Hd Ho _].
  rewrite (Z.mul_comm (size _) 2). apply wrap_small. unfold in_range. lia.
Qed.

Lemma slice_ok : Forall is_nibble k.
Proof. destruct Hs as [Hd _ _ ->]. by apply Forall_drop, nibbles_ok. Qed.

Lemma slice_nib i : 0 <= i -> nib (NibbleSlice.data s) (NibbleSlice.offset s + i) = nth (Z.to_nat i) k 0.
Proof.
  intros Hi. destruct Hs as [_ _ Ho ->]. rewrite nib_spec by lia. rewrite !nth_lookup, lookup_drop.
  do 2 f_equal. lia.
Qed.

Lemma slice_index i : 0 <= i < size k -> NibbleSlice.index i s = Ok (nth (Z.to_nat i) k 0).
Proof.
  intros Hi. unfold NibbleSlice.index, nibble. rewrite slice_nib by lia. rewrite slice_length in Hi.
  pose proof (Z.div_lt_upper_bound (NibbleSlice.offset s + i) 2 (size (NibbleSlice.data s)) ltac:(lia) ltac:(lia)).
  by replace (_ <? _) with true by lia.
Qed.

Lemma slice_mid i : 0 <= i <= size k -> denotes (mid i s) (drop (Z.to_nat i) k).
Proof.
  pose proof slice_length as Hl. intros Hi. destruct Hs as [Hd Hz Ho ->]. split; simpl; try done; [lia|].
  rewrite drop_drop. f_equal. lia.
Qed.
End Slice.

Lemma slice_head s n k : denotes s (n :: k) -> NibbleSlice.index 0 s = Ok n.
Proof. intros Hs. apply (slice_index s _ Hs 0). simpl length. lia. Qed.

(** The length of the longest common prefix. *)
Fixpoint common (a b : list Z) : nat :=
  match a, b with
  | x :: a, y :: b => if x =? y then S (common a b) else 0
  | _, _ => 0
  end.

Lemma common_take a b : take (common a b) a = take (common a b) b.
Proof.
  revert b. induction a as [|x a IH]; intros [|y b]; try done. simpl.
  destruct (Z.eqb_spec x y) as [->|]; [|done]. simpl. by rewrite IH.
Qed.
Lemma common_le a b : (common a b <= length a /\ common a b <= length b)%nat.
Proof.
  revert b. induction a as [|x a IH]; intros [|y b]; simpl; try lia.
  case_match; simpl; [|lia]. specialize (IH b). lia.
Qed.
Lemma common_sym a b : common a b = common b a.
Proof.
  revert b. induction a as [|x a IH]; intros [|y b]; try done. simpl. rewrite Z.eqb_sym.
  case_match; [|done]. by rewrite IH.
Qed.
(** After the common prefix the keys differ. *)
Lemma common_drop a b : common (drop (common a b) a) (drop (common a b) b) = 0%nat.
Proof.
  revert b. induction a as [|x a IH]; intros [|y b]; try done. simpl.
  destruct (x =? y) eqn:E; [apply IH|]. simpl. by rewrite E.
Qed.
Lemma common_full a b : common a b = length a <-> a `prefix_of` b.
Proof.
  split.
  - intros E. exists (drop (length a) b). pose proof (common_take a b) as H. rewrite E, firstn_all in H.
    rewrite H at 1. by rewrite take_drop.
  - intros [c ->]. induction a as [|x a IH]; [done|]. simpl. rewrite Z.eqb_refl. by f_equal.
Qed.
Lemma common_cons x a y b : common (x :: a) (y :: b) = 0%nat -> x <> y.
Proof. simpl. destruct (Z.eqb_spec x y); done. Qed.

Lemma shared_loop_spec n s s' k k' i ret : denotes s k -> denotes s' k' -> 0 <= i <= size k' ->
  n = (length k - Z.to_nat i)%nat ->
  sharedNibbles_loop n (NibbleSlice.data s) (NibbleSlice.offset s + i)
    (NibbleSlice.data s') (NibbleSlice.offset s' + i) (NibbleSlice.offset s' + size k') ret
  = ret + Z.of_nat (common (drop (Z.to_nat i) k) (drop (Z.to_nat i) k')).
Proof.
  intros Hs Hs'. revert i ret. induction n as [|n IH]; intros i ret Hi Hn.
  { simpl. rewrite (drop_ge k) by lia. simpl. lia. }
  destruct (lookup_lt_is_Some_2 k (Z.to_nat i)) as [x Hx]; [lia|].
  cbn [sharedNibbles_loop].
  rewrite (slice_nib s k Hs i), (slice_nib s' k' Hs' i), (nth_lookup_Some _ _ _ _ Hx) by lia.
  rewrite (drop_S _ _ _ Hx). destruct (decide (i = size k')) as [->|].
  { rewrite (drop_ge k') by lia. replace (_ <? _) with false by lia. simpl. lia. }
  destruct (lookup_lt_is_Some_2 k' (Z.to_nat i)) as [y Hy]; [lia|].
  rewrite (nth_lookup_Some _ _ _ _ Hy), (drop_S _ _ _ Hy). simpl common.
  replace (_ <? _) with true by lia. simpl. destruct (x =? y); [|lia].
  rewrite <- !Z.add_assoc. rewrite (IH (i + 1)) by lia.
  replace (Z.to_nat (i + 1)) with (S (Z.to_nat i)) by lia. lia.
Qed.

Lemma slice_shared s s' k k' : denotes s k -> denotes s' k' -> shared s' s = Z.of_nat (common k k').
Proof.
  intros Hs Hs'. unfold shared, sharedNibbles. rewrite (slice_size s k Hs), (slice_size s' k' Hs').
  replace (Z.to_nat _) with (length k - 0)%nat by lia.
  pose proof (shared_loop_spec _ s s' k k' 0 0 Hs Hs' ltac:(lia) eq_refl) as H.
  rewrite !Z.add_0_r in H. simpl in H. rewrite !drop_0 in H. exact H.
Qed.

Lemma slice_contains s s' k k' : denotes s k -> denotes s' k' ->
  contains s' s = bool_decide (k' `prefix_of` k).
Proof.
  intros Hs Hs'. unfold contains. rewrite (slice_shared s s' k k'), (slice_size s' k' Hs') by done.
  rewrite common_sym. apply eq_bool_prop_intro. rewrite bool_decide_spec, <- common_full.
  destruct (Z.eqb_spec (Z.of_nat (common k' k)) (size k')); simpl; intuition lia.
Qed.

Lemma slice_eqb s s' k k' : denotes s k -> denotes s' k' -> NibbleSlice.eqb s' s = bool_decide (k' = k).
Proof.
  intros Hs Hs'. unfold NibbleSlice.eqb. pose proof (slice_contains s s' k k' Hs Hs') as Hc.
  unfold contains in Hc. rewrite Hc, (slice_size s k Hs), (slice_size s' k' Hs').
  apply eq_bool_prop_intro. rewrite bool_decide_spec.
  destruct (Z.eqb_spec (size k') (size k)) as [E|E]; simpl.
  - rewrite bool_decide_spec. split; [|by intros ->]. intros [l ->]. rewrite length_app in E.
    destruct l; simpl in E; [by rewrite app_nil_r|lia].
  - split; [done|]. by intros ->.
Qed.

(** ** The hex-prefix encoding *)

Fixpoint pack (k : list Z) : bytes :=
  match k with
  | a :: b :: k => 16 * a + b :: pack k
  | _ => []
  end.
Definition hp (leaf : bool) (k : list Z) : bytes :=
  let f := if leaf then 32 else 0 in
  if Nat.odd (length k) then match k with a :: k => f + 16 + a :: pack k | [] => [] end
  else f :: pack k.

(** Induction by two. *)
Lemma pairs_ind (P : list Z -> Prop) :
  P [] -> (forall a, P [a]) -> (forall a b k, P k -> P (a :: b :: k)) -> forall k, P k.
Proof. intros H0 H1 H2. fix IH 1. intros [|a [|b k]]; [done|apply H1|apply H2, IH]. Qed.

Lemma nibbles_pack k : Forall is_nibble k -> Nat.odd (length k) = false -> nibbles (pack k) = k.
Proof.
  induction k as [|a|a b k IH] using pairs_ind; intros Hk Ho; try done.
  inversion Hk as [|? ? Ha Hk']; subst. inversion Hk' as [|? ? Hb Hk'']; subst.
  unfold is_nibble in *. simpl. rewrite IH by done.
  replace ((16 * a + b) / 16) with a by (rewrite Z.mul_comm, Z.div_add_l, Z.div_small by lia; lia).
  by rewrite Z.mul_comm, Z.add_comm, Z.mod_add, Z.mod_small by lia.
Qed.

Lemma pack_ok k : Forall is_nibble k -> bytes_ok (pack k) /\ (2 * length (pack k) <= length k)%nat.
Proof.
  induction k as [|a|a b k IH] using pairs_ind; intros Hk; [split; [constructor|done]|split; [constructor|simpl; lia]|].
  inversion Hk as [|? ? Ha Hk']; subst. inversion Hk' as [|? ? Hb Hk'']; subst.
  destruct (IH Hk'') as [Hok Hl]. unfold is_nibble in *. split; [|simpl; lia].
  constructor; [|done]. unfold is_byte. lia.
Qed.

Lemma hp_ok leaf k : Forall is_nibble k -> bytes_ok (hp leaf k) /\ hp leaf k <> [] /\ (2 * length (hp leaf k) <= length k + 2)%nat.
Proof.
  intros Hk. unfold hp. destruct (Nat.odd (length k)) eqn:Ho.
  - destruct k as [|a k]; [done|]. inversion Hk as [|? ? Ha Hk']; subst. destruct (pack_ok k Hk') as [Hok Hl].
    unfold is_nibble in Ha. split; [|split; [done|simpl; lia]]. constructor; [|done]. unfold is_byte. destruct leaf; lia.
  - destruct (pack_ok k Hk) as [Hok Hl]. split; [|split; [done|simpl; lia]].
    constructor; [|done]. unfold is_byte. destruct leaf; lia.
Qed.

(** [keyOf] and [isLeaf] on an encoded key. *)
Lemma land_flag m (x : Z) : (m = 16 \/ m = 32) -> Z.land x m = if Z.odd (x / m) then m else 0.
Proof.
  intros Hm. assert (exists n, 0 <= n /\ m = 2 ^ n) as (n & Hn & ->).
  { destruct Hm as [->| ->]; [by exists 4|by exists 5]. }
  rewrite <- Z.shiftr_div_pow2, <- Z.bit0_odd, Z.shiftr_spec, Z.add_0_l by lia.
  apply Z.bits_inj'. intros i Hi. rewrite Z.land_spec. destruct (decide (i = n)) as [->|].
  - rewrite Z.pow2_bits_true by lia. rewrite andb_true_r.
    destruct (Z.testbit x n); [by rewrite Z.pow2_bits_true by lia|by rewrite Z.bits_0].
  - rewrite Z.pow2_bits_false, andb_false_r by lia.
    destruct (Z.testbit x n); [by rewrite Z.pow2_bits_false by lia|by rewrite Z.bits_0].
Qed.

Lemma hp_leaf leaf k b l : Forall is_nibble k -> hp leaf k = b :: l -> negb (Z.land b 0x20 =? 0) = leaf.
Proof.
  intros Hk E. rewrite land_flag by auto. unfold hp in E.
  assert (b / 32 = if leaf then 1 else 0) as ->; [|by destruct leaf].
  destruct (Nat.odd (length k)).
  - destruct k as [|a k]; [done|]. injection E as <- _. inversion Hk as [|? ? Ha _]; subst. unfold is_nibble in Ha.
    destruct leaf; [symmetry; apply Z.div_unique with (r := 16 + a)|apply Z.div_small]; lia.
  - injection E as <- _. by destruct leaf.
Qed.

Lemma hp_key leaf k : Forall is_nibble k -> size k < 2 ^ 30 -> denotes (keyOf_hpe (hp leaf k)) k.
Proof.
  intros Hk Hs. destruct (hp_ok leaf k Hk) as (Hok & Hne & Hl). unfold keyOf_hpe.
  destruct (hp leaf k) as [|b l] eqn:E; [done|]. rewrite land_flag by auto.
  unfold hp in E. destruct (Nat.odd (length k)) eqn:Ho.
  - destruct k as [|a k]; [done|]. injection E as <- <-. inversion Hk as [|? ? Ha Hk']; subst.
    unfold is_nibble in Ha.
    assert (((if leaf then 32 else 0) + 16 + a) / 16 = (if leaf then 3 else 1)) as ->.
    { symmetry. apply Z.div_unique with (r := a); destruct leaf; lia. }
    assert (((if leaf then 32 else 0) + 16 + a) mod 16 = a) as Hm.
    { symmetry. apply Z.mod_unique with (q := if leaf then 3 else 1); destruct leaf; lia. }
    replace (Z.odd (if leaf then 3 else 1)) with true by (by destruct leaf). simpl.
    split; cbn [NibbleSlice.data NibbleSlice.offset]; [done|simpl in *; lia|simpl in *; lia|].
    cbn [nibbles]. rewrite Hm. simpl. f_equal. rewrite nibbles_pack; try done.
    change (length (a :: k)) with (S (length k)) in Ho. rewrite Nat.odd_succ in Ho.
    by rewrite <- Nat.negb_even, Ho.
  - injection E as <- <-. replace (Z.odd ((if leaf then 32 else 0) / 16)) with false by (by destruct leaf). simpl.
    split; cbn [NibbleSlice.data NibbleSlice.offset]; [done|simpl in *; lia|simpl in *; lia|].
    simpl. by rewrite nibbles_pack.
Qed.

(** The loop over a list of nibbles. *)
Fixpoint hp_list (l : list Z) (d : Z) (ret : bytes) : bytes * Z :=
  match l with
  | [] => (ret, d)
  | nb :: l =>
    hp_list l (d + 1)
      (if Z.odd d then match ret with b :: l => Z.lor b nb :: l | [] => [nb] end
       else u8 (Z.shiftl nb 4) :: ret)
  end.
Lemma hp_list_app l1 l2 d ret : hp_list (l1 ++ l2) d ret = let '(r, d) := hp_list l1 d ret in hp_list l2 d r.
Proof. revert d ret. induction l1 as [|a l1 IH]; intros; [done|]. simpl. apply IH. Qed.

Lemma hp_loop_list n data i d ret : 0 <= i -> i + Z.of_nat n <= 2 * size data ->
  hp_loop n data i d ret = hp_list (take n (drop (Z.to_nat i) (nibbles data))) d ret.
Proof.
  revert i d ret. induction n as [|n IH]; intros i d ret Hi Hn; [by rewrite take_0|].
  destruct (lookup_lt_is_Some_2 (nibbles data) (Z.to_nat i)) as [x Hx]; [rewrite length_nibbles; lia|].
  rewrite (drop_S _ _ _ Hx). simpl. rewrite nib_spec, (nth_lookup_Some _ _ _ _ Hx), IH by lia.
  by replace (Z.to_nat (i + 1)) with (S (Z.to_nat i)) by lia.
Qed.

(** Or-ing a nibble into four clear bits. *)
Lemma lor_nibble x n : is_nibble n -> Z.lor (16 * x) n = 16 * x + n.
Proof.
  intros Hn. unfold is_nibble in Hn. replace (16 * x) with (Z.shiftl x 4) by (rewrite Z.shiftl_mul_pow2; lia).
  symmetry. rewrite Z.add_nocarry_lxor, Z.lxor_lor; auto.
  all: apply Z.bits_inj'; intros i Hi; rewrite Z.land_spec, Z.bits_0.
  all: destruct (Z.lt_ge_cases i 4).
  all: try (rewrite Z.shiftl_spec_low by lia; done).
  all: rewrite (Z.bits_above_log2 n i), andb_false_r; try done; try lia.
  all: destruct (Z.eq_dec n 0) as [->|]; [simpl; lia|].
  all: assert (Z.log2 n < 4); [apply Z.log2_lt_pow2; lia|lia].
Qed.

Lemma hp_list_even l d ret : Forall is_nibble l -> Nat.odd (length l) = false -> Z.odd d = false ->
  fst (hp_list l d ret) = rev (pack l) ++ ret.
Proof.
  revert d ret. induction l as [|a|a b l IH] using pairs_ind; intros d ret Hl Ho Hd; try done.
  inversion Hl as [|? ? Ha Hl']; subst. inversion Hl' as [|? ? Hb Hl'']; subst.
  cbn [hp_list pack]. rewrite Hd. replace (Z.odd (d + 1)) with true by (by rewrite Z.odd_add, Hd).
  rewrite IH; [|done|done|by rewrite !Z.odd_add, Hd].
  replace (u8 (Z.shiftl a 4)) with (16 * a).
  - rewrite lor_nibble by done. simpl. by rewrite <- app_assoc.
  - rewrite Z.shiftl_mul_pow2, Z.mul_comm by lia. symmetry. apply wrap_small. unfold is_nibble, in_range in *. lia.
Qed.

(** What the loops write for a key, from the flags on. *)
Lemma hp_list_hp leaf k : Forall is_nibble k ->
  rev (fst (hp_list k (if Nat.odd (length k) then 1 else 2) [hp_flags leaf (Nat.odd (length k))])) = hp leaf k.
Proof.
  intros Hk. unfold hp. destruct (Nat.odd (length k)) eqn:Ho.
  - destruct k as [|a k]; [done|]. inversion Hk as [|? ? Ha Hk']; subst. cbn [hp_list Z.odd].
    rewrite hp_list_even; [|done| |done].
    + rewrite rev_app_distr, rev_involutive. simpl. f_equal.
      replace (hp_flags leaf true) with (16 * (if leaf then 3 else 1)) by (by destruct leaf).
      rewrite lor_nibble by done. destruct leaf; lia.
    + change (length (a :: k)) with (S (length k)) in Ho. rewrite Nat.odd_succ in Ho. by rewrite <- Nat.negb_even, Ho.
  - rewrite hp_list_even by done. rewrite rev_app_distr, rev_involutive. simpl. f_equal. by destruct leaf.
Qed.

Lemma odd_of_nat n : Z.odd (Z.of_nat n) = Nat.odd n.
Proof.
  induction n as [|n IH]; [done|]. rewrite Nat2Z.inj_succ, Z.odd_succ, Nat.odd_succ.
  by rewrite <- Z.negb_odd, IH, Nat.negb_odd.
Qed.

(** The overloads of [hexPrefixEncode]. *)
Lemma encode_slice s k leaf b e : denotes s k -> 0 <= b <= size k ->
  (e = -1 \/ b <= e <= size k) ->
  hexPrefixEncode s leaf b e = hp leaf (drop (Z.to_nat b) (if e <? 0 then k else take (Z.to_nat e) k)).
Proof.
  intros Hs Hb He. pose proof (slice_length s k Hs) as Hl. pose proof (slice_ok s k Hs) as Hk.
  set (k' := drop _ _).
  assert (size k' = (if e <? 0 then size k else e) - b) as Hk'.
  { subst k'. rewrite length_drop. destruct (Z.ltb_spec e 0); [lia|]. rewrite length_take. lia. }
  unfold hexPrefixEncode, hexPrefixEncode_range. destruct Hs as [_ _ Ho ->].
  set (end_ := (_ + _) : Z). assert (end_ = b + NibbleSlice.offset s + size k') as -> by (subst end_; destruct (Z.ltb_spec e 0); lia).
  replace (b + NibbleSlice.offset s + size k' - (b + NibbleSlice.offset s)) with (size k') by lia.
  rewrite odd_of_nat, Nat2Z.id, hp_loop_list by (destruct (Z.ltb_spec e 0); lia).
  replace (take _ _) with k'; [apply hp_list_hp|].
  - subst k'. apply Forall_drop. destruct (Z.ltb_spec e 0); [done|by apply Forall_take].
  - replace (Z.to_nat (b + NibbleSlice.offset s)) with (Z.to_nat (NibbleSlice.offset s) + Z.to_nat b)%nat by lia.
    rewrite <- drop_drop. subst k'. destruct (Z.ltb_spec e 0).
    + rewrite take_ge; [done|]. rewrite length_drop. lia.
    + rewrite (take_drop_commute (drop _ (nibbles _)) _ (Z.to_nat b)). do 2 f_equal.
      rewrite length_drop, length_take. lia.
Qed.

Lemma encode_two s1 s2 k1 k2 leaf : denotes s1 k1 -> denotes s2 k2 ->
  hexPrefixEncode_two s1 s2 leaf = hp leaf (k1 ++ k2).
Proof.
  intros H1 H2. pose proof (slice_length s1 k1 H1) as L1. pose proof (slice_length s2 k2 H2) as L2.
  pose proof (slice_ok s1 k1 H1) as K1. pose proof (slice_ok s2 k2 H2) as K2.
  unfold hexPrefixEncode_two. rewrite !(Z.mul_comm _ 2), <- L1, <- L2, <- Nat2Z.inj_add, odd_of_nat, !Nat2Z.id.
  destruct H1 as [_ _ O1 E1], H2 as [_ _ O2 E2].
  rewrite hp_loop_list, <- E1, firstn_all by lia.
  pose proof (hp_list_hp leaf (k1 ++ k2) ltac:(by apply Forall_app)) as H. rewrite hp_list_app, length_app in H.
  destruct (hp_list k1 _ _) as [r d]. rewrite <- H, hp_loop_list, <- E2, firstn_all by lia. done.
Qed.

Lemma encode_nibble i : is_nibble i -> hexPrefixEncode_range [i] false 1 2 0 = hp false [i].
Proof.
  intros Hi. unfold is_nibble in Hi. change (hexPrefixEncode_range [i] false 1 2 0) with [Z.lor 16 (nib [i] 1)].
  unfold nib. cbn [Z.odd]. rewrite land_15. change (nthz [i] (1 / 2)) with i. rewrite Z.mod_small by lia.
  change (hp false [i]) with [0 + 16 + i]. by rewrite (lor_nibble 1) by done.
Qed.
