(* ===== verification/ScTrieSpec.v ===== *)
(** * Tries as data, and as bytes

    [trie] is the tree the nodes of a [GenericTrieDB] form, [tget], [tinsert] and
    [tdelete] the operations of a map on it, and [enc] its encoding: the bytes of
    the root node, with every child of 32 bytes or more replaced by its hash.  The
    lemmas say what the primitives of [ScTrie] read from an encoded node and what
    they write. *)

From S2P Require Import Prelude ScFixedHash ScSha3 ScRlp ScRlpWrite ScRlpRead ScRlpFields ScDb ScTrie ScTrieKeys.
From Stdlib Require Import ZifyBool.
Local Opaque sha3.

(** ** Tries *)

(** [v] of a branch is empty when no key ends there. *)
#[warnings="-register-all"]
Inductive trie := Nil | Leaf (k : list Z) (v : bytes) | Ext (k : list Z) (c : trie) | Branch (cs : list trie) (v : bytes).

(** Induction through the children of a branch. *)
Lemma trie_ind' (P : trie -> Prop) :
  P Nil -> (forall k v, P (Leaf k v)) -> (forall k c, P c -> P (Ext k c)) ->
  (forall cs v, Forall P cs -> P (Branch cs v)) -> forall t, P t.
Proof.
  intros H0 H1 H2 H3. fix IH 1. intros [|k v|k c|cs v]; [done|apply H1|apply H2, IH|].
  apply H3. induction cs as [|c cs IHl]; constructor; [apply IH|apply IHl].
Qed.

Definition child (cs : list trie) (n : Z) : trie := nth (Z.to_nat n) cs Nil.
Definition set_child (cs : list trie) (n : Z) (c : trie) : list trie := <[Z.to_nat n := c]> cs.
Definition nils : list trie := replicate 16 Nil.

Fixpoint tget (t : trie) (key : list Z) : option bytes :=
  match t with
  | Nil => None
  | Leaf k v => if bool_decide (key = k) then Some v else None
  | Ext k c => if bool_decide (k `prefix_of` key) then tget c (drop (length k) key) else None
  | Branch cs v =>
    match key with
    | [] => if bool_decide (v = []) then None else Some v
    | n :: key => nth (Z.to_nat n) (map tget cs) (fun _ => None) key
    end
  end.

(** A node of two items split at its first nibble. *)
Definition ext (k : list Z) (c : trie) : trie := match k with [] => c | _ => Ext k c end.
Definition split_leaf (k : list Z) (v : bytes) : trie :=
  match k with [] => Branch nils v | b :: k => Branch (set_child nils b (Leaf k v)) [] end.
Definition split_ext (k : list Z) (c : trie) : trie :=
  match k with [] => Nil | b :: k => Branch (set_child nils b (ext k c)) [] end.
(** A value put below a branch where there is nothing. *)
Definition add_leaf (t : trie) (k : list Z) (v : bytes) : trie :=
  match t, k with
  | Branch cs w, [] => Branch cs v
  | Branch cs w, n :: k => Branch (set_child cs n (Leaf k v)) w
  | _, _ => Nil
  end.

Fixpoint tinsert (t : trie) (key : list Z) (v : bytes) : trie :=
  match t with
  | Nil => Leaf key v
  | Leaf k w =>
    if bool_decide (key = k) then Leaf k v
    else let p := common k key in ext (take p k) (add_leaf (split_leaf (drop p k) w) (drop p key) v)
  | Ext k c =>
    if bool_decide (k `prefix_of` key) then Ext k (tinsert c (drop (length k) key) v)
    else let p := common k key in ext (take p k) (add_leaf (split_ext (drop p k) c) (drop p key) v)
  | Branch cs w =>
    match key with
    | [] => Branch cs v
    | n :: key => Branch (set_child cs n (nth (Z.to_nat n) (map tinsert cs) (fun _ _ => Nil) key v)) w
    end
  end.

(** The node that is made and merged away again when a key is inserted. *)
Fixpoint tmp_insert (t : trie) (key : list Z) : list trie :=
  match t with
  | Nil => []
  | Leaf k w =>
    let p := common k key in
    if bool_decide (key = k) || (p =? 0)%nat then [] else [Leaf (drop p k) w]
  | Ext k c =>
    if bool_decide (k `prefix_of` key) then tmp_insert c (drop (length k) key)
    else let p := common k key in if (p =? 0)%nat then [] else [Ext (drop p k) c]
  | Branch cs w =>
    match key with
    | [] => []
    | n :: key => nth (Z.to_nat n) (map tmp_insert cs) (fun _ => []) key
    end
  end.

(** ** Encoding *)
Definition short (i : item) : item := if size (encode i) <? 32 then i else IData (sha3 (encode i)).
Fixpoint inode (t : trie) : item :=
  match t with
  | Nil => IData []
  | Leaf k v => IList [IData (hp true k); IData v]
  | Ext k c => IList [IData (hp false k); short (inode c)]
  | Branch cs v => IList (map (fun c => short (inode c)) cs ++ [IData v])
  end.
Definition iref (t : trie) : item := short (inode t).
Definition enc (t : trie) : bytes := encode (inode t).

(** ** Well-formed tries *)
Definition value_ok (v : bytes) : Prop := bytes_ok v /\ size v < 2 ^ 32.
Fixpoint wf (t : trie) : Prop :=
  match t with
  | Nil => True
  | Leaf k v => key_ok k /\ value_ok v /\ v <> []
  | Ext k c => key_ok k /\ k <> [] /\ wf c /\ c <> Nil
  | Branch cs v => length cs = 16%nat /\ value_ok v /\ fold_right (fun c => and (wf c)) True cs
  end.

Lemma wf_branch cs v : wf (Branch cs v) <-> length cs = 16%nat /\ value_ok v /\ Forall wf cs.
Proof.
  simpl. enough (fold_right (fun c => and (wf c)) True cs <-> Forall wf cs) as -> by done.
  induction cs as [|c cs IH]; simpl; [by split; constructor|]. by rewrite IH, Forall_cons_iff.
Qed.

(** A node keeps small what it holds of its children. *)
Lemma short_ok i : data_ok i -> size (encode i) < rlp_limit -> data_ok (short i) /\ size (encode (short i)) <= 33.
Proof.
  intros Hi Hs. unfold short. destruct (Z.ltb_spec (size (encode i)) 32); [split; [done|lia]|].
  split; [apply sha3_bytes_ok|].
  change (encode (IData ?x)) with (data_header x ++ x). rewrite length_app, length_sha3.
  destruct (sha3 (encode i)) as [|x [|y l]] eqn:E; pose proof (length_sha3 (encode i)) as L; rewrite E in L; [done|done|].
  change (data_header (x :: y :: l)) with (header 0x80 0xb7 (size (x :: y :: l))). rewrite L. vm_compute. done.
Qed.

Lemma sum_bound {A} (f : A -> bytes) l m : Forall (fun x => size (f x) <= m) l -> 0 <= m ->
  size (concat (map f l)) <= m * size l.
Proof. induction 1 as [|x l Hx _ IH]; intros Hm; simpl; [lia|]. rewrite length_app. specialize (IH Hm). lia. Qed.

Lemma inode_ok t : wf t -> data_ok (inode t) /\ size (enc t) < 2 ^ 34.
Proof.
  unfold enc. induction t as [|k v|k c IH|cs v IH] using trie_ind'; intros Ht.
  - split; [constructor|]. vm_compute. done.
  - destruct Ht as ([Hk Hn] & [Hv Hs] & _). destruct (hp_ok true k Hk) as (Hh & _ & Hl).
    split; [by repeat constructor|].
    pose proof (size_list [IData (hp true k); IData v]) as L. pose proof (size_data v) as L1.
    pose proof (size_data (hp true k)) as L2. unfold rlp_limit in *. cbn [map concat] in L.
    rewrite app_nil_r, length_app in L. cbn [inode]. lia.
  - destruct Ht as ([Hk Hn] & _ & Hc & _). destruct (IH Hc) as [Hd Hs]. destruct (hp_ok false k Hk) as (Hh & _ & Hl).
    destruct (short_ok (inode c)) as [Hd' Hs']; [done|unfold rlp_limit; lia|].
    split; [cbn [inode]; apply data_ok_list; by repeat constructor|].
    pose proof (size_list [IData (hp false k); short (inode c)]) as L. pose proof (size_data (hp false k)) as L2.
    unfold rlp_limit in *. cbn [map concat] in L. rewrite app_nil_r, length_app in L. cbn [inode]. lia.
  - apply wf_branch in Ht as (Hl & [Hv Hs] & Hcs).
    assert (Forall (fun c => data_ok (short (inode c)) /\ size (encode (short (inode c))) <= 33) cs) as Hall.
    { eapply Forall_impl; [|exact (List.Forall_and IH Hcs)]. intros c [Hc Hw]. destruct (Hc Hw) as [Hd Hz].
      apply short_ok; [done|unfold rlp_limit; lia]. }
    split.
    + cbn [inode]. apply data_ok_list, Forall_app. split; [|by repeat constructor].
      apply Forall_map. eapply Forall_impl; [|exact Hall]. by intros c [? _].
    + cbn [inode]. pose proof (size_list (map (fun c => short (inode c)) cs ++ [IData v])) as L.
      rewrite map_app, concat_app, map_map, length_app in L. cbn [map concat] in L. rewrite app_nil_r in L.
      pose proof (sum_bound (fun c => encode (short (inode c))) cs 33 ltac:(eapply Forall_impl; [|exact Hall]; by intros c [_ ?]) ltac:(lia)) as S.
      pose proof (size_data v) as L1. unfold rlp_limit in *. rewrite Hl in S. lia.
Qed.
