(* ===== verification/ScTrieNode.v ===== *)
(** * Reading and writing the nodes of a trie

    What the subscripts of an encoded node give, what a sequence of writes to a
    stream outputs, and how far an operation may change the database: it keeps
    every node of a set [U] on which the hash function has no collision. *)

From S2P Require Import Prelude ScFixedHash ScSha3 ScRlp ScRlpWrite ScRlpRead ScRlpFields ScDb ScTrie ScTrieKeys ScTrieSpec.
From Stdlib Require Import ZifyBool.
Import GenericTrieDB.
Import NibbleSlice (size_, mid, shared, contains).
Local Opaque sha3.

(** ** Reading a list *)
Section Read.
Context (its : list item) (Hl : list_ok its).

Lemma read_sub i it : 0 <= i < 2 ^ 64 -> its !! Z.to_nat i = Some it ->
  subscript (encode (IList its)) i = Ok (encode it).
Proof.
  intros Hi Hit. destruct (list_new its Hl) as (_ & Ho & _).
  destruct (read_at its i it _ Hl Ho ltac:(done) Hit) as (r' & E & _). unfold subscript. by rewrite E.
Qed.
Lemma read_rlp : rlp_of (encode (IList its)) = Ok (encode (IList its)).
Proof. destruct (list_new its Hl) as (E & _). unfold rlp_of. by rewrite E. Qed.
Lemma read_isList : RLP.isList (encode (IList its)) = true.
Proof. by destruct (list_new its Hl) as (_ & _ & ? & _). Qed.
Lemma read_isNull : RLP.isNull (encode (IList its)) = false.
Proof. by destruct (list_new its Hl) as (_ & _ & _ & ? & _). Qed.
Lemma read_count : RLP.itemCount (encode (IList its)) = Ok (size its).
Proof. unfold RLP.itemCount. rewrite read_isList. by destruct (list_new its Hl) as (_ & _ & _ & _ & ?). Qed.

Lemma read_isEmpty : its <> [] -> RLP.isEmpty (encode (IList its)) = false.
Proof.
  intros Hne. unfold RLP.isEmpty. rewrite read_isNull. simpl negb.
  destruct its as [|it l]; [done|]. set (p := concat (map encode (it :: l))).
  assert (0 < size p) as Hp.
  { destruct Hl as [Hok Hs]. inversion Hok as [|? ? Hit _]; subst.
    assert (size (encode it) < rlp_limit) as Hsz.
    { cbn [encode] in Hs. rewrite length_app in Hs. cbn [map concat] in Hs. rewrite length_app in Hs. lia. }
    destruct (encode_head it Hit Hsz) as [_ Hi]. pose proof (item_size _ Hi).
    subst p. cbn [map concat]. rewrite length_app. lia. }
  change (encode (IList (it :: l))) with (list_header p ++ p). unfold list_header, header.
  destruct (Z.ltb_spec (size p) 56) as [H|H].
  - change (nthz ([0xc0 + size p] ++ p) 0) with (0xc0 + size p). rlp_consts. lia.
  - destruct (bytesRequired_spec (size p)) as (n & E & _); [lia|].
    change (nthz (((0xf7 + bytesRequired (size p)) :: ?x) ++ p) 0) with (0xf7 + bytesRequired (size p)).
    rlp_consts. lia.
Qed.
End Read.

(** ** Nodes *)
Lemma list_ok_intro its : data_ok (IList its) -> size (encode (IList its)) < 2 ^ 34 -> list_ok its.
Proof. intros Hd Hs. split; [by apply data_ok_list|]. unfold rlp_limit. lia. Qed.

Lemma leaf_list k v : wf (Leaf k v) -> list_ok [IData (hp true k); IData v].
Proof. intros H. destruct (inode_ok _ H). by apply list_ok_intro. Qed.
Lemma ext_list k c : wf (Ext k c) -> list_ok [IData (hp false k); iref c].
Proof. intros H. destruct (inode_ok _ H). by apply list_ok_intro. Qed.
Lemma branch_list cs v : wf (Branch cs v) -> list_ok (map iref cs ++ [IData v]).
Proof. intros H. destruct (inode_ok _ H). by apply list_ok_intro. Qed.

Section TwoItems.
Context (leaf : bool) (k : list Z) (x : item).
Context (Hl : list_ok [IData (hp leaf k); x]) (Hk : key_ok k).
Let d := encode (IList [IData (hp leaf k); x]).

Lemma payload_data b : bytes_ok b -> size b < rlp_limit -> RLP.payload (encode (IData b)) = Ok b.
Proof. intros Hb Hs. pose proof (reads_payload _ _ _ [] (head_item b Hb Hs)) as P. by rewrite app_nil_r in P. Qed.

Lemma hp_payload : RLP.payload (encode (IData (hp leaf k))) = Ok (hp leaf k).
Proof.
  destruct Hk as [Hn Hs]. destruct (hp_ok leaf k Hn) as (Hok & _ & Hlen). apply payload_data; [done|].
  unfold rlp_limit. lia.
Qed.

Lemma two_keyOf : keyOf d = Ok (keyOf_hpe (hp leaf k)).
Proof. unfold keyOf, d. rewrite (read_sub _ Hl 0 _ ltac:(lia) eq_refl). unfold mbind, outcome_bind. by rewrite hp_payload. Qed.
Lemma two_denotes : denotes (keyOf_hpe (hp leaf k)) k.
Proof. destruct Hk. by apply hp_key. Qed.
Lemma two_isLeaf : isLeaf d = Ok leaf.
Proof.
  unfold isLeaf, d. rewrite (read_count _ Hl), (read_isList _ Hl). cbn -[encode]. rewrite (read_sub _ Hl 0 _ ltac:(lia) eq_refl).
  unfold mbind, outcome_bind. rewrite hp_payload. destruct Hk as [Hn _]. destruct (hp_ok leaf k Hn) as (_ & Hne & _).
  destruct (hp leaf k) as [|b l] eqn:E; [done|]. f_equal. by apply (hp_leaf leaf k b l).
Qed.
Lemma two_value : subscript d 1 = Ok (encode x).
Proof. by apply (read_sub _ Hl 1 x). Qed.
End TwoItems.

(** ** Streams *)
Section Streams.
Import RLPStream StreamProof.

(** A list of [n] items of which [done] have been written. *)
Definition partial (n : nat) (done : list ScRlpWrite.item) : t :=
  if (length done =? n)%nat then mk (encode (IList done)) []
  else mk (concat (map encode done)) [(Z.of_nat n - size done, 0)].

Lemma partial_start n d : (0 < n)%nat -> stream (Z.of_nat n) d = (Ok (partial n []), d).
Proof.
  intros Hn. unfold stream, emit, appendList, partial. destruct n; [lia|].
  replace (negb (Z.of_nat (S n) =? 0)) with true by lia. cbn -[Z.of_nat]. by rewrite Z.sub_0_r.
Qed.

Lemma partial_write n done it w d : writes w it -> (length done < n)%nat ->
  size (encode (IList (done ++ [it]))) < 2 ^ 64 ->
  emit w (partial n done) d = (Ok (partial n (done ++ [it])), d).
Proof.
  intros Hw Hn Hs. unfold emit. rewrite Hw. unfold partial.
  destruct (Nat.eqb_spec (length done) n) as [|_]; [lia|]. rewrite length_app. simpl length.
  assert (concat (map encode (done ++ [it])) = concat (map encode done) ++ encode it) as Hc.
  { rewrite map_app, concat_app. simpl. by rewrite app_nil_r. }
  unfold noteAppended, put. cbn [m_out m_listStack]. simpl (1 =? 0). cbn iota. cbn [note_loop].
  replace (Z.of_nat n - size done <? 1) with false by lia.
  destruct (Nat.eqb_spec (length done + 1) n) as [E|E].
  - replace (Z.of_nat n - size done - 1) with 0 by lia. cbn [negb Z.eqb].
    assert (size (concat (map encode (done ++ [it]))) < 2 ^ 64) as Hs'.
    { cbn [encode] in Hs. rewrite length_app in Hs. lia. }
    pose proof (close_list_spec [] (concat (map encode (done ++ [it])))) as C. cbn [app length] in C.
    rewrite <- Hc. change (Z.of_nat 0) with 0 in C. rewrite C by done. cbn [note_loop encode app]. done.
  - replace (negb (Z.of_nat n - size done - 1 =? 0)) with true by lia.
    rewrite Hc. by replace (Z.of_nat n - Z.of_nat (length done + 1)) with (Z.of_nat n - size done - 1) by lia.
Qed.

Lemma partial_out n its d : length its = n -> GenericTrieDB.out (partial n its) d = (Ok (encode (IList its)), d).
Proof. intros Hn. unfold GenericTrieDB.out, partial. rewrite Hn, Nat.eqb_refl. done. Qed.

Lemma writes_raw it : writes (appendRaw (encode it) 1) it.
Proof. by intros s. Qed.
Lemma writes_hash h : length h = 32%nat -> bytes_ok h -> writes (append_hash h false false) (IData h).
Proof. intros Hl Hb s. unfold append_hash. simpl. apply append_spec; [done|rewrite Hl; lia]. Qed.
End Streams.

(** ** The database under a trie *)

(** The children of a trie can be read from the database. *)
Definition known (d : OverlayDB) (b : bytes) : Prop := Overlay.lookup (sha3 b) d = b.
Fixpoint stored (d : OverlayDB) (t : trie) : Prop :=
  let held c := (32 <= size (enc c) -> known d (enc c)) /\ stored d c in
  match t with
  | Nil | Leaf _ _ => True
  | Ext _ c => held c
  | Branch cs _ => fold_right (fun c => and (held c)) True cs
  end.
Definition held (d : OverlayDB) (c : trie) : Prop := (32 <= size (enc c) -> known d (enc c)) /\ stored d c.

Lemma stored_branch d cs v : stored d (Branch cs v) <-> Forall (held d) cs.
Proof.
  unfold held. simpl. induction cs as [|c cs IH]; simpl; [by split; constructor|].
  by rewrite IH, Forall_cons_iff.
Qed.

(** The nodes of a trie are in [U]. *)
Section Nodes.
Context (U : bytes -> Prop).
Fixpoint within (t : trie) : Prop :=
  match t with
  | Nil => True
  | Leaf _ _ => U (enc t)
  | Ext _ c => U (enc t) /\ within c
  | Branch cs _ => U (enc t) /\ fold_right (fun c => and (within c)) True cs
  end.
Lemma within_branch cs v : within (Branch cs v) <-> U (enc (Branch cs v)) /\ Forall within cs.
Proof.
  cbn [within]. enough (fold_right (fun c => and (within c)) True cs <-> Forall within cs) as -> by done.
  induction cs as [|c cs IH]; simpl; [by split; constructor|]. by rewrite IH, Forall_cons_iff.
Qed.
Lemma within_self t : within t -> t <> Nil -> U (enc t).
Proof. destruct t; simpl; try done; by intros [? _]. Qed.
Lemma hashed_not_nil t : 32 <= size (enc t) -> t <> Nil.
Proof. intros H ->. by vm_compute in H. Qed.

(** Nothing in [U] is lost. *)
Record keeps (d d' : OverlayDB) : Prop := {
  kp_refs : m_enforceRefs d' = m_enforceRefs d;
  kp_nodes b : U b -> b <> [] -> known d b -> known d' b }.

#[global] Instance keeps_preorder : PreOrder keeps.
Proof.
  split; [by split|]. intros d1 d2 d3 [R1 K1] [R2 K2]. split; [congruence|eauto].
Qed.

Lemma encode_ne it : encode it <> [].
Proof.
  destruct it as [[|x [|y b]]|l]; simpl; try done.
  - by destruct (x <? 128).
  - unfold header. by case_match.
  - unfold list_header, header. by case_match.
Qed.

Lemma held_keeps d d' t : keeps d d' -> within t -> held d t -> held d' t.
Proof.
  intros K. induction t as [|k v|k c IH|cs v IH] using trie_ind'; intros Hw [Hk Hs]; split.
  all: try (intros Hz; apply (kp_nodes _ _ K); [by apply within_self, hashed_not_nil|apply encode_ne|by apply Hk]); try done.
  - destruct Hw as [_ Hw]. by apply IH.
  - apply within_branch in Hw as [_ Hw]. apply stored_branch in Hs. apply stored_branch.
    rewrite Forall_forall in *. intros c Hc. apply IH; auto.
Qed.
Lemma stored_keeps d d' t : keeps d d' -> within t -> stored d t -> stored d' t.
Proof.
  intros K Hw Hs. destruct t as [|k v|k c|cs v]; try done.
  - destruct Hw as [_ Hw]. by apply (held_keeps d d' c).
  - apply within_branch in Hw as [_ Hw]. apply stored_branch in Hs. apply stored_branch.
    rewrite Forall_forall in *. intros c Hc. apply (held_keeps d d' c); auto.
Qed.

(** ** Runs that return *)
Definition runs {A} (m : T A) (d : OverlayDB) (Q : A -> OverlayDB -> Prop) : Prop :=
  exists a d', m d = (Ok a, d') /\ keeps d d' /\ Q a d'.

Lemma runs_bind {A B} (m : T A) (k : A -> T B) d Q :
  runs m d (fun a d' => runs (k a) d' Q) -> runs (m ≫= k) d Q.
Proof.
  intros (a & d1 & E1 & K1 & b & d2 & E2 & K2 & HQ). exists b, d2.
  split; [by rewrite (SE_bind_ok m k d a d1 E1)|]. split; [by transitivity d1|done].
Qed.
Lemma runs_ret {A} (a : A) d (Q : A -> OverlayDB -> Prop) : Q a d -> runs (mret a) d Q.
Proof. intros. by exists a, d. Qed.
Lemma runs_eq {A} (m : T A) a d (Q : A -> OverlayDB -> Prop) : m d = (Ok a, d) -> Q a d -> runs m d Q.
Proof. intros. by exists a, d. Qed.
Lemma runs_lift {A} (r : outcome A) a d (Q : A -> OverlayDB -> Prop) : r = Ok a -> Q a d -> runs (lift_outcome r) d Q.
Proof. intros ->. by apply runs_ret. Qed.
Lemma runs_mono {A} (m : T A) d (Q Q' : A -> OverlayDB -> Prop) :
  runs m d Q -> (forall a d', keeps d d' -> Q a d' -> Q' a d') -> runs m d Q'.
Proof. intros (a & d' & E & K & H) HQ. exists a, d'. auto. Qed.
Lemma runs_assert b w d (Q : unit -> OverlayDB -> Prop) : b = true -> Q tt d -> runs (assertion b w) d Q.
Proof. intros ->. by apply runs_ret. Qed.

Lemma keeps_kill d h : m_enforceRefs d = false -> keeps d (Overlay.kill h d).
Proof.
  intros Hf. split; [apply enforceRefs_kill|]. intros b _ _ Hb. unfold known. by rewrite find_kill.
Qed.
Lemma runs_kill h d (Q : unit -> OverlayDB -> Prop) : m_enforceRefs d = false ->
  (forall d', keeps d d' -> Q tt d') -> runs (forceKillNode h) d Q.
Proof. intros Hf HQ. exists tt, (Overlay.kill h d). split; [done|]. pose proof (keeps_kill d h Hf). auto. Qed.
Lemma runs_killNode_at x h d (Q : unit -> OverlayDB -> Prop) : m_enforceRefs d = false ->
  (forall d', keeps d d' -> Q tt d') -> runs (killNode_at x h) d Q.
Proof.
  intros Hf HQ. unfold killNode_at, when. case_match; [by apply runs_kill|]. apply runs_ret, HQ. done.
Qed.

Context (U_inj : forall x y, U x -> U y -> sha3 x = sha3 y -> x = y).

Lemma runs_insert b d (Q : bytes -> OverlayDB -> Prop) : m_enforceRefs d = false -> U b -> b <> [] ->
  (forall d', keeps d d' -> known d' b -> Q (sha3 b) d') -> runs (forceInsertNode b) d Q.
Proof.
  intros Hf Hb Hne HQ. exists (sha3 b), (MemoryDB.insert (sha3 b) b d). split; [done|].
  assert (keeps d (MemoryDB.insert (sha3 b) b d)) as K.
  { split; [apply enforceRefs_insert|]. intros x Hx Hxne Hk. unfold known in *.
    destruct (decide (sha3 b = sha3 x)) as [E|E]; [|by rewrite find_insert_ne].
    rewrite <- E, find_insert by done. by apply U_inj. }
  split; [done|]. apply HQ; [done|]. unfold known. by apply find_insert.
Qed.
End Nodes.
