(* ===== verification/ScTrieInsert.v ===== *)
(** * [insert] of the trie refines insertion into the tree

    [mergeAt], applied to the encoding of a trie, returns the encoding of the trie
    with the key inserted, and leaves every node of it in the database. *)

From S2P Require Import Prelude ScFixedHash ScSha3 ScRlp ScRlpWrite ScRlpRead ScRlpFields ScDb ScTrie ScTrieKeys ScTrieSpec ScTrieNode.
From Stdlib Require Import ZifyBool.
Import GenericTrieDB.
Import NibbleSlice (size_, mid, shared, contains).
Local Opaque sha3 encode.

(** ** Small items *)
Definition small (it : item) : Prop := data_ok it /\ size (encode it) < 2 ^ 36.

Lemma small_list l : Forall small l -> (length l <= 17)%nat -> size (encode (IList l)) < 2 ^ 64.
Proof.
  intros Hl Hn. pose proof (sum_bound encode l (2 ^ 36)) as S.
  pose proof (size_list l) as L. unfold rlp_limit in L.
  assert (Forall (fun it => size (encode it) <= 2 ^ 36) l) as F.
  { eapply Forall_impl; [|exact Hl]. intros it [_ ?]. lia. }
  specialize (S F ltac:(lia)). lia.
Qed.
Lemma small_data b : bytes_ok b -> size b < 2 ^ 32 -> small (IData b).
Proof. intros Hb Hs. split; [done|]. pose proof (size_data b). unfold rlp_limit in *. lia. Qed.
Lemma small_hp leaf k : key_ok k -> small (IData (hp leaf k)).
Proof. intros [Hk Hs]. destruct (hp_ok leaf k Hk) as (Hb & _ & Hl). apply small_data; [done|lia]. Qed.
Lemma small_iref t : wf t -> small (iref t).
Proof.
  intros Ht. destruct (inode_ok t Ht) as [Hd Hs].
  destruct (short_ok (inode t) Hd ltac:(unfold rlp_limit, enc in *; lia)) as [Hd' Hs']. split; [done|]. unfold iref. lia.
Qed.
Lemma small_nil : small (IData []).
Proof. apply small_data; [constructor|done]. Qed.
Lemma iref_nil : iref Nil = IData [].
Proof. reflexivity. Qed.
#[local] Hint Resolve small_iref small_nil small_hp : core.

(** ** Items of nodes *)
#[global] Instance trie_nil_dec (c : trie) : Decision (c = Nil).
Proof. destruct c; [by left|by right..]. Defined.
Lemma node_list c : wf c -> c <> Nil -> exists its, inode c = IList its /\ list_ok its /\ its <> [].
Proof.
  destruct c as [|k v|k c|cs v]; intros Hc Hn; [done| | |].
  - eexists. split; [done|]. split; [by apply leaf_list|done].
  - eexists. split; [done|]. split; [by apply ext_list|done].
  - eexists. split; [done|]. split; [by apply branch_list|]. by destruct cs.
Qed.

Lemma enc_isEmpty c : wf c -> c <> Nil -> RLP.isEmpty (enc c) = false.
Proof. intros Hc Hn. destruct (node_list c Hc Hn) as (its & E & ? & ?). unfold enc. rewrite E. by apply read_isEmpty. Qed.
Lemma enc_rlp c : wf c -> c <> Nil -> rlp_of (enc c) = Ok (enc c).
Proof. intros Hc Hn. destruct (node_list c Hc Hn) as (its & E & ? & ?). unfold enc. rewrite E. by apply read_rlp. Qed.

Definition null_node : bytes := [0x80].
Lemma enc_nil : enc Nil = null_node.
Proof. reflexivity. Qed.

Inductive iref_view (c : trie) : Prop :=
| iref_is_nil : c = Nil -> encode (iref c) = null_node -> iref_view c
| iref_inline : c <> Nil -> size (enc c) < 32 -> encode (iref c) = enc c ->
    RLP.isList (enc c) = true -> RLP.isEmpty (enc c) = false -> iref_view c
| iref_hashed : c <> Nil -> 32 <= size (enc c) -> RLP.isList (encode (iref c)) = false ->
    RLP.isData (encode (iref c)) = true ->
    RLP.isEmpty (encode (iref c)) = false -> RLP.toHash 32 RLP.Strict (encode (iref c)) = Ok (sha3 (enc c)) -> iref_view c.

Lemma hash_item h : length h = 32%nat -> bytes_ok h ->
  RLP.isList (encode (IData h)) = false /\ RLP.isData (encode (IData h)) = true /\ RLP.isEmpty (encode (IData h)) = false /\
  RLP.toHash 32 RLP.Strict (encode (IData h)) = Ok h.
Proof.
  intros Hl Hb. assert (head false (data_header h) h) as Hh by (constructor; [done|rewrite Hl; done]).
  pose proof (reads_exact _ _ _ Hh) as [Hn Hli Hda _ _]. change (encode (IData h)) with (data_header h ++ h).
  split; [done|]. split; [done|]. split; [|by apply toHash_head].
  unfold RLP.isEmpty. rewrite Hn. destruct h as [|x [|y h]]; [done|done|].
  change (data_header (x :: y :: h)) with (header 0x80 0xb7 (size (x :: y :: h))). rewrite Hl. reflexivity.
Qed.

Lemma iref_cases c : wf c -> iref_view c.
Proof.
  intros Hc. destruct (decide (c = Nil)) as [->|Hn]; [by apply iref_is_nil|].
  assert (c <> Nil) as Hn' by done.
  destruct (node_list c Hc Hn) as (its & Ei & Hl & Hne). unfold iref, short.
  destruct (Z.ltb_spec (size (encode (inode c))) 32) as [Hs|Hs].
  - apply iref_inline; unfold iref, short, enc; try done.
    + by replace (size (encode (inode c)) <? 32) with true by lia.
    + rewrite Ei. by apply read_isList.
    + rewrite Ei. by apply read_isEmpty.
  - destruct (hash_item (sha3 (enc c)) (length_sha3 _) (sha3_bytes_ok _)) as (? & ? & ? & ?).
    apply iref_hashed; unfold iref, short, enc in *; try done.
    all: by replace (size (encode (inode c)) <? 32) with false by lia.
Qed.

(** The nodes of two items: a leaf or an extension, its key and its second item. *)
Inductive two : trie -> bool -> list Z -> item -> Prop :=
| two_leaf k v : two (Leaf k v) true k (IData v)
| two_ext k c : two (Ext k c) false k (iref c).

Lemma two_spec t leaf k x : two t leaf k x -> wf t ->
  enc t = encode (IList [IData (hp leaf k); x]) /\ list_ok [IData (hp leaf k); x] /\ key_ok k /\ small x.
Proof.
  intros [k' v|k' c] Ht; (split; [done|]).
  - split; [by apply leaf_list|]. destruct Ht as (? & [? ?] & _). split; [done|]. by apply small_data.
  - split; [by apply ext_list|]. destruct Ht as (? & _ & ? & _). auto.
Qed.

Lemma two_reads t leaf k x : two t leaf k x -> wf t ->
  keyOf (enc t) = Ok (keyOf_hpe (hp leaf k)) /\ isLeaf (enc t) = Ok leaf /\ subscript (enc t) 1 = Ok (encode x).
Proof.
  intros Ht Hw. destruct (two_spec t leaf k x Ht Hw) as (-> & Hl & Hk & _).
  split; [by apply two_keyOf|]. split; [by apply two_isLeaf|by apply (two_value leaf k)].
Qed.

(** What is left of such a node after [p] nibbles, and its split. *)
Definition rest (t : trie) (p : nat) : trie :=
  match t with Leaf k v => Leaf (drop p k) v | Ext k c => Ext (drop p k) c | _ => t end.
Definition split (t : trie) : trie :=
  match t with Leaf k v => split_leaf k v | Ext k c => split_ext k c | _ => Nil end.

Lemma branch_items cs v i : length cs = 16%nat -> 0 <= i < 17 ->
  (map iref cs ++ [IData v]) !! Z.to_nat i = Some (if i =? 16 then IData v else iref (child cs i)).
Proof.
  intros Hl Hi. destruct (Z.eqb_spec i 16) as [->|Hn].
  - rewrite lookup_app_r by (rewrite length_map, Hl; lia). by rewrite length_map, Hl.
  - rewrite lookup_app_l by (rewrite length_map, Hl; lia). rewrite list_lookup_fmap.
    destruct (lookup_lt_is_Some_2 cs (Z.to_nat i)) as [c Hc]; [lia|]. unfold child.
    by rewrite (nth_lookup_Some _ _ _ _ Hc), Hc.
Qed.
Lemma child_wf cs n : Forall wf cs -> wf (child cs n).
Proof.
  intros Hcs. unfold child. destruct (nth_in_or_default (Z.to_nat n) cs Nil) as [H| ->]; [|done].
  rewrite List.Forall_forall in Hcs. auto.
Qed.

(** ** Streams of items *)
Section Run.
Context (U : bytes -> Prop) (U_inj : forall x y, U x -> U y -> sha3 x = sha3 y -> x = y).
Abbreviation runs := (runs U).
Abbreviation plain d := (m_enforceRefs d = false).

Lemma keeps_plain d d' : keeps U d d' -> plain d -> plain d'.
Proof. intros [E _]. congruence. Qed.

Lemma runs_stream n d Q : (0 < n)%nat -> Q (partial n []) d -> runs (stream (Z.of_nat n)) d Q.
Proof. intros Hn HQ. eapply runs_eq; [by apply partial_start|done]. Qed.
Lemma runs_out n its d (Q : bytes -> OverlayDB -> Prop) : length its = n -> Q (encode (IList its)) d ->
  runs (out (partial n its)) d Q.
Proof. intros Hn HQ. eapply runs_eq; [by apply partial_out|done]. Qed.

Section Write.
Context (N : nat) (done : list item) (d : OverlayDB).
Context (HN : (length done < N <= 17)%nat) (Hd : Forall small done).

Lemma runs_emit w it Q : writes w it -> small it -> Q (partial N (done ++ [it])) d ->
  runs (emit w (partial N done)) d Q.
Proof.
  intros Hw Hit HQ. eapply runs_eq; [|exact HQ]. apply partial_write; [done|lia|].
  apply small_list; [|rewrite length_app; simpl; lia]. apply Forall_app. by split; [|constructor].
Qed.
Lemma runs_put_bytes b Q : small (IData b) -> size b < 2 ^ 64 -> Q (partial N (done ++ [IData b])) d ->
  runs (put_bytes b (partial N done)) d Q.
Proof. intros Hb Hs. apply runs_emit; [|done]. apply writes_bytes; [apply Hb|done]. Qed.
Lemma runs_put_rlp it Q : small it -> Q (partial N (done ++ [it])) d ->
  runs (put_rlp (encode it) (partial N done)) d Q.
Proof. intros Hit. apply runs_emit; [apply writes_raw|done]. Qed.
Lemma runs_put_item src i it Q : list_ok src -> 0 <= i < 2 ^ 64 -> src !! Z.to_nat i = Some it -> small it ->
  Q (partial N (done ++ [it])) d -> runs (put_item (encode (IList src)) i (partial N done)) d Q.
Proof.
  intros Hl Hi Hs Hit HQ. apply runs_bind. eapply runs_lift; [by apply read_sub|]. by apply runs_put_rlp.
Qed.

(** A node is written within its parent, or stored. *)
Lemma runs_streamNode t Q : plain d -> wf t -> within U t -> stored d t ->
  (forall d', keeps U d d' -> held d' t -> Q (partial N (done ++ [iref t])) d') ->
  runs (streamNode (enc t) (partial N done)) d Q.
Proof.
  intros Hf Ht Hu Hst HQ. unfold streamNode. pose proof (small_iref t Ht) as Hit. unfold iref, short in *. fold (enc t) in *.
  destruct (Z.ltb_spec (size (enc t)) 32) as [Hs|Hs].
  - apply runs_emit with (it := inode t); [apply writes_raw|done|]. apply HQ; [done|]. split; [lia|done].
  - apply runs_bind, runs_insert; [done|done|by apply within_self, hashed_not_nil|apply encode_ne|]. intros d' K Hk.
    apply runs_eq with (a := partial N (done ++ [IData (sha3 (enc t))])).
    + apply partial_write; [apply writes_hash; [apply length_sha3|apply sha3_bytes_ok]|lia|].
      apply small_list; [|rewrite length_app; simpl; lia]. apply Forall_app. by split; [|constructor].
    + apply HQ; [done|]. split; [by intros _|by apply (stored_keeps U d d')].
Qed.
End Write.

(** A loop that writes the items of [its]; [P j] holds after [j] turns. *)
Lemma runs_for N n i body done its d (P : nat -> OverlayDB -> Prop) (Q : RLPStream.t -> OverlayDB -> Prop) :
  length its = n -> P 0%nat d -> plain d ->
  (forall j it d1, its !! j = Some it -> keeps U d d1 -> plain d1 -> P j d1 ->
     runs (body (i + Z.of_nat j) (partial N (done ++ take j its))) d1
       (fun s d2 => s = partial N (done ++ take (S j) its) /\ P (S j) d2)) ->
  (forall d1, keeps U d d1 -> P n d1 -> Q (partial N (done ++ its)) d1) ->
  runs (for_stream n i body (partial N done)) d Q.
Proof.
  intros Hn HP Hf Hbody HQ.
  assert (forall m j d1, (j + m = n)%nat -> keeps U d d1 -> P j d1 ->
    runs (for_stream m (i + Z.of_nat j) body (partial N (done ++ take j its))) d1 Q) as L.
  { induction m as [|m IH]; intros j d1 Hj K Pj; simpl.
    - apply runs_ret. replace (take j its) with its by (by rewrite take_ge by lia). apply HQ; [done|]. by replace n with j by lia.
    - destruct (lookup_lt_is_Some_2 its j) as [it Hit]; [lia|]. apply runs_bind.
      eapply runs_mono; [apply (Hbody j it d1 Hit K (keeps_plain _ _ K Hf) Pj)|].
      intros s d2 K2 [-> P2]. replace (i + Z.of_nat j + 1) with (i + Z.of_nat (S j)) by lia.
      apply IH; [lia|by transitivity d1|done]. }
  specialize (L n 0%nat d ltac:(lia) ltac:(done) HP). by rewrite take_0, app_nil_r, Z.add_0_r in L.
Qed.

(** ** [countNode], [place] *)
Lemma runs_count its d (Q : Z -> OverlayDB -> Prop) : list_ok its -> (length its = 2 \/ length its = 17)%nat ->
  Q (size its) d -> runs (countNode (encode (IList its))) d Q.
Proof.
  intros Hl Hn HQ. apply runs_bind. eapply runs_lift; [by apply read_count|].
  apply runs_bind, runs_assert; [|by apply runs_ret].
  rewrite (read_isList _ Hl). simpl. lia.
Qed.

Lemma runs_count17 cs v d (Q : Z -> OverlayDB -> Prop) : wf (Branch cs v) -> Q 17 d ->
  runs (countNode (enc (Branch cs v))) d Q.
Proof.
  intros Hw HQ. pose proof Hw as (Hn & _)%wf_branch.
  assert (length (map iref cs ++ [IData v]) = 17%nat) as L by (rewrite length_app, length_map, Hn; done).
  apply (runs_count (map iref cs ++ [IData v])); [by apply branch_list|by right|]. by rewrite L.
Qed.
Lemma runs_count2 t leaf k x d (Q : Z -> OverlayDB -> Prop) : two t leaf k x -> wf t -> Q 2 d -> runs (countNode (enc t)) d Q.
Proof. intros Ht Hw HQ. destruct (two_spec t leaf k x Ht Hw) as (-> & Hl & _). apply runs_count; [done|by left|done]. Qed.

Lemma run_place_nil s k v d Q : plain d -> denotes s k -> wf (Leaf k v) ->
  Q (enc (Leaf k v)) d -> runs (place null_node s v) d Q.
Proof.
  intros Hf Hs Hw HQ. destruct Hw as (Hk & [Hv Hz] & _).
  unfold place. apply runs_bind. apply runs_eq with (a := tt); [done|].
  replace (RLP.isEmpty null_node) with true by done.
  rewrite (encode_slice s k true 0 (-1) Hs) by lia. rewrite drop_0. unfold rlpList.
  apply runs_bind, (runs_stream 2); [lia|]. apply runs_bind. apply runs_put_bytes; [simpl; lia|constructor|auto| |].
  { destruct (hp_ok true k) as (_ & _ & L); [apply Hk|]. destruct Hk. simpl. lia. }
  apply runs_bind. apply runs_put_bytes; [simpl; lia|repeat constructor; by apply small_hp|by apply small_data|lia|].
  by apply runs_out.
Qed.

Lemma run_place_leaf s k w v d (Q : bytes -> OverlayDB -> Prop) : plain d -> wf (Leaf k w) -> wf (Leaf k v) ->
  (forall d', keeps U d d' -> Q (enc (Leaf k v)) d') -> runs (place (enc (Leaf k w)) s v) d Q.
Proof.
  intros Hf Hw Hv HQ. pose proof (leaf_list k w Hw) as Hl. destruct Hv as (Hk & [Hv Hz] & _).
  change (enc (Leaf k w)) with (encode (IList [IData (hp true k); IData w])).
  unfold place. apply runs_bind, runs_killNode_at; [done|]. intros d' K.
  rewrite (read_isEmpty _ Hl) by done. apply runs_bind, runs_count; [done|by left|]. cbn [length Z.of_nat Z.eqb Pos.eqb].
  unfold rlpList. apply runs_bind, (runs_stream 2); [lia|]. apply runs_bind.
  apply (runs_put_item 2 [] d' ltac:(simpl; lia) ltac:(constructor) _ 0 (IData (hp true k))); try done; auto.
  apply runs_bind. apply runs_put_bytes; [simpl; lia|repeat constructor; by apply small_hp|by apply small_data|lia|].
  by apply runs_out, HQ.
Qed.

(** The items of a branch but the last, written one after the other. *)
Lemma runs_children cs v d Q : wf (Branch cs v) -> plain d ->
  (forall d', keeps U d d' -> Q (partial 17 (map iref cs)) d') ->
  runs (for_stream 16 0 (put_item (enc (Branch cs v))) (partial 17 [])) d Q.
Proof.
  intros Hw Hf HQ. pose proof (branch_list cs v Hw) as Hl. apply wf_branch in Hw as (Hn & Hv & Hcs).
  apply (runs_for 17 16 0 _ [] (map iref cs) d (fun _ _ => True)); try done; [by rewrite length_map| |by intros d1 K1 _; apply HQ].
  intros j it d1 Hit K Hf1 _. assert (j < 16)%nat as Hj.
  { apply lookup_lt_Some in Hit. by rewrite length_map, Hn in Hit. }
  assert (Forall small (map iref cs)) as Hsm.
  { apply Forall_map. eapply Forall_impl; [|exact Hcs]. auto. }
  change (enc (Branch cs v)) with (encode (IList (map iref cs ++ [IData v]))).
  apply (runs_put_item 17 ([] ++ take j (map iref cs)) d1) with (it := it).
  - rewrite app_nil_l, length_take, length_map. lia.
  - by apply Forall_take.
  - done.
  - lia.
  - rewrite Z.add_0_l, Nat2Z.id. by apply lookup_app_l_Some.
  - by apply (proj1 (Forall_lookup _ _) Hsm j).
  - split; [|done]. simpl. by rewrite (take_S_r _ _ _ Hit).
Qed.

Lemma run_place_branch s cs w v d (Q : bytes -> OverlayDB -> Prop) : plain d -> wf (Branch cs w) -> value_ok v ->
  (forall d', keeps U d d' -> Q (enc (Branch cs v)) d') -> runs (place (enc (Branch cs w)) s v) d Q.
Proof.
  intros Hf Hw [Hv Hz] HQ. pose proof Hw as (Hn & _ & Hcs)%wf_branch.
  unfold place. apply runs_bind, runs_killNode_at; [done|]. intros d' K.
  rewrite enc_isEmpty by done. apply runs_bind, runs_count17; [done|]. cbn [Z.eqb Pos.eqb].
  apply runs_bind, (runs_stream 17); [lia|]. apply runs_bind, runs_children; [done|by apply (keeps_plain d)|].
  intros d2 K2. apply runs_bind. apply runs_put_bytes.
  - rewrite length_map, Hn. lia.
  - apply Forall_map. eapply Forall_impl; [|exact Hcs]. auto.
  - by apply small_data.
  - lia.
  - apply runs_out; [by rewrite length_app, length_map, Hn|]. apply HQ. by transitivity d'.
Qed.

(** ** [cleve] *)
Lemma two_rest t leaf k x p : two t leaf k x -> two (rest t p) leaf (drop p k) x.
Proof. intros []; constructor. Qed.
Lemma stored_rest d t p : stored d (rest t p) <-> stored d t.
Proof. by destruct t. Qed.
Lemma hp_size leaf k : key_ok k -> size (hp leaf k) < 2 ^ 64.
Proof. intros [Hk Hs]. destruct (hp_ok leaf k Hk) as (_ & _ & L). lia. Qed.
Lemma key_ok_take p k : key_ok k -> key_ok (take p k).
Proof. intros [Hk Hs]. split; [by apply Forall_take|]. rewrite length_take. lia. Qed.
Lemma key_ok_drop p k : key_ok k -> key_ok (drop p k).
Proof. intros [Hk Hs]. split; [by apply Forall_drop|]. rewrite length_drop. lia. Qed.
#[local] Hint Resolve hp_size key_ok_take key_ok_drop : core.

Lemma run_cleve t leaf k x p d (Q : bytes -> OverlayDB -> Prop) : plain d -> two t leaf k x -> wf t -> (0 < p <= length k)%nat ->
  wf (rest t p) -> within U (rest t p) -> stored d t ->
  (forall d', keeps U d d' -> held d' (rest t p) -> Q (enc (Ext (take p k) (rest t p))) d') ->
  runs (cleve (enc t) (Z.of_nat p)) d Q.
Proof.
  intros Hf Ht Hw Hp Hr HU Hst HQ. destruct (two_spec t leaf k x Ht Hw) as (E & Hl & Hk & Hx).
  pose proof (two_denotes leaf k Hk) as Hd.
  unfold cleve. apply runs_bind, runs_killNode_at; [done|]. intros d1 K1. pose proof (keeps_plain _ _ K1 Hf) as Hf1.
  assert (stored d1 (rest t p)) as Hst1.
  { apply stored_rest. apply stored_rest with (p := p). by apply (stored_keeps U d d1), stored_rest. }
  rewrite E. apply runs_bind. eapply runs_lift; [by apply read_count|].
  apply runs_bind, runs_assert; [by rewrite (read_isList _ Hl)|].
  apply runs_bind. eapply runs_lift; [by apply two_keyOf|]. rewrite (slice_size _ k Hd).
  apply runs_bind, runs_assert; [lia|]. apply runs_bind. eapply runs_lift; [by apply two_isLeaf|].
  rewrite !(encode_slice _ k _ _ _ Hd) by lia.
  replace (Z.of_nat p <? 0) with false by lia. rewrite !Nat2Z.id. cbn [Z.ltb Z.compare Z.to_nat].
  rewrite drop_0. apply runs_bind, (runs_stream 2); [lia|].
  apply runs_bind. apply runs_put_bytes; [simpl; lia|constructor|auto|auto|].
  apply runs_bind. apply runs_put_item with (it := x); [simpl; lia|repeat constructor; by apply small_hp, key_ok_drop|done|lia|done|done|].
  apply runs_bind, (runs_stream 2); [lia|].
  apply runs_bind. apply runs_put_bytes; [simpl; lia|constructor|auto|auto|].
  apply runs_bind. apply runs_out; [done|].
  destruct (two_spec _ leaf (drop p k) x (two_rest t leaf k x p Ht) Hr) as (Er & _). cbn [app]. rewrite <- Er.
  apply runs_bind. apply runs_streamNode; [simpl; lia|repeat constructor; by apply small_hp, key_ok_take|done|done|done|done|].
  intros d2 K2 Hh. apply runs_out; [done|]. apply HQ; [by transitivity d1|done].
Qed.

(** ** [branch] *)
Lemma length_nils : length nils = 16%nat.
Proof. done. Qed.
Lemma nils_lookup j c : nils !! j = Some c -> c = Nil.
Proof. unfold nils. by intros [-> _]%lookup_replicate. Qed.
Lemma split_children n c : is_nibble n -> length (set_child nils n c) = 16%nat /\ set_child nils n c !! Z.to_nat n = Some c.
Proof.
  intros Hn. unfold is_nibble in Hn. unfold set_child. split; [by rewrite length_insert|].
  apply list_lookup_insert_eq. rewrite length_nils. lia.
Qed.
Lemma split_other n c j c' : Z.of_nat j <> n -> is_nibble n -> set_child nils n c !! j = Some c' -> c' = Nil.
Proof. intros Hj Hn. unfold is_nibble in Hn. unfold set_child. rewrite list_lookup_insert_ne by lia. apply nils_lookup. Qed.

(** The loop of [branch]: item [b] is written by [w], the others are empty. *)
Lemma runs_split b c w d (Q : RLPStream.t -> OverlayDB -> Prop) : plain d -> is_nibble b -> wf c -> within U c ->
  (forall d1 s, keeps U d d1 -> plain d1 -> s = partial 17 (map iref (take (Z.to_nat b) (set_child nils b c))) ->
     runs (w s) d1 (fun s d2 => s = partial 17 (map iref (take (S (Z.to_nat b)) (set_child nils b c))) /\ held d2 c)) ->
  (forall d1, keeps U d d1 -> held d1 c -> Q (partial 17 (map iref (set_child nils b c))) d1) ->
  runs (for_stream 16 0 (fun i r => if i =? b then w r else put_bytes [] r) (partial 17 [])) d Q.
Proof.
  intros Hf Hb Hc HU Hw HQ. destruct (split_children b c Hb) as [Hlen Hat]. unfold is_nibble in Hb.
  apply (runs_for 17 16 0 _ [] (map iref (set_child nils b c)) d (fun j d1 => b < Z.of_nat j -> held d1 c)).
  - by rewrite length_map.
  - lia.
  - done.
  - intros j it d1 Hit K Hf1 Pj. cbn [app].
    rewrite list_lookup_fmap in Hit. destruct (set_child nils b c !! j) as [cj|] eqn:Ej; [|done]. injection Hit as <-.
    destruct (Z.eqb_spec (0 + Z.of_nat j) b) as [Ej'|Ej'].
    + replace j with (Z.to_nat b) in * by lia. rewrite !firstn_map. eapply runs_mono; [by apply (Hw d1)|].
      intros s d2 K2 [-> Hh]. by split.
    + pose proof (split_other b c j cj ltac:(lia) Hb Ej) as ->. apply lookup_lt_Some in Ej as Hj. rewrite Hlen in Hj.
      apply runs_put_bytes; [rewrite length_take, length_map; lia| |apply small_nil|simpl; lia|].
      * apply Forall_take, Forall_map. rewrite Forall_lookup. intros i c' Hc'.
        destruct (decide (Z.of_nat i = b)) as [<-|Hne].
        { rewrite Nat2Z.id in Hat. rewrite Hat in Hc'. injection Hc' as <-. auto. }
        by rewrite (split_other b c i c' Hne Hb Hc').
      * split; [|intros; apply Pj; lia]. f_equal. symmetry. apply take_S_r. by rewrite list_lookup_fmap, Ej.
  - intros d1 K Hp. apply HQ; [done|]. apply Hp. lia.
Qed.

(** What goes under nibble [b] when a node with key [b :: k] is split. *)
Definition under (t : trie) : trie :=
  match t with Leaf (_ :: k) v => Leaf k v | Ext (_ :: k) c => ext k c | _ => Nil end.
Lemma split_under t leaf b k x : two t leaf (b :: k) x -> split t = Branch (set_child nils b (under t)) [].
Proof. by inversion 1. Qed.

Lemma small_children cs : Forall wf cs -> Forall small (map iref cs).
Proof. intros Hcs. apply Forall_map. eapply Forall_impl; [|exact Hcs]. auto. Qed.

Lemma runs_under t leaf b k x d1 Q : plain d1 -> two t leaf (b :: k) x -> wf t -> wf (split t) -> within U (under t) ->
  stored d1 t ->
  (forall d2, keeps U d1 d2 -> held d2 (under t) -> Q (partial 17 (map iref (take (S (Z.to_nat b)) (set_child nils b (under t))))) d2) ->
  runs ((if leaf || (1 <? size (b :: k)) then
           n ← rlpList (put_bytes (hp leaf k)) (put_item (enc t) 1); streamNode n (partial 17 (map iref (take (Z.to_nat b) (set_child nils b (under t)))))
         else put_item (enc t) 1 (partial 17 (map iref (take (Z.to_nat b) (set_child nils b (under t))))))) d1 Q.
Proof.
  intros Hf Ht Hw Hws HUu Hst HQ. destruct (two_spec t leaf (b :: k) x Ht Hw) as (E & Hl & Hk & Hx).
  assert (is_nibble b) as Hb by (destruct Hk as [Hk _]; by inversion Hk).
  rewrite (split_under t leaf b k x Ht) in *. pose proof Hws as (Hn & _ & Hcs)%wf_branch.
  destruct (split_children b (under t) Hb) as [_ Hat]. pose proof (proj1 (Forall_lookup _ _) Hcs _ _ Hat) as Hwu.
  assert (length (map iref (take (Z.to_nat b) (set_child nils b (under t)))) < 17 <= 17)%nat as HN.
  { unfold is_nibble in Hb. rewrite length_map, length_take. lia. }
  assert (Forall small (map iref (take (Z.to_nat b) (set_child nils b (under t))))) as Hsm by (by apply small_children, Forall_take).
  assert (map iref (take (Z.to_nat b) (set_child nils b (under t))) ++ [iref (under t)]
          = map iref (take (S (Z.to_nat b)) (set_child nils b (under t)))) as Hnext.
  { by rewrite (take_S_r _ _ _ Hat), map_app. }
  rewrite <- Hnext in HQ. assert (key_ok k) as Hk' by (by apply (key_ok_drop 1 (b :: k))).
  destruct (leaf || (1 <? size (b :: k))) eqn:El.
  - assert (exists t', under t = t' /\ two t' leaf k x) as (t' & Et & Ht').
    { inversion Ht; subst; [eexists; split; [done|constructor]|]. destruct k; [done|]. eexists. split; [done|constructor]. }
    rewrite Et in *. unfold rlpList. apply runs_bind. apply runs_bind, (runs_stream 2); [lia|].
    apply runs_bind. apply runs_put_bytes; [simpl; lia|constructor|auto|auto|].
    apply runs_bind. rewrite E. apply runs_put_item with (it := x); [simpl; lia|repeat constructor; by apply small_hp|done|lia|done|done|].
    apply runs_out; [done|]. destruct (two_spec t' leaf k x Ht' Hwu) as (E' & _). cbn [app]. rewrite <- E'.
    apply runs_streamNode; [done|done|done|done|done| |done].
    rewrite <- Et. inversion Ht; subst; [done|]. by destruct k.
  - inversion Ht; subst; [done|]. destruct k as [|n k]; [|simpl in El; lia]. rewrite E.
    apply runs_put_item with (it := iref c); [done|done|done|lia|done|auto|]. by apply HQ.
Qed.

Lemma run_branch t leaf k x d (Q : bytes -> OverlayDB -> Prop) : plain d -> two t leaf k x -> wf t -> wf (split t) ->
  within U t -> within U (under t) -> stored d t ->
  (forall d', keeps U d d' -> stored d' (split t) -> Q (enc (split t)) d') ->
  runs (branch (enc t)) d Q.
Proof.
  intros Hf Ht Hw Hws HUt HU Hst HQ. destruct (two_spec t leaf k x Ht Hw) as (E & Hl & Hk & Hx).
  pose proof (two_denotes leaf k Hk) as Hd.
  unfold branch. rewrite E. apply runs_bind. eapply runs_lift; [by apply read_count|].
  apply runs_bind, runs_assert; [by rewrite (read_isList _ Hl)|].
  apply runs_bind, runs_killNode_at; [done|]. intros d1 K1. pose proof (keeps_plain _ _ K1 Hf) as Hf1.
  apply runs_bind. eapply runs_lift; [by apply two_keyOf|]. apply runs_bind, (runs_stream 17); [lia|].
  apply runs_bind. eapply runs_lift; [by apply two_isLeaf|]. rewrite (slice_size _ k Hd).
  apply runs_bind. destruct k as [|b k].
  - inversion Ht; subst; [|by destruct Hw as (_ & ? & _)]. simpl in Hws.
    apply runs_bind, runs_assert; [done|]. apply runs_bind.
    apply (runs_for 17 16 0 _ [] (map iref nils) d1 (fun _ _ => True)); try done.
    + intros j it d2 Hit K2 Hf2 _. change (map iref nils) with (replicate 16 (IData [])) in Hit.
      pose proof (proj1 (lookup_replicate _ _ _ _) Hit) as [-> Hj].
      apply runs_put_bytes; [|by apply Forall_take; repeat constructor|done|done|].
      * rewrite app_nil_l, length_take. lia.
      * split; [|done]. f_equal. symmetry. by apply take_S_r.
    + intros d2 K2 _. apply runs_put_item with (it := IData v); [simpl; lia|by repeat constructor|done|lia|done|done|].
      apply runs_out; [done|]. apply (HQ d2); [by transitivity d1|]. apply stored_branch. by repeat constructor.
  - assert (is_nibble b) as Hb by (destruct Hk as [Hk _]; by inversion Hk).
    replace (size (b :: k) =? 0) with false by (simpl length; lia).
    apply runs_bind. eapply runs_lift; [by apply (slice_head _ b k)|].
    assert (denotes (mid 1 (keyOf_hpe (hp leaf (b :: k)))) k) as Hd'.
    { apply (slice_mid _ _ Hd 1). simpl length. lia. }
    rewrite (encode_slice _ k _ _ _ Hd') by lia. cbn [Z.ltb Z.compare Z.to_nat]. rewrite drop_0. rewrite <- E.
    rewrite (split_under t leaf b k x Ht) in *. pose proof Hws as (Hn & _ & Hcs)%wf_branch.
    destruct (split_children b (under t) Hb) as [_ Hat].
    apply runs_bind. apply (runs_split b (under t)).
    + done.
    + done.
    + by apply (proj1 (Forall_lookup _ _) Hcs _ _ Hat).
    + done.
    + intros d2 s K2 Hf2 ->. apply (runs_under t leaf b k x); try done; try (by rewrite (split_under t leaf b k x Ht)).
      apply (stored_keeps U d); [by transitivity d1|done|done].
    + intros d2 K2 Hh. apply runs_put_bytes; [rewrite length_map, Hn; lia|by apply small_children|done|simpl; lia|].
      apply runs_out; [by rewrite length_app, length_map, Hn|]. apply (HQ d2); [by transitivity d1|].
      apply stored_branch, Forall_lookup. intros j c Hc. destruct (decide (Z.of_nat j = b)) as [<-|Hne].
      * rewrite Nat2Z.id in Hat. rewrite Hat in Hc. by injection Hc as <-.
      * rewrite (split_other b _ j c Hne Hb Hc). split; [by vm_compute|done].
Qed.

(** ** [mergeAtAux] *)
Lemma runs_node h d b (Q : bytes -> OverlayDB -> Prop) : Overlay.lookup h d = b -> Q b d -> runs (node h) d Q.
Proof. intros <- HQ. by apply runs_ret. Qed.

(** Reaching a child: within the parent, or through the database. *)
Lemma runs_child c d (Q : bytes -> OverlayDB -> Prop) : wf c -> c <> Nil -> held d c -> Q (enc c) d ->
  RLP.isEmpty (encode (iref c)) = false /\
  (RLP.isList (encode (iref c)) = true /\ encode (iref c) = enc c \/
   RLP.isList (encode (iref c)) = false /\
   runs (h ← lift_outcome (RLP.toHash 32 RLP.Strict (encode (iref c))); s ← node h; lift_outcome (rlp_of s)) d Q).
Proof.
  intros Hc Hn [Hk _] HQ. destruct (iref_cases c Hc) as [|_ Hs E Hl He|_ Hs Hl Hd He Hh]; [done| |].
  - rewrite E. split; [done|]. by left.
  - split; [done|]. right. split; [done|]. apply runs_bind. eapply runs_lift; [exact Hh|].
    apply runs_bind. eapply runs_node; [by apply Hk|]. eapply runs_lift; [by apply enc_rlp|done].
Qed.

Lemma run_aux rec c c' s v N done d (Q : RLPStream.t -> OverlayDB -> Prop) :
  plain d -> wf c -> held d c -> wf c' -> within U c' -> (length done < N <= 17)%nat -> Forall small done ->
  (forall inl, runs (rec (enc c) (sha3 (enc c)) s v inl) d (fun b d2 => b = enc c' /\ stored d2 c')) ->
  (forall d1, keeps U d d1 -> held d1 c' -> Q (partial N (done ++ [iref c'])) d1) ->
  runs (mergeAtAux rec (encode (iref c)) s v (partial N done)) d Q.
Proof.
  intros Hf Hc Hh Hc' HU HN Hsm Hrec HQ. unfold mergeAtAux.
  assert (forall inl, runs (b ← rec (enc c) (sha3 (enc c)) s v inl; streamNode b (partial N done)) d Q) as Hgo.
  { intros inl. apply runs_bind. eapply runs_mono; [apply Hrec|]. intros b d2 K2 [-> Hst].
    apply runs_streamNode; try done; [by apply (keeps_plain d)|]. intros d3 K3 Hh3.
    apply HQ; [by transitivity d2|done]. }
  destruct (decide (c = Nil)) as [->|Hn].
  - apply runs_bind, runs_ret. apply Hgo.
  - destruct (runs_child c d (fun b d' => b = enc c /\ d' = d) Hc Hn Hh ltac:(done)) as (He & [[Hl E]|[Hl Hr]]).
    + rewrite Hl, He. cbn [negb andb]. rewrite E. apply runs_bind, runs_ret. apply Hgo.
    + rewrite Hl, He. cbn [negb andb]. destruct Hr as (b & d' & Er & K & -> & ->).
      apply runs_bind. exists (enc c), d. split; [|by split].
      unfold mbind, SE_bind in *. destruct (lift_outcome _ d) as [[h| | | | |] d0]; try done.
      destruct (node h d0) as [[s0| | | | |] d1]; try done. rewrite Er. unfold assertion.
      destruct (node_list c Hc Hn) as (its & Ei & Hli & _). unfold enc. rewrite Ei. by rewrite (read_isNull _ Hli).
Qed.

(** ** [mergeAt] on a branch *)
Lemma set_child_other cs n c j : Z.of_nat j <> n -> 0 <= n -> set_child cs n c !! j = cs !! j.
Proof. intros. unfold set_child. apply list_lookup_insert_ne. lia. Qed.
Lemma set_child_at cs n c : is_nibble n -> length cs = 16%nat -> set_child cs n c !! Z.to_nat n = Some c.
Proof. unfold is_nibble. intros. unfold set_child. apply list_lookup_insert_eq. lia. Qed.
Lemma set_child_Forall P cs n c : Forall P cs -> P c -> Forall P (set_child cs n c).
Proof. intros. by apply Forall_insert. Qed.
Lemma child_lookup cs n : is_nibble n -> length cs = 16%nat -> cs !! Z.to_nat n = Some (child cs n).
Proof.
  unfold is_nibble. intros Hn Hl. destruct (lookup_lt_is_Some_2 cs (Z.to_nat n)) as [c Hc]; [lia|].
  unfold child. by rewrite (nth_lookup_Some _ _ _ _ Hc).
Qed.

Lemma items_other cs n c w j : 0 <= n < 16 -> length cs = 16%nat -> Z.of_nat j <> n ->
  (map iref (set_child cs n c) ++ [IData w]) !! j = (map iref cs ++ [IData w]) !! j.
Proof.
  intros Hn Hl Hj. rewrite !lookup_app, !list_lookup_fmap, set_child_other by lia.
  destruct (cs !! j); [done|]. rewrite !length_map. unfold set_child. by rewrite length_insert.
Qed.

Lemma stored_set_child d d' cs w n c : keeps U d d' -> Forall (within U) cs -> Forall (held d) cs -> held d' c ->
  stored d' (Branch (set_child cs n c) w).
Proof.
  intros K Hw Hh Hc. apply stored_branch, set_child_Forall; [|done]. rewrite Forall_lookup in *.
  intros j x Hx. apply (held_keeps U d d'); eauto.
Qed.

Lemma merge_branch f cs w n k s v c' h inl d :
  plain d -> wf (Branch cs w) -> Forall (within U) cs -> stored d (Branch cs w) ->
  denotes s (n :: k) -> wf c' -> within U c' ->
  (forall d1 inl, keeps U d d1 -> plain d1 -> held d1 (child cs n) ->
     runs (mergeAt f (enc (child cs n)) (sha3 (enc (child cs n))) (mid 1 s) v inl) d1 (fun b d2 => b = enc c' /\ stored d2 c')) ->
  runs (mergeAt (S f) (enc (Branch cs w)) h s v inl) d
    (fun b d' => b = enc (Branch (set_child cs n c') w) /\ stored d' (Branch (set_child cs n c') w)).
Proof.
  intros Hf Hw HUcs Hst Hs Hc' HUc' Hrec. pose proof (branch_list cs w Hw) as Hl.
  pose proof Hw as (Hlen & Hv & Hcs)%wf_branch.
  pose proof Hst as Hhs%stored_branch.
  assert (is_nibble n) as Hn by (pose proof (slice_ok s _ Hs) as Hk; by inversion Hk).
  cbn [mergeAt]. rewrite enc_isEmpty by done. apply runs_bind, runs_count17; [done|]. cbn [Z.eqb Pos.eqb].
  rewrite (slice_size s _ Hs). replace (size (n :: k) =? 0) with false by (simpl length; lia).
  apply runs_bind.
  assert (forall Q : unit -> OverlayDB -> Prop, (forall d', keeps U d d' -> Q tt d') ->
    runs (when (negb inl) (killNode_at (enc (Branch cs w)) h)) d Q) as Hkill.
  { intros Q HQ. unfold when. destruct (negb inl); [by apply runs_killNode_at|]. by apply runs_ret, HQ. }
  apply Hkill. intros d1 K1. pose proof (keeps_plain _ _ K1 Hf) as Hf1.
  apply runs_bind. eapply runs_lift; [by apply (slice_head s n k)|].
  apply runs_bind, (runs_stream 17); [lia|]. apply runs_bind.
  assert (Forall small (map iref (set_child cs n c') ++ [IData w])) as Hsm.
  { apply Forall_app. split; [by apply small_children, set_child_Forall|].
    constructor; [|constructor]. destruct Hv. by apply small_data. }
  assert (length (map iref (set_child cs n c') ++ [IData w]) = 17%nat) as Hlen'.
  { rewrite length_app, length_map. unfold set_child. by rewrite length_insert, Hlen. }
  apply (runs_for 17 17 0 _ [] (map iref (set_child cs n c') ++ [IData w]) d1 (fun j d2 => n < Z.of_nat j -> held d2 c')).
  - done.
  - unfold is_nibble in Hn. lia.
  - done.
  - intros j it d2 Hit K2 Hf2 Pj. assert (keeps U d d2) as K by (by transitivity d1).
    rewrite Z.add_0_l, app_nil_l. apply lookup_lt_Some in Hit as Hj. rewrite Hlen' in Hj.
    assert (length (take j (map iref (set_child cs n c') ++ [IData w])) < 17 <= 17)%nat as HN by (rewrite length_take; lia).
    assert (Forall small (take j (map iref (set_child cs n c') ++ [IData w]))) as Hsm' by (by apply Forall_take).
    rewrite (take_S_r _ _ _ Hit). unfold is_nibble in Hn.
    destruct (Z.eqb_spec (Z.of_nat j) n) as [E|E].
    + subst n. rewrite lookup_app_l, list_lookup_fmap in Hit by (rewrite length_map; unfold set_child; rewrite length_insert; lia).
      pose proof (set_child_at cs (Z.of_nat j) c' Hn Hlen) as Ha. rewrite Nat2Z.id in Ha. rewrite Ha in Hit. injection Hit as <-.
      apply runs_bind. eapply runs_lift.
      { change (enc (Branch cs w)) with (encode (IList (map iref cs ++ [IData w]))). apply read_sub; [done|lia|].
        rewrite branch_items by (done || lia). replace (Z.of_nat j =? 16) with false by lia. done. }
      assert (held d2 (child cs (Z.of_nat j))) as Hh2.
      { apply (held_keeps U d d2); [done|..]; [apply (proj1 (Forall_lookup _ _) HUcs (Z.to_nat (Z.of_nat j)))|
          apply (proj1 (Forall_lookup _ _) Hhs (Z.to_nat (Z.of_nat j)))]; by apply child_lookup. }
      apply (run_aux (mergeAt f) (child cs (Z.of_nat j)) c'); try done; [by apply child_wf|].
      intros inl'. by apply Hrec.
    + change (enc (Branch cs w)) with (encode (IList (map iref cs ++ [IData w]))).
      pose proof (proj1 (Forall_lookup _ _) Hsm _ _ Hit) as Hsi. rewrite items_other in Hit by done.
      apply runs_put_item with (it := it); [done|done|done|lia|by rewrite Nat2Z.id|done|].
      split; [done|]. intros. apply Pj. lia.
  - intros d2 K2 Hp. apply runs_out; [done|]. split; [done|].
    apply (stored_set_child d); [by transitivity d1|done|done|]. apply Hp. unfold is_nibble in Hn. lia.
Qed.

(** ** [mergeAt] where there is nothing, and on an extension *)
Lemma merge_nil f s k v h inl d : plain d -> denotes s k -> wf (Leaf k v) ->
  runs (mergeAt (S f) (enc Nil) h s v inl) d (fun b d' => b = enc (Leaf k v) /\ stored d' (Leaf k v)).
Proof. intros Hf Hs Hw. cbn [mergeAt]. by apply (run_place_nil s k v). Qed.

Lemma merge_add f cs w s k v h inl d : plain d -> wf (Branch cs w) -> Forall (within U) cs -> stored d (Branch cs w) ->
  denotes s k -> key_ok k -> value_ok v -> v <> [] ->
  (forall n k', k = n :: k' -> child cs n = Nil /\ within U (Leaf k' v)) ->
  runs (mergeAt (S (S f)) (enc (Branch cs w)) h s v inl) d
    (fun b d' => b = enc (add_leaf (Branch cs w) k v) /\ stored d' (add_leaf (Branch cs w) k v)).
Proof.
  intros Hf Hw HU Hst Hs Hk Hv Hv0 Hn. destruct k as [|n k].
  - cbn [mergeAt]. rewrite enc_isEmpty by done. apply runs_bind, runs_count17; [done|]. cbn [Z.eqb Pos.eqb].
    rewrite (slice_size s _ Hs). cbn [length Z.of_nat Z.eqb]. apply run_place_branch; [done|done|done|].
    intros d' K. split; [done|]. apply stored_branch in Hst. apply stored_branch.
    rewrite Forall_lookup in *. intros j c Hc. apply (held_keeps U d d'); eauto.
  - destruct (Hn n k eq_refl) as [Hc HUl]. assert (key_ok k) as Hk' by (by apply (key_ok_drop 1 (n :: k))).
    apply (merge_branch (S f) cs w n k s v (Leaf k v)); try done.
    intros d1 inl' K1 Hf1 _. rewrite Hc. apply merge_nil; [done| |done].
    apply (slice_mid s _ Hs 1). simpl length. lia.
Qed.

Lemma merge_ext f k c s k' v c' h inl d : plain d -> wf (Ext k c) -> within U c -> stored d (Ext k c) ->
  denotes s k' -> k `prefix_of` k' -> wf c' -> within U c' ->
  (forall d1 inl, keeps U d d1 -> plain d1 -> held d1 c ->
     runs (mergeAt f (enc c) (sha3 (enc c)) (mid (size k) s) v inl) d1 (fun b d2 => b = enc c' /\ stored d2 c')) ->
  runs (mergeAt (S f) (enc (Ext k c)) h s v inl) d (fun b d' => b = enc (Ext k c') /\ stored d' (Ext k c')).
Proof.
  intros Hf Hw HU Hst Hs Hp Hc' HUc' Hrec. destruct (two_spec _ _ _ _ (two_ext k c) Hw) as (E & Hl & Hk & Hx).
  pose proof (two_denotes false k Hk) as Hd. cbn [mergeAt]. rewrite enc_isEmpty by done.
  apply runs_bind. eapply runs_count2; [apply two_ext|done|]. cbn [Z.eqb Pos.eqb]. rewrite E.
  apply runs_bind. eapply runs_lift; [by apply two_keyOf|]. apply runs_bind. eapply runs_lift; [by apply two_isLeaf|].
  rewrite (slice_contains s _ k' k Hs Hd), bool_decide_true, andb_false_r by done. cbn [andb negb].
  apply runs_bind. rewrite (slice_size _ k Hd).
  assert (forall Q : unit -> OverlayDB -> Prop, (forall d', keeps U d d' -> Q tt d') ->
    runs (when (negb inl) (killNode_at (encode (IList [IData (hp false k); iref c])) h)) d Q) as Hkill.
  { intros Q HQ. unfold when. destruct (negb inl); [by apply runs_killNode_at|]. by apply runs_ret, HQ. }
  apply Hkill. intros d1 K1. pose proof (keeps_plain _ _ K1 Hf) as Hf1. destruct Hw as (_ & _ & Hwc & _).
  assert (held d1 c) as Hh1 by (by apply (held_keeps U d d1)).
  apply runs_bind, (runs_stream 2); [lia|]. apply runs_bind.
  apply runs_put_item with (it := IData (hp false k)); [simpl; lia|constructor|done|lia|done|auto|].
  apply runs_bind. eapply runs_lift; [by apply two_value|]. apply runs_bind.
  apply (run_aux (mergeAt f) c c'); try done; [simpl; lia|repeat constructor; by apply small_hp| |].
  - intros inl'. by apply Hrec.
  - intros d2 K2 Hh2. by apply runs_out.
Qed.

(** ** [mergeAt] where the key leaves a node of two items *)
Lemma wf_nils : Forall wf nils.
Proof. by repeat constructor. Qed.
Lemma value_ok_nil : value_ok [].
Proof. split; [constructor|done]. Qed.
Lemma wf_ext k c : key_ok k -> wf c -> c <> Nil -> wf (ext k c).
Proof. intros Hk Hc Hn. destruct k; [done|]. by split. Qed.
Lemma wf_split t leaf k x : two t leaf k x -> wf t -> wf (split t).
Proof.
  intros [[|b k'] v|[|b k'] c] Hw; simpl in Hw; cbn [split split_leaf split_ext]; try (by destruct Hw as (_ & ? & _)).
  - apply wf_branch. unfold set_child. rewrite length_insert. split; [done|]. split; [apply value_ok_nil|].
    apply set_child_Forall; [apply wf_nils|]. destruct Hw as (Hk & ? & ?).
    split; [by apply (key_ok_drop 1 (b :: k'))|done].
  - apply wf_branch. unfold set_child. rewrite length_insert. split; [done|]. split; [apply value_ok_nil|].
    apply set_child_Forall; [apply wf_nils|]. destruct Hw as (Hk & _ & ? & ?). apply wf_ext; [by apply (key_ok_drop 1 (b :: k'))|done|done].
Qed.

(** A split node as a branch: below its own nibble, and nothing elsewhere. *)
Lemma split_shape t leaf k x key : two t leaf k x -> wf t -> within U (under t) -> common k key = 0%nat ->
  exists cs w, split t = Branch cs w /\ Forall (within U) cs /\ (forall n k', key = n :: k' -> is_nibble n -> child cs n = Nil).
Proof.
  intros Ht Hw HU Hc. destruct (two_spec t leaf k x Ht Hw) as (_ & _ & Hk & _). destruct k as [|b k].
  - inversion Ht; subst; [|by destruct Hw as (_ & ? & _)]. exists nils, v. split; [done|]. split; [by repeat constructor|].
    intros n k' _ Hn. unfold child. rewrite nth_lookup. destruct (nils !! Z.to_nat n) eqn:En; [|done].
    by apply nils_lookup in En.
  - exists (set_child nils b (under t)), []. split; [by apply (split_under t leaf b k x)|].
    split; [apply set_child_Forall; [by repeat constructor|done]|]. intros n k' -> Hn.
    pose proof (common_cons _ _ _ _ Hc) as Hne. assert (is_nibble b) as Hb by (destruct Hk as [Hk _]; by inversion Hk).
    assert (set_child nils b (under t) !! Z.to_nat n = Some (child (set_child nils b (under t)) n)) as Hl.
    { apply child_lookup; [done|]. unfold set_child. by rewrite length_insert. }
    unfold is_nibble in Hn. by apply (split_other b (under t) (Z.to_nat n) _) in Hl; [|lia|].
Qed.

(** The tests of [mergeAt] on a node of two items that the key leaves. *)
Definition leaves (leaf : bool) (k key : list Z) : Prop :=
  if leaf then key <> k else ~ k `prefix_of` key.

Lemma merge_fork0 f t leaf k x s key v h inl d : plain d -> two t leaf k x -> wf t -> within U t -> stored d t ->
  denotes s key -> key_ok key -> value_ok v -> v <> [] ->
  common k key = 0%nat -> leaves leaf k key -> within U (under t) -> (forall n k', key = n :: k' -> within U (Leaf k' v)) ->
  runs (mergeAt (S (S (S f))) (enc t) h s v inl) d
    (fun b d' => b = enc (add_leaf (split t) key v) /\ stored d' (add_leaf (split t) key v)).
Proof.
  intros Hf Ht Hw HUt Hst Hs Hkey Hv Hv0 Hc Hlv HU HUl. destruct (two_spec t leaf k x Ht Hw) as (E & Hl & Hk & Hx).
  pose proof (two_denotes leaf k Hk) as Hd. assert (t <> Nil) as Hn by (by inversion Ht).
  remember (S (S f)) as g eqn:Hg. cbn [mergeAt]. rewrite enc_isEmpty by done.
  apply runs_bind. eapply runs_count2; [done|done|]. cbn [Z.eqb Pos.eqb].
  destruct (two_reads t leaf k x Ht Hw) as (Rk & Rl & _).
  apply runs_bind. eapply runs_lift; [exact Rk|]. apply runs_bind. eapply runs_lift; [exact Rl|].
  rewrite (slice_eqb _ s k key Hd Hs), (slice_contains s _ key k Hs Hd), (slice_shared s _ key k Hs Hd), common_sym, Hc.
  replace (bool_decide (key = k) && leaf) with false.
  2:{ destruct leaf; [|by rewrite andb_false_r]. by rewrite bool_decide_false. }
  replace (bool_decide (k `prefix_of` key) && negb leaf) with false.
  2:{ destruct leaf; [by rewrite andb_false_r|]. by rewrite bool_decide_false. }
  cbn [Z.of_nat Z.eqb negb]. apply runs_bind.
  pose proof (wf_split t leaf k x Ht Hw) as Hws. destruct (split_shape t leaf k x key Ht Hw HU Hc) as (cs & w & Es & HUs & Hnil).
  apply (run_branch t leaf k x); [done..|]. intros d1 K1 Hst1. rewrite Es in *. apply runs_bind.
  eapply runs_lift; [by apply enc_rlp|]. subst g. apply merge_add; [by apply (keeps_plain d)|done..|].
  intros n k' ->. split; [|by apply (HUl n k')]. apply (Hnil n k' eq_refl). destruct Hkey as [Hkey _]. by inversion Hkey.
Qed.

Lemma merge_fork f t leaf k x s key v h inl d : let p := common k key in
  plain d -> two t leaf k x -> wf t -> within U t -> stored d t ->
  denotes s key -> key_ok key -> value_ok v -> v <> [] -> (0 < p)%nat -> leaves leaf k key ->
  wf (rest t p) -> within U (rest t p) -> within U (under (rest t p)) ->
  (forall n k', drop p key = n :: k' -> within U (Leaf k' v)) ->
  wf (add_leaf (split (rest t p)) (drop p key) v) -> within U (add_leaf (split (rest t p)) (drop p key) v) ->
  runs (mergeAt (S (S (S (S (S f))))) (enc t) h s v inl) d
    (fun b d' => b = enc (Ext (take p k) (add_leaf (split (rest t p)) (drop p key) v)) /\
       stored d' (Ext (take p k) (add_leaf (split (rest t p)) (drop p key) v))).
Proof.
  intros p Hf Ht Hw HUt Hst Hs Hkey Hv Hv0 Hp Hlv Hwr HUr HUu HUl Hwa HUa.
  destruct (two_spec t leaf k x Ht Hw) as (E & Hl & Hk & Hx). pose proof (common_le k key) as [Hp1 Hp2]. fold p in Hp1, Hp2.
  pose proof (two_denotes leaf k Hk) as Hd. assert (t <> Nil) as Hn by (by inversion Ht).
  remember (S (S (S (S f)))) as g eqn:Hg. cbn [mergeAt]. rewrite enc_isEmpty by done.
  apply runs_bind. eapply runs_count2; [done|done|]. cbn [Z.eqb Pos.eqb].
  destruct (two_reads t leaf k x Ht Hw) as (Rk & Rl & _).
  apply runs_bind. eapply runs_lift; [exact Rk|]. apply runs_bind. eapply runs_lift; [exact Rl|].
  rewrite (slice_eqb _ s k key Hd Hs), (slice_contains s _ key k Hs Hd), (slice_shared s _ key k Hs Hd), common_sym.
  replace (bool_decide (key = k) && leaf) with false.
  2:{ destruct leaf; [|by rewrite andb_false_r]. by rewrite bool_decide_false. }
  replace (bool_decide (k `prefix_of` key) && negb leaf) with false.
  2:{ destruct leaf; [by rewrite andb_false_r|]. by rewrite bool_decide_false. }
  fold p. replace (negb (Z.of_nat p =? 0)) with true by lia. apply runs_bind.
  apply (run_cleve t leaf k x p); [done|done|done|lia|done|done|done|]. intros d1 K1 Hh1.
  pose proof (keeps_plain _ _ K1 Hf) as Hf1. pose proof (two_rest t leaf k x p Ht) as Htr.
  assert (take p k = take p key) as Etk by apply common_take.
  assert (wf (Ext (take p k) (rest t p))) as Hwe.
  { split; [by apply key_ok_take|]. split; [|split; [done|by inversion Htr]].
    intros E0%(f_equal length). rewrite length_take in E0. simpl in E0. lia. }
  apply runs_bind. eapply runs_lift; [by apply enc_rlp|]. subst g.
  apply (merge_ext _ (take p k) (rest t p) s key v (add_leaf (split (rest t p)) (drop p key) v)); try done.
  - rewrite Etk. apply prefix_take.
  - intros d2 inl2 K2 Hf2 Hh2. rewrite length_take. replace (Nat.min p (length k)) with p by lia.
    apply (merge_fork0 f (rest t p) leaf (drop p k) x).
    + done.
    + done.
    + done.
    + done.
    + apply Hh2.
    + rewrite <- (Nat2Z.id p) at 2. apply slice_mid; [done|lia].
    + by apply key_ok_drop.
    + done.
    + done.
    + apply common_drop.
    + unfold leaves in *. destruct leaf.
      * intros Ed. apply Hlv. rewrite <- (take_drop p key), <- (take_drop p k), Etk, Ed. done.
      * intros [l Ed]. apply Hlv. exists l. rewrite <- (take_drop p key), <- (take_drop p k), <- Etk, Ed, app_assoc. done.
    + done.
    + done.
Qed.

(** ** Insertion as a whole *)
Lemma wf_add cs w key v : wf (Branch cs w) -> key_ok key -> value_ok v -> v <> [] ->
  wf (add_leaf (Branch cs w) key v) /\ add_leaf (Branch cs w) key v <> Nil.
Proof.
  intros (Hl & Hw & Hcs)%wf_branch Hk Hv Hv0. destruct key as [|n key]; (split; [|done]); apply wf_branch.
  - done.
  - unfold set_child. rewrite length_insert. split; [done|]. split; [done|]. apply set_child_Forall; [done|].
    split; [by apply (key_ok_drop 1 (n :: key))|done].
Qed.

Lemma leaves_ext k key : leaves false k key -> (common k key < length k)%nat.
Proof.
  intros H. pose proof (common_le k key) as [H1 _]. destruct (decide (common k key = length k)) as [E|]; [|lia].
  destruct H. by apply common_full.
Qed.

Lemma fork_ok t leaf k x key v : let p := common k key in
  two t leaf k x -> wf t -> leaves leaf k key -> key_ok key -> value_ok v -> v <> [] ->
  wf (rest t p) /\ wf (add_leaf (split (rest t p)) (drop p key) v) /\ add_leaf (split (rest t p)) (drop p key) v <> Nil.
Proof.
  intros p Ht Hw Hlv Hkey Hv Hv0. pose proof (two_rest t leaf k x p Ht) as Htr.
  assert (wf (rest t p)) as Hwr.
  { inversion Ht; subst; simpl in *.
    - destruct Hw as (Hk & ? & ?). split; [by apply key_ok_drop|done].
    - pose proof (leaves_ext k key Hlv) as Hp. fold p in Hp. destruct Hw as (Hk & _ & ? & ?).
      split; [by apply key_ok_drop|]. split; [|done]. intros E%(f_equal length). rewrite length_drop in E. simpl in E. lia. }
  split; [done|]. pose proof (wf_split _ _ _ _ Htr Hwr) as Hws.
  assert (exists cs w, split (rest t p) = Branch cs w) as (cs & w & Es).
  { inversion Htr; subst; simpl.
    - destruct (drop p k); simpl; eauto.
    - rewrite <- H0 in Hwr. destruct (drop p k) eqn:Ed; simpl; [|eauto]. by destruct Hwr as (_ & ? & _). }
  rewrite Es in *. apply wf_add; try done. by apply key_ok_drop.
Qed.

Lemma within_add t leaf k x key v : two t leaf k x -> wf t -> key_ok key -> common k key = 0%nat ->
  within U (add_leaf (split t) key v) ->
  within U (under t) /\ (forall n k', key = n :: k' -> within U (Leaf k' v)).
Proof.
  intros Ht Hw Hkey Hc Ha. destruct (two_spec t leaf k x Ht Hw) as (_ & _ & Hk & _). destruct k as [|b k].
  - assert (under t = Nil) as -> by (by inversion Ht). split; [done|]. intros n k' ->.
    inversion Ht; subst; [|by destruct Hw as (_ & ? & _)]. cbn [split split_leaf add_leaf] in Ha.
    apply within_branch in Ha as [_ Ha]. apply (proj1 (Forall_lookup _ _) Ha (Z.to_nat n)), set_child_at; [|done].
    destruct Hkey as [Hkey _]. by inversion Hkey.
  - rewrite (split_under t leaf b k x Ht) in Ha. assert (is_nibble b) as Hb by (destruct Hk as [Hk _]; by inversion Hk).
    destruct (split_children b (under t) Hb) as [Hlen Hat]. destruct key as [|n key]; cbn [add_leaf] in Ha;
      apply within_branch in Ha as [_ Ha]; rewrite Forall_lookup in Ha.
    + split; [by apply (Ha (Z.to_nat b))|done].
    + pose proof (common_cons _ _ _ _ Hc) as Hne. assert (is_nibble n) as Hn by (destruct Hkey as [Hkey _]; by inversion Hkey).
      split.
      * apply (Ha (Z.to_nat b)). unfold is_nibble in *. rewrite set_child_other by lia. done.
      * intros n' k' [= <- <-]. apply (Ha (Z.to_nat n)). by apply set_child_at.
Qed.

(** [mergeAt] on a node of two items the key leaves. *)
Lemma merge_two f t leaf k x s key v h inl d : let p := common k key in
  let r := ext (take p k) (add_leaf (split (rest t p)) (drop p key) v) in
  plain d -> two t leaf k x -> wf t -> within U t -> stored d t ->
  denotes s key -> key_ok key -> value_ok v -> v <> [] -> leaves leaf k key ->
  within U r -> ((0 < p)%nat -> within U (rest t p)) ->
  runs (mergeAt (S (S (S (S (S f))))) (enc t) h s v inl) d (fun b d' => b = enc r /\ stored d' r).
Proof.
  intros p r Hf Ht Hw HUt Hst Hs Hkey Hv Hv0 Hlv HUr HUrest.
  destruct (fork_ok t leaf k x key v Ht Hw Hlv Hkey Hv Hv0) as (Hwr & Hwa & Hna). fold p in Hwr, Hwa, Hna.
  pose proof (two_rest t leaf k x p Ht) as Htr.
  assert (common (drop p k) (drop p key) = 0%nat) as Hc by apply common_drop.
  assert (within U (add_leaf (split (rest t p)) (drop p key) v)) as HUa.
  { subst r. destruct (take p k); [done|]. apply HUr. }
  destruct (within_add _ _ _ _ _ _ Htr Hwr (key_ok_drop p key Hkey) Hc HUa) as [HUu HUl].
  destruct (decide (p = 0%nat)) as [E|E].
  - subst r. rewrite E in *. cbn [take ext]. rewrite !drop_0 in *.
    assert (rest t 0 = t) as Er by (by inversion Ht; simpl; rewrite drop_0). rewrite Er in *.
    by apply (merge_fork0 _ t leaf k x).
  - assert (take p k <> []) as Htk.
    { pose proof (common_le k key) as [? _]. fold p in H. intros Ek%(f_equal length). rewrite length_take in Ek. simpl in Ek. lia. }
    assert (r = Ext (take p k) (add_leaf (split (rest t p)) (drop p key) v)) as ->.
    { subst r. by destruct (take p k). }
    apply (merge_fork f t leaf k x); try done; [lia|apply HUrest; lia].
Qed.

Lemma nth_child {A} (f : trie -> A) cs n x : is_nibble n -> length cs = 16%nat -> nth (Z.to_nat n) (map f cs) x = f (child cs n).
Proof.
  intros Hn Hl. apply nth_lookup_Some. by rewrite list_lookup_fmap, (child_lookup cs n Hn Hl).
Qed.
Lemma key_head n key : key_ok (n :: key) -> is_nibble n /\ key_ok key.
Proof. intros Hk. split; [|by apply (key_ok_drop 1 (n :: key))]. destruct Hk as [Hk _]. by inversion Hk. Qed.

Lemma wf_tinsert t key v : wf t -> key_ok key -> value_ok v -> v <> [] -> wf (tinsert t key v) /\ tinsert t key v <> Nil.
Proof.
  revert key. induction t as [|k w|k c IH|cs w IH] using trie_ind'; intros key Hw Hk Hv Hv0; cbn [tinsert].
  - done.
  - case_bool_decide as E; [split; [|done]; destruct Hw as (? & _); done|].
    destruct (fork_ok _ _ _ _ key v (two_leaf k w) Hw E Hk Hv Hv0) as (_ & Ha & Hn).
    split; [apply wf_ext; [|done|done]; destruct Hw; by apply key_ok_take|]. by destruct (take _ k).
  - case_bool_decide as E.
    + destruct Hw as (? & ? & Hc & _). destruct (IH (drop (length k) key) Hc) as [? ?]; auto. split; [by split|done].
    + destruct (fork_ok _ _ _ _ key v (two_ext k c) Hw E Hk Hv Hv0) as (_ & Ha & Hn).
      split; [apply wf_ext; [|done|done]; destruct Hw; by apply key_ok_take|]. by destruct (take _ k).
  - apply wf_branch in Hw as (Hl & Hw & Hcs). destruct key as [|n key]; (split; [|done]); apply wf_branch; [done|].
    apply key_head in Hk as [Hn Hk]. rewrite nth_child by done. unfold set_child. rewrite length_insert.
    split; [done|]. split; [done|]. apply set_child_Forall; [done|].
    pose proof (child_lookup cs n Hn Hl) as Hc. rewrite Forall_lookup in IH, Hcs. apply (IH _ _ Hc); eauto.
Qed.

Lemma merge_correct t : forall f s key v h inl d, plain d -> wf t -> within U t -> stored d t ->
  denotes s key -> key_ok key -> value_ok v -> v <> [] ->
  within U (tinsert t key v) -> Forall (within U) (tmp_insert t key) -> (length key + 5 <= f)%nat ->
  runs (mergeAt f (enc t) h s v inl) d (fun b d' => b = enc (tinsert t key v) /\ stored d' (tinsert t key v)).
Proof.
  induction t as [|k w|k c IH|cs w IH] using trie_ind'; intros f s key v h inl d Hf Hw HU Hst Hs Hk Hv Hv0 HUr HUt Hfuel.
  all: destruct f as [|f]; [lia|].
  - by apply merge_nil.
  - cbn [tinsert tmp_insert] in *. case_bool_decide as E.
    + subst key. destruct (two_reads _ _ _ _ (two_leaf k w) Hw) as (Rk & Rl & _).
      pose proof (two_denotes true k Hk) as Hd. cbn [mergeAt]. rewrite enc_isEmpty by done.
      apply runs_bind. eapply runs_count2; [apply two_leaf|done|]. cbn [Z.eqb Pos.eqb].
      apply runs_bind. eapply runs_lift; [exact Rk|]. apply runs_bind. eapply runs_lift; [exact Rl|].
      rewrite (slice_eqb _ s k k Hd Hs), bool_decide_true by done. cbn [andb]. by apply run_place_leaf.
    + do 4 (destruct f as [|f]; [lia|]). apply (merge_two f _ _ _ _ s key v h inl d Hf (two_leaf k w)); try done.
      intros Hp. destruct (Nat.eqb_spec (common k key) 0) as [|]; [lia|]. by inversion HUt.
  - cbn [tinsert tmp_insert] in *. case_bool_decide as E.
    + destruct HUr as [_ HUr]. destruct (wf_tinsert c (drop (length k) key) v) as [Hw' _]; auto; [apply Hw|].
      apply merge_ext with (k' := key); try done; [apply HU|].
      intros d1 inl1 K1 Hf1 Hh1. apply IH; auto; [apply Hw|apply HU|apply Hh1| |].
      * rewrite <- (Nat2Z.id (length k)) at 2. apply slice_mid; [done|]. apply prefix_length in E. lia.
      * destruct Hw as (_ & Hne & _). destruct k; [done|]. rewrite length_drop. apply prefix_length in E. simpl in *. lia.
    + do 4 (destruct f as [|f]; [lia|]). apply (merge_two f _ _ _ _ s key v h inl d Hf (two_ext k c)); try done.
      intros Hp. destruct (Nat.eqb_spec (common k key) 0) as [|]; [lia|]. by inversion HUt.
  - destruct key as [|n key].
    + cbn [mergeAt tinsert]. rewrite enc_isEmpty by done. apply runs_bind, runs_count17; [done|]. cbn [Z.eqb Pos.eqb].
      rewrite (slice_size s _ Hs). cbn [length Z.of_nat Z.eqb]. apply run_place_branch; [done|done|done|].
      intros d' K. split; [done|]. apply within_branch in HU as [_ HU]. apply stored_branch in Hst. apply stored_branch.
      rewrite Forall_lookup in *. intros j c Hc. apply (held_keeps U d d'); eauto.
    + apply key_head in Hk as [Hn Hk]. pose proof Hw as (Hl & _ & Hcs)%wf_branch. apply within_branch in HU as [_ HU].
      cbn [tinsert tmp_insert] in *. rewrite (nth_child tinsert) in * by done. rewrite (nth_child tmp_insert) in HUt by done.
      apply within_branch in HUr as [_ HUr].
      pose proof (proj1 (Forall_lookup _ _) HUr _ _ (set_child_at cs n _ Hn Hl)) as HUc.
      pose proof (child_lookup cs n Hn Hl) as Hc. rewrite Forall_lookup in IH.
      destruct (wf_tinsert (child cs n) key v) as [Hw' _]; auto; [by apply child_wf|].
      apply merge_branch with (k := key); try done. intros d1 inl1 K1 Hf1 Hh1. apply (IH _ _ Hc); auto.
      * by apply child_wf.
      * by apply (proj1 (Forall_lookup _ _) HU _ _ Hc).
      * apply Hh1.
      * apply (slice_mid s _ Hs 1). simpl length. lia.
      * simpl in Hfuel. lia.
Qed.
End Run.
