(* ===== verification/ScTrieMap.v ===== *)
(** * Tries as maps

    Insertion and deletion on [trie] change the one key they are given, keep
    the canonical form (no chain of extensions, no branch with one use), and a
    canonical trie is determined by the map it stands for. *)

From S2P Require Import Prelude ScFixedHash ScSha3 ScRlp ScRlpWrite ScRlpRead ScRlpFields ScDb ScTrie ScTrieKeys ScTrieSpec ScTrieNode ScTrieInsert.
From Stdlib Require Import ZifyBool.
Local Opaque sha3 encode.

Lemma if_ext {A} P Q `{Decision P, Decision Q} (a b : A) : (P <-> Q) ->
  (if bool_decide P then a else b) = (if bool_decide Q then a else b).
Proof. intros E. by rewrite (bool_decide_ext P Q E). Qed.

(** ** Prefixes *)
Lemma prefix_drop (p key : list Z) : p `prefix_of` key -> key = p ++ drop (length p) key.
Proof. intros [l ->]. by rewrite drop_app_length. Qed.
Lemma prefix_take_drop (k key : list Z) (p : nat) : (p <= length k)%nat ->
  k `prefix_of` key <-> take p k `prefix_of` key /\ drop p k `prefix_of` drop p key.
Proof.
  intros Hp. split.
  - intros [l ->]. split; [exists (drop p k ++ l); by rewrite app_assoc, take_drop|].
    exists l. rewrite drop_app_le by done. done.
  - intros [H1 [l H2]]. exists l. rewrite (prefix_drop _ _ H1), length_take, Nat.min_l, H2, app_assoc, take_drop by done. done.
Qed.

(** ** Lookup in the parts *)
Lemma tget_ext p c key : tget (ext p c) key = if bool_decide (p `prefix_of` key) then tget c (drop (length p) key) else None.
Proof. destruct p as [|n p]; [|done]. rewrite bool_decide_true by apply prefix_nil. done. Qed.

Lemma tget_branch cs v n key : is_nibble n -> length cs = 16%nat -> tget (Branch cs v) (n :: key) = tget (child cs n) key.
Proof. intros Hn Hl. cbn [tget]. by rewrite nth_child. Qed.

Lemma tget_rest t leaf k x p key : two t leaf k x -> (p <= length k)%nat ->
  tget t key = if bool_decide (take p k `prefix_of` key) then tget (rest t p) (drop p key) else None.
Proof.
  intros Ht Hp. inversion Ht; subst; cbn [tget rest].
  - destruct (decide (take p k `prefix_of` key)) as [Hpre|Hpre].
    + rewrite (bool_decide_true (take p k `prefix_of` key)) by done.
      pose proof (prefix_drop _ _ Hpre) as Ek. rewrite length_take, Nat.min_l in Ek by done.
      apply if_ext. split; [by intros ->|]. intros E. rewrite Ek, E, take_drop. done.
    + rewrite (bool_decide_false (take p k `prefix_of` key)) by done. rewrite bool_decide_false; [done|].
      intros ->. apply Hpre. apply prefix_take.
  - rewrite length_drop, drop_drop. replace (p + (length k - p))%nat with (length k) by lia.
    pose proof (prefix_take_drop k key p Hp) as H.
    destruct (decide (take p k `prefix_of` key)); destruct (decide (drop p k `prefix_of` drop p key));
      rewrite ?(bool_decide_true (take p k `prefix_of` key)), ?(bool_decide_false (take p k `prefix_of` key)),
        ?(bool_decide_true (drop p k `prefix_of` drop p key)), ?(bool_decide_false (drop p k `prefix_of` drop p key)) by done;
      first [rewrite bool_decide_true by tauto; done|rewrite bool_decide_false by tauto; done].
Qed.

Lemma child_nils n : child nils n = Nil.
Proof. unfold child. rewrite nth_lookup. destruct (nils !! Z.to_nat n) eqn:E; [|done]. by apply nils_lookup in E. Qed.
Lemma child_set cs n m c : is_nibble n -> is_nibble m -> length cs = 16%nat ->
  child (set_child cs n c) m = if n =? m then c else child cs m.
Proof.
  unfold is_nibble. intros Hn Hm Hl. unfold child, set_child. rewrite !nth_lookup. destruct (Z.eqb_spec n m) as [->|].
  - by rewrite list_lookup_insert_eq by lia.
  - by rewrite list_lookup_insert_ne by lia.
Qed.

Lemma tget_split t leaf k x key : two t leaf k x -> wf t -> Forall is_nibble key -> tget (split t) key = tget t key.
Proof.
  intros Ht Hw Hkey. destruct (two_spec t leaf k x Ht Hw) as (_ & _ & Hk & _). destruct k as [|b k].
  - inversion Ht; subst; [|by destruct Hw as (_ & ? & _)]. destruct Hw as (_ & _ & Hv). destruct key as [|n key].
    + cbn [split split_leaf tget]. by rewrite (bool_decide_false (v = [])).
    + inversion Hkey; subst. cbn [split split_leaf]. rewrite tget_branch, child_nils by done. done.
  - rewrite (split_under t leaf b k x Ht). apply key_head in Hk as [Hb Hk]. destruct key as [|n key].
    + inversion Ht; subst; cbn [tget]; rewrite bool_decide_true by done; rewrite bool_decide_false; try done.
      by intros ?%prefix_nil_inv.
    + inversion Hkey as [|? ? Hn Hkey']; subst. rewrite tget_branch by (try done; unfold set_child; by rewrite length_insert).
      rewrite child_set, child_nils by done. inversion Ht; subst; cbn [under].
      * cbn [tget]. destruct (Z.eqb_spec b n) as [->|Hne]; [|by rewrite bool_decide_false by congruence].
        apply if_ext. split; [by intros ->|by intros [= ->]].
      * cbn [tget]. destruct (Z.eqb_spec b n) as [->|Hne].
        -- rewrite tget_ext. cbn [length drop]. apply if_ext.
           split; [by intros [l ->]; exists l|]. by intros [l [= ->]]; exists l.
        -- rewrite bool_decide_false; [done|]. by intros [l [= -> _]].
Qed.

Lemma tget_add cs w k v key : wf (Branch cs w) -> key_ok k -> Forall is_nibble key -> v <> [] ->
  (forall n k', k = n :: k' -> child cs n = Nil) ->
  tget (add_leaf (Branch cs w) k v) key = if bool_decide (key = k) then Some v else tget (Branch cs w) key.
Proof.
  intros (Hl & _)%wf_branch Hk Hkey Hv Hn. destruct k as [|n k]; cbn [add_leaf].
  - destruct key; [|done]. cbn [tget]. by rewrite (bool_decide_false (v = [])).
  - apply key_head in Hk as [Hnn Hk]. destruct key as [|m key]; [done|]. inversion Hkey; subst.
    rewrite !tget_branch by (try done; unfold set_child; by rewrite length_insert). rewrite child_set by done.
    destruct (Z.eqb_spec n m) as [->|Hne]; [|by rewrite bool_decide_false by congruence].
    rewrite (Hn m k eq_refl). cbn [tget]. apply if_ext. split; [by intros ->|by intros [= ->]].
Qed.

(** ** Insertion *)
Lemma fork_shape t leaf k x key : let p := common k key in two t leaf k x -> wf t -> wf (rest t p) -> key_ok key ->
  exists cs w, split (rest t p) = Branch cs w /\ (forall n k', drop p key = n :: k' -> child cs n = Nil).
Proof.
  intros p Ht Hw Hwr Hkey. destruct (split_shape (fun _ => True) (rest t p) leaf (drop p k) x (drop p key)) as (cs & w & E & _ & Hn).
  - by apply two_rest.
  - done.
  - assert (forall u, within (fun _ => True) u) as H.
    { induction u as [| |? ? IH|cs v IH] using trie_ind'; try done. by apply within_branch. }
    apply H.
  - apply common_drop.
  - exists cs, w. split; [done|]. intros n k' E'. apply (Hn n k' E').
    pose proof (key_ok_drop p key Hkey) as H. rewrite E' in H. by apply key_head in H as [? _].
Qed.

Lemma tget_fork t leaf k x key v key' : let p := common k key in
  two t leaf k x -> wf t -> leaves leaf k key -> key_ok key -> value_ok v -> v <> [] -> Forall is_nibble key' ->
  tget (ext (take p k) (add_leaf (split (rest t p)) (drop p key) v)) key'
  = if bool_decide (key' = key) then Some v else tget t key'.
Proof.
  intros p Ht Hw Hlv Hkey Hv Hv0 Hk'. destruct (fork_ok t leaf k x key v Ht Hw Hlv Hkey Hv Hv0) as (Hwr & _). fold p in Hwr.
  destruct (fork_shape t leaf k x key Ht Hw Hwr Hkey) as (cs & w & Es & Hn). fold p in Es, Hn.
  pose proof (common_le k key) as [Hp Hp']. fold p in Hp, Hp'.
  assert (wf (Branch cs w)) as Hwb by (rewrite <- Es; eapply wf_split; [by apply two_rest|done]).
  rewrite tget_ext, (tget_rest t leaf k x p) by done. rewrite length_take, Nat.min_l by done.
  rewrite Es, tget_add; [|done|by apply key_ok_drop|by apply Forall_drop|done|done].
  rewrite <- Es, (tget_split _ _ _ _ _ (two_rest t leaf k x p Ht) Hwr) by (by apply Forall_drop).
  assert (take p k = take p key) as Etk by apply common_take. rewrite Etk.
  destruct (decide (take p key `prefix_of` key')) as [Hpre|Hpre].
  - rewrite (bool_decide_true (take p key `prefix_of` key')) by done.
    pose proof (prefix_drop _ _ Hpre) as Ek. rewrite length_take, Nat.min_l in Ek by done.
    replace (bool_decide (drop p key' = drop p key)) with (bool_decide (key' = key)); [done|].
    apply bool_decide_ext. split; [by intros ->|]. intros E. by rewrite Ek, E, take_drop.
  - rewrite (bool_decide_false (take p key `prefix_of` key')) by done. rewrite bool_decide_false; [done|].
    intros ->. apply Hpre, prefix_take.
Qed.

Lemma tget_tinsert t key v key' : wf t -> key_ok key -> value_ok v -> v <> [] -> Forall is_nibble key' ->
  tget (tinsert t key v) key' = if bool_decide (key' = key) then Some v else tget t key'.
Proof.
  revert key key'. induction t as [|k w|k c IH|cs w IH] using trie_ind'; intros key key' Hw Hk Hv Hv0 Hk'; cbn [tinsert].
  - done.
  - case_bool_decide as E; [subst k; cbn [tget]; by case_bool_decide|]. by apply (tget_fork _ _ _ _ _ _ _ (two_leaf k w)).
  - case_bool_decide as E; [|by apply (tget_fork _ _ _ _ _ _ _ (two_ext k c))].
    cbn [tget]. destruct (decide (k `prefix_of` key')) as [E'|E'].
    + rewrite !(bool_decide_true (k `prefix_of` key')) by done. rewrite IH; [|apply Hw|by apply key_ok_drop|done|done|by apply Forall_drop].
      replace (bool_decide (key' = key)) with (bool_decide (drop (length k) key' = drop (length k) key)); [done|].
      apply bool_decide_ext. split; [|by intros ->]. intros Ed. by rewrite (prefix_drop _ _ E), (prefix_drop _ _ E'), Ed.
    + rewrite !(bool_decide_false (k `prefix_of` key')) by done. by rewrite bool_decide_false by (by intros ->).
  - pose proof Hw as (Hl & _ & Hcs)%wf_branch. destruct key as [|n key].
    + destruct key'; [|done]. cbn [tget]. by rewrite (bool_decide_false (v = [])).
    + apply key_head in Hk as [Hn Hk]. rewrite nth_child by done. destruct key' as [|m key']; [done|].
      inversion Hk' as [|? ? Hm Hk'']; subst. rewrite !tget_branch by (try done; unfold set_child; by rewrite length_insert).
      rewrite child_set by done. destruct (Z.eqb_spec n m) as [->|Hne]; [|by rewrite bool_decide_false by congruence].
      pose proof (child_lookup cs m Hm Hl) as Hc. rewrite Forall_lookup in IH. rewrite (IH _ _ Hc); auto; [|by apply child_wf].
      replace (bool_decide (m :: key' = m :: key)) with (bool_decide (key' = key)); [done|].
      apply bool_decide_ext. split; [by intros ->|by intros [= ->]].
Qed.

(** ** The canonical form *)
Definition is_branch (t : trie) : bool := match t with Branch _ _ => true | _ => false end.
Definition is_nil (t : trie) : bool := match t with Nil => true | _ => false end.
(** The uses of a branch: its children, and its value. *)
Definition uses (cs : list trie) (v : bytes) : nat :=
  (length (List.filter (fun c => negb (is_nil c)) cs) + if bool_decide (v = []) then 0 else 1)%nat.
Fixpoint canonical (t : trie) : Prop :=
  match t with
  | Nil | Leaf _ _ => True
  | Ext _ c => is_branch c = true /\ canonical c
  | Branch cs v => (2 <= uses cs v)%nat /\ fold_right (fun c => and (canonical c)) True cs
  end.
Lemma canonical_branch cs v : canonical (Branch cs v) <-> (2 <= uses cs v)%nat /\ Forall canonical cs.
Proof.
  cbn [canonical]. enough (fold_right (fun c => and (canonical c)) True cs <-> Forall canonical cs) as -> by done.
  induction cs as [|c cs IH]; simpl; [by split; constructor|]. by rewrite IH, Forall_cons_iff.
Qed.

(** Setting a child that was not in use. *)
Lemma filter_insert (cs : list trie) i c : cs !! i = Some Nil -> is_nil c = false ->
  length (List.filter (fun c => negb (is_nil c)) (<[i := c]> cs)) = S (length (List.filter (fun c => negb (is_nil c)) cs)).
Proof.
  revert i. induction cs as [|x cs IH]; intros [|i] Hi Hc; simpl in *; try done.
  - injection Hi as ->. by rewrite Hc.
  - destruct (negb (is_nil x)); simpl; by rewrite IH.
Qed.
Lemma filter_replace (cs : list trie) i c x : cs !! i = Some x -> is_nil x = false -> is_nil c = false ->
  length (List.filter (fun c => negb (is_nil c)) (<[i := c]> cs)) = length (List.filter (fun c => negb (is_nil c)) cs).
Proof.
  revert i. induction cs as [|y cs IH]; intros [|i] Hi Hx Hc; simpl in *; try done.
  - injection Hi as ->. by rewrite Hc, Hx.
  - destruct (negb (is_nil y)); simpl; by rewrite IH.
Qed.
Lemma filter_nils : length (List.filter (fun c => negb (is_nil c)) nils) = 0%nat.
Proof. done. Qed.
Lemma is_nil_false c : c <> Nil -> is_nil c = false.
Proof. by destruct c. Qed.

Lemma canonical_nils : Forall canonical nils.
Proof. by repeat constructor. Qed.

Lemma canonical_fork t leaf k x key v : let p := common k key in
  two t leaf k x -> wf t -> canonical t -> leaves leaf k key -> key_ok key -> value_ok v -> v <> [] ->
  canonical (ext (take p k) (add_leaf (split (rest t p)) (drop p key) v)).
Proof.
  intros p Ht Hw Hcan Hlv Hkey Hv Hv0. destruct (fork_ok t leaf k x key v Ht Hw Hlv Hkey Hv Hv0) as (Hwr & _). fold p in Hwr.
  pose proof (two_rest t leaf k x p Ht) as Htr. pose proof (common_drop k key) as Hc. fold p in Hc.
  enough (canonical (add_leaf (split (rest t p)) (drop p key) v) /\ is_branch (add_leaf (split (rest t p)) (drop p key) v) = true)
    as [H1 H2]. { destruct (take p k); [done|]. by split. }
  pose proof (key_ok_drop p key Hkey) as Hkd. destruct (two_spec _ _ _ _ Htr Hwr) as (_ & _ & Hkr & _).
  destruct (drop p k) as [|b k'] eqn:Ek.
  - assert (exists w, rest t p = Leaf [] w /\ w <> []) as (w & Er & Hw0).
    { inversion Ht; subst; simpl in *; rewrite Ek in *.
      - exists v0. split; [done|]. by destruct Hw as (_ & _ & ?).
      - by destruct Hwr as (_ & ? & _). }
    rewrite Er. destruct (drop p key) as [|n k2] eqn:Ed.
    + exfalso. unfold leaves in Hlv. inversion Ht; subst; [|done]. apply Hlv.
      rewrite <- (take_drop p key), <- (take_drop p k), Ed, Ek. f_equal. symmetry. apply common_take.
    + apply key_head in Hkd as [Hn _]. unfold is_nibble in Hn. split; [|done]. apply canonical_branch.
      split; [|apply set_child_Forall; [apply canonical_nils|done]]. unfold uses. rewrite (bool_decide_false (w = [])) by done.
      unfold set_child. rewrite filter_insert; [rewrite filter_nils; lia| |done]. apply lookup_replicate. split; [done|lia].
  - apply key_head in Hkr as [Hb _]. rewrite (split_under _ _ _ _ _ Htr).
    assert (canonical (under (rest t p)) /\ under (rest t p) <> Nil) as [Hcu Hnu].
    { inversion Ht; subst; simpl in *; rewrite Ek; simpl; [done|]. destruct Hcan as [Hbr Hcc].
      split; [destruct k'; [done|by split]|]. destruct k'; [|done]. by destruct c. }
    assert (length (List.filter (fun c => negb (is_nil c)) (set_child nils b (under (rest t p)))) = 1%nat) as H1.
    { unfold set_child. rewrite filter_insert; [done|apply lookup_replicate; unfold is_nibble in Hb; split; [done|lia]|by apply is_nil_false]. }
    assert (Forall canonical (set_child nils b (under (rest t p)))) as HF by (apply set_child_Forall; [apply canonical_nils|done]).
    destruct (drop p key) as [|n k2] eqn:Ed; cbn [add_leaf]; (split; [|done]); apply canonical_branch.
    + split; [|done]. unfold uses. rewrite H1, bool_decide_false by done. lia.
    + apply key_head in Hkd as [Hn _]. pose proof (common_cons _ _ _ _ Hc) as Hne. split; [|by apply set_child_Forall].
      unfold uses. unfold set_child at 1. rewrite filter_insert; [rewrite H1; lia| |done].
      unfold is_nibble in *. unfold set_child. rewrite list_lookup_insert_ne by lia. apply lookup_replicate. split; [done|lia].
Qed.

Lemma tinsert_branch t key v : is_branch t = true -> is_branch (tinsert t key v) = true.
Proof. destruct t; try done. by destruct key. Qed.

Lemma canonical_tinsert t key v : wf t -> canonical t -> key_ok key -> value_ok v -> v <> [] -> canonical (tinsert t key v).
Proof.
  revert key. induction t as [|k w|k c IH|cs w IH] using trie_ind'; intros key Hw Hc Hk Hv Hv0; cbn [tinsert].
  - done.
  - case_bool_decide as E; [done|]. by apply (canonical_fork _ _ _ _ _ _ (two_leaf k w)).
  - case_bool_decide as E; [|by apply (canonical_fork _ _ _ _ _ _ (two_ext k c))].
    destruct Hc as [Hb Hc]. split; [by apply tinsert_branch|]. apply IH; try done; [apply Hw|by apply key_ok_drop].
  - apply canonical_branch in Hc as [Hu Hc]. apply wf_branch in Hw as (Hl & Hw & Hcs). destruct key as [|n key]; apply canonical_branch.
    + split; [|done]. unfold uses in *. rewrite bool_decide_false by done. case_bool_decide; lia.
    + apply key_head in Hk as [Hn Hk]. rewrite nth_child by done. pose proof (child_lookup cs n Hn Hl) as Hat.
      rewrite Forall_lookup in IH. assert (wf (child cs n)) as Hwc by (by apply child_wf).
      destruct (wf_tinsert (child cs n) key v) as [_ Hnn]; try done. split.
      * unfold uses, set_child in *. destruct (is_nil (child cs n)) eqn:En.
        -- rewrite filter_insert; [lia| |by apply is_nil_false]. rewrite Hat. by destruct (child cs n).
        -- by rewrite (filter_replace cs _ _ _ Hat En) by (by apply is_nil_false).
      * apply set_child_Forall; [done|]. apply (IH _ _ Hat); try done. rewrite Forall_lookup in Hc. eauto.
Qed.

(** ** A canonical trie is determined by its map *)
Lemma filter_some {A} (f : A -> bool) l : (1 <= length (List.filter f l))%nat -> exists i x, l !! i = Some x /\ f x = true.
Proof.
  induction l as [|y l IH]; simpl; [lia|]. destruct (f y) eqn:E; [by exists 0%nat, y|].
  intros H. destruct (IH H) as (i & x & ? & ?). by exists (S i), x.
Qed.
Lemma filter_other {A} (f : A -> bool) l n : (2 <= length (List.filter f l))%nat ->
  exists i x, i <> n /\ l !! i = Some x /\ f x = true.
Proof.
  revert n. induction l as [|y l IH]; intros n; simpl; [lia|]. destruct (f y) eqn:E; simpl; intros H.
  - destruct n as [|n]; [|by exists 0%nat, y]. destruct (filter_some f l) as (i & x & ? & ?); [lia|]. by exists (S i), x.
  - destruct (IH (pred n) H) as (i & x & Hi & ? & ?). destruct n as [|n]; [by exists (S i), x|].
    exists (S i), x. split; [simpl in Hi; lia|done].
Qed.

Lemma child_nibble cs i c : length cs = 16%nat -> cs !! i = Some c -> is_nibble (Z.of_nat i) /\ child cs (Z.of_nat i) = c.
Proof.
  intros Hl Hi. split; [apply lookup_lt_Some in Hi; unfold is_nibble; lia|].
  unfold child. rewrite Nat2Z.id. by apply nth_lookup_Some.
Qed.

Lemma tget_some t : wf t -> canonical t -> t <> Nil -> exists key v, Forall is_nibble key /\ tget t key = Some v.
Proof.
  induction t as [|k w|k c IH|cs w IH] using trie_ind'; intros Hw Hc Hn; [done| | |].
  - exists k, w. destruct Hw as ([? _] & _). split; [done|]. cbn [tget]. by rewrite bool_decide_true.
  - destruct Hw as ([? _] & _ & Hwc & Hnc). destruct Hc as [_ Hc]. destruct (IH Hwc Hc Hnc) as (key & v & ? & E).
    exists (k ++ key), v. split; [by apply Forall_app|]. cbn [tget].
    rewrite bool_decide_true by (by exists key). by rewrite drop_app_length.
  - apply wf_branch in Hw as (Hl & _ & Hcs). apply canonical_branch in Hc as [Hu Hc]. unfold uses in Hu.
    destruct (decide (w = [])) as [->|Hw0].
    + rewrite bool_decide_true in Hu by done. destruct (filter_some _ _ (ltac:(lia) : (1 <= length (List.filter (fun c => negb (is_nil c)) cs))%nat)) as (i & c & Hi & Hni).
      destruct (child_nibble cs i c Hl Hi) as [Hin Hci]. rewrite Forall_lookup in IH, Hcs, Hc.
      destruct (IH i c Hi) as (key & v & Hk & E); eauto. { by intros ->. }
      exists (Z.of_nat i :: key), v. split; [by constructor|]. rewrite tget_branch by done. by rewrite Hci.
    + exists [], w. split; [constructor|]. cbn [tget]. by rewrite bool_decide_false.
Qed.

(** The keys of a branch do not all start with the same nibble. *)
Lemma branch_diverges cs w n : wf (Branch cs w) -> canonical (Branch cs w) ->
  exists key v, Forall is_nibble key /\ tget (Branch cs w) key = Some v /\ forall key', key <> n :: key'.
Proof.
  intros (Hl & _ & Hcs)%wf_branch [Hu Hc]%canonical_branch. unfold uses in Hu. destruct (decide (w = [])) as [->|Hw0].
  - rewrite bool_decide_true in Hu by done.
    destruct (filter_other (fun c => negb (is_nil c)) cs (Z.to_nat n)) as (i & c & Hin & Hi & Hni); [lia|].
    destruct (child_nibble cs i c Hl Hi) as [Hnib Hci]. rewrite Forall_lookup in Hcs, Hc.
    destruct (tget_some c) as (key & v & Hk & E); [eauto|eauto|by intros ->|].
    exists (Z.of_nat i :: key), v. split; [by constructor|]. rewrite tget_branch by done. rewrite Hci. split; [done|].
    intros key' [= <- _]. lia.
  - exists [], w. split; [constructor|]. cbn [tget]. by rewrite bool_decide_false.
Qed.

Lemma tget_prefix k c key v : tget (Ext k c) key = Some v -> k `prefix_of` key.
Proof. cbn [tget]. by case_bool_decide. Qed.

Definition same (t1 t2 : trie) : Prop := forall key, Forall is_nibble key -> tget t1 key = tget t2 key.

(** A canonical trie with all keys below a nibble is not a branch. *)
Lemma prefix_extends k1 k2 c1 c2 : wf (Ext k1 c1) -> wf (Ext k2 c2) -> canonical (Ext k1 c1) -> same (Ext k1 c1) (Ext k2 c2) ->
  k2 `prefix_of` k1.
Proof.
  intros Hw1 Hw2 [Hb1 Hc1] Hs. destruct Hw1 as ([Hk1 _] & _ & Hwc & _). destruct c1 as [| | |cs w]; try done.
  assert (forall key v, Forall is_nibble key -> tget (Branch cs w) key = Some v -> k2 `prefix_of` k1 ++ key) as Hpre.
  { intros key v Hkey E. apply (tget_prefix k2 c2 _ v). rewrite <- Hs by (by apply Forall_app).
    cbn [tget]. rewrite bool_decide_true by (by exists key). by rewrite drop_app_length. }
  destruct (branch_diverges cs w 0 Hwc Hc1) as (key0 & v0 & Hk0 & E0 & _).
  destruct (prefix_weak_total k1 k2 (k1 ++ key0)) as [[l El]|H]; [by exists key0|by apply (Hpre key0 v0)| |done].
  destruct l as [|n l]; [rewrite El, app_nil_r; done|exfalso].
  destruct (branch_diverges cs w n Hwc Hc1) as (key & v & Hk & E & Hn).
  destruct (Hpre key v Hk E) as [l' E']. rewrite El, <- app_assoc in E'. apply app_inv_head in E'. by apply (Hn (l ++ l')).
Qed.

Lemma leaf_single k w t : wf (Leaf k w) -> wf t -> canonical t -> same (Leaf k w) t -> t = Leaf k w.
Proof.
  intros Hwl Hw Hc Hs. assert (Forall is_nibble k) as Hk by (by destruct Hwl as ([? _] & _)).
  assert (forall key v, Forall is_nibble key -> tget t key = Some v -> key = k /\ v = w) as Honly.
  { intros key v Hkey E. rewrite <- Hs in E by done. cbn [tget] in E. case_bool_decide; [|done]. by injection E as <-. }
  assert (tget t k = Some w) as Hin by (rewrite <- Hs by done; cbn [tget]; by rewrite bool_decide_true).
  assert (forall cs v p, Forall is_nibble p -> wf (Branch cs v) -> canonical (Branch cs v) ->
    (forall key x, Forall is_nibble key -> tget (Branch cs v) key = Some x -> p ++ key = k) -> False) as Hno.
  { intros cs v p Hp Hwb Hcb Hall. destruct (branch_diverges cs v 0 Hwb Hcb) as (k1 & v1 & Hk1 & E1 & Hn1).
    destruct k1 as [|m k1].
    - destruct (branch_diverges cs v (-1) Hwb Hcb) as (k2 & v2 & Hk2 & E2 & _).
      apply canonical_branch in Hcb as [Hu Hcc]. unfold uses in Hu. apply wf_branch in Hwb as (Hl & _ & Hcs).
      destruct (filter_some (fun c => negb (is_nil c)) cs) as (i & c & Hi & Hni); [case_bool_decide; lia|].
      destruct (child_nibble cs i c Hl Hi) as [Hnib Hci]. rewrite Forall_lookup in Hcs, Hcc.
      destruct (tget_some c) as (k3 & v3 & Hk3 & E3); [eauto|eauto|by intros ->|].
      pose proof (Hall [] v1 Hk1 E1) as A1.
      pose proof (Hall (Z.of_nat i :: k3) v3 ltac:(by constructor) ltac:(by rewrite tget_branch, Hci)) as A2.
      rewrite <- A1 in A2. apply app_inv_head in A2. done.
    - destruct (branch_diverges cs v m Hwb Hcb) as (k2 & v2 & Hk2 & E2 & Hn2).
      pose proof (Hall _ _ Hk1 E1) as A1. pose proof (Hall _ _ Hk2 E2) as A2. rewrite <- A1 in A2. apply app_inv_head in A2.
      by apply (Hn2 k1). }
  destruct t as [|k' w'|k' c|cs v]; [done| | |].
  - cbn [tget] in Hin. case_bool_decide as E; [|done]. injection Hin as ->. by rewrite E.
  - exfalso. destruct Hc as [Hb Hc]. destruct Hw as ([Hk' _] & _ & Hwc & _). destruct c as [| | |cs v]; try done.
    apply (Hno cs v k'); try done. intros key x Hkey E. apply (Honly (k' ++ key) x); [by apply Forall_app|].
    cbn [tget]. rewrite bool_decide_true by (by exists key). by rewrite drop_app_length.
  - exfalso. apply (Hno cs v []); try done. intros key x Hkey E. by apply (Honly key x).
Qed.

Lemma canonical_unique t1 t2 : wf t1 -> wf t2 -> canonical t1 -> canonical t2 -> same t1 t2 -> t1 = t2.
Proof.
  revert t2. induction t1 as [|k w|k c IH|cs w IH] using trie_ind'; intros t2 Hw1 Hw2 Hc1 Hc2 Hs.
  - destruct (decide (t2 = Nil)) as [->|Hn]; [done|]. destruct (tget_some t2) as (key & v & Hk & E); try done.
    rewrite <- Hs in E by done. done.
  - symmetry. by apply leaf_single.
  - destruct t2 as [|k2 w2|k2 c2|cs2 w2].
    + destruct (tget_some (Ext k c)) as (key & v & Hk & E); try done. by rewrite Hs in E.
    + apply leaf_single; try done. intros key Hk. symmetry. by apply Hs.
    + assert (same (Ext k2 c2) (Ext k c)) as Hs' by (intros key Hk; symmetry; by apply Hs).
      assert (k = k2) as <-.
      { apply (anti_symm prefix); [by eapply prefix_extends|by eapply prefix_extends]. }
      f_equal. apply IH; [apply Hw1|apply Hw2|apply Hc1|apply Hc2|]. intros key Hk.
      specialize (Hs (k ++ key)). cbn [tget] in Hs. rewrite bool_decide_true in Hs by (by exists key).
      rewrite drop_app_length in Hs. apply Hs. apply Forall_app. split; [|done]. apply Hw1.
    + exfalso. destruct k as [|n k]; [by destruct Hw1 as (_ & ? & _)|].
      destruct (branch_diverges cs2 w2 n Hw2 Hc2) as (key & v & Hk & E & Hn). rewrite <- Hs in E by done.
      apply tget_prefix in E as [l ->]. by apply (Hn (k ++ l)).
  - destruct t2 as [|k2 w2|k2 c2|cs2 w2].
    + destruct (tget_some (Branch cs w)) as (key & v & Hk & E); try done. by rewrite Hs in E.
    + apply leaf_single; try done. intros key Hk. symmetry. by apply Hs.
    + exfalso. destruct k2 as [|n k]; [by destruct Hw2 as (_ & ? & _)|].
      destruct (branch_diverges cs w n Hw1 Hc1) as (key & v & Hk & E & Hn). rewrite Hs in E by done.
      apply tget_prefix in E as [l ->]. by apply (Hn (k ++ l)).
    + apply wf_branch in Hw1 as (Hl1 & _ & Hcs1), Hw2 as (Hl2 & _ & Hcs2).
      apply canonical_branch in Hc1 as [_ Hc1], Hc2 as [_ Hc2]. f_equal.
      * apply list_eq_same_length with 16%nat; try done. intros i x y Hi Hx Hy.
        destruct (child_nibble cs i x Hl1 Hx) as [Hn1 E1], (child_nibble cs2 i y Hl2 Hy) as [_ E2].
        rewrite Forall_lookup in IH, Hcs1, Hcs2, Hc1, Hc2. apply (IH i x Hx); eauto. intros key Hk.
        specialize (Hs (Z.of_nat i :: key) ltac:(by constructor)). by rewrite !tget_branch, E1, E2 in Hs.
      * specialize (Hs [] ltac:(constructor)). cbn [tget] in Hs.
        destruct (bool_decide_reflect (w = [])), (bool_decide_reflect (w2 = [])); try congruence.
Qed.
