(* ===== verification/ScTrieFlat.v ===== *)
(** * Deletion from the tree

    Tries whose keys all have the same length ([flat]), as the engine's have: they
    are hashes.  [tdelete] removes the one key it is given and keeps the tree
    well formed, canonical and flat. *)

From S2P Require Import Prelude ScFixedHash ScSha3 ScRlp ScRlpWrite ScRlpRead ScRlpFields ScDb ScTrie ScTrieKeys ScTrieSpec ScTrieNode ScTrieInsert ScTrieMap.
From Stdlib Require Import ZifyBool.
Local Opaque sha3 encode.

(** ** Deletion in the tree *)
Definition prepend (p : list Z) (c : trie) : trie :=
  match c with Nil => Nil | Leaf k v => Leaf (p ++ k) v | Ext k c => Ext (p ++ k) c | Branch _ _ => Ext p c end.
Fixpoint upto (n : nat) (i : Z) : list Z := match n with O => [] | S n => i :: upto n (i + 1) end.
Definition in_use (cs : list trie) : list Z := List.filter (fun i => negb (is_nil (child cs i))) (upto 16 0).
Definition tidy (cs : list trie) : trie :=
  match in_use cs with [i] => prepend [i] (child cs i) | _ => Branch cs [] end.

Fixpoint tdelete (t : trie) (key : list Z) : trie :=
  match t with
  | Nil => Nil
  | Leaf k v => if bool_decide (key = k) then Nil else t
  | Ext k c => if bool_decide (k `prefix_of` key) then prepend k (tdelete c (drop (length k) key)) else t
  | Branch cs v =>
    match key with
    | [] => t
    | n :: key => tidy (set_child cs n (nth (Z.to_nat n) (map tdelete cs) (fun _ => Nil) key))
    end
  end.

(** The nodes that are written and grafted onto their parent. *)
Fixpoint tmp_delete (t : trie) (key : list Z) : list trie :=
  match t with
  | Nil | Leaf _ _ => []
  | Ext k c => tdelete c (drop (length k) key) :: tmp_delete c (drop (length k) key)
  | Branch cs v =>
    match key with
    | [] => []
    | n :: key => nth (Z.to_nat n) (map tmp_delete cs) (fun _ => []) key
    end
  end.

(** All keys have [n] nibbles. *)
Fixpoint flat (n : nat) (t : trie) : Prop :=
  match t with
  | Nil => True
  | Leaf k _ => length k = n
  | Ext k c => (length k <= n)%nat /\ flat (n - length k) c
  | Branch cs v => v = [] /\ (0 < n)%nat /\ fold_right (fun c => and (flat (pred n) c)) True cs
  end.
Lemma flat_branch n cs v : flat n (Branch cs v) <-> v = [] /\ (0 < n)%nat /\ Forall (flat (pred n)) cs.
Proof.
  cbn [flat]. enough (fold_right (fun c => and (flat (pred n) c)) True cs <-> Forall (flat (pred n)) cs) as -> by done.
  induction cs as [|c cs IH]; simpl; [by split; constructor|]. by rewrite IH, Forall_cons_iff.
Qed.

(** ** Prepending nibbles to a node *)
Definition fits (n : nat) (t : trie) : Prop := wf t /\ canonical t /\ flat n t.

Lemma prepend_not_nil p c : c <> Nil -> prepend p c <> Nil.
Proof. by destruct c. Qed.
Lemma fits_prepend p m c : fits m c -> c <> Nil -> p <> [] -> key_ok p -> Z.of_nat (length p + m) < 2 ^ 30 ->
  fits (length p + m) (prepend p c).
Proof.
  intros (Hw & Hc & Hf) Hn Hp [Hpn Hps] Hb. destruct c as [|k v|k c|cs v]; [done| | |]; cbn [prepend].
  - destruct Hw as ([Hk _] & ? & ?). cbn [flat] in Hf. split; [|split; [done|cbn [flat]; rewrite length_app; lia]].
    split; [|done]. split; [by apply Forall_app|rewrite length_app; lia].
  - destruct Hw as ([Hk _] & ? & ? & ?). destruct Hf as [Hl Hf]. split; [|split; [done|]].
    + split; [|split; [by destruct p|done]]. split; [by apply Forall_app|rewrite length_app; lia].
    + split; [rewrite length_app; lia|]. by replace (length p + m - length (p ++ k))%nat with (m - length k)%nat by (rewrite length_app; lia).
  - split; [done|]. split; [done|]. split; [lia|]. by replace (length p + m - length p)%nat with m by lia.
Qed.

Lemma tget_prepend p c key : tget (prepend p c) key = if bool_decide (p `prefix_of` key) then tget c (drop (length p) key) else None.
Proof.
  destruct c as [|k v|k c|cs v]; cbn [prepend]; [cbn [tget]; by case_bool_decide| | |done].
  all: case_bool_decide as E; cbn [tget].
  - apply if_ext. pose proof (prefix_drop _ _ E) as Ek. split; [intros ->; by rewrite drop_app_length|intros H; by rewrite Ek, H].
  - rewrite bool_decide_false; [done|]. intros ->. apply E. by exists k.
  - rewrite length_app, <- drop_drop. apply if_ext. pose proof (prefix_take_drop (p ++ k) key (length p) ltac:(rewrite length_app; lia)) as H.
    rewrite take_app_length, drop_app_length in H. tauto.
  - rewrite bool_decide_false; [done|]. intros H. apply E. etrans; [|exact H]. by exists k.
Qed.

(** ** The children in use *)
Abbreviation full := (fun c => negb (is_nil c)).
Lemma upto_lookup n i j : (j < n)%nat -> upto n i !! j = Some (i + Z.of_nat j).
Proof.
  revert i j. induction n as [|n IH]; intros i [|j] Hj; simpl; try lia; [f_equal; lia|].
  rewrite IH by lia. f_equal. lia.
Qed.
Lemma length_upto n i : length (upto n i) = n.
Proof. revert i. induction n as [|n IH]; intros i; simpl; [done|]. by rewrite IH. Qed.
Lemma upto_children cs : length cs = 16%nat -> map (child cs) (upto 16 0) = cs.
Proof.
  intros Hl. apply list_eq_same_length with 16%nat; [done|by rewrite length_map, length_upto|].
  intros i x y Hi. rewrite list_lookup_fmap, upto_lookup, Z.add_0_l by done. simpl. unfold child. rewrite Nat2Z.id.
  intros [= <-] Hy. by apply nth_lookup_Some.
Qed.
Lemma filter_map_length {A B} (f : B -> bool) (g : A -> B) l :
  length (List.filter f (map g l)) = length (List.filter (fun x => f (g x)) l).
Proof. induction l as [|x l IH]; simpl; [done|]. destruct (f (g x)); simpl; by rewrite IH. Qed.
Lemma in_use_length cs : length cs = 16%nat -> length (in_use cs) = length (List.filter full cs).
Proof. intros Hl. unfold in_use. pose proof (filter_map_length full (child cs) (upto 16 0)) as E. by rewrite upto_children in E. Qed.

Lemma in_use_in cs i : List.In i (in_use cs) <-> is_nibble i /\ child cs i <> Nil.
Proof.
  unfold in_use, is_nibble. rewrite List.filter_In. split.
  - intros [Hi Hc]. split; [|by intros E; rewrite E in Hc].
    apply list_elem_of_In, list_elem_of_lookup in Hi as [j Hj]. pose proof (lookup_lt_Some _ _ _ Hj) as Hlt.
    rewrite length_upto in Hlt. rewrite upto_lookup in Hj by done. injection Hj as <-. lia.
  - intros [Hi Hc]. split; [|by destruct (child cs i)]. apply list_elem_of_In, list_elem_of_lookup.
    exists (Z.to_nat i). rewrite upto_lookup by lia. f_equal. lia.
Qed.

Lemma in_use_one cs i : in_use cs = [i] -> is_nibble i /\ child cs i <> Nil /\ forall j, is_nibble j -> j <> i -> child cs j = Nil.
Proof.
  intros E. pose proof (proj1 (in_use_in cs i)) as [Hi Hc]; [rewrite E; by left|]. split; [done|]. split; [done|].
  intros j Hj Hji. destruct (decide (child cs j = Nil)) as [|Hn]; [done|].
  assert (List.In j (in_use cs)) as Hin by (by apply in_use_in). rewrite E in Hin. destruct Hin as [|[]]; congruence.
Qed.

(** A branch of which one child was replaced. *)
Lemma fits_tidy n cs : length cs = 16%nat -> Forall (fits n) cs -> (1 <= length (List.filter full cs))%nat -> Z.of_nat (S n) < 2 ^ 30 ->
  fits (S n) (tidy cs) /\ tidy cs <> Nil.
Proof.
  intros Hl Hcs Hu Hn. rewrite <- in_use_length in Hu by done. unfold tidy.
  destruct (in_use cs) as [|i [|j l]] eqn:E; [simpl in Hu; lia| |].
  - destruct (in_use_one cs i E) as (Hi & Hc & _). split; [|by apply prepend_not_nil].
    apply (fits_prepend [i] n); try done; [|by split; [constructor|]].
    rewrite Forall_lookup in Hcs. apply (Hcs (Z.to_nat i)). by apply child_lookup.
  - split; [|done]. split; [|split].
    + apply wf_branch. split; [done|]. split; [by split; [constructor|]|]. eapply Forall_impl; [|exact Hcs]. by intros c (? & _).
    + apply canonical_branch. unfold uses. rewrite <- in_use_length, E by done. split; [simpl; lia|].
      eapply Forall_impl; [|exact Hcs]. by intros c (_ & ? & _).
    + apply flat_branch. split; [done|]. split; [lia|]. eapply Forall_impl; [|exact Hcs]. by intros c (_ & _ & ?).
Qed.

Lemma tget_tidy cs key : length cs = 16%nat -> Forall is_nibble key -> tget (tidy cs) key = tget (Branch cs []) key.
Proof.
  intros Hl Hk. unfold tidy. destruct (in_use cs) as [|i [|j l]] eqn:E; try done.
  destruct (in_use_one cs i E) as (Hi & Hc & Ho). rewrite tget_prepend. destruct key as [|m key].
  - rewrite bool_decide_false; [done|]. by intros ?%prefix_nil_inv.
  - inversion Hk; subst. rewrite tget_branch by done. destruct (decide (m = i)) as [->|Hne].
    + rewrite bool_decide_true by (by exists key). done.
    + rewrite (Ho m) by done. rewrite bool_decide_false; [done|]. by intros [l [= -> _]].
Qed.

(** ** Deletion *)
Lemma filter_drop_one (cs : list trie) i c : (length (List.filter full cs) <= S (length (List.filter full (<[i := c]> cs))))%nat.
Proof.
  revert i. induction cs as [|x cs IH]; intros [|i]; simpl; try lia.
  - destruct (full x), (full c); simpl; lia.
  - specialize (IH i). destruct (full x); simpl; lia.
Qed.

Lemma tdelete_ok t : forall n key, fits n t -> key_ok key -> length key = n ->
  fits n (tdelete t key) /\ (is_branch t = true -> tdelete t key <> Nil) /\
  forall key', Forall is_nibble key' -> tget (tdelete t key) key' = if bool_decide (key' = key) then None else tget t key'.
Proof.
  induction t as [|k w|k c IH|cs w IH] using trie_ind'; intros n key Ht Hk Hn; cbn [tdelete].
  - split; [done|]. split; [done|]. intros key' _. by case_bool_decide.
  - split; [by case_bool_decide|]. split; [done|]. intros key' Hk'. cbn [tget].
    repeat (case_bool_decide; cbn [tget]); congruence.
  - destruct Ht as (Hw & [Hb Hc] & Hl & Hf). pose proof Hw as (Hkk & Hne & Hwc & Hnc). case_bool_decide as E.
    + pose proof (prefix_length _ _ E) as El.
      destruct (IH (n - length k)%nat (drop (length k) key)) as (Hfit & Hnn & Hg); [done|by apply key_ok_drop|rewrite length_drop; lia|].
      split; [|split; [done|]].
      * replace n with (length k + (n - length k))%nat at 1 by lia. apply fits_prepend; auto. destruct Hk. lia.
      * intros key' Hk'. rewrite tget_prepend. cbn [tget]. destruct (decide (k `prefix_of` key')) as [E'|E'].
        -- rewrite !(bool_decide_true (k `prefix_of` key')), Hg by (done || by apply Forall_drop).
           replace (bool_decide (drop (length k) key' = drop (length k) key)) with (bool_decide (key' = key)); [done|].
           apply bool_decide_ext. split; [by intros ->|]. intros Ed. by rewrite (prefix_drop _ _ E), (prefix_drop _ _ E'), Ed.
        -- rewrite !(bool_decide_false (k `prefix_of` key')) by done. by case_bool_decide.
    + split; [done|]. split; [done|]. intros key' _. case_bool_decide as E'; [|done]. subst key'. cbn [tget]. by rewrite bool_decide_false.
  - destruct Ht as (Hw & Hc & Hf). apply wf_branch in Hw as (Hl & Hv & Hcs). apply canonical_branch in Hc as [Hu Hc].
    apply flat_branch in Hf as (-> & Hpos & Hf). destruct key as [|m key]; [simpl in Hn; lia|].
    apply key_head in Hk as Hk1. destruct Hk1 as [Hm Hk1]. rewrite nth_child by done.
    pose proof (child_lookup cs m Hm Hl) as Hat. rewrite Forall_lookup in IH.
    assert (Forall (fits (pred n)) cs) as Hfs.
    { rewrite Forall_lookup in *. intros j x Hx. split; [eauto|]. split; eauto. }
    destruct (IH _ _ Hat (pred n) key) as (Hfit & _ & Hg); [by apply (proj1 (Forall_lookup _ _) Hfs _ _ Hat)|done|simpl in Hn; lia|].
    assert (length (set_child cs m (tdelete (child cs m) key)) = 16%nat) as Hl' by (unfold set_child; by rewrite length_insert).
    destruct (fits_tidy (pred n) (set_child cs m (tdelete (child cs m) key))) as [Hft Hnn].
    + done.
    + by apply set_child_Forall.
    + unfold uses in Hu. rewrite bool_decide_true in Hu by done. unfold set_child.
      pose proof (filter_drop_one cs (Z.to_nat m) (tdelete (child cs m) key)). lia.
    + destruct Hk. lia.
    + replace (S (pred n)) with n in Hft by lia. split; [done|]. split; [done|]. intros key' Hk'. rewrite tget_tidy by done.
      destruct key' as [|m' key']; [done|]. inversion Hk'; subst. rewrite !tget_branch, child_set by done.
      destruct (Z.eqb_spec m m') as [->|Hne]; [|by rewrite bool_decide_false by congruence].
      rewrite Hg by done. replace (bool_decide (m' :: key' = m' :: key)) with (bool_decide (key' = key)); [done|].
      apply bool_decide_ext. split; [by intros ->|by intros [= ->]].
Qed.

(** Deleting a key that is not there changes nothing. *)
Lemma tdelete_absent t n key : fits n t -> key_ok key -> length key = n -> tget t key = None -> tdelete t key = t.
Proof.
  intros Ht Hk Hn E. destruct (tdelete_ok t n key Ht Hk Hn) as ((Hw & Hc & _) & _ & Hg). destruct Ht as (? & ? & _).
  apply canonical_unique; try done. intros key' Hk'. rewrite Hg by done. case_bool_decide; congruence.
Qed.

(** ** Insertion keeps the lengths *)
Lemma flat_nils n : Forall (flat n) nils.
Proof. by repeat constructor. Qed.
Lemma flat_ext n k c : (length k <= n)%nat -> flat (n - length k) c -> flat n (ext k c).
Proof. intros Hl Hc. destruct k as [|b k]; [|done]. simpl in Hc. by rewrite Nat.sub_0_r in Hc. Qed.

Lemma flat_fork t leaf k x key v n : let p := common k key in two t leaf k x -> flat n t -> leaves leaf k key -> length key = n ->
  flat n (ext (take p k) (add_leaf (split (rest t p)) (drop p key) v)).
Proof.
  intros p Ht Hf Hlv Hn. pose proof (common_le k key) as [Hp1 Hp2]. fold p in Hp1, Hp2.
  assert (p < length k)%nat as Hp.
  { destruct (decide (p = length k)) as [E|]; [|lia]. exfalso. pose proof (proj1 (common_full k key) E) as Hpre.
    inversion Ht; subst; cbn [flat leaves] in *; [|done]. destruct Hpre as [l ->]. apply Hlv. rewrite length_app in Hf.
    destruct l; [by rewrite app_nil_r|simpl in Hf; lia]. }
  assert (length k <= n)%nat as Hkn by (inversion Ht; subst; cbn [flat] in Hf; lia).
  apply flat_ext; [rewrite length_take; lia|]. rewrite length_take, Nat.min_l by lia.
  destruct (drop p k) as [|b k'] eqn:Ek; [apply (f_equal length) in Ek; rewrite length_drop in Ek; simpl in Ek; lia|].
  destruct (drop p key) as [|m key'] eqn:Ed; [apply (f_equal length) in Ed; rewrite length_drop in Ed; simpl in Ed; lia|].
  pose proof (two_rest t leaf k x p Ht) as Htr. rewrite Ek in Htr.
  rewrite (split_under _ _ _ _ _ Htr). cbn [add_leaf]. apply (f_equal length) in Ek, Ed. rewrite length_drop in Ek, Ed. simpl in Ek, Ed.
  apply flat_branch. split; [done|]. split; [lia|]. apply set_child_Forall; [|cbn [flat]; lia].
  apply set_child_Forall; [apply flat_nils|]. inversion Htr as [k0 v0 E0|k0 c0 E0]; subst; cbn [under].
  - inversion Ht; subst; cbn [flat] in *; lia.
  - inversion Ht; subst; try done. injection E0 as _ <-.
    destruct Hf as [_ Hf]. apply flat_ext; [lia|].
    by replace (pred (length key - p) - length k')%nat with (length key - length k)%nat by lia.
Qed.

Lemma flat_tinsert t : forall n key v, wf t -> flat n t -> key_ok key -> length key = n -> flat n (tinsert t key v).
Proof.
  induction t as [|k w|k c IH|cs w IH] using trie_ind'; intros n key v Hw Hf Hk Hn; cbn [tinsert].
  - done.
  - case_bool_decide as E; [done|]. by apply (flat_fork _ _ _ _ _ _ _ (two_leaf k w)).
  - case_bool_decide as E; [|by apply (flat_fork _ _ _ _ _ _ _ (two_ext k c))].
    destruct Hf as [Hl Hf]. split; [done|]. apply IH; [apply Hw|done|by apply key_ok_drop|rewrite length_drop; lia].
  - apply flat_branch in Hf as (-> & Hpos & Hf). apply wf_branch in Hw as (Hl & _ & Hcs).
    destruct key as [|m key]; [simpl in Hn; lia|]. apply key_head in Hk as [Hm Hk]. rewrite nth_child by done.
    apply flat_branch. split; [done|]. split; [done|]. apply set_child_Forall; [done|].
    pose proof (child_lookup cs m Hm Hl) as Hat. rewrite Forall_lookup in *. apply (IH _ _ Hat); eauto. simpl in Hn. lia.
Qed.

Lemma fits_tinsert t n key v : fits n t -> key_ok key -> length key = n -> value_ok v -> v <> [] -> fits n (tinsert t key v).
Proof.
  intros (Hw & Hc & Hf) Hk Hn Hv Hv0. split; [by apply wf_tinsert|].
  split; [by apply canonical_tinsert|by apply flat_tinsert].
Qed.

(** ** What a lookup finds *)
Lemma tget_found t : forall n key v, wf t -> flat n t -> Forall is_nibble key -> tget t key = Some v -> length key = n /\ v <> [].
Proof.
  induction t as [|k w|k c IH|cs w IH] using trie_ind'; intros n key v Hw Hf Hk E; [done| | |].
  - cbn [tget] in E. case_bool_decide; [|done]. injection E as <-. subst. destruct Hw as (_ & _ & ?). by split.
  - cbn [tget] in E. case_bool_decide as Ep; [|done]. destruct Hf as [Hl Hf]. destruct Hw as (_ & _ & Hw & _).
    destruct (IH (n - length k)%nat _ _ Hw Hf (Forall_drop _ _ _ Hk) E) as [Hlen Hv]. rewrite length_drop in Hlen.
    apply prefix_length in Ep. split; [lia|done].
  - apply wf_branch in Hw as (Hl & _ & Hcs). apply flat_branch in Hf as (-> & Hpos & Hf). destruct key as [|m key]; [done|].
    inversion Hk as [|? ? Hm Hk']; subst. rewrite tget_branch in E by done. pose proof (child_lookup cs m Hm Hl) as Hat.
    rewrite Forall_lookup in IH, Hcs, Hf. destruct (IH _ _ Hat (pred n) key v) as [Hlen Hv]; eauto. split; [simpl; lia|done].
Qed.
