(* ===== verification/ScTrieDelete.v ===== *)
(** * [at] and [remove] of the trie refine lookup and deletion in the tree

    Deletion is proved for tries whose keys all have the same length ([flat]), as
    the engine's have: they are hashes. *)

From S2P Require Import Prelude ScFixedHash ScSha3 ScRlp ScRlpWrite ScRlpRead ScRlpFields ScDb ScTrie ScTrieKeys ScTrieSpec ScTrieNode ScTrieInsert ScTrieMap ScTrieFlat.
From Stdlib Require Import ZifyBool.
Import GenericTrieDB.
Import NibbleSlice (size_, mid, shared, contains).
Local Opaque sha3 encode.

(** ** [atAux] *)
Lemma toString_data v : value_ok v -> RLP.toBytesConstRef RLP.LaissezFaire (encode (IData v)) = Ok v.
Proof.
  intros [Hv Hs]. assert (head false (data_header v) v) as Hh by (constructor; [done|unfold rlp_limit; lia]).
  change (encode (IData v)) with (data_header v ++ v). unfold RLP.toBytesConstRef. rewrite (isData_head _ _ Hh). cbn [negb].
  pose proof (reads_payload _ _ _ [] Hh) as P. rewrite app_nil_r in P.
  pose proof (reads_exact _ _ _ Hh) as [_ _ _ L _]. unfold mbind, outcome_bind. rewrite P, L.
  f_equal. pose proof (cropped_app v []) as C. by rewrite app_nil_r in C.
Qed.

Section At.
Abbreviation runs := (runs (fun _ => False)).

Lemma at_child c d (Q : bytes -> OverlayDB -> Prop) : wf c -> c <> Nil -> held d c -> Q (enc c) d ->
  runs (if RLP.isList (encode (iref c)) then mret (encode (iref c)) else s ← deref (encode (iref c)); lift_outcome (rlp_of s)) d Q.
Proof.
  intros Hc Hn [Hk _] HQ. unfold deref. destruct (iref_cases c Hc) as [|_ Hs E Hl He|_ Hs Hl Hd He Hh]; [done| |].
  - rewrite E, Hl. by apply runs_ret.
  - rewrite Hl. apply runs_bind, runs_bind. eapply runs_lift; [exact Hh|].
    eapply runs_node; [by apply Hk|]. eapply runs_lift; [by apply enc_rlp|done].
Qed.

Lemma at_correct t : forall f s key d, wf t -> stored d t -> denotes s key -> (length key < f)%nat ->
  runs (atAux f (enc t) s) d (fun b d' => b = default [] (tget t key) /\ d' = d).
Proof.
  induction t as [|k w|k c IH|cs w IH] using trie_ind'; intros f s key d Hw Hst Hs Hf; (destruct f as [|f]; [lia|]); cbn [atAux].
  - by apply runs_ret.
  - rewrite enc_isEmpty by done. destruct (two_reads _ _ _ _ (two_leaf k w) Hw) as (Rk & Rl & Rv).
    destruct (leaf_list k w Hw) as [? ?]. replace (RLP.isNull (enc (Leaf k w))) with false by (symmetry; by apply (read_isNull _ (leaf_list k w Hw))).
    cbn [orb]. apply runs_bind. eapply runs_count2; [apply two_leaf|done|]. cbn [Z.eqb Pos.eqb].
    apply runs_bind. eapply runs_lift; [exact Rk|]. apply runs_bind. eapply runs_lift; [exact Rl|].
    destruct Hw as (Hk & Hv & _). pose proof (two_denotes true k Hk) as Hd.
    rewrite (slice_eqb s _ key k Hs Hd). cbn [tget]. destruct (decide (key = k)) as [E|E].
    + rewrite !bool_decide_true by done. cbn [andb]. apply runs_bind. eapply runs_lift; [exact Rv|].
      eapply runs_lift; [by apply toString_data|done].
    + rewrite !bool_decide_false by congruence. cbn [andb negb]. rewrite andb_false_r. by apply runs_ret.
  - rewrite enc_isEmpty by done. destruct (two_reads _ _ _ _ (two_ext k c) Hw) as (Rk & Rl & Rv).
    replace (RLP.isNull (enc (Ext k c))) with false by (symmetry; by apply (read_isNull _ (ext_list k c Hw))).
    cbn [orb]. apply runs_bind. eapply runs_count2; [apply two_ext|done|]. cbn [Z.eqb Pos.eqb].
    apply runs_bind. eapply runs_lift; [exact Rk|]. apply runs_bind. eapply runs_lift; [exact Rl|].
    destruct Hw as (Hk & Hne & Hwc & Hn). pose proof (two_denotes false k Hk) as Hd.
    rewrite (slice_contains s _ key k Hs Hd), andb_false_r. cbn [negb tget]. rewrite andb_true_r.
    case_bool_decide as E; [|by apply runs_ret].
    apply runs_bind. eapply runs_lift; [exact Rv|]. apply runs_bind. apply at_child; [done|done|done|].
    rewrite (slice_size _ k Hd). apply prefix_length in E as El. apply IH; [done|apply Hst| |].
    + rewrite <- (Nat2Z.id (length k)) at 2. apply slice_mid; [done|lia].
    + rewrite length_drop. destruct k; [done|]. simpl in *. lia.
  - pose proof (branch_list cs w Hw) as Hl. pose proof Hw as (Hlen & Hv & Hcs)%wf_branch. apply stored_branch in Hst.
    rewrite enc_isEmpty by done. replace (RLP.isNull (enc (Branch cs w))) with false by (symmetry; by apply (read_isNull _ Hl)).
    cbn [orb]. apply runs_bind, runs_count17; [done|]. cbn [Z.eqb Pos.eqb]. rewrite (slice_size s _ Hs).
    assert (forall i, 0 <= i < 17 -> subscript (enc (Branch cs w)) i = Ok (encode (if i =? 16 then IData w else iref (child cs i)))) as Hsub.
    { intros i Hi. apply (read_sub _ Hl); [lia|by apply branch_items]. }
    destruct key as [|n key].
    + cbn [length Z.of_nat Z.eqb tget]. apply runs_bind. eapply runs_lift; [by apply (Hsub 16)|]. cbn [Z.eqb Pos.eqb].
      eapply runs_lift; [by apply toString_data|]. split; [|done]. by case_bool_decide.
    + replace (size (n :: key) =? 0) with false by (simpl length; lia).
      assert (is_nibble n) as Hn by (pose proof (slice_ok s _ Hs) as Hk; by inversion Hk). unfold is_nibble in Hn.
      apply runs_bind. eapply runs_lift; [by apply (slice_head s n key)|]. apply runs_bind. eapply runs_lift; [apply Hsub; lia|].
      replace (n =? 16) with false by lia. rewrite tget_branch by done.
      pose proof (child_lookup cs n Hn Hlen) as Hat. rewrite Forall_lookup in IH, Hst.
      pose proof (child_wf cs n Hcs) as Hwc. destruct (decide (child cs n = Nil)) as [E|E].
      { rewrite E. by apply runs_ret. }
      destruct (runs_child (fun _ => False) (child cs n) d (fun _ _ => True) Hwc E ltac:(eauto) ltac:(done)) as (He & _).
      rewrite He. apply runs_bind. apply at_child; [done|done|eauto|].
      apply (IH _ _ Hat); [done|by apply (Hst _ _ Hat)| |simpl in Hf; lia].
      apply (slice_mid s _ Hs 1). simpl length. lia.
Qed.
End At.

(** ** [uniqueInUse] *)
Section Unique.
Context (orig : bytes) (g : Z -> bool).

Lemma unique_second m : forall i used, used <> 255 ->
  (forall j, i <= j < i + Z.of_nat m -> exists x, subscript orig j = Ok x /\ RLP.isEmpty x = negb (g j)) ->
  0 <= i -> i + Z.of_nat m <= 255 ->
  uniqueInUse_loop m i orig 255 used = Ok (match List.filter g (upto m i) with [] => used | _ => 255 end).
Proof.
  induction m as [|m IH]; intros i used Hu Hx Hi Hm; [done|]. cbn [uniqueInUse_loop upto List.filter].
  destruct (Hx i ltac:(lia)) as (x & Ex & Ee). replace (negb (i =? 255)) with true by lia. rewrite Ex.
  unfold mbind, outcome_bind. rewrite Ee, negb_involutive. destruct (g i).
  - by replace (used =? 255) with false by lia.
  - apply IH; [done| |lia|lia]. intros j Hj. apply Hx. lia.
Qed.
Lemma unique_first m : forall i,
  (forall j, i <= j < i + Z.of_nat m -> exists x, subscript orig j = Ok x /\ RLP.isEmpty x = negb (g j)) ->
  0 <= i -> i + Z.of_nat m <= 255 ->
  uniqueInUse_loop m i orig 255 255 = Ok (match List.filter g (upto m i) with [j] => j | _ => 255 end).
Proof.
  induction m as [|m IH]; intros i Hx Hi Hm; [done|]. cbn [uniqueInUse_loop upto List.filter].
  destruct (Hx i ltac:(lia)) as (x & Ex & Ee). replace (negb (i =? 255)) with true by lia. rewrite Ex.
  unfold mbind, outcome_bind. rewrite Ee, negb_involutive.
  assert (forall j, i + 1 <= j < i + 1 + Z.of_nat m -> exists x, subscript orig j = Ok x /\ RLP.isEmpty x = negb (g j)) as Hx'.
  { intros j Hj. apply Hx. lia. }
  destruct (g i); [|apply IH; [done|lia|lia]].
  cbn [Z.eqb Pos.eqb]. rewrite unique_second; [|unfold u8; rewrite Z.mod_small by lia; lia|done|lia|lia].
  unfold u8. rewrite Z.mod_small by lia. by destruct (List.filter g (upto m (i + 1))).
Qed.
End Unique.

Lemma branch_sub cs w i : wf (Branch cs w) -> 0 <= i < 17 ->
  subscript (enc (Branch cs w)) i = Ok (encode (if i =? 16 then IData w else iref (child cs i))).
Proof.
  intros Hw Hi. pose proof (branch_list cs w Hw) as Hl. apply wf_branch in Hw as (Hlen & _).
  apply (read_sub _ Hl); [lia|by apply branch_items].
Qed.
Lemma iref_isEmpty c : wf c -> RLP.isEmpty (encode (iref c)) = is_nil c.
Proof.
  intros Hc. destruct (iref_cases c Hc) as [-> E|Hn Hs E Hl He|Hn Hs Hl Hd He Hh].
  - by rewrite E.
  - rewrite E, He. by destruct c.
  - rewrite He. by destruct c.
Qed.

Lemma unique_branch cs : wf (Branch cs []) ->
  uniqueInUse (enc (Branch cs [])) 255 = Ok (match in_use cs with [i] => i | _ => 255 end).
Proof.
  intros Hw. pose proof Hw as (_ & _ & Hcs)%wf_branch. unfold uniqueInUse.
  rewrite (unique_first _ (fun i => negb ((i =? 16) || is_nil (child cs i)))); [done| |lia|lia].
  intros j Hj. exists (encode (if j =? 16 then IData [] else iref (child cs j))). split; [apply branch_sub; [done|lia]|].
  rewrite negb_involutive. destruct (j =? 16); [done|]. apply iref_isEmpty, child_wf. done.
Qed.

(** ** [isTwoItemNode], [graft], [merge] and [collapse] *)
Section Delete.
Context (U : bytes -> Prop) (U_inj : forall x y, U x -> U y -> sha3 x = sha3 y -> x = y).
Abbreviation runs := (runs U).
Abbreviation plain d := (m_enforceRefs d = false).

Lemma node_count c : wf c -> c <> Nil -> RLP.itemCount (enc c) = Ok (if is_branch c then 17 else 2).
Proof.
  intros Hc Hn. destruct c as [|k v|k c|cs v]; [done| | |].
  - apply (read_count _ (leaf_list k v Hc)).
  - apply (read_count _ (ext_list k c Hc)).
  - pose proof (read_count _ (branch_list cs v Hc)) as E. apply wf_branch in Hc as (Hl & _).
    rewrite length_app, length_map, Hl in E. exact E.
Qed.

Lemma run_two c d (Q : bool -> OverlayDB -> Prop) : wf c -> c <> Nil -> held d c -> Q (negb (is_branch c)) d ->
  runs (isTwoItemNode (encode (iref c))) d Q.
Proof.
  intros Hc Hn [Hk _] HQ. pose proof (node_count c Hc Hn) as Hcount. unfold isTwoItemNode. apply runs_bind.
  destruct (iref_cases c Hc) as [|_ Hs E Hl He|_ Hs Hl Hd He Hh]; [done| |].
  - assert (RLP.isData (enc c) = false) as Hd.
    { destruct (node_list c Hc Hn) as (its & Ei & Hok & _). unfold enc. rewrite Ei.
      destruct (list_head its Hok) as [Hp _]. by pose proof (reads_exact _ _ _ Hp) as [_ _ ? _ _]. }
    rewrite E, Hl, Hd. apply runs_ret. apply runs_bind. eapply runs_lift; [exact Hcount|].
    apply runs_ret. by destruct (is_branch c).
  - rewrite Hd, Hl. apply runs_bind. eapply runs_lift; [exact Hh|]. apply runs_bind. eapply runs_node; [by apply Hk|].
    apply runs_bind. eapply runs_lift; [by apply enc_rlp|]. apply runs_bind. eapply runs_lift; [exact Hcount|].
    apply runs_ret. destruct (is_branch c); by apply runs_ret.
Qed.

Lemma two_prepend c leaf k x p : two c leaf k x -> two (prepend p c) leaf (p ++ k) x.
Proof. intros []; constructor. Qed.
Lemma two_cases c : c <> Nil -> is_branch c = false -> exists leaf k x, two c leaf k x.
Proof. destruct c as [|k v|k c|cs v]; intros ? ?; try done; do 3 eexists; constructor. Qed.

Lemma run_graft p c d (Q : bytes -> OverlayDB -> Prop) : plain d -> wf (Ext p c) -> is_branch c = false ->
  wf (prepend p c) -> within U c -> held d c ->
  (forall d', keeps U d d' -> stored d' (prepend p c) -> Q (enc (prepend p c)) d') ->
  runs (graft (enc (Ext p c))) d Q.
Proof.
  intros Hf Hw Hb Hwp HU Hh HQ. pose proof Hw as (Hp & _ & Hc & Hn). destruct (two_cases c Hn Hb) as (leaf & k & x & Ht).
  destruct (two_spec _ _ _ _ (two_ext p c) Hw) as (E & Hl & _ & _).
  destruct (two_reads _ _ _ _ (two_ext p c) Hw) as (Rk & _ & Rv).
  destruct (two_spec _ _ _ _ Ht Hc) as (E' & Hl' & Hk & Hx). destruct (two_reads _ _ _ _ Ht Hc) as (Rk' & Rl' & _).
  unfold graft. apply runs_bind. eapply runs_lift; [rewrite E; by apply read_count|]. apply runs_bind, runs_assert.
  { rewrite E, (read_isList _ Hl). done. }
  apply runs_bind. eapply runs_lift; [exact Rv|]. apply runs_bind.
  assert (forall d', keeps U d d' -> stored d' (prepend p c)) as Hst.
  { intros d' K. pose proof (stored_keeps U d d' c K HU (proj2 Hh)) as Hsc. by destruct c. }
  assert (forall d', keeps U d d' -> runs (
    c1 ← lift_outcome (RLP.itemCount (enc c)); assertion (c1 =? 2) "n.itemCount() == 2";;
    k ← lift_outcome (keyOf (enc (Ext p c))); kn ← lift_outcome (keyOf (enc c)); leaf ← lift_outcome (isLeaf (enc c));
    rlpList (put_bytes (hexPrefixEncode_two k kn leaf)) (put_item (enc c) 1)) d' Q) as Hgo.
  { intros d' K. apply runs_bind. eapply runs_lift; [by apply node_count|]. rewrite Hb. apply runs_bind, runs_assert; [done|].
    apply runs_bind. eapply runs_lift; [exact Rk|]. apply runs_bind. eapply runs_lift; [exact Rk'|].
    apply runs_bind. eapply runs_lift; [exact Rl'|]. rewrite (encode_two _ _ p k leaf) by (by apply two_denotes).
    destruct (two_spec _ _ _ _ (two_prepend _ _ _ _ p Ht) Hwp) as (Ep & _ & Hkp & _). unfold rlpList.
    apply runs_bind, (runs_stream _ 2); [lia|]. apply runs_bind. apply runs_put_bytes; [simpl; lia|constructor|by apply small_hp|by apply hp_size|].
    apply runs_bind. rewrite E'. apply runs_put_item with (it := x);
      [simpl; lia|repeat constructor; by apply small_hp|done|lia|done|done|].
    apply runs_out; [done|]. cbn [app]. rewrite <- Ep. by apply HQ; [|apply Hst]. }
  destruct Hh as [Hkn _]. destruct (iref_cases c Hc) as [|_ Hs Er Hli He|_ Hs Hli Hd He Hh]; [done| |].
  - rewrite Er, Hli. apply runs_ret. by apply Hgo.
  - rewrite Hli. apply runs_bind. eapply runs_lift; [exact Hh|]. apply runs_bind. eapply runs_node; [by apply Hkn|].
    apply runs_bind, runs_kill; [done|]. intros d' K. eapply runs_lift; [by apply enc_rlp|]. by apply Hgo.
Qed.

Lemma run_merge cs i d (Q : bytes -> OverlayDB -> Prop) : wf (Branch cs []) -> is_nibble i -> child cs i <> Nil ->
  Q (enc (Ext [i] (child cs i))) d -> runs (merge (enc (Branch cs [])) i) d Q.
Proof.
  intros Hw Hi Hn HQ. pose proof (branch_list cs [] Hw) as Hl. pose proof Hw as (Hlen & _ & Hcs)%wf_branch.
  pose proof (child_wf cs i Hcs) as Hc. assert (key_ok [i]) as Hk by (split; [by constructor|done]). unfold is_nibble in Hi.
  assert (subscript (enc (Branch cs [])) i = Ok (encode (iref (child cs i)))) as Hsub.
  { rewrite branch_sub by (done || lia). by replace (i =? 16) with false by lia. }
  unfold merge. apply runs_bind. eapply runs_lift; [by apply node_count|]. apply runs_bind, runs_assert.
  { change (enc (Branch cs [])) with (encode (IList (map iref cs ++ [IData []]))). by rewrite (read_isList _ Hl). }
  apply runs_bind, (runs_stream _ 2); [lia|]. replace (negb (i =? 16)) with true by lia. apply runs_bind, runs_bind.
  eapply runs_lift; [exact Hsub|]. apply runs_bind, runs_assert; [rewrite iref_isEmpty by done; by destruct (child cs i)|].
  rewrite encode_nibble by done. apply runs_put_bytes; [simpl; lia|constructor|by apply small_hp|by apply hp_size|].
  apply runs_bind, runs_bind. eapply runs_lift; [exact Hsub|].
  apply runs_put_rlp; [simpl; lia|by constructor; [apply small_hp|]|by apply small_iref|]. by apply runs_out.
Qed.

Lemma run_collapse cs i n d (Q : bytes -> OverlayDB -> Prop) : plain d -> wf (Branch cs []) -> Forall (fits n) cs -> Z.of_nat (S n) < 2 ^ 30 ->
  in_use cs = [i] -> within U (child cs i) -> Forall (held d) cs ->
  (forall d', keeps U d d' -> stored d' (tidy cs) -> Q (enc (tidy cs)) d') ->
  runs (collapse (enc (Branch cs [])) i) d Q.
Proof.
  intros Hf Hw Hfs Hn Hu HU Hh HQ. pose proof Hw as (Hlen & _ & Hcs)%wf_branch. destruct (in_use_one cs i Hu) as (Hi & Hnn & _).
  unfold tidy in HQ. rewrite Hu in HQ. pose proof (child_wf cs i Hcs) as Hc. pose proof (child_lookup cs i Hi Hlen) as Hat.
  assert (held d (child cs i)) as Hhc by (by apply (proj1 (Forall_lookup _ _) Hh _ _ Hat)).
  assert (key_ok [i]) as Hk by (split; [by constructor|done]).
  unfold collapse. apply runs_bind. eapply runs_lift.
  { unfold is_nibble in Hi. rewrite branch_sub by (done || lia). by replace (i =? 16) with false by lia. }
  apply runs_bind, run_two; [done..|]. destruct (is_branch (child cs i)) eqn:Eb; cbn [negb].
  - apply run_merge; [done..|]. destruct (child cs i) as [| | |cs' v']; try done. by apply HQ.
  - apply runs_bind, run_merge; [done..|]. apply runs_bind. eapply runs_lift; [by apply enc_rlp|].
    apply run_graft; try done.
    destruct (fits_prepend [i] n (child cs i)) as [? _]; try done. by apply (proj1 (Forall_lookup _ _) Hfs _ _ Hat).
Qed.
(** ** [deleteAtAux] *)

(** What deletion below a node gives: nothing when the key is not there. *)
Definition deleted (found : bool) (c' : trie) (b : bytes) (d : OverlayDB) : Prop :=
  if found then b = enc c' /\ stored d c' else b = [].

Lemma run_delete_aux rec c c' found s N done d : plain d -> wf c -> held d c -> wf c' -> within U c' ->
  (length done < N <= 17)%nat -> Forall small done -> (c = Nil -> found = false) ->
  (c <> Nil -> runs (rec (enc c) s) d (deleted found c')) ->
  runs (deleteAtAux rec (encode (iref c)) s (partial N done)) d
    (fun r d' => if found then r = Some (partial N (done ++ [iref c'])) /\ held d' c' else r = None).
Proof.
  intros Hf Hc Hh Hc' HU HN Hsm Hnil Hrec. unfold deleteAtAux.
  assert (forall m : T bytes, runs m d (deleted found c') -> runs (
    b ← m; if size b =? 0 then mret None else s ← streamNode b (partial N done); mret (Some s)) d
    (fun r d' => if found then r = Some (partial N (done ++ [iref c'])) /\ held d' c' else r = None)) as Hgo.
  { intros m Hm. apply runs_bind. eapply runs_mono; [exact Hm|]. intros b d2 K2 Hb. unfold deleted in Hb. destruct found.
    - destruct Hb as [-> Hst]. destruct (size (enc c') =? 0) eqn:E.
      { pose proof (encode_ne (inode c')) as Hne. fold (enc c') in Hne. destruct (enc c'); [done|simpl in E; lia]. }
      apply runs_bind, runs_streamNode; try done; [by apply (keeps_plain U d)|]. intros d3 K3 Hh3. by apply runs_ret.
    - subst b. by apply runs_ret. }
  apply Hgo. rewrite iref_isEmpty by done. destruct (decide (c = Nil)) as [E|Hn].
  - rewrite E, (Hnil E). cbn [is_nil]. by apply runs_ret.
  - rewrite is_nil_false by done. apply runs_bind.
    destruct (runs_child U c d (fun b d' => runs (rec b s) d' (deleted found c')) Hc Hn Hh (Hrec Hn)) as (_ & [[Hl E]|[Hl Hr]]).
    + rewrite Hl, E. apply runs_ret. by apply Hrec.
    + by rewrite Hl.
Qed.

(** ** The loop over a branch *)
Lemma run_delete_items rec cs n c' (found : bool) s d : wf (Branch cs []) -> is_nibble n -> wf c' -> within U c' ->
  (forall d1, keeps U d d1 ->
     runs (deleteAtAux rec (encode (iref (child cs n))) (mid 1 s) (partial 17 (map iref (take (Z.to_nat n) cs)))) d1
       (fun r d' => if found then r = Some (partial 17 (map iref (take (Z.to_nat n) cs) ++ [iref c'])) /\ held d' c' else r = None)) ->
  runs (delete_items rec 17 0 (enc (Branch cs [])) n s (partial 17 [])) d
    (fun r d' => if found then r = Some (partial 17 (map iref (set_child cs n c') ++ [IData []])) /\ held d' c' else r = None).
Proof.
  intros Hw Hn Hc' HU Hrec. pose proof Hw as (Hlen & _ & Hcs)%wf_branch. pose proof (branch_list cs [] Hw) as Hl.
  set (its := map iref (set_child cs n c') ++ [IData []]).
  assert (Forall small its) as Hsm.
  { apply Forall_app. split; [by apply small_children, set_child_Forall|]. by repeat constructor. }
  assert (length its = 17%nat) as Hlen'.
  { unfold its. rewrite length_app, length_map. unfold set_child. by rewrite length_insert, Hlen. }
  unfold is_nibble in Hn.
  assert (take (Z.to_nat n) its = map iref (take (Z.to_nat n) cs)) as Htake.
  { unfold its. rewrite take_app_le by (rewrite length_map; unfold set_child; rewrite length_insert; lia).
    rewrite firstn_map. f_equal. unfold set_child. apply take_insert_ge. lia. }
  assert (its !! Z.to_nat n = Some (iref c')) as Hat.
  { unfold its. rewrite lookup_app_l by (rewrite length_map; unfold set_child; rewrite length_insert; lia).
    by rewrite list_lookup_fmap, set_child_at. }
  assert (forall m j d1, (j + m = 17)%nat -> keeps U d d1 -> (n < Z.of_nat j -> found = true /\ held d1 c') ->
    runs (delete_items rec m (Z.of_nat j) (enc (Branch cs [])) n s (partial 17 (take j its))) d1
      (fun r d' => if found then r = Some (partial 17 its) /\ held d' c' else r = None)) as L.
  { induction m as [|m IH]; intros j d1 Hj K HP; cbn [delete_items].
    - apply runs_ret. destruct (HP ltac:(lia)) as [-> Hh]. by rewrite take_ge by lia.
    - destruct (lookup_lt_is_Some_2 its j) as [it Hit]; [lia|].
      replace (Z.of_nat j + 1) with (Z.of_nat (S j)) by lia. destruct (Z.eqb_spec (Z.of_nat j) n) as [E|E].
      + replace j with (Z.to_nat n) in * by lia. apply runs_bind. eapply runs_lift.
        { rewrite branch_sub by (done || lia). replace (Z.of_nat (Z.to_nat n) =? 16) with false by lia. done. }
        rewrite E. apply runs_bind. rewrite Htake. eapply runs_mono; [by apply Hrec|]. intros r d2 K2 Hr. destruct found.
        * destruct Hr as [-> Hh]. rewrite <- Htake, <- (take_S_r _ _ _ Hat). apply IH; [lia|by transitivity d1|done].
        * rewrite Hr. by apply runs_ret.
      + apply runs_bind. change (enc (Branch cs [])) with (encode (IList (map iref cs ++ [IData []]))).
        apply runs_put_item with (it := it); [rewrite length_take; lia|by apply Forall_take|done|lia| |by apply (proj1 (Forall_lookup _ _) Hsm j)|].
        { rewrite Nat2Z.id. unfold its in Hit. by rewrite items_other in Hit. }
        rewrite <- (take_S_r _ _ _ Hit). apply IH; [lia|done|]. intros. apply HP. lia. }
  apply (L 17%nat 0%nat d); [done|done|lia].
Qed.
(** ** [deleteAt] *)
Definition present (t : trie) (key : list Z) : bool := match tget t key with Some _ => true | None => false end.

(** On a leaf. *)
Lemma delete_leaf f k w s key d : plain d -> wf (Leaf k w) -> denotes s key -> length key = length k ->
  runs (deleteAt (S f) (enc (Leaf k w)) s) d (deleted (present (Leaf k w) key) (tdelete (Leaf k w) key)).
Proof.
  intros Hf Hw Hs Hn. destruct (two_reads _ _ _ _ (two_leaf k w) Hw) as (Rk & Rl & _). cbn [deleteAt]. rewrite enc_isEmpty by done.
  apply runs_bind. eapply runs_count2; [apply two_leaf|done|]. cbn [Z.eqb Pos.eqb].
  apply runs_bind. eapply runs_lift; [exact Rk|]. apply runs_bind. eapply runs_lift; [exact Rl|].
  pose proof (two_denotes true k (proj1 Hw)) as Hd. rewrite (slice_eqb _ s k key Hd Hs), (slice_contains s _ key k Hs Hd).
  unfold present. cbn [tget tdelete]. destruct (decide (key = k)) as [E|E].
  - rewrite !bool_decide_true by done. apply runs_bind, runs_killNode_at; [done|]. intros d' K. by apply runs_lift with (a := enc Nil).
  - assert (~ k `prefix_of` key) as Hp.
    { intros [l ->]. rewrite length_app in Hn. destruct l; [by rewrite app_nil_r in E|simpl in Hn; lia]. }
    rewrite !bool_decide_false by done. by apply runs_ret.
Qed.

(** On an extension. *)
Lemma delete_ext f k c s key d : let c' := tdelete c (drop (length k) key) in
  plain d -> wf (Ext k c) -> within U c -> stored d (Ext k c) -> denotes s key -> key_ok key ->
  wf c' -> c' <> Nil -> within U c' -> wf (prepend k c') ->
  (k `prefix_of` key -> runs (deleteAt f (enc c) (mid (size k) s)) d (deleted (present c (drop (length k) key)) c')) ->
  runs (deleteAt (S f) (enc (Ext k c)) s) d (deleted (present (Ext k c) key) (tdelete (Ext k c) key)).
Proof.
  intros c' Hf Hw HU Hst Hs Hk Hc' Hn' HU' Hwp Hrec. destruct (two_reads _ _ _ _ (two_ext k c) Hw) as (Rk & Rl & Rv).
  destruct (two_spec _ _ _ _ (two_ext k c) Hw) as (E & Hl & Hkk & _). pose proof Hw as (_ & Hne & Hc & Hn).
  cbn [deleteAt]. rewrite enc_isEmpty by done.
  apply runs_bind. eapply runs_count2; [apply two_ext|done|]. cbn [Z.eqb Pos.eqb].
  apply runs_bind. eapply runs_lift; [exact Rk|]. apply runs_bind. eapply runs_lift; [exact Rl|].
  pose proof (two_denotes false k Hkk) as Hd. rewrite (slice_contains s _ key k Hs Hd), andb_false_r, (slice_size _ k Hd).
  unfold present. cbn [tget tdelete]. fold c'. case_bool_decide as Ep; [|by apply runs_ret].
  apply runs_bind, (runs_stream _ 2); [lia|]. apply runs_bind. rewrite E.
  apply runs_put_item with (it := IData (hp false k)); [simpl; lia|constructor|done|lia|done|by apply small_hp|].
  rewrite <- E. apply runs_bind. eapply runs_lift; [exact Rv|]. apply runs_bind. cbn [app].
  eapply runs_mono.
  { apply (run_delete_aux (deleteAt f) c c' (present c (drop (length k) key))); try done; [simpl; lia|by constructor; [apply small_hp|]|].
    intros _. by apply Hrec. }
  intros r d1 K1 Hr. unfold present in Hr. destruct (tget c (drop (length k) key)); [|subst r; by apply runs_ret].
  destruct Hr as [-> Hh]. pose proof (keeps_plain _ _ _ K1 Hf) as Hf1. apply runs_bind, runs_killNode_at; [done|]. intros d2 K2.
  pose proof (keeps_plain _ _ _ K2 Hf1) as Hf2. pose proof (held_keeps U d1 d2 c' K2 HU' Hh) as Hh2.
  assert (wf (Ext k c')) as Hw' by done. apply runs_bind, runs_out; [done|]. cbn [app].
  change (encode (IList [IData (hp false k); iref c'])) with (enc (Ext k c')).
  apply runs_bind. eapply runs_lift; [by apply enc_rlp|].
  destruct (two_reads _ _ _ _ (two_ext k c') Hw') as (_ & _ & Rv'). apply runs_bind. eapply runs_lift; [exact Rv'|].
  apply runs_bind, run_two; [done..|]. destruct (is_branch c') eqn:Eb; cbn [negb].
  - apply runs_out; [done|]. by destruct c'.
  - by apply run_graft.
Qed.
(** On a branch. *)
Lemma within_tidy cs n key m : fits (S m) (Branch cs []) -> is_nibble n -> key_ok key -> length key = m -> Forall (within U) cs ->
  within U (tidy (set_child cs n (tdelete (child cs n) key))) -> within U (tdelete (child cs n) key).
Proof.
  intros (Hw & Hc & Hfl) Hn Hk Hm HU Ht. apply wf_branch in Hw as (Hl & _ & Hcs). pose proof (child_lookup cs n Hn Hl) as Hat.
  apply canonical_branch in Hc as [Hu Hc]. unfold uses in Hu. rewrite bool_decide_true in Hu by done.
  set (c' := tdelete (child cs n) key) in *. destruct (decide (c' = Nil)) as [->|Hn']; [done|].
  assert (child cs n <> Nil) as Hnn by (intros E; apply Hn'; unfold c'; by rewrite E).
  assert (in_use (set_child cs n c') = [] \/ (2 <= length (in_use (set_child cs n c')))%nat) as Hin.
  { right. rewrite in_use_length by (unfold set_child; by rewrite length_insert). unfold set_child.
    rewrite (filter_replace cs _ _ _ Hat) by (by apply is_nil_false). lia. }
  assert (tidy (set_child cs n c') = Branch (set_child cs n c') []) as E.
  { unfold tidy. destruct (in_use (set_child cs n c')) as [|i [|j l]]; [done| |done]. destruct Hin as [|Hin]; [done|simpl in Hin; lia]. }
  rewrite E in Ht. apply within_branch in Ht as [_ Ht]. by apply (proj1 (Forall_lookup _ _) Ht (Z.to_nat n)), set_child_at.
Qed.

Lemma delete_branch f cs n key s d : let c' := tdelete (child cs n) key in
  plain d -> fits (length (n :: key)) (Branch cs []) -> Forall (within U) cs -> Forall (held d) cs ->
  denotes s (n :: key) -> key_ok (n :: key) -> within U (tidy (set_child cs n c')) ->
  (forall d1, keeps U d d1 -> child cs n <> Nil ->
     runs (deleteAt f (enc (child cs n)) (mid 1 s)) d1 (deleted (present (child cs n) key) c')) ->
  runs (deleteAt (S f) (enc (Branch cs [])) s) d (deleted (present (child cs n) key) (tidy (set_child cs n c'))).
Proof.
  intros c' Hf Hfit HU Hh Hs Hk HUt Hrec. pose proof Hk as [Hn Hk']%key_head. pose proof (within_tidy cs n key _ Hfit Hn Hk' eq_refl HU HUt) as HUc.
  fold c' in HUc. pose proof Hfit as (Hw & _ & Hfl). pose proof Hw as (Hlen & _ & Hcs)%wf_branch. pose proof (child_lookup cs n Hn Hlen) as Hat.
  assert (Forall (fits (length key)) cs) as Hfs.
  { destruct Hfit as (_ & [_ Hca]%canonical_branch & (_ & _ & Hfl')%flat_branch). rewrite Forall_lookup in *. intros j x Hx. repeat split; eauto. }
  assert (fits (length key) c') as Hfc'.
  { apply tdelete_ok; [|done|done]. by apply (proj1 (Forall_lookup _ _) Hfs _ _ Hat). }
  cbn [deleteAt]. rewrite enc_isEmpty by done. apply runs_bind, runs_count17; [done|]. cbn [Z.eqb Pos.eqb].
  apply runs_bind. eapply runs_lift; [by apply (branch_sub cs [] 16)|]. rewrite (slice_size s _ Hs).
  replace (size (n :: key) =? 0) with false by (simpl length; lia). cbn [andb].
  apply runs_bind, (runs_stream _ 17); [lia|]. apply runs_bind. eapply runs_lift; [by apply (slice_head s n key)|]. apply runs_bind.
  eapply runs_mono.
  { apply (run_delete_items (deleteAt f) cs n c' (present (child cs n) key)); try done; [by destruct Hfc'|]. intros d1 K1.
    apply run_delete_aux; try done.
    - by apply (keeps_plain U d).
    - by apply child_wf.
    - apply (held_keeps U d d1); [done|by apply (proj1 (Forall_lookup _ _) HU _ _ Hat)|by apply (proj1 (Forall_lookup _ _) Hh _ _ Hat)].
    - by destruct Hfc'.
    - unfold is_nibble in Hn. rewrite length_map, length_take. lia.
    - by apply small_children, Forall_take.
    - unfold present. by intros ->.
    - by apply Hrec. }
  intros r d1 K1 Hr. destruct (present (child cs n) key); [|subst r; by apply runs_ret]. destruct Hr as [-> Hhc].
  pose proof (keeps_plain _ _ _ K1 Hf) as Hf1. apply runs_bind, runs_killNode_at; [done|]. intros d2 K2.
  pose proof (keeps_plain _ _ _ K2 Hf1) as Hf2. pose proof (held_keeps U d1 d2 c' K2 HUc Hhc) as Hhc2.
  set (cs' := set_child cs n c') in *. assert (length cs' = 16%nat) as Hlen' by (unfold cs', set_child; by rewrite length_insert).
  assert (Forall (fits (length key)) cs') as Hfs' by (by apply set_child_Forall).
  assert (wf (Branch cs' [])) as Hw'.
  { apply wf_branch. split; [done|]. split; [by split; [constructor|]|]. eapply Forall_impl; [|exact Hfs']. by intros x [? _]. }
  assert (stored d2 (Branch cs' [])) as Hst2 by (apply (stored_set_child U d); [by transitivity d1|done..]).
  assert (length (map iref cs' ++ [IData []]) = 17%nat) as Hl17 by (by rewrite length_app, length_map, Hlen').
  apply runs_bind, runs_out; [done|]. change (encode (IList (map iref cs' ++ [IData []]))) with (enc (Branch cs' [])).
  apply runs_bind. eapply runs_lift; [by apply enc_rlp|]. apply runs_bind. eapply runs_lift; [by apply unique_branch|].
  unfold deleted. destruct (in_use cs') as [|i [|j l]] eqn:Eu.
  - unfold tidy. rewrite Eu. by apply runs_out.
  - destruct (in_use_one cs' i Eu) as (Hi & _). unfold is_nibble in Hi. replace (i =? 255) with false by lia.
    apply (run_collapse cs' i (length key)); try done.
    + destruct Hk as [_ Hk]. simpl length in Hk. lia.
    + assert (Forall (within U) cs') as HU' by (by apply set_child_Forall).
      apply (proj1 (Forall_lookup _ _) HU' (Z.to_nat i)). by apply child_lookup.
    + by apply stored_branch in Hst2.
  - unfold tidy. rewrite Eu. by apply runs_out.
Qed.

Lemma delete_correct t : forall f s key n d, plain d -> fits n t -> within U t -> stored d t ->
  denotes s key -> key_ok key -> length key = n -> within U (tdelete t key) -> Forall (within U) (tmp_delete t key) -> (n < f)%nat ->
  runs (deleteAt f (enc t) s) d (deleted (present t key) (tdelete t key)).
Proof.
  induction t as [|k w|k c IH|cs w IH] using trie_ind'; intros f s key n d Hf Ht HU Hst Hs Hk Hn HUr HUt Hfuel.
  all: destruct f as [|f]; [lia|].
  - cbn [deleteAt]. by apply runs_ret.
  - destruct Ht as (Hw & _ & Hfl). apply delete_leaf; try done. cbn [flat] in Hfl. lia.
  - pose proof Ht as (Hw & [Hb Hc] & Hl & Hfl). pose proof Hw as (Hkk & Hne & Hwc & Hnc). destruct (decide (k `prefix_of` key)) as [E|E].
    + assert (length (drop (length k) key) = (n - length k)%nat) as Hld by (rewrite length_drop; lia).
      destruct (tdelete_ok c (n - length k) (drop (length k) key)) as (Hfit & Hnn & _); [done|by apply key_ok_drop|done|].
      cbn [tmp_delete] in HUt. inversion HUt as [|? ? HU1 HU2]; subst.
      apply delete_ext; try done; auto.
      * apply HU.
      * by destruct Hfit.
      * pose proof (tdelete_ok (Ext k c) _ key Ht Hk eq_refl) as ((Hwd & _) & _). cbn [tdelete] in Hwd. by rewrite bool_decide_true in Hwd.
      * intros _. apply (IH f _ _ (length key - length k)%nat); try done; [apply HU|apply Hst| |by apply key_ok_drop|destruct k; [done|simpl in *; lia]].
        rewrite <- (Nat2Z.id (length k)) at 2. apply slice_mid; [done|lia].
    + destruct (two_reads _ _ _ _ (two_ext k c) Hw) as (Rk & Rl & _). cbn [deleteAt]. rewrite enc_isEmpty by done.
      apply runs_bind. eapply runs_count2; [apply two_ext|done|]. cbn [Z.eqb Pos.eqb].
      apply runs_bind. eapply runs_lift; [exact Rk|]. apply runs_bind. eapply runs_lift; [exact Rl|].
      rewrite (slice_contains s _ key k Hs (two_denotes false k Hkk)), andb_false_r, bool_decide_false by done.
      apply runs_ret. unfold present. cbn [tget]. by rewrite bool_decide_false.
  - pose proof Ht as (Hw & Hc & Hfl). pose proof Hfl as (-> & Hpos & Hfl')%flat_branch. destruct key as [|m key]; [simpl in Hn; lia|].
    pose proof Hk as [Hm Hk']%key_head. pose proof Hw as (Hlen & _ & Hcs)%wf_branch. apply canonical_branch in Hc as [_ Hc].
    apply within_branch in HU as [_ HU]. apply stored_branch in Hst. subst n.
    cbn [tdelete tmp_delete] in *. rewrite (nth_child tdelete) in * by done. rewrite (nth_child tmp_delete) in HUt by done.
    pose proof (child_lookup cs m Hm Hlen) as Hat. unfold present. rewrite tget_branch by done.
    apply delete_branch; try done. intros d1 K1 Hnn. rewrite Forall_lookup in IH.
    apply (IH _ _ Hat f _ _ (length key)); try done.
    + by apply (keeps_plain U d).
    + rewrite Forall_lookup in *. repeat split; eauto.
    + by apply (proj1 (Forall_lookup _ _) HU _ _ Hat).
    + apply (held_keeps U d d1); [done|by apply (proj1 (Forall_lookup _ _) HU _ _ Hat)|by apply (proj1 (Forall_lookup _ _) Hst _ _ Hat)].
    + apply (slice_mid s _ Hs 1). simpl length. lia.
    + by apply (within_tidy cs m key (length key)).
    + simpl in Hfuel. lia.
Qed.
End Delete.
