(* ===== verification/ScTrieThms.v ===== *)
(** * The trie as a map

    What [GenericTrieDB] and [FatGenericTrieDB] promise their callers: a root is
    the hash of a trie whose nodes the database holds, [insert], [remove] and [at]
    are the operations of a finite map, the root is a function of the contents, and
    an older root stays readable.  The hash function is the real one; that it has
    no collision is assumed of a set [U] of nodes the caller chooses. *)

From S2P Require Import Prelude ScFixedHash ScSha3 ScRlp ScRlpWrite ScRlpRead ScRlpFields ScDb ScTrie ScTrieKeys ScTrieSpec ScTrieNode ScTrieInsert ScTrieMap ScTrieFlat ScTrieDelete.
From Stdlib Require Import ZifyBool.
Import GenericTrieDB.
Local Opaque sha3 encode.

(** ** Operations in sequence *)
Inductive op := Put (key value : bytes) | Del (key : bytes).
Definition key_of (o : op) : bytes := match o with Put k _ | Del k => k end.

(** The calls on a trie object, and what they do to the tree and to the map. *)
Definition call (h : bytes) (o : op) : T bytes :=
  match o with Put k v => insert h k v | Del k => remove h k end.
Fixpoint calls (h : bytes) (ops : list op) : T bytes :=
  match ops with [] => mret h | o :: ops => h ← call h o; calls h ops end.
Definition tcall (t : trie) (o : op) : trie :=
  match o with Put k v => tinsert t (nibbles k) v | Del k => tdelete t (nibbles k) end.
Fixpoint tcalls (t : trie) (ops : list op) : trie :=
  match ops with [] => t | o :: ops => tcalls (tcall t o) ops end.
Definition value_of (o : op) : bytes := match o with Put _ v => v | Del _ => [] end.
(** The value under [key] after [ops]: the last one given, or none. *)
Fixpoint final (ops : list op) (key : bytes) (v : bytes) : bytes :=
  match ops with
  | [] => v
  | o :: ops => final ops key (if bool_decide (key = key_of o) then value_of o else v)
  end.

(** Keys have [n] bytes; an empty value cannot be told from none. *)
Definition op_ok (n : nat) (o : op) : Prop :=
  bytes_ok (key_of o) /\ length (key_of o) = n /\ match o with Put _ v => value_ok v /\ v <> [] | Del _ => True end.

(** The nodes that are written are in [U]. *)
Definition covers (U : bytes -> Prop) (t : trie) (o : op) : Prop :=
  within U (tcall t o) /\ Forall (within U) (match o with Put k _ => tmp_insert t (nibbles k) | Del k => tmp_delete t (nibbles k) end).
Fixpoint covered (U : bytes -> Prop) (t : trie) (ops : list op) : Prop :=
  match ops with [] => True | o :: ops => covers U t o /\ covered U (tcall t o) ops end.

(** The nodes of a trie, and all that are written by a sequence of calls. *)
Fixpoint nodes (t : trie) : list bytes :=
  match t with
  | Nil => []
  | Leaf _ _ => [enc t]
  | Ext _ c => enc t :: nodes c
  | Branch cs _ => enc t :: concat (map nodes cs)
  end.
Definition writes_of (t : trie) (o : op) : list bytes :=
  nodes (tcall t o) ++ concat (map nodes (match o with Put k _ => tmp_insert t (nibbles k) | Del k => tmp_delete t (nibbles k) end)).
Fixpoint written (t : trie) (ops : list op) : list bytes :=
  match ops with [] => [] | o :: ops => writes_of t o ++ written (tcall t o) ops end.

(** No two of the nodes, nor the empty trie, have the same hash. *)
Definition collision_free (l : list bytes) : Prop :=
  forall x y, x ∈ null_node :: l -> y ∈ null_node :: l -> sha3 x = sha3 y -> x = y.

(** The database holds the trie. *)
Definition opens (d : OverlayDB) (t : trie) : Prop := known d (enc t) /\ stored d t.

Lemma nibbles_inj a b : bytes_ok a -> bytes_ok b -> nibbles a = nibbles b -> a = b.
Proof.
  revert b. induction a as [|x a IH]; intros [|y b] Ha Hb E; try done.
  apply bytes_ok_cons in Ha as [_ Ha], Hb as [_ Hb]. injection E as E1 E2 E3. f_equal; [|by apply IH].
  rewrite (Z.div_mod x 16), (Z.div_mod y 16) by lia. congruence.
Qed.

Lemma nodes_within L t : nodes t ⊆ L -> within (fun b => b ∈ L) t.
Proof.
  induction t as [|k v|k c IH|cs v IH] using trie_ind'; intros H; cbn [nodes] in H.
  - done.
  - apply H. by left.
  - split; [apply H; by left|]. apply IH. intros b Hb. apply H. by right.
  - apply within_branch. split; [apply H; by left|]. rewrite Forall_forall in *. intros c Hc. apply IH; [done|].
    intros b Hb. apply H. right. apply list_elem_of_In, in_concat. exists (nodes c). split; [|by apply list_elem_of_In].
    by apply in_map.
Qed.
Lemma nodes_within_all L l : concat (map nodes l) ⊆ L -> Forall (within (fun b => b ∈ L)) l.
Proof. induction l as [|t l IH]; cbn [map concat]; [by constructor|]. intros [H1 H2]%list_subseteq_app_iff_l. constructor; [by apply nodes_within|by apply IH]. Qed.
Lemma written_covered L ops : forall t, written t ops ⊆ L -> covered (fun b => b ∈ L) t ops.
Proof.
  induction ops as [|o ops IH]; intros t H; [done|]. cbn [written] in H. unfold writes_of in H.
  apply list_subseteq_app_iff_l in H as [[H1 H2]%list_subseteq_app_iff_l H3]. split; [|by apply IH]. split; [by apply nodes_within|by apply nodes_within_all].
Qed.
Lemma written_app a b : forall t, written t (a ++ b) = written t a ++ written (tcalls t a) b.
Proof. induction a as [|o a IH]; intros t; [done|]. cbn [app written tcalls]. by rewrite IH, app_assoc. Qed.

Section Trie.
Context (U : bytes -> Prop) (U_inj : forall x y, U x -> U y -> sha3 x = sha3 y -> x = y) (U_null : U null_node).
Context (n : nat) (Hn : Z.of_nat n < 2 ^ 29).
Abbreviation plain d := (m_enforceRefs d = false).

Lemma within_root t : within U t -> U (enc t).
Proof. intros H. destruct (decide (t = Nil)) as [->|]; [done|by apply within_self]. Qed.
Lemma enc_size t : (size (enc t) =? 0) = false.
Proof. pose proof (encode_ne (inode t)) as H. unfold enc. destruct (encode (inode t)); [done|simpl; lia]. Qed.
Lemma enc_rlp_any t : wf t -> rlp_of (enc t) = Ok (enc t).
Proof. intros H. destruct (decide (t = Nil)) as [->|]; [done|by apply enc_rlp]. Qed.
Lemma opens_keeps d d' t : keeps U d d' -> within U t -> opens d t -> opens d' t.
Proof.
  intros K HU [Hk Hs]. split; [|by apply (stored_keeps U d)].
  apply (kp_nodes _ _ _ K); [by apply within_root|apply encode_ne|done].
Qed.

Lemma key_nibbles k : bytes_ok k -> length k = n ->
  key_ok (nibbles k) /\ length (nibbles k) = (2 * n)%nat /\ denotes (NibbleSlice.mk k 0) (nibbles k).
Proof.
  intros Hk Hl. rewrite length_nibbles, Hl. split; [split; [by apply nibbles_ok|rewrite length_nibbles; lia]|].
  split; [done|]. apply denotes_key; [done|lia].
Qed.

(** The new root is written. *)
Lemma run_root h t (small : bool) d : plain d -> within U t -> stored d t ->
  runs U (when small (forceKillNode h);; forceInsertNode (enc t)) d (fun h' d' => h' = sha3 (enc t) /\ opens d' t).
Proof.
  intros Hf HU Hst. apply runs_bind.
  assert (forall Q : unit -> OverlayDB -> Prop, (forall d', keeps U d d' -> Q tt d') -> runs U (when small (forceKillNode h)) d Q) as Hkill.
  { intros Q HQ. unfold when. destruct small; [by apply runs_kill|]. by apply runs_ret, HQ. }
  apply Hkill. intros d1 K1. apply runs_insert; [done|by apply (keeps_plain U d)|by apply within_root|apply encode_ne|].
  intros d2 K2 Hk. split; [done|]. split; [done|]. apply (stored_keeps U d); [by transitivity d1|done|done].
Qed.

Lemma run_call t o d : plain d -> fits (2 * n) t -> within U t -> opens d t -> op_ok n o -> covers U t o ->
  runs U (call (sha3 (enc t)) o) d (fun h d' => h = sha3 (enc (tcall t o)) /\ opens d' (tcall t o)).
Proof.
  intros Hf Ht HU [Hk Hs] (Hb & Hl & Ho) [HUr HUt]. destruct (key_nibbles _ Hb Hl) as (Hkey & Hlen & Hden).
  pose proof Ht as (Hw & _). destruct o as [k v|k]; cbn [call tcall key_of] in *.
  - destruct Ho as [Hv Hv0]. unfold insert. apply runs_bind. eapply runs_node; [exact Hk|].
    apply runs_bind, runs_assert; [by rewrite enc_size|]. apply runs_bind. eapply runs_lift; [by apply enc_rlp_any|].
    apply runs_bind. eapply runs_mono.
    { apply (merge_correct U U_inj t) with (key := nibbles k); try done. unfold depth. lia. }
    intros b d1 K1 [-> Hst]. apply run_root; [by apply (keeps_plain U d)|done|done].
  - unfold remove. apply runs_bind. eapply runs_node; [exact Hk|]. apply runs_bind. eapply runs_lift; [by apply enc_rlp_any|].
    apply runs_bind. eapply runs_mono.
    { apply (delete_correct U U_inj t) with (n := (2 * n)%nat) (key := nibbles k); try done. unfold depth. lia. }
    intros b d1 K1 Hd. unfold deleted, present in Hd. destruct (tget t (nibbles k)) eqn:E.
    + destruct Hd as [-> Hst]. rewrite enc_size. cbn [negb]. apply run_root; [by apply (keeps_plain U d)|done|done].
    + subst b. rewrite (tdelete_absent t (2 * n)) by done. apply runs_ret. split; [done|]. by apply (opens_keeps d).
Qed.

Lemma fits_call t o : fits (2 * n) t -> op_ok n o -> fits (2 * n) (tcall t o).
Proof.
  intros Ht (Hb & Hl & Ho). destruct (key_nibbles _ Hb Hl) as (Hkey & Hlen & _). destruct o as [k v|k]; cbn [tcall key_of] in *.
  - destruct Ho. by apply fits_tinsert.
  - by apply tdelete_ok.
Qed.

Lemma tget_call t o key : fits (2 * n) t -> op_ok n o -> bytes_ok key ->
  default [] (tget (tcall t o) (nibbles key)) = if bool_decide (key = key_of o) then value_of o else default [] (tget t (nibbles key)).
Proof.
  intros Ht (Hb & Hl & Ho) Hbk. destruct (key_nibbles _ Hb Hl) as (Hkey & Hlen & _).
  assert (bool_decide (nibbles key = nibbles (key_of o)) = bool_decide (key = key_of o)) as E.
  { apply bool_decide_ext. split; [by apply nibbles_inj|by intros ->]. }
  destruct o as [k v|k]; cbn [tcall key_of value_of] in *.
  - destruct Ho as [Hv Hv0]. rewrite tget_tinsert, E by (done || apply Ht || by apply nibbles_ok). by destruct (bool_decide (key = k)).
  - destruct (tdelete_ok t (2 * n) (nibbles k) Ht Hkey Hlen) as (_ & _ & Hg). rewrite Hg, E by (by apply nibbles_ok). by destruct (bool_decide (key = k)).
Qed.

Lemma run_calls ops : forall t d, plain d -> fits (2 * n) t -> within U t -> opens d t -> Forall (op_ok n) ops -> covered U t ops ->
  runs U (calls (sha3 (enc t)) ops) d (fun h d' => h = sha3 (enc (tcalls t ops)) /\ opens d' (tcalls t ops)).
Proof.
  induction ops as [|o ops IH]; intros t d Hf Ht HU Ho Hops Hc; cbn [calls].
  - by apply runs_ret.
  - inversion Hops; subst. destruct Hc as [Hc Hcs]. apply runs_bind. eapply runs_mono; [by apply run_call|].
    intros h d1 K1 [-> Ho1]. apply (IH (tcall t o)); try done; [by apply (keeps_plain U d)|by apply fits_call|apply Hc].
Qed.
Lemma fits_calls ops : forall t, fits (2 * n) t -> Forall (op_ok n) ops -> fits (2 * n) (tcalls t ops).
Proof.
  induction ops as [|o ops IH]; intros t Ht Hops; [done|]. inversion Hops; subst. cbn [tcalls]. apply IH; [by apply fits_call|done].
Qed.
Lemma tget_calls ops key : bytes_ok key -> forall t, fits (2 * n) t -> Forall (op_ok n) ops ->
  default [] (tget (tcalls t ops) (nibbles key)) = final ops key (default [] (tget t (nibbles key))).
Proof.
  intros Hk. induction ops as [|o ops IH]; intros t Ht Hops; [done|]. inversion Hops; subst. cbn [tcalls final].
  rewrite IH by (done || by apply fits_call). f_equal. by apply tget_call.
Qed.

(** Reading. *)
Lemma read_trie t key d : wf t -> opens d t -> bytes_ok key -> size key < 2 ^ 29 ->
  at_ (sha3 (enc t)) key d = (Ok (default [] (tget t (nibbles key))), d).
Proof.
  intros Hw [Hk Hs] Hb Hz.
  assert (runs (fun _ => False) (at_ (sha3 (enc t)) key) d (fun b d' => b = default [] (tget t (nibbles key)) /\ d' = d)) as (b & d' & E & _ & -> & ->);
    [|done].
  unfold at_. apply runs_bind. eapply runs_node; [exact Hk|]. apply runs_bind. eapply runs_lift; [by apply enc_rlp_any|].
  apply at_correct; [done|done|apply denotes_key; [done|lia]|rewrite length_nibbles; unfold depth; lia].
Qed.

(** A new trie. *)
Lemma run_init d : plain d -> runs U init d (fun h d' => h = sha3 (enc Nil) /\ opens d' Nil).
Proof.
  intros Hf. unfold init, init_with. apply runs_bind. apply runs_lift with (a := null_node); [done|].
  apply runs_bind, runs_insert; [done|done|done|done|]. intros d1 K1 Hk. apply runs_bind.
  assert (runs U (setRoot (sha3 null_node)) d1 (fun _ d' => d' = d1)) as Hset.
  { unfold setRoot. cbn [setRoot_loop]. apply runs_bind. apply runs_eq with (a := Overlay.exists_ (sha3 null_node) d1); [done|].
    assert (Overlay.exists_ (sha3 null_node) d1 = true) as ->.
    { unfold known, Overlay.lookup, MemoryDB.lookup in Hk. unfold Overlay.exists_, MemoryDB.exists_.
      destruct (m_main d1 !! sha3 null_node) as [[x r]|]; [destruct (MemoryDB.live d1 r); [done|]|]; rewrite bool_decide_true in Hk by done;
        by rewrite Hk. }
    rewrite andb_false_r. apply runs_bind, runs_ret, runs_bind. eapply runs_node; [exact Hk|]. by apply runs_ret. }
  eapply runs_mono; [exact Hset|]. intros _ d2 _ ->. apply runs_bind. eapply runs_node; [exact Hk|].
  apply runs_bind, runs_assert; [done|]. by apply runs_ret.
Qed.
End Trie.

(** A trie object that is made and used. *)
Definition create (ops : list op) : T bytes := h ← init; calls h ops.

Section Create.
Context (U : bytes -> Prop) (U_inj : forall x y, U x -> U y -> sha3 x = sha3 y -> x = y) (U_null : U null_node).
Context (n : nat) (Hn : Z.of_nat n < 2 ^ 29).

Lemma fits_nil m : fits m Nil.
Proof. done. Qed.
Lemma run_create ops d : m_enforceRefs d = false -> Forall (op_ok n) ops -> covered U Nil ops ->
  runs U (create ops) d (fun h d' => h = sha3 (enc (tcalls Nil ops)) /\ opens d' (tcalls Nil ops)).
Proof.
  intros Hf Ho Hc. unfold create. apply runs_bind. eapply runs_mono; [by apply run_init|]. intros h d1 K1 [-> Hop].
  apply (run_calls U U_inj U_null n Hn); try done. by apply (keeps_plain U d).
Qed.
Lemma read_create ops d key : Forall (op_ok n) ops -> opens d (tcalls Nil ops) -> bytes_ok key -> size key < 2 ^ 29 ->
  at_ (sha3 (enc (tcalls Nil ops))) key d = (Ok (final ops key []), d).
Proof.
  intros Ho Hop Hb Hz. destruct (fits_calls n Hn ops Nil (fits_nil _) Ho) as (Hw & _).
  rewrite read_trie by done. by rewrite (tget_calls n Hn ops key Hb Nil (fits_nil _) Ho).
Qed.
Lemma within_calls ops : forall t, within U t -> covered U t ops -> within U (tcalls t ops).
Proof. induction ops as [|o ops IH]; intros t HU Hc; [done|]. destruct Hc as [[Hc _] Hcs]. by apply IH. Qed.

(** Tries with the same values are the same. *)
Lemma same_values t1 t2 : fits (2 * n) t1 -> fits (2 * n) t2 ->
  (forall key, bytes_ok key -> length key = n -> default [] (tget t1 (nibbles key)) = default [] (tget t2 (nibbles key))) -> t1 = t2.
Proof.
  intros (Hw1 & Hc1 & Hf1) (Hw2 & Hc2 & Hf2) Hs. apply canonical_unique; try done. intros key Hk.
  destruct (decide (length key = 2 * n)%nat) as [Hl|Hl].
  - assert (Nat.odd (length key) = false) as Hodd by (rewrite Hl; apply Nat.odd_even).
    destruct (pack_ok key Hk) as [Hb _]. pose proof (nibbles_pack key Hk Hodd) as E.
    assert (length (pack key) = n) as Hlp by (pose proof (length_nibbles (pack key)) as L; rewrite E in L; lia).
    specialize (Hs (pack key) Hb Hlp). rewrite E in Hs.
    destruct (tget t1 key) as [v1|] eqn:E1, (tget t2 key) as [v2|] eqn:E2; simpl in Hs; try done; [by subst|..].
    + destruct (tget_found t1 _ key v1 Hw1 Hf1 Hk E1). by subst.
    + destruct (tget_found t2 _ key v2 Hw2 Hf2 Hk E2). by subst.
  - destruct (tget t1 key) as [v1|] eqn:E1; [by destruct (tget_found t1 _ key v1 Hw1 Hf1 Hk E1)|].
    destruct (tget t2 key) as [v2|] eqn:E2; [by destruct (tget_found t2 _ key v2 Hw2 Hf2 Hk E2)|done].
Qed.
End Create.

(** ** Concrete tries *)
Definition collision_freeb (l : list bytes) : bool :=
  let hs := map (fun x => (sha3 x, x)) (remove_dups (null_node :: l)) in
  forallb (fun a => forallb (fun b => negb (bool_decide (a.1 = b.1)) || bool_decide (a.2 = b.2)) hs) hs.
Lemma collision_free_check l : collision_freeb l = true -> collision_free l.
Proof.
  unfold collision_freeb, collision_free. intros H x y Hx Hy E. rewrite forallb_forall in H.
  assert (forall z, z ∈ null_node :: l -> List.In (sha3 z, z) (map (fun x => (sha3 x, x)) (remove_dups (null_node :: l)))) as Hin.
  { intros z Hz. apply (in_map (fun x => (sha3 x, x))). by apply list_elem_of_In, elem_of_remove_dups. }
  specialize (H _ (Hin x Hx)). rewrite forallb_forall in H. specialize (H _ (Hin y Hy)).
  cbn [fst snd] in H. rewrite bool_decide_true in H by done. by apply bool_decide_eq_true in H.
Qed.
Lemma collision_free_mono l l' : l' ⊆ l -> collision_free l -> collision_free l'.
Proof.
  intros Hl H x y Hx Hy. apply H; [revert Hx|revert Hy]; rewrite !elem_of_cons; intros [->|Hz]; auto.
Qed.

(** Two keys, one with a long value that is removed again. *)
Definition first_op : list op := [Put [0x12] (replicate 40 7)].
Definition more_ops : list op := [Put [0x34] [1]; Del [0x12]].
Definition other_ops : list op := [Put [0x34] [1]].
Lemma ops_free : collision_free (written Nil (first_op ++ more_ops) ++ written Nil other_ops).
Proof. apply collision_free_check. vm_compute. reflexivity. Qed.
Lemma ops_are_ok : Forall (op_ok 1) (first_op ++ more_ops) /\ Forall (op_ok 1) other_ops.
Proof.
  split; repeat constructor; cbn [key_of]; try (unfold is_byte; simpl; lia); try done.
Qed.

(** Take the nodes written as the set [U]. *)
Ltac known_nodes L :=
  set (U := fun b : bytes => b ∈ null_node :: L);
  assert (U null_node) as H0 by (by left);
  assert (L ⊆ null_node :: L) as HL by (intros ? ?; by right).

(** ** The claims *)

(** C7: A trie object is a finite map: from a new trie, any sequence of [insert] and [remove]
    calls on keys of one length succeeds, and under the root it ends with, [at]
    returns for every key the value last inserted and not removed since, and the
    empty string otherwise; unless two of the nodes written have the same hash. *)
Theorem trie_is_a_map (n : nat) (ops : list op) (d : OverlayDB) :
  collision_free (written Nil ops) -> Z.of_nat n < 2 ^ 29 ->
  m_enforceRefs d = false -> Forall (op_ok n) ops ->
  exists h d', create ops d = (Ok h, d') /\
    forall key, bytes_ok key -> size key < 2 ^ 29 -> at_ h key d' = (Ok (final ops key []), d').
Proof.
  intros Hi Hn Hf Ho. known_nodes (written Nil ops). pose proof (written_covered _ ops Nil HL) as Hc. fold U in Hc.
  destruct (run_create U Hi H0 n Hn ops d Hf Ho Hc) as (h & d' & E & _ & -> & Hop).
  exists (sha3 (enc (tcalls Nil ops))), d'. split; [done|]. intros key Hb Hz. by apply (read_create n Hn).
Qed.
Lemma trie_is_a_map_witness : exists h d', create (first_op ++ more_ops) (OverlayDB_new None) = (Ok h, d') /\
  at_ h [0x34] d' = (Ok [1], d') /\ at_ h [0x12] d' = (Ok [], d').
Proof.
  destruct (trie_is_a_map 1 (first_op ++ more_ops) (OverlayDB_new None)) as (h & d' & E & R).
  - apply (collision_free_mono _ _ (list_subseteq_app_l _ _ _ (reflexivity _)) ops_free).
  - reflexivity.
  - reflexivity.
  - apply ops_are_ok.
  - exists h, d'. split; [exact E|]. split; apply R; try (by repeat constructor); reflexivity.
Defined.

(** C8: The root is a function of the contents, and tells them apart.  Take two sequences
    of insertions and removals, with keys of one length below [2^29] and inserted
    values that are not empty (and shorter than [2^32] bytes), run on any two databases
    that do not enforce reference counts, and suppose that no two of the nodes they
    write have the same hash.  Both tries are made, and they have the same root if
    and only if they hold the same value under every key of that length. *)
Theorem root_commits_to_contents (n : nat) (ops1 ops2 : list op) (d1 d2 : OverlayDB) :
  collision_free (written Nil ops1 ++ written Nil ops2) -> Z.of_nat n < 2 ^ 29 ->
  m_enforceRefs d1 = false -> m_enforceRefs d2 = false -> Forall (op_ok n) ops1 -> Forall (op_ok n) ops2 ->
  exists h1 h2, fst (create ops1 d1) = Ok h1 /\ fst (create ops2 d2) = Ok h2 /\
    (h1 = h2 <-> forall key, bytes_ok key -> length key = n -> final ops1 key [] = final ops2 key []).
Proof.
  intros Hi Hn Hf1 Hf2 Ho1 Ho2. known_nodes (written Nil ops1 ++ written Nil ops2). apply list_subseteq_app_iff_l in HL as [HL1 HL2].
  assert (covered U Nil ops1) as Hc1 by (by apply written_covered).
  assert (covered U Nil ops2) as Hc2 by (by apply written_covered).
  destruct (run_create U Hi H0 n Hn ops1 d1 Hf1 Ho1 Hc1) as (h1 & e1 & E1 & K1 & -> & Hop1).
  destruct (run_create U Hi H0 n Hn ops2 d2 Hf2 Ho2 Hc2) as (h2 & e2 & E2 & _ & -> & _).
  exists (sha3 (enc (tcalls Nil ops1))), (sha3 (enc (tcalls Nil ops2))). rewrite E1, E2. split; [done|]. split; [done|]. split.
  - intros E key Hb Hl.
    destruct (run_create U Hi H0 n Hn ops2 e1 (keeps_plain U _ _ K1 Hf1) Ho2 Hc2) as (h & e & _ & K & _ & Hop2).
    pose proof (opens_keeps U H0 _ _ _ K (within_calls U ops1 Nil I Hc1) Hop1) as Hop1'.
    pose proof (read_create n Hn ops1 e key Ho1 Hop1' Hb ltac:(lia)) as R1.
    rewrite E, (read_create n Hn ops2 e key Ho2 Hop2 Hb ltac:(lia)) in R1. by injection R1.
  - intros Hs. f_equal. f_equal. apply (same_values n Hn).
    + exact (fits_calls n Hn ops1 Nil (fits_nil _) Ho1).
    + exact (fits_calls n Hn ops2 Nil (fits_nil _) Ho2).
    + intros key Hb Hl.
      rewrite (tget_calls n Hn ops1 key Hb Nil (fits_nil _) Ho1), (tget_calls n Hn ops2 key Hb Nil (fits_nil _) Ho2). by apply Hs.
Qed.
Lemma root_commits_to_contents_witness : exists h, fst (create (first_op ++ more_ops) (OverlayDB_new None)) = Ok h /\
  fst (create other_ops (OverlayDB_new (Some ∅))) = Ok h.
Proof.
  destruct (root_commits_to_contents 1 (first_op ++ more_ops) other_ops (OverlayDB_new None) (OverlayDB_new (Some ∅)))
    as (h1 & h2 & E1 & E2 & H).
  - exact ops_free.
  - reflexivity.
  - reflexivity.
  - reflexivity.
  - apply ops_are_ok.
  - apply ops_are_ok.
  - exists h1. split; [exact E1|]. rewrite E2. f_equal. symmetry. apply H. intros key _ _. cbn [app first_op more_ops other_ops final key_of value_of].
    destruct (decide (key = [0x12])) as [->|]; [reflexivity|]. by rewrite !(bool_decide_false (key = [0x12])).
Defined.

(** The past is kept: after more insertions and removals, the root a trie had before them
    still reads as it did. *)
Theorem old_root_readable (n : nat) (ops more : list op) (d : OverlayDB) :
  collision_free (written Nil (ops ++ more)) -> Z.of_nat n < 2 ^ 29 ->
  m_enforceRefs d = false -> Forall (op_ok n) (ops ++ more) ->
  exists h h' d1 d2, create ops d = (Ok h, d1) /\ calls h more d1 = (Ok h', d2) /\
    forall key, bytes_ok key -> size key < 2 ^ 29 -> at_ h key d2 = (Ok (final ops key []), d2).
Proof.
  intros Hi Hn Hf [Ho Hm]%Forall_app. known_nodes (written Nil (ops ++ more)).
  rewrite written_app in HL at 1. apply list_subseteq_app_iff_l in HL as [HL1 HL2]. assert (covered U Nil ops) as Hc by (by apply written_covered).
  assert (covered U (tcalls Nil ops) more) as Hcm by (by apply written_covered).
  destruct (run_create U Hi H0 n Hn ops d Hf Ho Hc) as (h & d1 & E & K & -> & Hop).
  pose proof (within_calls U ops Nil I Hc) as HU.
  destruct (run_calls U Hi H0 n Hn more (tcalls Nil ops) d1) as (h2 & d2 & E2 & K2 & _); [by apply (keeps_plain U d)|exact (fits_calls n Hn ops Nil (fits_nil _) Ho)|done..|].
  exists (sha3 (enc (tcalls Nil ops))), h2, d1, d2. split; [done|]. split; [done|]. intros key Hb Hz.
  exact (read_create n Hn ops d2 key Ho (opens_keeps U H0 _ _ _ K2 HU Hop) Hb Hz).
Qed.
Lemma old_root_readable_witness : exists h h' d1 d2, create first_op (OverlayDB_new None) = (Ok h, d1) /\
  calls h more_ops d1 = (Ok h', d2) /\ at_ h [0x12] d2 = (Ok (replicate 40 7), d2).
Proof.
  destruct (old_root_readable 1 first_op more_ops (OverlayDB_new None)) as (h & h' & d1 & d2 & E1 & E2 & R).
  - apply (collision_free_mono _ _ (list_subseteq_app_l _ _ _ (reflexivity _)) ops_free).
  - reflexivity.
  - reflexivity.
  - apply ops_are_ok.
  - exists h, h', d1, d2. split; [exact E1|]. split; [exact E2|]. apply R; [by repeat constructor|reflexivity].
Defined.

(** ** Hashed keys: [FatGenericTrieDB] *)
Definition hashed (o : op) : op := match o with Put k v => Put (sha3 k) v | Del k => Del (sha3 k) end.
Definition fat_call (h : bytes) (o : op) : T bytes :=
  match o with Put k v => FatGenericTrieDB.insert h k v | Del k => FatGenericTrieDB.remove h k end.
Fixpoint fat_calls (h : bytes) (ops : list op) : T bytes :=
  match ops with [] => mret h | o :: ops => h ← fat_call h o; fat_calls h ops end.
Definition fat_create (ops : list op) : T bytes := h ← init; fat_calls h ops.
Definition put_ok (o : op) : Prop := match o with Put _ v => value_ok v /\ v <> [] | Del _ => True end.

Lemma hashed_ok o : put_ok o -> op_ok 32 (hashed o).
Proof. intros H. destruct o; (split; [apply sha3_bytes_ok|]); (split; [apply length_sha3|done]). Qed.
Lemma final_hashed ops key : (forall o, o ∈ ops -> sha3 key = sha3 (key_of o) -> key = key_of o) -> forall v,
  final (map hashed ops) (sha3 key) v = final ops key v.
Proof.
  induction ops as [|o ops IH]; intros Hk v; [done|]. cbn [map final]. rewrite IH by (intros o' Ho'; apply Hk; by right). f_equal.
  replace (key_of (hashed o)) with (sha3 (key_of o)) by (by destruct o). replace (value_of (hashed o)) with (value_of o) by (by destruct o).
  apply if_ext. split; [apply Hk; by left|by intros ->].
Qed.

Section Fat.
Context (U : bytes -> Prop) (U_inj : forall x y, U x -> U y -> sha3 x = sha3 y -> x = y) (U_null : U null_node).

Lemma run_fat_call t o d : m_enforceRefs d = false -> fits 64 t -> within U t -> opens d t -> put_ok o -> covers U t (hashed o) ->
  runs U (fat_call (sha3 (enc t)) o) d (fun h d' => h = sha3 (enc (tcall t (hashed o))) /\ opens d' (tcall t (hashed o))).
Proof.
  intros Hf Ht HU Hop Ho Hc. pose proof (run_call U U_inj U_null 32 ltac:(done) t (hashed o) d Hf Ht HU Hop (hashed_ok o Ho) Hc) as H.
  destruct o as [k v|k]; cbn [fat_call hashed call] in *; unfold FatGenericTrieDB.insert, FatGenericTrieDB.remove; [|exact H].
  apply runs_bind. eapply runs_mono; [exact H|].
  intros h d1 K1 [-> Hop1]. apply runs_bind. exists tt, (MemoryDB.insertAux (sha3 k) k d1). split; [done|].
  assert (keeps U d1 (MemoryDB.insertAux (sha3 k) k d1)) as K2 by (by split).
  split; [done|]. apply runs_ret. split; [done|]. apply (opens_keeps U U_null d1); [done|apply Hc|done].
Qed.
Lemma run_fat_calls ops : forall t d, m_enforceRefs d = false -> fits 64 t -> within U t -> opens d t -> Forall put_ok ops ->
  covered U t (map hashed ops) ->
  runs U (fat_calls (sha3 (enc t)) ops) d (fun h d' => h = sha3 (enc (tcalls t (map hashed ops))) /\ opens d' (tcalls t (map hashed ops))).
Proof.
  induction ops as [|o ops IH]; intros t d Hf Ht HU Ho Hops Hc; cbn [fat_calls map tcalls].
  - by apply runs_ret.
  - inversion Hops; subst. destruct Hc as [Hc Hcs]. apply runs_bind. eapply runs_mono; [by apply run_fat_call|].
    intros h d1 K1 [-> Ho1]. apply (IH (tcall t (hashed o))).
    + by apply (keeps_plain U d).
    + apply (fits_call 32 ltac:(done)); [done|by apply hashed_ok].
    + apply Hc.
    + done.
    + done.
    + done.
Qed.
End Fat.

(** The tries of the state ([SecureTrieDB]) are maps on keys of any length: a sequence of
    insertions and removals on a new one succeeds, and each key then reads as last
    written, unless two of the nodes written or two of the keys have the same hash. *)
Theorem secure_trie_is_a_map (ops : list op) (d : OverlayDB) :
  collision_free (written Nil (map hashed ops)) -> m_enforceRefs d = false -> Forall put_ok ops ->
  exists h d', fat_create ops d = (Ok h, d') /\
    forall key, (forall o, o ∈ ops -> sha3 key = sha3 (key_of o) -> key = key_of o) ->
      FatGenericTrieDB.at_ h key d' = (Ok (final ops key []), d') /\
      FatGenericTrieDB.contains h key d' = (Ok (negb (bool_decide (final ops key [] = []))), d').
Proof.
  intros Hi Hf Ho. known_nodes (written Nil (map hashed ops)). pose proof (written_covered _ _ _ HL) as Hc. fold U in Hc.
  assert (Forall (op_ok 32) (map hashed ops)) as Hok by (apply Forall_map; eapply Forall_impl; [|exact Ho]; apply hashed_ok).
  assert (runs U (fat_create ops) d (fun h d' => h = sha3 (enc (tcalls Nil (map hashed ops))) /\ opens d' (tcalls Nil (map hashed ops))))
    as (h & d' & E & _ & -> & Hop).
  { unfold fat_create. apply runs_bind. eapply runs_mono; [by apply run_init|]. intros h d1 K1 [-> Hop].
    apply (run_fat_calls U Hi H0); try done. by apply (keeps_plain U d). }
  exists (sha3 (enc (tcalls Nil (map hashed ops)))), d'. split; [done|]. intros key Hk.
  assert (GenericTrieDB.at_ (sha3 (enc (tcalls Nil (map hashed ops)))) (sha3 key) d' = (Ok (final ops key []), d')) as R.
  { rewrite (read_create 32 ltac:(done) _ d' (sha3 key) Hok Hop (sha3_bytes_ok _)) by (by rewrite length_sha3). by rewrite final_hashed. }
  split; [exact R|]. unfold FatGenericTrieDB.contains, contains_. rewrite (SE_bind_ok _ _ _ _ _ R).
  by destruct (final ops key []).
Qed.
Lemma secure_trie_is_a_map_witness : exists h d', fat_create other_ops (OverlayDB_new None) = (Ok h, d') /\
  FatGenericTrieDB.at_ h [0x34] d' = (Ok [1], d') /\ FatGenericTrieDB.contains h [0x34] d' = (Ok true, d').
Proof.
  destruct (secure_trie_is_a_map other_ops (OverlayDB_new None)) as (h & d' & E & R).
  - apply collision_free_check. vm_compute. reflexivity.
  - reflexivity.
  - by repeat constructor.
  - exists h, d'. split; [exact E|]. apply (R [0x34]). intros o Ho _. apply list_elem_of_singleton in Ho as ->. reflexivity.
Defined.
