(* ===== verification/ScState.v ===== *)
(** * Accounts and the state

    Model of [src/src/scaccount.h], [src/src/scstate.h] and
    [src/src/scstate.cpp], and of the [CodeSizeCache] of [src/src/sccommon.h].

    - [Account] and [State] are records of the members; a member function of
      [State] is a computation [SE (State D) _].
    - The [Account*] that [State::account] returns points into [m_cache]; the
      model returns the account's value and writes back with [put_account].
    - The trie classes of [src/src/scdb.h] are reached through the class
      [TrieDB]: a database of type [D] in which tries live under their root
      hashes.  What the state relies on from it is [TrieLaws].
    - The members drawn at random (which cache entry to drop) come from the
      field [random], an arbitrary sequence of numbers. *)

From S2P Require Import Prelude ScFixedHash ScSha3 ScRlp.

(** [EmptyTrie] *)
Definition EmptyTrie : bytes := sha3 [0x80].

Lemma EmptyTrie_hash : length EmptyTrie = 32%nat /\ bytes_ok EmptyTrie.
Proof. unfold EmptyTrie. split; [apply length_sha3|apply sha3_bytes_ok]. Qed.
Lemma EmptySHA3_eq : sha3 [] = EmptySHA3.
Proof. unfold EmptySHA3. exact eq_refl. Qed.
Lemma EmptySHA3_hash : length EmptySHA3 = 32%nat /\ bytes_ok EmptySHA3.
Proof. unfold EmptySHA3. split; [apply length_sha3|apply sha3_bytes_ok]. Qed.
Lemma EmptyTrie_nonzero : FixedHash.to_bool EmptyTrie = true.
Proof. vm_compute. reflexivity. Qed.

(** ** [class Account] *)
Record Account := mkAccount {
  m_isAlive : bool;
  m_isUnchanged : bool;
  m_hasNewCode : bool;
  m_nonce : Z;
  m_balance : Z;
  m_storageRoot : bytes;
  m_codeHash : bytes;
  m_storageOverlay : gmap Z Z;
  m_codeCache : bytes
}.
Definition acc_m_isAlive (x : bool) (r : Account) : Account :=
  mkAccount x (m_isUnchanged r) (m_hasNewCode r) (m_nonce r) (m_balance r) (m_storageRoot r) (m_codeHash r) (m_storageOverlay r) (m_codeCache r).
Definition acc_m_isUnchanged (x : bool) (r : Account) : Account :=
  mkAccount (m_isAlive r) x (m_hasNewCode r) (m_nonce r) (m_balance r) (m_storageRoot r) (m_codeHash r) (m_storageOverlay r) (m_codeCache r).
Definition acc_m_hasNewCode (x : bool) (r : Account) : Account :=
  mkAccount (m_isAlive r) (m_isUnchanged r) x (m_nonce r) (m_balance r) (m_storageRoot r) (m_codeHash r) (m_storageOverlay r) (m_codeCache r).
Definition acc_m_nonce (x : Z) (r : Account) : Account :=
  mkAccount (m_isAlive r) (m_isUnchanged r) (m_hasNewCode r) x (m_balance r) (m_storageRoot r) (m_codeHash r) (m_storageOverlay r) (m_codeCache r).
Definition acc_m_balance (x : Z) (r : Account) : Account :=
  mkAccount (m_isAlive r) (m_isUnchanged r) (m_hasNewCode r) (m_nonce r) x (m_storageRoot r) (m_codeHash r) (m_storageOverlay r) (m_codeCache r).
Definition acc_m_storageRoot (x : bytes) (r : Account) : Account :=
  mkAccount (m_isAlive r) (m_isUnchanged r) (m_hasNewCode r) (m_nonce r) (m_balance r) x (m_codeHash r) (m_storageOverlay r) (m_codeCache r).
Definition acc_m_codeHash (x : bytes) (r : Account) : Account :=
  mkAccount (m_isAlive r) (m_isUnchanged r) (m_hasNewCode r) (m_nonce r) (m_balance r) (m_storageRoot r) x (m_storageOverlay r) (m_codeCache r).
Definition acc_m_storageOverlay (x : gmap Z Z) (r : Account) : Account :=
  mkAccount (m_isAlive r) (m_isUnchanged r) (m_hasNewCode r) (m_nonce r) (m_balance r) (m_storageRoot r) (m_codeHash r) x (m_codeCache r).
Definition acc_m_codeCache (x : bytes) (r : Account) : Account :=
  mkAccount (m_isAlive r) (m_isUnchanged r) (m_hasNewCode r) (m_nonce r) (m_balance r) (m_storageRoot r) (m_codeHash r) (m_storageOverlay r) x.

(** [Account()]: a dead account. *)
Definition Account_dead : Account :=
  mkAccount false false false 0 0 EmptyTrie EmptySHA3 ∅ [].
(** [Account(_nonce, _balance, Changed)] *)
Definition Account_alive (_nonce _balance : Z) : Account :=
  mkAccount true false false _nonce _balance EmptyTrie EmptySHA3 ∅ [].
(** [Account(_nonce, _balance, _contractRoot, _codeHash, Unchanged)] *)
Definition Account_loaded (_nonce _balance : Z) (_contractRoot _codeHash : bytes) : Account :=
  mkAccount true true false _nonce _balance _contractRoot _codeHash ∅ [].

Definition isDirty (a : Account) : bool := negb (m_isUnchanged a).
Definition isEmpty (a : Account) : bool :=
  (m_nonce a =? 0) && (m_balance a =? 0) && FixedHash.eqb (m_codeHash a) EmptySHA3.
Definition changed (a : Account) : Account := acc_m_isUnchanged false a.
Definition untouch (a : Account) : Account := acc_m_isUnchanged true a.

Definition Account_kill (a : Account) : Account :=
  changed (acc_m_nonce 0 (acc_m_balance 0 (acc_m_storageRoot EmptyTrie
    (acc_m_codeHash EmptySHA3 (acc_m_storageOverlay ∅ (acc_m_isAlive false a)))))).
Definition Account_addBalance (_value : Z) (a : Account) : Account :=
  changed (acc_m_balance (u256 (m_balance a + _value)) a).
Definition Account_incNonce (a : Account) : Account :=
  changed (acc_m_nonce (u256 (m_nonce a + 1)) a).
Definition Account_setNonce (_nonce : Z) (a : Account) : Account :=
  changed (acc_m_nonce _nonce a).
Definition Account_setStorage (_p _v : Z) (a : Account) : Account :=
  changed (acc_m_storageOverlay (<[_p := _v]> (m_storageOverlay a)) a).
Definition setStorageCache (_p _v : Z) (a : Account) : Account :=
  acc_m_storageOverlay (<[_p := _v]> (m_storageOverlay a)) a.
Definition Account_setNewCode (_code : bytes) (a : Account) : Account :=
  acc_m_codeHash (sha3 _code) (acc_m_hasNewCode true (acc_m_codeCache _code a)).
Definition resetCode (a : Account) : Account :=
  acc_m_codeHash EmptySHA3 (acc_m_hasNewCode false (acc_m_codeCache [] a)).

(** ** [struct Change] *)
Inductive Change :=
| Balance (address : bytes) (value : Z)
| Storage (address : bytes) (key value : Z)
| Nonce (address : bytes)
| Create (address : bytes)
| NewCode (address : bytes)
| Touch (address : bytes).

Definition change_address (c : Change) : bytes :=
  match c with
  | Balance a _ | Storage a _ _ | Nonce a | Create a | NewCode a | Touch a => a
  end.

(** ** The tries

    [OverlayDB] and [SecureTrieDB<KeyType, OverlayDB>]: a trie object is a
    pointer to the database and a root. *)
Class TrieDB (D : Type) := {
  db_lookup : bytes -> D -> bytes;                     (** [lookup(_h)] *)
  db_insert : bytes -> bytes -> D -> D;                (** [insert(_h, _v)] *)
  trie_init : SE D bytes;                              (** [init()]: the new root *)
  trie_open : bytes -> SE D unit;                      (** [setRoot(_root)] *)
  trie_root : bytes -> D -> outcome bytes;             (** [root()] *)
  trie_at : bytes -> bytes -> D -> outcome bytes;      (** [at(_key)] under a root *)
  trie_insert : bytes -> bytes -> bytes -> SE D bytes; (** [insert(_key, _value)]: the new root *)
  trie_remove : bytes -> bytes -> SE D bytes           (** [remove(_key)]: the new root *)
}.

(** ** [class State]

    The back of [m_changeLog] is the head of the list. *)
Record State (D : Type) := mkState {
  m_db : D;
  m_state_root : bytes;
  m_cache : gmap bytes Account;
  m_unchangedCacheEntries : list bytes;
  m_nonExistingAccountsCache : gset bytes;
  m_touched : gset bytes;
  m_accountStartNonce : Z;
  m_changeLog : list Change;
  codeSizeCache : gmap bytes Z;
  random : nat -> Z
}.
Arguments mkState {D}.
Arguments m_db {D}.
Arguments m_state_root {D}.
Arguments m_cache {D}.
Arguments m_unchangedCacheEntries {D}.
Arguments m_nonExistingAccountsCache {D}.
Arguments m_touched {D}.
Arguments m_accountStartNonce {D}.
Arguments m_changeLog {D}.
Arguments codeSizeCache {D}.
Arguments random {D}.
Definition set_m_db {D : Type} (x : D) (r : State D) : State D :=
  mkState x (m_state_root r) (m_cache r) (m_unchangedCacheEntries r) (m_nonExistingAccountsCache r) (m_touched r) (m_accountStartNonce r) (m_changeLog r) (codeSizeCache r) (random r).
Definition set_m_state_root {D : Type} (x : bytes) (r : State D) : State D :=
  mkState (m_db r) x (m_cache r) (m_unchangedCacheEntries r) (m_nonExistingAccountsCache r) (m_touched r) (m_accountStartNonce r) (m_changeLog r) (codeSizeCache r) (random r).
Definition set_m_cache {D : Type} (x : gmap bytes Account) (r : State D) : State D :=
  mkState (m_db r) (m_state_root r) x (m_unchangedCacheEntries r) (m_nonExistingAccountsCache r) (m_touched r) (m_accountStartNonce r) (m_changeLog r) (codeSizeCache r) (random r).
Definition set_m_unchangedCacheEntries {D : Type} (x : list bytes) (r : State D) : State D :=
  mkState (m_db r) (m_state_root r) (m_cache r) x (m_nonExistingAccountsCache r) (m_touched r) (m_accountStartNonce r) (m_changeLog r) (codeSizeCache r) (random r).
Definition set_m_nonExistingAccountsCache {D : Type} (x : gset bytes) (r : State D) : State D :=
  mkState (m_db r) (m_state_root r) (m_cache r) (m_unchangedCacheEntries r) x (m_touched r) (m_accountStartNonce r) (m_changeLog r) (codeSizeCache r) (random r).
Definition set_m_touched {D : Type} (x : gset bytes) (r : State D) : State D :=
  mkState (m_db r) (m_state_root r) (m_cache r) (m_unchangedCacheEntries r) (m_nonExistingAccountsCache r) x (m_accountStartNonce r) (m_changeLog r) (codeSizeCache r) (random r).
Definition set_m_accountStartNonce {D : Type} (x : Z) (r : State D) : State D :=
  mkState (m_db r) (m_state_root r) (m_cache r) (m_unchangedCacheEntries r) (m_nonExistingAccountsCache r) (m_touched r) x (m_changeLog r) (codeSizeCache r) (random r).
Definition set_m_changeLog {D : Type} (x : list Change) (r : State D) : State D :=
  mkState (m_db r) (m_state_root r) (m_cache r) (m_unchangedCacheEntries r) (m_nonExistingAccountsCache r) (m_touched r) (m_accountStartNonce r) x (codeSizeCache r) (random r).
Definition set_codeSizeCache {D : Type} (x : gmap bytes Z) (r : State D) : State D :=
  mkState (m_db r) (m_state_root r) (m_cache r) (m_unchangedCacheEntries r) (m_nonExistingAccountsCache r) (m_touched r) (m_accountStartNonce r) (m_changeLog r) x (random r).
Definition set_random {D : Type} (x : nat -> Z) (r : State D) : State D :=
  mkState (m_db r) (m_state_root r) (m_cache r) (m_unchangedCacheEntries r) (m_nonExistingAccountsCache r) (m_touched r) (m_accountStartNonce r) (m_changeLog r) (codeSizeCache r) x.

Section State.
Context {D : Type} `{TD : !TrieDB D}.
Abbreviation M := (SE (State D)).

Definition in_db {A} (m : SE D A) : M A := zoom m_db set_m_db m.
Definition at_db {A} (f : D -> outcome A) : M A := fun s => (f (m_db s), s).

(** A number from [s_fixedHashEngine]. *)
Definition draw : M Z := fun s => (Ok (random s 0%nat), set_random (fun n => random s (S n)) s).

(** *** [class CodeSizeCache] *)
Definition c_maxSize : Z := 50000.

(** The first key that is not below [h], if any. *)
Definition lower_bound_key (h : bytes) (ks : list bytes) : option bytes :=
  foldr (fun k best =>
    if FixedHash.ltb k h then best
    else match best with
         | Some b => if FixedHash.ltb k b then Some k else Some b
         | None => Some k
         end) None ks.

(** [removeRandomElement()] *)
Definition removeRandomElement : M unit :=
  x ← draw;
  modify (fun s =>
    let ks := (map_to_list (codeSizeCache s)).*1 in
    match lower_bound_key (FixedHash.of_arith 32 x) ks with
    | Some k => set_codeSizeCache (delete k (codeSizeCache s)) s
    | None => match lower_bound_key (FixedHash.zero 32) ks with
              | Some k => set_codeSizeCache (delete k (codeSizeCache s)) s
              | None => s
              end
    end).

(** [store(_hash, size)] *)
Definition csc_store (_hash : bytes) (sz : Z) : M unit :=
  n ← gets (fun s => Z.of_nat (base.size (codeSizeCache s)));
  when (c_maxSize <=? n) removeRandomElement;;
  modify (fun s => set_codeSizeCache (<[_hash := sz]> (codeSizeCache s)) s).

(** *** The account cache *)

(** Writing through an [Account*]. *)
Definition put_account (_addr : bytes) (a : Account) : M unit :=
  modify (fun s => set_m_cache (<[_addr := a]> (m_cache s)) s).

(** The loop of [clearCacheIfTooLarge()]: one entry less each time. *)
Fixpoint clear_loop (fuel : nat) : M unit :=
  match fuel with
  | O => mret tt
  | S f =>
    l ← gets m_unchangedCacheEntries;
    if 1000 <? size l then
      x ← draw;
      let randomIndex := Z.to_nat (x mod size l) in
      let addr := nth randomIndex l [] in
      let back := List.last l [] in
      modify (set_m_unchangedCacheEntries (removelast (<[randomIndex := back]> l)));;
      modify (fun s =>
        match m_cache s !! addr with
        | Some a => if isDirty a then s else set_m_cache (delete addr (m_cache s)) s
        | None => s
        end);;
      clear_loop f
    else mret tt
  end.
Definition clearCacheIfTooLarge : M unit :=
  l ← gets m_unchangedCacheEntries; clear_loop (length l).

(** The account read from its RLP; the constructor asserts its root. *)
Definition read_account (stateBack : bytes) : outcome Account :=
  state ← RLP.new stateBack RLP.VeryStrict;
  fst ((i ← RLP.index 0; n ← lift_outcome (RLP.toInt int_u256 RLP.Strict (RLP.m_data i));
        i ← RLP.index 1; b ← lift_outcome (RLP.toInt int_u256 RLP.Strict (RLP.m_data i));
        i ← RLP.index 2; r ← lift_outcome (RLP.toHash 32 RLP.Strict (RLP.m_data i));
        i ← RLP.index 3; c ← lift_outcome (RLP.toHash 32 RLP.Strict (RLP.m_data i));
        assertion (FixedHash.to_bool r) "_contractRoot";;
        mret (Account_loaded n b r c)) state).

(** [account(_addr)] *)
Definition account (_addr : bytes) : M (option Account) :=
  c ← gets m_cache;
  match c !! _addr with
  | Some a => mret (Some a)
  | None =>
    ne ← gets m_nonExistingAccountsCache;
    if decide (_addr ∈ ne) then mret None
    else
      root ← gets m_state_root;
      stateBack ← at_db (trie_at root _addr);
      if size stateBack =? 0 then
        modify (fun s => set_m_nonExistingAccountsCache ({[_addr]} ∪ m_nonExistingAccountsCache s) s);;
        mret None
      else
        clearCacheIfTooLarge;;
        a ← lift_outcome (read_account stateBack);
        put_account _addr a;;
        modify (fun s => set_m_unchangedCacheEntries (m_unchangedCacheEntries s ++ [_addr]) s);;
        mret (Some a)
  end.

(** [m_cache[_addr]]: a dead account is created for a new key. *)
Definition cache_ref (_addr : bytes) : M Account :=
  c ← gets m_cache;
  match c !! _addr with
  | Some a => mret a
  | None => put_account _addr Account_dead;; mret Account_dead
  end.

Definition log (c : Change) : M unit := modify (fun s => set_m_changeLog (c :: m_changeLog s) s).

(** *** Queries *)
Definition addressInUse (_id : bytes) : M bool :=
  a ← account _id; mret (bool_decide (is_Some a)).
Definition accountNonemptyAndExisting (_address : bytes) : M bool :=
  a ← account _address; mret (match a with Some a => negb (isEmpty a) | None => false end).
Definition addressHasCode (_id : bytes) : M bool :=
  a ← account _id;
  mret (match a with Some a => negb (FixedHash.eqb (m_codeHash a) EmptySHA3) | None => false end).
Definition balance (_id : bytes) : M Z :=
  a ← account _id; mret (match a with Some a => m_balance a | None => 0 end).
Definition getNonce (_addr : bytes) : M Z :=
  a ← account _addr; n ← gets m_accountStartNonce;
  mret (match a with Some a => m_nonce a | None => n end).
Definition codeHash (_a : bytes) : M bytes :=
  a ← account _a; mret (match a with Some a => m_codeHash a | None => EmptySHA3 end).

Definition requireAccountStartNonce : M Z :=
  n ← gets m_accountStartNonce;
  if n =? Invalid256 then throw "Invalid Account Start Nonce State" else mret n.
Definition noteAccountStartNonce (_actual : Z) : M unit :=
  n ← gets m_accountStartNonce;
  if n =? Invalid256 then modify (set_m_accountStartNonce _actual)
  else if negb (n =? _actual) then throw "Incorrect Account Start Nonce In State" else mret tt.

(** [assert(m_storageRoot)] *)
Definition baseRoot (a : Account) : M bytes :=
  assertion (FixedHash.to_bool (m_storageRoot a)) "m_storageRoot";; mret (m_storageRoot a).

(** [storage(_id, _key)] *)
Definition storage (_id : bytes) (_key : Z) : M Z :=
  a ← account _id;
  match a with
  | None => mret 0
  | Some a =>
    match m_storageOverlay a !! _key with
    | Some v => mret v
    | None =>
      root ← baseRoot a;
      in_db (trie_open root);;
      payload ← at_db (trie_at root (FixedHash.of_arith 32 _key));
      ret ← (if negb (size payload =? 0) then
               r ← lift_outcome (RLP.new payload RLP.VeryStrict);
               lift_outcome (RLP.toInt int_u256 RLP.Strict (RLP.m_data r))
             else mret 0);
      put_account _id (setStorageCache _key ret a);;
      mret ret
    end
  end.

(** [code(_addr)] *)
Definition code (_addr : bytes) : M bytes :=
  a ← account _addr;
  match a with
  | None => mret []
  | Some a =>
    if FixedHash.eqb (m_codeHash a) EmptySHA3 then mret []
    else if size (m_codeCache a) =? 0 then
      c ← gets (fun s => db_lookup (m_codeHash a) (m_db s));
      assertion (FixedHash.eqb (sha3 c) (m_codeHash a)) "sha3(_code) == m_codeHash";;
      put_account _addr (acc_m_codeCache c a);;
      csc_store (m_codeHash a) (size c);;
      mret c
    else mret (m_codeCache a)
  end.

(** [codeSize(_a)] *)
Definition codeSize (_a : bytes) : M Z :=
  a ← account _a;
  match a with
  | None => mret 0
  | Some a =>
    if m_hasNewCode a then mret (size (m_codeCache a))
    else
      csc ← gets codeSizeCache;
      match csc !! m_codeHash a with
      | Some n => mret n
      | None => c ← code _a; csc_store (m_codeHash a) (size c);; mret (size c)
      end
  end.

(** *** Changes *)

(** [createAccount(_address, _account)] *)
Definition createAccount (_address : bytes) (_account : Account) : M unit :=
  u ← addressInUse _address;
  assertion (negb u) "Account already exists";;
  put_account _address _account;;
  modify (fun s => set_m_nonExistingAccountsCache (m_nonExistingAccountsCache s ∖ {[_address]}) s);;
  log (Create _address).

Definition incNonce (_addr : bytes) : M unit :=
  a ← account _addr;
  match a with
  | Some a => put_account _addr (Account_incNonce a);; log (Nonce _addr)
  | None => n ← requireAccountStartNonce; createAccount _addr (Account_alive (u256 (n + 1)) 0)
  end.

Definition addBalance (_id : bytes) (_amount : Z) : M unit :=
  a ← account _id;
  match a with
  | Some a =>
    when (negb (isDirty a) && isEmpty a) (log (Touch _id));;
    put_account _id (Account_addBalance _amount a)
  | None => n ← requireAccountStartNonce; createAccount _id (Account_alive n _amount)
  end;;
  when (negb (_amount =? 0)) (log (Balance _id _amount)).

Definition subBalance (_addr : bytes) (_value : Z) : M unit :=
  if _value =? 0 then mret tt
  else
    a ← account _addr;
    match a with
    | Some a => if m_balance a <? _value then throw "Not Enough Cash"
                else addBalance _addr (u256 (0 - _value))
    | None => throw "Not Enough Cash"
    end.

Definition transferBalance (_from _to : bytes) (_value : Z) : M unit :=
  subBalance _from _value;; addBalance _to _value.

Definition createContract (_address : bytes) : M unit :=
  n ← requireAccountStartNonce; createAccount _address (Account_alive n 0).

(** [kill(_addr)] *)
Definition State_kill (_addr : bytes) : M unit :=
  a ← account _addr;
  match a with Some a => put_account _addr (Account_kill a) | None => mret tt end.

Definition setStorage (_contract : bytes) (_key _value : Z) : M unit :=
  old ← storage _contract _key;
  log (Storage _contract _key old);;
  a ← cache_ref _contract;
  put_account _contract (Account_setStorage _key _value a).

Definition setNewCode (_address _code : bytes) : M unit :=
  a ← cache_ref _address;
  put_account _address (Account_setNewCode _code a);;
  log (NewCode _address).

(** *** [savepoint], [rollback] *)
Definition savepoint : M Z := gets (fun s => size (m_changeLog s)).

(** The body of the loop of [rollback], for the last change. *)
Definition undo (change : Change) : M unit :=
  let addr := change_address change in
  a ← cache_ref addr;
  match change with
  | Storage _ key value => put_account addr (Account_setStorage key value a)
  | Balance _ value => put_account addr (Account_addBalance (u256 (0 - value)) a)
  | Nonce _ => put_account addr (Account_setNonce (u256 (m_nonce a - 1)) a)
  | Create _ => modify (fun s => set_m_cache (delete addr (m_cache s)) s)
  | NewCode _ => put_account addr (resetCode a)
  | Touch _ =>
    put_account addr (untouch a);;
    modify (fun s => set_m_unchangedCacheEntries (m_unchangedCacheEntries s ++ [addr]) s)
  end.

(** [rollback(_savepoint)]; [back()] of an empty log is undefined. *)
Fixpoint rollback_loop (fuel : nat) (_savepoint : Z) : M unit :=
  n ← gets (fun s => size (m_changeLog s));
  if _savepoint =? n then mret tt
  else
    match fuel with
    | O => undef "m_changeLog.back() of an empty log"
    | S f =>
      l ← gets m_changeLog;
      match l with
      | [] => undef "m_changeLog.back() of an empty log"
      | change :: l' => undo change;; modify (set_m_changeLog l');; rollback_loop f _savepoint
      end
    end.
Definition rollback (_savepoint : Z) : M unit :=
  n ← gets (fun s => length (m_changeLog s)); rollback_loop n _savepoint.

(** *** [commit] *)

(** The loop over [storageOverlay()] in the free function [commit]. *)
Fixpoint commit_storage (root : bytes) (l : list (Z * Z)) : M bytes :=
  match l with
  | [] => mret root
  | (k, v) :: l' =>
    root ← (if negb (v =? 0) then
              b ← lift_outcome (RLPStream.rlp RLPStream.append_int v);
              in_db (trie_insert root (FixedHash.of_arith 32 k) b)
            else in_db (trie_remove root (FixedHash.of_arith 32 k)));
    commit_storage root l'
  end.

(** The root of the account's storage after the commit. *)
Definition commit_root (a : Account) : M bytes :=
  root ← baseRoot a;
  if decide (m_storageOverlay a = ∅) then mret root
  else
    in_db (trie_open root);;
    root ← commit_storage root (map_to_list (m_storageOverlay a));
    root ← at_db (trie_root root);
    assertion (FixedHash.to_bool root) "storageDB.root()";;
    mret root.

(** [RLPStream s(4); s << nonce << balance << root << codeHash] *)
Definition stream_account (a : Account) (root : bytes) : outcome bytes :=
  fst ((RLPStream.appendList 4;; RLPStream.append_int (m_nonce a);; RLPStream.append_int (m_balance a);;
        RLPStream.append root false;; RLPStream.append (m_codeHash a) false;; RLPStream.out) RLPStream.new).

(** One dirty account. *)
Definition commit_account (addr : bytes) (a : Account) : M unit :=
  root ← gets m_state_root;
  if negb (m_isAlive a) then
    root ← in_db (trie_remove root addr);
    modify (set_m_state_root root)
  else
    sroot ← commit_root a;
    when (m_hasNewCode a)
      (csc_store (m_codeHash a) (size (m_codeCache a));;
       modify (fun s => set_m_db (db_insert (m_codeHash a) (m_codeCache a) (m_db s)) s));;
    b ← lift_outcome (stream_account a sroot);
    root ← in_db (trie_insert root addr b);
    modify (set_m_state_root root).

(** The free function [commit(_cache, _state)]; the order in which an
    [unordered_map] is traversed is not specified. *)
Fixpoint commit_accounts (l : list (bytes * Account)) : M (list bytes) :=
  match l with
  | [] => mret []
  | (addr, a) :: l' =>
    if isDirty a then
      commit_account addr a;;
      ret ← commit_accounts l';
      mret (addr :: ret)
    else commit_accounts l'
  end.

Inductive CommitBehaviour := KeepEmptyAccounts | RemoveEmptyAccounts.

Definition removeEmptyAccounts : M unit :=
  modify (fun s => set_m_cache
    ((fun a => if isDirty a && isEmpty a then Account_kill a else a) <$> m_cache s) s).

(** [commit(_commitBehaviour)] *)
Definition commit (_commitBehaviour : CommitBehaviour) : M unit :=
  match _commitBehaviour with
  | RemoveEmptyAccounts => removeEmptyAccounts
  | KeepEmptyAccounts => mret tt
  end;;
  c ← gets m_cache;
  t ← commit_accounts (map_to_list c);
  modify (fun s => set_m_touched (m_touched s ∪ list_to_set t) s);;
  modify (set_m_changeLog []);;
  modify (set_m_cache ∅);;
  modify (set_m_unchangedCacheEntries []).

(** [populateFrom(_map)] *)
Definition populateFrom (_map : gmap bytes Account) : M unit :=
  _ ← commit_accounts (map_to_list _map);
  commit KeepEmptyAccounts.

(** [setRoot(_r)] *)
Definition setRoot (_r : bytes) : M unit :=
  modify (set_m_cache ∅);;
  modify (set_m_unchangedCacheEntries []);;
  modify (set_m_nonExistingAccountsCache ∅);;
  modify (set_m_state_root _r);;
  in_db (trie_open _r).

(** [rootHash()] *)
Definition rootHash : M bytes := root ← gets m_state_root; at_db (trie_root root).

(** [storageRoot(_id)] *)
Definition storageRoot (_id : bytes) : M bytes :=
  root ← gets m_state_root;
  s ← at_db (trie_at root _id);
  if negb (size s =? 0) then
    lift_outcome (r ← RLP.new s RLP.VeryStrict;
      fst ((i ← RLP.index 2; lift_outcome (RLP.toHash 32 RLP.Strict (RLP.m_data i))) r))
  else mret EmptyTrie.

(** [State(_accountStartNonce, _db, BaseState::Empty)] *)
Definition State_new (_accountStartNonce : Z) (_db : D) (rnd : nat -> Z) : outcome unit * State D :=
  (root ← in_db trie_init; modify (set_m_state_root root))
    (mkState _db [] ∅ [] ∅ ∅ _accountStartNonce [] ∅ rnd).

(** [State(State const&)]: the change log is not copied. *)
Definition State_copy (s : State D) : outcome (State D) :=
  root ← trie_root (m_state_root s) (m_db s);
  Ok (mkState (m_db s) root (m_cache s) (m_unchangedCacheEntries s) (m_nonExistingAccountsCache s)
        (m_touched s) (m_accountStartNonce s) [] (codeSizeCache s) (random s)).

(** [operator=(State const&)] on the object [t]: it keeps its own change log. *)
Definition State_assign (t s : State D) : outcome (State D) :=
  root ← trie_root (m_state_root s) (m_db s);
  Ok (mkState (m_db s) root (m_cache s) (m_unchangedCacheEntries s) (m_nonExistingAccountsCache s)
        (m_touched s) (m_accountStartNonce s) (m_changeLog t) (codeSizeCache s) (random s)).

End State.
