(* ===== verification/ScStateView.v ===== *)
(** * The state as a map of accounts

    What the account cache, the cache of missing addresses and the tries
    together represent: [view] gives each address its nonce, balance, code and
    storage.  [state_ok] is the invariant that ties the caches to the tries.
    Queries do not change the view, although they fill and evict the caches. *)

From S2P Require Import Prelude ScFixedHash ScSha3 ScRlp ScRlpWrite ScRlpRead ScState.
From Stdlib Require Import ZifyBool.
Local Opaque EmptySHA3 EmptyTrie sha3.

(** ** What the state needs of the tries *)

Class TrieLaws (D : Type) `{TD : !TrieDB D} := {
  (** the contents of the trie under a root, if there is one *)
  tries : D -> bytes -> option (gmap bytes bytes);
  (** the database can take [n] more insertions or removals *)
  room : D -> nat -> Prop;
  room_le d n n' : (n' <= n)%nat -> room d n -> room d n';
  (** the code can be stored: its hash names nothing else, now or later *)
  free : D -> bytes -> Prop;
  free_lookup d c : free d c -> db_lookup (sha3 c) d = [] \/ db_lookup (sha3 c) d = c;
  tries_empty d : tries d EmptyTrie = Some ∅;
  trie_root_ok d r m : tries d r = Some m -> trie_root r d = Ok r;
  trie_at_ok d r m k : tries d r = Some m -> trie_at r k d = Ok (default [] (m !! k));
  trie_open_ok d r m : tries d r = Some m ->
    exists d', trie_open r d = (Ok tt, d') /\ (forall n, room d n -> room d' n) /\
      (forall r m, tries d r = Some m -> tries d' r = Some m) /\
      (forall h, db_lookup h d <> [] -> db_lookup h d' = db_lookup h d) /\
      (forall c, free d c -> free d' c);
  trie_insert_ok d r m k v n : tries d r = Some m -> v <> [] -> room d (S n) ->
    exists r' d', trie_insert r k v d = (Ok r', d') /\ tries d' r' = Some (<[k := v]> m) /\
      length r' = 32%nat /\ bytes_ok r' /\ FixedHash.to_bool r' = true /\ room d' n /\
      (forall r m, tries d r = Some m -> tries d' r = Some m) /\
      (forall h, db_lookup h d <> [] -> db_lookup h d' = db_lookup h d) /\
      (forall c, free d c -> free d' c);
  trie_remove_ok d r m k n : tries d r = Some m -> room d (S n) ->
    exists r' d', trie_remove r k d = (Ok r', d') /\ tries d' r' = Some (delete k m) /\
      (length r = 32%nat -> bytes_ok r -> FixedHash.to_bool r = true ->
       length r' = 32%nat /\ bytes_ok r' /\ FixedHash.to_bool r' = true) /\ room d' n /\
      (forall r m, tries d r = Some m -> tries d' r = Some m) /\
      (forall h, db_lookup h d <> [] -> db_lookup h d' = db_lookup h d) /\
      (forall c, free d c -> free d' c);
  (** code is stored under its hash, where there is nothing else *)
  db_insert_ok d c n : room d (S n) -> free d c ->
    let d' := db_insert (sha3 c) c d in
    db_lookup (sha3 c) d' = c /\ room d' n /\
      (forall r m, tries d r = Some m -> tries d' r = Some m) /\
      (forall h, db_lookup h d <> [] -> db_lookup h d' = db_lookup h d) /\
      (forall c', free d c' -> (sha3 c' = sha3 c -> c' = c) -> free d' c')
}.

Section View.
Context {D : Type} `{TD : !TrieDB D} `{TL : !TrieLaws D}.

(** Nothing stored is lost. *)
Definition extends (d d' : D) : Prop :=
  (forall r m, tries d r = Some m -> tries d' r = Some m) /\
  (forall h, db_lookup h d <> [] -> db_lookup h d' = db_lookup h d).

#[global] Instance extends_preorder : PreOrder extends.
Proof.
  split; [by split|]. intros d1 d2 d3 [H1 H1'] [H2 H2']. split; [eauto|].
  intros h Hh. rewrite H2' by (rewrite H1' by done; done). auto.
Qed.

(** *** Values of storage slots and accounts in the tries *)

Definition key32 (k : Z) : bytes := FixedHash.of_arith 32 k.

(** The integer an RLP string holds. *)
Definition decode_int (p : bytes) : Z :=
  match RLP.new p RLP.VeryStrict with
  | Ok r => match RLP.toInt int_u256 RLP.Strict (RLP.m_data r) with Ok v => v | _ => 0 end
  | _ => 0
  end.

(** The slot [k] of the storage trie under [root]. *)
Definition base_slot (d : D) (root : bytes) (k : Z) : Z :=
  match tries d root with
  | Some m => match m !! key32 k with Some p => decode_int p | None => 0 end
  | None => 0
  end.

Definition slot_of (d : D) (x : Account) (k : Z) : Z :=
  match m_storageOverlay x !! k with Some v => v | None => base_slot d (m_storageRoot x) k end.

Definition code_of (d : D) (x : Account) : bytes :=
  if FixedHash.eqb (m_codeHash x) EmptySHA3 then []
  else if size (m_codeCache x) =? 0 then db_lookup (m_codeHash x) d else m_codeCache x.

(** The account stored in the state trie. *)
Definition backing (s : State D) (a : bytes) : option Account :=
  match tries (m_db s) (m_state_root s) with
  | Some m => match m !! a with
              | Some b => match read_account b with Ok x => Some x | _ => None end
              | None => None
              end
  | None => None
  end.

(** The account at an address: the cached one, or the stored one. *)
Definition here (s : State D) (a : bytes) : option Account :=
  match m_cache s !! a with Some x => Some x | None => backing s a end.

(** *** The view *)
Record Basic := mkBasic {
  b_alive : bool; b_nonce : Z; b_balance : Z; b_root : bytes; b_codeHash : bytes; b_code : bytes }.
Record View := mkView { vb : bytes -> option Basic; vs : bytes -> Z -> Z }.

Definition basic_of (d : D) (x : Account) : Basic :=
  mkBasic (m_isAlive x) (m_nonce x) (m_balance x) (m_storageRoot x) (m_codeHash x) (code_of d x).
Definition view (s : State D) : View :=
  mkView (fun a => basic_of (m_db s) <$> here s a)
         (fun a k => match here s a with Some x => slot_of (m_db s) x k | None => 0 end).

Definition veq (v w : View) : Prop :=
  (forall a, vb v a = vb w a) /\ (forall a k, vs v a k = vs w a k).
#[global] Instance veq_equivalence : Equivalence veq.
Proof.
  split; [by split|by intros v w [? ?]|].
  intros u v w [H1 H2] [H3 H4]. split; intros; [by rewrite H1|by rewrite H2].
Qed.

(** *** The invariant *)

(** A storage trie holds non-zero integers in RLP. *)
Definition slot_ok (p : bytes) : Prop :=
  exists v, 0 < v < 2 ^ 256 /\ p = encode (IData (StreamProof.int_bytes v)).
Definition storage_ok (d : D) (root : bytes) : Prop :=
  length root = 32%nat /\ bytes_ok root /\ FixedHash.to_bool root = true /\
  exists m, tries d root = Some m /\ map_Forall (fun _ => slot_ok) m.

Record account_ok (d : D) (x : Account) : Prop := {
  ao_nonce : in_range 256 (m_nonce x);
  ao_balance : in_range 256 (m_balance x);
  ao_storage : storage_ok d (m_storageRoot x);
  ao_hash : length (m_codeHash x) = 32%nat /\ bytes_ok (m_codeHash x);
  ao_code : m_codeHash x <> EmptySHA3 -> sha3 (code_of d x) = m_codeHash x;
  ao_code_size : bytes_ok (code_of d x) /\ size (code_of d x) < 2 ^ 62;
  ao_cache_size : size (m_codeCache x) < 2 ^ 62;
  ao_new : m_hasNewCode x = true -> m_isAlive x = true -> sha3 (m_codeCache x) = m_codeHash x;
  ao_stored : m_hasNewCode x = false -> m_codeHash x <> EmptySHA3 -> db_lookup (m_codeHash x) d = code_of d x;
  ao_overlay : map_Forall (fun k v => in_range 256 k /\ in_range 256 v) (m_storageOverlay x) }.

(** An unchanged cache entry repeats what the tries hold. *)
Record clean (d : D) (y x : Account) : Prop := {
  cl_alive : m_isAlive x = true;
  cl_nonce : m_nonce x = m_nonce y;
  cl_balance : m_balance x = m_balance y;
  cl_root : m_storageRoot x = m_storageRoot y;
  cl_hash : m_codeHash x = m_codeHash y;
  cl_cache : m_codeCache x <> [] -> m_codeHash x <> EmptySHA3 -> db_lookup (m_codeHash x) d = m_codeCache x;
  cl_overlay : forall k v, m_storageOverlay x !! k = Some v -> base_slot d (m_storageRoot x) k = v }.

Definition stored (d : D) (b : bytes) : Prop :=
  b <> [] /\ exists n bal r c, read_account b = Ok (Account_loaded n bal r c) /\
    account_ok d (Account_loaded n bal r c).

(** An account is created, or touched for the first time, before anything else
    is logged for it. *)
Definition opens (c : Change) : bool :=
  match c with Create _ | Touch _ => true | _ => false end.
Fixpoint ordered (l : list Change) : Prop :=
  match l with
  | [] => True
  | c :: l' => (opens c = true -> Forall (fun c' => change_address c' <> change_address c) l') /\ ordered l'
  end.

(** A remembered size is that of a code with this hash. *)
Definition size_ok (h : bytes) (n : Z) : Prop := exists c, sha3 c = h /\ size c = n /\ n < 2 ^ 62.

Record state_ok (s : State D) : Prop := {
  so_trie : exists m, tries (m_db s) (m_state_root s) = Some m /\ map_Forall (fun _ => stored (m_db s)) m;
  so_cache a x : m_cache s !! a = Some x ->
    account_ok (m_db s) x /\
    (isDirty x = false -> exists y, backing s a = Some y /\ clean (m_db s) y x);
  so_missing a : a ∈ m_nonExistingAccountsCache s -> backing s a = None /\ m_cache s !! a = None;
  so_log c : c ∈ m_changeLog s ->
    exists x, m_cache s !! change_address c = Some x /\ isDirty x = true;
  so_order : ordered (m_changeLog s);
  so_start : in_range 256 (m_accountStartNonce s);
  so_sizes : map_Forall size_ok (codeSizeCache s) }.


(** ** The invariant and a growing database *)

Lemma eqb_spec h c : FixedHash.eqb h c = true <-> h = c.
Proof. apply bool_decide_eq_true. Qed.
Lemma eqb_ne h c : FixedHash.eqb h c = false <-> h <> c.
Proof. apply bool_decide_eq_false. Qed.

Lemma code_of_nonempty d x : account_ok d x -> m_codeHash x <> EmptySHA3 -> code_of d x <> [].
Proof. intros Hx Hh E. pose proof (ao_code _ _ Hx Hh) as H. rewrite E in H. by apply Hh. Qed.

Lemma code_of_extends d d' x : extends d d' -> account_ok d x -> code_of d' x = code_of d x.
Proof.
  intros [_ H] Hx. unfold code_of. destruct (FixedHash.eqb (m_codeHash x) EmptySHA3) eqn:E; [done|].
  destruct (Z.eqb_spec (size (m_codeCache x)) 0) as [Hz|]; [|done]. apply H.
  assert (m_codeHash x <> EmptySHA3) as Hh by (intros Hh; apply eqb_spec in Hh; congruence).
  pose proof (code_of_nonempty d x Hx Hh) as Hc. unfold code_of in Hc.
  by rewrite E, (proj2 (Z.eqb_eq _ _) Hz) in Hc.
Qed.

Lemma base_slot_extends d d' r k : extends d d' -> storage_ok d r -> base_slot d' r k = base_slot d r k.
Proof. intros [H _] (_ & _ & _ & m & Hm & _). unfold base_slot. by rewrite Hm, (H _ _ Hm). Qed.

Lemma storage_ok_extends d d' r : extends d d' -> storage_ok d r -> storage_ok d' r.
Proof. intros [H _] (H1 & H2 & H3 & m & Hm & Hv). repeat split; eauto. Qed.

Lemma account_ok_extends d d' x : extends d d' -> account_ok d x -> account_ok d' x.
Proof.
  intros He Hx. pose proof (code_of_extends d d' x He Hx) as Hc.
  split; try apply Hx; rewrite ?Hc; try apply Hx.
  - eapply storage_ok_extends; [done|apply Hx].
  - intros Hn Hh. rewrite <- (ao_stored _ _ Hx Hn Hh). apply He. rewrite (ao_stored _ _ Hx Hn Hh).
    by apply code_of_nonempty.
Qed.

Lemma slot_of_extends d d' x k : extends d d' -> account_ok d x -> slot_of d' x k = slot_of d x k.
Proof.
  intros He Hx. unfold slot_of. case_match; [done|]. apply base_slot_extends; [done|apply Hx].
Qed.

Lemma clean_extends d d' y x : extends d d' -> account_ok d x -> clean d y x -> clean d' y x.
Proof.
  intros He Hx Hc. split; try apply Hc.
  - intros Hne Hh. rewrite (proj2 He); [by apply Hc|]. by rewrite (cl_cache _ _ _ Hc).
  - intros k v Hk. rewrite (base_slot_extends d); [by apply Hc|done|apply Hx].
Qed.

Lemma basic_of_extends d d' x : extends d d' -> account_ok d x -> basic_of d' x = basic_of d x.
Proof. intros. unfold basic_of. by rewrite (code_of_extends d d'). Qed.

(** A clean entry shows what the stored account shows. *)
Lemma clean_basic d y x : account_ok d x -> m_isAlive y = true -> m_codeCache y = [] -> clean d y x ->
  basic_of d x = basic_of d y.
Proof.
  intros Hx Hy Hyc Hc. unfold basic_of. rewrite Hy, (cl_alive _ _ _ Hc), (cl_nonce _ _ _ Hc),
    (cl_balance _ _ _ Hc), (cl_root _ _ _ Hc). f_equal; [apply Hc|].
  unfold code_of. rewrite Hyc, <- (cl_hash _ _ _ Hc). simpl.
  destruct (FixedHash.eqb _ _) eqn:E; [done|].
  destruct (m_codeCache x) as [|b l] eqn:Ec; [done|]. simpl.
  symmetry. rewrite <- Ec. apply Hc; [by rewrite Ec|].
  intros Hh. apply eqb_spec in Hh. congruence.
Qed.

Lemma clean_slot d y x k : m_storageOverlay y = ∅ -> clean d y x -> slot_of d x k = slot_of d y k.
Proof.
  intros Hy Hc. unfold slot_of. rewrite Hy, lookup_empty, <- (cl_root _ _ _ Hc).
  destruct (m_storageOverlay x !! k) eqn:E; [|done]. symmetry. by apply (cl_overlay _ _ _ Hc).
Qed.

(** What the state trie holds is an account just loaded. *)
Lemma backing_ok s a y : state_ok s -> backing s a = Some y ->
  account_ok (m_db s) y /\ m_isAlive y = true /\ m_codeCache y = [] /\ m_storageOverlay y = ∅ /\
  isDirty y = false.
Proof.
  intros [(m & Hm & Hall) _ _ _ _ _ _]. unfold backing. rewrite Hm.
  destruct (m !! a) as [b|] eqn:Hb; [|done]. destruct (Hall _ _ Hb) as (_ & n & bal & r & c & -> & Hok).
  intros [= <-]. split; [done|]. by repeat split.
Qed.

Lemma here_ok s a x : state_ok s -> here s a = Some x -> account_ok (m_db s) x.
Proof.
  intros Hs. unfold here. destruct (m_cache s !! a) as [y|] eqn:E.
  - intros [= <-]. by destruct (so_cache _ Hs a y E) as [? _].
  - intros H. by apply (backing_ok s a).
Qed.

(** ** Queries leave the view alone *)

Record quiet (s s' : State D) : Prop := {
  q_ok : state_ok s';
  q_view : veq (view s') (view s);
  q_backing a : backing s' a = backing s a;
  q_log : m_changeLog s' = m_changeLog s;
  q_start : m_accountStartNonce s' = m_accountStartNonce s;
  q_root : m_state_root s' = m_state_root s;
  q_db : extends (m_db s) (m_db s');
  q_room n : room (m_db s) n -> room (m_db s') n;
  q_free c : free (m_db s) c -> free (m_db s') c;
  q_dirty a x : m_cache s !! a = Some x -> isDirty x = true ->
    exists x', m_cache s' !! a = Some x' /\ isDirty x' = true }.

Lemma quiet_refl s : state_ok s -> quiet s s.
Proof. intros. split; eauto; reflexivity. Qed.

Lemma quiet_trans s1 s2 s3 : quiet s1 s2 -> quiet s2 s3 -> quiet s1 s3.
Proof.
  intros H1 H2. split.
  - apply H2.
  - etrans; [apply H2|apply H1].
  - intros a. by rewrite (q_backing _ _ H2), (q_backing _ _ H1).
  - by rewrite (q_log _ _ H2), (q_log _ _ H1).
  - by rewrite (q_start _ _ H2), (q_start _ _ H1).
  - by rewrite (q_root _ _ H2), (q_root _ _ H1).
  - etrans; [apply H1|apply H2].
  - intros n Hn. by apply H2, H1.
  - intros c Hc. by apply H2, H1.
  - intros a x Hx Hd. destruct (q_dirty _ _ H1 a x Hx Hd) as (x' & Hx' & Hd'). by apply (q_dirty _ _ H2 a x').
Qed.

(** A state that differs from [s] in its caches only. *)
Record recached (s s' : State D) : Prop := {
  rc_db : m_db s' = m_db s;
  rc_root : m_state_root s' = m_state_root s;
  rc_log : m_changeLog s' = m_changeLog s;
  rc_start : m_accountStartNonce s' = m_accountStartNonce s;
  rc_sizes : map_Forall size_ok (codeSizeCache s) -> map_Forall size_ok (codeSizeCache s') }.

Lemma recached_backing s s' a : recached s s' -> backing s' a = backing s a.
Proof. intros H. unfold backing. by rewrite (rc_db _ _ H), (rc_root _ _ H). Qed.

(** Dropping or adding clean entries, and noting missing addresses. *)
Lemma recache_quiet s s' : state_ok s -> recached s s' ->
  (forall a x, m_cache s' !! a = Some x -> m_cache s !! a = Some x \/
     (m_cache s !! a = None /\ backing s a = Some x)) ->
  (forall a x, m_cache s !! a = Some x -> m_cache s' !! a = Some x \/
     (m_cache s' !! a = None /\ isDirty x = false)) ->
  (forall a, a ∈ m_nonExistingAccountsCache s' -> backing s a = None /\ m_cache s' !! a = None) -> quiet s s'.
Proof.
  intros Hs Hr Hnew Hold Hmiss. pose proof (fun a => recached_backing s s' a Hr) as Hb.
  assert (state_ok s') as Hs'.
  { split.
    - rewrite (rc_db _ _ Hr), (rc_root _ _ Hr). apply Hs.
    - intros a x Hx. rewrite (rc_db _ _ Hr), Hb. destruct (Hnew a x Hx) as [Hx'|[_ Hx']].
      + by apply (so_cache _ Hs).
      + destruct (backing_ok s a x Hs Hx') as (Hok & Hal & Hcc & Hov & _). split; [done|].
        intros _. exists x. split; [done|]. split; try done; rewrite ?Hov; done.
    - intros a Ha. rewrite Hb. auto.
    - intros c Hc. rewrite (rc_log _ _ Hr) in Hc. destruct (so_log _ Hs c Hc) as (x & Hx & Hd).
      destruct (Hold _ x Hx) as [?|[_ ?]]; [eauto|congruence].
    - rewrite (rc_log _ _ Hr). apply Hs.
    - rewrite (rc_start _ _ Hr). apply Hs.
    - apply (rc_sizes _ _ Hr), Hs. }
  split; try done; try apply Hr; try (rewrite (rc_db _ _ Hr); done || reflexivity).
  - assert (forall a, (here s' a = here s a) \/ exists x y, here s a = Some x /\ here s' a = Some y /\
      m_cache s !! a = Some x /\ isDirty x = false /\ backing s a = Some y) as Hh.
    { intros a. unfold here. rewrite Hb. destruct (m_cache s' !! a) as [x|] eqn:E'.
      - left. destruct (Hnew a x E') as [->|[-> ->]]; done.
      - destruct (m_cache s !! a) as [x|] eqn:E; [|by left]. right.
        destruct (Hold a x E) as [|[_ Hd]]; [congruence|].
        destruct (so_cache _ Hs a x E) as [_ Hc]. destruct (Hc Hd) as (y & Hy & _). exists x, y. by rewrite Hy. }
    split; intros a; simpl; intros; rewrite (rc_db _ _ Hr).
    all: destruct (Hh a) as [->|(x & y & -> & -> & Hx & Hd & Hy)]; [done|].
    all: destruct (so_cache _ Hs a x Hx) as [Hok Hc]; destruct (Hc Hd) as (y' & Hy' & Hcl);
      assert (y' = y) as -> by congruence.
    all: destruct (backing_ok s a y Hs Hy) as (_ & ? & ? & ? & _).
    + simpl. f_equal. symmetry. by apply clean_basic.
    + symmetry. by apply clean_slot.
  - intros a x Hx Hd. destruct (Hold a x Hx) as [?|[_ ?]]; [eauto|congruence].
Qed.

Lemma clear_loop_quiet f s : state_ok s ->
  exists s', clear_loop f s = (Ok tt, s') /\ quiet s s' /\ m_cache s' ⊆ m_cache s.
Proof.
  revert s. induction f as [|f IH]; intros s Hs; [exists s; split; [done|]; split; [by apply quiet_refl|done]|].
  cbn [clear_loop]. rewrite (SE_bind_ok _ _ s (m_unchangedCacheEntries s) s) by done.
  destruct (_ <? _); [|exists s; split; [done|]; split; [by apply quiet_refl|done]].
  set (l := m_unchangedCacheEntries s). set (i := Z.to_nat (random s 0%nat mod size l)).
  set (addr := nth i l []). unfold mbind, SE_bind, draw, modify. cbv beta iota.
  fold l. fold i. fold addr.
  match goal with |- context [clear_loop f ?t] => set (s1 := t) end.
  assert (quiet s s1 /\ m_cache s1 ⊆ m_cache s) as [Hq Hsub].
  { subst s1. simpl. destruct (m_cache s !! addr) as [x|] eqn:E; [destruct (isDirty x) eqn:Ed|].
    1,3: split; [|done]; apply recache_quiet; try done; [by left|by left|apply (so_missing _ Hs)].
    split; [|apply delete_subseteq]. apply recache_quiet; try done; simpl.
    - intros a y. rewrite lookup_delete_Some. intros [_ ?]. by left.
    - intros a y Hy. destruct (decide (addr = a)) as [<-|].
      + right. rewrite lookup_delete_eq. split; [done|]. congruence.
      + left. by rewrite lookup_delete_ne.
    - intros b Hb; destruct (so_missing _ Hs b Hb); split; [done|]; apply lookup_delete_None; by right. }
  destruct (IH s1 (q_ok _ _ Hq)) as (s2 & -> & Hq2 & Hsub2). exists s2. split; [done|].
  split; [by eapply quiet_trans|by etrans].
Qed.

(** [account(_addr)] returns what is there, and then it is in the cache. *)
Lemma account_spec a s : state_ok s ->
  exists s', account a s = (Ok (here s' a), s') /\ quiet s s' /\
    (forall x, here s' a = Some x -> m_cache s' !! a = Some x).
Proof.
  intros Hs. unfold account. rewrite (SE_bind_ok _ _ s (m_cache s) s) by done.
  destruct (m_cache s !! a) as [x|] eqn:E.
  { exists s. unfold here. rewrite E. split; [done|]. split; [by apply quiet_refl|done]. }
  rewrite (SE_bind_ok _ _ s (m_nonExistingAccountsCache s) s) by done. case_decide as Hm.
  { exists s. unfold here. rewrite E, (proj1 (so_missing _ Hs a Hm)). split; [done|]. split; [by apply quiet_refl|done]. }
  rewrite (SE_bind_ok _ _ s (m_state_root s) s) by done.
  destruct (so_trie _ Hs) as (m & Htr & Hall). unfold at_db, mbind at 1, SE_bind at 1.
  rewrite (trie_at_ok _ _ _ a Htr). destruct (m !! a) as [b|] eqn:Hb; simpl.
  - destruct (Hall _ _ Hb) as (Hne & n & bal & r & c & Hrd & Hok). destruct b as [|b0 b]; [done|].
    replace (Z.of_nat (length (b0 :: b)) =? 0) with false by (simpl length; lia).
    destruct (clear_loop_quiet (length (m_unchangedCacheEntries s)) s Hs) as (s1 & Ec & Hq & Hsub).
    rewrite (SE_bind_ok _ _ s tt s1) by done. unfold lift_outcome, mbind, SE_bind. rewrite Hrd.
    unfold put_account, modify, mret, SE_ret.
    match goal with |- context [(_, ?t)] => set (s2 := t) end. exists s2.
    assert (m_cache s1 !! a = None) as E1.
    { destruct (m_cache s1 !! a) eqn:E1; [|done]. eapply lookup_weaken in E1; [|done]. congruence. }
    assert (backing s1 a = Some (Account_loaded n bal r c)) as Hbk.
    { rewrite (q_backing _ _ Hq). unfold backing. by rewrite Htr, Hb, Hrd. }
    assert (here s2 a = Some (Account_loaded n bal r c)) as ->.
    { unfold here. subst s2. simpl. by rewrite lookup_insert_eq. }
    split; [done|]. split.
    + eapply quiet_trans; [done|]. apply recache_quiet; try done; subst s2; simpl; [by apply Hq| | |].
      * intros a' x. destruct (decide (a = a')) as [<-|]; [|rewrite lookup_insert_ne by done; by left].
        rewrite lookup_insert_eq. intros [= <-]. by right.
      * intros a' x Hx. left. rewrite lookup_insert_ne; [done|]. intros <-. congruence.
      * intros b' Hb'. destruct (so_missing _ (q_ok _ _ Hq) b' Hb') as [H1 H2]. split; [done|].
        rewrite lookup_insert_ne; [done|]. intros <-. congruence.
    + subst s2. simpl. intros x [= <-]. by rewrite lookup_insert_eq.
  - unfold mbind, SE_bind, modify, mret, SE_ret.
    match goal with |- context [(Ok None, ?t)] => set (s2 := t) end. exists s2.
    assert (here s2 a = None) as ->.
    { unfold here. subst s2. simpl. rewrite E. unfold backing. simpl. by rewrite Htr, Hb. }
    split; [done|]. split; [|done]. apply recache_quiet; try done; subst s2; simpl; [by left|by left|].
    intros a' [->%elem_of_singleton|Ha']%elem_of_union; [|by apply (so_missing _ Hs)].
    unfold backing. by rewrite Htr, Hb.
Qed.

(** Missing addresses are still missing once an entry was written elsewhere. *)
Lemma missing_insert s a x b : state_ok s -> a ∉ m_nonExistingAccountsCache s ->
  b ∈ m_nonExistingAccountsCache s -> backing s b = None /\ <[a := x]> (m_cache s) !! b = None.
Proof.
  intros Hs Ha Hb. destruct (so_missing _ Hs b Hb). split; [done|].
  rewrite lookup_insert_ne; [done|]. by intros ->.
Qed.
Lemma cached_present s a x : state_ok s -> m_cache s !! a = Some x -> a ∉ m_nonExistingAccountsCache s.
Proof. intros Hs Hx Ha. destruct (so_missing _ Hs a Ha). congruence. Qed.

(** The account seen through the view. *)
Lemma view_here s a : vb (view s) a = basic_of (m_db s) <$> here s a.
Proof. done. Qed.

(** A larger database shows the same. *)
Lemma extend_quiet s d : state_ok s -> extends (m_db s) d -> (forall n, room (m_db s) n -> room d n) ->
  (forall c, free (m_db s) c -> free d c) -> quiet s (set_m_db d s).
Proof.
  intros Hs He Hr Hf.
  assert (forall a, backing (set_m_db d s) a = backing s a) as Hb.
  { intros a. unfold backing. simpl. destruct (so_trie _ Hs) as (m & Hm & _).
    by rewrite Hm, (proj1 He _ _ Hm). }
  split; try done.
  - split.
    + destruct (so_trie _ Hs) as (m & Hm & Hall). exists m. split; [by apply He|].
      eapply map_Forall_impl; [done|]. intros a b (Hne & n & bal & r & c & Hrd & Hok).
      split; [done|]. exists n, bal, r, c. split; [done|]. by eapply account_ok_extends.
    + intros a x Hx. simpl in Hx. destruct (so_cache _ Hs a x Hx) as [Hok Hc].
      split; [by eapply account_ok_extends|]. intros Hd. rewrite Hb.
      destruct (Hc Hd) as (y & Hy & Hcl). exists y. split; [done|]. by eapply clean_extends.
    + intros a Ha. rewrite Hb. by apply (so_missing _ Hs).
    + apply Hs.
    + apply Hs.
    + apply Hs.
    + apply Hs.
  - assert (forall a, here (set_m_db d s) a = here s a) as Hh by (intros a; unfold here; by rewrite Hb).
    split; intros; simpl; rewrite Hh; destruct (here s a) as [x|] eqn:E; try done; simpl.
    all: pose proof (here_ok s a x Hs E).
    + f_equal. by apply basic_of_extends.
    + by apply slot_of_extends.
  - eauto.
Qed.

(** A cache entry replaced by one that shows the same. *)
Lemma replace_quiet s a x x' : state_ok s -> m_cache s !! a = Some x -> account_ok (m_db s) x' ->
  basic_of (m_db s) x' = basic_of (m_db s) x -> (forall k, slot_of (m_db s) x' k = slot_of (m_db s) x k) ->
  isDirty x' = isDirty x -> (forall y, clean (m_db s) y x -> clean (m_db s) y x') ->
  quiet s (set_m_cache (<[a := x']> (m_cache s)) s).
Proof.
  intros Hs Hx Hok Hbas Hslot Hd Hcl.
  assert (forall b, here (set_m_cache (<[a := x']> (m_cache s)) s) b = if decide (a = b) then Some x' else here s b) as Hh.
  { intros b. unfold here. simpl. case_decide as E; [subst; by rewrite lookup_insert_eq|by rewrite lookup_insert_ne]. }
  assert (here s a = Some x) as Ha by (unfold here; by rewrite Hx).
  split; try done.
  - split; simpl; try apply Hs.
    + intros b y. destruct (decide (a = b)) as [<-|]; [|rewrite lookup_insert_ne by done; apply (so_cache _ Hs)].
      rewrite lookup_insert_eq. intros [= <-]. split; [done|]. rewrite Hd. intros Hn.
      destruct (so_cache _ Hs a x Hx) as [_ Hc]. destruct (Hc Hn) as (y & Hy & Hyc). exists y. auto.
    + intros b. exact (missing_insert s a x' b Hs (cached_present s a x Hs Hx)).
    + intros c Hc. destruct (so_log _ Hs c Hc) as (y & Hy & Hyd).
      destruct (decide (a = change_address c)) as [E|]; [rewrite <- E in *|rewrite lookup_insert_ne by done; eauto].
      rewrite lookup_insert_eq. exists x'. split; [done|]. rewrite Hd. congruence.
  - split; intros; simpl; rewrite Hh; case_decide; subst; rewrite ?Ha; simpl; [by rewrite Hbas|done|done|done].
  - intros b y Hy Hyd. simpl. destruct (decide (a = b)) as [<-|]; [|rewrite lookup_insert_ne by done; eauto].
    rewrite lookup_insert_eq. exists x'. split; [done|]. rewrite Hd. congruence.
Qed.

Lemma misc_quiet s c r : state_ok s -> map_Forall size_ok c -> quiet s (set_codeSizeCache c (set_random r s)).
Proof. intros Hs Hc. apply recache_quiet; try done; [by left|by left|apply (so_missing _ Hs)]. Qed.

Lemma csc_store_spec h n (s : State D) : map_Forall size_ok (codeSizeCache s) -> size_ok h n ->
  exists c r, csc_store h n s = (Ok tt, set_codeSizeCache c (set_random r s)) /\ map_Forall size_ok c.
Proof.
  intros Hz Hn.
  unfold csc_store, removeRandomElement, draw, when, gets, modify, mbind, SE_bind, mret, SE_ret.
  match goal with |- context [if ?c then _ else _] => destruct c end.
  2:{ exists (<[h := n]> (codeSizeCache s)), (random s). split; [by destruct s|]. by apply map_Forall_insert_2. }
  simpl. repeat match goal with |- context [match lower_bound_key ?h ?l with _ => _ end] =>
    destruct (lower_bound_key h l) end; eexists _, _; (split; [reflexivity|]);
    apply map_Forall_insert_2; try done; by apply map_Forall_delete.
Qed.

Lemma csc_store_quiet h n s : state_ok s -> size_ok h n ->
  exists s', csc_store h n s = (Ok tt, s') /\ quiet s s' /\ m_cache s' = m_cache s.
Proof.
  intros Hs Hn. destruct (csc_store_spec h n s (so_sizes _ Hs) Hn) as (c & r & E & Hc).
  eexists. split; [exact E|]. split; [by apply misc_quiet|done].
Qed.

(** The values storage tries hold are read back. *)
Lemma slot_ok_reads p : slot_ok p -> size p <> 0 /\ RLP.new p RLP.VeryStrict = Ok (RLP.of_data p) /\
  RLP.toInt int_u256 RLP.Strict p = Ok (decode_int p) /\ in_range 256 (decode_int p).
Proof.
  intros (v & Hv & ->).
  pose proof (bytesRequired_le v 32 ltac:(simpl; lia)) as Hb.
  destruct (bytesRequired_spec v) as (m & Hm & Hlt & _); [lia|].
  assert (length (StreamProof.int_bytes v) = m) as Hl.
  { unfold StreamProof.int_bytes. rewrite length_toBigEndian. lia. }
  assert (head false (data_header (StreamProof.int_bytes v)) (StreamProof.int_bytes v)) as H.
  { constructor; [apply toBigEndian_bytes_ok|]. rewrite Hl. unfold rlp_limit. lia. }
  assert (RLP.toInt int_u256 RLP.Strict (encode (IData (StreamProof.int_bytes v))) = Ok v) as T.
  { simpl encode. rewrite toInt_head; [|done|intros b q Hq; apply (int_bytes_leading v b q); [lia|done]].
    rewrite Hl. simpl maxSize. replace (_ <? _) with false by lia. f_equal.
    change (cast int_u256) with u256. rewrite fromBigEndian_spec by (apply toBigEndian_bytes_ok || lia).
    unfold StreamProof.int_bytes. rewrite be_value_toBigEndian, Hm, Nat2Z.id, (Z.mod_small v) by lia.
    apply wrap_small. unfold in_range. lia. }
  assert (RLP.new (encode (IData (StreamProof.int_bytes v))) RLP.VeryStrict
    = Ok (RLP.of_data (encode (IData (StreamProof.int_bytes v))))) as N by (by apply (reads_new false)).
  unfold decode_int. rewrite N. cbn [RLP.m_data RLP.of_data]. rewrite T.
  split; [|split; [done|split; [done|unfold in_range; lia]]].
  simpl encode. rewrite length_app. pose proof (head_size _ _ _ H). lia.
Qed.
End View.
