(* ===== verification/ScVersions.v ===== *)
(** * Concrete tries for the examples

    A database that keeps every version of every trie, numbered, and the blobs
    stored under their hashes.  It satisfies the interface [TrieLaws] the account
    state is verified against, so the theorems about the state can be applied to
    concrete states. *)

From S2P Require Import Prelude ScFixedHash ScSha3 ScRlp ScRlpWrite ScRlpRead ScState ScStateView.
From Stdlib Require Import ZifyBool.
Local Opaque EmptySHA3 EmptyTrie sha3.

Module Versions.
Record db := mkDb { versions : list (gmap bytes bytes); blobs : gmap bytes bytes }.
Definition empty : db := mkDb [] ∅.

(** Version [i] is under the root that encodes [i + 1]. *)
Definition root_of (i : nat) : bytes := FixedHash.of_arith 32 (Z.of_nat i + 1).
Definition find (d : db) (r : bytes) : option (gmap bytes bytes) :=
  if decide (r = EmptyTrie) then Some ∅
  else let i := FixedHash.to_arith 32 r in
       if bool_decide (r = FixedHash.of_arith 32 i) && (1 <=? i)
       then versions d !! Z.to_nat (i - 1) else None.

Definition with_trie {A} (r : bytes) (d : db) (k : gmap bytes bytes -> outcome A) : outcome A :=
  match find d r with Some m => k m | None => Throw "no trie" end.
Definition add_version (r : bytes) (f : gmap bytes bytes -> gmap bytes bytes) : SE db bytes := fun d =>
  match find d r with
  | Some m => (Ok (root_of (length (versions d))), mkDb (versions d ++ [f m]) (blobs d))
  | None => (Throw "no trie", d)
  end.

#[global] Instance versions_db : TrieDB db := {
  db_lookup h d := default [] (blobs d !! h);
  db_insert h v d := mkDb (versions d) (<[h := v]> (blobs d));
  trie_init d := (Ok EmptyTrie, d);
  trie_open r d := (with_trie r d (fun _ => Ok tt), d);
  trie_root r d := with_trie r d (fun _ => Ok r);
  trie_at r k d := with_trie r d (fun m => Ok (default [] (m !! k)));
  trie_insert r k v := add_version r (insert k v);
  trie_remove r k := add_version r (delete k) }.

Definition has_room (d : db) (n : nat) : Prop := Z.of_nat (length (versions d) + n) < 2 ^ 64.

Definition unclaimed (d : db) (c : bytes) : Prop :=
  default [] (blobs d !! sha3 c) = [] \/ default [] (blobs d !! sha3 c) = c.

Lemma EmptyTrie_large : 2 ^ 64 < FixedHash.to_arith 32 EmptyTrie.
Proof. vm_compute. reflexivity. Qed.

Lemma to_arith_root_of i : Z.of_nat i < 2 ^ 64 -> FixedHash.to_arith 32 (root_of i) = Z.of_nat i + 1.
Proof. intros Hi. unfold root_of. rewrite to_arith_of_arith. apply wrap_small. unfold in_range. lia. Qed.

Lemma root_of_hash i : Z.of_nat i < 2 ^ 64 ->
  length (root_of i) = 32%nat /\ bytes_ok (root_of i) /\ FixedHash.to_bool (root_of i) = true.
Proof.
  intros Hi. split; [apply length_toBigEndian|]. split; [apply toBigEndian_bytes_ok|].
  destruct (FixedHash.to_bool (root_of i)) eqn:E; [done|exfalso].
  pose proof (to_arith_root_of i Hi) as H. assert (root_of i = FixedHash.zero 32) as Hz.
  { unfold FixedHash.to_bool in E. apply list_eq_same_length with 32%nat;
      [apply length_zero|apply length_toBigEndian|]. intros j x y Hj Hx Hy.
    unfold FixedHash.zero in Hy. apply lookup_replicate in Hy as [-> _].
    destruct (Z.eqb_spec x 0) as [|Hne]; [done|exfalso].
    assert (existsb (fun b => negb (b =? 0)) (root_of i) = true) as Ht; [|congruence].
    apply existsb_exists. exists x. split; [by apply list_elem_of_In; eapply list_elem_of_lookup_2|].
    by apply negb_true_iff, Z.eqb_neq. }
  rewrite Hz in H. change (FixedHash.to_arith 32 (FixedHash.zero 32)) with 0 in H. lia.
Qed.

Lemma find_root_of d i : Z.of_nat i < 2 ^ 64 -> find d (root_of i) = versions d !! i.
Proof.
  intros Hi. unfold find. rewrite decide_False.
  - rewrite to_arith_root_of by done. fold (root_of i). rewrite bool_decide_true by done.
    replace (1 <=? Z.of_nat i + 1) with true by lia. simpl. f_equal. lia.
  - intros E. pose proof (to_arith_root_of i Hi) as H. rewrite E in H. pose proof EmptyTrie_large. lia.
Qed.

(** Older versions stay. *)
Lemma find_app d r m m' : find d r = Some m -> find (mkDb (versions d ++ [m']) (blobs d)) r = Some m.
Proof.
  unfold find. simpl. case_decide; [done|]. case_match; [|done]. intros Hl. by apply lookup_app_l_Some.
Qed.

Lemma add_version_ok d r m f n : find d r = Some m -> has_room d (S n) ->
  exists r' d', add_version r f d = (Ok r', d') /\ find d' r' = Some (f m) /\
    (length r' = 32%nat /\ bytes_ok r' /\ FixedHash.to_bool r' = true) /\ has_room d' n /\
    (forall r m, find d r = Some m -> find d' r = Some m) /\ blobs d' = blobs d.
Proof.
  intros Hm Hr. unfold has_room in *. eexists _, _.
  split; [unfold add_version; by rewrite Hm|]. split.
  { rewrite find_root_of by lia. simpl. by rewrite lookup_app_r, Nat.sub_diag by lia. }
  split; [apply root_of_hash; lia|]. split; [simpl; rewrite length_app; simpl; lia|].
  split; [|done]. intros. by apply find_app.
Qed.

#[global] Instance versions_laws : TrieLaws db.
Proof.
  refine {| tries := find; room := has_room; free := unclaimed |}.
  - intros d n n' Hn. unfold has_room. lia.
  - intros d c H. exact H.
  - intros d. unfold find. by rewrite decide_True.
  - intros d r m H. simpl. unfold with_trie. by rewrite H.
  - intros d r m k H. simpl. unfold with_trie. by rewrite H.
  - intros d r m H. exists d. simpl. unfold with_trie. by rewrite H.
  - intros d r m k v n Hm _ Hr.
    destruct (add_version_ok d r m (insert k v) n Hm Hr) as (r' & d' & E & Hf & (? & ? & ?) & ? & ? & Hb).
    exists r', d'. simpl. unfold unclaimed. rewrite Hb. by repeat split.
  - intros d r m k n Hm Hr.
    destruct (add_version_ok d r m (delete k) n Hm Hr) as (r' & d' & E & Hf & (? & ? & ?) & ? & ? & Hb).
    exists r', d'. simpl. unfold unclaimed. rewrite Hb. by repeat split.
  - intros d c n Hr Hc d'. simpl. rewrite lookup_insert_eq. split; [done|].
    split; [unfold has_room in *; simpl; lia|]. split; [done|]. split.
    + intros h Hh. destruct (decide (sha3 c = h)) as [<-|]; [|by rewrite lookup_insert_ne].
      rewrite lookup_insert_eq. destruct Hc as [Hc|Hc]; [by rewrite Hc in Hh|by rewrite Hc].
    + intros c' Hc' Hinj. unfold unclaimed in *. simpl. destruct (decide (sha3 c = sha3 c')) as [E|].
      * rewrite <- E, lookup_insert_eq. right. symmetry. by apply Hinj.
      * by rewrite lookup_insert_ne.
Defined.
End Versions.
