(* ===== verification/ScStateOps.v ===== *)
(** * What the operations of the state do

    Each query returns the value the view gives, and each change transforms the
    view as its name says and appends to the change log what undoes it. *)

From S2P Require Import Prelude ScFixedHash ScSha3 ScRlp ScRlpWrite ScRlpRead ScState ScStateView.
From Stdlib Require Import ZifyBool.
Local Opaque EmptySHA3 EmptyTrie sha3.

Section Ops.
Context {D : Type} `{TD : !TrieDB D} `{TL : !TrieLaws D}.
Implicit Types s : State D.

(** ** Queries *)

Definition view_balance (v : View) (a : bytes) : Z :=
  match vb v a with Some b => b_balance b | None => 0 end.
Definition view_code (v : View) (a : bytes) : bytes :=
  match vb v a with Some b => b_code b | None => [] end.
Definition view_codeHash (v : View) (a : bytes) : bytes :=
  match vb v a with Some b => b_codeHash b | None => EmptySHA3 end.

(** Reading a member of the account at [a]. *)
Lemma query_spec {A} a (f : option Account -> A) (g : option Basic -> A) s : state_ok s ->
  (forall d o, f o = g (basic_of d <$> o)) ->
  exists s', (x ← account a; mret (f x)) s = (Ok (g (vb (view s) a)), s') /\ quiet s s'.
Proof.
  intros Hs Hfg. destruct (account_spec a s Hs) as (s' & E & Hq & _). exists s'.
  unfold mbind, SE_bind. rewrite E. split; [|done]. unfold mret, SE_ret. f_equal. f_equal.
  rewrite (Hfg (m_db s')). f_equal. by rewrite <- (proj1 (q_view _ _ Hq) a).
Qed.

Definition view_inUse (v : View) (a : bytes) : bool :=
  match vb v a with Some _ => true | None => false end.

Lemma addressInUse_spec a s : state_ok s ->
  exists s', addressInUse a s = (Ok (view_inUse (view s) a), s') /\ quiet s s'.
Proof.
  intros Hs. apply (query_spec a _ (fun o => match o with Some _ => true | None => false end) s Hs).
  by intros d [].
Qed.
Lemma balance_spec a s : state_ok s ->
  exists s', balance a s = (Ok (view_balance (view s) a), s') /\ quiet s s'.
Proof.
  intros Hs. apply (query_spec a _ (fun o => match o with Some b => b_balance b | None => 0 end) s Hs).
  by intros d [].
Qed.
Lemma codeHash_spec a s : state_ok s ->
  exists s', codeHash a s = (Ok (view_codeHash (view s) a), s') /\ quiet s s'.
Proof.
  intros Hs. apply (query_spec a _ (fun o => match o with Some b => b_codeHash b | None => EmptySHA3 end) s Hs).
  by intros d [].
Qed.
Lemma addressHasCode_spec a s : state_ok s ->
  exists s', addressHasCode a s = (Ok (negb (FixedHash.eqb (view_codeHash (view s) a) EmptySHA3)), s') /\
    quiet s s'.
Proof.
  intros Hs. apply (query_spec a _ (fun o => negb (FixedHash.eqb
    (match o with Some b => b_codeHash b | None => EmptySHA3 end) EmptySHA3)) s Hs).
  intros d []; [done|]. simpl. unfold FixedHash.eqb. by rewrite bool_decide_true.
Qed.

(** The value of a slot in a well-formed storage trie. *)
Lemma read_slot d r m k s : tries d r = Some m -> map_Forall (fun _ => slot_ok) m ->
  let payload := default [] (m !! key32 k) in
  (if negb (size payload =? 0) then
     x ← lift_outcome (RLP.new payload RLP.VeryStrict);
     lift_outcome (RLP.toInt int_u256 RLP.Strict (RLP.m_data x))
   else mret 0) s = (Ok (base_slot d r k), s) /\ in_range 256 (base_slot d r k).
Proof.
  intros Hm Hall. unfold base_slot. rewrite Hm. destruct (m !! key32 k) as [p|] eqn:E; simpl.
  - destruct (slot_ok_reads p (Hall _ _ E)) as (Hs & Hn & Ht & Hr).
    replace (size p =? 0) with false by lia. simpl.
    unfold lift_outcome, mbind, SE_bind. rewrite Hn. cbn [RLP.m_data RLP.of_data]. by rewrite Ht.
  - split; [done|]. unfold in_range. lia.
Qed.

(** Noting in the overlay a value that is there already. *)
Lemma setStorageCache_quiet s a x k : state_ok s -> in_range 256 k -> m_cache s !! a = Some x ->
  m_storageOverlay x !! k = None -> in_range 256 (base_slot (m_db s) (m_storageRoot x) k) ->
  quiet s (set_m_cache (<[a := setStorageCache k (base_slot (m_db s) (m_storageRoot x) k) x]> (m_cache s)) s).
Proof.
  intros Hs Hkr Hx Hk Hr. destruct (so_cache _ Hs a x Hx) as [Hok _].
  apply (replace_quiet s a x); try done.
  - split; try apply Hok. apply map_Forall_insert_2; [done|apply Hok].
  - intros k'. unfold slot_of. simpl. destruct (decide (k = k')) as [<-|].
    + by rewrite lookup_insert_eq, Hk.
    + by rewrite lookup_insert_ne.
  - intros y Hc. split; try apply Hc. simpl. intros k' v.
    destruct (decide (k = k')) as [<-|]; [rewrite lookup_insert_eq; by intros [= <-]|].
    rewrite lookup_insert_ne by done. apply Hc.
Qed.

(** The slot [k] of [a], from the overlay or from the trie, then cached. *)
Lemma storage_spec a k s : state_ok s -> in_range 256 k ->
  exists s', storage a k s = (Ok (vs (view s) a k), s') /\ quiet s s' /\
    (is_Some (vb (view s) a) -> is_Some (m_cache s' !! a)).
Proof.
  intros Hs Hkr. destruct (account_spec a s Hs) as (s1 & E1 & Hq1 & Hin). pose proof (q_ok _ _ Hq1) as Hs1.
  unfold storage. rewrite (SE_bind_ok _ _ _ _ _ E1).
  rewrite <- (proj2 (q_view _ _ Hq1)), <- (proj1 (q_view _ _ Hq1)). simpl.
  destruct (here s1 a) as [x|] eqn:Ex; [|exists s1; split; [done|]; split; [done|]; by intros []].
  pose proof (Hin x eq_refl) as Hx. pose proof (here_ok s1 a x Hs1 Ex) as Hok.
  unfold slot_of. destruct (m_storageOverlay x !! k) as [v|] eqn:Ek; [exists s1; eauto|].
  destruct (ao_storage _ _ Hok) as (Hl & Hb & Ht & m & Hm & Hall).
  unfold baseRoot, assertion. rewrite Ht. rewrite (SE_bind_ok _ _ _ (m_storageRoot x) s1) by done.
  destruct (trie_open_ok _ _ _ Hm) as (d & Eo & Hroom & Hext1 & Hext2 & Hfree).
  rewrite (SE_bind_ok _ _ _ tt (set_m_db d s1)) by (unfold in_db, zoom; by rewrite Eo).
  assert (quiet s1 (set_m_db d s1)) as Hq2 by (apply extend_quiet; done).
  set (s2 := set_m_db d s1) in *. pose proof (q_ok _ _ Hq2) as Hs2.
  rewrite (SE_bind_ok _ _ _ (default [] (m !! key32 k)) s2)
    by (unfold at_db; by rewrite <- (trie_at_ok _ _ _ (key32 k) (Hext1 _ _ Hm))).
  assert (base_slot (m_db s2) (m_storageRoot x) k = base_slot (m_db s1) (m_storageRoot x) k) as Hbs.
  { apply base_slot_extends; [done|]. apply Hok. }
  rewrite <- Hbs. destruct (read_slot (m_db s2) _ m k s2 (Hext1 _ _ Hm) Hall) as [Er Hr].
  rewrite (SE_bind_ok _ _ _ _ _ Er).
  eexists. split; [done|]. split.
  - eapply quiet_trans; [done|]. eapply quiet_trans; [done|]. by apply setStorageCache_quiet.
  - intros _. simpl. by rewrite lookup_insert_eq.
Qed.

(** The code of [a], from the cache or from the database, then cached. *)
Lemma code_spec a s : state_ok s ->
  exists s', code a s = (Ok (view_code (view s) a), s') /\ quiet s s'.
Proof.
  intros Hs. destruct (account_spec a s Hs) as (s1 & E1 & Hq1 & Hin). pose proof (q_ok _ _ Hq1) as Hs1.
  unfold code, view_code. rewrite (SE_bind_ok _ _ _ _ _ E1), <- (proj1 (q_view _ _ Hq1)). simpl.
  destruct (here s1 a) as [x|] eqn:Ex; [|exists s1; by split]. simpl.
  pose proof (Hin x eq_refl) as Hx. pose proof (here_ok s1 a x Hs1 Ex) as Hok.
  pose proof (ao_code _ _ Hok) as Hc. unfold code_of in *.
  destruct (FixedHash.eqb (m_codeHash x) EmptySHA3) eqn:Eh; [exists s1; by split|].
  assert (m_codeHash x <> EmptySHA3) as Hne by (intros E; apply eqb_spec in E; congruence).
  destruct (size (m_codeCache x) =? 0) eqn:Ec; [|exists s1; by split].
  set (c := db_lookup (m_codeHash x) (m_db s1)) in *. rewrite (SE_bind_ok _ _ _ c s1) by done.
  rewrite (SE_bind_ok _ _ _ tt s1) by (unfold assertion; by rewrite (proj2 (eqb_spec _ _) (Hc Hne))).
  rewrite (SE_bind_ok _ _ _ tt (set_m_cache (<[a := acc_m_codeCache c x]> (m_cache s1)) s1)) by done.
  assert (m_codeCache x = []) as Hcc by (by destruct (m_codeCache x)).
  assert (code_of (m_db s1) (acc_m_codeCache c x) = code_of (m_db s1) x) as Hco.
  { unfold code_of. simpl. rewrite Eh, Hcc. simpl. fold c. destruct (Z.eqb_spec (size c) 0) as [E|]; done. }
  assert (size c < 2 ^ 62) as Hcs.
  { pose proof (proj2 (ao_code_size _ _ Hok)) as H. unfold code_of in H. by rewrite Eh, Ec in H. }
  assert (quiet s1 (set_m_cache (<[a := acc_m_codeCache c x]> (m_cache s1)) s1)) as Hq2.
  { apply (replace_quiet s1 a x); try done.
    - split; try apply Hok; rewrite ?Hco; try apply Hok; [exact Hcs|]. intros _ _. exact (Hc Hne).
    - unfold basic_of. by rewrite Hco.
    - intros y Hy. split; try apply Hy. done. }
  destruct (csc_store_quiet (m_codeHash x) (size c) _ (q_ok _ _ Hq2)) as (s3 & E3 & Hq3 & _).
  { exists c. split; [exact (Hc Hne)|done]. }
  rewrite (SE_bind_ok _ _ _ _ _ E3). exists s3. split; [done|].
  eapply quiet_trans; [done|]. by eapply quiet_trans.
Qed.

(** ** Undoing in the view *)

Definition upd_basic (a : bytes) (f : Basic -> Basic) (v : View) : View :=
  mkView (fun c => if decide (c = a) then f <$> vb v c else vb v c) (vs v).
Definition upd_slot (a : bytes) (k x : Z) (v : View) : View :=
  mkView (vb v) (fun c j => if decide (c = a /\ j = k) then x else vs v c j).
Definition set_acct (a : bytes) (b : option Basic) (f : Z -> Z) (v : View) : View :=
  mkView (fun c => if decide (c = a) then b else vb v c) (fun c j => if decide (c = a) then f j else vs v c j).

Definition with_balance (x : Z) (b : Basic) : Basic :=
  mkBasic (b_alive b) (b_nonce b) x (b_root b) (b_codeHash b) (b_code b).
Definition with_nonce (x : Z) (b : Basic) : Basic :=
  mkBasic (b_alive b) x (b_balance b) (b_root b) (b_codeHash b) (b_code b).
Definition with_code (h c : bytes) (b : Basic) : Basic :=
  mkBasic (b_alive b) (b_nonce b) (b_balance b) (b_root b) h c.

Definition undo_view (c : Change) (v : View) : View :=
  match c with
  | Balance a x => upd_basic a (fun b => with_balance (u256 (b_balance b + u256 (0 - x))) b) v
  | Storage a k x => upd_slot a k x v
  | Nonce a => upd_basic a (fun b => with_nonce (u256 (b_nonce b - 1)) b) v
  | Create a => set_acct a None (fun _ => 0) v
  | NewCode a => upd_basic a (with_code EmptySHA3 []) v
  | Touch a => v
  end.

(** What the tries alone show. *)
Definition base (s : State D) : View :=
  mkView (fun a => basic_of (m_db s) <$> backing s a)
         (fun a k => match backing s a with Some y => slot_of (m_db s) y k | None => 0 end).

(** Undoing [c] in [v] is right when the tries show [w]. *)
Definition ok_undo (w : View) (c : Change) (v : View) : Prop :=
  match c with
  | Touch a => vb v a = vb w a /\ forall k, vs v a k = vs w a k
  | Create a => vb w a = None
  | Storage _ k x => in_range 256 k /\ in_range 256 x
  | _ => True
  end.

(** Undoing [l] in [v], the newest change first, gives [v0]. *)
Fixpoint reverts (w : View) (l : list Change) (v v0 : View) : Prop :=
  match l with
  | [] => veq v v0
  | c :: l' => ok_undo w c v /\ reverts w l' (undo_view c v) v0
  end.

#[global] Instance undo_view_proper c : Proper (veq ==> veq) (undo_view c).
Proof.
  intros v w [H1 H2]. destruct c; split; intros; simpl; rewrite ?H1, ?H2; try done.
Qed.

#[global] Instance upd_basic_proper a f : Proper (veq ==> veq) (upd_basic a f).
Proof. intros v w [H1 H2]. split; intros; simpl; rewrite ?H1, ?H2; reflexivity. Qed.
#[global] Instance upd_slot_proper a k x : Proper (veq ==> veq) (upd_slot a k x).
Proof. intros v w [H1 H2]. split; intros; simpl; rewrite ?H1, ?H2; reflexivity. Qed.
#[global] Instance set_acct_proper a b f : Proper (veq ==> veq) (set_acct a b f).
Proof. intros v w [H1 H2]. split; intros; simpl; rewrite ?H1, ?H2; reflexivity. Qed.

#[global] Instance ok_undo_proper : Proper (veq ==> eq ==> veq ==> iff) ok_undo.
Proof.
  intros w w' [Hw1 Hw2] c ? <- v v' [H1 H2]. destruct c; simpl; rewrite ?Hw1, ?H1; try done.
  split; intros [? H]; (split; [done|]); intros k; specialize (H k); rewrite ?Hw2, ?H2 in *; congruence.
Qed.

#[global] Instance reverts_proper : Proper (veq ==> eq ==> veq ==> veq ==> iff) reverts.
Proof.
  intros w w' Hw l ? <-. induction l as [|c l IH]; intros v v' Hv v0 v0' Hv0; simpl.
  - by rewrite Hv, Hv0.
  - rewrite Hw, Hv at 1. assert (veq (undo_view c v) (undo_view c v')) as Hu by (by rewrite Hv).
    by rewrite (IH _ _ Hu _ _ Hv0).
Qed.

Lemma reverts_app w l1 l2 v v1 v0 : reverts w l1 v v1 -> reverts w l2 v1 v0 -> reverts w (l1 ++ l2) v v0.
Proof.
  revert v. induction l1 as [|c l1 IH]; intros v; simpl.
  - intros Hv H. by rewrite Hv.
  - intros [Hc H1] H2. eauto.
Qed.

(** ** Steps that change the state *)
Record changes (s s' : State D) (l : list Change) : Prop := {
  ch_ok : state_ok s';
  ch_log : m_changeLog s' = l ++ m_changeLog s;
  ch_reverts : reverts (base s) l (view s') (view s);
  ch_base : veq (base s') (base s);
  ch_start : m_accountStartNonce s' = m_accountStartNonce s;
  ch_root : m_state_root s' = m_state_root s;
  ch_db : extends (m_db s) (m_db s');
  ch_room n : room (m_db s) n -> room (m_db s') n;
  ch_free c : free (m_db s) c -> free (m_db s') c;
  ch_dirty a x : m_cache s !! a = Some x -> isDirty x = true ->
    exists x', m_cache s' !! a = Some x' /\ isDirty x' = true }.

Lemma quiet_base s s' : state_ok s -> quiet s s' -> veq (base s') (base s).
Proof.
  intros Hs Hq. split; intros; simpl; rewrite (q_backing _ _ Hq); destruct (backing s a) as [y|] eqn:E; try done.
  all: destruct (backing_ok s a y Hs E) as (Hy & _); simpl.
  - f_equal. apply basic_of_extends; [apply Hq|done].
  - apply slot_of_extends; [apply Hq|done].
Qed.

Lemma quiet_changes s s' : state_ok s -> quiet s s' -> changes s s' [].
Proof. intros Hs Hq. split; try apply Hq. by apply quiet_base. Qed.

Lemma changes_trans s1 s2 s3 l1 l2 : changes s1 s2 l1 -> changes s2 s3 l2 -> changes s1 s3 (l2 ++ l1).
Proof.
  intros H1 H2. split.
  - apply H2.
  - by rewrite (ch_log _ _ _ H2), (ch_log _ _ _ H1), app_assoc.
  - eapply reverts_app; [|apply H1]. rewrite <- (ch_base _ _ _ H1). apply H2.
  - etrans; [apply H2|apply H1].
  - by rewrite (ch_start _ _ _ H2), (ch_start _ _ _ H1).
  - by rewrite (ch_root _ _ _ H2), (ch_root _ _ _ H1).
  - etrans; [apply H1|apply H2].
  - intros n Hn. by apply H2, H1.
  - intros c Hc. by apply H2, H1.
  - intros a x Hx Hd. destruct (ch_dirty _ _ _ H1 a x Hx Hd) as (y & Hy & Hyd). by apply (ch_dirty _ _ _ H2 a y).
Qed.

(** Writing the dirty account [x] at [a] and logging [l] for it. *)
Definition put_log (s : State D) (a : bytes) (x : Account) (ne : gset bytes) (l : list Change) : State D :=
  set_m_changeLog (l ++ m_changeLog s)
    (set_m_nonExistingAccountsCache ne (set_m_cache (<[a := x]> (m_cache s)) s)).

Lemma put_log_ok s a x ne l : state_ok s -> account_ok (m_db s) x -> isDirty x = true ->
  ne ⊆ m_nonExistingAccountsCache s -> a ∉ ne -> Forall (fun c => change_address c = a) l ->
  ordered (l ++ m_changeLog s) ->
  state_ok (put_log s a x ne l) /\
  veq (view (put_log s a x ne l)) (set_acct a (Some (basic_of (m_db s) x)) (slot_of (m_db s) x) (view s)).
Proof.
  intros Hs Hx Hd Hne Han Hl Ho. split.
  - split; simpl; try apply Hs; try done.
    + intros b y. destruct (decide (a = b)) as [<-|].
      * rewrite lookup_insert_eq. intros [= <-]. split; [done|congruence].
      * rewrite lookup_insert_ne by done. apply (so_cache _ Hs).
    + intros b Hb. destruct (so_missing _ Hs b (Hne b Hb)). split; [done|].
      rewrite lookup_insert_ne; [done|]. by intros ->.
    + intros c Hc. destruct (decide (a = change_address c)) as [<-|Hn].
      * rewrite lookup_insert_eq. eauto.
      * rewrite lookup_insert_ne by done. apply (so_log _ Hs). apply elem_of_app in Hc as [Hc|]; [|done].
        rewrite Forall_forall in Hl. destruct Hn. symmetry. apply Hl. by apply list_elem_of_In.
  - assert (forall b, here (put_log s a x ne l) b = if decide (b = a) then Some x else here s b) as Hh.
    { intros b. unfold here, put_log. simpl. case_decide; [subst; by rewrite lookup_insert_eq|].
      by rewrite lookup_insert_ne. }
    split; intros; simpl; rewrite Hh; by case_decide.
Qed.

Lemma put_log_changes s a x ne l : state_ok s -> account_ok (m_db s) x -> isDirty x = true ->
  ne ⊆ m_nonExistingAccountsCache s -> a ∉ ne -> Forall (fun c => change_address c = a) l ->
  ordered (l ++ m_changeLog s) ->
  reverts (base s) l (set_acct a (Some (basic_of (m_db s) x)) (slot_of (m_db s) x) (view s)) (view s) ->
  changes s (put_log s a x ne l) l.
Proof.
  intros Hs Hx Hd Hne Han Hl Ho Hr. destruct (put_log_ok s a x ne l) as [Hok Hv]; try done.
  split; try done; [by rewrite Hv|]. intros b y Hy Hyd. simpl.
  destruct (decide (a = b)) as [<-|]; [rewrite lookup_insert_eq|rewrite lookup_insert_ne by done]; eauto.
Qed.

(** ** The operations *)

Lemma storage_ok_empty d : storage_ok d EmptyTrie.
Proof.
  destruct EmptyTrie_hash. split; [done|]. split; [done|]. split; [apply EmptyTrie_nonzero|].
  exists ∅. split; [apply tries_empty|apply map_Forall_empty].
Qed.

Lemma code_of_empty d x : m_codeHash x = EmptySHA3 -> code_of d x = [].
Proof. intros E. unfold code_of. by rewrite (proj2 (eqb_spec _ _) E). Qed.

Lemma account_ok_alive d n v : in_range 256 n -> in_range 256 v -> account_ok d (Account_alive n v).
Proof.
  intros Hn Hv. pose proof (code_of_empty d (Account_alive n v) eq_refl) as Hc.
  split; [exact Hn|exact Hv|apply storage_ok_empty|apply EmptySHA3_hash| | | | | |apply map_Forall_empty].
  - intros Hne. by destruct Hne.
  - rewrite Hc. split; [constructor|simpl; lia].
  - simpl. lia.
  - intros [=].
  - intros _ Hne. by destruct Hne.
Qed.

Lemma base_slot_empty d k : base_slot d EmptyTrie k = 0.
Proof. unfold base_slot. by rewrite tries_empty, lookup_empty. Qed.

(** Members that do not matter for the code and the storage. *)
Lemma account_ok_numbers d x n b u : account_ok d x -> in_range 256 n -> in_range 256 b ->
  account_ok d (acc_m_isUnchanged u (acc_m_nonce n (acc_m_balance b x))).
Proof. intros Hx Hn Hb. split; try done; apply Hx. Qed.

(** No change is logged for an account that is clean or absent. *)
Lemma unlogged s a : state_ok s -> (forall x, m_cache s !! a = Some x -> isDirty x = false) ->
  Forall (fun c => change_address c <> a) (m_changeLog s).
Proof.
  intros Hs Ha. apply List.Forall_forall. intros c Hc%list_elem_of_In <-.
  destruct (so_log _ Hs c Hc) as (x & Hx & Hd). by rewrite (Ha x Hx) in Hd.
Qed.

(** What is shown of a cached account before and after its replacement. *)
Lemma set_acct_same s a x : here s a = Some x ->
  veq (set_acct a (Some (basic_of (m_db s) x)) (slot_of (m_db s) x) (view s)) (view s).
Proof. intros E. split; intros; simpl; case_decide; subst; by rewrite ?E. Qed.

(** [createAccount] at an unused address. *)
Lemma createAccount_spec a x s : state_ok s -> vb (view s) a = None ->
  account_ok (m_db s) x -> isDirty x = true ->
  exists s1, quiet s s1 /\ createAccount a x s
    = (Ok tt, put_log s1 a x (m_nonExistingAccountsCache s1 ∖ {[a]}) [Create a]).
Proof.
  intros Hs Hn Hx Hd. destruct (addressInUse_spec a s Hs) as (s1 & E1 & Hq). exists s1. split; [done|].
  unfold createAccount. rewrite (SE_bind_ok _ _ _ _ _ E1). unfold view_inUse. rewrite Hn. done.
Qed.

Lemma here_None s a : state_ok s -> vb (view s) a = None ->
  here s a = None /\ m_cache s !! a = None /\ vb (base s) a = None /\ forall k, vs (view s) a k = 0.
Proof.
  intros Hs. simpl. destruct (here s a) as [x|] eqn:E; [done|]. intros _. unfold here in E.
  destruct (m_cache s !! a); [done|]. by rewrite E.
Qed.

(** The [Balance] entry [addBalance] logs for a non-zero amount. *)
Definition balance_log (a : bytes) (v : Z) : list Change := if v =? 0 then [] else [Balance a v].

Lemma balance_log_addr a v : Forall (fun c => change_address c = a) (balance_log a v).
Proof. unfold balance_log. case_match; by repeat constructor. Qed.
Lemma ordered_balance a v l : ordered l -> ordered (balance_log a v ++ l).
Proof. unfold balance_log. case_match; by simpl. Qed.

(** Undoing it subtracts the amount. *)
Lemma reverts_balance w a v x f V (b : Basic) : in_range 256 (b_balance b) -> 0 <= v ->
  vb V a = Some b -> b_balance x = u256 (b_balance b + v) -> with_balance (b_balance b) x = b ->
  (forall k, f k = vs V a k) ->
  reverts w (balance_log a v) (set_acct a (Some x) f V) V.
Proof.
  intros Hb Hv HV Hx Hxb Hf. unfold balance_log. destruct (Z.eqb_spec v 0) as [->|].
  - simpl. assert (x = b) as ->.
    { rewrite <- Hxb. rewrite Z.add_0_r, wrap_small in Hx by done. destruct x; simpl in *. by rewrite <- Hx. }
    split; intros; simpl; case_decide; subst; rewrite ?HV, ?Hf; done.
  - simpl. split; [done|]. split; intros; simpl; case_decide as E; subst; try (by rewrite ?Hf).
    simpl. rewrite HV. f_equal. transitivity (with_balance (b_balance b) x); [|done]. f_equal.
    rewrite Hx. unfold wrap. rewrite Zplus_mod_idemp_l, Zplus_mod_idemp_r.
    replace (b_balance b + v + (0 - v)) with (b_balance b) by lia. by apply Z.mod_small.
Qed.

Lemma difference_out (X : gset bytes) a : a ∉ X ∖ {[a]}.
Proof. intros Ha. apply elem_of_difference in Ha as [_ Ha]. by apply Ha, elem_of_singleton. Qed.
Lemma difference_sub (X : gset bytes) a : X ∖ {[a]} ⊆ X.
Proof. intros b Hb. by apply elem_of_difference in Hb as [? _]. Qed.

(** Creating an account at an unused address, with its first balance. *)
Lemma create_changes s a n v : state_ok s -> vb (view s) a = None ->
  in_range 256 n -> in_range 256 v ->
  let s' := put_log s a (Account_alive n v) (m_nonExistingAccountsCache s ∖ {[a]})
              (balance_log a v ++ [Create a]) in
  changes s s' (balance_log a v ++ [Create a]) /\
  veq (view s') (set_acct a (Some (mkBasic true n v EmptyTrie EmptySHA3 [])) (fun _ => 0) (view s)).
Proof.
  intros Hs Hno Hn Hv s'. destruct (here_None s a Hs Hno) as (Hh & Hc & Hb & Hz).
  pose proof (account_ok_alive (m_db s) n v Hn Hv) as Hx.
  assert (basic_of (m_db s) (Account_alive n v) = mkBasic true n v EmptyTrie EmptySHA3 []) as Ebas.
  { unfold basic_of. rewrite code_of_empty by done. done. }
  assert (forall k, slot_of (m_db s) (Account_alive n v) k = 0) as Eslot.
  { intros k. unfold slot_of. simpl. by rewrite lookup_empty, base_slot_empty. }
  assert (Forall (fun c => change_address c = a) (balance_log a v ++ [Create a])) as Hl.
  { apply Forall_app. split; [apply balance_log_addr|by repeat constructor]. }
  assert (ordered ((balance_log a v ++ [Create a]) ++ m_changeLog s)) as Ho.
  { rewrite <- app_assoc. apply ordered_balance. simpl. split; [|apply Hs]. intros _.
    apply unlogged; [done|]. intros x Hxx. congruence. }
  split.
  - apply put_log_changes; [exact Hs|exact Hx|reflexivity|apply difference_sub|apply difference_out|exact Hl|exact Ho|]. rewrite Ebas.
    unfold balance_log. destruct (v =? 0); simpl; (split; [try exact I; exact Hb|]); [|split; [exact Hb|]].
    all: split; intros; simpl; case_decide; subst; rewrite ?Hh; reflexivity.
  - etrans; [apply put_log_ok; [exact Hs|exact Hx|reflexivity|apply difference_sub|apply difference_out|exact Hl|exact Ho]|]. rewrite Ebas.
    split; intros; simpl; case_decide; rewrite ?Eslot; reflexivity.
Qed.

(** The view after [addBalance]. *)
Definition view_addBalance (start : Z) (a : bytes) (v : Z) (V : View) : View :=
  match vb V a with
  | Some b => upd_basic a (fun b => with_balance (u256 (b_balance b + v)) b) V
  | None => set_acct a (Some (mkBasic true start v EmptyTrie EmptySHA3 [])) (fun _ => 0) V
  end.

Definition touch_log (a : bytes) (x : Account) : list Change :=
  if negb (isDirty x) && isEmpty x then [Touch a] else [].

(** Crediting an account that is in the cache. *)
Lemma credit_changes s a x v : state_ok s -> m_cache s !! a = Some x -> in_range 256 v ->
  let s' := put_log s a (Account_addBalance v x) (m_nonExistingAccountsCache s)
              (balance_log a v ++ touch_log a x) in
  changes s s' (balance_log a v ++ touch_log a x) /\
  veq (view s') (upd_basic a (fun b => with_balance (u256 (b_balance b + v)) b) (view s)).
Proof.
  intros Hs Hc Hv s'. destruct (so_cache _ Hs a x Hc) as [Hx Hcl].
  assert (here s a = Some x) as Hh by (unfold here; by rewrite Hc).
  assert (account_ok (m_db s) (Account_addBalance v x)) as Hx'.
  { apply (account_ok_numbers (m_db s) x (m_nonce x)); [done|apply Hx|apply wrap_range; lia]. }
  assert (basic_of (m_db s) (Account_addBalance v x) = with_balance (u256 (m_balance x + v)) (basic_of (m_db s) x)) as Ebas by reflexivity.
  assert (forall k, slot_of (m_db s) (Account_addBalance v x) k = slot_of (m_db s) x k) as Eslot by reflexivity.
  assert (Forall (fun c => change_address c = a) (balance_log a v ++ touch_log a x)) as Hl.
  { apply Forall_app. split; [apply balance_log_addr|]. unfold touch_log. case_match; by repeat constructor. }
  assert (ordered ((balance_log a v ++ touch_log a x) ++ m_changeLog s)) as Ho.
  { rewrite <- app_assoc. apply ordered_balance. unfold touch_log. case_match eqn:E; [|apply Hs].
    simpl. split; [|apply Hs]. intros _. apply unlogged; [exact Hs|]. intros y Hy.
    apply andb_true_iff in E as [E _]. apply negb_true_iff in E. congruence. }
  assert (reverts (base s) (balance_log a v)
    (set_acct a (Some (basic_of (m_db s) (Account_addBalance v x))) (slot_of (m_db s) (Account_addBalance v x)) (view s))
    (view s)) as Hrev.
  { apply (reverts_balance _ _ _ _ _ _ (basic_of (m_db s) x)); [apply Hx|apply Hv|simpl; rewrite Hh; reflexivity|reflexivity|reflexivity|].
    intros k. simpl. by rewrite Hh. }
  split.
  - apply put_log_changes; [exact Hs|exact Hx'|reflexivity|reflexivity|by eapply cached_present|exact Hl|exact Ho|].
    eapply reverts_app; [exact Hrev|]. unfold touch_log. case_match eqn:E; [|reflexivity].
    simpl. split; [|reflexivity]. apply andb_true_iff in E as [E _]. apply negb_true_iff in E.
    destruct (Hcl E) as (y & Hy & Hyc). destruct (backing_ok s a y Hs Hy) as (_ & Ha & Hcc & Hov & _).
    rewrite Hh, Hy. simpl. split; [f_equal; by apply clean_basic|]. intros k. by apply clean_slot.
  - etrans; [apply put_log_ok; [exact Hs|exact Hx'|reflexivity|reflexivity|by eapply cached_present|exact Hl|exact Ho]|].
    rewrite Ebas. split; intros; simpl; case_decide; subst; rewrite ?Hh; reflexivity.
Qed.

Lemma addBalance_spec a v s : state_ok s -> in_range 256 v ->
  (vb (view s) a = None -> m_accountStartNonce s <> Invalid256) ->
  exists s' l, addBalance a v s = (Ok tt, s') /\ changes s s' l /\
    veq (view s') (view_addBalance (m_accountStartNonce s) a v (view s)).
Proof.
  intros Hs Hv Hst. destruct (account_spec a s Hs) as (s1 & E1 & Hq & Hin). pose proof (q_ok _ _ Hq) as Hs1.
  unfold addBalance. rewrite (SE_bind_ok _ _ _ _ _ E1). unfold view_addBalance.
  rewrite <- (proj1 (q_view _ _ Hq)) in *. rewrite view_here in *.
  destruct (here s1 a) as [x|] eqn:Eh; simpl in *.
  - destruct (credit_changes s1 a x v Hs1 (Hin x eq_refl) Hv) as [Hch Hview].
    eexists _, _. split; [|split; [eapply changes_trans; [by apply quiet_changes|exact Hch]|]].
    + unfold touch_log, balance_log, when, put_log, mbind, SE_bind, log, put_account, modify, mret, SE_ret.
      destruct (negb (isDirty x) && isEmpty x), (v =? 0); reflexivity.
    + rewrite Hview, (q_view _ _ Hq). reflexivity.
  - assert (vb (view s1) a = None) as Hno by (simpl; by rewrite Eh).
    assert (requireAccountStartNonce s1 = (Ok (m_accountStartNonce s), s1)) as Er.
    { unfold requireAccountStartNonce, gets, mbind, SE_bind. rewrite (q_start _ _ Hq).
      destruct (Z.eqb_spec (m_accountStartNonce s) Invalid256); [by destruct Hst|done]. }
    destruct (createAccount_spec a (Account_alive (m_accountStartNonce s) v) s1 Hs1 Hno) as (s2 & Hq2 & E2).
    { apply account_ok_alive; [apply Hs|done]. } { reflexivity. }
    erewrite (SE_bind_ok _ _ s1); [|rewrite (SE_bind_ok _ _ _ _ _ Er); exact E2].
    assert (vb (view s2) a = None) as Hno2 by (by rewrite (proj1 (q_view _ _ Hq2))).
    destruct (create_changes s2 a (m_accountStartNonce s) v (q_ok _ _ Hq2) Hno2 (so_start _ Hs) Hv) as [Hch Hview].
    eexists _, _. split; [|split; [eapply changes_trans;
      [apply quiet_changes; [exact Hs|eapply quiet_trans; [exact Hq|exact Hq2]]|exact Hch]|]].
    + unfold balance_log, when, put_log, log, modify, mret, SE_ret. destruct (v =? 0); reflexivity.
    + rewrite Hview, (q_view _ _ Hq2), (q_view _ _ Hq). reflexivity.
Qed.

(** An account that is in the cache and is replaced, with one change logged. *)
Lemma replace_changes s a x x' c : state_ok s -> m_cache s !! a = Some x ->
  account_ok (m_db s) x' -> isDirty x' = true -> change_address c = a -> opens c = false ->
  ok_undo (base s) c (set_acct a (Some (basic_of (m_db s) x')) (slot_of (m_db s) x') (view s)) ->
  veq (undo_view c (set_acct a (Some (basic_of (m_db s) x')) (slot_of (m_db s) x') (view s))) (view s) ->
  let s' := put_log s a x' (m_nonExistingAccountsCache s) [c] in
  changes s s' [c] /\
  veq (view s') (set_acct a (Some (basic_of (m_db s) x')) (slot_of (m_db s) x') (view s)).
Proof.
  intros Hs Hc Hx' Hd Ha Hop Hok Hun s'.
  assert (Forall (fun c => change_address c = a) [c]) as Hl by (by repeat constructor).
  assert (ordered ([c] ++ m_changeLog s)) as Ho by (split; [congruence|apply Hs]).
  split.
  - apply put_log_changes; [exact Hs|exact Hx'|exact Hd|reflexivity|by eapply cached_present|exact Hl|exact Ho|by split].
  - apply put_log_ok; [exact Hs|exact Hx'|exact Hd|reflexivity|by eapply cached_present|exact Hl|exact Ho].
Qed.

Definition view_incNonce (start : Z) (a : bytes) (V : View) : View :=
  match vb V a with
  | Some b => upd_basic a (fun b => with_nonce (u256 (b_nonce b + 1)) b) V
  | None => set_acct a (Some (mkBasic true (u256 (start + 1)) 0 EmptyTrie EmptySHA3 [])) (fun _ => 0) V
  end.

Lemma requireAccountStartNonce_spec s : m_accountStartNonce s <> Invalid256 ->
  requireAccountStartNonce s = (Ok (m_accountStartNonce s), s).
Proof.
  intros H. unfold requireAccountStartNonce, gets, mbind, SE_bind.
  by destruct (Z.eqb_spec (m_accountStartNonce s) Invalid256).
Qed.

(** Creating an account without balance. *)
Lemma create_spec a n s : state_ok s -> vb (view s) a = None -> in_range 256 n ->
  exists s' l, createAccount a (Account_alive n 0) s = (Ok tt, s') /\ changes s s' l /\
    veq (view s') (set_acct a (Some (mkBasic true n 0 EmptyTrie EmptySHA3 [])) (fun _ => 0) (view s)).
Proof.
  intros Hs Hno Hn. assert (in_range 256 0) as H0 by (unfold in_range; lia).
  destruct (createAccount_spec a (Account_alive n 0) s Hs Hno) as (s2 & Hq2 & E2).
  { by apply account_ok_alive. } { reflexivity. }
  assert (vb (view s2) a = None) as Hno2 by (by rewrite (proj1 (q_view _ _ Hq2))).
  destruct (create_changes s2 a n 0 (q_ok _ _ Hq2) Hno2 Hn H0) as [Hch Hview].
  eexists _, _. split; [exact E2|]. split; [eapply changes_trans; [by apply quiet_changes|exact Hch]|].
  etrans; [exact Hview|]. by rewrite (q_view _ _ Hq2).
Qed.

Lemma incNonce_spec a s : state_ok s ->
  (vb (view s) a = None -> m_accountStartNonce s <> Invalid256) ->
  exists s' l, incNonce a s = (Ok tt, s') /\ changes s s' l /\
    veq (view s') (view_incNonce (m_accountStartNonce s) a (view s)).
Proof.
  intros Hs Hst. destruct (account_spec a s Hs) as (s1 & E1 & Hq & Hin). pose proof (q_ok _ _ Hq) as Hs1.
  unfold incNonce. rewrite (SE_bind_ok _ _ _ _ _ E1). unfold view_incNonce.
  rewrite <- (proj1 (q_view _ _ Hq)) in *. rewrite view_here in *.
  destruct (here s1 a) as [x|] eqn:Eh; simpl in *.
  - pose proof (Hin x eq_refl) as Hx. destruct (so_cache _ Hs1 a x Hx) as [Hok _].
    destruct (replace_changes s1 a x (Account_incNonce x) (Nonce a) Hs1 Hx) as [Hch Hview];
      try exact I; try reflexivity.
    { apply (account_ok_numbers (m_db s1) x _ (m_balance x)); [done|apply wrap_range; lia|apply Hok]. }
    { split; intros; simpl; case_decide; subst; rewrite ?Eh; try reflexivity.
      simpl. f_equal. unfold with_nonce, basic_of. simpl. f_equal. unfold wrap. rewrite Zminus_mod_idemp_l.
      rewrite Z.add_simpl_r. apply Z.mod_small, Hok. }
    eexists _, _. split; [reflexivity|]. split; [eapply changes_trans; [by apply quiet_changes|exact Hch]|].
    rewrite <- (q_view _ _ Hq). etrans; [exact Hview|].
    split; intros; simpl; case_decide; subst; rewrite ?Eh; reflexivity.
  - assert (vb (view s1) a = None) as Hno by (simpl; by rewrite Eh).
    rewrite (SE_bind_ok _ _ _ _ _ (requireAccountStartNonce_spec s1 ltac:(rewrite (q_start _ _ Hq); by apply Hst))).
    destruct (create_spec a (u256 (m_accountStartNonce s1 + 1)) s1 Hs1 Hno (wrap_range 256 _ ltac:(lia)))
      as (s2 & l & E2 & Hch & Hview).
    eexists _, _. split; [exact E2|]. split; [eapply changes_trans; [by apply quiet_changes|exact Hch]|].
    rewrite Hview, (q_view _ _ Hq), (q_start _ _ Hq). reflexivity.
Qed.

Lemma createContract_spec a s : state_ok s -> vb (view s) a = None -> m_accountStartNonce s <> Invalid256 ->
  exists s' l, createContract a s = (Ok tt, s') /\ changes s s' l /\
    veq (view s') (set_acct a (Some (mkBasic true (m_accountStartNonce s) 0 EmptyTrie EmptySHA3 []))
                     (fun _ => 0) (view s)).
Proof.
  intros Hs Hno Hst. unfold createContract.
  rewrite (SE_bind_ok _ _ _ _ _ (requireAccountStartNonce_spec s Hst)). by apply create_spec, Hs.
Qed.

(** [subBalance] adds the complement, or throws before any change. *)
Lemma subBalance_spec a v s : state_ok s -> in_range 256 v ->
  if (v =? 0) || (v <=? view_balance (view s) a) then
    exists s' l, subBalance a v s = (Ok tt, s') /\ changes s s' l /\
      veq (view s') (upd_basic a (fun b => with_balance (b_balance b - v) b) (view s))
  else exists s', subBalance a v s = (Throw "Not Enough Cash", s') /\ quiet s s'.
Proof.
  intros Hs Hv. unfold subBalance. destruct (Z.eqb_spec v 0) as [->|Hne]; simpl.
  { exists s, []. split; [done|]. split; [by apply quiet_changes, quiet_refl|].
    split; intros; simpl; [|done]. case_decide; [|done]. destruct (here s a0) as [x|]; [|done].
    simpl. unfold with_balance. simpl. by rewrite Z.sub_0_r. }
  destruct (account_spec a s Hs) as (s1 & E1 & Hq & Hin). pose proof (q_ok _ _ Hq) as Hs1.
  rewrite (SE_bind_ok _ _ _ _ _ E1). unfold view_balance. rewrite <- (proj1 (q_view _ _ Hq)).
  rewrite view_here. unfold in_range in Hv. destruct (here s1 a) as [x|] eqn:Eh; simpl.
  2:{ replace (v <=? 0) with false by lia. exists s1. by split. }
  pose proof (here_ok s1 a x Hs1 Eh) as Hx. pose proof (ao_balance _ _ Hx) as Hb. unfold in_range in Hb.
  destruct (Z.leb_spec v (m_balance x)).
  2:{ replace (_ <? _) with true by lia. exists s1. by split. }
  replace (_ <? _) with false by lia.
  destruct (addBalance_spec a (u256 (0 - v)) s1 Hs1 (wrap_range 256 _ ltac:(lia))) as (s2 & l & E2 & Hch & Hview).
  { simpl. rewrite Eh. done. }
  exists s2, (l ++ []). split; [done|]. split; [eapply changes_trans; [by apply quiet_changes|done]|].
  rewrite Hview, <- (q_view _ _ Hq). unfold view_addBalance. simpl. rewrite Eh. simpl.
  split; intros; simpl; [|done]. case_decide; [|done]. subst. rewrite Eh. simpl. f_equal. unfold with_balance.
  simpl. f_equal. unfold wrap. rewrite Zplus_mod_idemp_r. replace (m_balance x + (0 - v)) with (m_balance x - v) by lia.
  apply Z.mod_small. lia.
Qed.

Lemma cache_ref_hit a x s : m_cache s !! a = Some x -> cache_ref a s = (Ok x, s).
Proof. intros H. unfold cache_ref, gets, mbind, SE_bind. by rewrite H. Qed.

Lemma slot_of_range d x k : account_ok d x -> in_range 256 (slot_of d x k).
Proof.
  intros Hx. unfold slot_of. destruct (m_storageOverlay x !! k) as [v|] eqn:E.
  - by apply (ao_overlay _ _ Hx k).
  - destruct (ao_storage _ _ Hx) as (_ & _ & _ & m & Hm & Hall). unfold base_slot. rewrite Hm.
    destruct (m !! key32 k) as [p|] eqn:Ep; [|unfold in_range; lia].
    destruct (slot_ok_reads p (Hall _ _ Ep)) as (_ & Hn & Ht & Hr). exact Hr.
Qed.

Lemma setStorage_spec a k v s : state_ok s -> is_Some (vb (view s) a) -> in_range 256 k -> in_range 256 v ->
  exists s' l, setStorage a k v s = (Ok tt, s') /\ changes s s' l /\
    veq (view s') (upd_slot a k v (view s)).
Proof.
  intros Hs Ha Hk Hv. destruct (storage_spec a k s Hs Hk) as (s1 & E1 & Hq & Hin). pose proof (q_ok _ _ Hq) as Hs1.
  destruct (Hin Ha) as [x Hx]. destruct (so_cache _ Hs1 a x Hx) as [Hok _].
  assert (here s1 a = Some x) as Hh by (unfold here; by rewrite Hx).
  unfold setStorage. rewrite (SE_bind_ok _ _ _ _ _ E1), <- (proj2 (q_view _ _ Hq)).
  set (old := vs (view s1) a k).
  assert (forall j, slot_of (m_db s1) (Account_setStorage k v x) j
    = if decide (j = k) then v else slot_of (m_db s1) x j) as Hslot.
  { intros j. unfold slot_of. simpl. case_decide; [subst; by rewrite lookup_insert_eq|by rewrite lookup_insert_ne]. }
  destruct (replace_changes s1 a x (Account_setStorage k v x) (Storage a k old) Hs1 Hx) as [Hch Hview];
    try exact I; try reflexivity.
  { split; try apply Hok. apply map_Forall_insert_2; [done|apply Hok]. }
  { simpl. unfold old. simpl. rewrite Hh. split; [done|by apply slot_of_range]. }
  { split; intros; simpl; [case_decide; subst; rewrite ?Hh; reflexivity|].
    case_decide as E; [destruct E as [-> ->]; done|]. case_decide as E2; [subst|done].
    rewrite Hh, Hslot. case_decide; [by destruct E|done]. }
  eexists _, _. split; [|split; [eapply changes_trans; [by apply quiet_changes|exact Hch]|]].
  - unfold cache_ref, log, put_account, modify, gets, mbind, SE_bind. simpl. rewrite Hx. reflexivity.
  - rewrite <- (q_view _ _ Hq). etrans; [exact Hview|]. split; intros; simpl.
    + case_decide; subst; rewrite ?Hh; reflexivity.
    + destruct (decide (a0 = a)) as [->|Hn]; [rewrite Hslot, Hh|].
      * destruct (decide (k0 = k)) as [->|]; [by rewrite decide_True|]. rewrite decide_False; [done|by intros []].
      * rewrite decide_False; [done|by intros []].
Qed.

(** The code an account shows once [c] was set. *)
Definition shown_code (c : bytes) : bytes := if FixedHash.eqb (sha3 c) EmptySHA3 then [] else c.

Lemma code_of_new d c x : code_of d (Account_setNewCode c x) = shown_code c.
Proof.
  unfold code_of, shown_code. simpl. destruct (FixedHash.eqb _ _) eqn:E; [done|].
  destruct c; [|reflexivity]. rewrite (proj2 (eqb_spec _ _) EmptySHA3_eq) in E. discriminate E.
Qed.

Lemma account_ok_new d c x : account_ok d x -> bytes_ok c -> size c < 2 ^ 62 ->
  account_ok d (Account_setNewCode c x).
Proof.
  intros Hx Hc Hs. split; try apply Hx; rewrite ?code_of_new; simpl.
  - split; [apply length_sha3|apply sha3_bytes_ok].
  - intros Hne. unfold shown_code. destruct (FixedHash.eqb _ _) eqn:E; [|reflexivity].
    destruct Hne. apply eqb_spec. exact E.
  - unfold shown_code. case_match; [split; [constructor|simpl; lia]|split; [exact Hc|exact Hs]].
  - exact Hs.
  - reflexivity.
  - intros [=].
Qed.

(** Setting the code of an account that has none and was changed before. *)
Lemma setNewCode_spec a c x s : state_ok s -> m_cache s !! a = Some x -> isDirty x = true ->
  m_codeHash x = EmptySHA3 -> bytes_ok c -> size c < 2 ^ 62 ->
  exists s' l, setNewCode a c s = (Ok tt, s') /\ changes s s' l /\
    veq (view s') (upd_basic a (with_code (sha3 c) (shown_code c)) (view s)).
Proof.
  intros Hs Hx Hd He Hc Hsz. destruct (so_cache _ Hs a x Hx) as [Hok _].
  assert (here s a = Some x) as Hh by (unfold here; by rewrite Hx).
  assert (basic_of (m_db s) (Account_setNewCode c x)
    = with_code (sha3 c) (shown_code c) (basic_of (m_db s) x)) as Ebas.
  { unfold basic_of. by rewrite code_of_new. }
  destruct (replace_changes s a x (Account_setNewCode c x) (NewCode a) Hs Hx) as [Hch Hview];
    try exact I; try reflexivity; [by apply account_ok_new|exact Hd| |].
  { rewrite Ebas. split; intros; simpl; case_decide; subst; rewrite ?Hh; try reflexivity.
    simpl. unfold with_code, basic_of. simpl. rewrite code_of_empty, He by done. reflexivity. }
  eexists _, _. split; [|split; [exact Hch|]].
  - unfold setNewCode. rewrite (SE_bind_ok _ _ _ _ _ (cache_ref_hit a x s Hx)). reflexivity.
  - etrans; [exact Hview|]. rewrite Ebas. split; intros; simpl; case_decide; subst; rewrite ?Hh; reflexivity.
Qed.

(** ** Undoing *)

(** Restoring the log below the undone change. *)
Lemma undo_shape s c L t x : m_changeLog s = c :: L -> m_cache s !! change_address c = Some x ->
  undo c s = (Ok tt, t) -> m_changeLog t = c :: L.
Proof.
  intros HL Hx Hu. unfold undo in Hu. rewrite (SE_bind_ok _ _ _ _ _ (cache_ref_hit _ _ _ Hx)) in Hu.
  destruct c; injection Hu as <-; exact HL.
Qed.

Lemma state_ok_log s x L ne c : state_ok s -> m_changeLog s = c :: L ->
  account_ok (m_db s) x -> (isDirty x = false -> opens c = true /\
    exists y, backing s (change_address c) = Some y /\ clean (m_db s) y x) ->
  state_ok (set_m_changeLog L (set_m_unchangedCacheEntries ne
    (set_m_cache (<[change_address c := x]> (m_cache s)) s))).
Proof.
  intros Hs HL Hx Hcl. split; simpl; try apply Hs.
  - intros b y. destruct (decide (change_address c = b)) as [<-|].
    + rewrite lookup_insert_eq. intros [= <-]. split; [done|]. intros Hd. by apply Hcl.
    + rewrite lookup_insert_ne by done. apply (so_cache _ Hs).
  - intros b. destruct (so_log _ Hs c) as (x0 & Hx0 & _); [rewrite HL; by left|].
    exact (missing_insert s _ x b Hs (cached_present s _ x0 Hs Hx0)).
  - intros c' Hc'. pose proof (so_order _ Hs) as Ho. rewrite HL in Ho. destruct Ho as [Ho _].
    destruct (decide (change_address c = change_address c')) as [E|].
    + rewrite <- E, lookup_insert_eq. exists x. split; [done|].
      destruct (isDirty x) eqn:Ed; [done|]. destruct (Hcl eq_refl) as [Hop _].
      specialize (Ho Hop). rewrite List.Forall_forall in Ho. by apply list_elem_of_In, Ho in Hc'.
    + rewrite lookup_insert_ne by done. apply (so_log _ Hs). rewrite HL. by right.
  - pose proof (so_order _ Hs) as Ho. rewrite HL in Ho. apply Ho.
Qed.

(** What is shown once the entry at an address was replaced. *)
Lemma put_view s a x n L :
  veq (view (set_m_changeLog L (set_m_unchangedCacheEntries n (set_m_cache (<[a := x]> (m_cache s)) s))))
      (set_acct a (Some (basic_of (m_db s) x)) (slot_of (m_db s) x) (view s)).
Proof.
  assert (forall b, here (set_m_changeLog L (set_m_unchangedCacheEntries n
    (set_m_cache (<[a := x]> (m_cache s)) s))) b = if decide (b = a) then Some x else here s b) as Hh.
  { intros b. unfold here. simpl. case_decide; [subst; by rewrite lookup_insert_eq|by rewrite lookup_insert_ne]. }
  split; intros; simpl; rewrite Hh; by case_decide.
Qed.

(** A touched account that shows what the tries hold is clean again. *)
Lemma untouch_clean s a x : state_ok s -> m_cache s !! a = Some x ->
  vb (view s) a = vb (base s) a -> (forall k, vs (view s) a k = vs (base s) a k) ->
  exists y, backing s a = Some y /\ clean (m_db s) y (untouch x).
Proof.
  intros Hs Hx Hb Hk. assert (here s a = Some x) as Hh by (unfold here; by rewrite Hx).
  simpl in Hb, Hk. rewrite Hh in Hb, Hk. destruct (backing s a) as [y|] eqn:Ey; [|done].
  exists y. split; [done|]. destruct (backing_ok s a y Hs Ey) as (_ & Hal & Hcc & Hov & _).
  injection Hb as Ha Hn Hbal Hr Hc Hco. split; simpl; try done; [congruence| |].
  - intros Hne Hh'. unfold code_of in Hco. rewrite Hcc, <- Hc in Hco. simpl in Hco.
    rewrite (proj2 (eqb_ne (m_codeHash x) EmptySHA3) Hh') in Hco. destruct (m_codeCache x); [done|]. simpl in Hco. congruence.
  - intros k v Hv. specialize (Hk k). unfold slot_of in Hk. rewrite Hv, Hov, lookup_empty, <- Hr in Hk. done.
Qed.

(** The state after undoing [c] on the account [x]. *)
Definition undone (c : Change) (x : Account) : option Account :=
  match c with
  | Storage _ key value => Some (Account_setStorage key value x)
  | Balance _ value => Some (Account_addBalance (u256 (0 - value)) x)
  | Nonce _ => Some (Account_setNonce (u256 (m_nonce x - 1)) x)
  | Create _ => None
  | NewCode _ => Some (resetCode x)
  | Touch _ => Some (untouch x)
  end.

Lemma undone_ok s c x x' : state_ok s -> m_cache s !! change_address c = Some x -> ok_undo (base s) c (view s) ->
  undone c x = Some x' ->
  account_ok (m_db s) x' /\
  veq (set_acct (change_address c) (Some (basic_of (m_db s) x')) (slot_of (m_db s) x') (view s))
      (undo_view c (view s)).
Proof.
  intros Hs Hx Hu. destruct (so_cache _ Hs _ x Hx) as [Hok _].
  assert (here s (change_address c) = Some x) as Hh by (unfold here; by rewrite Hx).
  destruct c; intros [= <-]; simpl in *.
  - split; [apply (account_ok_numbers (m_db s) x (m_nonce x)); [done|apply Hok|apply wrap_range; lia]|].
    split; intros; simpl; case_decide; subst; rewrite ?Hh; reflexivity.
  - split; [split; try apply Hok; apply map_Forall_insert_2; [done|apply Hok]|].
    split; intros; simpl; [case_decide; subst; rewrite ?Hh; reflexivity|]. unfold slot_of. simpl.
    destruct (decide (a = address)) as [->|]; [|by rewrite decide_False by (by intros [])].
    destruct (decide (k = key)) as [->|]; [by rewrite lookup_insert_eq, decide_True|].
    rewrite lookup_insert_ne, decide_False, Hh; [done|by intros []|done].
  - split; [apply (account_ok_numbers (m_db s) x _ (m_balance x)); [done|apply wrap_range; lia|apply Hok]|].
    split; intros; simpl; case_decide; subst; rewrite ?Hh; reflexivity.
  - assert (code_of (m_db s) (resetCode x) = []) as Hc by (apply code_of_empty; reflexivity).
    split; [split; try apply Hok|].
    + apply EmptySHA3_hash.
    + intros Hne. destruct Hne. reflexivity.
    + rewrite Hc. split; [constructor|simpl; lia].
    + simpl. lia.
    + intros [=].
    + intros _ Hne. destruct Hne. reflexivity.
    + split; intros; simpl; case_decide; subst; rewrite ?Hh; reflexivity.
  - split; [split; apply Hok|].
    split; intros; simpl; case_decide; subst; rewrite ?Hh; reflexivity.
Qed.

(** Undoing the newest change. *)
Lemma undo_create_ok s a L : state_ok s -> m_changeLog s = Create a :: L -> backing s a = None ->
  let t := set_m_changeLog L (set_m_cache (delete a (m_cache s)) s) in
  state_ok t /\ veq (view t) (set_acct a None (fun _ => 0) (view s)).
Proof.
  intros Hs HL Hb t. pose proof (so_order _ Hs) as Ho. rewrite HL in Ho. destruct Ho as [Ho Ho'].
  specialize (Ho eq_refl). split.
  - split; simpl; try apply Hs; [| | |done].
    + intros b x Hx. apply lookup_delete_Some in Hx as [_ Hx]. by apply (so_cache _ Hs).
    + intros b Hb'. destruct (so_missing _ Hs b Hb'). split; [done|]. apply lookup_delete_None. by right.
    + intros c Hc. rewrite List.Forall_forall in Ho. pose proof (Ho c (proj1 (list_elem_of_In _ _) Hc)) as Hne.
      simpl in Hne. rewrite lookup_delete_ne by congruence. apply (so_log _ Hs). rewrite HL. by right.
  - assert (forall b, here t b = if decide (b = a) then None else here s b) as Hh.
    { intros b. unfold here, t. simpl. case_decide; [subst; by rewrite lookup_delete_eq|].
      by rewrite lookup_delete_ne. }
    split; intros; simpl; rewrite Hh; by case_decide.
Qed.

Lemma undo_spec s c L : state_ok s -> m_changeLog s = c :: L -> ok_undo (base s) c (view s) ->
  exists t, (undo c;; modify (set_m_changeLog L)) s = (Ok tt, t) /\ state_ok t /\
    veq (view t) (undo_view c (view s)) /\ m_changeLog t = L /\ m_db t = m_db s /\
    m_state_root t = m_state_root s /\ m_accountStartNonce t = m_accountStartNonce s.
Proof.
  intros Hs HL Hu. destruct (so_log _ Hs c) as (x & Hx & Hd); [rewrite HL; by left|].
  destruct (undone c x) as [x'|] eqn:Ex.
  - destruct (undone_ok s c x x' Hs Hx Hu Ex) as [Hok' Hv].
    set (t n := set_m_changeLog L (set_m_unchangedCacheEntries n
      (set_m_cache (<[change_address c := x']> (m_cache s)) s))).
    assert (exists n, (undo c;; modify (set_m_changeLog L)) s = (Ok tt, t n)) as [n En].
    { unfold undo, mbind, SE_bind. rewrite (cache_ref_hit _ _ _ Hx).
      destruct c; try discriminate Ex; injection Ex as <-;
        [exists (m_unchangedCacheEntries s)..|eexists]; unfold t, put_account, modify; destruct s; reflexivity. }
    exists (t n). split; [exact En|]. split; [|split; [etrans; [apply put_view|exact Hv]|done]].
    apply state_ok_log; [done|done|done|]. intros Hc. destruct c; try discriminate Ex; injection Ex as <-;
      unfold isDirty in Hc, Hd; simpl in Hc; try congruence.
    split; [done|]. simpl in Hu. destruct Hu as [Hu1 Hu2]. by apply untouch_clean.
  - destruct c; try discriminate Ex. simpl in Hu.
    destruct (undo_create_ok s address L Hs HL) as [Hok Hv].
    { destruct (backing s address); [discriminate Hu|done]. }
    eexists. split; [|split; [exact Hok|split; [exact Hv|done]]].
    unfold undo, mbind, SE_bind. rewrite (cache_ref_hit _ _ _ Hx). reflexivity.
Qed.

(** ** Rolling back *)

Lemma undone_base s t : m_db t = m_db s -> m_state_root t = m_state_root s -> base t = base s.
Proof. intros Hd Hr. unfold base, backing. by rewrite Hd, Hr. Qed.

Lemma rollback_loop_spec l L v0 : forall fuel s, state_ok s -> m_changeLog s = l ++ L ->
  reverts (base s) l (view s) v0 -> (length l <= fuel)%nat ->
  exists t, rollback_loop fuel (size L) s = (Ok tt, t) /\ state_ok t /\ veq (view t) v0 /\
    m_changeLog t = L /\ m_db t = m_db s /\ m_state_root t = m_state_root s /\
    m_accountStartNonce t = m_accountStartNonce s.
Proof.
  induction l as [|c l IH]; intros fuel s Hs HL Hr Hf.
  - exists s. split; [|done]. assert ((size L =? size (m_changeLog s)) = true) as E by (rewrite HL; apply Z.eqb_refl).
    destruct fuel; simpl; unfold gets, mbind, SE_bind; by rewrite E.
  - destruct fuel as [|fuel]; [simpl in Hf; lia|]. destruct Hr as [Hu Hr].
    destruct (undo_spec s c (l ++ L) Hs HL Hu) as (t & Et & Ht & Hv & HLt & Hd & Hro & Hst).
    destruct (IH fuel t Ht HLt) as (t' & Et' & H).
    { rewrite (undone_base s t) by done. by rewrite Hv. } { simpl in Hf. lia. }
    exists t'. rewrite <- Hd, <- Hro, <- Hst. split; [|exact H].
    assert ((size L =? size (m_changeLog s)) = false) as E.
    { rewrite HL. apply Z.eqb_neq. rewrite length_app. cbn [length]. lia. }
    cbn [rollback_loop]. rewrite (SE_bind_ok _ _ s (size (m_changeLog s)) s), E by reflexivity.
    rewrite (SE_bind_ok _ _ s (m_changeLog s) s) by reflexivity. rewrite HL. cbn [app].
    unfold mbind, SE_bind in Et |- *. destruct (undo c s) as [[] s1]; try discriminate Et.
    unfold modify in *. injection Et as ->. exact Et'.
Qed.

(** Rolling back to a savepoint taken [l] changes ago. *)
Lemma rollback_changes s s' l : changes s s' l ->
  exists t, rollback (size (m_changeLog s)) s' = (Ok tt, t) /\ state_ok t /\
    veq (view t) (view s) /\ m_changeLog t = m_changeLog s /\ m_db t = m_db s' /\
    m_state_root t = m_state_root s' /\ m_accountStartNonce t = m_accountStartNonce s'.
Proof.
  intros H. unfold rollback, gets, mbind, SE_bind.
  apply (rollback_loop_spec l (m_changeLog s) (view s)); try apply H.
  - rewrite (ch_base _ _ _ H). apply H.
  - rewrite (ch_log _ _ _ H), length_app. lia.
Qed.
End Ops.
