(* ===== verification/ScStateRun.v ===== *)
(** * Sequences of state operations

    Transfers, [kill] and [codeSize]; the operations as steps of a transition
    system, in which [rollback] undoes everything done since the savepoint; and
    what [setStorage] does at an address that is not in use. *)

From S2P Require Import Prelude ScFixedHash ScSha3 ScRlp ScRlpWrite ScRlpRead ScState ScStateView ScStateOps ScVersions.
From Stdlib Require Import ZifyBool.
Local Opaque EmptySHA3 EmptyTrie sha3.

Section Run.
Context {D : Type} `{TD : !TrieDB D} `{TL : !TrieLaws D}.
Implicit Types s : State D.

(** ** More operations *)

Lemma codeSize_spec a s : state_ok s ->
  exists n s', codeSize a s = (Ok n, s') /\ quiet s s' /\ 0 <= n < 2 ^ 62 /\
    (forall b, vb (view s) a = Some b -> b_alive b = true -> exists c, sha3 c = b_codeHash b /\ size c = n) /\
    (vb (view s) a = None -> n = 0).
Proof.
  intros Hs. destruct (account_spec a s Hs) as (s1 & E1 & Hq1 & _). pose proof (q_ok _ _ Hq1) as Hs1.
  unfold codeSize. rewrite (SE_bind_ok _ _ _ _ _ E1), <- (proj1 (q_view _ _ Hq1) a), view_here.
  destruct (here s1 a) as [x|] eqn:Ex; simpl.
  2:{ exists 0, s1. split; [done|]. split; [done|]. split; [lia|]. by split. }
  pose proof (here_ok s1 a x Hs1 Ex) as Hok. destruct (m_hasNewCode x) eqn:En.
  { exists (size (m_codeCache x)), s1. split; [done|]. split; [done|]. split; [pose proof (ao_cache_size _ _ Hok); lia|].
    split; [|done]. intros b [= <-] Hal. exists (m_codeCache x). split; [|done]. by apply (ao_new _ _ Hok). }
  rewrite (SE_bind_ok _ _ s1 (codeSizeCache s1) s1) by done.
  destruct (codeSizeCache s1 !! m_codeHash x) as [n|] eqn:Ec.
  { destruct (so_sizes _ Hs1 _ _ Ec) as (c & Hc & Hn & Hlt). exists n, s1.
    split; [done|]. split; [done|]. split; [lia|]. split; [|done]. intros b [= <-] _. by exists c. }
  destruct (code_spec a s1 Hs1) as (s2 & E2 & Hq2). rewrite (SE_bind_ok _ _ _ _ _ E2).
  assert (view_code (view s1) a = code_of (m_db s1) x) as -> by (unfold view_code; simpl; by rewrite Ex).
  set (c := code_of (m_db s1) x). assert (sha3 c = m_codeHash x) as Hc.
  { destruct (decide (m_codeHash x = EmptySHA3)) as [E|E]; [|by apply (ao_code _ _ Hok)].
    unfold c. rewrite code_of_empty, E by exact E. exact EmptySHA3_eq. }
  pose proof (proj2 (ao_code_size _ _ Hok)) as Hsz. fold c in Hsz.
  destruct (csc_store_quiet (m_codeHash x) (size c) s2 (q_ok _ _ Hq2)) as (s3 & E3 & Hq3 & _); [by exists c|].
  rewrite (SE_bind_ok _ _ _ _ _ E3). exists (size c), s3. split; [done|].
  split; [eapply quiet_trans; [done|]; by eapply quiet_trans|]. split; [lia|]. split; [|done].
  intros b [= <-] _. by exists c.
Qed.

(** The sender pays, then the receiver is credited; all or nothing. *)
Lemma transferBalance_spec f t v s : state_ok s -> in_range 256 v ->
  m_accountStartNonce s <> Invalid256 ->
  if (v =? 0) || (v <=? view_balance (view s) f) then
    exists s' l, transferBalance f t v s = (Ok tt, s') /\ changes s s' l /\
      veq (view s') (view_addBalance (m_accountStartNonce s) t v
        (upd_basic f (fun b => with_balance (b_balance b - v) b) (view s)))
  else exists s', transferBalance f t v s = (Throw "Not Enough Cash", s') /\ quiet s s'.
Proof.
  intros Hs Hv Hst. pose proof (subBalance_spec f v s Hs Hv) as H. unfold transferBalance.
  destruct (_ || _).
  - destruct H as (s1 & l1 & E1 & Hc1 & V1). rewrite (SE_bind_ok _ _ _ _ _ E1).
    destruct (addBalance_spec t v s1 (ch_ok _ _ _ Hc1) Hv) as (s2 & l2 & E2 & Hc2 & V2).
    { intros _. by rewrite (ch_start _ _ _ Hc1). }
    exists s2, (l2 ++ l1). split; [done|]. split; [by eapply changes_trans|].
    rewrite V2, (ch_start _ _ _ Hc1). unfold view_addBalance. rewrite (proj1 V1 t).
    destruct (vb _ t); by rewrite V1.
  - destruct H as (s1 & E1 & Hq1). exists s1. split; [|done]. unfold mbind, SE_bind. by rewrite E1.
Qed.

(** The balances after a transfer. *)
Definition debited (V : View) (f : bytes) (v : Z) (a : bytes) : Z :=
  if decide (a = f) then view_balance V f - v else view_balance V a.

Lemma balance_moved V n f t v a : in_range 256 v -> in_range 256 (view_balance V t) ->
  (vb V f = None -> v = 0) ->
  view_balance (view_addBalance n t v (upd_basic f (fun b => with_balance (b_balance b - v) b) V)) a
  = if decide (a = t) then u256 (debited V f v a + v) else debited V f v a.
Proof.
  intros Hv Hr Hf. pose proof (wrap_small 256 v Hv) as Hw.
  assert (forall a, view_balance (upd_basic f (fun b => with_balance (b_balance b - v) b) V) a = debited V f v a) as Hd.
  { intros b. unfold debited, view_balance. simpl. case_decide; [subst|done].
    destruct (vb V f); [done|]. simpl. rewrite Hf; done. }
  unfold view_addBalance. set (V' := upd_basic _ _ V) in *. clearbody V'. rewrite <- Hd. unfold view_balance.
  destruct (vb V' t) as [b|] eqn:Et; simpl; case_decide; simplify_eq; rewrite ?Et; simpl; rewrite ?Hw; done.
Qed.

(** [kill] empties the account, without a trace in the change log. *)
Lemma dead_shows d x : basic_of d (Account_kill x) = mkBasic false 0 0 EmptyTrie EmptySHA3 [] /\
  forall k, slot_of d (Account_kill x) k = 0.
Proof.
  split; [unfold basic_of; rewrite code_of_empty; reflexivity|].
  intros k. unfold slot_of. simpl. rewrite lookup_empty. apply base_slot_empty.
Qed.

Lemma dead_ok d x : account_ok d x -> account_ok d (Account_kill x).
Proof.
  intros Hx. split; simpl.
  - unfold in_range. lia.
  - unfold in_range. lia.
  - apply storage_ok_empty.
  - apply EmptySHA3_hash.
  - intros Hne. destruct Hne. reflexivity.
  - rewrite code_of_empty by reflexivity. split; [constructor|simpl; lia].
  - apply Hx.
  - intros _ [=].
  - intros _ Hne. destruct Hne. reflexivity.
  - apply map_Forall_empty.
Qed.

Lemma kill_spec a s : state_ok s ->
  exists s', State_kill a s = (Ok tt, s') /\ state_ok s' /\ m_changeLog s' = m_changeLog s /\
    m_accountStartNonce s' = m_accountStartNonce s /\
    veq (view s') (if view_inUse (view s) a
      then set_acct a (Some (mkBasic false 0 0 EmptyTrie EmptySHA3 [])) (fun _ => 0) (view s) else view s).
Proof.
  intros Hs. destruct (account_spec a s Hs) as (s1 & E1 & Hq1 & Hin). pose proof (q_ok _ _ Hq1) as Hs1.
  unfold State_kill. rewrite (SE_bind_ok _ _ _ _ _ E1). unfold view_inUse.
  rewrite <- (proj1 (q_view _ _ Hq1) a), view_here. destruct (here s1 a) as [x|] eqn:Ex; simpl.
  2:{ exists s1. split; [done|]. split; [done|]. split; [apply Hq1|]. split; [apply Hq1|]. apply Hq1. }
  pose proof (here_ok s1 a x Hs1 Ex) as Hok.
  destruct (put_log_ok s1 a (Account_kill x) (m_nonExistingAccountsCache s1) []) as [Hok' Hv].
  { exact Hs1. } { by apply dead_ok. } { reflexivity. } { reflexivity. }
  { by eapply cached_present, Hin. } { constructor. } { apply Hs1. }
  assert (put_log s1 a (Account_kill x) (m_nonExistingAccountsCache s1) []
    = set_m_cache (<[a := Account_kill x]> (m_cache s1)) s1) as Ep by (by destruct s1).
  rewrite Ep in *. eexists. split; [reflexivity|]. split; [exact Hok'|].
  split; [apply Hq1|]. split; [apply Hq1|]. rewrite Hv. destruct (dead_shows (m_db s1) x) as [Hb Hk].
  rewrite Hb. split; intros; simpl; case_decide;
    [reflexivity|apply (q_view _ _ Hq1)|apply Hk|apply (q_view _ _ Hq1)].
Qed.

(** A state without accounts. *)
Lemma empty_state_ok (d : D) n rnd : in_range 256 n ->
  state_ok (mkState d EmptyTrie ∅ [] ∅ ∅ n [] ∅ rnd).
Proof.
  intros Hn. split; simpl.
  - exists ∅. split; [apply tries_empty|apply map_Forall_empty].
  - intros a x. by rewrite lookup_empty.
  - intros a Ha. by apply elem_of_empty in Ha.
  - intros c Hc. by apply elem_of_nil in Hc.
  - done.
  - done.
  - apply map_Forall_empty.
Qed.

Lemma empty_view (d : D) n rnd a : vb (view (mkState d EmptyTrie ∅ [] ∅ ∅ n [] ∅ rnd)) a = None.
Proof. simpl. unfold here, backing. simpl. by rewrite lookup_empty, tries_empty, lookup_empty. Qed.

(** Undoing one write of storage. *)
Lemma rollback_write a k o x L s : m_changeLog s = Storage a k o :: L -> m_cache s !! a = Some x ->
  rollback (size L) s = (Ok tt, set_m_changeLog L (set_m_cache (<[a := Account_setStorage k o x]> (m_cache s)) s)).
Proof.
  intros HL Hx. unfold rollback. rewrite (SE_bind_ok _ _ s (length (m_changeLog s)) s) by done. rewrite HL.
  cbn [rollback_loop length]. rewrite (SE_bind_ok _ _ s (size (m_changeLog s)) s) by done. rewrite HL.
  replace (_ =? _) with false by (cbn [length]; lia).
  rewrite (SE_bind_ok _ _ s (m_changeLog s) s) by done. rewrite HL.
  unfold undo. cbn [change_address].
  erewrite (SE_bind_ok _ _ s tt); [|rewrite (SE_bind_ok _ _ _ _ _ (cache_ref_hit a x s Hx)); reflexivity].
  set (t := set_m_changeLog L _). rewrite (SE_bind_ok _ _ _ tt t) by reflexivity.
  assert (size (m_changeLog t) = size L) as Ht by done.
  destruct (length L) eqn:En; cbn [rollback_loop]; rewrite (SE_bind_ok _ _ t (size (m_changeLog t)) t) by done;
    by rewrite Ht, ?En, Z.eqb_refl.
Qed.

(** ** The transition system *)

Inductive Op :=
| OpAddBalance (a : bytes) (v : Z)
| OpSubBalance (a : bytes) (v : Z)
| OpTransferBalance (f t : bytes) (v : Z)
| OpIncNonce (a : bytes)
| OpCreateContract (a : bytes)
| OpSetStorage (a : bytes) (k v : Z)
| OpSetNewCode (a c : bytes)
| OpBalance (a : bytes)
| OpStorage (a : bytes) (k : Z)
| OpCode (a : bytes)
| OpCodeSize (a : bytes)
| OpCodeHash (a : bytes)
| OpGetNonce (a : bytes)
| OpAddressInUse (a : bytes)
| OpAccountNonemptyAndExisting (a : bytes)
| OpAddressHasCode (a : bytes).

Definition run_op (o : Op) : SE (State D) unit :=
  match o with
  | OpAddBalance a v => addBalance a v
  | OpSubBalance a v => subBalance a v
  | OpTransferBalance f t v => transferBalance f t v
  | OpIncNonce a => incNonce a
  | OpCreateContract a => createContract a
  | OpSetStorage a k v => setStorage a k v
  | OpSetNewCode a c => setNewCode a c
  | OpBalance a => _ ← balance a; mret tt
  | OpStorage a k => _ ← storage a k; mret tt
  | OpCode a => _ ← code a; mret tt
  | OpCodeSize a => _ ← codeSize a; mret tt
  | OpCodeHash a => _ ← codeHash a; mret tt
  | OpGetNonce a => _ ← getNonce a; mret tt
  | OpAddressInUse a => _ ← addressInUse a; mret tt
  | OpAccountNonemptyAndExisting a => _ ← accountNonemptyAndExisting a; mret tt
  | OpAddressHasCode a => _ ← addressHasCode a; mret tt
  end.

(** When a caller may use the operation: 256-bit amounts and keys, contracts are created
    at unused addresses, storage is written where there is an account, and code
    is set on an account that was changed before and has none. *)
Definition allowed (o : Op) s : Prop :=
  match o with
  | OpAddBalance _ v | OpSubBalance _ v | OpTransferBalance _ _ v => in_range 256 v
  | OpCreateContract a => vb (view s) a = None
  | OpSetStorage a k v => is_Some (vb (view s) a) /\ in_range 256 k /\ in_range 256 v
  | OpStorage _ k => in_range 256 k
  | OpSetNewCode a c => bytes_ok c /\ size c < 2 ^ 62 /\
      exists x, m_cache s !! a = Some x /\ isDirty x = true /\ m_codeHash x = EmptySHA3
  | _ => True
  end.

(** One operation, whether it returns or throws. *)
Inductive step s : State D -> Prop :=
| step_op o s' r : allowed o s -> run_op o s = (r, s') -> step s s'.

Lemma quiet_run {A} (m : SE (State D) A) (v : A) s s' : state_ok s -> m s = (Ok v, s') -> quiet s s' ->
  exists (r : outcome unit) t l, (_ ← m; mret tt) s = (r, t) /\ changes s t l /\
    (r = Ok tt \/ r = Throw "Not Enough Cash").
Proof.
  intros Hs E Hq. exists (Ok tt), s', []. split; [by rewrite (SE_bind_ok _ _ _ _ _ E)|].
  split; [by apply quiet_changes|by left].
Qed.

Lemma getNonce_spec a s : state_ok s -> exists n s', getNonce a s = (Ok n, s') /\ quiet s s'.
Proof.
  intros Hs. destruct (account_spec a s Hs) as (s' & E & Hq & _). unfold getNonce.
  rewrite (SE_bind_ok _ _ _ _ _ E). eexists _, s'. split; [reflexivity|exact Hq].
Qed.
Lemma accountNonempty_spec a s : state_ok s ->
  exists b s', accountNonemptyAndExisting a s = (Ok b, s') /\ quiet s s'.
Proof.
  intros Hs. destruct (account_spec a s Hs) as (s' & E & Hq & _). unfold accountNonemptyAndExisting.
  rewrite (SE_bind_ok _ _ _ _ _ E). eexists _, s'. split; [reflexivity|exact Hq].
Qed.

(** Every operation of [Op] keeps the invariant and logs what undoes it. *)
Lemma run_op_changes o s : state_ok s -> m_accountStartNonce s <> Invalid256 -> allowed o s ->
  exists r s' l, run_op o s = (r, s') /\ changes s s' l /\ (r = Ok tt \/ r = Throw "Not Enough Cash").
Proof.
  intros Hs Hst. destruct o; simpl.
  - intros Hv. destruct (addBalance_spec a v s Hs Hv) as (s' & l & E & Hc & _); [done|]. eauto 8.
  - intros Hv. pose proof (subBalance_spec a v s Hs Hv) as H. destruct (_ || _).
    + destruct H as (s' & l & E & Hc & _). eauto 8.
    + destruct H as (s' & E & Hq). eexists _, _, _. split; [exact E|]. split; [by apply quiet_changes|by right].
  - intros Hv. pose proof (transferBalance_spec f t v s Hs Hv Hst) as H. destruct (_ || _).
    + destruct H as (s' & l & E & Hc & _). eauto 8.
    + destruct H as (s' & E & Hq). eexists _, _, _. split; [exact E|]. split; [by apply quiet_changes|by right].
  - intros _. destruct (incNonce_spec a s Hs) as (s' & l & E & Hc & _); [done|]. eauto 8.
  - intros Ha. destruct (createContract_spec a s Hs Ha Hst) as (s' & l & E & Hc & _). eauto 8.
  - intros (Ha & Hk & Hv). destruct (setStorage_spec a k v s Hs Ha Hk Hv) as (s' & l & E & Hc & _). eauto 8.
  - intros (Hb & Hz & x & Hx & Hd & Hh).
    destruct (setNewCode_spec a c x s Hs Hx Hd Hh Hb Hz) as (s' & l & E & Hc & _). eauto 8.
  - intros _. destruct (balance_spec a s Hs) as (s' & E & Hq). by eapply quiet_run.
  - intros Hk. destruct (storage_spec a k s Hs Hk) as (s' & E & Hq & _). by eapply quiet_run.
  - intros _. destruct (code_spec a s Hs) as (s' & E & Hq). by eapply quiet_run.
  - intros _. destruct (codeSize_spec a s Hs) as (n & s' & E & Hq & _). by eapply quiet_run.
  - intros _. destruct (codeHash_spec a s Hs) as (s' & E & Hq). by eapply quiet_run.
  - intros _. destruct (getNonce_spec a s Hs) as (n & s' & E & Hq). by eapply quiet_run.
  - intros _. destruct (addressInUse_spec a s Hs) as (s' & E & Hq). by eapply quiet_run.
  - intros _. destruct (accountNonempty_spec a s Hs) as (b & s' & E & Hq). by eapply quiet_run.
  - intros _. destruct (addressHasCode_spec a s Hs) as (s' & E & Hq). by eapply quiet_run.
Qed.

Lemma steps_changes s s' : state_ok s -> m_accountStartNonce s <> Invalid256 -> rtc step s s' ->
  exists l, changes s s' l.
Proof.
  intros Hs Hst H. revert Hs Hst. induction H as [s|s1 s2 s3 [o s2' r Ha E] _ IH]; intros Hs Hst.
  - exists []. by apply quiet_changes, quiet_refl.
  - destruct (run_op_changes o s1 Hs Hst Ha) as (r' & s0 & l & E' & Hc & _).
    rewrite E in E'. injection E' as <- <-. destruct IH as [l' Hc'].
    + apply Hc.
    + by rewrite (ch_start _ _ _ Hc).
    + exists (l' ++ l). by eapply changes_trans.
Qed.
End Run.

(** ** Concrete states *)

(** An empty state over versioned tries, and two accounts of it. *)
Definition sample_state : State Versions.db :=
  mkState Versions.empty EmptyTrie ∅ [] ∅ ∅ 0 [] ∅ (fun _ => 0).
Definition alice : bytes := FixedHash.of_arith 20 1.
Definition bob : bytes := FixedHash.of_arith 20 2.

Lemma sample_state_ok : state_ok sample_state.
Proof. apply empty_state_ok. unfold in_range. lia. Qed.

(** Alice with 10, after one operation. *)
Definition funded_state : State Versions.db := snd (addBalance alice 10 sample_state).

(** ** Theorems *)

(** C3: rolling back to a savepoint restores the accounts.  After it any sequence of
    the operations of [Op] may have run (credits, debits, transfers, nonce
    increments, creations of contracts, writes of storage and of code, and the
    queries of balance, storage, code, code size, code hash, nonce and existence),
    whether they returned or threw, each used as [allowed] says: 256-bit amounts
    and keys, contracts created at unused addresses, storage written only where
    there is an account, code set only on a changed account that has none.  Then
    [rollback] returns, every account has the nonce, balance, code, code hash and
    storage it had, the change log is the one of the savepoint, and the invariant
    holds.  The account start nonce must be set.  [kill], [commit] and
    [setRoot] are not among the operations, and storage written at an unused
    address is excluded because it does survive a rollback. *)
Theorem rollback_restores {D} `{TD : !TrieDB D} `{TL : !TrieLaws D} (s s' : State D) :
  state_ok s -> m_accountStartNonce s <> Invalid256 -> rtc step s s' ->
  exists n t, savepoint s = (Ok n, s) /\ rollback n s' = (Ok tt, t) /\
    veq (view t) (view s) /\ m_changeLog t = m_changeLog s /\ state_ok t.
Proof.
  intros Hs Hst H. destruct (steps_changes s s' Hs Hst H) as [l Hc].
  destruct (rollback_changes s s' l Hc) as (t & E & Hok & Hv & HL & _).
  exists (size (m_changeLog s)), t. repeat (split; [done|]). done.
Qed.

Lemma rollback_restores_witness :
  exists n t, savepoint sample_state = (Ok n, sample_state) /\ rollback n funded_state = (Ok tt, t) /\
    veq (view t) (view sample_state) /\ m_changeLog t = m_changeLog sample_state /\ state_ok t.
Proof.
  apply (rollback_restores sample_state funded_state).
  - apply sample_state_ok.
  - simpl. unfold Invalid256. lia.
  - eapply rtc_l; [|apply rtc_refl].
    apply (step_op sample_state (OpAddBalance alice 10) funded_state (fst (addBalance alice 10 sample_state))).
    + simpl. unfold in_range. lia.
    + simpl. unfold funded_state. apply surjective_pairing.
Defined.

(** C11: the invariant of the account state (caches, tries, change log and code
    sizes agree) is kept by each operation of [Op] used as [allowed] says (the
    operations and conditions of C3, with the account start nonce set).  Such an
    operation returns or throws [Not Enough Cash]: no assertion fails, no
    undefined behaviour is reached, no other exception escapes, and the root of
    the trie is not changed.  Nothing is claimed of [kill], [commit],
    [setRoot] and of uses that [allowed] rules out. *)
Theorem operations_keep_invariant {D} `{TD : !TrieDB D} `{TL : !TrieLaws D} (o : Op) (s : State D) :
  state_ok s -> m_accountStartNonce s <> Invalid256 -> allowed o s ->
  (fst (run_op o s) = Ok tt \/ fst (run_op o s) = Throw "Not Enough Cash") /\
  state_ok (snd (run_op o s)) /\ m_state_root (snd (run_op o s)) = m_state_root s.
Proof.
  intros Hs Hst Ha. destruct (run_op_changes o s Hs Hst Ha) as (r & s' & l & E & Hc & Hr).
  rewrite E. simpl. split; [done|]. split; apply Hc.
Qed.

Lemma operations_keep_invariant_witness :
  (fst (run_op (OpSubBalance alice 3) sample_state) = Ok tt \/
   fst (run_op (OpSubBalance alice 3) sample_state) = Throw "Not Enough Cash") /\
  state_ok (snd (run_op (OpSubBalance alice 3) sample_state)) /\
  m_state_root (snd (run_op (OpSubBalance alice 3) sample_state)) = m_state_root sample_state.
Proof.
  apply (operations_keep_invariant (OpSubBalance alice 3) sample_state).
  - apply sample_state_ok.
  - simpl. unfold Invalid256. lia.
  - simpl. unfold in_range. lia.
Defined.

(** [transferBalance] moves exactly [v] from one account to another when the
    sender has it: the sender's balance drops by [v], the receiver's grows by [v]
    modulo [2^256], no other balance changes, and a transfer to oneself changes
    nothing; otherwise it throws [Not Enough Cash] and no balance changes. *)
Theorem transfer_moves_balance {D} `{TD : !TrieDB D} `{TL : !TrieLaws D} (f t : bytes) (v : Z) (s : State D) :
  state_ok s -> m_accountStartNonce s <> Invalid256 -> in_range 256 v ->
  let bal a s := view_balance (view s) a in
  let '(r, s') := transferBalance f t v s in
  state_ok s' /\
  if (v =? 0) || (v <=? bal f s) then
    r = Ok tt /\
    (f <> t -> bal f s' = bal f s - v /\ bal t s' = u256 (bal t s + v)) /\
    (f = t -> bal f s' = bal f s) /\
    (forall a, a <> f -> a <> t -> bal a s' = bal a s)
  else r = Throw "Not Enough Cash" /\ forall a, bal a s' = bal a s.
Proof.
  intros Hs Hst Hv bal. pose proof (transferBalance_spec f t v s Hs Hv Hst) as H.
  fold (bal f s) in H. destruct ((v =? 0) || (v <=? bal f s)) eqn:Ev.
  2:{ destruct H as (s' & -> & Hq). split; [apply Hq|]. split; [done|]. intros a. unfold bal, view_balance.
      by rewrite (proj1 (q_view _ _ Hq)). }
  destruct H as (s' & l & -> & Hc & V). split; [apply Hc|]. split; [done|].
  assert (forall a, bal a s' = view_balance (view_addBalance (m_accountStartNonce s) t v
    (upd_basic f (fun b => with_balance (b_balance b - v) b) (view s))) a) as Hb.
  { intros a. unfold bal, view_balance. by rewrite (proj1 V). }
  pose proof (wrap_small 256 v Hv) as Hw.
  assert (forall a, in_range 256 (bal a s)) as Hr.
  { intros a. unfold bal, view_balance. simpl. destruct (here s a) as [x|] eqn:E; [|simpl; unfold in_range; lia].
    apply (here_ok s a x Hs E). }
  assert (vb (view s) f = None -> v = 0) as Hf0.
  { intros E. unfold bal, view_balance in Ev. rewrite E in Ev. unfold in_range in Hv. lia. }
  assert (forall a, bal a s' = if decide (a = t) then u256 (debited (view s) f v a + v) else debited (view s) f v a)
    as Hb'.
  { intros a. rewrite Hb. apply balance_moved; [done|by apply Hr|done]. }
  unfold debited in Hb'. fold bal in Hb'. split; [|split].
  - intros Hne. by rewrite !Hb', decide_False, !decide_True, decide_False by congruence.
  - intros <-. rewrite Hb', !decide_True, Z.sub_add by done. by apply wrap_small, Hr.
  - intros a Haf Hat. by rewrite Hb', !decide_False by done.
Qed.

Lemma transfer_moves_balance_witness :
  let bal a s := view_balance (view s) a in
  let '(r, s') := transferBalance alice bob 3 sample_state in
  state_ok s' /\
  if (3 =? 0) || (3 <=? bal alice sample_state) then
    r = Ok tt /\
    (alice <> bob -> bal alice s' = bal alice sample_state - 3 /\
       bal bob s' = u256 (bal bob sample_state + 3)) /\
    (alice = bob -> bal alice s' = bal alice sample_state) /\
    (forall a, a <> alice -> a <> bob -> bal a s' = bal a sample_state)
  else r = Throw "Not Enough Cash" /\ forall a, bal a s' = bal a sample_state.
Proof.
  apply (transfer_moves_balance alice bob 3 sample_state).
  - apply sample_state_ok.
  - simpl. unfold Invalid256. lia.
  - unfold in_range. lia.
Defined.

(** A value written to a storage slot of an account is what is read back
    from it, and every other slot of every account reads as before. *)
Theorem setStorage_storage {D} `{TD : !TrieDB D} `{TL : !TrieLaws D} (a : bytes) (k v : Z) (s : State D) :
  state_ok s -> is_Some (vb (view s) a) -> in_range 256 k -> in_range 256 v ->
  let '(r, s') := setStorage a k v s in
  r = Ok tt /\ fst (storage a k s') = Ok v /\
  forall b j, in_range 256 j -> (b, j) <> (a, k) -> fst (storage b j s') = fst (storage b j s).
Proof.
  intros Hs Ha Hk Hv. destruct (setStorage_spec a k v s Hs Ha Hk Hv) as (s' & l & -> & Hc & V). split; [done|].
  assert (forall b j, in_range 256 j -> fst (storage b j s') = Ok (vs (upd_slot a k v (view s)) b j)) as Hr.
  { intros b j Hj. destruct (storage_spec b j s' (ch_ok _ _ _ Hc) Hj) as (t & -> & _). cbn [fst].
    by rewrite (proj2 V). }
  split.
  - rewrite Hr by done. simpl. by rewrite decide_True.
  - intros b j Hj Hne. rewrite Hr by done. destruct (storage_spec b j s Hs Hj) as (t & -> & _). cbn [upd_slot vs].
    rewrite decide_False; [done|]. intros [-> ->]. by apply Hne.
Qed.

Lemma funded_state_ok : state_ok funded_state /\ is_Some (vb (view funded_state) alice).
Proof.
  destruct (addBalance_spec alice 10 sample_state sample_state_ok) as (s' & l & E & Hc & V).
  - unfold in_range. lia.
  - intros _. simpl. unfold Invalid256. lia.
  - unfold funded_state. rewrite E. split; [apply Hc|]. rewrite (proj1 V).
    unfold view_addBalance.
    assert (vb (view sample_state) alice = None) as -> by apply empty_view.
    cbn [set_acct vb]. rewrite decide_True by done. eauto.
Qed.

Lemma setStorage_storage_witness :
  let '(r, s') := setStorage alice 7 99 funded_state in
  r = Ok tt /\ fst (storage alice 7 s') = Ok 99 /\
  forall b j, in_range 256 j -> (b, j) <> (alice, 7) -> fst (storage b j s') = fst (storage b j funded_state).
Proof.
  apply (setStorage_storage alice 7 99 funded_state).
  - apply funded_state_ok.
  - apply funded_state_ok.
  - unfold in_range. lia.
  - unfold in_range. lia.
Defined.

(** [setStorage] at an address that is not in use creates a cache entry that
    no change-log entry accounts for: after [rollback] to the savepoint before it
    the address is in use. *)
Theorem setStorage_unused_survives_rollback {D} `{TD : !TrieDB D} `{TL : !TrieLaws D}
  (a : bytes) (k v : Z) (s : State D) :
  state_ok s -> vb (view s) a = None ->
  fst (addressInUse a s) = Ok false /\
  exists t u, setStorage a k v s = (Ok tt, t) /\ rollback (size (m_changeLog s)) t = (Ok tt, u) /\
    fst (addressInUse a u) = Ok true.
Proof.
  intros Hs Ha. destruct (addressInUse_spec a s Hs) as (s0 & E0 & _). rewrite E0. unfold view_inUse. rewrite Ha.
  split; [done|]. destruct (account_spec a s Hs) as (s1 & E1 & Hq1 & Hin).
  rewrite <- (proj1 (q_view _ _ Hq1) a), view_here in Ha. destruct (here s1 a) eqn:Ex; [done|].
  assert (m_cache s1 !! a = None) as Hc by (unfold here in Ex; destruct (m_cache s1 !! a); done).
  eexists _, _. split; [|split].
  - unfold setStorage, storage, mbind, SE_bind. rewrite E1. unfold mret, SE_ret, log, modify, cache_ref, gets, mbind, SE_bind.
    simpl. rewrite Hc. unfold put_account, modify. reflexivity.
  - rewrite <- (q_log _ _ Hq1). eapply rollback_write; [reflexivity|]. apply lookup_insert_eq.
  - unfold addressInUse, account, gets, mbind, SE_bind. simpl. by rewrite lookup_insert_eq.
Qed.

Lemma setStorage_unused_survives_rollback_witness :
  fst (addressInUse bob sample_state) = Ok false /\
  exists t u, setStorage bob 1 2 sample_state = (Ok tt, t) /\
    rollback (size (m_changeLog sample_state)) t = (Ok tt, u) /\ fst (addressInUse bob u) = Ok true.
Proof.
  apply (setStorage_unused_survives_rollback bob 1 2 sample_state).
  - apply sample_state_ok.
  - apply (empty_view Versions.empty 0 (fun _ => 0) bob).
Defined.
