(* ===== verification/ScCommit.v ===== *)
(** * Committing the state

    [State::commit] writes the changed accounts to the tries and forgets the
    caches.  The theorems say that nothing is lost: the accounts that are alive
    keep their nonce, balance, code and storage, dead ones disappear, and the
    state can later be reopened at the root the commit left.  The tries enter
    through the interface [TrieLaws]. *)

From S2P Require Import Prelude ScFixedHash ScSha3 ScRlp ScRlpWrite ScRlpRead ScRlpFields ScState ScStateView ScVersions ScStateOps ScStateRun.
From Stdlib Require Import ZifyBool.
Local Opaque EmptySHA3 EmptyTrie sha3.

Section Commit.
Context {D : Type} `{TD : !TrieDB D} `{TL : !TrieLaws D}.
Implicit Types s : State D.

(** The database grew: nothing stored is lost and no code lost its place. *)
Definition grown (d d' : D) : Prop := extends d d' /\ forall c, free d c -> free d' c.
#[local] Instance grown_preorder : PreOrder grown.
Proof.
  split; [by split|]. intros d1 d2 d3 [H1 H1'] [H2 H2']. split; [by etrans|auto].
Qed.

(** ** Storage *)

Lemma key32_inj j k : in_range 256 j -> in_range 256 k -> key32 j = key32 k -> j = k.
Proof.
  unfold in_range, key32, FixedHash.of_arith. intros Hj Hk E.
  pose proof (be_value_toBigEndian 32 j) as Ej. rewrite E, be_value_toBigEndian in Ej.
  change (256 ^ Z.of_nat 32) with (2 ^ 256) in Ej. rewrite !Z.mod_small in Ej by lia. done.
Qed.

Lemma rlp_int v : in_range 256 v -> RLPStream.rlp RLPStream.append_int v = Ok (encode (IData (StreamProof.int_bytes v))).
Proof.
  intros Hv. unfold RLPStream.rlp. rewrite (SE_bind_ok _ _ _ tt (StreamProof.put (encode (IData (StreamProof.int_bytes v))) RLPStream.new)).
  - done.
  - by rewrite (writes_int v Hv).
Qed.

(** One slot of the overlay. *)
Definition store_slot (root : bytes) (k v : Z) : SE (State D) bytes :=
  if negb (v =? 0) then
    b ← lift_outcome (RLPStream.rlp RLPStream.append_int v);
    in_db (trie_insert root (FixedHash.of_arith 32 k) b)
  else in_db (trie_remove root (FixedHash.of_arith 32 k)).

Lemma store_slot_spec r k v n s : storage_ok (m_db s) r -> in_range 256 k -> in_range 256 v ->
  room (m_db s) (S n) ->
  exists r' d', store_slot r k v s = (Ok r', set_m_db d' s) /\ storage_ok d' r' /\ grown (m_db s) d' /\
    room d' n /\
    forall j, in_range 256 j -> base_slot d' r' j = if decide (j = k) then v else base_slot (m_db s) r j.
Proof.
  intros (Hl & Hb & Ht & m & Hm & Hall) Hk Hv Hr. unfold store_slot. destruct (Z.eqb_spec v 0) as [->|Hne]; cbn [negb].
  - destruct (trie_remove_ok _ _ _ (key32 k) _ Hm Hr) as (r' & d' & E & Hm' & Hh & Hr' & H1 & H2 & H3).
    destruct (Hh Hl Hb Ht) as (? & ? & ?). exists r', d'.
    split; [unfold in_db, zoom; change (FixedHash.of_arith 32 k) with (key32 k); by rewrite E|].
    split; [repeat (split; [done|]); exists (delete (key32 k) m); split; [done|]; by apply map_Forall_delete|].
    split; [done|]. split; [done|]. intros j Hj. unfold base_slot. rewrite Hm', Hm. case_decide as Ej.
    + subst. by rewrite lookup_delete_eq.
    + rewrite lookup_delete_ne; [done|]. intros E'. by apply Ej, key32_inj.
  - unfold in_range in Hv. set (b := encode (IData (StreamProof.int_bytes v))).
    assert (slot_ok b) as Hs by (exists v; split; [lia|done]).
    destruct (slot_ok_reads b Hs) as (Hsz & Hnew & Hint & _).
    destruct (trie_insert_ok _ _ _ (key32 k) b n Hm) as (r' & d' & E & Hm' & ? & ? & ? & Hr' & H1 & H2 & H3);
      [by intros ->|done|].
    exists r', d'. split; [|split; [|split; [done|split; [done|]]]].
    + rewrite (lift_bind_ok _ _ _ _ (rlp_int v Hv)). unfold in_db, zoom.
      change (FixedHash.of_arith 32 k) with (key32 k). fold b. by rewrite E.
    + repeat (split; [done|]). exists (<[key32 k := b]> m). split; [done|]. by apply map_Forall_insert_2.
    + intros j Hj. unfold base_slot. rewrite Hm', Hm. case_decide as Ej.
      * subst. rewrite lookup_insert_eq.
        pose proof (read_u256 v Hv) as Hint'. fold b in Hint'. rewrite Hint in Hint'. by injection Hint'.
      * rewrite lookup_insert_ne; [done|]. intros E'. by apply Ej, key32_inj.
Qed.

(** The whole overlay. *)
Lemma commit_storage_spec l : forall r n s, storage_ok (m_db s) r ->
  NoDup l.*1 -> Forall (fun kv => in_range 256 (fst kv) /\ in_range 256 (snd kv)) l ->
  room (m_db s) (length l + n) ->
  exists r' d', commit_storage r l s = (Ok r', set_m_db d' s) /\ storage_ok d' r' /\ grown (m_db s) d' /\
    room d' n /\
    forall j, in_range 256 j ->
      base_slot d' r' j = match list_to_map (M := gmap Z Z) l !! j with
                          | Some v => v
                          | None => base_slot (m_db s) r j
                          end.
Proof.
  induction l as [|[k v] l IH]; intros r n s Hr Hnd Hf Hroom.
  - exists r, (m_db s). split; [by destruct s|]. repeat (split; [done|]). done.
  - apply Forall_cons_iff in Hf as [[Hk Hv] Hf]. apply list.NoDup_cons in Hnd as [Hni Hnd].
    destruct (store_slot_spec r k v (length l + n) s Hr Hk Hv Hroom) as (r1 & d1 & E & Hr1 & Hg1 & Hroom1 & Hs1).
    destruct (IH r1 n (set_m_db d1 s) Hr1 Hnd Hf Hroom1) as (r2 & d2 & E2 & Hr2 & Hg2 & Hroom2 & Hs2).
    exists r2, d2. split; [|split; [done|split; [by etrans|split; [done|]]]].
    + change (commit_storage r ((k, v) :: l)) with (root ← store_slot r k v; commit_storage root l).
      by rewrite (SE_bind_ok _ _ _ _ _ E), E2.
    + intros j Hj. rewrite Hs2 by done. simpl list_to_map. simpl m_db. destruct (decide (k = j)) as [<-|Hne].
      * rewrite lookup_insert_eq, not_elem_of_list_to_map_1 by done. rewrite Hs1 by done. by rewrite decide_True.
      * rewrite lookup_insert_ne by done. destruct (_ !! j); [done|]. rewrite Hs1 by done. by rewrite decide_False by done.
Qed.

(** The storage root an account is written with. *)
Lemma commit_root_spec x n s : account_ok (m_db s) x ->
  room (m_db s) (base.size (m_storageOverlay x) + n) ->
  exists r d, commit_root x s = (Ok r, set_m_db d s) /\ storage_ok d r /\ grown (m_db s) d /\ room d n /\
    forall j, in_range 256 j -> base_slot d r j = slot_of (m_db s) x j.
Proof.
  intros Hx Hroom. pose proof (ao_storage _ _ Hx) as Hst. pose proof Hst as (Hl & Hb & Ht & m & Hm & _).
  unfold commit_root, baseRoot, assertion. rewrite Ht.
  rewrite (SE_bind_ok _ _ _ (m_storageRoot x) s) by done. case_decide as Ho.
  - exists (m_storageRoot x), (m_db s). split; [by destruct s|]. split; [done|]. split; [done|].
    rewrite Ho in Hroom. rewrite map_size_empty in Hroom. split; [done|].
    intros j Hj. unfold slot_of. by rewrite Ho, lookup_empty.
  - destruct (trie_open_ok _ _ _ Hm) as (d1 & Eo & Hr1 & H1 & H2 & H3).
    rewrite (SE_bind_ok _ _ _ tt (set_m_db d1 s)) by (unfold in_db, zoom; by rewrite Eo).
    assert (extends (m_db s) d1) as He1 by done.
    destruct (commit_storage_spec (map_to_list (m_storageOverlay x)) (m_storageRoot x) n (set_m_db d1 s))
      as (r & d & E & Hr & Hg & Hroom' & Hsl).
    { by eapply storage_ok_extends. }
    { apply NoDup_fst_map_to_list. }
    { apply List.Forall_forall. intros [k v] Hkv%list_elem_of_In%elem_of_map_to_list.
      by apply (ao_overlay _ _ Hx k v). }
    { simpl. rewrite length_map_to_list. auto. }
    rewrite (SE_bind_ok _ _ _ _ _ E). pose proof Hr as (_ & _ & Ht' & m' & Hm' & _).
    exists r, d. split; [|split; [done|split; [|split; [done|]]]].
    + unfold at_db. unfold mbind at 1, SE_bind at 1. simpl. by rewrite (trie_root_ok _ _ _ Hm'), Ht'.
    + etrans; [|exact Hg]. by split.
    + intros j Hj. rewrite Hsl, list_to_map_to_list by done. unfold slot_of.
      destruct (m_storageOverlay x !! j); [done|]. simpl. by apply base_slot_extends.
Qed.

(** ** Accounts *)

Definition account_item (n b : Z) (r h : bytes) : list item :=
  [IData (StreamProof.int_bytes n); IData (StreamProof.int_bytes b); IData r; IData h].

Section Record4.
Context (n b : Z) (r h : bytes).
Context (Hn : in_range 256 n) (Hb : in_range 256 b) (Hr : length r = 32%nat /\ bytes_ok r)
        (Hh : length h = 32%nat /\ bytes_ok h).

Lemma account_item_ok : list_ok (account_item n b r h).
Proof.
  destruct Hr, Hh. pose proof (int_bytes_short n Hn). pose proof (int_bytes_short b Hb).
  split; [repeat constructor; try apply int_bytes_ok; done|].
  pose proof (size_data (StreamProof.int_bytes n) ltac:(unfold rlp_limit; lia)).
  pose proof (size_data (StreamProof.int_bytes b) ltac:(unfold rlp_limit; lia)).
  pose proof (size_data r ltac:(unfold rlp_limit; lia)). pose proof (size_data h ltac:(unfold rlp_limit; lia)).
  assert (size (concat (map encode (account_item n b r h))) <= 200) as Hs.
  { unfold account_item. cbn [map concat]. rewrite !length_app. cbn [length]. lia. }
  pose proof (size_list (account_item n b r h) ltac:(unfold rlp_limit; lia)). unfold rlp_limit. lia.
Qed.

Lemma stream_account_spec x : m_nonce x = n -> m_balance x = b -> m_codeHash x = h ->
  stream_account x r = Ok (encode (IList (account_item n b r h))).
Proof.
  intros En Eb Eh. pose proof account_item_ok as [_ Hs]. destruct Hr, Hh.
  set (l := [(RLPStream.append_int n, IData (StreamProof.int_bytes n)); (RLPStream.append_int b, IData (StreamProof.int_bytes b));
             (RLPStream.append r false, IData r); (RLPStream.append h false, IData h)]).
  pose proof (fields_written l ltac:(done)) as F. specialize (F ltac:(repeat constructor; simpl;
    first [by apply writes_int|apply writes_bytes; [done|lia]]) ltac:(unfold rlp_limit in Hs; unfold fields, l; simpl map; fold (account_item n b r h); lia)).
  cbn [l RLPStream.append_each fst length Z.of_nat] in F.
  unfold stream_account. rewrite En, Eb, Eh.
  change (RLPStream.appendList (Z.of_nat 4)) with (RLPStream.appendList 4) in F.
  do 5 (apply SE_bind_inv in F as ([] & ? & Ei & F); rewrite (SE_bind_ok _ _ _ _ _ Ei); clear Ei).
  injection F as ->. done.
Qed.

Lemma read_account_spec : FixedHash.to_bool r = true ->
  read_account (encode (IList (account_item n b r h))) = Ok (Account_loaded n b r h).
Proof.
  intros Ht. pose proof account_item_ok as Hl. destruct (list_new _ Hl) as (Hnew & Ho & _). destruct Hr, Hh.
  unfold read_account. rewrite Hnew. cbn [mbind outcome_bind].
  read_next Hl Ho. rewrite (lift_bind_ok _ _ _ _ (read_u256 n Hn)).
  read_next Hl Ho. rewrite (lift_bind_ok _ _ _ _ (read_u256 b Hb)).
  assert (forall p, length p = 32%nat -> bytes_ok p -> RLP.toHash 32 RLP.Strict (encode (IData p)) = Ok p) as Hhash.
  { intros p Hlen Hok. apply toHash_head; [|done]. apply head_item; [done|unfold rlp_limit; lia]. }
  read_next Hl Ho. rewrite (lift_bind_ok _ _ _ _ (Hhash r ltac:(done) ltac:(done))).
  read_next Hl Ho. rewrite (lift_bind_ok _ _ _ _ (Hhash h ltac:(done) ltac:(done))).
  unfold assertion. by rewrite Ht.
Qed.
End Record4.

(** The bytes [b] keep, in the database [d], what [x] showed in [d0]. *)
Definition saved (d0 d : D) (x : Account) (b : bytes) : Prop :=
  exists r, let y := Account_loaded (m_nonce x) (m_balance x) r (m_codeHash x) in
    b <> [] /\ read_account b = Ok y /\ account_ok d y /\ code_of d y = code_of d0 x /\
    forall j, in_range 256 j -> base_slot d r j = slot_of d0 x j.

Lemma saved_extends d0 d d' x b : extends d d' -> saved d0 d x b -> saved d0 d' x b.
Proof.
  intros He (r & Hne & Hrd & Hok & Hc & Hsl). exists r. split; [done|]. split; [done|].
  split; [by eapply account_ok_extends|]. split.
  - by rewrite (code_of_extends d d').
  - intros j Hj. rewrite (base_slot_extends d d'); [by apply Hsl|done|apply Hok].
Qed.

(** What the state keeps apart from the tries and the sizes of codes. *)
Definition rewritten (s : State D) (r : bytes) (d : D) (c : gmap bytes Z) (rnd : nat -> Z) : State D :=
  set_codeSizeCache c (set_random rnd (set_m_state_root r (set_m_db d s))).

Definition new_code (x : Account) : Prop := m_hasNewCode x = true /\ m_isAlive x = true.
(** The updates of tries and of the database a commit of [x] needs. *)
Definition cost (x : Account) : nat := base.size (m_storageOverlay x) + 2.

(** The code of an alive account is in the database once its new code was put there. *)
Lemma saved_code d d' x : account_ok d x -> extends d d' ->
  (m_hasNewCode x = true -> db_lookup (m_codeHash x) d' = m_codeCache x) ->
  m_codeHash x <> EmptySHA3 -> m_isAlive x = true -> db_lookup (m_codeHash x) d' = code_of d x.
Proof.
  intros Hx He Hnew Hh Hal. pose proof (code_of_nonempty d x Hx Hh) as Hne. destruct (m_hasNewCode x) eqn:E.
  - rewrite Hnew by done. pose proof (ao_new _ _ Hx E Hal) as Hs. unfold code_of.
    rewrite (proj2 (eqb_ne _ _) Hh). destruct (Z.eqb_spec (size (m_codeCache x)) 0) as [Hz|]; [|done].
    destruct (m_codeCache x); [|done]. by destruct Hh.
  - rewrite (proj2 He), (ao_stored _ _ Hx E Hh); [done|]. by rewrite (ao_stored _ _ Hx E Hh).
Qed.

Lemma saved_account d0 d x r : account_ok d0 x -> m_isAlive x = true -> extends d0 d ->
  (m_hasNewCode x = true -> db_lookup (m_codeHash x) d = m_codeCache x) -> storage_ok d r ->
  let y := Account_loaded (m_nonce x) (m_balance x) r (m_codeHash x) in
  code_of d y = code_of d0 x /\ account_ok d y.
Proof.
  intros Hx Hal He Hnew Hr y. assert (code_of d y = code_of d0 x) as Hc.
  { unfold code_of at 1. simpl. destruct (FixedHash.eqb (m_codeHash x) EmptySHA3) eqn:E.
    - unfold code_of. by rewrite E.
    - exact (saved_code d0 d x Hx He Hnew (proj1 (eqb_ne _ _) E) Hal). }
  split; [exact Hc|]. split; try apply Hx; rewrite ?Hc; try apply Hx.
  - exact Hr.
  - simpl. lia.
  - intros [=].
  - intros _ Hne. exact (saved_code d0 d x Hx He Hnew Hne Hal).
  - apply map_Forall_empty.
Qed.

(** The new code of an account, stored. *)
Lemma commit_code_spec x n s : map_Forall size_ok (codeSizeCache s) -> account_ok (m_db s) x ->
  m_isAlive x = true -> room (m_db s) (S n) -> (new_code x -> free (m_db s) (m_codeCache x)) ->
  exists c rnd d, when (m_hasNewCode x)
      (csc_store (m_codeHash x) (size (m_codeCache x));;
       modify (fun s => set_m_db (db_insert (m_codeHash x) (m_codeCache x) (m_db s)) s)) s
    = (Ok tt, set_codeSizeCache c (set_random rnd (set_m_db d s))) /\
    map_Forall size_ok c /\ extends (m_db s) d /\ room d n /\
    (m_hasNewCode x = true -> db_lookup (m_codeHash x) d = m_codeCache x) /\
    (forall c', free (m_db s) c' -> (new_code x -> sha3 c' = sha3 (m_codeCache x) -> c' = m_codeCache x) -> free d c').
Proof.
  intros Hz Hx Hal Hr Hf. destruct (m_hasNewCode x) eqn:En; simpl when.
  - pose proof (ao_new _ _ Hx En Hal) as Hh.
    destruct (csc_store_spec (m_codeHash x) (size (m_codeCache x)) s Hz) as (c & rnd & E & Hc).
    { exists (m_codeCache x). split; [exact Hh|]. split; [done|]. apply Hx. }
    destruct (db_insert_ok _ (m_codeCache x) n Hr (Hf (conj En Hal))) as (H1 & H2 & H3 & H4 & H5).
    exists c, rnd, (db_insert (sha3 (m_codeCache x)) (m_codeCache x) (m_db s)).
    split; [rewrite (SE_bind_ok _ _ _ _ _ E), Hh; by destruct s|]. split; [done|]. split; [by split|].
    split; [done|]. split; [intros _; by rewrite <- Hh|]. intros c' Hc' Hinj. apply H5; [done|]. by apply Hinj.
  - exists (codeSizeCache s), (random s), (m_db s). split; [by destruct s|]. split; [done|]. split; [done|].
    split; [eapply room_le; [|done]; lia|]. split; [done|]. auto.
Qed.

(** One account. *)
Lemma commit_account_spec a x n s m : account_ok (m_db s) x -> tries (m_db s) (m_state_root s) = Some m ->
  room (m_db s) (cost x + n) -> (new_code x -> free (m_db s) (m_codeCache x)) ->
  map_Forall size_ok (codeSizeCache s) ->
  exists r d c rnd m', commit_account a x s = (Ok tt, rewritten s r d c rnd) /\
    map_Forall size_ok c /\ extends (m_db s) d /\ room d n /\ tries d r = Some m' /\
    (forall c', free (m_db s) c' -> (new_code x -> sha3 c' = sha3 (m_codeCache x) -> c' = m_codeCache x) -> free d c') /\
    if m_isAlive x then exists b, m' = <[a := b]> m /\ saved (m_db s) d x b else m' = delete a m.
Proof.
  intros Hx Hm Hroom Hf Hz. unfold cost in Hroom. unfold commit_account.
  rewrite (SE_bind_ok _ _ _ (m_state_root s) s) by done. destruct (m_isAlive x) eqn:Hal; cbn [negb].
  - destruct (commit_root_spec x (2 + n) s Hx) as (r1 & d1 & E1 & Hr1 & [He1 Hf1] & Hroom1 & Hsl).
    { eapply room_le; [|exact Hroom]. lia. }
    rewrite (SE_bind_ok _ _ _ _ _ E1). set (s1 := set_m_db d1 s).
    destruct (commit_code_spec x (1 + n) s1) as (c & rnd & d2 & E2 & Hc & He2 & Hroom2 & Hnew & Hf2).
    { done. } { by eapply account_ok_extends. } { done. } { done. } { intros H. by apply Hf1, Hf. }
    rewrite (SE_bind_ok _ _ _ _ _ E2). simpl in He2.
    assert (extends (m_db s) d2) as He by (by etrans).
    assert (storage_ok d2 r1) as Hr2 by (by apply (storage_ok_extends d1)).
    pose proof Hr2 as (Hl & Hb & Ht & _).
    pose proof (ao_nonce _ _ Hx) as Hnn. pose proof (ao_balance _ _ Hx) as Hbb. pose proof (ao_hash _ _ Hx) as Hhh.
    rewrite (lift_bind_ok _ _ _ _ (stream_account_spec _ _ r1 _ Hnn Hbb (conj Hl Hb) Hhh x eq_refl eq_refl eq_refl)).
    set (b := encode _).
    pose proof (read_account_spec _ _ r1 _ Hnn Hbb (conj Hl Hb) Hhh Ht) as Hrd. fold b in Hrd.
    assert (b <> []) as Hbne by (intros E; rewrite E in Hrd; discriminate Hrd).
    destruct (trie_insert_ok d2 (m_state_root s) m a b n) as (r & d3 & E3 & Hm3 & _ & _ & _ & Hroom3 & H1 & H2 & H3).
    { by apply He. } { done. } { done. }
    exists r, d3, c, rnd, (<[a := b]> m). split; [|split; [done|split; [by etrans; [exact He|]|split; [done|split; [done|split]]]]].
    + unfold in_db, zoom, mbind, SE_bind. simpl. rewrite E3. by destruct s.
    + intros c' Hc' Hinj. apply H3, Hf2; [by apply Hf1|done].
    + exists b. split; [done|]. apply (saved_extends _ d2); [by split|]. exists r1. intros y.
      destruct (saved_account (m_db s) d2 x r1) as [Hcode Hok]; try done.
      repeat (split; [done|]). intros j Hj. rewrite (base_slot_extends d1 d2); auto.
  - destruct (trie_remove_ok (m_db s) (m_state_root s) m a n Hm) as (r & d & E & Hm' & _ & Hroom' & H1 & H2 & H3).
    { eapply room_le; [|exact Hroom]. lia. }
    exists r, d, (codeSizeCache s), (random s), (delete a m).
    split; [|split; [done|split; [by split|split; [done|split; [done|split; [|done]]]]]].
    + unfold in_db, zoom, mbind, SE_bind. rewrite E. by destruct s.
    + auto.
Qed.

(** ** All accounts *)

Lemma stored_extends d d' b : extends d d' -> stored d b -> stored d' b.
Proof.
  intros He (Hne & n & bal & r & c & Hrd & Hok). split; [exact Hne|]. exists n, bal, r, c.
  split; [exact Hrd|]. by eapply account_ok_extends.
Qed.
Lemma so_stored s m a b : state_ok s -> tries (m_db s) (m_state_root s) = Some m -> m !! a = Some b ->
  stored (m_db s) b.
Proof.
  intros Hs Hm Hb. destruct (so_trie _ Hs) as (m' & Hm' & Hall). rewrite Hm in Hm'. injection Hm' as <-.
  by apply (Hall a).
Qed.

Lemma saved_base d0 d1 d x b : extends d0 d1 -> account_ok d0 x -> saved d1 d x b -> saved d0 d x b.
Proof.
  intros He Hx (r & Hne & Hrd & Hok & Hc & Hsl). exists r. split; [exact Hne|]. split; [exact Hrd|].
  split; [exact Hok|]. split.
  - etrans; [exact Hc|]. by apply code_of_extends.
  - intros j Hj. rewrite Hsl by done. by apply slot_of_extends.
Qed.

(** The trie holds the dirty accounts of [l], and is as before elsewhere. *)
Record holds (d0 d : D) (m0 m : gmap bytes bytes) (l : list (bytes * Account)) : Prop := {
  ho_same a : (forall x, (a, x) ∈ l -> isDirty x = false) -> m !! a = m0 !! a;
  ho_saved a x : (a, x) ∈ l -> isDirty x = true ->
    if m_isAlive x then exists b, m !! a = Some b /\ saved d0 d x b else m !! a = None }.

(** No two codes to be stored have the same hash, and the database has a place
    for each. *)
Definition codes_fit (d : D) (l : list (bytes * Account)) : Prop :=
  (forall a x, (a, x) ∈ l -> isDirty x = true -> new_code x -> free d (m_codeCache x)) /\
  (forall a b x y, (a, x) ∈ l -> (b, y) ∈ l -> new_code x -> new_code y ->
     sha3 (m_codeCache x) = sha3 (m_codeCache y) -> m_codeCache x = m_codeCache y).

Definition total_cost (l : list (bytes * Account)) : nat := sum_list_with (fun ax => cost (snd ax)) l.

Lemma commit_accounts_spec d0 l : forall n s m, extends d0 (m_db s) ->
  tries (m_db s) (m_state_root s) = Some m -> NoDup l.*1 ->
  (forall a x, (a, x) ∈ l -> account_ok d0 x) -> room (m_db s) (total_cost l + n) ->
  codes_fit (m_db s) l -> map_Forall size_ok (codeSizeCache s) ->
  exists t r d c rnd m', commit_accounts l s = (Ok t, rewritten s r d c rnd) /\
    map_Forall size_ok c /\ extends (m_db s) d /\ room d n /\ tries d r = Some m' /\
    holds d0 d m m' l.
Proof.
  induction l as [|[a x] l IH]; intros n s m He Hm Hnd Hok Hroom [Hfit Hinj] Hz.
  - exists [], (m_state_root s), (m_db s), (codeSizeCache s), (random s), m.
    split; [by destruct s|]. repeat (split; [done|]). intros a x Hin. by apply not_elem_of_nil in Hin.
  - apply list.NoDup_cons in Hnd as [Hni Hnd]. cbn [total_cost sum_list_with snd] in Hroom.
    assert (forall y, (a, y) ∈ l -> False) as Hna.
    { intros y Hy. apply Hni. apply (list_elem_of_fmap_2 fst _ _ Hy). }
    cbn [commit_accounts]. destruct (isDirty x) eqn:Hd.
    + destruct (commit_account_spec a x (total_cost l + n) s m) as (r1 & d1 & c1 & rnd1 & m1 & E1 & Hz1 & He1 & Hroom1 & Hm1 & Hf1 & Hs1).
      { eapply account_ok_extends; [exact He|]. apply (Hok a). by left. }
      { done. } { eapply room_le; [|exact Hroom]. unfold total_cost. lia. }
      { apply (Hfit a); [by left|done]. } { done. }
      rewrite (SE_bind_ok _ _ _ _ _ E1).
      destruct (IH n (rewritten s r1 d1 c1 rnd1) m1) as (t & r & d & c & rnd & m' & E & Hz' & He' & Hroom' & Hm' & Hh).
      { by etrans. } { done. } { done. } { intros b y Hy. apply (Hok b). by right. } { done. }
      { split.
        - intros b y Hy Hyd Hyn. apply Hf1; [apply (Hfit b); [by right|done|done]|].
          intros Hxn Hs. apply (Hinj b a y x); [by right|by left|done|done|done].
        - intros b b' y y' Hy Hy'. apply (Hinj b b'); by right. }
      { done. }
      rewrite (SE_bind_ok _ _ _ _ _ E). exists (a :: t), r, d, c, rnd, m'.
      split; [by destruct s|]. split; [done|]. split; [by etrans|]. split; [done|]. split; [done|].
      assert (m' !! a = m1 !! a) as Ha by (apply (ho_same _ _ _ _ _ Hh); intros y Hy; by destruct (Hna y)).
      split.
      * intros b Hb. rewrite (ho_same _ _ _ _ _ Hh) by (intros y Hy; apply Hb; by right).
        assert (b <> a) as Hne by (intros ->; specialize (Hb x ltac:(by left)); congruence).
        destruct (m_isAlive x); [destruct Hs1 as (b1 & -> & _); by rewrite lookup_insert_ne|].
        by rewrite Hs1, lookup_delete_ne.
      * intros b y Hy Hyd. apply elem_of_cons in Hy as [[= -> ->]|Hy]; [|by apply (ho_saved _ _ _ _ _ Hh)].
        rewrite Ha. destruct (m_isAlive x); [|by rewrite Hs1, lookup_delete_eq].
        destruct Hs1 as (b1 & -> & Hsv). exists b1. split; [by rewrite lookup_insert_eq|].
        apply (saved_extends _ d1); [exact He'|]. apply (saved_base _ (m_db s)); [done| |done].
        apply (Hok a). by left.
    + destruct (IH n s m) as (t & r & d & c & rnd & m' & E & Hz' & He' & Hroom' & Hm' & Hh); try done.
      { intros b y Hy. apply (Hok b). by right. } { eapply room_le; [|exact Hroom]. unfold total_cost. lia. }
      { split; [intros b y Hy; apply (Hfit b); by right|intros b b' y y' Hy Hy'; apply (Hinj b b'); by right]. }
      exists t, r, d, c, rnd, m'. repeat (split; [done|]). split.
      * intros b Hb. apply (ho_same _ _ _ _ _ Hh). intros y Hy. apply Hb. by right.
      * intros b y Hy Hyd. apply elem_of_cons in Hy as [[= -> ->]|Hy]; [congruence|].
        by apply (ho_saved _ _ _ _ _ Hh).
Qed.

(** ** What lasts *)

(** The accounts that are alive: nonce, balance, code hash and code, and the
    values of the storage slots. *)
Definition lasting (v : View) (a : bytes) : option (Z * Z * bytes * bytes) :=
  match vb v a with
  | Some b => if b_alive b then Some (b_nonce b, b_balance b, b_codeHash b, b_code b) else None
  | None => None
  end.
Definition lasting_slot (v : View) (a : bytes) (k : Z) : Z :=
  match vb v a with Some b => if b_alive b then vs v a k else 0 | None => 0 end.
Definition same_lasting (v w : View) : Prop :=
  (forall a, lasting v a = lasting w a) /\
  (forall a k, in_range 256 k -> lasting_slot v a k = lasting_slot w a k).

#[global] Instance same_lasting_equivalence : Equivalence same_lasting.
Proof.
  split; [by split| |].
  - intros v w [H1 H2]. split; intros; [by rewrite H1|by rewrite H2].
  - intros u v w [H1 H2] [H3 H4]. split; intros; [by rewrite H1|by rewrite H2, H4].
Qed.
Lemma veq_lasting v w : veq v w -> same_lasting v w.
Proof. intros [H1 H2]. split; intros; unfold lasting, lasting_slot; by rewrite H1, ?H2. Qed.

Lemma backing_root s m a : tries (m_db s) (m_state_root s) = Some m ->
  backing s a = match m !! a with Some b => match read_account b with Ok x => Some x | _ => None end | None => None end.
Proof. intros H. unfold backing. by rewrite H. Qed.

(** The state once its accounts are in the trie under [r]. *)
Section Committed.
Context (s : State D) (Hs : state_ok s) (m0 : gmap bytes bytes)
        (Hm0 : tries (m_db s) (m_state_root s) = Some m0).
Context (s' : State D) (m : gmap bytes bytes) (Hm : tries (m_db s') (m_state_root s') = Some m)
        (He : extends (m_db s) (m_db s')) (Hh : holds (m_db s) (m_db s') m0 m (map_to_list (m_cache s))).
Context (Hcache : m_cache s' = ∅) (Hlog : m_changeLog s' = [])
        (Hmiss : m_nonExistingAccountsCache s' = m_nonExistingAccountsCache s)
        (Hstart : m_accountStartNonce s' = m_accountStartNonce s)
        (Hsizes : map_Forall size_ok (codeSizeCache s')).

Lemma held_same a : (forall x, m_cache s !! a = Some x -> isDirty x = false) -> m !! a = m0 !! a.
Proof.
  intros H. apply (ho_same _ _ _ _ _ Hh). intros x Hx%elem_of_map_to_list. by apply H.
Qed.
Lemma held_saved a x : m_cache s !! a = Some x -> isDirty x = true ->
  if m_isAlive x then exists b, m !! a = Some b /\ saved (m_db s) (m_db s') x b else m !! a = None.
Proof. intros Hx. apply (ho_saved _ _ _ _ _ Hh). by apply elem_of_map_to_list. Qed.

Lemma committed_ok : state_ok s'.
Proof.
  split; rewrite ?Hcache, ?Hlog, ?Hstart, ?Hmiss; try done.
  - exists m. split; [exact Hm|]. intros a b Hb.
    destruct (m_cache s !! a) as [x|] eqn:Ex; [destruct (isDirty x) eqn:Hd|].
    + pose proof (held_saved a x Ex Hd) as H. destruct (m_isAlive x); [|congruence].
      destruct H as (b' & Hb' & r & Hne & Hrd & Hok & _). rewrite Hb in Hb'. injection Hb' as <-.
      split; [exact Hne|]. eauto 8.
    + rewrite held_same in Hb by congruence. eapply stored_extends; [exact He|]. by eapply so_stored.
    + rewrite held_same in Hb by congruence. eapply stored_extends; [exact He|]. by eapply so_stored.
  - intros a Ha. destruct (so_missing _ Hs a Ha) as [Hb Hc]. split; [|apply lookup_empty].
    rewrite (backing_root _ _ _ Hm), held_same by congruence. by rewrite (backing_root _ _ _ Hm0) in Hb.
  - intros c Hc. by apply not_elem_of_nil in Hc.
  - apply Hs.
Qed.

Lemma here_committed a : here s' a = backing s' a.
Proof. unfold here. by rewrite Hcache, lookup_empty. Qed.

(** An account that was clean or not cached: the trie holds what it held. *)
Lemma committed_clean a : (forall x, m_cache s !! a = Some x -> isDirty x = false) ->
  vb (view s') a = vb (view s) a /\ forall k, vs (view s') a k = vs (view s) a k.
Proof.
  intros Hc. assert (backing s' a = backing s a) as Hb.
  { rewrite (backing_root _ _ _ Hm), held_same, (backing_root _ _ _ Hm0) by done. reflexivity. }
  simpl. rewrite here_committed, Hb. unfold here.
  destruct (m_cache s !! a) as [x|] eqn:Ex.
  - destruct (so_cache _ Hs a x Ex) as [Hok Hcl]. destruct (Hcl (Hc x eq_refl)) as (y & Hy & Hcy).
    rewrite Hy. destruct (backing_ok s a y Hs Hy) as (Hoky & Haly & Hcc & Hov & _). split.
    + simpl. rewrite (clean_basic (m_db s) y x), (basic_of_extends (m_db s)) by done. reflexivity.
    + intros k. rewrite (clean_slot (m_db s) y x), (slot_of_extends (m_db s)) by done. reflexivity.
  - destruct (backing s a) as [y|] eqn:Ey; [|split; reflexivity].
    destruct (backing_ok s a y Hs Ey) as (Hoky & _). split.
    + simpl. rewrite (basic_of_extends (m_db s)) by done. reflexivity.
    + intros k. rewrite (slot_of_extends (m_db s)) by done. reflexivity.
Qed.

Lemma committed_view : same_lasting (view s') (view s).
Proof.
  assert (forall a, lasting (view s') a = lasting (view s) a /\
    forall k, in_range 256 k -> lasting_slot (view s') a k = lasting_slot (view s) a k) as H.
  2:{ split; intros; by apply H. }
  intros a. unfold lasting, lasting_slot.
  destruct (m_cache s !! a) as [x|] eqn:Ex; [destruct (isDirty x) eqn:Hd|].
  2:{ destruct (committed_clean a ltac:(congruence)) as [-> Hk]. split; [done|]. intros k _. by rewrite Hk. }
  2:{ destruct (committed_clean a ltac:(congruence)) as [-> Hk]. split; [done|]. intros k _. by rewrite Hk. }
  simpl. rewrite here_committed, (backing_root _ _ _ Hm). pose proof (held_saved a x Ex Hd) as H.
  assert (here s a = Some x) as Hx by (unfold here; by rewrite Ex). rewrite Hx. simpl.
  destruct (m_isAlive x).
  - destruct H as (b & -> & r & _ & -> & _ & Hc & Hsl). simpl. rewrite Hc. split; [done|].
    intros k Hk. unfold slot_of at 1. simpl. rewrite lookup_empty. by apply Hsl.
  - by rewrite H.
Qed.
End Committed.

(** ** [commit] *)

(** What is left to do once the empty accounts were dealt with. *)
Lemma commit_keep_spec s n : state_ok s -> room (m_db s) (total_cost (map_to_list (m_cache s)) + n) ->
  codes_fit (m_db s) (map_to_list (m_cache s)) ->
  exists s', commit KeepEmptyAccounts s = (Ok tt, s') /\ state_ok s' /\ same_lasting (view s') (view s) /\
    m_cache s' = ∅ /\ m_changeLog s' = [] /\ m_accountStartNonce s' = m_accountStartNonce s /\
    extends (m_db s) (m_db s') /\ room (m_db s') n.
Proof.
  intros Hs Hroom Hfit. destruct (so_trie _ Hs) as (m & Hm & _).
  destruct (commit_accounts_spec (m_db s) (map_to_list (m_cache s)) n s m)
    as (t & r & d & c & rnd & m' & E & Hz & He & Hroom' & Hm' & Hh); try done.
  { apply NoDup_fst_map_to_list. }
  { intros a x Hx%elem_of_map_to_list. exact (proj1 (so_cache _ Hs a x Hx)). }
  { apply Hs. }
  eexists. split.
  { unfold commit. rewrite (SE_bind_ok _ _ s tt s), (SE_bind_ok _ _ s (m_cache s) s) by done.
    rewrite (SE_bind_ok _ _ _ _ _ E). reflexivity. }
  assert (H := committed_ok s Hs m Hm). split; [eapply H; done|].
  split; [|done]. eapply (committed_view s Hs m Hm); done.
Qed.

(** *** Empty accounts *)
Definition is_dropped (x : Account) : bool := isDirty x && isEmpty x.
Definition dropped (b : CommitBehaviour) s (a : bytes) : bool :=
  match b, m_cache s !! a with
  | RemoveEmptyAccounts, Some x => is_dropped x
  | _, _ => false
  end.
Definition removed s : State D :=
  set_m_cache ((fun x => if is_dropped x then Account_kill x else x) <$> m_cache s) s.

Lemma removed_ok s : state_ok s -> state_ok (removed s).
Proof.
  intros Hs. split; simpl; try apply Hs.
  - intros a x Hx. apply lookup_fmap_Some in Hx as (y & <- & Hy). destruct (so_cache _ Hs a y Hy) as [Hok Hc].
    destruct (is_dropped y); [|split; [exact Hok|exact Hc]]. split; [by apply dead_ok|]. intros [=].
  - intros a Ha. destruct (so_missing _ Hs a Ha) as [Hb Hc]. split; [exact Hb|]. by rewrite lookup_fmap, Hc.
  - intros c Hc. destruct (so_log _ Hs c Hc) as (x & Hx & Hd). rewrite lookup_fmap, Hx. eexists. split; [reflexivity|].
    by destruct (is_dropped x).
Qed.

Lemma removed_lasting s a :
  lasting (view (removed s)) a = (if dropped RemoveEmptyAccounts s a then None else lasting (view s) a) /\
  forall k, lasting_slot (view (removed s)) a k =
    if dropped RemoveEmptyAccounts s a then 0 else lasting_slot (view s) a k.
Proof.
  unfold lasting, lasting_slot. simpl. unfold here. simpl. rewrite lookup_fmap. unfold dropped.
  destruct (m_cache s !! a) as [x|]; [|split; reflexivity]. simpl. destruct (is_dropped x); split; reflexivity.
Qed.

(** The insertions and removals a commit needs at most. *)
Definition commit_cost s : nat := total_cost (map_to_list (m_cache s)).

Lemma sum_list_le {A} (f g : A -> nat) (l : list A) : (forall x, (f x <= g x)%nat) ->
  (sum_list_with f l <= sum_list_with g l)%nat.
Proof. intros H. induction l as [|x l IH]; simpl; [done|]. specialize (H x). lia. Qed.

Lemma sum_list_map {A B} (f : A -> B) (g : B -> nat) (l : list A) :
  sum_list_with g (f <$> l) = sum_list_with (fun x => g (f x)) l.
Proof. induction l as [|x l IH]; [reflexivity|]. cbn. f_equal. exact IH. Qed.

Lemma removed_cost s : (commit_cost (removed s) <= commit_cost s)%nat.
Proof.
  unfold commit_cost, total_cost, removed. simpl. rewrite map_to_list_fmap.
  rewrite sum_list_map. apply sum_list_le. intros [a x]. simpl.
  destruct (is_dropped x); [|done]. unfold cost. simpl. rewrite map_size_empty. lia.
Qed.

Lemma removed_codes s d : codes_fit d (map_to_list (m_cache s)) -> codes_fit d (map_to_list (m_cache (removed s))).
Proof.
  intros [Hf Hi].
  assert (forall a x, (a, x) ∈ map_to_list (m_cache (removed s)) -> new_code x ->
    (a, x) ∈ map_to_list (m_cache s)) as Hin.
  { intros a x Hx%elem_of_map_to_list Hn. apply elem_of_map_to_list. simpl in Hx.
    apply lookup_fmap_Some in Hx as (y & <- & Hy). destruct (is_dropped y); [|done]. by destruct Hn. }
  split; [intros a x Hx Hd Hn; apply (Hf a); auto|].
  intros a b x y Hx Hy Hnx Hny. apply (Hi a b); auto.
Qed.

Lemma commit_spec b s n : state_ok s -> room (m_db s) (commit_cost s + n) ->
  codes_fit (m_db s) (map_to_list (m_cache s)) ->
  exists s', commit b s = (Ok tt, s') /\ state_ok s' /\
    (forall a, lasting (view s') a = if dropped b s a then None else lasting (view s) a) /\
    (forall a k, in_range 256 k ->
       lasting_slot (view s') a k = if dropped b s a then 0 else lasting_slot (view s) a k) /\
    m_cache s' = ∅ /\ m_changeLog s' = [] /\ m_accountStartNonce s' = m_accountStartNonce s /\
    extends (m_db s) (m_db s') /\ room (m_db s') n.
Proof.
  intros Hs Hroom Hfit. destruct b.
  - destruct (commit_keep_spec s n Hs Hroom Hfit) as (s' & E & Hok & [V1 V2] & Hrest).
    exists s'. split; [exact E|]. split; [exact Hok|]. unfold dropped.
    split; [intros a; by rewrite V1|]. split; [intros a k Hk; by rewrite V2|exact Hrest].
  - destruct (commit_keep_spec (removed s) n (removed_ok s Hs)) as (s' & E & Hok & [V1 V2] & Hrest).
    { eapply room_le; [|exact Hroom]. pose proof (removed_cost s). unfold commit_cost in *. simpl in *. lia. }
    { by apply removed_codes. }
    exists s'. split; [exact E|]. split; [exact Hok|].
    split; [intros a; rewrite V1; apply removed_lasting|].
    split; [intros a k Hk; rewrite V2 by done; apply removed_lasting|exact Hrest].
Qed.

(** ** Reopening a root *)
Lemma rootHash_spec s : state_ok s -> rootHash s = (Ok (m_state_root s), s).
Proof.
  intros Hs. destruct (so_trie _ Hs) as (m & Hm & _).
  unfold rootHash. rewrite (SE_bind_ok _ _ s (m_state_root s) s) by reflexivity.
  unfold at_db. by rewrite (trie_root_ok _ _ _ Hm).
Qed.
Lemma setRoot_spec s t : state_ok s -> m_cache s = ∅ -> extends (m_db s) (m_db t) ->
  exists t', setRoot (m_state_root s) t = (Ok tt, t') /\ veq (view t') (view s) /\
    m_state_root t' = m_state_root s /\ m_changeLog t' = m_changeLog t /\ m_cache t' = ∅ /\
    (forall n, room (m_db t) n -> room (m_db t') n) /\ extends (m_db t) (m_db t').
Proof.
  intros Hs Hc He. destruct (so_trie _ Hs) as (m & Hm & _).
  destruct (trie_open_ok (m_db t) (m_state_root s) m) as (d & E & Hr & H1 & H2 & _); [by apply He|].
  eexists. split; [unfold setRoot, mbind, SE_bind, modify, in_db, zoom; simpl; by rewrite E|].
  assert (extends (m_db s) d) as He' by (etrans; [exact He|by split]).
  split; [|done].
  assert (forall a, here (set_m_db d (set_m_state_root (m_state_root s) (set_m_nonExistingAccountsCache ∅
    (set_m_unchangedCacheEntries [] (set_m_cache ∅ t))))) a = here s a) as Hh.
  { intros a. unfold here. simpl. rewrite Hc, lookup_empty. unfold backing. simpl.
    by rewrite Hm, (proj1 He' _ _ Hm). }
  split; intros; simpl; rewrite Hh; destruct (here s a) as [x|] eqn:Ex; try reflexivity; simpl.
  - f_equal. apply basic_of_extends; [done|]. by apply (here_ok s a).
  - apply slot_of_extends; [done|]. by apply (here_ok s a).
Qed.
End Commit.

(** ** Theorems *)

(** Alice with a balance, code and a storage slot, none of it committed. *)
Definition contract_state : State Versions.db :=
  snd ((setNewCode alice [0x60; 0];; setStorage alice 7 99) funded_state).

Lemma contract_state_ok : state_ok contract_state.
Proof.
  destruct funded_state_ok as [Hs _].
  assert (exists x, m_cache funded_state !! alice = Some x /\ isDirty x = true /\ m_codeHash x = EmptySHA3)
    as (x & Hx & Hd & Hh).
  { eexists. split; [vm_compute; reflexivity|]. split; vm_compute; reflexivity. }
  destruct (setNewCode_spec alice [0x60; 0] x funded_state Hs Hx Hd Hh) as (s1 & l1 & E1 & Hc1 & V1).
  { by apply bytes_ok_check. } { simpl. lia. }
  unfold contract_state. rewrite (SE_bind_ok _ _ _ _ _ E1).
  destruct (setStorage_spec alice 7 99 s1 (ch_ok _ _ _ Hc1)) as (s2 & l2 & E2 & Hc2 & _).
  - rewrite (proj1 V1). cbn [upd_basic vb]. rewrite decide_True by reflexivity.
    rewrite view_here. unfold here. rewrite Hx. eauto.
  - unfold in_range. lia.
  - unfold in_range. lia.
  - rewrite E2. apply Hc2.
Qed.

Lemma contract_state_fits :
  room (m_db contract_state) (commit_cost contract_state) /\
  codes_fit (m_db contract_state) (map_to_list (m_cache contract_state)).
Proof.
  split; [vm_compute; reflexivity|]. split.
  - intros a x _ _ _. left. vm_compute. reflexivity.
  - assert (exists x, map_to_list (m_cache contract_state) = [(alice, x)]) as [x0 E].
    { eexists. vm_compute. reflexivity. }
    rewrite E. intros a b x y Hx Hy _ _ _.
    apply list_elem_of_singleton in Hx, Hy. congruence.
Qed.

(** C10: [commit] returns, and loses nothing: every account that is alive keeps
    its nonce, balance, code hash, code and storage, now in the tries; accounts
    that were killed, and with [RemoveEmptyAccounts] the changed accounts that
    are empty, are gone.  The caches and the change log are empty, and the
    invariant holds. *)
Theorem commit_keeps_accounts {D} `{TD : !TrieDB D} `{TL : !TrieLaws D} (b : CommitBehaviour) (s : State D) :
  state_ok s -> room (m_db s) (commit_cost s) -> codes_fit (m_db s) (map_to_list (m_cache s)) ->
  exists s', commit b s = (Ok tt, s') /\ state_ok s' /\ m_cache s' = ∅ /\ m_changeLog s' = [] /\
    (forall a, lasting (view s') a = if dropped b s a then None else lasting (view s) a) /\
    (forall a k, in_range 256 k ->
       lasting_slot (view s') a k = if dropped b s a then 0 else lasting_slot (view s) a k).
Proof.
  intros Hs Hr Hf. destruct (commit_spec b s 0 Hs) as (s' & E & Hok & V1 & V2 & Hc & HL & _).
  - by rewrite Nat.add_0_r.
  - exact Hf.
  - exists s'. repeat (split; [assumption|]). assumption.
Qed.

Lemma commit_keeps_accounts_witness :
  exists s', commit RemoveEmptyAccounts contract_state = (Ok tt, s') /\ state_ok s' /\ m_cache s' = ∅ /\
    m_changeLog s' = [] /\
    (forall a, lasting (view s') a =
       if dropped RemoveEmptyAccounts contract_state a then None else lasting (view contract_state) a) /\
    (forall a k, in_range 256 k -> lasting_slot (view s') a k =
       if dropped RemoveEmptyAccounts contract_state a then 0 else lasting_slot (view contract_state) a k).
Proof.
  apply (commit_keeps_accounts RemoveEmptyAccounts contract_state).
  - apply contract_state_ok.
  - apply contract_state_fits.
  - apply contract_state_fits.
Defined.

(** The contract, committed. *)
Definition committed_state : State Versions.db := snd (commit KeepEmptyAccounts contract_state).
Lemma committed_state_ok : state_ok committed_state /\ m_cache committed_state = ∅ /\
  m_accountStartNonce committed_state = 0.
Proof.
  destruct (commit_spec KeepEmptyAccounts contract_state 0 contract_state_ok) as (s' & E & Hok & _ & _ & Hc & _ & Hn & _).
  - rewrite Nat.add_0_r. apply contract_state_fits.
  - apply contract_state_fits.
  - unfold committed_state. rewrite E. split; [exact Hok|]. split; [exact Hc|]. etrans; [exact Hn|]. vm_compute. reflexivity.
Qed.

(** The root remembered before a run of operations reopens the accounts as
    they were, whatever the operations did, but [setRoot] leaves their entries in
    the change log. *)
Theorem setRoot_reopens {D} `{TD : !TrieDB D} `{TL : !TrieLaws D} (s t : State D) :
  state_ok s -> m_cache s = ∅ -> m_accountStartNonce s <> Invalid256 -> rtc step s t ->
  exists r t', rootHash s = (Ok r, s) /\ setRoot r t = (Ok tt, t') /\
    veq (view t') (view s) /\ m_cache t' = ∅ /\ m_changeLog t' = m_changeLog t.
Proof.
  intros Hs Hc Hn H. destruct (steps_changes s t Hs Hn H) as [l Hch].
  destruct (setRoot_spec s t Hs Hc (ch_db _ _ _ Hch)) as (t' & E & V & _ & HL & Hc' & _).
  exists (m_state_root s), t'.
  split; [by apply rootHash_spec|repeat (split; [assumption|]); assumption].
Qed.

Lemma setRoot_reopens_witness :
  exists r t', rootHash committed_state = (Ok r, committed_state) /\
    setRoot r (snd (addBalance bob 5 committed_state)) = (Ok tt, t') /\
    veq (view t') (view committed_state) /\ m_cache t' = ∅ /\
    m_changeLog t' = m_changeLog (snd (addBalance bob 5 committed_state)).
Proof.
  destruct committed_state_ok as (Hok & Hc & Hn).
  apply (setRoot_reopens committed_state).
  - exact Hok.
  - exact Hc.
  - rewrite Hn. unfold Invalid256. lia.
  - eapply rtc_l; [|apply rtc_refl].
    apply (step_op committed_state (OpAddBalance bob 5) _ (fst (addBalance bob 5 committed_state))).
    + simpl. unfold in_range. lia.
    + apply surjective_pairing.
Defined.
