(* ===== verification/ScExtVm.v ===== *)
(** * The machine's context over the account state

    Class [ExtVM] ([src/src/scvm.h], [src/src/scvm.cpp]): the virtual member
    functions through which the machine reaches the account state, and the proof
    that they keep the promises ([ExtVMLaws]) the machine was verified against. *)

From S2P Require Import Prelude ScFixedHash ScSha3 ScRlp ScRlpWrite ScRlpRead ScState ScStateView ScStateOps ScStateRun ScVersions.
From S2P Require Import ScInstruction ScVm ScVmLogic.
From Stdlib Require Import ZifyBool.
Local Opaque EmptySHA3 EmptyTrie sha3.

Section ExtVM.
Context {D : Type} `{TD : !TrieDB D}.
Implicit Types e : ExtVM (State D).

(** A call of a member function of [m_s]. *)
Definition in_state {A} (m : SE (State D) A) : SE (ExtVM (State D)) A := zoom m_s set_m_s m.

Definition ExtVM_store (_n : Z) : SE (ExtVM (State D)) Z := fun e => in_state (storage (myAddress e) _n) e.
Definition ExtVM_setStore (_n _v : Z) : SE (ExtVM (State D)) unit := fun e =>
  in_state (setStorage (myAddress e) _n _v) e.
Definition ExtVM_codeAt (_a : bytes) : SE (ExtVM (State D)) bytes := in_state (ScState.code _a).
Definition ExtVM_codeSizeAt (_a : bytes) : SE (ExtVM (State D)) Z := in_state (codeSize _a).
Definition ExtVM_balance (_a : bytes) : SE (ExtVM (State D)) Z := in_state (balance _a).

#[global] Instance ExtVM_ops : ExtVMOps (State D) := {
  ext_store := ExtVM_store;
  ext_setStore := ExtVM_setStore;
  ext_balance := ExtVM_balance;
  ext_codeAt := ExtVM_codeAt;
  ext_codeSizeAt := ExtVM_codeSizeAt;
  ext_exists := ExtVM_exists;
  ext_suicide := ExtVM_suicide;
  ext_create := ExtVM_create;
  ext_call := ExtVM_call;
  evmSchedule := DefaultSchedule }.

(** [ExtVM(_s, _myAddress, ...)]: the account must exist. *)
Definition ExtVM_new (_myAddress _caller _origin : bytes) (_value _gasPrice : Z) (_data _code _codeHash : bytes)
    (_depth : Z) : SE (State D) (ExtVM (State D)) :=
  u ← addressInUse _myAddress;
  assertion u "m_s.addressInUse(_myAddress)";;
  gets (mkExt _myAddress _caller _origin _value _gasPrice _data _code _codeHash (mkSub ∅ [] 0) _depth).

(** ** The promises *)
Context `{TL : !TrieLaws D}.

Record context_ok e : Prop := {
  co_state : state_ok (m_s e);
  co_start : m_accountStartNonce (m_s e) <> Invalid256;
  co_dirty : exists x, m_cache (m_s e) !! myAddress e = Some x /\ isDirty x = true;
  co_value : in_range 256 (value e);
  co_gasPrice : in_range 256 (gasPrice e);
  co_data : size (data e) < 2 ^ 63 /\ bytes_ok (data e);
  co_code : size (code e) < 2 ^ 62 /\ bytes_ok (code e);
  co_self : bytes_ok (myAddress e) /\ length (myAddress e) = 20%nat;
  co_caller : bytes_ok (caller e) /\ length (caller e) = 20%nat;
  co_origin : bytes_ok (origin e) /\ length (origin e) = 20%nat }.

Lemma context_exists e : context_ok e -> is_Some (vb (view (m_s e)) (myAddress e)).
Proof. intros He. destruct (co_dirty _ He) as (x & Hx & _). simpl. unfold here. rewrite Hx. eauto. Qed.

Lemma context_changes e s' l : context_ok e -> changes (m_s e) s' l -> context_ok (set_m_s s' e).
Proof.
  intros He Hc. split; try apply He; simpl; [apply Hc| |].
  - rewrite (ch_start _ _ _ Hc). apply He.
  - destruct (co_dirty _ He) as (x & Hx & Hd). by apply (ch_dirty _ _ _ Hc _ x).
Qed.

Lemma context_quiet e s' : context_ok e -> quiet (m_s e) s' -> context_ok (set_m_s s' e).
Proof. intros He Hq. eapply context_changes; [done|]. apply quiet_changes; [apply He|done]. Qed.

(** The promises hold with any invariant that implies [context_ok] and is kept by
    queries of the state and by writes to the context's own storage. *)
Section Laws.
Context (I : ExtVM (State D) -> Prop).
Context (I_ok : forall e, I e -> context_ok e) (I_sub : forall e x, I e -> suicides x = suicides (sub e) -> I (set_sub x e)).
Context (I_quiet : forall e s', I e -> quiet (m_s e) s' -> I (set_m_s s' e)).
Context (I_store : forall e s' l k v, I e -> changes (m_s e) s' l ->
  veq (view s') (upd_slot (myAddress e) k v (view (m_s e))) -> I (set_m_s s' e)).

Lemma in_state_ok {A} (m : SE (State D) A) (Q : A -> Prop) E e v s' : m (m_s e) = (Ok v, s') -> Q v ->
  I (set_m_s s' e) -> wp (in_state m) (fun v e' => Q v /\ I e') E e.
Proof. intros Em Hv He. unfold wp, in_state, zoom. by rewrite Em. Qed.

Definition laws_for : ExtVMLaws (State D).
Proof.
  refine {| ext_inv := I |}.
  - exact I_sub.
  - intros e Hi. pose proof (I_ok _ Hi) as He. pose proof (co_data _ He) as []. pose proof (co_code _ He) as [].
    pose proof (co_self _ He) as []. pose proof (co_caller _ He) as []. pose proof (co_origin _ He) as [].
    repeat split; done || apply He.
  - intros k e Hi Hk. pose proof (I_ok _ Hi) as He.
    destruct (storage_spec (myAddress e) k (m_s e) (co_state _ He) Hk) as (s' & E & Hq & _).
    eapply in_state_ok; [exact E| |by apply I_quiet]. destruct (context_exists _ He) as [b Hb].
    simpl in Hb |- *. destruct (here (m_s e) (myAddress e)) as [x|] eqn:Ex; [|done].
    apply slot_of_range. apply (here_ok (m_s e) (myAddress e)); [apply He|done].
  - intros k v e Hi Hk Hv. pose proof (I_ok _ Hi) as He.
    destruct (setStorage_spec (myAddress e) k v (m_s e) (co_state _ He) (context_exists _ He) Hk Hv)
      as (s' & l & E & Hc & V).
    unfold wp. simpl. unfold ExtVM_setStore, in_state, zoom. rewrite E. by eapply I_store.
  - intros a e Hi. pose proof (I_ok _ Hi) as He. destruct (balance_spec a (m_s e) (co_state _ He)) as (s' & E & Hq).
    eapply in_state_ok; [exact E| |by apply I_quiet]. unfold view_balance. simpl.
    destruct (here (m_s e) a) as [x|] eqn:Ex; [|simpl; unfold in_range; lia].
    apply (here_ok (m_s e) a x); [apply He|done].
  - intros a e Hi. pose proof (I_ok _ Hi) as He. destruct (code_spec a (m_s e) (co_state _ He)) as (s' & E & Hq).
    unfold wp. simpl. unfold ExtVM_codeAt, in_state, zoom. rewrite E. unfold view_code. simpl.
    destruct (here (m_s e) a) as [x|] eqn:Ex; simpl.
    + destruct (ao_code_size _ _ (here_ok (m_s e) a x (co_state _ He) Ex)).
      split; [done|]. split; [lia|by apply I_quiet].
    + split; [constructor|]. split; [lia|by apply I_quiet].
  - intros a e Hi. pose proof (I_ok _ Hi) as He.
    destruct (codeSize_spec a (m_s e) (co_state _ He)) as (n & s' & E & Hq & Hn & _).
    eapply in_state_ok; [exact E| |by apply I_quiet]. unfold in_range. lia.
  - intros a e He. exact He.
  - intros a e He. exact He.
  - intros v g c e He Hg. split; [simpl; lia|exact He].
  - intros p e He Hg. split; [simpl; lia|]. split; [constructor|exact He].
  - apply DefaultSchedule_ok.
Defined.
End Laws.

#[global] Instance ExtVM_laws : ExtVMLaws (State D).
Proof.
  refine (laws_for context_ok (fun e He => He) _ context_quiet _).
  - intros e x He _. split; apply He.
  - intros e s' l k v He Hc _. by eapply context_changes.
Defined.

(** ** What a run can change

    The state of the context [e] came from [s0] by operations that changed
    nothing but the storage of [self], and are logged. *)
Record contained (s0 : State D) (self : bytes) e : Prop := {
  ct_ok : context_ok e;
  ct_self : myAddress e = self;
  ct_suicides : suicides (sub e) = ∅;
  ct_log : exists l, changes s0 (m_s e) l;
  ct_basic a : vb (view (m_s e)) a = vb (view s0) a;
  ct_slots a k : a <> self -> vs (view (m_s e)) a k = vs (view s0) a k }.

Lemma contained_start e : context_ok e -> suicides (sub e) = ∅ -> contained (m_s e) (myAddress e) e.
Proof.
  intros He Hu. split; [exact He|done|exact Hu| |done|done]. exists []. apply quiet_changes; [apply He|apply quiet_refl, He].
Qed.

Definition contained_laws (s0 : State D) (self : bytes) : ExtVMLaws (State D).
Proof.
  refine (laws_for (contained s0 self) (ct_ok s0 self) _ _ _).
  - intros e x [Ho Hs Hu Hl Hb Hk] Hx. split; try done; [split; apply Ho|]. simpl. congruence.
  - intros e s' [Ho Hs Hu [l Hl] Hb Hk] Hq. split; cbn [m_s set_m_s myAddress sub]; [by apply context_quiet|done|done| | |].
    + exists ([] ++ l). eapply changes_trans; [exact Hl|]. apply quiet_changes; [apply Ho|done].
    + intros a. rewrite <- Hb. apply (q_view _ _ Hq).
    + intros a k Ha. rewrite <- Hk by done. apply (q_view _ _ Hq).
  - intros e s' l k v [Ho Hs Hu [l0 Hl] Hb Hk] Hc V. split; cbn [m_s set_m_s myAddress sub]; [by eapply context_changes|done|done| | |].
    + exists (l ++ l0). by eapply changes_trans.
    + intros a. rewrite <- Hb. apply V.
    + intros a j Ha. rewrite <- Hk by done. rewrite (proj2 V). simpl.
      rewrite decide_False; [done|]. intros [-> _]. by apply Ha.
Defined.
End ExtVM.
