(* ===== verification/ScExecutive.v ===== *)
(** * The transaction executive

    Model of class [Executive] ([src/src/scexecutive.h],
    [src/src/scexecutive.cpp]) and of [State::execute] ([src/src/scstate.cpp]):
    how a transaction is set up as a call or a creation, run on the machine and
    settled.

    - The executive, the machine's context [m_ext] and the caller share one
      [State] object by reference.  The model keeps it once, in [m_s]; the context
      is stored without it and gets it for the time of a run.
    - [m_res] points to the result record of [State::execute]; the model keeps
      the record itself.
    - Every exception of the modelled code is a [std::range_error] thrown by
      [BOOST_THROW_EXCEPTION], so none is caught as a [VMException]. *)

From S2P Require Import Prelude ScFixedHash ScSha3 ScInstruction ScVm ScVmLogic ScRlp ScState ScTransaction ScExtVm.

(** [changesMemory(_inst)], [changesStorage(_inst)] *)
Definition changesMemory (_inst : Instruction.t) : bool :=
  match _inst with
  | Instruction.MSTORE | Instruction.MSTORE8 | Instruction.MLOAD | Instruction.CREATE
  | Instruction.CALL | Instruction.CALLCODE | Instruction.SHA3 | Instruction.CALLDATACOPY
  | Instruction.CODECOPY | Instruction.EXTCODECOPY | Instruction.DELEGATECALL => true
  | _ => false
  end.
Definition changesStorage (_inst : Instruction.t) : bool :=
  match _inst with Instruction.SSTORE => true | _ => false end.

(** Whether a thrown exception is a [VMException]: every exception that the machine,
    the state and the executive throw is a [std::range_error], and no code under
    [src/src/] throws a [VMException] or one of the classes derived from it. *)
Definition is_VMException (what : string) : bool := false.

Module Executive.

Record t (D : Type) := mk {
  m_s : State D;
  m_ext : option (ExtVM unit);
  m_output : bytes;
  m_res : option ExecutionResult;
  m_depth : Z;
  m_excepted : TransactionException;
  m_baseGasRequired : Z;
  m_gas : Z;
  m_refunded : Z;
  m_t : Transaction.t;
  m_logs : list LogEntry;
  m_gasCost : Z;
  m_isCreation : bool;
  m_newAddress : bytes;
  m_savepoint : Z }.
Arguments mk {D}.
Arguments m_s {D}.
Arguments m_ext {D}.
Arguments m_output {D}.
Arguments m_res {D}.
Arguments m_depth {D}.
Arguments m_excepted {D}.
Arguments m_baseGasRequired {D}.
Arguments m_gas {D}.
Arguments m_refunded {D}.
Arguments m_t {D}.
Arguments m_logs {D}.
Arguments m_gasCost {D}.
Arguments m_isCreation {D}.
Arguments m_newAddress {D}.
Arguments m_savepoint {D}.
Definition set_m_s {D} (x : State D) (e : t D) : t D :=
  mk x (m_ext e) (m_output e) (m_res e) (m_depth e) (m_excepted e) (m_baseGasRequired e) (m_gas e) (m_refunded e) (m_t e) (m_logs e) (m_gasCost e) (m_isCreation e) (m_newAddress e) (m_savepoint e).
Definition set_m_ext {D} (x : option (ExtVM unit)) (e : t D) : t D :=
  mk (m_s e) x (m_output e) (m_res e) (m_depth e) (m_excepted e) (m_baseGasRequired e) (m_gas e) (m_refunded e) (m_t e) (m_logs e) (m_gasCost e) (m_isCreation e) (m_newAddress e) (m_savepoint e).
Definition set_m_output {D} (x : bytes) (e : t D) : t D :=
  mk (m_s e) (m_ext e) x (m_res e) (m_depth e) (m_excepted e) (m_baseGasRequired e) (m_gas e) (m_refunded e) (m_t e) (m_logs e) (m_gasCost e) (m_isCreation e) (m_newAddress e) (m_savepoint e).
Definition set_m_res {D} (x : option ExecutionResult) (e : t D) : t D :=
  mk (m_s e) (m_ext e) (m_output e) x (m_depth e) (m_excepted e) (m_baseGasRequired e) (m_gas e) (m_refunded e) (m_t e) (m_logs e) (m_gasCost e) (m_isCreation e) (m_newAddress e) (m_savepoint e).
Definition set_m_depth {D} (x : Z) (e : t D) : t D :=
  mk (m_s e) (m_ext e) (m_output e) (m_res e) x (m_excepted e) (m_baseGasRequired e) (m_gas e) (m_refunded e) (m_t e) (m_logs e) (m_gasCost e) (m_isCreation e) (m_newAddress e) (m_savepoint e).
Definition set_m_excepted {D} (x : TransactionException) (e : t D) : t D :=
  mk (m_s e) (m_ext e) (m_output e) (m_res e) (m_depth e) x (m_baseGasRequired e) (m_gas e) (m_refunded e) (m_t e) (m_logs e) (m_gasCost e) (m_isCreation e) (m_newAddress e) (m_savepoint e).
Definition set_m_baseGasRequired {D} (x : Z) (e : t D) : t D :=
  mk (m_s e) (m_ext e) (m_output e) (m_res e) (m_depth e) (m_excepted e) x (m_gas e) (m_refunded e) (m_t e) (m_logs e) (m_gasCost e) (m_isCreation e) (m_newAddress e) (m_savepoint e).
Definition set_m_gas {D} (x : Z) (e : t D) : t D :=
  mk (m_s e) (m_ext e) (m_output e) (m_res e) (m_depth e) (m_excepted e) (m_baseGasRequired e) x (m_refunded e) (m_t e) (m_logs e) (m_gasCost e) (m_isCreation e) (m_newAddress e) (m_savepoint e).
Definition set_m_refunded {D} (x : Z) (e : t D) : t D :=
  mk (m_s e) (m_ext e) (m_output e) (m_res e) (m_depth e) (m_excepted e) (m_baseGasRequired e) (m_gas e) x (m_t e) (m_logs e) (m_gasCost e) (m_isCreation e) (m_newAddress e) (m_savepoint e).
Definition set_m_t {D} (x : Transaction.t) (e : t D) : t D :=
  mk (m_s e) (m_ext e) (m_output e) (m_res e) (m_depth e) (m_excepted e) (m_baseGasRequired e) (m_gas e) (m_refunded e) x (m_logs e) (m_gasCost e) (m_isCreation e) (m_newAddress e) (m_savepoint e).
Definition set_m_logs {D} (x : list LogEntry) (e : t D) : t D :=
  mk (m_s e) (m_ext e) (m_output e) (m_res e) (m_depth e) (m_excepted e) (m_baseGasRequired e) (m_gas e) (m_refunded e) (m_t e) x (m_gasCost e) (m_isCreation e) (m_newAddress e) (m_savepoint e).
Definition set_m_gasCost {D} (x : Z) (e : t D) : t D :=
  mk (m_s e) (m_ext e) (m_output e) (m_res e) (m_depth e) (m_excepted e) (m_baseGasRequired e) (m_gas e) (m_refunded e) (m_t e) (m_logs e) x (m_isCreation e) (m_newAddress e) (m_savepoint e).
Definition set_m_isCreation {D} (x : bool) (e : t D) : t D :=
  mk (m_s e) (m_ext e) (m_output e) (m_res e) (m_depth e) (m_excepted e) (m_baseGasRequired e) (m_gas e) (m_refunded e) (m_t e) (m_logs e) (m_gasCost e) x (m_newAddress e) (m_savepoint e).
Definition set_m_newAddress {D} (x : bytes) (e : t D) : t D :=
  mk (m_s e) (m_ext e) (m_output e) (m_res e) (m_depth e) (m_excepted e) (m_baseGasRequired e) (m_gas e) (m_refunded e) (m_t e) (m_logs e) (m_gasCost e) (m_isCreation e) x (m_savepoint e).
Definition set_m_savepoint {D} (x : Z) (e : t D) : t D :=
  mk (m_s e) (m_ext e) (m_output e) (m_res e) (m_depth e) (m_excepted e) (m_baseGasRequired e) (m_gas e) (m_refunded e) (m_t e) (m_logs e) (m_gasCost e) (m_isCreation e) (m_newAddress e) x.

(** [Executive(_s, _level)] *)
Definition new {D} (_s : State D) (_level : Z) : t D :=
  mk _s None [] None _level NoException 0 0 0 Transaction.null [] 0 false (FixedHash.zero 20) 0.

Section Executive.
Context {D : Type} `{TD : !TrieDB D} `{PL : !Platform}.
Abbreviation M := (SE (t D)).

(** A member function of the state. *)
Definition in_s {A} (m : SE (State D) A) : M A := zoom m_s set_m_s m.

(** [setResultRecipient(_res)] *)
Definition setResultRecipient (_res : ExecutionResult) : M unit := modify (set_m_res (Some _res)).
(** [if (m_res) m_res->... = ...] *)
Definition with_res (f : t D -> ExecutionResult -> ExecutionResult) : M unit :=
  modify (fun e => set_m_res (f e <$> m_res e) e).

(** [gasUsed()] *)
Definition gasUsed_ (e : t D) : Z := u256 (Transaction.m_gas (m_t e) - m_gas e).

(** [accrueSubState(_parentContext)] *)
Definition accrueSubState (e : t D) (_parentContext : SubState) : SubState :=
  match m_ext e with Some x => SubState_add _parentContext (sub x) | None => _parentContext end.

(** [initialize(_transaction)] *)
Definition initialize (_transaction : Transaction.t) : M unit :=
  modify (set_m_t _transaction);;
  modify (set_m_baseGasRequired 0);;
  e ← gets id;
  if Transaction.m_gas (m_t e) <? m_baseGasRequired e then
    modify (set_m_excepted OutOfGasBase);; throw "Out Of Gas Base"
  else
    nonceReq ← (fun e => match in_s (getNonce (Transaction.sender (m_t e))) e with
                         | (Throw w, e') => (Throw w, set_m_excepted InvalidSignature e')
                         | r => r
                         end);
    let gasCost := Transaction.m_gas _transaction * Transaction.m_gasPrice _transaction in
    modify (set_m_gasCost (u256 gasCost)).

(** [call(_p, _gasPrice, _origin)] *)
Definition call_params (_p : CallParameters) (_gasPrice : Z) (_origin : bytes) : M bool :=
  tx ← gets m_t;
  when (Transaction.to_bool tx) (in_s (incNonce (senderAddress _p)));;
  sp ← in_s savepoint;
  modify (set_m_savepoint sp);;
  modify (set_m_gas (call_gas _p));;
  h ← in_s (addressHasCode (codeAddress _p));
  when h
    (c ← in_s (ScState.code (codeAddress _p));
     codeHash ← in_s (ScState.codeHash (codeAddress _p));
     depth ← gets m_depth;
     x ← in_s (ExtVM_new (receiveAddress _p) (senderAddress _p) _origin (apparentValue _p) _gasPrice
                 (call_data _p) c codeHash depth);
     modify (set_m_ext (Some (ScVm.set_m_s tt x))));;
  in_s (transferBalance (senderAddress _p) (receiveAddress _p) (valueTransfer _p));;
  gets (fun e => negb (bool_decide (is_Some (m_ext e)))).

(** [call(_receiveAddress, _senderAddress, _value, _gasPrice, _data, _gas)] *)
Definition call (_receiveAddress _senderAddress : bytes) (_value _gasPrice : Z) (_data : bytes) (_gas : Z) : M bool :=
  call_params (mkCall _senderAddress _receiveAddress _receiveAddress _value _value _gas _data) _gasPrice
    _senderAddress.

(** [create(_sender, _endowment, _gasPrice, _gas, _init, _origin, _myAddress)] *)
Definition create (_sender : bytes) (_endowment _gasPrice _gas : Z) (_init _origin _myAddress : bytes) : M bool :=
  in_s (incNonce _sender);;
  sp ← in_s savepoint;
  modify (set_m_savepoint sp);;
  modify (set_m_isCreation true);;
  modify (set_m_newAddress _myAddress);;
  modify (set_m_gas _gas);;
  in_s (transferBalance _sender _myAddress _endowment);;
  (if negb (size _init =? 0) then
     depth ← gets m_depth;
     x ← in_s (ExtVM_new _myAddress _sender _origin _endowment _gasPrice [] _init (sha3 _init) depth);
     modify (set_m_ext (Some (ScVm.set_m_s tt x)))
   else
     h ← in_s (addressHasCode _myAddress);
     when h (in_s (setNewCode _myAddress [])));;
  gets (fun e => negb (bool_decide (is_Some (m_ext e)))).

(** [execute()] *)
Definition execute : M bool :=
  e ← gets id;
  let tx := m_t e in
  let gas := u256 (Transaction.m_gas tx - u256 (m_baseGasRequired e)) in
  if Transaction.isCreation tx then
    create (Transaction.sender tx) (Transaction.m_value tx) (Transaction.m_gasPrice tx) gas
      (Transaction.m_data tx) (Transaction.sender tx) (Transaction.m_receiveAddress tx)
  else
    call (Transaction.m_receiveAddress tx) (Transaction.sender tx) (Transaction.m_value tx)
      (Transaction.m_gasPrice tx) (Transaction.m_data tx) gas.

(** [vm->exec(m_gas, *m_ext, _onOp)] on a new machine; [m_gas] is passed by
    reference. *)
Definition run_vm (fuel : nat) (onOp : bool) (x : ExtVM unit) : M bytes := fun e =>
  let (r, v) := exec fuel (new_VM (m_gas e) (ScVm.set_m_s (m_s e) x) onOp) in
  (r, set_m_gas (io_gas v) (set_m_ext (Some (ScVm.set_m_s tt (m_ctx v)))
        (set_m_s (ScVm.m_s (m_ctx v)) e))).

(** [revert()] *)
Definition revert : M unit :=
  modify (fun e => set_m_ext ((fun x => set_sub (SubState_clear (sub x)) x) <$> m_ext e) e);;
  modify (set_m_newAddress (FixedHash.zero 20));;
  sp ← gets m_savepoint;
  in_s (rollback sp).

(** The [try] block of [go]. *)
Definition go_try (fuel : nat) (onOp : bool) (x : ExtVM unit) : M unit :=
  creation ← gets m_isCreation;
  if (creation : bool) then
    out ← run_vm fuel onOp x;
    with_res (fun e r => mkResult (gasUsed r) (excepted r) (newAddress r) (output r) (codeDeposit r)
                           (gasRefunded r) (u32 (size out)) (m_gas e));;
    gas ← gets m_gas;
    let deposit := u64 (size out * createDataGas DefaultSchedule) in
    out ← (if maxCodeSize DefaultSchedule <? size out then throw "Out Of Gas"
           else if deposit <=? gas then
             with_res (fun e r => mkResult (gasUsed r) (excepted r) (newAddress r) (output r) DepositSuccess
                                    (gasRefunded r) (depositSize r) (gasForDeposit r));;
             modify (fun e => set_m_gas (u256 (m_gas e - deposit)) e);;
             mret out
           else if exceptionalFailedCodeDeposit DefaultSchedule then throw "Out Of Gas"
           else
             with_res (fun e r => mkResult (gasUsed r) (excepted r) (newAddress r) (output r) DepositFailed
                                    (gasRefunded r) (depositSize r) (gasForDeposit r));;
             mret []);
    with_res (fun e r => mkResult (gasUsed r) (excepted r) (newAddress r) out (codeDeposit r)
                           (gasRefunded r) (depositSize r) (gasForDeposit r));;
    in_s (setNewCode (myAddress x) out)
  else
    out ← run_vm fuel onOp x;
    modify (set_m_output out);;
    with_res (fun e r => mkResult (gasUsed r) (excepted r) (newAddress r) out (codeDeposit r)
                           (gasRefunded r) (depositSize r) (gasForDeposit r)).

(** [try { m; } catch (...) { h } return true] *)
Definition on_throw (m : M unit) (h : string -> M bool) : M bool := fun e =>
  match m e with
  | (Ok _, e') => (Ok true, e')
  | (Throw w, e') => h w e'
  | (r, e') => (recast r, e')
  end.

(** [go(_onOp)] *)
Definition go (fuel : nat) (onOp : bool) : M bool :=
  x ← gets m_ext;
  match x with
  | None => mret true
  | Some x =>
    on_throw (go_try fuel onOp x) (fun w =>
      if is_VMException w then
        modify (set_m_gas 0);; modify (set_m_excepted (toTransactionException w));; revert;; mret true
      else fail (Exit 1))
  end.

(** [for (auto a : m_ext->sub.suicides) m_s.kill(a)] *)
Fixpoint kill_all (l : list bytes) : M unit :=
  match l with
  | [] => mret tt
  | a :: l' => in_s (State_kill a);; kill_all l'
  end.

(** [finalize()]: [m_ext] is dereferenced whether it is set or not. *)
Definition finalize : M unit :=
  modify (fun e => set_m_ext ((fun x => set_sub (mkSub (suicides (sub x)) (logs (sub x))
    (u256 (refunds (sub x) + suicideRefundGas DefaultSchedule * Z.of_nat (base.size (suicides (sub x)))))) x)
    <$> m_ext e) e);;
  e ← gets id;
  match m_ext e with
  | None => undef "m_ext->sub of a null m_ext"
  | Some x =>
    let half := u256 (Transaction.m_gas (m_t e) - m_gas e) / 2 in
    let a := if half <? refunds (sub x) then half else refunds (sub x) in
    modify (set_m_refunded a);;
    modify (fun e => set_m_gas (u256 (m_gas e + a)) e);;
    e ← gets id;
    when (Transaction.to_bool (m_t e))
      (in_s (addBalance (Transaction.sender (m_t e)) (u256 (m_gas e * Transaction.m_gasPrice (m_t e)))));;
    kill_all (elements (suicides (sub x)));;
    modify (set_m_logs (logs (sub x)));;
    with_res (fun e r => mkResult (gasUsed_ e) (m_excepted e) (m_newAddress e) (output r) (codeDeposit r)
                           (refunds (sub x)) (depositSize r) (gasForDeposit r))
  end.

End Executive.
End Executive.

(** [enum class Permanence] *)
Inductive Permanence := Reverted | Committed.

Section Execute.
Context {D : Type} `{TD : !TrieDB D} `{PL : !Platform}.

(** The executive's part of [State::execute]: set up, run, settle. *)
Definition transact (fuel : nat) (onOp : bool) (_t : Transaction.t) : SE (Executive.t D) unit :=
  Executive.setResultRecipient default_result;;
  Executive.initialize _t;;
  done ← Executive.execute;
  (if negb done then _ ← Executive.go fuel onOp; mret tt else mret tt);;
  Executive.finalize.

(** [State::execute(_t, _p, _onOp)] *)
Definition State_execute (fuel : nat) (onOp : bool) (_t : Transaction.t) (_p : Permanence)
    : SE (State D) ExecutionResult := fun s =>
  match transact fuel onOp _t (Executive.new s 0) with
  | (Ok _, e) =>
    (match _p with
     | Reverted => modify (set_m_cache ∅)
     | Committed => commit KeepEmptyAccounts
     end;;
     mret (default default_result (Executive.m_res e))) (Executive.m_s e)
  | (r, e) => (recast r, Executive.m_s e)
  end.
End Execute.
