(* ===== verification/ScFace.v ===== *)
(** * From transaction outputs to contract transactions

    Model of [src/src/scface.h] and [src/src/scface.cpp]: class [SmartContract],
    which reads the fields of a contract transaction off the stack a script
    leaves, runs it on the account state and collects the refunds; of
    [CTransaction::HasCreateOrCall] and [HasOops]; of [CheckContractTx] and
    [CallContract] in [src/src/validation.cpp]; and of the scripts the wallet
    builds ([src/src/wallet/rpcwallet.cpp]).

    The conversion of a 256-bit integer to [CAmount] belongs to the
    multiprecision library and is a parameter. *)

From S2P Require Import Prelude Script Interpreter ScFixedHash ScInstruction ScVm ScTransaction ScState ScExtVm ScExecutive.
From Stdlib Require Import ZifyBool.

(** ** Transactions *)
Record CTxOut := mkTxOut { nValue : Z; scriptPubKey : bytes }.
(** Of a transaction the engine looks at the outputs. *)
Record CTransaction := mkTx { vout : list CTxOut }.

Definition HasCreateOrCall (tx : CTransaction) : bool :=
  existsb (fun v => CScript.HasOpCreate (scriptPubKey v) || CScript.HasOpCall (scriptPubKey v)) (vout tx).
Definition HasOops (tx : CTransaction) : bool :=
  existsb (fun v => CScript.HasOpOops (scriptPubKey v)) (vout tx).

(** ** [class SmartContract] *)
Inductive SmartContractFlags := ISCREATE | ISMESSAGECALL.
Record SmartContract := mkContract {
  flag : SmartContractFlags;
  contractAddress : bytes;
  callerAddress : bytes;
  fabCallerAddress : bytes;
  datahex : bytes;
  gasPrice : Z;
  gasLimit : Z;
  value : Z;
}.
Definition set_flag x c := mkContract x (contractAddress c) (callerAddress c) (fabCallerAddress c) (datahex c) (gasPrice c) (gasLimit c) (value c).
Definition set_contractAddress x c := mkContract (flag c) x (callerAddress c) (fabCallerAddress c) (datahex c) (gasPrice c) (gasLimit c) (value c).
Definition set_callerAddress x c := mkContract (flag c) (contractAddress c) x (fabCallerAddress c) (datahex c) (gasPrice c) (gasLimit c) (value c).
Definition set_fabCallerAddress x c := mkContract (flag c) (contractAddress c) (callerAddress c) x (datahex c) (gasPrice c) (gasLimit c) (value c).
Definition set_datahex x c := mkContract (flag c) (contractAddress c) (callerAddress c) (fabCallerAddress c) x (gasPrice c) (gasLimit c) (value c).
Definition set_gasPrice x c := mkContract (flag c) (contractAddress c) (callerAddress c) (fabCallerAddress c) (datahex c) x (gasLimit c) (value c).
Definition set_gasLimit x c := mkContract (flag c) (contractAddress c) (callerAddress c) (fabCallerAddress c) (datahex c) (gasPrice c) x (value c).
Definition set_value x c := mkContract (flag c) (contractAddress c) (callerAddress c) (fabCallerAddress c) (datahex c) (gasPrice c) (gasLimit c) x.

(** [stack.back()] and [stack.pop_back()]: the stack is listed from its top. *)
Definition back (l : list bytes) : outcome bytes :=
  match l with [] => Undef "back() of an empty vector" | v :: _ => Ok v end.
Definition pop_back (l : list bytes) : outcome (list bytes) :=
  match l with [] => Undef "pop_back() of an empty vector" | _ :: l => Ok l end.

(** [sc::h160(bytes)] *)
Definition h160 (b : bytes) : bytes := FixedHash.of_bytes 20 b.

(** [ParseStack(stack)]; it always returns true. *)
Definition ParseStack (st : list bytes) : SE SmartContract bool :=
  st ← lift_outcome (pop_back st);
  a ← lift_outcome (back st);
  modify (set_contractAddress (h160 a));;
  st ← lift_outcome (pop_back st);
  d ← lift_outcome (back st);
  modify (set_datahex d);;
  st ← lift_outcome (pop_back st);
  b ← lift_outcome (back st);
  p ← lift_outcome (CScriptNum.vch_to_uint64 b);
  modify (set_gasPrice p);;
  st ← lift_outcome (pop_back st);
  b ← lift_outcome (back st);
  g ← lift_outcome (CScriptNum.vch_to_uint64 b);
  modify (set_gasLimit g);;
  st ← lift_outcome (pop_back st);
  b ← lift_outcome (back st);
  modify (set_fabCallerAddress b);;
  modify (set_callerAddress (h160 b));;
  st ← lift_outcome (pop_back st);
  f ← gets flag;
  match f with
  | ISCREATE => modify (set_value 0);; mret true
  | ISMESSAGECALL =>
    b ← lift_outcome (back st);
    v ← lift_outcome (CScriptNum.vch_to_uint64 b);
    modify (set_value v);;
    _ ← lift_outcome (pop_back st);
    mret true
  end.

(** The iterations [VM::exec] is given for an amount of gas. *)
Definition iterations (gas : Z) : nat := Z.to_nat (2 * u64 gas + 4).

Section Exec.
Context {D : Type} `{TD : !TrieDB D} `{PL : !Platform} `{SC : !ScriptCrypto} (CAmount_of : Z -> Z).

(** The object, the global [pState] and the arguments passed by reference. *)
Record Env := mkEnv {
  obj : SmartContract;
  pState : State D;
  refundGasAmount : Z;
  vRefundGasFee : list CTxOut;
}.
Definition set_obj x e := mkEnv x (pState e) (refundGasAmount e) (vRefundGasFee e).
Definition set_pState x e := mkEnv (obj e) x (refundGasAmount e) (vRefundGasFee e).
Definition set_refundGasAmount x e := mkEnv (obj e) (pState e) x (vRefundGasFee e).
Definition set_vRefundGasFee x e := mkEnv (obj e) (pState e) (refundGasAmount e) x.
Definition in_obj {A} (m : SE SmartContract A) : SE Env A := zoom obj set_obj m.
Definition in_pState {A} (m : SE (State D) A) : SE Env A := zoom pState set_pState m.

(** [try { m } catch (...) { h }] *)
Definition catch_all {S} (m : SE S unit) (h : SE S unit) : SE S unit := fun s =>
  match m s with
  | (Throw _, s') => h s'
  | r => r
  end.

(** The transaction made from the fields. *)
Definition scTx (c : SmartContract) : Transaction.t :=
  Transaction.forceSender (callerAddress c)
    (Transaction.make (match flag c with ISCREATE => true | ISMESSAGECALL => false end) (value c) (gasPrice c) (gasLimit c)
       (contractAddress c) (datahex c) 0).

(** [CScript() << OP_DUP << OP_HASH160 << fabCallerAddress << OP_EQUALVERIFY << OP_CHECKSIG] *)
Definition refund_script (caller : bytes) : bytes :=
  CScript.push_data caller [OP_DUP; OP_HASH160] ++ [OP_EQUALVERIFY; OP_CHECKSIG].

Definition run_contract : SE Env unit :=
  c ← gets obj;
  oldHashStateRoot ← in_pState rootHash;
  catch_all
    (res ← in_pState (State_execute (iterations (gasLimit c)) false (scTx c) Committed);
     let refund := u256 (u256 (gasLimit c - gasUsed res) * gasPrice c) in
     modify (set_refundGasAmount refund);;
     when (0 <? refund)
       (modify (fun e => set_vRefundGasFee
          (vRefundGasFee e ++ [mkTxOut (CAmount_of refund) (refund_script (fabCallerAddress c))]) e)))
    (in_pState (setRoot oldHashStateRoot)).

(** One turn of the loop over the outputs. *)
Definition exec_output (out : CTxOut) : SE Env unit :=
  let s := scriptPubKey out in
  if CScript.HasOpCreate s || CScript.HasOpCall s then
    let '(r, st) := EvalScript SCRIPT_EXEC_BYTE_CODE BaseSignatureChecker SIGVERSION_BASE [] s in
    _ ← lift_outcome r;
    in_obj (modify (set_flag (if CScript.HasOpCreate s then ISCREATE else ISMESSAGECALL)));;
    ok ← in_obj (ParseStack st);
    if negb ok then mret tt else run_contract
  else mret tt.
Fixpoint exec_outputs (l : list CTxOut) : SE Env unit :=
  match l with
  | [] => mret tt
  | out :: l => exec_output out;; exec_outputs l
  end.

(** [TxContractExec(tx, refundGasAmount, vRefundGasFee, output)] *)
Definition TxContractExec (tx : CTransaction) : SE Env bool := exec_outputs (vout tx);; mret true.

(** [GetBlockContract(block, vRefundGasFee)]: [refundGasAmount] is a new variable
    for every transaction. *)
Fixpoint exec_block (vtx : list CTransaction) : SE Env unit :=
  match vtx with
  | [] => mret tt
  | tx :: l =>
    (if HasCreateOrCall tx then
       modify (set_refundGasAmount 0);;
       oldHashStateRoot ← in_pState rootHash;
       ok ← TxContractExec tx;
       if negb ok then in_pState (setRoot oldHashStateRoot) else mret tt
     else mret tt);;
    exec_block l
  end.
Definition GetBlockContract (vtx : list CTransaction) : SE Env bool :=
  exec_block vtx;;
  in_pState (commit RemoveEmptyAccounts);;
  mret true.

(** ** [CheckContractTx], [CallContract] *)

(** [CheckContractRefundFee]: the first statement returns. *)
Definition CheckContractRefundFee (vtx : list CTransaction) (fees : list CTxOut) : bool := true.

(** A block: the part of its header that is hashed, the state root in it and the
    transactions.  [checkBlock] is a copy with the same header. *)
Record CBlock := mkBlock { header : bytes; hashStateRoot : bytes; vtx : list CTransaction }.
Definition default_contract : SmartContract := mkContract ISCREATE (FixedHash.zero 20) (FixedHash.zero 20) [] [] 0 0 0.

(** [CheckContractTx(block, state, hasContract)]: the reason of rejection, if any;
    [GetHash] is the hash of a header. *)
Definition CheckContractTx (GetHash : bytes -> bytes) (block : CBlock) (hasContract : bool) : SE (State D) (option string) := fun s =>
  if negb hasContract then (Ok None, s) else
  (oldHashStateRoot ← rootHash;
   let checkBlock := block in
   let reject reason := setRoot oldHashStateRoot;; mret (Some reason) in
   s ← gets id;
   match GetBlockContract (vtx checkBlock) (mkEnv default_contract s 0 []) with
   | (Ok ok, e) =>
     modify (fun _ => pState e);;
     if negb ok then reject "bad-contract when connecting block"%string
     else if negb (CheckContractRefundFee (vtx block) (vRefundGasFee e)) then reject "bad-contract-refund when connecting block"%string
     else
       r ← rootHash;
       if negb (bool_decide (hashStateRoot block = r)) then reject "bad-txnstateroot when connecting block"%string
       else if negb (bool_decide (GetHash (header checkBlock) = GetHash (header block)))
       then reject "bad-proofhash when connecting block"%string
       else mret None
   | (r, e) => fun _ => (recast r, pState e)
   end) s.

(** [CallContract(scAddr, opcode, output, fStateChange)]: the output, when it
    returns true. *)
Definition attempt {S A} (m : SE S A) : SE S (option A) := fun s =>
  match m s with
  | (Ok a, s') => (Ok (Some a), s')
  | (Throw _, s') => (Ok None, s')
  | (r, s') => (recast r, s')
  end.
Definition CallContract (minerAddress scAddr opcode : bytes) (fStateChange : bool) : SE (State D) (option bytes) :=
  oldHashStateRoot ← rootHash;
  let tx := Transaction.forceSender (h160 minerAddress) (Transaction.make false 0 25 25000000 scAddr opcode 0) in
  r ← attempt (State_execute (iterations 25000000) false tx Committed);
  match r with
  | None => setRoot oldHashStateRoot;; mret None
  | Some r => when (negb fStateChange) (setRoot oldHashStateRoot);; mret (Some (output r))
  end.
End Exec.

(** ** The scripts of the wallet *)

(** [CScript() << originAddress << CScriptNum(nGasLimit) << CScriptNum(nGasPrice) <<
    bytecode << contractAddress << OP_CREATE] *)
Definition create_script (originAddress : bytes) (nGasLimit nGasPrice : Z) (bytecode contractAddress : bytes) : outcome bytes :=
  let s := CScript.push_data originAddress [] in
  s ← CScript.push_num nGasLimit s;
  s ← CScript.push_num nGasPrice s;
  let s := CScript.push_data bytecode s in
  let s := CScript.push_data contractAddress s in
  CScript.push_opcode OP_CREATE s.

(** [CScript() << CScriptNum(nAmount) << callerAddress << CScriptNum(nGasLimit) <<
    CScriptNum(nGasPrice) << datahex << contractAddress << OP_CALL] *)
Definition call_script (nAmount : Z) (callerAddress : bytes) (nGasLimit nGasPrice : Z) (datahex contractAddress : bytes) : outcome bytes :=
  s ← CScript.push_num nAmount [];
  let s := CScript.push_data callerAddress s in
  s ← CScript.push_num nGasLimit s;
  s ← CScript.push_num nGasPrice s;
  let s := CScript.push_data datahex s in
  let s := CScript.push_data contractAddress s in
  CScript.push_opcode OP_CALL s.
