(* ===== verification/ScVmThms.v ===== *)
(** * Theorems about the virtual machine

    The main properties of [VM::exec], of the code optimiser, of the metering and
    of the word arithmetic, with concrete runs over a concrete account state. *)

From S2P Require Import Prelude ScFixedHash ScSha3 ScRlp ScState ScStateView ScStateOps ScStateRun ScVersions ScExtVm.
From S2P Require Import ScInstruction ScVm ScVmLogic ScVmArith ScVmSafe ScVmOpt ScVmRun ScVmSim.
From Stdlib Require Import ZifyBool.
Import Instruction.

(** ** A concrete machine *)
#[local] Instance sample_platform : Platform.
Proof.
  refine {| oob_tierStepGas := 0; u160_view := fun _ => 0 |}; intros; unfold in_range; lia.
Defined.

(** A call of the contract of [alice] by [bob] with the given code. *)
Definition sample_context (c : bytes) : ExtVM (State Versions.db) :=
  mkExt alice bob bob 0 1 [] c (sha3 c) (mkSub ∅ [] 0) 0 funded_state.

Lemma address_ok v : bytes_ok (FixedHash.of_arith 20 v) /\ length (FixedHash.of_arith 20 v) = 20%nat.
Proof. split; [apply toBigEndian_bytes_ok|apply length_toBigEndian]. Qed.

Lemma sample_context_ok c : bytes_ok c -> size c < 2 ^ 62 -> ext_inv (sample_context c).
Proof.
  intros Hc Hs. split; cbn [sample_context m_s myAddress caller origin value gasPrice data code].
  - apply funded_state_ok.
  - intros E. vm_compute in E. discriminate E.
  - eexists. split; [vm_compute; reflexivity|reflexivity].
  - unfold in_range. lia.
  - unfold in_range. lia.
  - split; [simpl; lia|constructor].
  - by split.
  - apply address_ok.
  - apply address_ok.
  - apply address_ok.
Qed.

(** [PUSH1 5; PUSH1 3; ADD; PUSH1 0; MSTORE; PUSH1 32; PUSH1 0; RETURN] *)
Definition sample_code : bytes :=
  [0x60; 5; 0x60; 3; 0x01; 0x60; 0; 0x52; 0x60; 32; 0x60; 0; 0xf3].

(** The instructions of a code, to decide [metered]. *)
Fixpoint starts (fuel : nat) (c : bytes) (pc : Z) : list Z :=
  match fuel with
  | O => []
  | S f => if pc <? size c then pc :: starts f c (pc + instr_len (nthz c pc)) else [pc]
  end.
Lemma starts_complete c : forall fuel pc q, boundary c pc -> boundary c q -> pc <= q -> size c - pc < Z.of_nat fuel ->
  q ∈ starts fuel c pc \/ size c <= q.
Proof.
  induction fuel as [|f IH]; intros pc q Hp Hq Hle Hf; [right; lia|]. cbn [starts].
  destruct (Z.ltb_spec pc (size c)) as [Hlt|]; [|right; lia].
  destruct (Z.eq_dec pc q) as [->|Hne]; [left; by left|].
  pose proof (boundary_gap c pc q Hp Hq ltac:(lia)). pose proof (instr_len_range (nthz c pc)).
  destruct (IH (pc + instr_len (nthz c pc)) q) as [Hin|]; [by constructor|done|lia|lia|left; by right|by right].
Qed.
Definition metered_check (c : bytes) : bool :=
  forallb (fun q => match of_byte (nthz c q) with STATICCALL | REVERT => false | _ => true end)
    (starts (S (length c)) c 0).
Lemma metered_check_ok c : metered_check c = true -> metered c.
Proof.
  intros H q Hq. pose proof (boundary_nonneg _ _ Hq).
  destruct (starts_complete c (S (length c)) 0 q) as [Hin|Hge]; [constructor|done|lia|lia| |].
  - unfold metered_check in H. rewrite forallb_forall in H. apply list_elem_of_In, H in Hin.
    by destruct (of_byte (nthz c q)).
  - by rewrite nthz_beyond.
Qed.

(** ** Execution *)

(** C1: [exec] of any code, over any context that keeps the promises of
    [ExtVMLaws], terminates: with [2 * gas + 4] iterations of the bounce loop it
    returns or throws, it never runs off the stack, the memory, the code or the
    constant pool and never fails an assertion; it hands back at most the gas it
    was given, an output made of bytes, and a context that still keeps its
    promises.  The code must hold no [STATICCALL] or [REVERT] instruction: the
    table has no metric for them. *)
Theorem exec_safe {W} `{EX : !ExtVMOps W} `{EL : !ExtVMLaws W} `{PL : !Platform}
  (gas : Z) (e : ExtVM W) (onOp : bool) (fuel : nat) :
  ext_inv e -> metered (code e) -> 0 <= gas -> 2 * u64 gas + 4 <= Z.of_nat fuel ->
  match exec fuel (new_VM gas e onOp) with
  | (Ok out, s') => bytes_ok out /\ 0 <= io_gas s' <= gas /\ ext_inv (m_ctx s')
  | (Throw _, s') => 0 <= io_gas s' <= gas
  | _ => False
  end.
Proof.
  intros He Hm Hg Hf. pose proof (exec_ok gas e onOp fuel He Hm Hg Hf) as H. unfold wp in H.
  destruct (exec fuel _) as [[] s']; cbn in H; try by destruct H as [[w [=]] _].
  - exact H.
  - apply H.
Qed.

Lemma exec_safe_witness :
  match exec 210 (new_VM 100 (sample_context sample_code) false) with
  | (Ok out, s') => bytes_ok out /\ 0 <= io_gas s' <= 100 /\ ext_inv (m_ctx s')
  | (Throw _, s') => 0 <= io_gas s' <= 100
  | _ => False
  end.
Proof.
  apply (exec_safe 100 (sample_context sample_code) false 210).
  - apply sample_context_ok; [by apply bytes_ok_check|simpl; lia].
  - apply metered_check_ok. vm_compute. reflexivity.
  - lia.
  - vm_compute. discriminate.
Defined.

(** C2: the optimiser does not change what a contract does.  A run of [exec] on
    the optimised code (constant pool, verified constant jumps) gives the result,
    the gas left, the context with the account state, the memory and the stack of
    a run on the code in which only the internal instructions were disarmed; the
    one exception is a constant [JUMPI] whose condition is missing from the
    stack, where the plain run throws [Bad Stack] and the optimised one throws
    [Bad Stack] or [Out Of Gas]. *)
Theorem optimiser_transparent {W} `{EX : !ExtVMOps W} `{EL : !ExtVMLaws W} `{PL : !Platform}
  (gas : Z) (e : ExtVM W) (onOp : bool) (fuel : nat) :
  ext_inv e -> metered (code e) -> 0 <= gas -> 2 * u64 gas + 4 <= Z.of_nat fuel ->
  let x := exec (S fuel) (new_VM gas e onOp) in
  let y := exec_with disarm fuel (new_VM gas e false) in
  observed x = observed y \/
  (fst y = Throw "Bad Stack" /\ (fst x = Throw "Bad Stack" \/ fst x = Throw "Out Of Gas")).
Proof. apply exec_sim. Qed.

Lemma optimiser_transparent_witness :
  let x := exec 211 (new_VM 100 (sample_context sample_code) false) in
  let y := exec_with disarm 210 (new_VM 100 (sample_context sample_code) false) in
  observed x = observed y \/
  (fst y = Throw "Bad Stack" /\ (fst x = Throw "Bad Stack" \/ fst x = Throw "Out Of Gas")).
Proof.
  apply (optimiser_transparent 100 (sample_context sample_code) false 210).
  - apply sample_context_ok; [by apply bytes_ok_check|simpl; lia].
  - apply metered_check_ok. vm_compute. reflexivity.
  - lia.
  - vm_compute. discriminate.
Defined.

(** [PUSH1 3; JUMPI; JUMPDEST]: a jump without its condition. *)
Definition underrun_code : bytes := [0x60; 3; 0x57; 0x5b].

(** The metric of [JUMPCI] counts one argument although the instruction takes
    two, so the optimised run of a constant [JUMPI] without condition reads below
    the stack and pays for the jump, while the plain run of the same code throws
    at once: the two leave different gas to the caller. *)
Theorem jumpci_underrun_costs_gas :
  let x := exec 300 (new_VM 100 (sample_context underrun_code) false) in
  let y := exec_with disarm 300 (new_VM 100 (sample_context underrun_code) false) in
  fst x = Throw "Bad Stack" /\ fst y = Throw "Bad Stack" /\ io_gas (snd x) < io_gas (snd y).
Proof. vm_compute. by repeat split. Qed.

(** ** The optimiser *)

(** [optimize] returns for every code.  The jump table it builds makes
    [verifyJumpDest] accept exactly the offsets of [JUMPDEST] instructions of the
    code, bytes inside the operand of a push being no instructions; and every
    instruction of the code is kept, or is a push of the same value through the
    constant pool, or a jump to the verified destination pushed just before it. *)
Theorem optimize_correct {W} `{EX : !ExtVMOps W} `{PL : !Platform} (s : VM W) :
  let c := code (m_ctx s) in
  bytes_ok c -> size c < 2 ^ 63 -> m_jumpDests s = [] ->
  exists c' pool jd,
    optimize s = (Ok tt, set_m_code c' (set_m_pool pool (set_m_jumpDests jd s))) /\
    (forall d, 0 <= d -> is_jumpdest c d /\ jump_dest jd d = d \/ ~ is_jumpdest c d /\ jump_dest jd d = -1) /\
    (forall q, boundary c q -> q < size c -> opt_at c jd pool c' q) /\
    (forall q, boundary c q -> size c <= q -> nthz c' q = to_byte STOP).
Proof.
  intros c Hc Hs Hj.
  assert (wp optimize (fun _ s' => exists c' pool jd, opt_ok c jd pool c' /\
    s' = set_m_code c' (set_m_pool pool (set_m_jumpDests jd s))) (fun _ _ => False) s) as H.
  { apply optimize_ok; [done|done|]. intros. eauto 6. }
  unfold wp in H. destruct (optimize s) as [[[]| | | | |] s']; try done.
  destruct H as (c' & pool & jd & Ho & ->). exists c', pool, jd. split; [done|]. split; [|split].
  - intros d Hd. by apply jump_dest_spec; [apply Ho| |].
  - apply Ho.
  - apply Ho.
Qed.

Lemma optimize_correct_witness :
  exists c' pool jd,
    optimize (new_VM 9 (sample_context sample_code) false)
      = (Ok tt, set_m_code c' (set_m_pool pool (set_m_jumpDests jd (new_VM 9 (sample_context sample_code) false)))) /\
    (forall d, 0 <= d -> is_jumpdest sample_code d /\ jump_dest jd d = d \/
       ~ is_jumpdest sample_code d /\ jump_dest jd d = -1) /\
    (forall q, boundary sample_code q -> q < size sample_code -> opt_at sample_code jd pool c' q) /\
    (forall q, boundary sample_code q -> size sample_code <= q -> nthz c' q = to_byte STOP).
Proof.
  apply (optimize_correct (new_VM 9 (sample_context sample_code) false)).
  - by apply bytes_ok_check.
  - simpl. lia.
  - reflexivity.
Defined.

(** ** Memory *)

(** [updateMem] grows the memory to the request rounded up to words and adds
    to the gas of the instruction exactly the difference of the quadratic memory
    prices and the price of the words copied, although the source computes them
    in 64 and 512 bits; or it throws [Out Of Gas] and the memory is as before. *)
Theorem updateMem_exact {W} `{EX : !ExtVMOps W} `{PL : !Platform} (s : VM W) :
  schedule_ok evmSchedule ->
  0 <= m_newMemSize s < 2 ^ 64 - 32 -> size (m_mem s) < 2 ^ 64 ->
  0 <= m_runGas s < 2 ^ 62 -> 0 <= m_copyMemSize s < 2 ^ 62 ->
  match updateMem s with
  | (Ok _, s') =>
      m_mem s' = m_mem s ++ replicate (Z.to_nat (round32 (m_newMemSize s)) - length (m_mem s)) 0 /\
      m_runGas s' = m_runGas s + memGas s /\ m_runGas s' <= m_io_gas s' /\ m_io_gas s' = m_io_gas s
  | (Throw w, s') => w = "Out Of Gas" /\ m_mem s' = m_mem s /\ m_io_gas s' = m_io_gas s
  | _ => False
  end.
Proof.
  intros SOK Hn Hm Hr Hc.
  assert (wp updateMem (fun _ s' =>
      m_mem s' = m_mem s ++ replicate (Z.to_nat (round32 (m_newMemSize s)) - length (m_mem s)) 0 /\
      m_runGas s' = m_runGas s + memGas s /\ m_runGas s' <= m_io_gas s' /\ m_io_gas s' = m_io_gas s)
    (fun r s' => r = Throw "Out Of Gas" /\ m_mem s' = m_mem s /\ m_io_gas s' = m_io_gas s) s) as H.
  { apply wp_updateMem; auto; try lia.
    - pose proof (so_copy _ SOK). assert ((m_copyMemSize s + 31) / 32 <= 2 ^ 58).
      { apply Z.div_le_upper_bound; lia. }
      assert (0 <= (m_copyMemSize s + 31) / 32) by (apply Z.div_pos; lia). nia. }
  unfold wp in H. destruct (updateMem s) as [[] s']; cbn in H; try by destruct H as [[=] _].
  - exact H.
  - by destruct H as [[= ->] H].
Qed.

(** A request of 100 bytes. *)
Definition growing : VM (State Versions.db) :=
  set_m_io_gas 1000 (set_m_newMemSize 100 (new_VM 1000 (sample_context sample_code) false)).
Lemma updateMem_exact_witness :
  match updateMem growing with
  | (Ok _, s') =>
      m_mem s' = m_mem growing ++ replicate (Z.to_nat (round32 (m_newMemSize growing)) - length (m_mem growing)) 0 /\
      m_runGas s' = m_runGas growing + memGas growing /\ m_runGas s' <= m_io_gas s' /\ m_io_gas s' = m_io_gas growing
  | (Throw w, s') => w = "Out Of Gas" /\ m_mem s' = m_mem growing /\ m_io_gas s' = m_io_gas growing
  | _ => False
  end.
Proof.
  apply (updateMem_exact growing); [apply DefaultSchedule_ok|simpl; lia..].
Defined.

(** ** Words *)

(** Square-and-multiply over 256-bit words gives the power modulo [2^256], in
    at most 256 iterations. *)
Theorem exp256_power (b e : Z) : in_range 256 e -> exp256 b e = b ^ e mod 2 ^ 256.
Proof. apply exp256_spec. Qed.
Lemma exp256_power_witness : exp256 3 300 = 3 ^ 300 mod 2 ^ 256.
Proof. apply (exp256_power 3 300). unfold in_range. lia. Defined.

(** [SDIV] and [SMOD] are the quotient truncated towards zero and its
    remainder in two's complement, zero for a zero divisor, and the one overflow
    [-2^255 / -1] wraps to [-2^255]. *)
Theorem signed_division (a b : Z) : in_range 256 a -> in_range 256 b ->
  op_SDIV a b = (if b =? 0 then 0 else Z.quot (u2s a) (u2s b) mod 2 ^ 256) /\
  op_SMOD a b = (if b =? 0 then 0 else Z.rem (u2s a) (u2s b) mod 2 ^ 256) /\
  op_SDIV (2 ^ 255) (2 ^ 256 - 1) = 2 ^ 255.
Proof.
  intros Ha Hb. split; [|split; [|reflexivity]].
  - destruct (Z.eqb_spec b 0) as [->|]; [done|]. by apply op_SDIV_spec.
  - destruct (Z.eqb_spec b 0) as [->|]; [done|]. by apply op_SMOD_spec.
Qed.
Lemma signed_division_witness :
  op_SDIV (2 ^ 256 - 7) 2 = (if 2 =? 0 then 0 else Z.quot (u2s (2 ^ 256 - 7)) (u2s 2) mod 2 ^ 256) /\
  op_SMOD (2 ^ 256 - 7) 2 = (if 2 =? 0 then 0 else Z.rem (u2s (2 ^ 256 - 7)) (u2s 2) mod 2 ^ 256) /\
  op_SDIV (2 ^ 255) (2 ^ 256 - 1) = 2 ^ 255.
Proof. apply (signed_division (2 ^ 256 - 7) 2); unfold in_range; lia. Defined.

(** [SIGNEXTEND a x] repeats the sign of the [a+1] low bytes of [x] over the
    whole word: it is their two's complement value modulo [2^256], and [x] itself
    from [a = 31] on. *)
Theorem signextend_value (a x : Z) : 0 <= a -> in_range 256 x ->
  op_SIGNEXTEND a x = if a <? 31 then signed_low (8 * (a + 1)) x mod 2 ^ 256 else x.
Proof. apply op_SIGNEXTEND_spec. Qed.
Lemma signextend_value_witness :
  op_SIGNEXTEND 0 0x80 = if 0 <? 31 then signed_low (8 * (0 + 1)) 0x80 mod 2 ^ 256 else 0x80.
Proof. apply (signextend_value 0 0x80); unfold in_range; lia. Defined.

(** [BYTE a x] is byte [a] of the big-endian word, counted from the most
    significant one, and zero past its end. *)
Theorem byte_of_word (a x : Z) : 0 <= a -> op_BYTE a x = nth (Z.to_nat a) (toBigEndian 32 x) 0.
Proof. apply op_BYTE_spec. Qed.
Lemma byte_of_word_witness : op_BYTE 31 0x1234 = nth (Z.to_nat 31) (toBigEndian 32 0x1234) 0.
Proof. apply (byte_of_word 31 0x1234). lia. Defined.

(** [CALLDATALOAD] reads the 32 bytes of the call data at any 256-bit offset,
    as if the data were followed by zeros: no offset overflows. *)
Theorem calldataload_reads (d : bytes) (a : Z) : in_range 256 a -> size d < 2 ^ 63 ->
  calldataload d a = FixedHash.to_arith 32 (take 32 (drop (Z.to_nat a) d ++ replicate 32 0)).
Proof. apply calldataload_spec. Qed.
Lemma calldataload_reads_witness :
  calldataload [1; 2; 3] 1 = FixedHash.to_arith 32 (take 32 (drop (Z.to_nat 1) [1; 2; 3] ++ replicate 32 0)).
Proof. apply (calldataload_reads [1; 2; 3] 1); [unfold in_range; lia|simpl; lia]. Defined.

(** Bits below and above bit [n]. *)
Lemma lor_low n x y : 0 <= n -> 0 <= x < 2 ^ n -> Z.lor x (Z.shiftl y n) = x + y * 2 ^ n.
Proof.
  intros Hn Hx. rewrite <- Z.shiftl_mul_pow2 by lia.
  assert (Z.land x (Z.shiftl y n) = 0) as Hl.
  { apply Z.bits_inj'. intros i Hi. rewrite Z.land_spec, Z.bits_0.
    destruct (Z.ltb_spec i n); [rewrite Z.shiftl_spec_low by lia; apply andb_false_r|].
    rewrite Z.testbit_odd, Z.shiftr_div_pow2, Z.div_small; [done| |lia].
    split; [lia|]. eapply Z.lt_le_trans; [apply Hx|]. apply Z.pow_le_mono_r; lia. }
  rewrite <- Z.lxor_lor by exact Hl. symmetry. by apply Z.add_nocarry_lxor.
Qed.

(** The 32-bit header of a contract's version is read back from its packed
    form, field by field, and packing what was read gives the same 32 bits. *)
Theorem version_roundtrip (v : VersionVM) :
  in_range 2 (format v) -> in_range 6 (rootVM v) -> in_range 8 (vmVersion v) -> in_range 16 (flagOptions v) ->
  fromRaw (toRaw v) = v /\ in_range 32 (toRaw v).
Proof.
  destruct v as [a b c d]. unfold in_range. cbn [format rootVM vmVersion flagOptions]. intros Ha Hb Hc Hd.
  assert (toRaw (mkVersion a b c d) = a + 4 * b + 256 * c + 65536 * d) as E.
  { unfold toRaw. cbn [format rootVM vmVersion flagOptions].
    replace (Z.shiftl d 16) with (Z.shiftl (Z.shiftl d 8) 8) by (by rewrite Z.shiftl_shiftl).
    rewrite <- Z.shiftl_lor, (lor_low 8 c) by lia.
    replace (Z.shiftl (c + d * 2 ^ 8) 8) with (Z.shiftl (Z.shiftl (c + d * 2 ^ 8) 6) 2) by (by rewrite Z.shiftl_shiftl).
    rewrite <- Z.shiftl_lor, (lor_low 6 b), (lor_low 2 a) by lia. lia. }
  rewrite E. split; [|lia]. unfold fromRaw.
  change 3 with (Z.ones 2). change 63 with (Z.ones 6). change 255 with (Z.ones 8). change 65535 with (Z.ones 16).
  rewrite !Z.land_ones, !Z.shiftr_div_pow2 by lia. f_equal; Z.to_euclidean_division_equations; lia.
Qed.

Lemma version_roundtrip_witness :
  fromRaw (toRaw GetEVMDefault) = GetEVMDefault /\ in_range 32 (toRaw GetEVMDefault).
Proof. apply (version_roundtrip GetEVMDefault); unfold in_range; simpl; lia. Defined.
