(* ===== verification/ScExecutiveRun.v ===== *)
(** * What executing a transaction does

    Theorems about [Executive] and [State::execute]: which outcomes a transaction
    can have, what a call leaves in the account state, and how gas is settled. *)

From S2P Require Import Prelude ScFixedHash ScSha3 ScRlp ScState ScStateView ScVersions ScStateOps ScStateRun ScCommit.
From S2P Require Import ScInstruction ScVm ScVmLogic ScVmOpt ScVmRun ScTransaction ScExtVm ScExecutive.
From Stdlib Require Import ZifyBool.
Local Opaque EmptySHA3 EmptyTrie sha3.

Section Run.
Context {D : Type} `{TD : !TrieDB D} `{TL : !TrieLaws D} `{PL : !Platform}.
Implicit Types (s : State D) (e : Executive.t D).
Import Executive.

(** ** The machine on the account state *)

(** A run of the machine changes the storage of its own account only. *)
Lemma exec_contained gas (x : ExtVM (State D)) onOp fuel : context_ok x -> suicides (sub x) = ∅ ->
  metered (code x) -> 0 <= gas -> 2 * u64 gas + 4 <= Z.of_nat fuel ->
  match exec fuel (new_VM gas x onOp) with
  | (Ok out, v) => bytes_ok out /\ 0 <= io_gas v <= gas /\ contained (ScVm.m_s x) (myAddress x) (m_ctx v)
  | (Throw _, v) => 0 <= io_gas v <= gas
  | _ => False
  end.
Proof.
  intros Hx Hu Hm Hg Hf.
  pose proof (exec_ok (EL := contained_laws (ScVm.m_s x) (myAddress x)) gas x onOp fuel
    (contained_start x Hx Hu) Hm Hg Hf) as H. unfold wp in H.
  destruct (exec fuel _) as [[] v]; cbn in H; try by destruct H as [[w [=]] _].
  - exact H.
  - apply H.
Qed.

(** ** Changes of the state by the executive *)
Lemma in_s_run {A} (m : SE (State D) A) e r s' : m (m_s e) = (r, s') -> in_s m e = (r, set_m_s s' e).
Proof. intros E. unfold in_s, zoom. by rewrite E. Qed.

(** A credited account is in the cache, changed. *)
Lemma addBalance_dirty a v s s' : state_ok s -> m_accountStartNonce s <> Invalid256 ->
  addBalance a v s = (Ok tt, s') -> exists x, m_cache s' !! a = Some x /\ isDirty x = true.
Proof.
  intros Hs Hst. destruct (account_spec a s Hs) as (s1 & E1 & Hq & Hin).
  unfold addBalance. rewrite (SE_bind_ok _ _ _ _ _ E1). destruct (here s1 a) as [x|] eqn:Ex.
  - intros E. apply SE_bind_inv in E as ([] & s2 & E2 & E3). apply SE_bind_inv in E2 as ([] & s3 & E4 & E5).
    injection E5 as <-. exists (Account_addBalance v x). split; [|reflexivity].
    revert E3. unfold when, log, modify. case_match; intros [= <-]; simpl; apply lookup_insert_eq.
  - intros E. apply SE_bind_inv in E as ([] & s2 & E2 & E3). apply SE_bind_inv in E2 as (n & s3 & E4 & E5).
    unfold createAccount in E5. apply SE_bind_inv in E5 as (u & s4 & E6 & E5).
    apply SE_bind_inv in E5 as ([] & s5 & E7 & E5). injection E5 as <-.
    exists (Account_alive n v). split; [|reflexivity].
    revert E3. unfold when, log, modify. case_match; intros [= <-]; simpl; apply lookup_insert_eq.
Qed.

Lemma transferBalance_dirty f t v s s' : state_ok s -> m_accountStartNonce s <> Invalid256 -> in_range 256 v ->
  transferBalance f t v s = (Ok tt, s') -> exists x, m_cache s' !! t = Some x /\ isDirty x = true.
Proof.
  intros Hs Hst Hv E. unfold transferBalance in E. apply SE_bind_inv in E as ([] & s1 & E1 & E2).
  pose proof (subBalance_spec f v s Hs Hv) as H. destruct (_ || _).
  - destruct H as (s1' & l & E1' & Hc & _). rewrite E1 in E1'. injection E1' as <-.
    eapply addBalance_dirty; [apply Hc| |exact E2]. by rewrite (ch_start _ _ _ Hc).
  - destruct H as (s1' & E1' & _). rewrite E1 in E1'. discriminate E1'.
Qed.

(** ** Setting up a call *)

(** A nonce is not seen in balances and codes. *)
Lemma nonce_unseen n a V b :
  view_balance (view_incNonce n a V) b = view_balance V b /\
  view_code (view_incNonce n a V) b = view_code V b /\
  view_codeHash (view_incNonce n a V) b = view_codeHash V b.
Proof.
  unfold view_incNonce, view_balance, view_code, view_codeHash. destruct (vb V a) eqn:E; simpl.
  - destruct (decide (b = a)) as [->|]; [rewrite E|]; repeat split.
  - destruct (decide (b = a)) as [->|]; [rewrite E|]; repeat split.
Qed.

Lemma same_view_codes V W b : veq V W ->
  view_balance V b = view_balance W b /\ view_code V b = view_code W b /\ view_codeHash V b = view_codeHash W b.
Proof. intros [H _]. unfold view_balance, view_code, view_codeHash. by rewrite H. Qed.

#[global] Instance view_addBalance_proper n a v : Proper (veq ==> veq) (view_addBalance n a v).
Proof.
  intros V W H. unfold view_addBalance. rewrite (proj1 H a). destruct (vb W a); by rewrite H.
Qed.
#[global] Instance view_incNonce_proper n a : Proper (veq ==> veq) (view_incNonce n a).
Proof.
  intros V W H. unfold view_incNonce. rewrite (proj1 H a). destruct (vb W a); by rewrite H.
Qed.

(** The accounts after the sender's nonce was counted and the value moved. *)
Definition view_paid (start : Z) (f t : bytes) (v : Z) (V : View) : View :=
  view_addBalance start t v (upd_basic f (fun b => with_balance (b_balance b - v) b) (view_incNonce start f V)).

Definition has_code (V : View) (a : bytes) : bool := negb (FixedHash.eqb (view_codeHash V a) EmptySHA3).
Definition affords (V : View) (f : bytes) (v : Z) : bool := (v =? 0) || (v <=? view_balance V f).

(** The context of a call. *)
Definition call_context (V : View) (tx : Transaction.t) (d : Z) : ExtVM unit :=
  let to := Transaction.m_receiveAddress tx in
  mkExt to (Transaction.m_sender tx) (Transaction.m_sender tx) (Transaction.m_value tx) (Transaction.m_gasPrice tx)
    (Transaction.m_data tx) (view_code V to) (view_codeHash V to) (mkSub ∅ [] 0) d tt.

(** What the code part of [call] does. *)
Lemma call_code tx e : state_ok (m_s e) -> has_code (view (m_s e)) (Transaction.m_receiveAddress tx) = true ->
  let to := Transaction.m_receiveAddress tx in
  exists s', quiet (m_s e) s' /\
    (c ← in_s (ScState.code to);
     codeHash ← in_s (ScState.codeHash to);
     depth ← gets m_depth;
     x ← in_s (ExtVM_new to (Transaction.m_sender tx) (Transaction.m_sender tx) (Transaction.m_value tx)
                 (Transaction.m_gasPrice tx) (Transaction.m_data tx) c codeHash depth);
     modify (set_m_ext (Some (ScVm.set_m_s tt x)))) e
    = (Ok tt, set_m_ext (Some (call_context (view (m_s e)) tx (m_depth e))) (set_m_s s' e)).
Proof.
  intros Hs Hc to. destruct (code_spec to (m_s e) Hs) as (s1 & E1 & Hq1).
  destruct (codeHash_spec to s1 (q_ok _ _ Hq1)) as (s2 & E2 & Hq2).
  destruct (addressInUse_spec to s2 (q_ok _ _ Hq2)) as (s3 & E3 & Hq3).
  pose proof (same_view_codes _ _ to (q_view _ _ Hq1)) as (_ & _ & Eh).
  assert (view_inUse (view s2) to = true) as Hin.
  { unfold view_inUse. rewrite (proj1 (q_view _ _ Hq2)), (proj1 (q_view _ _ Hq1)).
    unfold has_code, view_codeHash in Hc. fold to in Hc. destruct (vb (view (m_s e)) to) as [b|]; [reflexivity|].
    rewrite (proj2 (eqb_spec _ _) eq_refl) in Hc. discriminate Hc. }
  exists s3. split; [eapply quiet_trans; [exact Hq1|]; by eapply quiet_trans|].
  rewrite (SE_bind_ok _ _ _ _ _ (in_s_run _ e _ _ E1)).
  rewrite (SE_bind_ok _ _ _ _ _ (in_s_run (ScState.codeHash to) (set_m_s s1 e) _ _ E2)).
  rewrite (SE_bind_ok _ _ _ (m_depth e) (set_m_s s2 (set_m_s s1 e))) by reflexivity.
  erewrite (SE_bind_ok (in_s (ExtVM_new _ _ _ _ _ _ _ _ _))).
  2:{ apply in_s_run. unfold ExtVM_new. rewrite (SE_bind_ok _ _ _ _ _ E3), Hin. reflexivity. }
  unfold modify, call_context. rewrite Eh. reflexivity.
Qed.

(** The nonce, the code and the value of a call.  It ends with the sender's
    balance too small, or with the machine's context ready. *)
Record called s (tx : Transaction.t) (e e' : Executive.t D) : Prop := {
  ca_ok : state_ok (m_s e');
  ca_start : m_accountStartNonce (m_s e') = m_accountStartNonce s;
  ca_view : veq (view (m_s e')) (view_paid (m_accountStartNonce s) (Transaction.m_sender tx)
              (Transaction.m_receiveAddress tx) (Transaction.m_value tx) (view s));
  ca_dirty : exists x, m_cache (m_s e') !! Transaction.m_receiveAddress tx = Some x /\ isDirty x = true;
  ca_room n : room (m_db s) n -> room (m_db (m_s e')) n;
  ca_gas : m_gas e' = Transaction.m_gas tx;
  ca_t : m_t e' = tx;
  ca_res : m_res e' = m_res e;
  ca_excepted : m_excepted e' = m_excepted e;
  ca_creation : m_isCreation e' = m_isCreation e }.

Lemma execute_call tx e : let s := m_s e in
  state_ok s -> m_accountStartNonce s <> Invalid256 -> tx_ok tx -> Transaction.m_type tx = Transaction.MessageCall ->
  m_t e = tx -> m_baseGasRequired e = 0 -> m_ext e = None ->
  let to := Transaction.m_receiveAddress tx in
  if affords (view s) (Transaction.m_sender tx) (Transaction.m_value tx) then
    exists e', execute e = (Ok (negb (has_code (view s) to)), e') /\ called s tx e e' /\
      m_ext e' = if has_code (view s) to then Some (call_context (view s) tx (m_depth e)) else None
  else exists e' l, execute e = (Throw "Not Enough Cash", e') /\ changes s (m_s e') l.
Proof.
  intros s Hs Hst Htx Hty Ht Hb Hx to. set (from := Transaction.m_sender tx). set (v := Transaction.m_value tx).
  destruct (incNonce_spec from s Hs) as (s1 & l1 & E1 & Hc1 & V1); [done|].
  pose proof (ch_ok _ _ _ Hc1) as Hs1.
  assert (forall b, view_balance (view s1) b = view_balance (view s) b /\ view_code (view s1) b = view_code (view s) b /\
    view_codeHash (view s1) b = view_codeHash (view s) b) as Hn.
  { intros b. destruct (same_view_codes _ _ b V1) as (-> & -> & ->). apply nonce_unseen. }
  assert (execute e = call to from v (Transaction.m_gasPrice tx) (Transaction.m_data tx) (Transaction.m_gas tx) e) as ->.
  { unfold execute. rewrite (SE_bind_ok _ _ _ e e) by reflexivity. cbv zeta. rewrite Ht, Hb.
    unfold Transaction.isCreation. rewrite Hty, bool_decide_false by done.
    change (u256 0) with 0. rewrite Z.sub_0_r, wrap_small by apply Htx. reflexivity. }
  unfold call, call_params. cbn [senderAddress codeAddress receiveAddress valueTransfer apparentValue call_gas call_data].
  rewrite (SE_bind_ok _ _ _ tx e) by (unfold gets; by rewrite Ht).
  unfold Transaction.to_bool. rewrite Hty, bool_decide_false by done. cbn [negb when].
  rewrite (SE_bind_ok _ _ _ _ _ (in_s_run _ e _ _ E1)).
  set (n := size (m_changeLog s1)).
  rewrite (SE_bind_ok _ _ _ n (set_m_s s1 e)) by reflexivity.
  rewrite (SE_bind_ok _ _ _ tt (set_m_savepoint n (set_m_s s1 e))) by reflexivity.
  set (e2 := set_m_gas (Transaction.m_gas tx) (set_m_savepoint n (set_m_s s1 e))).
  rewrite (SE_bind_ok _ _ _ tt e2) by reflexivity.
  destruct (addressHasCode_spec to s1 Hs1) as (s2 & E2 & Hq2).
  rewrite (SE_bind_ok _ _ _ _ _ (in_s_run (addressHasCode to) e2 _ _ E2)).
  pose proof (Hn to) as (_ & Hcode & Hhash). rewrite Hhash. fold (has_code (view s) to).
  pose proof (q_ok _ _ Hq2) as Hs2.
  destruct (same_view_codes _ _ to (q_view _ _ Hq2)) as (_ & Hcode2 & Hhash2).
  assert (exists s3 x, quiet s2 s3 /\
    when (has_code (view s) to)
      (c ← in_s (ScState.code to);
       codeHash ← in_s (ScState.codeHash to);
       depth ← gets m_depth;
       x ← in_s (ExtVM_new to from from v (Transaction.m_gasPrice tx) (Transaction.m_data tx) c codeHash depth);
       modify (set_m_ext (Some (ScVm.set_m_s tt x)))) (set_m_s s2 e2)
    = (Ok tt, set_m_ext x (set_m_s s3 e2)) /\
    x = if has_code (view s) to then Some (call_context (view s) tx (m_depth e)) else None) as (s3 & x & Hq3 & E3 & Ex).
  { destruct (has_code (view s) to) eqn:Eh; simpl when.
    - destruct (call_code tx (set_m_s s2 e2)) as (s3 & Hq3 & E3).
      { exact Hs2. } { unfold has_code in *. cbn [m_s set_m_s]. fold to. rewrite Hhash2, Hhash. exact Eh. }
      exists s3, (Some (call_context (view s) tx (m_depth e))). split; [exact Hq3|]. split; [|reflexivity].
      etrans; [exact E3|]. unfold call_context. cbn [m_s set_m_s]. fold to. rewrite Hcode2, Hhash2, Hcode, Hhash. reflexivity.
    - exists s2, None. split; [by apply quiet_refl|]. split; [|reflexivity].
      rewrite <- Hx. by destruct e. }
  rewrite (SE_bind_ok _ _ _ _ _ E3). pose proof (q_ok _ _ Hq3) as Hs3.
  assert (changes s s3 ([] ++ [] ++ l1)) as Hc3.
  { eapply changes_trans; [eapply changes_trans; [exact Hc1|]|]; apply quiet_changes; done. }
  assert (veq (view s3) (view_incNonce (m_accountStartNonce s) from (view s))) as V3.
  { etrans; [apply Hq3|]. etrans; [apply Hq2|exact V1]. }
  pose proof (transferBalance_spec from to v s3 Hs3 (tk_value tx Htx)) as H.
  rewrite (ch_start _ _ _ Hc3) in H. specialize (H Hst).
  assert (view_balance (view s3) from = view_balance (view s) from) as Hbal.
  { destruct (same_view_codes _ _ from V3) as (-> & _). apply nonce_unseen. }
  rewrite Hbal in H. unfold affords. fold from v. destruct (_ || _).
  - destruct H as (s4 & l4 & E4 & Hc4 & V4).
    erewrite (SE_bind_ok (in_s (transferBalance from to v)) _ _ tt) by (apply in_s_run; exact E4).
    eexists. split; [unfold gets; cbn [m_ext set_m_s set_m_ext]; rewrite Ex; by destruct (has_code (view s) to)|].
    split; [|exact Ex]. split; try reflexivity; cbn [m_s set_m_s].
    + apply Hc4.
    + by rewrite (ch_start _ _ _ Hc4), (ch_start _ _ _ Hc3).
    + etrans; [exact V4|]. unfold view_paid. fold from to v. by rewrite V3.
    + eapply transferBalance_dirty; [exact Hs3| |exact (tk_value tx Htx)|exact E4].
      by rewrite (ch_start _ _ _ Hc3).
    + intros k Hk. by apply Hc4, Hc3.
    + exact Ht.
  - destruct H as (s4 & E4 & Hq4). eexists _, _. split; [|].
    + unfold mbind at 1, SE_bind at 1. erewrite in_s_run by exact E4. reflexivity.
    + eapply changes_trans; [exact Hc3|]. by apply quiet_changes.
Qed.

(** ** Running the machine *)

(** Two views that differ in the storage of [self] at most. *)
Definition only_storage (self : bytes) (V W : View) : Prop :=
  (forall a, vb V a = vb W a) /\ (forall a k, a <> self -> vs V a k = vs W a k).

Definition address_ok (a : bytes) : Prop := bytes_ok a /\ length a = 20%nat.

Lemma view_code_ok s a : state_ok s -> bytes_ok (view_code (view s) a) /\ size (view_code (view s) a) < 2 ^ 62.
Proof.
  intros Hs. unfold view_code. rewrite view_here. destruct (here s a) as [x|] eqn:E; simpl.
  - apply (ao_code_size _ _ (here_ok s a x Hs E)).
  - split; [constructor|lia].
Qed.

(** The machine that runs in the context [x] on the state [s]. *)
Definition machine (fuel : nat) (onOp : bool) (gas : Z) (x : ExtVM unit) s : outcome bytes * VM (State D) :=
  exec fuel (new_VM gas (ScVm.set_m_s s x) onOp).
(** The state a run of the machine leaves. *)
Definition state_after (v : VM (State D)) : State D := ScVm.m_s (m_ctx v).

Lemma run_vm_spec fuel onOp (x : ExtVM unit) e : context_ok (ScVm.set_m_s (m_s e) x) -> suicides (sub x) = ∅ ->
  metered (code x) -> 0 <= m_gas e -> 2 * u64 (m_gas e) + 4 <= Z.of_nat fuel ->
  match machine fuel onOp (m_gas e) x (m_s e) with
  | (Ok out, v) => exists x',
      run_vm fuel onOp x e = (Ok out, set_m_gas (io_gas v) (set_m_ext (Some x') (set_m_s (state_after v) e))) /\
      bytes_ok out /\ 0 <= io_gas v <= m_gas e /\ suicides (sub x') = ∅ /\ state_ok (state_after v) /\
      only_storage (myAddress x) (view (state_after v)) (view (m_s e)) /\ (exists l, changes (m_s e) (state_after v) l)
  | (Throw w, _) => exists e', run_vm fuel onOp x e = (Throw w, e')
  | _ => False
  end.
Proof.
  intros Hx Hu Hm Hg Hf. unfold run_vm, machine.
  pose proof (exec_contained (m_gas e) (ScVm.set_m_s (m_s e) x) onOp fuel Hx Hu Hm Hg Hf) as H.
  destruct (exec fuel _) as [[out| | | | |] v]; try done; [|by eexists].
  destruct H as (Ho & Hgas & [Hc Hself Hsu Hl Hb Hk]).
  eexists. split; [reflexivity|]. split; [exact Ho|]. split; [exact Hgas|]. split; [exact Hsu|].
  split; [apply Hc|]. split; [split; [exact Hb|exact Hk]|exact Hl].
Qed.

(** A finished run of the executive that started with [e], had [g] gas left and
    returned [out]. *)
Record ran e e' (out : bytes) (g : Z) : Prop := {
  rn_ok : state_ok (m_s e');
  rn_start : m_accountStartNonce (m_s e') = m_accountStartNonce (m_s e);
  rn_gas : m_gas e' = g /\ 0 <= g <= m_gas e;
  rn_ext : exists x, m_ext e' = Some x /\ suicides (sub x) = ∅;
  rn_t : m_t e' = m_t e;
  rn_excepted : m_excepted e' = m_excepted e;
  rn_newAddress : m_newAddress e' = m_newAddress e;
  rn_res : is_Some (m_res e) -> exists r, m_res e' = Some r /\ output r = out }.

Lemma go_call fuel onOp (x : ExtVM unit) e : context_ok (ScVm.set_m_s (m_s e) x) -> suicides (sub x) = ∅ ->
  metered (code x) -> m_ext e = Some x -> m_isCreation e = false ->
  0 <= m_gas e -> 2 * u64 (m_gas e) + 4 <= Z.of_nat fuel ->
  match machine fuel onOp (m_gas e) x (m_s e) with
  | (Ok out, v) => exists e', go fuel onOp e = (Ok true, e') /\ ran e e' out (io_gas v) /\ m_s e' = state_after v /\
      only_storage (myAddress x) (view (state_after v)) (view (m_s e))
  | (Throw _, _) => exists e', go fuel onOp e = (Exit 1, e')
  | _ => False
  end.
Proof.
  intros Hx Hu Hm Hext Hcr Hg Hf. pose proof (run_vm_spec fuel onOp x e Hx Hu Hm Hg Hf) as H.
  unfold go. rewrite (SE_bind_ok _ _ _ (Some x) e) by (unfold gets; by rewrite Hext).
  unfold on_throw, go_try. rewrite (SE_bind_ok _ _ _ false e) by (unfold gets; by rewrite Hcr).
  destruct (machine _ _ _ _ _) as [[out|w| | | |] v]; try done.
  - destruct H as (x' & E & Ho & Hgas & Hsu & Hs' & V & l & Hc).
    rewrite (SE_bind_ok _ _ _ _ _ E). unfold with_res, modify, mbind, SE_bind. eexists. split; [reflexivity|].
    split; [|split; [reflexivity|exact V]]. split; cbn; try done; [apply Hc|by exists x'|]. intros [r ->]. by eexists.
  - destruct H as (e' & E). unfold mbind, SE_bind. rewrite E. by eexists.
Qed.

(** ** Settling *)
Lemma finalize_spec e x tx : state_ok (m_s e) -> m_accountStartNonce (m_s e) <> Invalid256 ->
  m_t e = tx -> tx_ok tx -> m_ext e = Some x -> suicides (sub x) = ∅ -> 0 <= m_gas e <= Transaction.m_gas tx ->
  exists e' left, finalize e = (Ok tt, e') /\ m_gas e <= left <= Transaction.m_gas tx /\ m_gas e' = left /\
    state_ok (m_s e') /\ m_accountStartNonce (m_s e') = m_accountStartNonce (m_s e) /\
    veq (view (m_s e')) (view_addBalance (m_accountStartNonce (m_s e)) (Transaction.m_sender tx)
      (u256 (left * Transaction.m_gasPrice tx)) (view (m_s e))) /\
    (forall r, m_res e = Some r -> exists r', m_res e' = Some r' /\
       gasUsed r' = Transaction.m_gas tx - left /\ output r' = output r /\ excepted r' = m_excepted e /\
       newAddress r' = m_newAddress e).
Proof.
  intros Hs Hst Ht Htx Hx Hu Hg. pose proof (tk_gas tx Htx) as Hr. unfold in_range in Hr.
  unfold finalize. set (ref := u256 (refunds (sub x) + suicideRefundGas DefaultSchedule * Z.of_nat (base.size (suicides (sub x))))).
  set (x1 := set_sub (mkSub (suicides (sub x)) (logs (sub x)) ref) x).
  rewrite (SE_bind_ok _ _ _ tt (set_m_ext (Some x1) e)) by (unfold modify; rewrite Hx; reflexivity).
  set (e1 := set_m_ext (Some x1) e). rewrite (SE_bind_ok _ _ _ e1 e1) by reflexivity.
  cbn [m_ext set_m_ext e1]. cbv zeta.
  set (half := u256 (Transaction.m_gas (m_t e1) - m_gas e1) / 2).
  set (a := if half <? refunds (sub x1) then half else refunds (sub x1)).
  assert (0 <= ref) as Href by (apply (wrap_range 256); lia).
  assert (half = (Transaction.m_gas tx - m_gas e) / 2) as Eh.
  { unfold half, e1. cbn [m_t m_gas set_m_ext]. rewrite Ht, wrap_small; [reflexivity|]. unfold in_range. lia. }
  assert (0 <= a <= (Transaction.m_gas tx - m_gas e) / 2) as Ha.
  { unfold a. cbn [x1 sub set_sub refunds]. rewrite Eh. destruct (Z.ltb_spec ((Transaction.m_gas tx - m_gas e) / 2) ref); [|lia].
    split; [|lia]. apply Z.div_pos; lia. }
  assert (m_gas e + a <= Transaction.m_gas tx) as Hle.
  { pose proof (Z.mul_div_le (Transaction.m_gas tx - m_gas e) 2). lia. }
  rewrite (SE_bind_ok _ _ _ tt (set_m_refunded a e1)) by reflexivity.
  set (e2 := set_m_gas (u256 (m_gas e + a)) (set_m_refunded a e1)).
  rewrite (SE_bind_ok _ _ _ tt e2) by reflexivity. rewrite (SE_bind_ok _ _ _ e2 e2) by reflexivity.
  assert (m_gas e2 = m_gas e + a) as Eg by (apply wrap_small; unfold in_range; lia).
  assert (m_t e2 = tx) as Et by exact Ht. rewrite Eg, Et.
  assert (Transaction.to_bool tx = true) as ->.
  { unfold Transaction.to_bool. rewrite bool_decide_false by apply Htx. reflexivity. }
  cbn [when]. unfold Transaction.sender.
  destruct (addBalance_spec (Transaction.m_sender tx) (u256 ((m_gas e + a) * Transaction.m_gasPrice tx)) (m_s e) Hs)
    as (s3 & l3 & E3 & Hc3 & V3); [by apply wrap_range|done|].
  rewrite (SE_bind_ok _ _ _ _ _ (in_s_run _ e2 _ _ E3)).
  cbn [x1 sub set_sub suicides logs refunds]. rewrite Hu, elements_empty. cbn [kill_all].
  unfold with_res, modify, mbind, SE_bind, mret, SE_ret.
  eexists _, (m_gas e + a). split; [reflexivity|]. split; [lia|]. split; [exact Eg|].
  split; [apply Hc3|]. split; [apply Hc3|]. split; [exact V3|].
  intros r Hres. cbn. rewrite Hres. eexists. split; [reflexivity|]. cbn. split; [|done].
  unfold gasUsed_. cbn. rewrite Ht, (wrap_small 256 (m_gas e + a)) by (unfold in_range; lia).
  apply wrap_small. unfold in_range. lia.
Qed.

(** ** Whole transactions *)

(** The executive when [execute] starts. *)
Definition initialized s (tx : Transaction.t) : Executive.t D :=
  set_m_gasCost (u256 (Transaction.m_gas tx * Transaction.m_gasPrice tx))
    (set_m_t tx (set_m_res (Some default_result) (Executive.new s 0))).

Lemma transact_starts fuel onOp tx s : state_ok s -> tx_ok tx ->
  exists s', quiet s s' /\
    transact fuel onOp tx (Executive.new s 0) =
    (done ← execute; (if negb done then _ ← go fuel onOp; mret tt else mret tt);; finalize) (initialized s' tx).
Proof.
  intros Hs Htx. destruct (getNonce_spec (Transaction.m_sender tx) s Hs) as (n & s' & E & Hq).
  exists s'. split; [exact Hq|]. unfold transact.
  rewrite (SE_bind_ok _ _ _ tt (set_m_res (Some default_result) (Executive.new s 0))) by reflexivity.
  set (e1 := set_m_t tx (set_m_res (Some default_result) (Executive.new s 0))).
  assert (initialize tx (set_m_res (Some default_result) (Executive.new s 0)) = (Ok tt, initialized s' tx)) as Ei.
  { unfold initialize. rewrite (SE_bind_ok _ _ _ tt e1) by reflexivity.
    rewrite (SE_bind_ok _ _ _ tt e1) by reflexivity. rewrite (SE_bind_ok _ _ _ e1 e1) by reflexivity.
    pose proof (tk_gas tx Htx) as Hg. unfold in_range in Hg.
    change (m_baseGasRequired e1) with 0. change (m_t e1) with tx.
    replace (Transaction.m_gas tx <? 0) with false by lia.
    rewrite (SE_bind_ok _ _ e1 n (set_m_s s' e1)).
    - reflexivity.
    - change (m_t e1) with tx. unfold Transaction.sender. rewrite (in_s_run _ e1 _ _ E). reflexivity. }
  by rewrite (SE_bind_ok _ _ _ _ _ Ei).
Qed.

Lemma only_storage_credit self n a v V W : only_storage self V W ->
  only_storage self (view_addBalance n a v V) (view_addBalance n a v W).
Proof.
  intros [Hb Hk]. unfold view_addBalance. rewrite (Hb a). destruct (vb W a); split; intros; simpl.
  - by rewrite Hb.
  - by apply Hk.
  - by rewrite Hb.
  - by rewrite Hk.
Qed.
Lemma only_storage_veq self V W U : only_storage self V W -> veq W U -> only_storage self V U.
Proof. intros [Hb Hk] [Hb' Hk']. split; intros; [by rewrite Hb|by rewrite Hk]. Qed.

Lemma only_storage_veq' self V W U : veq V W -> only_storage self W U -> only_storage self V U.
Proof. intros [Hb' Hk'] [Hb Hk]. split; intros; [by rewrite Hb'|]. rewrite Hk'. by apply Hk. Qed.

Lemma same_view_affords V W a v : veq V W -> affords V a v = affords W a v.
Proof. intros H. unfold affords. by destruct (same_view_codes V W a H) as (-> & _). Qed.
Lemma same_view_has_code V W a : veq V W -> has_code V a = has_code W a.
Proof. intros H. unfold has_code. by destruct (same_view_codes V W a H) as (_ & _ & ->). Qed.
#[global] Instance view_paid_proper n f t v : Proper (veq ==> veq) (view_paid n f t v).
Proof. intros V W H. unfold view_paid. by rewrite H. Qed.

(** What follows the run of the machine. *)
Ltac go_on G := unfold mbind at 1, SE_bind at 1; unfold mbind at 1, SE_bind at 1; rewrite G.

Section Call.
Context (s : State D) (Hs : state_ok s) (Hst : m_accountStartNonce s <> Invalid256) (tx : Transaction.t)
        (Htx : tx_ok tx) (Hfrom : address_ok (Transaction.m_sender tx))
        (Hty : Transaction.m_type tx = Transaction.MessageCall).
Local Abbreviation start := (m_accountStartNonce s).
Local Abbreviation from := (Transaction.m_sender tx).
Local Abbreviation to := (Transaction.m_receiveAddress tx).

(** A call without code: nothing was set up to run. *)
Lemma transact_plain fuel onOp : has_code (view s) to = false -> affords (view s) from (Transaction.m_value tx) = true ->
  exists e', transact fuel onOp tx (Executive.new s 0) = (Undef "m_ext->sub of a null m_ext", e').
Proof.
  intros Hc Ha. destruct (transact_starts fuel onOp tx s Hs Htx) as (s' & Hq & ->).
  pose proof (execute_call tx (initialized s' tx) (q_ok _ _ Hq)) as H. cbv zeta in H. cbn in H.
  rewrite (q_start _ _ Hq) in H. specialize (H Hst Htx Hty eq_refl eq_refl eq_refl).
  rewrite (same_view_affords _ _ _ _ (q_view _ _ Hq)), Ha, (same_view_has_code _ _ _ (q_view _ _ Hq)), Hc in H.
  destruct H as (e' & E & _ & Hx). rewrite (SE_bind_ok _ _ _ _ _ E). cbn [negb].
  rewrite (SE_bind_ok _ _ _ tt e') by reflexivity. unfold finalize.
  eexists. unfold modify, gets, mbind, SE_bind. rewrite Hx. reflexivity.
Qed.

Lemma transact_unaffordable fuel onOp : affords (view s) from (Transaction.m_value tx) = false ->
  exists e' l, transact fuel onOp tx (Executive.new s 0) = (Throw "Not Enough Cash", e') /\ changes s (m_s e') l.
Proof.
  intros Ha. destruct (transact_starts fuel onOp tx s Hs Htx) as (s' & Hq & ->).
  pose proof (execute_call tx (initialized s' tx) (q_ok _ _ Hq)) as H. cbv zeta in H. cbn in H.
  rewrite (q_start _ _ Hq) in H. specialize (H Hst Htx Hty eq_refl eq_refl eq_refl).
  rewrite (same_view_affords _ _ _ _ (q_view _ _ Hq)), Ha in H.
  destruct H as (e' & l & E & Hch). exists e', (l ++ []). split; [unfold mbind, SE_bind; by rewrite E|].
  eapply changes_trans; [by apply quiet_changes|exact Hch].
Qed.

(** A transaction that was settled with [left] gas and returned [out], in terms of
    the accounts [V] it was settled on. *)
Record settled (V : View) (out : bytes) (e' : Executive.t D) (left : Z) : Prop := {
  sd_ok : state_ok (m_s e');
  sd_start : m_accountStartNonce (m_s e') = start;
  sd_left : 0 <= left <= Transaction.m_gas tx;
  sd_view : veq (view (m_s e')) (view_addBalance start from (u256 (left * Transaction.m_gasPrice tx)) V);
  sd_res : exists r, m_res e' = Some r /\ gasUsed r = Transaction.m_gas tx - left /\ output r = out /\
             excepted r = NoException }.

Lemma settle e2 e1 out g : ran e1 e2 out g -> m_accountStartNonce (m_s e1) = start -> m_t e1 = tx ->
  m_gas e1 = Transaction.m_gas tx -> is_Some (m_res e1) -> m_excepted e1 = NoException ->
  exists e3 left, finalize e2 = (Ok tt, e3) /\ settled (view (m_s e2)) out e3 left /\ g <= left.
Proof.
  intros Hr Hst1 Ht1 Hg1 Hres1 Hex. destruct (rn_ext _ _ _ _ Hr) as (x2 & Hx2 & Hu2).
  destruct (rn_gas _ _ _ _ Hr) as [Hg2 Hg3]. rewrite Hg1 in Hg3.
  assert (m_accountStartNonce (m_s e2) = start) as Hst2 by (by rewrite (rn_start _ _ _ _ Hr)).
  destruct (finalize_spec e2 x2 tx) as (e3 & left & E & Hl & _ & Hok & Hst3 & V3 & Hres).
  { apply Hr. } { by rewrite Hst2. } { by rewrite (rn_t _ _ _ _ Hr). } { done. } { done. } { done. } { lia. }
  exists e3, left. split; [exact E|]. rewrite Hst2 in *. split; [|lia]. split; [exact Hok|exact Hst3|lia|exact V3|].
  destruct (rn_res _ _ _ _ Hr Hres1) as (r & Hr2 & Ho).
  destruct (Hres r Hr2) as (r' & Hr' & Hgu & Ho' & He & _). exists r'. split; [exact Hr'|]. split; [exact Hgu|].
  split; [congruence|]. by rewrite He, (rn_excepted _ _ _ _ Hr).
Qed.

Lemma call_context_ok s1 d : state_ok s1 -> m_accountStartNonce s1 <> Invalid256 ->
  (exists x, m_cache s1 !! to = Some x /\ isDirty x = true) ->
  context_ok (ScVm.set_m_s s1 (call_context (view s) tx d)).
Proof.
  intros Hs1 Hst1 Hd. destruct (view_code_ok s to Hs). destruct (tk_data tx Htx). destruct (tk_to tx Htx). destruct Hfrom.
  split; cbn; try done; try apply Htx. split; [lia|done].
Qed.

(** The machine of a call runs on a state in which the call was paid for; what it
    does decides the outcome. *)
Lemma transact_call fuel onOp : has_code (view s) to = true -> affords (view s) from (Transaction.m_value tx) = true ->
  metered (view_code (view s) to) -> 2 * u64 (Transaction.m_gas tx) + 4 <= Z.of_nat fuel ->
  exists s1, state_ok s1 /\ veq (view s1) (view_paid start from to (Transaction.m_value tx) (view s)) /\
  match machine fuel onOp (Transaction.m_gas tx) (call_context (view s) tx 0) s1 with
  | (Ok out, v) => exists e left, transact fuel onOp tx (Executive.new s 0) = (Ok tt, e) /\
      settled (view (state_after v)) out e left /\ io_gas v <= left /\
      only_storage to (view (state_after v)) (view s1)
  | (Throw _, _) => exists e, transact fuel onOp tx (Executive.new s 0) = (Exit 1, e)
  | _ => False
  end.
Proof.
  intros Hc Ha Hm Hf. destruct (transact_starts fuel onOp tx s Hs Htx) as (s' & Hq & ->).
  pose proof (execute_call tx (initialized s' tx) (q_ok _ _ Hq)) as H. cbv zeta in H. cbn in H.
  rewrite (q_start _ _ Hq) in H. specialize (H Hst Htx Hty eq_refl eq_refl eq_refl).
  rewrite (same_view_affords _ _ _ _ (q_view _ _ Hq)), Ha, (same_view_has_code _ _ _ (q_view _ _ Hq)), Hc in H.
  destruct H as (e1 & E & Hcd & Hx). rewrite (SE_bind_ok _ _ _ _ _ E). cbn [negb].
  assert (call_context (view s') tx 0 = call_context (view s) tx 0) as Ecc.
  { unfold call_context. by destruct (same_view_codes _ _ to (q_view _ _ Hq)) as (_ & -> & ->). }
  rewrite Ecc in Hx. set (x := call_context (view s) tx 0) in *.
  pose proof (ca_start _ _ _ _ Hcd) as Hst1. rewrite (q_start _ _ Hq) in Hst1.
  assert (m_accountStartNonce (m_s e1) <> Invalid256) as Hst2 by congruence.
  pose proof (tk_gas tx Htx) as Hgr. unfold in_range in Hgr.
  pose proof (go_call fuel onOp x e1) as G. rewrite (ca_gas _ _ _ _ Hcd) in G.
  specialize (G (call_context_ok (m_s e1) 0 (ca_ok _ _ _ _ Hcd) Hst2 (ca_dirty _ _ _ _ Hcd)) eq_refl Hm Hx
    (ca_creation _ _ _ _ Hcd) ltac:(lia) Hf).
  exists (m_s e1). split; [apply Hcd|].
  split; [etrans; [apply Hcd|]; rewrite (q_start _ _ Hq); apply view_paid_proper, Hq|].
  destruct (machine _ _ _ _ _) as [[out|w| | | |] v]; try done; [|destruct G as (e2 & G); go_on G; by eexists].
  destruct G as (e2 & G & Hr & Ev & Hv). go_on G. cbn [mret SE_ret].
  destruct (settle e2 e1 out _ Hr Hst1 (ca_t _ _ _ _ Hcd) (ca_gas _ _ _ _ Hcd)) as (e3 & left & -> & Hsd & Hl).
  - rewrite (ca_res _ _ _ _ Hcd). by eexists.
  - by rewrite (ca_excepted _ _ _ _ Hcd).
  - exists e3, left. split; [reflexivity|]. rewrite Ev in Hsd. by repeat split_and.
Qed.
End Call.

(** ** Creations *)

(** Setting code, whether there was code before or not. *)
Lemma setNewCode_put a c x s : state_ok s -> m_cache s !! a = Some x -> isDirty x = true -> bytes_ok c ->
  size c < 2 ^ 62 ->
  exists s', setNewCode a c s = (Ok tt, s') /\ state_ok s' /\ m_accountStartNonce s' = m_accountStartNonce s /\
    veq (view s') (upd_basic a (with_code (sha3 c) (shown_code c)) (view s)).
Proof.
  intros Hs Hx Hd Hc Hsz. destruct (so_cache _ Hs a x Hx) as [Hok _].
  destruct (put_log_ok s a (Account_setNewCode c x) (m_nonExistingAccountsCache s) [NewCode a]) as [Hok' Hv].
  { exact Hs. } { by apply account_ok_new. } { exact Hd. } { reflexivity. } { by eapply cached_present. }
  { by constructor. } { simpl. split; [intros [=]|apply Hs]. }
  assert (setNewCode a c s = (Ok tt, put_log s a (Account_setNewCode c x) (m_nonExistingAccountsCache s) [NewCode a])) as E.
  { unfold setNewCode. rewrite (SE_bind_ok _ _ _ _ _ (cache_ref_hit a x s Hx)). by destruct s. }
  eexists. split; [exact E|]. split; [exact Hok'|]. split; [reflexivity|]. etrans; [exact Hv|].
  assert (here s a = Some x) as Hh by (unfold here; by rewrite Hx).
  assert (basic_of (m_db s) (Account_setNewCode c x) = with_code (sha3 c) (shown_code c) (basic_of (m_db s) x)) as Eb.
  { unfold basic_of. by rewrite code_of_new. }
  rewrite Eb. split; intros; simpl; case_decide; subst; rewrite ?Hh; reflexivity.
Qed.

(** The context of a creation. *)
Definition create_context (tx : Transaction.t) (d : Z) : ExtVM unit :=
  mkExt (Transaction.m_receiveAddress tx) (Transaction.m_sender tx) (Transaction.m_sender tx)
    (Transaction.m_value tx) (Transaction.m_gasPrice tx) [] (Transaction.m_data tx) (sha3 (Transaction.m_data tx))
    (mkSub ∅ [] 0) d tt.

Record created s (tx : Transaction.t) (e e' : Executive.t D) : Prop := {
  cr_ok : state_ok (m_s e');
  cr_start : m_accountStartNonce (m_s e') = m_accountStartNonce s;
  cr_view : veq (view (m_s e')) (view_paid (m_accountStartNonce s) (Transaction.m_sender tx)
              (Transaction.m_receiveAddress tx) (Transaction.m_value tx) (view s));
  cr_dirty : exists x, m_cache (m_s e') !! Transaction.m_receiveAddress tx = Some x /\ isDirty x = true;
  cr_gas : m_gas e' = Transaction.m_gas tx;
  cr_t : m_t e' = tx;
  cr_res : m_res e' = m_res e;
  cr_excepted : m_excepted e' = m_excepted e;
  cr_creation : m_isCreation e' = true;
  cr_ext : m_ext e' = Some (create_context tx (m_depth e)) }.

Lemma execute_create tx e : let s := m_s e in
  state_ok s -> m_accountStartNonce s <> Invalid256 -> tx_ok tx ->
  Transaction.m_type tx = Transaction.ContractCreation -> Transaction.m_data tx <> [] ->
  m_t e = tx -> m_baseGasRequired e = 0 ->
  if affords (view s) (Transaction.m_sender tx) (Transaction.m_value tx) then
    exists e', execute e = (Ok false, e') /\ created s tx e e'
  else exists e' l, execute e = (Throw "Not Enough Cash", e') /\ changes s (m_s e') l.
Proof.
  intros s Hs Hst Htx Hty Hdata Ht Hb. set (from := Transaction.m_sender tx). set (v := Transaction.m_value tx).
  set (to := Transaction.m_receiveAddress tx).
  destruct (incNonce_spec from s Hs) as (s1 & l1 & E1 & Hc1 & V1); [done|]. pose proof (ch_ok _ _ _ Hc1) as Hs1.
  assert (execute e = create from v (Transaction.m_gasPrice tx) (Transaction.m_gas tx) (Transaction.m_data tx) from to e) as ->.
  { unfold execute. rewrite (SE_bind_ok _ _ _ e e) by reflexivity. cbv zeta. rewrite Ht, Hb.
    unfold Transaction.isCreation. rewrite Hty, bool_decide_true by done.
    change (u256 0) with 0. rewrite Z.sub_0_r, wrap_small by apply Htx. reflexivity. }
  unfold create. rewrite (SE_bind_ok _ _ _ _ _ (in_s_run _ e _ _ E1)).
  set (n := size (m_changeLog s1)). rewrite (SE_bind_ok _ _ _ n (set_m_s s1 e)) by reflexivity.
  set (e2 := set_m_gas (Transaction.m_gas tx) (set_m_newAddress to (set_m_isCreation true (set_m_savepoint n (set_m_s s1 e))))).
  do 3 (rewrite SE_bind_ok with (a := tt) (s' := _) by reflexivity).
  rewrite (SE_bind_ok _ _ _ tt e2) by reflexivity.
  pose proof (transferBalance_spec from to v s1 Hs1 (tk_value tx Htx)) as H.
  rewrite (ch_start _ _ _ Hc1) in H. specialize (H Hst).
  assert (view_balance (view s1) from = view_balance (view s) from) as Hbal.
  { destruct (same_view_codes _ _ from V1) as (-> & _). apply nonce_unseen. }
  rewrite Hbal in H. unfold affords. fold from v. destruct (_ || _).
  - destruct H as (s4 & l4 & E4 & Hc4 & V4).
    rewrite (SE_bind_ok _ _ _ _ _ (in_s_run (transferBalance from to v) e2 _ _ E4)).
    destruct (transferBalance_dirty from to v s1 s4 Hs1) as (x & Hx & Hd).
    { by rewrite (ch_start _ _ _ Hc1). } { apply Htx. } { exact E4. }
    assert ((size (Transaction.m_data tx) =? 0) = false) as Hsz by (destruct (Transaction.m_data tx); [done|simpl; lia]).
    rewrite Hsz. cbn [negb].
    destruct (addressInUse_spec to s4 (ch_ok _ _ _ Hc4)) as (s5 & E5 & Hq5).
    assert (view_inUse (view s4) to = true) as Hin.
    { unfold view_inUse. rewrite view_here. unfold here. by rewrite Hx. }
    rewrite (SE_bind_ok _ _ _ tt (set_m_ext (Some (create_context tx (m_depth e))) (set_m_s s5 (set_m_s s4 e2)))).
    2:{ rewrite (SE_bind_ok _ _ _ (m_depth e) (set_m_s s4 e2)) by reflexivity.
        erewrite (SE_bind_ok (in_s (ExtVM_new _ _ _ _ _ _ _ _ _))).
        2:{ apply in_s_run. unfold ExtVM_new. rewrite (SE_bind_ok _ _ _ _ _ E5), Hin. reflexivity. }
        reflexivity. }
    eexists. split; [reflexivity|].
    split; try reflexivity; cbn [m_s set_m_s set_m_ext].
    + apply Hq5.
    + by rewrite (q_start _ _ Hq5), (ch_start _ _ _ Hc4), (ch_start _ _ _ Hc1).
    + etrans; [apply Hq5|]. etrans; [exact V4|]. unfold view_paid. fold from to v. by rewrite V1.
    + by apply (q_dirty _ _ Hq5 to x).
    + exact Ht.
  - destruct H as (s4 & E4 & Hq4). eexists _, _. split.
    + unfold mbind at 1, SE_bind at 1. erewrite in_s_run by exact E4. reflexivity.
    + eapply changes_trans; [exact Hc1|]. by apply quiet_changes.
Qed.

(** The views a creation that returned [out] may leave. *)
Definition view_created (self out : bytes) (V : View) : View :=
  upd_basic self (with_code (sha3 out) (shown_code out)) V.

Lemma only_storage_created self out V W : only_storage self V W ->
  only_storage self (view_created self out V) (view_created self out W).
Proof. intros [Hb Hk]. split; intros; simpl; [by rewrite Hb|by apply Hk]. Qed.

(** The code a creation with [g] gas left may store: not too large, and paid for. *)
Definition deposit_ok (out : bytes) (g : Z) : bool :=
  (size out <=? maxCodeSize DefaultSchedule) && (createDataGas DefaultSchedule * size out <=? g).

Lemma go_create fuel onOp (x : ExtVM unit) e : context_ok (ScVm.set_m_s (m_s e) x) -> suicides (sub x) = ∅ ->
  metered (code x) -> m_ext e = Some x -> m_isCreation e = true ->
  0 <= m_gas e < 2 ^ 256 -> 2 * u64 (m_gas e) + 4 <= Z.of_nat fuel ->
  match machine fuel onOp (m_gas e) x (m_s e) with
  | (Ok out, v) =>
      if deposit_ok out (io_gas v) then
        exists e', go fuel onOp e = (Ok true, e') /\ ran e e' out (io_gas v - createDataGas DefaultSchedule * size out) /\
          veq (view (m_s e')) (view_created (myAddress x) out (view (state_after v))) /\
          only_storage (myAddress x) (view (state_after v)) (view (m_s e))
      else exists e', go fuel onOp e = (Exit 1, e')
  | (Throw _, _) => exists e', go fuel onOp e = (Exit 1, e')
  | _ => False
  end.
Proof.
  intros Hx Hu Hm Hext Hcr Hg Hf. pose proof (run_vm_spec fuel onOp x e Hx Hu Hm ltac:(lia) Hf) as H.
  unfold go. rewrite (SE_bind_ok _ _ _ (Some x) e) by (unfold gets; by rewrite Hext).
  unfold on_throw, go_try. rewrite (SE_bind_ok _ _ _ true e) by (unfold gets; by rewrite Hcr).
  destruct (machine _ _ _ _ _) as [[out|w| | | |] v]; try done.
  2:{ destruct H as (e' & E). unfold mbind, SE_bind. rewrite E. by eexists. }
  destruct H as (x' & E & Ho & Hgas & Hsu & Hs' & V & l & Hc). set (g := io_gas v) in *. set (s' := state_after v) in *.
  rewrite (SE_bind_ok _ _ _ _ _ E). cbv zeta.
  destruct (co_dirty _ Hx) as (y & Hy & Hyd). destruct (ch_dirty _ _ _ Hc _ y Hy Hyd) as (y' & Hy' & Hyd').
  cbn [m_s ScVm.m_s ScVm.set_m_s myAddress] in Hy'.
  unfold with_res, modify, gets. unfold mbind, SE_bind. cbn [m_gas set_m_gas set_m_res]. unfold deposit_ok.
  destruct (Z.ltb_spec (maxCodeSize DefaultSchedule) (size out)) as [Hlt|Hsz].
  { rewrite (proj2 (Z.leb_gt _ _)) by done. cbn. by eexists. }
  rewrite (proj2 (Z.leb_le _ _)) by done. cbn [andb].
  cbn [maxCodeSize DefaultSchedule] in Hsz. set (deposit := u64 (size out * createDataGas DefaultSchedule)).
  assert (deposit = createDataGas DefaultSchedule * size out) as Ed.
  { unfold deposit. cbn [createDataGas DefaultSchedule]. rewrite wrap_small; [lia|]. unfold in_range. lia. }
  rewrite Ed. destruct (Z.leb_spec (createDataGas DefaultSchedule * size out) g) as [Hle|]; [|cbn; by eexists].
  destruct (setNewCode_put (myAddress x) out y' s' Hs' Hy' Hyd' Ho) as (s2 & E2 & Hok2 & Hst2 & V2); [lia|].
  cbn [mret SE_ret]. erewrite in_s_run by exact E2. eexists. split; [reflexivity|]. cbn [m_s set_m_s].
  split; [|split; [exact V2|exact V]].
  split; cbn [m_s m_gas m_ext m_t m_excepted m_newAddress m_res set_m_s set_m_gas set_m_ext set_m_res]; try done.
  - rewrite Hst2. apply Hc.
  - cbn [createDataGas DefaultSchedule] in *. rewrite wrap_small by (unfold in_range; lia). lia.
  - by exists x'.
  - intros [r ->]. by eexists.
Qed.

Section Creation.
Context (s : State D) (Hs : state_ok s) (Hst : m_accountStartNonce s <> Invalid256) (tx : Transaction.t)
        (Htx : tx_ok tx) (Hfrom : address_ok (Transaction.m_sender tx))
        (Hty : Transaction.m_type tx = Transaction.ContractCreation) (Hdata : Transaction.m_data tx <> []).
Local Abbreviation start := (m_accountStartNonce s).
Local Abbreviation from := (Transaction.m_sender tx).
Local Abbreviation to := (Transaction.m_receiveAddress tx).

Lemma create_context_ok s1 d : state_ok s1 -> m_accountStartNonce s1 <> Invalid256 ->
  (exists x, m_cache s1 !! to = Some x /\ isDirty x = true) ->
  context_ok (ScVm.set_m_s s1 (create_context tx d)).
Proof.
  intros Hs1 Hst1 Hd. destruct (tk_data tx Htx). destruct (tk_to tx Htx). destruct Hfrom.
  split; cbn; try done; try apply Htx. split; [lia|constructor].
Qed.

Lemma transact_create fuel onOp : affords (view s) from (Transaction.m_value tx) = true ->
  metered (Transaction.m_data tx) -> 2 * u64 (Transaction.m_gas tx) + 4 <= Z.of_nat fuel ->
  exists s1, state_ok s1 /\ veq (view s1) (view_paid start from to (Transaction.m_value tx) (view s)) /\
  match machine fuel onOp (Transaction.m_gas tx) (create_context tx 0) s1 with
  | (Ok out, v) =>
      if deposit_ok out (io_gas v) then
        exists e left, transact fuel onOp tx (Executive.new s 0) = (Ok tt, e) /\
          settled s tx (view_created to out (view (state_after v))) out e left /\
          only_storage to (view (state_after v)) (view s1)
      else exists e, transact fuel onOp tx (Executive.new s 0) = (Exit 1, e)
  | (Throw _, _) => exists e, transact fuel onOp tx (Executive.new s 0) = (Exit 1, e)
  | _ => False
  end.
Proof.
  intros Ha Hm Hf. destruct (transact_starts fuel onOp tx s Hs Htx) as (s' & Hq & ->).
  pose proof (execute_create tx (initialized s' tx) (q_ok _ _ Hq)) as H. cbv zeta in H. cbn in H.
  rewrite (q_start _ _ Hq) in H. specialize (H Hst Htx Hty Hdata eq_refl eq_refl).
  rewrite (same_view_affords _ _ _ _ (q_view _ _ Hq)), Ha in H.
  destruct H as (e1 & E & Hcd). rewrite (SE_bind_ok _ _ _ _ _ E). cbn [negb].
  pose proof (cr_ext _ _ _ _ Hcd) as Hx. change (m_depth (initialized s' tx)) with 0 in Hx. set (x := create_context tx 0) in *.
  pose proof (cr_start _ _ _ _ Hcd) as Hst1. rewrite (q_start _ _ Hq) in Hst1.
  assert (m_accountStartNonce (m_s e1) <> Invalid256) as Hst2 by congruence.
  pose proof (tk_gas tx Htx) as Hgr. unfold in_range in Hgr.
  pose proof (go_create fuel onOp x e1) as G. rewrite (cr_gas _ _ _ _ Hcd) in G.
  specialize (G (create_context_ok (m_s e1) _ (cr_ok _ _ _ _ Hcd) Hst2 (cr_dirty _ _ _ _ Hcd)) eq_refl Hm Hx
    (cr_creation _ _ _ _ Hcd) ltac:(lia) Hf).
  exists (m_s e1). split; [apply Hcd|].
  split; [etrans; [apply Hcd|]; rewrite (q_start _ _ Hq); apply view_paid_proper, Hq|].
  destruct (machine _ _ _ _ _) as [[out|w| | | |] v]; try done; [|destruct G as (e2 & G); go_on G; by eexists].
  destruct (deposit_ok _ _); [|destruct G as (e2 & G); go_on G; by eexists].
  destruct G as (e2 & G & Hr & Ev & Hv). go_on G. cbn [mret SE_ret].
  destruct (settle s Hst tx Htx e2 e1 out _ Hr Hst1 (cr_t _ _ _ _ Hcd) (cr_gas _ _ _ _ Hcd)) as (e3 & left & -> & Hsd & _).
  - rewrite (cr_res _ _ _ _ Hcd). by eexists.
  - by rewrite (cr_excepted _ _ _ _ Hcd).
  - exists e3, left. split; [reflexivity|]. split; [|exact Hv]. destruct Hsd as [? ? ? Hview ?]. split; try done.
    etrans; [exact Hview|]. by apply view_addBalance_proper.
Qed.

Lemma create_unaffordable fuel onOp : affords (view s) from (Transaction.m_value tx) = false ->
  exists e' l, transact fuel onOp tx (Executive.new s 0) = (Throw "Not Enough Cash", e') /\ changes s (m_s e') l.
Proof.
  intros Ha. destruct (transact_starts fuel onOp tx s Hs Htx) as (s' & Hq & ->).
  pose proof (execute_create tx (initialized s' tx) (q_ok _ _ Hq)) as H. cbv zeta in H. cbn in H.
  rewrite (q_start _ _ Hq) in H. specialize (H Hst Htx Hty Hdata eq_refl eq_refl).
  rewrite (same_view_affords _ _ _ _ (q_view _ _ Hq)), Ha in H.
  destruct H as (e' & l & E & Hch). exists e', (l ++ []). split; [unfold mbind, SE_bind; by rewrite E|].
  eapply changes_trans; [by apply quiet_changes|exact Hch].
Qed.
End Creation.

(** [State::execute] of a call, committed. *)
Definition commits (fuel : nat) (onOp : bool) (tx : Transaction.t) (s : State D) : Prop :=
  forall e, transact fuel onOp tx (Executive.new s 0) = (Ok tt, e) ->
    room (m_db (m_s e)) (commit_cost (m_s e)) /\ codes_fit (m_db (m_s e)) (map_to_list (m_cache (m_s e))).
Lemma State_execute_call fuel onOp s tx : state_ok s -> m_accountStartNonce s <> Invalid256 -> tx_ok tx ->
  address_ok (Transaction.m_sender tx) -> Transaction.m_type tx = Transaction.MessageCall ->
  has_code (view s) (Transaction.m_receiveAddress tx) = true ->
  affords (view s) (Transaction.m_sender tx) (Transaction.m_value tx) = true ->
  metered (view_code (view s) (Transaction.m_receiveAddress tx)) -> 2 * u64 (Transaction.m_gas tx) + 4 <= Z.of_nat fuel ->
  commits fuel onOp tx s ->
  match State_execute fuel onOp tx Committed s with
  | (Ok r, s') => exists left V,
      0 <= left <= Transaction.m_gas tx /\ gasUsed r = Transaction.m_gas tx - left /\
      state_ok s' /\ m_cache s' = ∅ /\ m_changeLog s' = [] /\ same_lasting (view s') V /\
      only_storage (Transaction.m_receiveAddress tx) V
        (view_addBalance (m_accountStartNonce s) (Transaction.m_sender tx) (u256 (left * Transaction.m_gasPrice tx))
          (view_paid (m_accountStartNonce s) (Transaction.m_sender tx) (Transaction.m_receiveAddress tx)
             (Transaction.m_value tx) (view s)))
  | (Exit c, _) => c = 1
  | _ => False
  end.
Proof.
  intros Hs Hst Htx Hf Hty Hc Ha Hm Hfu Hroom.
  destruct (transact_call s Hs Hst tx Htx Hf Hty fuel onOp Hc Ha Hm Hfu) as (s1 & _ & V0 & H). unfold State_execute.
  destruct (machine _ _ _ _ _) as [[out|w| | | |] v]; try done; [|by destruct H as (e & ->)].
  destruct H as (e & left & Et & Hd & _ & Hv). rewrite Et. destruct (sd_res _ _ _ _ _ _ Hd) as (r & Hr & Hg & _ & He).
  destruct (Hroom e Et) as [Hro Hfit].
  destruct (commit_spec KeepEmptyAccounts (m_s e) 0 (sd_ok _ _ _ _ _ _ Hd)) as (s' & E & Hok & V1 & V2 & Hca & HL & _).
  { by rewrite Nat.add_0_r. } { exact Hfit. }
  rewrite (SE_bind_ok _ _ _ _ _ E). unfold mret, SE_ret. rewrite Hr. simpl default.
  exists left, (view (m_s e)). split; [apply Hd|]. split; [exact Hg|]. split; [exact Hok|].
  split; [exact Hca|]. split; [exact HL|]. split; [split; assumption|].
  eapply only_storage_veq'; [exact (sd_view _ _ _ _ _ _ Hd)|]. apply only_storage_credit. by eapply only_storage_veq.
Qed.
Lemma State_execute_unaffordable fuel onOp p s tx : state_ok s -> m_accountStartNonce s <> Invalid256 -> tx_ok tx ->
  Transaction.m_type tx = Transaction.MessageCall ->
  affords (view s) (Transaction.m_sender tx) (Transaction.m_value tx) = false ->
  exists s' l, State_execute fuel onOp tx p s = (Throw "Not Enough Cash", s') /\ changes s s' l.
Proof.
  intros Hs Hst Htx Hty Ha. destruct (transact_unaffordable s Hs Hst tx Htx Hty fuel onOp Ha) as (e & l & E & Hch).
  exists (m_s e), l. split; [|exact Hch]. unfold State_execute. by rewrite E.
Qed.
End Run.
