(* ===== verification/ScExecutiveThms.v ===== *)
(** * Theorems about transactions

    The claims about [Executive] and [State::execute], applied to a concrete
    state in which a contract was committed. *)

From S2P Require Import Prelude ScFixedHash ScSha3 ScRlp ScState ScStateView ScVersions ScStateOps ScStateRun ScCommit.
From S2P Require Import ScInstruction ScVm ScVmLogic ScVmOpt ScVmRun ScVmThms ScTransaction ScExtVm ScExecutive ScExecutiveRun.
From Stdlib Require Import ZifyBool.
Local Opaque EmptySHA3 EmptyTrie sha3.

#[local] Existing Instance sample_platform.

(** ** Concrete transactions *)

(** Bob calls, or creates, the contract at Alice's address. *)
Definition bob_calls : Transaction.t :=
  Transaction.forceSender bob (Transaction.make false 0 3 100 alice [] 0).
Definition bob_creates (c : bytes) : Transaction.t :=
  Transaction.forceSender bob (Transaction.make true 0 3 100 alice c 0).

Lemma address_ok_arith v : address_ok (FixedHash.of_arith 20 v).
Proof. split; [apply toBigEndian_bytes_ok|apply length_toBigEndian]. Qed.
Lemma bob_calls_ok : tx_ok bob_calls.
Proof.
  split; cbn; try done; [apply address_ok_arith|]. split; [constructor|lia].
Qed.
Lemma bob_creates_ok c : bytes_ok c -> size c < 2 ^ 62 -> tx_ok (bob_creates c).
Proof. intros Hc Hs. split; cbn; try done. apply address_ok_arith. Qed.

Definition no_new_code (m : gmap bytes Account) : bool :=
  forallb (fun ax => negb (m_hasNewCode (snd ax))) (map_to_list m).
Lemma no_new_code_fits {D} `{TD : !TrieDB D} `{TL : !TrieLaws D} (d : D) m :
  no_new_code m = true -> codes_fit d (map_to_list m).
Proof.
  unfold no_new_code. rewrite forallb_forall. intros H.
  assert (forall a x, (a, x) ∈ map_to_list m -> ~ new_code x) as Hn.
  { intros a x Hx%list_elem_of_In [E _]. specialize (H _ Hx). simpl in H. by rewrite E in H. }
  split; [intros a x Hx _ Hc; by destruct (Hn a x Hx)|]. intros a b x y Hx _ Hc. by destruct (Hn a x Hx).
Qed.

(** ** Outcomes *)

(** C4: what a call of an account with code does, on a lawful state whose account
    start nonce is set, for a transaction whose fields fit their types and code that
    holds no STATICCALL or REVERT instruction (the opcodes the machine does not
    meter), with enough iterations of its loop.  A caller who does not have the amount gets the
    exception "Not Enough Cash", with every change in the log.  Otherwise the
    nonce is counted, the amount moved, and the code run on these accounts.  If
    the machine throws, for whatever error, the process ends with [exit(1)].  If
    it returns, the call settles: the machine changed no account but the storage
    of the called one, the sender is credited for the gas left, although it never
    paid for gas, and the result reports the gas used, the machine's output and
    no exception. *)
Theorem call_settles {D} `{TD : !TrieDB D} `{TL : !TrieLaws D} `{PL : !Platform}
  (s : State D) (tx : Transaction.t) (onOp : bool) (fuel : nat) :
  let from := Transaction.m_sender tx in
  let to := Transaction.m_receiveAddress tx in
  state_ok s -> m_accountStartNonce s <> Invalid256 -> tx_ok tx -> address_ok from ->
  Transaction.m_type tx = Transaction.MessageCall -> has_code (view s) to = true ->
  metered (view_code (view s) to) -> 2 * u64 (Transaction.m_gas tx) + 4 <= Z.of_nat fuel ->
  if affords (view s) from (Transaction.m_value tx) then
    exists s1, state_ok s1 /\ veq (view s1) (view_paid (m_accountStartNonce s) from to (Transaction.m_value tx) (view s)) /\
    match machine fuel onOp (Transaction.m_gas tx) (call_context (view s) tx 0) s1 with
    | (Ok out, v) => exists e left r,
        transact fuel onOp tx (Executive.new s 0) = (Ok tt, e) /\
        state_ok (Executive.m_s e) /\ io_gas v <= left <= Transaction.m_gas tx /\
        Executive.m_res e = Some r /\ gasUsed r = Transaction.m_gas tx - left /\ output r = out /\ excepted r = NoException /\
        veq (view (Executive.m_s e))
          (view_addBalance (m_accountStartNonce s) from (u256 (left * Transaction.m_gasPrice tx)) (view (state_after v))) /\
        only_storage to (view (state_after v)) (view s1)
    | (Throw _, _) => exists e, transact fuel onOp tx (Executive.new s 0) = (Exit 1, e)
    | _ => False
    end
  else exists e l, transact fuel onOp tx (Executive.new s 0) = (Throw "Not Enough Cash", e) /\
    changes s (Executive.m_s e) l.
Proof.
  intros from to Hs Hst Htx Hf Hty Hc Hm Hfu. destruct (affords _ _ _) eqn:Ha.
  2:{ by apply transact_unaffordable. }
  destruct (transact_call s Hs Hst tx Htx Hf Hty fuel onOp Hc Ha Hm Hfu) as (s1 & Hs1 & V1 & H).
  exists s1. split; [done|]. split; [done|]. destruct (machine _ _ _ _ _) as [[out| | | | |] v]; try done.
  destruct H as (e & left & E & Hd & Hl & Hv). destruct (sd_res _ _ _ _ _ _ Hd) as (r & Hr & Hg & Ho & He).
  pose proof (sd_left _ _ _ _ _ _ Hd). exists e, left, r. split; [exact E|]. split; [apply Hd|]. split; [lia|].
  by destruct Hd.
Qed.

Lemma call_settles_witness :
  if affords (view committed_state) bob 0 then
    exists s1, state_ok s1 /\ veq (view s1) (view_paid (m_accountStartNonce committed_state) bob alice 0 (view committed_state)) /\
    match machine 204 false (Transaction.m_gas bob_calls) (call_context (view committed_state) bob_calls 0) s1 with
    | (Ok out, v) => exists e left r,
        transact 204 false bob_calls (Executive.new committed_state 0) = (Ok tt, e) /\
        state_ok (Executive.m_s e) /\ io_gas v <= left <= Transaction.m_gas bob_calls /\
        Executive.m_res e = Some r /\ gasUsed r = Transaction.m_gas bob_calls - left /\ output r = out /\ excepted r = NoException /\
        veq (view (Executive.m_s e))
          (view_addBalance (m_accountStartNonce committed_state) bob (u256 (left * Transaction.m_gasPrice bob_calls)) (view (state_after v))) /\
        only_storage alice (view (state_after v)) (view s1)
    | (Throw _, _) => exists e, transact 204 false bob_calls (Executive.new committed_state 0) = (Exit 1, e)
    | _ => False
    end
  else exists e l, transact 204 false bob_calls (Executive.new committed_state 0) = (Throw "Not Enough Cash", e) /\
    changes committed_state (Executive.m_s e) l.
Proof.
  apply (call_settles committed_state bob_calls false 204).
  - apply committed_state_ok.
  - vm_compute. discriminate.
  - apply bob_calls_ok.
  - apply address_ok_arith.
  - reflexivity.
  - vm_compute. reflexivity.
  - apply metered_check_ok. vm_compute. reflexivity.
  - vm_compute. discriminate.
Defined.

(** C28: what a creation with init code does, on a lawful state whose account start
    nonce is set, for a transaction whose fields fit their types and init code that
    holds no STATICCALL or REVERT instruction, with enough iterations.  A creator who does not have the
    endowment gets "Not Enough Cash".  Otherwise the nonce is counted, the
    endowment moved to the address the transaction names, and the init code run
    there.  If it returns bytes that are not too large and whose deposit (200 gas
    a byte) the gas left pays for, the account has exactly these bytes as its
    code, stored under their hash, and the sender is credited for the gas left;
    apart from that the init code changed only the storage of the new account.
    If the machine throws, or the deposit is refused, the process ends with
    [exit(1)]. *)
Theorem creation_settles {D} `{TD : !TrieDB D} `{TL : !TrieLaws D} `{PL : !Platform}
  (s : State D) (tx : Transaction.t) (onOp : bool) (fuel : nat) :
  let from := Transaction.m_sender tx in
  let to := Transaction.m_receiveAddress tx in
  state_ok s -> m_accountStartNonce s <> Invalid256 -> tx_ok tx -> address_ok from ->
  Transaction.m_type tx = Transaction.ContractCreation -> Transaction.m_data tx <> [] ->
  metered (Transaction.m_data tx) -> 2 * u64 (Transaction.m_gas tx) + 4 <= Z.of_nat fuel ->
  if affords (view s) from (Transaction.m_value tx) then
    exists s1, state_ok s1 /\ veq (view s1) (view_paid (m_accountStartNonce s) from to (Transaction.m_value tx) (view s)) /\
    match machine fuel onOp (Transaction.m_gas tx) (create_context tx 0) s1 with
    | (Ok out, v) =>
        if deposit_ok out (io_gas v) then exists e left r,
          transact fuel onOp tx (Executive.new s 0) = (Ok tt, e) /\
          state_ok (Executive.m_s e) /\ 0 <= left <= Transaction.m_gas tx /\
          Executive.m_res e = Some r /\ gasUsed r = Transaction.m_gas tx - left /\ output r = out /\
          veq (view (Executive.m_s e))
            (view_addBalance (m_accountStartNonce s) from (u256 (left * Transaction.m_gasPrice tx))
              (upd_basic to (with_code (sha3 out) (shown_code out)) (view (state_after v)))) /\
          only_storage to (view (state_after v)) (view s1)
        else exists e, transact fuel onOp tx (Executive.new s 0) = (Exit 1, e)
    | (Throw _, _) => exists e, transact fuel onOp tx (Executive.new s 0) = (Exit 1, e)
    | _ => False
    end
  else exists e l, transact fuel onOp tx (Executive.new s 0) = (Throw "Not Enough Cash", e) /\
    changes s (Executive.m_s e) l.
Proof.
  intros from to Hs Hst Htx Hf Hty Hd Hm Hfu. destruct (affords _ _ _) eqn:Ha.
  2:{ by apply create_unaffordable. }
  destruct (transact_create s Hs Hst tx Htx Hf Hty Hd fuel onOp Ha Hm Hfu) as (s1 & Hs1 & V1 & H).
  exists s1. split; [done|]. split; [done|]. destruct (machine _ _ _ _ _) as [[out| | | | |] v]; try done.
  destruct (deposit_ok _ _); [|done].
  destruct H as (e & left & E & Hd' & Hv). destruct (sd_res _ _ _ _ _ _ Hd') as (r & Hr & Hg & Ho & He).
  exists e, left, r. split; [exact E|]. by destruct Hd'.
Qed.

Lemma creation_settles_witness :
  if affords (view committed_state) bob 0 then
    exists s1, state_ok s1 /\ veq (view s1) (view_paid (m_accountStartNonce committed_state) bob alice 0 (view committed_state)) /\
    match machine 204 false (Transaction.m_gas (bob_creates [0x60; 0])) (create_context (bob_creates [0x60; 0]) 0) s1 with
    | (Ok out, v) =>
        if deposit_ok out (io_gas v) then exists e left r,
          transact 204 false (bob_creates [0x60; 0]) (Executive.new committed_state 0) = (Ok tt, e) /\
          state_ok (Executive.m_s e) /\ 0 <= left <= Transaction.m_gas (bob_creates [0x60; 0]) /\
          Executive.m_res e = Some r /\ gasUsed r = Transaction.m_gas (bob_creates [0x60; 0]) - left /\ output r = out /\
          veq (view (Executive.m_s e))
            (view_addBalance (m_accountStartNonce committed_state) bob (u256 (left * Transaction.m_gasPrice (bob_creates [0x60; 0])))
              (upd_basic alice (with_code (sha3 out) (shown_code out)) (view (state_after v)))) /\
          only_storage alice (view (state_after v)) (view s1)
        else exists e, transact 204 false (bob_creates [0x60; 0]) (Executive.new committed_state 0) = (Exit 1, e)
    | (Throw _, _) => exists e, transact 204 false (bob_creates [0x60; 0]) (Executive.new committed_state 0) = (Exit 1, e)
    | _ => False
    end
  else exists e l, transact 204 false (bob_creates [0x60; 0]) (Executive.new committed_state 0) = (Throw "Not Enough Cash", e) /\
    changes committed_state (Executive.m_s e) l.
Proof.
  apply (creation_settles committed_state (bob_creates [0x60; 0]) false 204).
  - apply committed_state_ok.
  - vm_compute. discriminate.
  - apply bob_creates_ok; [by apply bytes_ok_check|simpl; lia].
  - apply address_ok_arith.
  - reflexivity.
  - discriminate.
  - apply metered_check_ok. vm_compute. reflexivity.
  - vm_compute. discriminate.
Defined.

(** ** Where the executive goes wrong *)

(** A transfer to an account without code has no defined behaviour: nothing
    was set up to run, and [finalize] reads the sub-state of the missing context. *)
Theorem plain_transfer_undefined {D} `{TD : !TrieDB D} `{TL : !TrieLaws D} `{PL : !Platform}
  (s : State D) (tx : Transaction.t) (onOp : bool) (fuel : nat) (p : Permanence) :
  state_ok s -> m_accountStartNonce s <> Invalid256 -> tx_ok tx ->
  Transaction.m_type tx = Transaction.MessageCall ->
  has_code (view s) (Transaction.m_receiveAddress tx) = false ->
  affords (view s) (Transaction.m_sender tx) (Transaction.m_value tx) = true ->
  fst (State_execute fuel onOp tx p s) = Undef "m_ext->sub of a null m_ext".
Proof.
  intros Hs Hst Htx Hty Hc Ha. destruct (transact_plain s Hs Hst tx Htx Hty fuel onOp Hc Ha) as (e & E).
  unfold State_execute. by rewrite E.
Qed.

Lemma plain_transfer_undefined_witness :
  fst (State_execute 10 false bob_calls Committed sample_state) = Undef "m_ext->sub of a null m_ext".
Proof.
  apply (plain_transfer_undefined sample_state bob_calls false 10 Committed).
  - apply sample_state_ok.
  - vm_compute. discriminate.
  - apply bob_calls_ok.
  - reflexivity.
  - vm_compute. reflexivity.
  - vm_compute. reflexivity.
Defined.

(** Bob sends init code that is an invalid instruction. *)
Definition broken_init : Transaction.t := bob_creates [0xfe].

(** An error inside a contract ends the node: the exceptions of the machine
    are [std::range_error]s, not [VMException]s, so the handler that would revert
    the state is never reached and the process exits. *)
Example broken_init_exits :
  fst (State_execute 204 false broken_init Committed committed_state) = Exit 1.
Proof. vm_compute. reflexivity. Qed.

(** *** Gas and the supply of money *)

(** The sum of the balances of the accounts in [l]. *)
Fixpoint supply (V : View) (l : list bytes) : Z :=
  match l with [] => 0 | a :: l => view_balance V a + supply V l end.
Lemma supply_same V W l : (forall b, b ∈ l -> view_balance V b = view_balance W b) -> supply V l = supply W l.
Proof. induction l as [|b l IH]; intros H; simpl; [done|]. rewrite H, IH by set_solver. done. Qed.
(** One account changed. *)
Lemma supply_change V W a l : NoDup l -> a ∈ l -> (forall b, b <> a -> view_balance W b = view_balance V b) ->
  supply W l = supply V l + (view_balance W a - view_balance V a).
Proof.
  intros Hnd Ha H. induction Hnd as [|b l Hb Hnd IH]; [by apply not_elem_of_nil in Ha|]. simpl.
  destruct (decide (b = a)) as [->|Hne].
  - rewrite (supply_same W V l); [lia|]. intros c Hc. apply H. by intros ->.
  - apply elem_of_cons in Ha as [Ha|Ha]; [by subst|]. rewrite (IH Ha), (H b Hne). lia.
Qed.
Lemma supply_ge V a l : (forall b, 0 <= view_balance V b) -> a ∈ l -> view_balance V a <= supply V l.
Proof.
  intros H. induction l as [|b l IH]; [set_solver|]. intros [->|Hin]%elem_of_cons; simpl.
  - enough (0 <= supply V l) by lia. clear IH. induction l as [|c l IH]; simpl; [lia|]. specialize (H c). lia.
  - specialize (IH Hin). specialize (H b). lia.
Qed.

Lemma view_balance_add n a v V b : 0 <= view_balance V a + v < 2 ^ 256 ->
  view_balance (view_addBalance n a v V) b = view_balance V b + (if decide (b = a) then v else 0).
Proof.
  unfold view_addBalance, view_balance. destruct (vb V a) as [x|] eqn:E; simpl; intros H.
  - destruct (decide (b = a)) as [->|]; [|lia]. rewrite E. simpl. by rewrite wrap_small by (unfold in_range; lia).
  - destruct (decide (b = a)) as [->|]; [|lia]. by rewrite E.
Qed.
Lemma view_balance_sub n a v V b :
  view_balance (upd_basic a (fun b => with_balance (b_balance b - v) b) (view_incNonce n a V)) b =
  view_balance V b - (if decide (b = a) then v else 0).
Proof.
  destruct (nonce_unseen n a V b) as (E & _). rewrite <- E. unfold view_balance. simpl.
  destruct (decide (b = a)) as [->|]; [|lia].
  unfold view_incNonce. destruct (vb V a) eqn:Ex; simpl; rewrite decide_True by done; [by rewrite Ex|done].
Qed.

(** Moving money keeps the sum, crediting it does not. *)
Lemma supply_add n a v V l : NoDup l -> a ∈ l -> 0 <= view_balance V a + v < 2 ^ 256 ->
  supply (view_addBalance n a v V) l = supply V l + v.
Proof.
  intros Hnd Ha H. rewrite (supply_change V _ a) by (done || intros b Hb; rewrite view_balance_add, decide_False by done; lia).
  rewrite view_balance_add, decide_True by done. lia.
Qed.
Lemma supply_paid n f t v V l : NoDup l -> f ∈ l -> t ∈ l -> (forall b, 0 <= view_balance V b) -> 0 <= v ->
  affords V f v = true -> supply V l < 2 ^ 256 ->
  supply (view_paid n f t v V) l = supply V l /\ forall b, 0 <= view_balance (view_paid n f t v V) b.
Proof.
  intros Hnd Hf Ht Hb Hv Ha Hs. unfold view_paid. set (W := upd_basic _ _ _).
  assert (forall b, view_balance W b = view_balance V b - (if decide (b = f) then v else 0)) as HW by apply view_balance_sub.
  assert (supply W l = supply V l - v) as Es.
  { rewrite (supply_change V W f) by (done || intros b Hne; rewrite HW, decide_False by done; lia).
    rewrite HW, decide_True by done. lia. }
  assert (forall b, 0 <= view_balance W b) as HW0.
  { intros b. rewrite HW. specialize (Hb b). destruct (decide (b = f)) as [->|]; [|lia]. unfold affords in Ha. lia. }
  pose proof (supply_ge W t l HW0 Ht) as Hle. pose proof (HW0 t).
  split; [rewrite supply_add by (done || lia); lia|].
  intros b. rewrite view_balance_add by lia. specialize (HW0 b). destruct (decide _); lia.
Qed.

Lemma view_balance_range {D} `{TD : !TrieDB D} `{TL : !TrieLaws D} (s : State D) b : state_ok s ->
  0 <= view_balance (view s) b.
Proof.
  intros Hs. unfold view_balance. rewrite view_here. destruct (here s b) as [x|] eqn:E; simpl; [|lia].
  destruct (ao_balance _ _ (here_ok s b x Hs E)). done.
Qed.

(** C40: gas is paid back but never paid for, so a call creates money.  For a call as
    in C4 whose caller has the amount, and any list of accounts that names the
    caller and the called account: if the call settles, the sum of their balances
    has grown by the price of exactly the gas that the result does not report as
    used (provided the sums fit 256 bits); if not, the process has exited. *)
Theorem unspent_gas_is_minted {D} `{TD : !TrieDB D} `{TL : !TrieLaws D} `{PL : !Platform}
  (s : State D) (tx : Transaction.t) (onOp : bool) (fuel : nat) (l : list bytes) :
  let from := Transaction.m_sender tx in
  let to := Transaction.m_receiveAddress tx in
  state_ok s -> m_accountStartNonce s <> Invalid256 -> tx_ok tx -> address_ok from ->
  Transaction.m_type tx = Transaction.MessageCall -> has_code (view s) to = true ->
  affords (view s) from (Transaction.m_value tx) = true ->
  metered (view_code (view s) to) -> 2 * u64 (Transaction.m_gas tx) + 4 <= Z.of_nat fuel ->
  NoDup l -> from ∈ l -> to ∈ l ->
  supply (view s) l + Transaction.m_gas tx * Transaction.m_gasPrice tx < 2 ^ 256 ->
  match transact fuel onOp tx (Executive.new s 0) with
  | (Ok _, e) => exists r, Executive.m_res e = Some r /\ 0 <= gasUsed r <= Transaction.m_gas tx /\
      supply (view (Executive.m_s e)) l =
      supply (view s) l + (Transaction.m_gas tx - gasUsed r) * Transaction.m_gasPrice tx
  | (Exit c, _) => c = 1
  | _ => False
  end.
Proof.
  intros from to Hs Hst Htx Hf Hty Hc Ha Hm Hfu Hnd Hfl Htl Hsum.
  destruct (transact_call s Hs Hst tx Htx Hf Hty fuel onOp Hc Ha Hm Hfu) as (s1 & Hs1 & V1 & H).
  destruct (machine _ _ _ _ _) as [[out| | | | |] v]; try done; [|by destruct H as (e & ->)].
  destruct H as (e & left & -> & Hd & _ & Hv). destruct (sd_res _ _ _ _ _ _ Hd) as (r & Hr & Hg & _ & _).
  exists r. split; [done|]. pose proof (sd_left _ _ _ _ _ _ Hd) as Hl. split; [lia|].
  destruct (tk_gasPrice tx Htx) as [Hp _]. destruct (tk_value tx Htx) as [Hvalue _].
  set (add := left * Transaction.m_gasPrice tx). assert (0 <= add <= Transaction.m_gas tx * Transaction.m_gasPrice tx) as Hadd by (unfold add; nia).
  destruct (supply_paid (m_accountStartNonce s) from to (Transaction.m_value tx) (view s) l) as [Ep Hp0]; try done;
    [intros; by apply view_balance_range|lia|].
  assert (forall b, view_balance (view (state_after v)) b = view_balance (view_paid (m_accountStartNonce s) from to (Transaction.m_value tx) (view s)) b) as Eb.
  { intros b. unfold view_balance. by rewrite (proj1 Hv), (proj1 V1). }
  assert (supply (view (state_after v)) l = supply (view s) l) as Es by (rewrite <- Ep; by apply supply_same).
  assert (0 <= view_balance (view (state_after v)) from <= supply (view s) l) as Hfrom.
  { rewrite <- Es. split; [rewrite Eb; apply Hp0|]. apply supply_ge; [|done]. intros b. rewrite Eb. apply Hp0. }
  rewrite (supply_same _ _ l (fun b _ => proj1 (same_view_codes _ _ b (sd_view _ _ _ _ _ _ Hd)))).
  fold from add. rewrite (wrap_small 256 add) by (unfold in_range; lia).
  rewrite supply_add by (done || lia). rewrite Es, Hg. unfold add. f_equal. ring.
Qed.

Lemma unspent_gas_is_minted_witness :
  match transact 204 false bob_calls (Executive.new committed_state 0) with
  | (Ok _, e) => exists r, Executive.m_res e = Some r /\ 0 <= gasUsed r <= Transaction.m_gas bob_calls /\
      supply (view (Executive.m_s e)) [bob; alice] =
      supply (view committed_state) [bob; alice] + (Transaction.m_gas bob_calls - gasUsed r) * Transaction.m_gasPrice bob_calls
  | (Exit c, _) => c = 1
  | _ => False
  end.
Proof.
  apply (unspent_gas_is_minted committed_state bob_calls false 204 [bob; alice]).
  - apply committed_state_ok.
  - vm_compute. discriminate.
  - apply bob_calls_ok.
  - apply address_ok_arith.
  - reflexivity.
  - vm_compute. reflexivity.
  - vm_compute. reflexivity.
  - apply metered_check_ok. vm_compute. reflexivity.
  - vm_compute. discriminate.
  - apply (bool_decide_unpack _). vm_compute. exact I.
  - left.
  - right. left.
  - vm_compute. reflexivity.
Defined.

(** The same on numbers: Bob had nothing and has 291 after a call that used 3 gas. *)
Example bob_gains :
  fst (balance bob committed_state) = Ok 0 /\ fst (balance alice committed_state) = Ok 10 /\
  let s' := snd (State_execute 204 false bob_calls Committed committed_state) in
  fst (balance bob s') = Ok 291 /\ fst (balance alice s') = Ok 10.
Proof. vm_compute. repeat split; reflexivity. Qed.

(** ** Execution and commit together *)

(** [State::execute] of a call of an account with code, committed, returns the
    gas used and leaves a state with empty caches and change log in which the
    tries hold the settled accounts; or the process has exited.  The database must
    have room for what is committed. *)
Theorem execute_call_commits {D} `{TD : !TrieDB D} `{TL : !TrieLaws D} `{PL : !Platform}
  (s : State D) (tx : Transaction.t) (onOp : bool) (fuel : nat) :
  let from := Transaction.m_sender tx in
  let to := Transaction.m_receiveAddress tx in
  state_ok s -> m_accountStartNonce s <> Invalid256 -> tx_ok tx -> address_ok from ->
  Transaction.m_type tx = Transaction.MessageCall ->
  has_code (view s) to = true -> affords (view s) from (Transaction.m_value tx) = true ->
  metered (view_code (view s) to) -> 2 * u64 (Transaction.m_gas tx) + 4 <= Z.of_nat fuel ->
  (forall e, transact fuel onOp tx (Executive.new s 0) = (Ok tt, e) ->
     room (m_db (Executive.m_s e)) (commit_cost (Executive.m_s e)) /\
     codes_fit (m_db (Executive.m_s e)) (map_to_list (m_cache (Executive.m_s e)))) ->
  match State_execute fuel onOp tx Committed s with
  | (Ok r, s') => exists left V,
      0 <= left <= Transaction.m_gas tx /\ gasUsed r = Transaction.m_gas tx - left /\
      state_ok s' /\ m_cache s' = ∅ /\ m_changeLog s' = [] /\ same_lasting (view s') V /\
      only_storage to V
        (view_addBalance (m_accountStartNonce s) from (u256 (left * Transaction.m_gasPrice tx))
          (view_paid (m_accountStartNonce s) from to (Transaction.m_value tx) (view s)))
  | (Exit c, _) => c = 1
  | _ => False
  end.
Proof.
  intros from to Hs Hst Htx Hf Hty Hc Ha Hm Hfu Hroom. by apply State_execute_call.
Qed.

Lemma execute_call_commits_witness :
  match State_execute 204 false bob_calls Committed committed_state with
  | (Ok r, s') => exists left V,
      0 <= left <= Transaction.m_gas bob_calls /\ gasUsed r = Transaction.m_gas bob_calls - left /\
      state_ok s' /\ m_cache s' = ∅ /\ m_changeLog s' = [] /\ same_lasting (view s') V /\
      only_storage alice V
        (view_addBalance (m_accountStartNonce committed_state) bob (u256 (left * Transaction.m_gasPrice bob_calls))
          (view_paid (m_accountStartNonce committed_state) bob alice (Transaction.m_value bob_calls) (view committed_state)))
  | (Exit c, _) => c = 1
  | _ => False
  end.
Proof.
  apply (execute_call_commits committed_state bob_calls false 204).
  - apply committed_state_ok.
  - vm_compute. discriminate.
  - apply bob_calls_ok.
  - apply address_ok_arith.
  - reflexivity.
  - vm_compute. reflexivity.
  - vm_compute. reflexivity.
  - apply metered_check_ok. vm_compute. reflexivity.
  - vm_compute. discriminate.
  - intros e E. apply (f_equal snd) in E. simpl snd in E at 2. rewrite <- E. split.
    + vm_compute. reflexivity.
    + apply no_new_code_fits. vm_compute. reflexivity.
Defined.

(** A run of the machine that returns has written its own account's storage and
    nothing else: no account's nonce, balance or code changed, no storage of
    another account, and rolling the state back to where the run started restores
    it.  The context is lawful and names no suicides yet, the code holds no
    STATICCALL or REVERT instruction, and there are enough iterations.  Nothing is
    claimed of the state after a run that throws, which ends the process. *)
Theorem contract_run_is_contained {D} `{TD : !TrieDB D} `{TL : !TrieLaws D} `{PL : !Platform}
  (x : ExtVM (State D)) (gas : Z) (onOp : bool) (fuel : nat) :
  context_ok x -> suicides (sub x) = ∅ -> metered (code x) -> 0 <= gas -> 2 * u64 gas + 4 <= Z.of_nat fuel ->
  match exec fuel (new_VM gas x onOp) with
  | (Ok _, v) =>
      only_storage (myAddress x) (view (m_s (m_ctx v))) (view (m_s x)) /\
      exists t, rollback (size (m_changeLog (m_s x))) (m_s (m_ctx v)) = (Ok tt, t) /\ veq (view t) (view (m_s x))
  | (Throw _, _) => True
  | _ => False
  end.
Proof.
  intros Hx Hu Hm Hg Hf. pose proof (exec_contained gas x onOp fuel Hx Hu Hm Hg Hf) as H.
  destruct (exec fuel _) as [[] v]; try done. destruct H as (_ & _ & [Hc Hself Hsu [l Hl] Hb Hk]).
  split; [by split|]. destruct (rollback_changes _ _ l Hl) as (t & E & _ & V & _). by exists t.
Qed.

Lemma contract_run_is_contained_witness :
  match exec 210 (new_VM 100 (sample_context sample_code) false) with
  | (Ok _, v) =>
      only_storage (myAddress (sample_context sample_code)) (view (m_s (m_ctx v))) (view (m_s (sample_context sample_code))) /\
      exists t, rollback (size (m_changeLog (m_s (sample_context sample_code)))) (m_s (m_ctx v)) = (Ok tt, t) /\
        veq (view t) (view (m_s (sample_context sample_code)))
  | (Throw _, _) => True
  | _ => False
  end.
Proof.
  apply (contract_run_is_contained (sample_context sample_code) 100 false 210).
  - apply sample_context_ok; [by apply bytes_ok_check|simpl; lia].
  - reflexivity.
  - apply metered_check_ok. vm_compute. reflexivity.
  - lia.
  - vm_compute. discriminate.
Defined.
