(* ===== verification/ScFaceThms.v ===== *)
(** * Theorems about contract outputs

    The composition of the script layer, [SmartContract] and the account state:
    the scripts of the wallet are read back field by field, an output is executed
    as the transaction its fields describe, a call settles with a refund, and a
    call that cannot be paid for leaves the accounts as they were. *)

From S2P Require Import Prelude Script ScriptProofs Interpreter InterpreterSafe InterpreterThms.
From S2P Require Import ScFixedHash ScSha3 ScRlp ScState ScStateView ScVersions ScStateOps ScStateRun ScCommit.
From S2P Require Import ScInstruction ScVm ScVmLogic ScVmOpt ScVmRun ScVmThms ScTransaction ScExtVm ScExecutive ScExecutiveRun ScExecutiveThms ScFace.
From Stdlib Require Import ZifyBool.
Local Opaque EmptySHA3 EmptyTrie sha3.

(** ** Scripts and fields *)
Section Fields.
Context `{SC : ScriptCrypto}.

(** What the fields of a contract transaction must be to be carried by a script. *)
Record fields_ok (amount : Z) (caller : bytes) (limit price : Z) (data addr : bytes) : Prop := {
  fo_amount : 0 <= amount < 2 ^ 63;
  fo_limit : 0 <= limit < 2 ^ 63;
  fo_price : 0 <= price < 2 ^ 63;
  fo_caller : address_ok caller;
  fo_addr : address_ok addr;
  fo_data : bytes_ok data /\ size data <= MAX_SCRIPT_ELEMENT_SIZE;
}.
Definition wallet_script (creation : bool) (amount : Z) (caller : bytes) (limit price : Z) (data addr : bytes) : outcome bytes :=
  if creation then create_script caller limit price data addr else call_script amount caller limit price data addr.
Definition field_list (creation : bool) (bv caller bl bp data addr : bytes) : list bytes :=
  (if creation then [] else [bv]) ++ [caller; bl; bp; data; addr].
Definition contract_opcode (creation : bool) : Z := if creation then OP_CREATE else OP_CALL.
Definition contract_flag (creation : bool) : SmartContractFlags := if creation then ISCREATE else ISMESSAGECALL.

Lemma push_data_instr b s : CScript.push_data b s = s ++ instr_bytes (Push b).
Proof. done. Qed.
Lemma script_bytes_app l m : script_bytes (l ++ m) = script_bytes l ++ script_bytes m.
Proof. unfold script_bytes. by rewrite map_app, concat_app. Qed.
Lemma script_bytes_one i : script_bytes [i] = instr_bytes i.
Proof. unfold script_bytes. simpl. by rewrite app_nil_r. Qed.

Lemma wallet_script_fields creation amount caller limit price data addr bv bl bp :
  CScriptNum.serialize amount = Ok bv -> CScriptNum.serialize limit = Ok bl -> CScriptNum.serialize price = Ok bp ->
  wallet_script creation amount caller limit price data addr =
  Ok (contract_script (field_list creation bv caller bl bp data addr) (contract_opcode creation)).
Proof.
  intros Ev El Ep. unfold wallet_script, create_script, call_script, CScript.push_num, contract_script, script_bytes.
  rewrite Ev, El, Ep. destruct creation; cbn [mbind outcome_bind app]; unfold CScript.push_opcode, CScript.push_data;
    cbn [orb Z.ltb Z.compare Pos.compare Pos.compare_cont OP_CREATE OP_CALL field_list contract_opcode app map concat instr_bytes];
    rewrite app_nil_r, <- !app_assoc; done.
Qed.

Lemma push_header_length b : size (CScript.push_header b) <= 5.
Proof.
  unfold CScript.push_header. repeat case_match; cbn [length]; rewrite ?length_WriteLE; lia.
Qed.
Lemma script_bytes_size l : size (script_bytes (map Push l)) <= 5 * size l + size (concat l).
Proof.
  induction l as [|b l IH]; [simpl; lia|]. unfold script_bytes in *. cbn [map concat instr_bytes]. rewrite !length_app.
  pose proof (push_header_length b). cbn [length]. lia.
Qed.

Lemma not_minimal b : bytes_ok b -> size b <= MAX_SCRIPT_ELEMENT_SIZE -> pushable SCRIPT_EXEC_BYTE_CODE b.
Proof. intros Hb Hs. split; [split; [done|unfold MAX_SCRIPT_ELEMENT_SIZE in *; lia]|]. by split. Qed.

(** The stack the interpreter leaves for a script of the wallet. *)
Lemma wallet_script_runs creation amount caller limit price data addr : fields_ok amount caller limit price data addr ->
  exists bv bl bp s,
    CScriptNum.vch_to_uint64 bv = Ok amount /\ CScriptNum.vch_to_uint64 bl = Ok limit /\ CScriptNum.vch_to_uint64 bp = Ok price /\
    wallet_script creation amount caller limit price data addr = Ok s /\
    CScript.HasOpCreate s = creation /\ CScript.HasOpCall s = negb creation /\
    EvalScript SCRIPT_EXEC_BYTE_CODE BaseSignatureChecker SIGVERSION_BASE [] s =
    (Ok (true, SCRIPT_ERR_UNKNOWN_ERROR),
     [contract_opcode creation] :: addr :: data :: bp :: bl :: caller :: if creation then [] else [bv]).
Proof.
  intros [Ha Hl Hp (Hc & Hcl) (Hd & Hdl) (Hx & Hxl)].
  destruct (vch_to_uint64_serialize amount ltac:(lia)) as (bv & Ev & Hbv & Hsv & Rv).
  destruct (vch_to_uint64_serialize limit ltac:(lia)) as (bl & El & Hbl & Hsl & Rl).
  destruct (vch_to_uint64_serialize price ltac:(lia)) as (bp & Ep & Hbp & Hsp & Rp).
  rewrite (proj2 (Z.ltb_ge _ _)) in Rv by lia. rewrite (proj2 (Z.ltb_ge _ _)) in Rl by lia. rewrite (proj2 (Z.ltb_ge _ _)) in Rp by lia.
  pose proof (wallet_script_fields creation amount caller limit price data addr bv bl bp Ev El Ep) as E.
  assert (Forall (pushable SCRIPT_EXEC_BYTE_CODE) (field_list creation bv caller bl bp data addr)) as Hpush.
  { unfold field_list, MAX_SCRIPT_ELEMENT_SIZE in *. destruct creation; cbn [app];
      repeat (apply Forall_cons_iff; split); try apply Forall_nil_2; apply not_minimal; unfold MAX_SCRIPT_ELEMENT_SIZE; (done || lia). }
  exists bv, bl, bp. eexists. do 3 (split; [done|]). split; [exact E|].
  assert (contract_op (contract_opcode creation)) as Hop by (destruct creation; [by left|by right; left]).
  assert (forall op, OP_PUSHDATA4 < op -> CScript.Find op (contract_script (field_list creation bv caller bl bp data addr) (contract_opcode creation))
    = if contract_opcode creation =? op then 1 else 0) as Hfind.
  { intros op Ho. unfold contract_script. rewrite <- (script_bytes_one (Opcode (contract_opcode creation))) at 1.
    rewrite <- script_bytes_app, Find_count; [|apply Forall_app; split; [by eapply pushable_instr|]|done].
    - rewrite List.filter_app, length_app. destruct creation; cbn [field_list app map List.filter is_opcode length contract_opcode].
      all: destruct (_ =? op); reflexivity.
    - apply Forall_cons_iff. split; [|constructor]. destruct creation; unfold instr_ok, contract_opcode, OP_PUSHDATA4, OP_CREATE, OP_CALL; lia. }
  split; [unfold CScript.HasOpCreate; rewrite Hfind by done; by destruct creation|].
  split; [unfold CScript.HasOpCall; rewrite Hfind by done; by destruct creation|].
  rewrite EvalScript_contract; [by destruct creation|done|done| |by destruct creation].
  unfold contract_script. rewrite length_app. cbn [length].
  pose proof (script_bytes_size (field_list creation bv caller bl bp data addr)) as Hsz.
  unfold field_list, MAX_SCRIPT_SIZE, MAX_SCRIPT_ELEMENT_SIZE in *.
  destruct creation; cbn [app length concat] in *; rewrite ?length_app in *; cbn [length] in *; lia.
Qed.

Lemma ParseStack_fields creation op addr data bp bl caller bv limit price amount c :
  CScriptNum.vch_to_uint64 bl = Ok limit -> CScriptNum.vch_to_uint64 bp = Ok price ->
  CScriptNum.vch_to_uint64 bv = Ok amount -> flag c = contract_flag creation ->
  ParseStack (op :: addr :: data :: bp :: bl :: caller :: if creation then [] else [bv]) c =
  (Ok true, mkContract (flag c) (h160 addr) (h160 caller) caller data price limit (if creation then 0 else amount)).
Proof.
  intros El Ep Ev Hf. unfold ParseStack, mbind, SE_bind, lift_outcome, modify, gets, mret, SE_ret. cbn [pop_back back].
  rewrite Ep, El. destruct c; cbn in *. subst. destruct creation; [done|]. cbn. by rewrite Ev.
Qed.
Lemma h160_address a : address_ok a -> h160 a = a.
Proof. intros (_ & H). unfold h160, FixedHash.of_bytes. by rewrite bool_decide_true. Qed.
End Fields.

(** C37: the script the wallet builds for a creation or a call carries its fields to
    the engine.  The script is recognised as what it is, the interpreter leaves a
    stack, and [ParseStack] reads from it the address, the caller, the data, the
    gas limit, the gas price and (for a call) the amount the wallet was given. *)
Theorem contract_script_roundtrip `{SC : ScriptCrypto} (creation : bool) (amount : Z) (caller : bytes) (limit price : Z)
    (data addr : bytes) (c : SmartContract) :
  fields_ok amount caller limit price data addr -> flag c = contract_flag creation ->
  exists s st, wallet_script creation amount caller limit price data addr = Ok s /\
    CScript.HasOpCreate s = creation /\ CScript.HasOpCall s = negb creation /\
    EvalScript SCRIPT_EXEC_BYTE_CODE BaseSignatureChecker SIGVERSION_BASE [] s = (Ok (true, SCRIPT_ERR_UNKNOWN_ERROR), st) /\
    ParseStack st c =
    (Ok true, mkContract (flag c) addr caller caller data price limit (if creation then 0 else amount)).
Proof.
  intros Hf Hfl. destruct (wallet_script_runs creation amount caller limit price data addr Hf)
    as (bv & bl & bp & s & Rv & Rl & Rp & E & H1 & H2 & Ee).
  eexists s, _. do 4 (split; [eassumption|]). rewrite (ParseStack_fields creation _ _ _ _ _ _ _ limit price amount) by done.
  by rewrite !h160_address by apply Hf.
Qed.
Definition sample_caller : bytes := replicate 20 7.
Definition sample_addr : bytes := replicate 20 9.
Lemma sample_fields_ok : fields_ok 5 sample_caller 100 3 [0x60; 0x00] sample_addr.
Proof.
  split; try lia; try (split; [apply bytes_ok_check; reflexivity|reflexivity]).
  split; [apply bytes_ok_check; reflexivity|vm_compute; congruence].
Qed.
Lemma contract_script_roundtrip_witness :
  exists s st, wallet_script false 5 sample_caller 100 3 [0x60; 0x00] sample_addr = Ok s /\
    CScript.HasOpCreate s = false /\ CScript.HasOpCall s = negb false /\
    EvalScript (SC := sample_crypto) SCRIPT_EXEC_BYTE_CODE BaseSignatureChecker SIGVERSION_BASE [] s =
      (Ok (true, SCRIPT_ERR_UNKNOWN_ERROR), st) /\
    ParseStack st (set_flag ISMESSAGECALL default_contract) =
    (Ok true, mkContract ISMESSAGECALL sample_addr sample_caller sample_caller [0x60; 0x00] 3 100 5).
Proof.
  apply (@contract_script_roundtrip sample_crypto false 5 sample_caller 100 3 [0x60; 0x00] sample_addr
    (set_flag ISMESSAGECALL default_contract)).
  - apply sample_fields_ok.
  - reflexivity.
Defined.

(** ** Outputs and the account state *)
Section Outputs.
Context {D : Type} `{TD : !TrieDB D} `{TL : !TrieLaws D} `{PL : !Platform} `{SC : !ScriptCrypto} (CAmount_of : Z -> Z).

Definition parsed (creation : bool) (amount : Z) (caller : bytes) (limit price : Z) (data addr : bytes) : SmartContract :=
  mkContract (contract_flag creation) addr caller caller data price limit (if creation then 0 else amount).

(** An output of the wallet is executed as the transaction of its fields. *)
Lemma exec_output_runs creation amount caller limit price data addr n s (e : Env (D := D)) :
  fields_ok amount caller limit price data addr -> wallet_script creation amount caller limit price data addr = Ok s ->
  exec_output CAmount_of (mkTxOut n s) e = run_contract CAmount_of (set_obj (parsed creation amount caller limit price data addr) e).
Proof.
  intros Hf Es. destruct (wallet_script_runs creation amount caller limit price data addr Hf)
    as (bv & bl & bp & s' & Rv & Rl & Rp & E & H1 & H2 & Ee).
  rewrite E in Es. injection Es as ->. unfold exec_output. cbn [scriptPubKey]. rewrite H1, H2, Ee.
  replace (creation || negb creation) with true by (by destruct creation).
  rewrite (SE_bind_ok _ _ _ (true, SCRIPT_ERR_UNKNOWN_ERROR) e) by done.
  set (e1 := set_obj (set_flag (contract_flag creation) (obj e)) e).
  rewrite (SE_bind_ok _ _ _ tt e1) by (by destruct creation).
  erewrite (SE_bind_ok _ _ e1 true).
  2:{ unfold in_obj, zoom. rewrite (ParseStack_fields creation _ _ _ _ _ _ _ limit price amount); done. }
  cbn [negb obj e1 set_obj flag set_flag]. by rewrite !h160_address by apply Hf.
Qed.

Lemma scTx_ok creation amount caller limit price data addr : fields_ok amount caller limit price data addr ->
  tx_ok (scTx (parsed creation amount caller limit price data addr)).
Proof.
  intros [Ha Hl Hp (Hc & Hcl) (Hd & Hdl) (Hx & Hxl)]. unfold in_range in *.
  split; cbn; try (unfold in_range; destruct creation; lia); try done.
  - by destruct creation.
  - unfold MAX_SCRIPT_ELEMENT_SIZE in *. split; [done|lia].
Qed.
Lemma iterations_enough g : 2 * u64 g + 4 <= Z.of_nat (iterations g).
Proof.
  unfold iterations. pose proof (wrap_range 64 g ltac:(lia)) as H. unfold in_range in H. lia.
Qed.

(** The refunds after a run that left [left] gas. *)
Definition refunds_of (price left : Z) (caller : bytes) : list CTxOut :=
  let refund := u256 (left * price) in
  if 0 <? refund then [mkTxOut (CAmount_of refund) (refund_script caller)] else [].

Lemma run_contract_ok c (e : Env (D := D)) r s' :
  state_ok (pState e) -> obj e = c -> in_range 256 (gasLimit c - gasUsed r) ->
  State_execute (iterations (gasLimit c)) false (scTx c) Committed (pState e) = (Ok r, s') ->
  run_contract CAmount_of e =
  (Ok tt, mkEnv c s' (u256 ((gasLimit c - gasUsed r) * gasPrice c))
            (vRefundGasFee e ++ refunds_of (gasPrice c) (gasLimit c - gasUsed r) (fabCallerAddress c))).
Proof.
  intros Hs Hc Hg E. unfold run_contract, refunds_of. rewrite (SE_bind_ok _ _ _ c e) by (unfold gets; by rewrite Hc).
  rewrite (SE_bind_ok _ _ _ (m_state_root (pState e)) e) by (unfold in_pState, zoom; rewrite rootHash_spec by done; by destruct e).
  unfold catch_all.
  rewrite (SE_bind_ok _ _ _ r (set_pState s' e)) by (unfold in_pState, zoom; by rewrite E).
  cbv zeta. rewrite (wrap_small 256 (gasLimit c - gasUsed r)) by done.
  set (refund := u256 _). rewrite (SE_bind_ok _ _ _ tt (set_refundGasAmount refund (set_pState s' e))) by done.
  unfold when. destruct (0 <? refund).
  - unfold modify, set_vRefundGasFee, set_refundGasAmount, set_pState. cbn. by rewrite Hc.
  - unfold mret, SE_ret, set_refundGasAmount, set_pState. cbn. by rewrite Hc, app_nil_r.
Qed.

Lemma run_contract_exit c (e : Env (D := D)) x s' :
  state_ok (pState e) -> obj e = c -> State_execute (iterations (gasLimit c)) false (scTx c) Committed (pState e) = (Exit x, s') ->
  fst (run_contract CAmount_of e) = Exit x.
Proof.
  intros Hs Hc E. unfold run_contract. rewrite (SE_bind_ok _ _ _ c e) by (unfold gets; by rewrite Hc).
  rewrite (SE_bind_ok _ _ _ (m_state_root (pState e)) e) by (unfold in_pState, zoom; rewrite rootHash_spec by done; by destruct e).
  unfold catch_all.
  unfold mbind, SE_bind, in_pState, zoom. by rewrite E.
Qed.

Lemma run_contract_throw c (e : Env (D := D)) w s' t :
  state_ok (pState e) -> obj e = c -> State_execute (iterations (gasLimit c)) false (scTx c) Committed (pState e) = (Throw w, s') ->
  setRoot (m_state_root (pState e)) s' = (Ok tt, t) ->
  run_contract CAmount_of e = (Ok tt, set_pState t e).
Proof.
  intros Hs Hc E Es. unfold run_contract. rewrite (SE_bind_ok _ _ _ c e) by (unfold gets; by rewrite Hc).
  rewrite (SE_bind_ok _ _ _ (m_state_root (pState e)) e) by (unfold in_pState, zoom; rewrite rootHash_spec by done; by destruct e).
  unfold catch_all.
  unfold mbind at 1, SE_bind at 1. unfold in_pState at 1, zoom at 1. rewrite E. cbn [recast].
  unfold in_pState, zoom. cbn [pState set_pState]. by rewrite Es.
Qed.
End Outputs.

(** C29: an output built by the wallet, from fields a script can carry, for a call of
    an account with code.  The state is lawful and its account start nonce set, the caller has the amount, the code
    holds no STATICCALL or REVERT instruction, and the database has room for what
    the call would commit.  Executing the output either ends the process with
    [exit(1)], or leaves in the tries the accounts after the call of these fields
    (the nonce counted, the amount moved, the contract's storage possibly changed,
    the caller credited with the price of the gas left) and empty caches.  The same
    sum is then paid a second time: if it is positive, exactly one refund output
    that pays it to the hash of the caller's key is appended, and if it is zero
    none. *)
Theorem call_output_settles {D} `{TD : !TrieDB D} `{TL : !TrieLaws D} `{PL : !Platform} `{SC : !ScriptCrypto} (CAmount_of : Z -> Z)
    (amount : Z) (caller : bytes) (limit price : Z) (data addr : bytes) (n : Z) (script : bytes) (e : Env (D := D)) :
  let s := pState e in
  let tx := scTx (parsed false amount caller limit price data addr) in
  fields_ok amount caller limit price data addr -> call_script amount caller limit price data addr = Ok script ->
  state_ok s -> m_accountStartNonce s <> Invalid256 ->
  has_code (view s) addr = true -> affords (view s) caller amount = true -> metered (view_code (view s) addr) ->
  commits (iterations limit) false tx s ->
  match exec_output CAmount_of (mkTxOut n script) e with
  | (Ok _, e') => exists left V,
      0 <= left <= limit /\ state_ok (pState e') /\ m_cache (pState e') = ∅ /\ same_lasting (view (pState e')) V /\
      only_storage addr V
        (view_addBalance (m_accountStartNonce s) caller (u256 (left * price))
          (view_paid (m_accountStartNonce s) caller addr amount (view s))) /\
      refundGasAmount e' = u256 (left * price) /\
      vRefundGasFee e' = vRefundGasFee e ++ refunds_of CAmount_of price left caller
  | (Exit c, _) => c = 1
  | _ => False
  end.
Proof.
  intros s tx Hf Hscript Hs Hst Hc Ha Hm Hroom.
  rewrite (exec_output_runs CAmount_of false amount caller limit price data addr) by done.
  set (c := parsed false amount caller limit price data addr) in *. set (e1 := set_obj c e).
  pose proof (State_execute_call (iterations limit) false s tx Hs Hst (scTx_ok false _ _ _ _ _ _ Hf) (fo_caller _ _ _ _ _ _ Hf)
    eq_refl Hc Ha Hm (iterations_enough limit) Hroom) as H.
  destruct (State_execute (iterations limit) false tx Committed s) as [[r| | | |x|] s'] eqn:E; try done.
  - destruct H as (left & V & Hl & Hg & Hok & Hca & _ & Hv & Ho). cbn in Hl, Hg.
    pose proof (fo_limit _ _ _ _ _ _ Hf) as Hlim.
    assert (gasLimit c - gasUsed r = left) as Eleft by (cbn; lia).
    rewrite (run_contract_ok CAmount_of c e1 r s'); [|done|done|unfold in_range; lia|done].
    rewrite Eleft. exists left, V. do 5 (split; [done|]). done.
  - pose proof (run_contract_exit CAmount_of c e1 x s' Hs eq_refl E) as Hx.
    destruct (run_contract CAmount_of e1) as [o e2]. cbn in Hx. by subst.
Qed.

(** Bob's wallet builds a call of the contract at Alice's address. *)
#[local] Existing Instance sample_platform.
Lemma bob_fields_ok : fields_ok 0 bob 100 3 [] alice.
Proof. split; try lia; try apply address_ok_arith. split; [constructor|vm_compute; congruence]. Qed.
Definition bob_script : bytes := match call_script 0 bob 100 3 [] alice with Ok s => s | _ => [] end.
Definition bob_env : Env := mkEnv default_contract committed_state 0 [].
Lemma bob_commits : commits (iterations 100) false bob_calls committed_state.
Proof.
  intros e E. apply (f_equal snd) in E. simpl snd in E at 2. rewrite <- E. split.
  - vm_compute. reflexivity.
  - apply no_new_code_fits. vm_compute. reflexivity.
Qed.
Lemma call_output_settles_witness :
  match exec_output (SC := sample_crypto) id (mkTxOut 0 bob_script) bob_env with
  | (Ok _, e') => exists left V,
      0 <= left <= 100 /\ state_ok (pState e') /\ m_cache (pState e') = ∅ /\ same_lasting (view (pState e')) V /\
      only_storage alice V
        (view_addBalance (m_accountStartNonce committed_state) bob (u256 (left * 3))
          (view_paid (m_accountStartNonce committed_state) bob alice 0 (view committed_state))) /\
      refundGasAmount e' = u256 (left * 3) /\
      vRefundGasFee e' = vRefundGasFee bob_env ++ refunds_of id 3 left bob
  | (Exit c, _) => c = 1
  | _ => False
  end.
Proof.
  apply (@call_output_settles _ _ _ _ sample_crypto id 0 bob 100 3 [] alice 0 bob_script bob_env).
  - apply bob_fields_ok.
  - vm_compute. reflexivity.
  - apply committed_state_ok.
  - vm_compute. discriminate.
  - vm_compute. reflexivity.
  - vm_compute. reflexivity.
  - apply metered_check_ok. vm_compute. reflexivity.
  - apply bob_commits.
Defined.

(** C38: an output of the wallet for a call whose amount the caller does not have
    changes nothing, when its fields are such as a script can carry and it is executed
    on a lawful state with empty caches (as after a commit), whose account start
    nonce is set: the exception of the transfer is caught, the root from before
    is reopened, every account is as it was, and no refund is made. *)
Theorem unpayable_output_harmless {D} `{TD : !TrieDB D} `{TL : !TrieLaws D} `{PL : !Platform} `{SC : !ScriptCrypto} (CAmount_of : Z -> Z)
    (amount : Z) (caller : bytes) (limit price : Z) (data addr : bytes) (n : Z) (script : bytes) (e : Env (D := D)) :
  let s := pState e in
  fields_ok amount caller limit price data addr -> call_script amount caller limit price data addr = Ok script ->
  state_ok s -> m_cache s = ∅ -> m_accountStartNonce s <> Invalid256 -> affords (view s) caller amount = false ->
  exists t, exec_output CAmount_of (mkTxOut n script) e =
      (Ok tt, mkEnv (parsed false amount caller limit price data addr) t (refundGasAmount e) (vRefundGasFee e)) /\
    veq (view t) (view s) /\ m_cache t = ∅ /\ m_state_root t = m_state_root s.
Proof.
  intros s Hf Hscript Hs Hca Hst Ha.
  rewrite (exec_output_runs CAmount_of false amount caller limit price data addr) by done.
  set (c := parsed false amount caller limit price data addr).
  destruct (State_execute_unaffordable (iterations limit) false Committed s (scTx c) Hs Hst (scTx_ok false _ _ _ _ _ _ Hf) eq_refl Ha)
    as (s' & l & E & Hch).
  destruct (setRoot_spec s s' Hs Hca (ch_db _ _ _ Hch)) as (t & Et & V & Hr & _ & Hct & _).
  exists t. split; [|done]. by rewrite (run_contract_throw CAmount_of c (set_obj c e) "Not Enough Cash" s' t).
Qed.

(** Bob has nothing and sends 5. *)
Lemma bob_poor_ok : fields_ok 5 bob 100 3 [] alice.
Proof. split; try lia; try apply address_ok_arith. split; [constructor|vm_compute; congruence]. Qed.
Definition bob_poor_script : bytes := match call_script 5 bob 100 3 [] alice with Ok s => s | _ => [] end.
Lemma unpayable_output_harmless_witness :
  exists t, exec_output (SC := sample_crypto) id (mkTxOut 0 bob_poor_script) bob_env =
      (Ok tt, mkEnv (parsed false 5 bob 100 3 [] alice) t 0 []) /\
    veq (view t) (view committed_state) /\ m_cache t = ∅ /\ m_state_root t = m_state_root committed_state.
Proof.
  apply (@unpayable_output_harmless _ _ _ _ sample_crypto id 5 bob 100 3 [] alice 0 bob_poor_script bob_env).
  - apply bob_poor_ok.
  - vm_compute. reflexivity.
  - apply committed_state_ok.
  - apply committed_state_ok.
  - vm_compute. discriminate.
  - vm_compute. reflexivity.
Defined.

(** An output that holds a contract opcode and too few fields has no defined
    behaviour.  The transaction counts as a contract transaction, the interpreter
    succeeds on it, and [ParseStack] reads the back of an empty vector, for every
    number of fields under five. *)
Theorem short_contract_undefined {D} `{TD : !TrieDB D} `{PL : !Platform} `{SC : !ScriptCrypto} (CAmount_of : Z -> Z)
    (e : Env (D := D)) (n : Z) (k : nat) :
  (k < 5)%nat ->
  let out := mkTxOut n (contract_script (replicate k []) OP_CREATE) in
  HasCreateOrCall (mkTx [out]) = true /\
  exists w, fst (TxContractExec CAmount_of (mkTx [out]) e) = Undef w.
Proof.
  intros Hk. do 5 (destruct k as [|k]; [split; [reflexivity|eexists; reflexivity]|]). lia.
Qed.
Lemma short_contract_undefined_witness :
  let out := mkTxOut 0 (contract_script (replicate 0 []) OP_CREATE) in
  HasCreateOrCall (mkTx [out]) = true /\
  exists w, fst (TxContractExec (SC := sample_crypto) id (mkTx [out]) bob_env) = Undef w.
Proof. apply (short_contract_undefined (SC := sample_crypto) id bob_env 0 0). lia. Defined.
