(* ===== verification/Coins.v ===== *)
(** * Unspent outputs: coins, the cache of coins, the coin database

    Model of [class Coin], [CCoinsView], [CCoinsViewCache] ([src/src/coins.h],
    [coins.cpp]) and [CCoinsViewDB] ([src/src/txdb.cpp]), and of the parts of a
    transaction they use ([src/src/primitives/transaction.h]).

    A view is a mutable object: its [const] methods may fill a cache.  A hash of
    256 bits is its bytes.  [CCoinsMap] is a map; the order in which it is walked
    is that of [map_to_list], on which no result depends ([CoinsThms]). *)

From S2P Require Import Prelude Script.

(** ** Transactions *)
Definition uint256_null : bytes := replicate 32 0.
Definition IsNull256 (h : bytes) : bool := forallb (Z.eqb 0) h.

Record COutPoint := mkOutPoint { op_hash : bytes; op_n : Z }.
#[global] Instance COutPoint_eq_dec : EqDecision COutPoint.
Proof. solve_decision. Defined.
#[global] Instance COutPoint_countable : Countable COutPoint.
Proof. refine (inj_countable' (fun o => (op_hash o, op_n o)) (fun '(h, n) => mkOutPoint h n) _). by intros []. Defined.
Definition COutPoint_IsNull (o : COutPoint) : bool := IsNull256 (op_hash o) && (op_n o =? 2 ^ 32 - 1).

Record CTxOut := mkTxOut { nValue : Z; scriptPubKey : bytes }.
Definition CTxOut_null : CTxOut := mkTxOut (-1) [].
Definition CTxOut_IsNull (t : CTxOut) : bool := nValue t =? -1.

Record CTxIn := mkTxIn { prevout : COutPoint; scriptSig : bytes; nSequence : Z; scriptWitness : list bytes }.
Record CTransaction := mkTx { nVersion : Z; vin : list CTxIn; vout : list CTxOut; nLockTime : Z; tx_hash : bytes }.
Definition IsCoinBase (tx : CTransaction) : bool :=
  match vin tx with [i] => COutPoint_IsNull (prevout i) | _ => false end.

(** ** [class Coin]

    [nHeight] is a field of 31 bits: the heights that reach it are those of
    blocks, ints that are not negative, so nothing is cut off and the field is
    a [Z] here. *)
Record Coin := mkCoin { out : CTxOut; fCoinBase : bool; nHeight : Z }.
Definition coinEmpty : Coin := mkCoin CTxOut_null false 0.
Definition Coin_Clear (c : Coin) : Coin := mkCoin CTxOut_null false 0.
Definition IsSpent (c : Coin) : bool := CTxOut_IsNull (out c).

(** [memusage::MallocUsage] with pointers of eight bytes, and the memory of a
    script: 28 bytes are held in the object, and a script that was copied or read
    has no more capacity than its length. *)
Definition MallocUsage (alloc : Z) : Z := if alloc =? 0 then 0 else Z.shiftl (Z.shiftr (alloc + 31) 4) 4.
Definition DynamicMemoryUsage (c : Coin) : Z :=
  MallocUsage (if size (scriptPubKey (out c)) <=? 28 then 0 else size (scriptPubKey (out c))).

(** [struct CCoinsCacheEntry] *)
Definition DIRTY : Z := 1.
Definition FRESH : Z := 2.
Record CCoinsCacheEntry := mkEntry { coin : Coin; flags : Z }.
Definition has (f : Z) (e : CCoinsCacheEntry) : bool := negb (Z.land (flags e) f =? 0).
Abbreviation CCoinsMap := (gmap COutPoint CCoinsCacheEntry).

(** ** [class CCoinsView]

    [GetCoin] gives the coin when it returns true.  [BatchWrite] changes the view
    and the map it is given. *)
Class CCoinsView (V : Type) := {
  GetCoin : COutPoint -> SE V (option Coin);
  HaveCoin : COutPoint -> SE V bool;
  GetBestBlock : SE V bytes;
  BatchWrite : bytes -> SE (V * CCoinsMap) bool
}.

(** The loop over [mapCoins]: an entry is dealt with and erased. *)
Fixpoint for_entries {V} (body : COutPoint -> CCoinsCacheEntry -> SE V unit) (l : list (COutPoint * CCoinsCacheEntry)) :
    SE (V * CCoinsMap) unit :=
  match l with
  | [] => mret tt
  | (o, e) :: l =>
    zoom fst (fun v s => (v, snd s)) (body o e);;
    modify (fun s => (fst s, delete o (snd s)));;
    for_entries body l
  end.

(** ** [class CCoinsViewCache] *)
Definition MAX_BLOCK_WEIGHT : Z := 4000000.
Record CCoinsViewCache (V : Type) := mkCache {
  base : V;
  hashBlock : bytes;
  cacheCoins : CCoinsMap;
  cachedCoinsUsage : Z
}.
Arguments mkCache {V}.
Arguments base {V}.
Arguments hashBlock {V}.
Arguments cacheCoins {V}.
Arguments cachedCoinsUsage {V}.

Module Cache.
Section Cache.
Context {V : Type} `{CV : !CCoinsView V}.
Abbreviation M := (SE (CCoinsViewCache V)).

Definition set_base b (c : CCoinsViewCache V) : CCoinsViewCache V := mkCache b (hashBlock c) (cacheCoins c) (cachedCoinsUsage c).
Definition set_hashBlock h (c : CCoinsViewCache V) : CCoinsViewCache V := mkCache (base c) h (cacheCoins c) (cachedCoinsUsage c).
Definition set_cacheCoins m (c : CCoinsViewCache V) : CCoinsViewCache V := mkCache (base c) (hashBlock c) m (cachedCoinsUsage c).
Definition set_usage u (c : CCoinsViewCache V) : CCoinsViewCache V := mkCache (base c) (hashBlock c) (cacheCoins c) u.
Definition in_base {A} (m : SE V A) : M A := zoom base set_base m.

(** [CCoinsViewCache(baseIn)] *)
Definition new (baseIn : V) : CCoinsViewCache V := mkCache baseIn uint256_null ∅ 0.

(** [cacheCoins[o] = e], [cacheCoins.erase(o)], [cachedCoinsUsage += n] at the width of [size_t] *)
Definition store (o : COutPoint) (e : CCoinsCacheEntry) : M unit := modify (fun c => set_cacheCoins (<[o := e]> (cacheCoins c)) c).
Definition erase (o : COutPoint) : M unit := modify (fun c => set_cacheCoins (delete o (cacheCoins c)) c).
Definition use (n : Z) : M unit := modify (fun c => set_usage (u64 (cachedCoinsUsage c + n)) c).

(** [FetchCoin(outpoint)]: the entry the iterator points to *)
Definition FetchCoin (outpoint : COutPoint) : M (option CCoinsCacheEntry) :=
  m ← gets cacheCoins;
  match m !! outpoint with
  | Some e => mret (Some e)
  | None =>
    r ← in_base (GetCoin outpoint);
    match r with
    | None => mret None
    | Some tmp =>
      let ret := mkEntry tmp (if IsSpent tmp then FRESH else 0) in
      store outpoint ret;;
      use (DynamicMemoryUsage tmp);;
      mret (Some ret)
    end
  end.

Definition GetCoin_ (outpoint : COutPoint) : M (option Coin) :=
  it ← FetchCoin outpoint;
  mret (match it with Some e => if negb (IsSpent (coin e)) then Some (coin e) else None | None => None end).

(** [AddCoin(outpoint, coin, possible_overwrite)] *)
Definition AddCoin (outpoint : COutPoint) (x : Coin) (possible_overwrite : bool) : M unit :=
  assertion (negb (IsSpent x)) "!coin.IsSpent()";;
  if CScript.IsUnspendable (scriptPubKey (out x)) then mret tt
  else
    m ← gets cacheCoins;
    let inserted := bool_decide (m !! outpoint = None) in
    let it := default (mkEntry coinEmpty 0) (m !! outpoint) in
    store outpoint it;;
    when (negb inserted) (use (- DynamicMemoryUsage (coin it)));;
    fresh ← (if negb possible_overwrite then
               if negb (IsSpent (coin it)) then throw "Adding new coin that replaces non-pruned entry"
               else mret (negb (has DIRTY it))
             else mret false);
    store outpoint (mkEntry x (Z.lor (flags it) (Z.lor DIRTY (if (fresh : bool) then FRESH else 0))));;
    use (DynamicMemoryUsage x).

(** [SpendCoin(outpoint, moveout)]: the result and what is moved out *)
Definition SpendCoin (outpoint : COutPoint) : M (option Coin) :=
  it ← FetchCoin outpoint;
  match it with
  | None => mret None
  | Some e =>
    use (- DynamicMemoryUsage (coin e));;
    (if has FRESH e then erase outpoint
     else store outpoint (mkEntry (Coin_Clear (coin e)) (Z.lor (flags e) DIRTY)));;
    mret (Some (coin e))
  end.

Definition AccessCoin (outpoint : COutPoint) : M Coin :=
  it ← FetchCoin outpoint;
  mret (match it with None => coinEmpty | Some e => coin e end).

Definition HaveCoin_ (outpoint : COutPoint) : M bool :=
  it ← FetchCoin outpoint;
  mret (match it with None => false | Some e => negb (IsSpent (coin e)) end).

Definition HaveCoinInCache (outpoint : COutPoint) : M bool :=
  m ← gets cacheCoins;
  mret (match m !! outpoint with None => false | Some e => negb (IsSpent (coin e)) end).

Definition GetBestBlock_ : M bytes :=
  h ← gets hashBlock;
  if IsNull256 h then h ← in_base GetBestBlock; modify (set_hashBlock h);; mret h else mret h.

Definition SetBestBlock (hashBlockIn : bytes) : M unit := modify (set_hashBlock hashBlockIn).

(** The body of the loop in [BatchWrite(mapCoins, hashBlockIn)] *)
Definition write_entry (o : COutPoint) (e : CCoinsCacheEntry) : M unit :=
  if has DIRTY e then
    m ← gets cacheCoins;
    match m !! o with
    | None =>
      if negb (has FRESH e && IsSpent (coin e)) then
        use (DynamicMemoryUsage (coin e));;
        store o (mkEntry (coin e) (if has FRESH e then Z.lor DIRTY FRESH else DIRTY))
      else mret tt
    | Some us =>
      if has FRESH e && negb (IsSpent (coin us))
      then throw "FRESH flag misapplied to cache entry for base transaction with spendable outputs"
      else if has FRESH us && IsSpent (coin e) then
        use (- DynamicMemoryUsage (coin us));;
        erase o
      else
        use (- DynamicMemoryUsage (coin us));;
        use (DynamicMemoryUsage (coin e));;
        store o (mkEntry (coin e) (Z.lor (flags us) DIRTY))
    end
  else mret tt.

Definition BatchWrite_ (hashBlockIn : bytes) : SE (CCoinsViewCache V * CCoinsMap) bool :=
  l ← gets (fun s => map_to_list (snd s));
  for_entries write_entry l;;
  modify (fun s => (set_hashBlock hashBlockIn (fst s), snd s));;
  mret true.

(** [Flush()] *)
Definition Flush : M bool :=
  h ← gets hashBlock;
  fOk ← zoom (fun c => (base c, cacheCoins c)) (fun '(b, m) c => set_base b (set_cacheCoins m c)) (BatchWrite h);
  modify (fun c => set_usage 0 (set_cacheCoins ∅ c));;
  mret fOk.

(** [Uncache(hash)] *)
Definition Uncache (hash : COutPoint) : M unit :=
  m ← gets cacheCoins;
  match m !! hash with
  | Some e => if flags e =? 0 then use (- DynamicMemoryUsage (coin e));; erase hash else mret tt
  | None => mret tt
  end.

Definition GetCacheSize : M Z := gets (fun c => u32 (Z.of_nat (base.size (cacheCoins c)))).

(** [GetValueIn(tx)] and [HaveInputs(tx)] *)
Fixpoint sum_inputs (l : list CTxIn) (nResult : Z) : M Z :=
  match l with
  | [] => mret nResult
  | i :: l =>
    x ← AccessCoin (prevout i);
    let nResult := nResult + nValue (out x) in
    if (- 2 ^ 63 <=? nResult) && (nResult <? 2 ^ 63) then sum_inputs l nResult else undef "overflow of CAmount"
  end.
Definition GetValueIn (tx : CTransaction) : M Z := if IsCoinBase tx then mret 0 else sum_inputs (vin tx) 0.
Fixpoint have_inputs (l : list CTxIn) : M bool :=
  match l with
  | [] => mret true
  | i :: l => b ← HaveCoin_ (prevout i); if (b : bool) then have_inputs l else mret false
  end.
Definition HaveInputs (tx : CTransaction) : M bool := if IsCoinBase tx then mret true else have_inputs (vin tx).

(** [AddCoins(cache, tx, nHeight, check)] *)
Fixpoint add_outputs (txid : bytes) (nHeight : Z) (fCoinbase check : bool) (i : Z) (l : list CTxOut) : M unit :=
  match l with
  | [] => mret tt
  | x :: l =>
    overwrite ← (if check then HaveCoin_ (mkOutPoint txid (u32 i)) else mret fCoinbase);
    AddCoin (mkOutPoint txid (u32 i)) (mkCoin x fCoinbase nHeight) overwrite;;
    add_outputs txid nHeight fCoinbase check (i + 1) l
  end.
Definition AddCoins (tx : CTransaction) (nHeight : Z) (check : bool) : M unit :=
  add_outputs (tx_hash tx) nHeight (IsCoinBase tx) check 0 (vout tx).

(** [AccessByTxid(view, txid)]: an empty [CTxOut] takes nine bytes *)
Fixpoint access_loop (n : nat) (txid : bytes) (i : Z) : M Coin :=
  match n with
  | O => mret coinEmpty
  | S n => x ← AccessCoin (mkOutPoint txid (u32 i)); if negb (IsSpent x) then mret x else access_loop n txid (i + 1)
  end.
Definition AccessByTxid (txid : bytes) : M Coin := access_loop (Z.to_nat (MAX_BLOCK_WEIGHT / (4 * 9))) txid 0.
End Cache.
End Cache.

#[global] Instance cache_view {V} `{CV : !CCoinsView V} : CCoinsView (CCoinsViewCache V) := {
  GetCoin := Cache.GetCoin_;
  HaveCoin := Cache.HaveCoin_;
  GetBestBlock := Cache.GetBestBlock_;
  BatchWrite := Cache.BatchWrite_
}.

(** ** [class CCoinsViewDB]

    The records of the database: coins, [DB_BEST_BLOCK], [DB_HEAD_BLOCKS].  LevelDB
    writes a batch as a whole or throws.  How full a batch must be to be written
    early, which writes fail and where the crash that can be asked for happens are
    arguments. *)
Record CoinsDB := mkCoinsDB {
  db_coins : gmap COutPoint Coin;
  db_best : option bytes;
  db_heads : option (list bytes)
}.
Inductive db_write := EraseBest | WriteBest (h : bytes) | EraseHeads | WriteHeads (l : list bytes)
  | EraseCoin (o : COutPoint) | WriteCoin (o : COutPoint) (c : Coin).
Record Disk := mkDisk {
  batch_full : list db_write -> bool;
  write_fails : list db_write -> bool;
  crashes : list db_write -> bool
}.

Module CoinsView.
Definition apply_write (w : db_write) (d : CoinsDB) : CoinsDB :=
  match w with
  | EraseBest => mkCoinsDB (db_coins d) None (db_heads d)
  | WriteBest h => mkCoinsDB (db_coins d) (Some h) (db_heads d)
  | EraseHeads => mkCoinsDB (db_coins d) (db_best d) None
  | WriteHeads l => mkCoinsDB (db_coins d) (db_best d) (Some l)
  | EraseCoin o => mkCoinsDB (delete o (db_coins d)) (db_best d) (db_heads d)
  | WriteCoin o c => mkCoinsDB (<[o := c]> (db_coins d)) (db_best d) (db_heads d)
  end.
Fixpoint apply_batch (l : list db_write) (d : CoinsDB) : CoinsDB :=
  match l with [] => d | w :: l => apply_batch l (apply_write w d) end.

(** [CDBWrapper::WriteBatch] *)
Definition WriteBatch (k : Disk) (batch : list db_write) : SE CoinsDB bool :=
  if write_fails k batch then throw "Fatal LevelDB error" else modify (apply_batch batch);; mret true.

Definition GetCoin_ (outpoint : COutPoint) : SE CoinsDB (option Coin) := gets (fun d => db_coins d !! outpoint).
Definition HaveCoin_ (outpoint : COutPoint) : SE CoinsDB bool := gets (fun d => bool_decide (is_Some (db_coins d !! outpoint))).
Definition GetBestBlock_ : SE CoinsDB bytes := gets (fun d => default uint256_null (db_best d)).
Definition GetHeadBlocks : SE CoinsDB (list bytes) := gets (fun d => default [] (db_heads d)).

(** [BatchWrite(mapCoins, hashBlock)] *)
Definition in_db {A} (m : SE CoinsDB A) : SE (CoinsDB * CCoinsMap) A := zoom fst (fun d s => (d, snd s)) m.
Definition coin_write (o : COutPoint) (e : CCoinsCacheEntry) : list db_write :=
  if has DIRTY e then [if IsSpent (coin e) then EraseCoin o else WriteCoin o (coin e)] else [].
Fixpoint write_coins (k : Disk) (l : list (COutPoint * CCoinsCacheEntry)) (batch : list db_write) :
    SE (CoinsDB * CCoinsMap) (list db_write) :=
  match l with
  | [] => mret batch
  | (o, e) :: l =>
    let batch := batch ++ coin_write o e in
    modify (fun s => (fst s, delete o (snd s)));;
    if batch_full k batch then
      in_db (WriteBatch k batch);;
      if crashes k batch then fail (Exit 0) else write_coins k l []
    else write_coins k l batch
  end.
Definition old_tip (hashBlock : bytes) : SE CoinsDB bytes :=
  old_tip ← GetBestBlock_;
  if IsNull256 old_tip then
    old_heads ← GetHeadBlocks;
    match old_heads with
    | [h0; h1] => assertion (bool_decide (h0 = hashBlock)) "old_heads[0] == hashBlock";; mret h1
    | _ => mret old_tip
    end
  else mret old_tip.
Definition BatchWrite_ (k : Disk) (hashBlock : bytes) : SE (CoinsDB * CCoinsMap) bool :=
  assertion (negb (IsNull256 hashBlock)) "!hashBlock.IsNull()";;
  old ← in_db (old_tip hashBlock);
  l ← gets (fun s => map_to_list (snd s));
  batch ← write_coins k l [EraseBest; WriteHeads [hashBlock; old]];
  in_db (WriteBatch k (batch ++ [EraseHeads; WriteBest hashBlock])).
End CoinsView.

(** A view of the database on a disk. *)
Definition db_view (k : Disk) : CCoinsView CoinsDB := {|
  GetCoin := CoinsView.GetCoin_;
  HaveCoin := CoinsView.HaveCoin_;
  GetBestBlock := CoinsView.GetBestBlock_;
  BatchWrite := CoinsView.BatchWrite_ k
|}.
