(* ===== verification/CoinsThms.v ===== *)
(** * The cache of coins refines a map of unspent outputs

    [CCoinsViewLaws] is what a view promises: it stands for a map from outpoints to
    unspent coins, and [BatchWrite] writes the changes of a map of cache entries
    to it.  A cache over a view that keeps the promise keeps it ([cache_laws]), so
    caches can be stacked; the database keeps it when its disk does not fail. *)

From S2P Require Import Prelude Script Coins.
From Stdlib Require Import ZifyBool.

(** ** Entries *)

(** The coin an entry shows. *)
Definition shows (e : CCoinsCacheEntry) : option Coin := if IsSpent (coin e) then None else Some (coin e).

(** [e] is an entry over a view that shows [u]: a fresh one hides nothing, and one
    that is not dirty shows the same. *)
Record entry_ok (u : option Coin) (e : CCoinsCacheEntry) : Prop := {
  eo_flags : 0 <= flags e < 4;
  eo_fresh : has FRESH e = true -> u = None;
  eo_clean : has DIRTY e = false -> shows e = u }.

Ltac flag_cases e H :=
  let E := fresh "E" in
  assert (flags e = 0 \/ flags e = 1 \/ flags e = 2 \/ flags e = 3) as E by lia;
  unfold has in *; cbn [flags] in *; destruct E as [E|[E|[E|E]]]; rewrite ?E in *; cbn in *.

Lemma entry_written u e x (fresh : bool) : 0 <= flags e < 4 -> (has FRESH e = true -> u = None) -> (fresh = true -> u = None) ->
  entry_ok u (mkEntry x (Z.lor (flags e) (Z.lor DIRTY (if fresh then FRESH else 0)))).
Proof. intros Hf Hfr Hu. split; cbn [flags]; destruct fresh; flag_cases e Hf; try lia; auto; try done. Qed.
Lemma entry_dirty u e x : 0 <= flags e < 4 -> (has FRESH e = true -> u = None) -> entry_ok u (mkEntry x (Z.lor (flags e) DIRTY)).
Proof. intros Hf Hfr. by apply (entry_written u e x false). Qed.

(** The coins under a map of entries over a view that shows [u]. *)
Definition over (m : CCoinsMap) (u : COutPoint -> option Coin) (o : COutPoint) : option Coin :=
  match m !! o with Some e => shows e | None => u o end.
Definition entries_ok (m : CCoinsMap) (u : COutPoint -> option Coin) : Prop := forall o e, m !! o = Some e -> entry_ok (u o) e.

(** ** The promise of a view *)
Class CCoinsViewLaws (V : Type) `{CV : !CCoinsView V} := {
  view_ok : V -> Prop;
  utxo : V -> COutPoint -> option Coin;
  best_block : V -> bytes;
  utxo_unspent v o c : view_ok v -> utxo v o = Some c -> IsSpent c = false;
  GetCoin_ok v o : view_ok v -> exists v', GetCoin o v = (Ok (utxo v o), v') /\ view_ok v' /\
    (forall p, utxo v' p = utxo v p) /\ best_block v' = best_block v;
  HaveCoin_ok v o : view_ok v -> exists v', HaveCoin o v = (Ok (bool_decide (is_Some (utxo v o))), v') /\ view_ok v' /\
    (forall p, utxo v' p = utxo v p) /\ best_block v' = best_block v;
  GetBestBlock_ok v : view_ok v -> exists v', GetBestBlock v = (Ok (best_block v), v') /\ view_ok v' /\
    (forall p, utxo v' p = utxo v p) /\ best_block v' = best_block v;
  BatchWrite_ok v m h : view_ok v -> IsNull256 h = false -> entries_ok m (utxo v) ->
    exists v', BatchWrite h (v, m) = (Ok true, (v', ∅)) /\ view_ok v' /\
      (forall o, utxo v' o = over m (utxo v) o) /\ best_block v' = h
}.

(** ** Memory in use *)
Definition usage (m : CCoinsMap) : Z := map_fold (fun _ e n => DynamicMemoryUsage (coin e) + n) 0 m.

Lemma usage_empty : usage ∅ = 0.
Proof. unfold usage. by rewrite map_fold_empty. Qed.
Lemma usage_insert m o e : m !! o = None -> usage (<[o := e]> m) = DynamicMemoryUsage (coin e) + usage m.
Proof. intros H. unfold usage. rewrite map_fold_insert_L; [done| |done]. intros. lia. Qed.
Lemma usage_delete m o e : m !! o = Some e -> usage m = DynamicMemoryUsage (coin e) + usage (delete o m).
Proof. intros H. rewrite <- (usage_insert (delete o m) o e) by apply lookup_delete_eq. by rewrite insert_delete_id. Qed.
Lemma usage_replace m o e e' : m !! o = Some e ->
  usage (<[o := e']> m) = DynamicMemoryUsage (coin e') - DynamicMemoryUsage (coin e) + usage m.
Proof.
  intros H. rewrite <- insert_delete_eq, usage_insert by apply lookup_delete_eq. rewrite (usage_delete m o e H). lia.
Qed.

(** ** The cache *)
Section Cache.
Context {V : Type} `{CV : !CCoinsView V} `{CL : !CCoinsViewLaws V}.
Implicit Types c : CCoinsViewCache V.
Import Cache.

Record cache_ok c : Prop := {
  co_base : view_ok (base c);
  co_entries : entries_ok (cacheCoins c) (utxo (base c));
  co_usage : cachedCoinsUsage c = u64 (usage (cacheCoins c)) }.
Definition cache_utxo c : COutPoint -> option Coin := over (cacheCoins c) (utxo (base c)).
Definition cache_best c : bytes := if IsNull256 (hashBlock c) then best_block (base c) else hashBlock c.

(** A query may fill the cache. *)
Record same c c' : Prop := {
  sm_ok : cache_ok c';
  sm_utxo o : cache_utxo c' o = cache_utxo c o;
  sm_best : cache_best c' = cache_best c }.

Lemma same_refl c : cache_ok c -> same c c.
Proof. by split. Qed.

Lemma u64_add a b : u64 (u64 a + b) = u64 (a + b).
Proof. unfold u64, wrap. by rewrite Zplus_mod_idemp_l. Qed.

Lemma FetchCoin_ok o c : cache_ok c -> exists c', FetchCoin o c = (Ok (cacheCoins c' !! o), c') /\ same c c' /\
  match cacheCoins c' !! o with Some e => shows e = cache_utxo c o | None => cache_utxo c o = None end.
Proof.
  intros [Hb He Hu]. unfold FetchCoin. rewrite (SE_bind_ok _ _ _ (cacheCoins c) c) by done.
  destruct (cacheCoins c !! o) as [e|] eqn:E.
  - exists c. rewrite E. split; [done|]. split; [by apply same_refl|]. unfold cache_utxo, over. by rewrite E.
  - destruct (GetCoin_ok _ o Hb) as (b' & Eg & Hb' & Hu' & Hbb).
    assert (entries_ok (cacheCoins c) (utxo b')) as He' by (intros p e Hp; rewrite Hu'; by apply He).
    rewrite (SE_bind_ok _ _ _ (utxo (base c) o) (set_base b' c)) by (unfold in_base, zoom; by rewrite Eg).
    destruct (utxo (base c) o) as [tmp|] eqn:Eo.
    + pose proof (utxo_unspent _ _ _ Hb Eo) as Hsp. rewrite Hsp. set (e0 := mkEntry tmp 0).
      exists (set_usage (u64 (cachedCoinsUsage c + DynamicMemoryUsage tmp)) (set_cacheCoins (<[o := e0]> (cacheCoins c)) (set_base b' c))).
      cbn [cacheCoins set_usage set_cacheCoins set_base]. rewrite lookup_insert_eq. split; [done|]. assert (shows e0 = Some tmp) as Hsh by (unfold shows; cbn [coin e0]; by rewrite Hsp).
      split; [|unfold cache_utxo, over; by rewrite E, Eo]. split.
      * split; cbn [base cacheCoins cachedCoinsUsage set_usage set_cacheCoins set_base]; [done| |].
        -- intros p e Hp. destruct (decide (o = p)) as [<-|Hne]; [|rewrite lookup_insert_ne in Hp by done; by apply He'].
           rewrite lookup_insert_eq in Hp. injection Hp as <-. split; [cbn; lia|done|]. intros _. by rewrite Hu', Eo.
        -- rewrite usage_insert by done. rewrite Hu, u64_add. f_equal. unfold e0. cbn [coin]. lia.
      * intros p. unfold cache_utxo, over. cbn [base cacheCoins set_usage set_cacheCoins set_base]. destruct (decide (o = p)) as [<-|Hne].
        -- by rewrite lookup_insert_eq, E, Eo.
        -- rewrite lookup_insert_ne by done. by rewrite Hu'.
      * unfold cache_best. cbn [hashBlock base set_usage set_cacheCoins set_base]. by rewrite Hbb.
    + exists (set_base b' c). cbn [cacheCoins set_base]. rewrite E. split; [done|]. split.
      * split; [by split| |].
        -- intros p. unfold cache_utxo, over. cbn [base cacheCoins set_base]. by rewrite Hu'.
        -- unfold cache_best. cbn [base hashBlock set_base]. by rewrite Hbb.
      * unfold cache_utxo, over. by rewrite E.
Qed.
Ltac same_usage :=
  match goal with |- (_, mkCache _ _ _ (u64 ?a)) = (_, mkCache _ _ _ (u64 ?b)) => replace a with b by lia end; done.

(** *** Changing one entry *)
Definition putting o x c c' : Prop :=
  cache_ok c' /\ (forall p, cache_utxo c' p = if decide (p = o) then x else cache_utxo c p) /\ cache_best c' = cache_best c.

Definition with_entries c (m : CCoinsMap) : CCoinsViewCache V := mkCache (base c) (hashBlock c) m (u64 (usage m)).
Lemma put_entry o e c : cache_ok c -> entry_ok (utxo (base c) o) e -> putting o (shows e) c (with_entries c (<[o := e]> (cacheCoins c))).
Proof.
  intros [Hb He Hu] Hok. split; [|split; [|done]].
  - split; cbn [base cacheCoins cachedCoinsUsage with_entries]; [done| |done].
    intros p e' Hp. destruct (decide (o = p)) as [<-|Hne].
    + rewrite lookup_insert_eq in Hp. by injection Hp as <-.
    + rewrite lookup_insert_ne in Hp by done. by apply He.
  - intros p. unfold cache_utxo, over. cbn [base cacheCoins with_entries]. case_decide as E.
    + subst. by rewrite lookup_insert_eq.
    + by rewrite lookup_insert_ne.
Qed.
Lemma erase_entry o c : cache_ok c -> putting o (utxo (base c) o) c (with_entries c (delete o (cacheCoins c))).
Proof.
  intros [Hb He Hu]. split; [|split; [|done]].
  - split; cbn [base cacheCoins cachedCoinsUsage with_entries]; [done| |done].
    intros p e' [_ Hp]%lookup_delete_Some. by apply He.
  - intros p. unfold cache_utxo, over. cbn [base cacheCoins with_entries]. case_decide as E.
    + subst. by rewrite lookup_delete_eq.
    + by rewrite lookup_delete_ne.
Qed.

Lemma AddCoin_ok o x ow c : cache_ok c -> IsSpent x = false -> CScript.IsUnspendable (scriptPubKey (out x)) = false ->
  (ow = false -> cache_utxo c o = None) -> exists c', AddCoin o x ow c = (Ok tt, c') /\ putting o (Some x) c c'.
Proof.
  intros Hc Hx Hun Hpre. pose proof Hc as [Hb He Hu]. unfold AddCoin. rewrite Hx, Hun. cbn [negb].
  set (it := default (mkEntry coinEmpty 0) (cacheCoins c !! o)).
  set (fresh := negb ow && negb (has DIRTY it)).
  set (e := mkEntry x (Z.lor (flags it) (Z.lor DIRTY (if fresh then FRESH else 0)))).
  assert (entry_ok (utxo (base c) o) e) as Hok.
  { unfold it, fresh, it in *. unfold cache_utxo, over in Hpre. destruct (cacheCoins c !! o) as [e0|] eqn:E; cbn [from_option id] in *.
    - destruct (He o e0 E) as [H1 H2 H3]. apply entry_written; [done|done|]. destruct ow; [done|].
      intros Hd. rewrite <- H3; [by apply Hpre|]. cbn in Hd. by destruct (has DIRTY e0).
    - apply entry_written; [cbn; lia|done|]. destruct ow; [done|]. intros _. by apply Hpre. }
  assert (shows e = Some x) as Hsh by (unfold shows; cbn [coin e]; by rewrite Hx).
  exists (with_entries c (<[o := e]> (cacheCoins c))). split; [|rewrite <- Hsh; by apply put_entry].
  assert (IsSpent (coin it) = true \/ ow = true) as Hsp.
  { destruct ow; [by right|left]. specialize (Hpre eq_refl). unfold cache_utxo, over in Hpre. unfold it.
    destruct (cacheCoins c !! o) as [e0|]; [|done]. cbn. unfold shows in Hpre. by destruct (IsSpent (coin e0)). }
  assert (u64 (usage (<[o := e]> (cacheCoins c))) = u64 (u64 (u64 (usage (cacheCoins c)) + (if bool_decide (cacheCoins c !! o = None) then 0 else - DynamicMemoryUsage (coin it))) + DynamicMemoryUsage x)) as Hus.
  { rewrite u64_add, <- Z.add_assoc, u64_add. f_equal. unfold it. destruct (cacheCoins c !! o) as [e0|] eqn:E; cbn [from_option id].
    - rewrite bool_decide_false by done. rewrite (usage_replace _ _ e0) by done.
    change (coin e) with x. lia.
    - rewrite bool_decide_true by done. rewrite usage_insert by done. change (coin e) with x. lia. }
  rewrite (SE_bind_ok _ _ c tt c), (SE_bind_ok _ _ c (cacheCoins c) c) by done. fold it.
  rewrite (SE_bind_ok _ _ _ tt (set_cacheCoins (<[o := it]> (cacheCoins c)) c)) by done.
  set (n := if bool_decide (cacheCoins c !! o = None) then 0 else - DynamicMemoryUsage (coin it)) in *.
  assert (cachedCoinsUsage c = u64 (cachedCoinsUsage c)) as Hu0 by (rewrite Hu; unfold u64, wrap; by rewrite Zmod_mod).
  rewrite (SE_bind_ok _ _ _ tt (set_usage (u64 (cachedCoinsUsage c + n)) (set_cacheCoins (<[o := it]> (cacheCoins c)) c))).
  2:{ unfold n, when, use, modify. destruct (bool_decide _); cbn [negb]; [|done]. rewrite Z.add_0_r, <- Hu0. by destruct c. }
  rewrite (SE_bind_ok _ _ _ fresh (set_usage (u64 (cachedCoinsUsage c + n)) (set_cacheCoins (<[o := it]> (cacheCoins c)) c))).
  2:{ unfold fresh. destruct ow; cbn [negb andb]; [done|]. destruct Hsp as [->|]; done. }
  fold e. unfold store, use, modify, mbind, SE_bind. cbn [set_cacheCoins set_usage cacheCoins base hashBlock cachedCoinsUsage].
  rewrite insert_insert_eq. unfold with_entries. by rewrite Hus, Hu.
Qed.

(** What a coin that was moved out tells about the view. *)
Definition found (r : option Coin) (u : option Coin) : Prop :=
  match r with Some x => (if IsSpent x then None else Some x) = u | None => u = None end.

Lemma same_putting o x c c1 c2 : same c c1 -> putting o x c1 c2 -> putting o x c c2.
Proof.
  intros [_ Hu Hb] (Hok & Hu' & Hb'). split; [done|]. split; [|congruence]. intros p. rewrite Hu'. by rewrite Hu.
Qed.

Lemma SpendCoin_ok o c : cache_ok c -> exists r c', SpendCoin o c = (Ok r, c') /\ found r (cache_utxo c o) /\ putting o None c c'.
Proof.
  intros Hc. destruct (FetchCoin_ok o c Hc) as (c1 & E & Hs & Hsh). pose proof (sm_ok _ _ Hs) as Hc1. pose proof Hc1 as [Hb He Hu].
  unfold SpendCoin. rewrite (SE_bind_ok _ _ _ _ _ E). destruct (cacheCoins c1 !! o) as [e|] eqn:Eo.
  - exists (Some (coin e)). destruct (He o e Eo) as [H1 H2 H3]. destruct (has FRESH e) eqn:Ef.
    + exists (with_entries c1 (delete o (cacheCoins c1))). split; [|split; [exact Hsh|]].
      * unfold use, erase, modify, mbind, SE_bind, mret, SE_ret, set_usage, set_cacheCoins, with_entries.
        cbn [cachedCoinsUsage base hashBlock cacheCoins]. rewrite Hu, u64_add, (usage_delete _ o e Eo).
        same_usage.
      * apply (same_putting o None c c1); [done|]. rewrite <- (H2 eq_refl). by apply erase_entry.
    + exists (with_entries c1 (<[o := mkEntry (Coin_Clear (coin e)) (Z.lor (flags e) DIRTY)]> (cacheCoins c1))). split; [|split; [exact Hsh|]].
      * unfold use, store, modify, mbind, SE_bind, mret, SE_ret, set_usage, set_cacheCoins, with_entries.
        cbn [cachedCoinsUsage base hashBlock cacheCoins]. rewrite Hu, u64_add, (usage_replace _ o e _ Eo).
        change (DynamicMemoryUsage (coin (mkEntry (Coin_Clear (coin e)) _))) with 0. same_usage.
      * apply (same_putting o None c c1); [done|]. apply (put_entry o (mkEntry (Coin_Clear (coin e)) (Z.lor (flags e) DIRTY))); [done|].
        apply entry_dirty; [done|congruence].
  - exists None, c1. split; [done|]. split; [exact Hsh|]. split; [done|]. split; [|apply Hs]. intros p. rewrite (sm_utxo _ _ Hs).
    case_decide; [by subst|done].
Qed.

(** *** Queries *)
Lemma AccessCoin_ok o c : cache_ok c -> exists x c', AccessCoin o c = (Ok x, c') /\ same c c' /\ (if IsSpent x then None else Some x) = cache_utxo c o.
Proof.
  intros Hc. destruct (FetchCoin_ok o c Hc) as (c1 & E & Hs & Hsh). unfold AccessCoin. rewrite (SE_bind_ok _ _ _ _ _ E).
  destruct (cacheCoins c1 !! o) as [e|]; do 2 eexists; (split; [reflexivity|]); (split; [done|]); [exact Hsh|]. cbn. by rewrite Hsh.
Qed.
Lemma cache_GetCoin_ok o c : cache_ok c -> exists c', GetCoin_ o c = (Ok (cache_utxo c o), c') /\ same c c'.
Proof.
  intros Hc. destruct (FetchCoin_ok o c Hc) as (c1 & E & Hs & Hsh). exists c1. unfold GetCoin_. rewrite (SE_bind_ok _ _ _ _ _ E).
  split; [|done]. unfold mret, SE_ret. destruct (cacheCoins c1 !! o) as [e|]; [rewrite <- Hsh|by rewrite Hsh]. unfold shows. by destruct (IsSpent (coin e)).
Qed.
Lemma cache_HaveCoin_ok o c : cache_ok c -> exists c', HaveCoin_ o c = (Ok (bool_decide (is_Some (cache_utxo c o))), c') /\ same c c'.
Proof.
  intros Hc. destruct (FetchCoin_ok o c Hc) as (c1 & E & Hs & Hsh). exists c1. unfold HaveCoin_. rewrite (SE_bind_ok _ _ _ _ _ E).
  split; [|done]. unfold mret, SE_ret. destruct (cacheCoins c1 !! o) as [e|]; [rewrite <- Hsh|by rewrite Hsh]. unfold shows. by destruct (IsSpent (coin e)).
Qed.
Lemma cache_GetBestBlock_ok c : cache_ok c -> exists c', GetBestBlock_ c = (Ok (cache_best c), c') /\ same c c'.
Proof.
  intros [Hb He Hu]. unfold GetBestBlock_. rewrite (SE_bind_ok _ _ c (hashBlock c) c) by done. unfold cache_best.
  destruct (IsNull256 (hashBlock c)) eqn:En; [|exists c; split; [done|by apply same_refl]].
  destruct (GetBestBlock_ok _ Hb) as (b' & E & Hb' & Hu' & Hbb).
  rewrite (SE_bind_ok _ _ c (best_block (base c)) (set_base b' c)) by (unfold in_base, zoom; by rewrite E).
  exists (set_hashBlock (best_block (base c)) (set_base b' c)). split; [done|]. split.
  - split; cbn; [done| |done]. intros p e Hp. rewrite Hu'. by apply He.
  - intros p. unfold cache_utxo, over. cbn. by rewrite Hu'.
  - unfold cache_best. cbn [base hashBlock set_hashBlock set_base]. rewrite En, Hbb. by destruct (IsNull256 (best_block (base c))).
Qed.
Lemma Uncache_ok o c : cache_ok c -> exists c', Uncache o c = (Ok tt, c') /\ same c c'.
Proof.
  intros Hc. pose proof Hc as [Hb He Hu]. unfold Uncache. rewrite (SE_bind_ok _ _ c (cacheCoins c) c) by done.
  destruct (cacheCoins c !! o) as [e|] eqn:Eo; [|exists c; split; [done|by apply same_refl]].
  destruct (Z.eqb_spec (flags e) 0) as [Ef|]; [|exists c; split; [done|by apply same_refl]].
  exists (with_entries c (delete o (cacheCoins c))). split.
  - unfold use, erase, modify, mbind, SE_bind, set_usage, set_cacheCoins, with_entries. cbn [cachedCoinsUsage base hashBlock cacheCoins].
    rewrite Hu, u64_add, (usage_delete _ o e Eo). same_usage.
  - destruct (erase_entry o c Hc) as (Hok & Hu' & Hb'). split; [done| |done]. intros p. rewrite Hu'. case_decide as E; [|done]. subst.
    unfold cache_utxo, over. rewrite Eo. symmetry. apply (eo_clean _ _ (He o e Eo)). unfold has. by rewrite Ef.
Qed.

(** *** [BatchWrite] *)
Lemma write_entry_ok o e c : cache_ok c -> entry_ok (cache_utxo c o) e -> exists c', write_entry o e c = (Ok tt, c') /\ putting o (shows e) c c'.
Proof.
  intros Hc [Hfl Hfr Hcl]. pose proof Hc as [Hb He Hu]. unfold write_entry. destruct (has DIRTY e) eqn:Ed.
  2:{ exists c. split; [done|]. split; [done|]. split; [|done]. intros p. case_decide; [|done]. subst. symmetry. by apply Hcl. }
  rewrite (SE_bind_ok _ _ c (cacheCoins c) c) by done.
  assert (cache_utxo c o = match cacheCoins c !! o with Some us => shows us | None => utxo (base c) o end) as Ho by done.
  destruct (cacheCoins c !! o) as [us|] eqn:Eo.
  - destruct (He o us Eo) as [H1 H2 H3].
    replace (has FRESH e && negb (IsSpent (coin us))) with false.
    2:{ destruct (has FRESH e) eqn:Ef; [|done]. rewrite (Hfr eq_refl) in Ho. unfold shows in Ho. by destruct (IsSpent (coin us)). }
    destruct (has FRESH us && IsSpent (coin e)) eqn:Edrop.
    + apply andb_true_iff in Edrop as [Ef Es]. exists (with_entries c (delete o (cacheCoins c))). split.
      * unfold use, erase, modify, mbind, SE_bind, set_usage, set_cacheCoins, with_entries. cbn [cachedCoinsUsage base hashBlock cacheCoins].
        rewrite Hu, u64_add, (usage_delete _ o us Eo). same_usage.
      * unfold shows. rewrite Es, <- (H2 Ef). by apply erase_entry.
    + exists (with_entries c (<[o := mkEntry (coin e) (Z.lor (flags us) DIRTY)]> (cacheCoins c))). split.
      * unfold use, store, modify, mbind, SE_bind, set_usage, set_cacheCoins, with_entries. cbn [cachedCoinsUsage base hashBlock cacheCoins].
        rewrite Hu, !u64_add, <- Z.add_assoc, u64_add, (usage_replace _ o us _ Eo). cbn [coin]. same_usage.
      * apply (put_entry o (mkEntry (coin e) (Z.lor (flags us) DIRTY))); [done|]. by apply entry_dirty.
  - destruct (has FRESH e && IsSpent (coin e)) eqn:Eskip; cbn [negb].
    + apply andb_true_iff in Eskip as [Ef Es]. exists c. split; [done|]. split; [done|]. split; [|done]. intros p. case_decide; [|done]. subst.
      unfold shows. rewrite Es. by apply Hfr.
    + exists (with_entries c (<[o := mkEntry (coin e) (if has FRESH e then Z.lor DIRTY FRESH else DIRTY)]> (cacheCoins c))). split.
      * unfold use, store, modify, mbind, SE_bind, set_usage, set_cacheCoins, with_entries. cbn [cachedCoinsUsage base hashBlock cacheCoins].
        rewrite Hu, u64_add, (usage_insert _ o _ Eo). cbn [coin]. same_usage.
      * apply (put_entry o (mkEntry (coin e) _)); [done|]. rewrite Ho in Hfr. split; destruct (has FRESH e); cbn; try lia; auto; done.
Qed.

Lemma write_entries_ok l : forall c (m : CCoinsMap), cache_ok c -> NoDup l.*1 -> (forall o e, (o, e) ∈ l -> entry_ok (cache_utxo c o) e) ->
  exists c' m', for_entries write_entry l (c, m) = (Ok tt, (c', m')) /\ cache_ok c' /\
    (forall o, cache_utxo c' o = match list_to_map (M := CCoinsMap) l !! o with Some e => shows e | None => cache_utxo c o end) /\
    (forall o, o ∈ l.*1 \/ m !! o = None -> m' !! o = None).
Proof.
  induction l as [|[o e] l IH]; intros c m Hc Hnd He.
  - exists c, m. split; [done|]. split; [done|]. split; [done|]. intros o [H|H]; [by apply not_elem_of_nil in H|done].
  - apply list.NoDup_cons in Hnd as [Hni Hnd]. destruct (write_entry_ok o e c Hc) as (c1 & E & Hc1 & Hu1 & _); [apply He; by left|].
    destruct (IH c1 (delete o m) Hc1 Hnd) as (c' & m' & E' & Hc' & Hu' & Hm').
    { intros p e' Hp. rewrite Hu1, decide_False; [apply He; by right|]. intros ->. apply Hni. by apply (list_elem_of_fmap_2 fst _ (o, e')). }
    exists c', m'. split.
    { cbn [for_entries]. rewrite (SE_bind_ok _ _ (c, m) tt (c1, m)) by (unfold zoom; cbn [fst snd]; by rewrite E).
      by rewrite (SE_bind_ok _ _ (c1, m) tt (c1, delete o m)). }
    split; [done|]. split.
    + intros p. rewrite Hu', Hu1. cbn [list_to_map foldr fst snd]. destruct (decide (p = o)) as [->|Hne].
      * rewrite lookup_insert_eq, not_elem_of_list_to_map_1 by done. done.
      * by rewrite lookup_insert_ne.
    + intros p Hp. apply Hm'. destruct (decide (p = o)) as [->|Hne]; [right; apply lookup_delete_eq|].
      destruct Hp as [Hp|Hp]; [left|right; by rewrite lookup_delete_ne]. cbn in Hp. apply elem_of_cons in Hp as [|]; [done|done].
Qed.

Lemma cache_BatchWrite_ok c m h : cache_ok c -> entries_ok m (cache_utxo c) -> exists c', BatchWrite_ h (c, m) = (Ok true, (c', ∅)) /\
  cache_ok c' /\ (forall o, cache_utxo c' o = over m (cache_utxo c) o) /\ hashBlock c' = h.
Proof.
  intros Hc He. destruct (write_entries_ok (map_to_list m) c m Hc) as (c' & m' & E & Hc' & Hu' & Hm').
  { apply NoDup_fst_map_to_list. } { intros o e Ho%elem_of_map_to_list. by apply He. }
  exists (set_hashBlock h c'). unfold BatchWrite_. rewrite (SE_bind_ok _ _ (c, m) (map_to_list m) (c, m)) by done.
  rewrite (SE_bind_ok _ _ _ _ _ E). assert (m' = ∅) as ->.
  { apply map_eq. intros o. rewrite lookup_empty. apply Hm'. destruct (m !! o) as [e|] eqn:Eo; [left|by right].
    apply (list_elem_of_fmap_2 fst _ (o, e)). by apply elem_of_map_to_list. }
  split; [done|]. split; [by destruct Hc'; split|]. split; [|done]. intros o.
  change (cache_utxo (set_hashBlock h c') o) with (cache_utxo c' o). rewrite Hu'. unfold over. by rewrite list_to_map_to_list.
Qed.

(** A cache keeps the promise of a view. *)
#[global] Instance cache_laws : CCoinsViewLaws (CCoinsViewCache V).
Proof.
  refine {| view_ok := cache_ok; utxo := cache_utxo; best_block := cache_best |}.
  - intros c o x [Hb He _] H. unfold cache_utxo, over in H. destruct (cacheCoins c !! o) as [e|]; [|by apply (utxo_unspent _ _ _ Hb H)].
    unfold shows in H. destruct (IsSpent (coin e)) eqn:E; [done|]. by injection H as <-.
  - intros c o Hc. destruct (cache_GetCoin_ok o c Hc) as (c' & E & [? ? ?]). by exists c'.
  - intros c o Hc. destruct (cache_HaveCoin_ok o c Hc) as (c' & E & [? ? ?]). by exists c'.
  - intros c Hc. destruct (cache_GetBestBlock_ok c Hc) as (c' & E & [? ? ?]). by exists c'.
  - intros c m h Hc Hh He. destruct (cache_BatchWrite_ok c m h Hc He) as (c' & E & Hc' & Hu & Hb). exists c'.
    split; [done|]. split; [done|]. split; [done|]. unfold cache_best. by rewrite Hb, Hh.
Defined.

Lemma Flush_ok c : cache_ok c -> IsNull256 (hashBlock c) = false -> exists c', Flush c = (Ok true, c') /\ cache_ok c' /\
  cacheCoins c' = ∅ /\ (forall o, utxo (base c') o = cache_utxo c o) /\ (forall o, cache_utxo c' o = cache_utxo c o) /\
  best_block (base c') = hashBlock c /\ cachedCoinsUsage c' = 0.
Proof.
  intros [Hb He Hu] Hn. destruct (BatchWrite_ok (base c) (cacheCoins c) (hashBlock c) Hb Hn He) as (b' & E & Hb' & Hu' & Hbb).
  exists (mkCache b' (hashBlock c) ∅ 0). unfold Flush. rewrite (SE_bind_ok _ _ c (hashBlock c) c) by done.
  rewrite (SE_bind_ok _ _ c true (set_base b' (set_cacheCoins ∅ c))) by (unfold zoom; by rewrite E).
  split; [done|]. split; [split; cbn; [done|by intros o e Ho|by rewrite usage_empty]|].
  split; [done|]. split; [done|]. split; [|done]. intros o. unfold cache_utxo at 1, over. cbn [cacheCoins base]. by rewrite lookup_empty, Hu'.
Qed.
End Cache.

(** ** The database *)
Section Database.
Import CoinsView.
Implicit Types (d : CoinsDB) (k : Disk) (l : list (COutPoint * CCoinsCacheEntry)).

Definition writes l : list db_write := concat (map (fun oe => coin_write (fst oe) (snd oe)) l).

Lemma apply_batch_app a b d : apply_batch (a ++ b) d = apply_batch b (apply_batch a d).
Proof. revert d. induction a as [|w a IH]; intros d; [done|]. apply IH. Qed.
Lemma writes_app l1 l2 : writes (l1 ++ l2) = writes l1 ++ writes l2.
Proof. unfold writes. by rewrite map_app, concat_app. Qed.
Lemma writes_cons o e l : writes ((o, e) :: l) = coin_write o e ++ writes l.
Proof. done. Qed.

(** The state is reached after some of the entries. *)
Definition partly l batch d d' : Prop :=
  exists l1 l2, l = l1 ++ l2 /\ (d' = d \/ d' = apply_batch (batch ++ writes l1) d).

Lemma partly_skip o e l batch d d' : partly l (batch ++ coin_write o e) d d' -> partly ((o, e) :: l) batch d d'.
Proof.
  intros (l1 & l2 & -> & H). exists ((o, e) :: l1), l2. split; [done|]. rewrite writes_cons, app_assoc. done.
Qed.
Lemma partly_write o e l batch d d' : partly l [] (apply_batch (batch ++ coin_write o e) d) d' -> partly ((o, e) :: l) batch d d'.
Proof.
  intros (l1 & l2 & -> & [->| ->]).
  - exists [(o, e)], (l1 ++ l2). split; [done|]. right. rewrite writes_cons. cbn [writes map concat]. by rewrite app_nil_r.
  - exists ((o, e) :: l1), l2. split; [done|]. right. rewrite writes_cons, (app_assoc batch), (apply_batch_app (batch ++ _)). done.
Qed.
Lemma partly_start l batch d : partly l batch d d.
Proof. exists [], l. split; [done|by left]. Qed.

(** Whatever the disk does, the database is at a boundary between entries. *)
Lemma write_coins_run k l : forall batch d m r d' m', write_coins k l batch (d, m) = (r, (d', m')) ->
  partly l batch d d' /\ (forall b', r = Ok b' -> apply_batch b' d' = apply_batch (batch ++ writes l) d /\
    forall o, o ∈ l.*1 \/ m !! o = None -> m' !! o = None).
Proof.
  induction l as [|[o e] l IH]; intros batch d m r d' m' E; cbn [write_coins] in E.
  - injection E as <- <- <-. split; [apply partly_start|]. intros b' [= <-]. unfold writes. cbn. rewrite app_nil_r. split; [done|].
    intros o [H|H]; [by apply not_elem_of_nil in H|done].
  - rewrite (SE_bind_ok _ _ _ tt (d, delete o m)) in E by done.
    assert (forall o', o' ∈ ((o, e) :: l).*1 \/ m !! o' = None -> o' ∈ l.*1 \/ delete o m !! o' = None) as Hdel.
    { intros p Hp. destruct (decide (p = o)) as [->|Hne]; [right; apply lookup_delete_eq|].
      destruct Hp as [Hp|Hp]; [left|right; by rewrite lookup_delete_ne]. cbn in Hp. by apply elem_of_cons in Hp as [|]. }
    destruct (batch_full k (batch ++ coin_write o e)) eqn:Ef.
    + unfold WriteBatch in E. destruct (write_fails k (batch ++ coin_write o e)) eqn:Ew.
      { injection E as <- <- <-. split; [apply partly_start|done]. }
      rewrite (SE_bind_ok _ _ _ true (apply_batch (batch ++ coin_write o e) d, delete o m)) in E by done.
      destruct (crashes k (batch ++ coin_write o e)) eqn:Ec.
      { injection E as <- <- <-. split; [apply partly_write, partly_start|done]. }
      destruct (IH _ _ _ _ _ _ E) as [Hp Hok]. split; [by apply partly_write|]. intros b' ->. destruct (Hok b' eq_refl) as [Hb Hm].
      split; [|by intros p Hp'; apply Hm, Hdel]. rewrite Hb. by rewrite writes_cons, (app_assoc batch), (apply_batch_app (batch ++ _)).
    + destruct (IH _ _ _ _ _ _ E) as [Hp Hok]. split; [by apply partly_skip|]. intros b' ->. destruct (Hok b' eq_refl) as [Hb Hm].
      split; [|by intros p Hp'; apply Hm, Hdel]. rewrite Hb, writes_cons. by rewrite <- app_assoc.
Qed.

(** A disk that neither fails nor crashes. *)
Definition sound_disk k : Prop := forall b, write_fails k b = false /\ crashes k b = false.
Lemma write_coins_sound k l : sound_disk k -> forall batch s, exists b' s', write_coins k l batch s = (Ok b', s').
Proof.
  intros Hk. induction l as [|[o e] l IH]; intros batch s; cbn [write_coins]; [eauto|].
  rewrite (SE_bind_ok _ _ _ tt (fst s, delete o (snd s))) by done. destruct (batch_full k _); [|apply IH].
  unfold WriteBatch. destruct (Hk (batch ++ coin_write o e)) as [-> ->].
  rewrite (SE_bind_ok _ _ _ true (apply_batch (batch ++ coin_write o e) (fst s), delete o (snd s))) by done. apply IH.
Qed.

(** What the writes of a list of entries do to the coins. *)
Definition coins_after l (u : option Coin) (o : COutPoint) : option Coin :=
  match list_to_map (M := CCoinsMap) l !! o with Some e => if has DIRTY e then shows e else u | None => u end.
Lemma apply_writes l : forall d, NoDup l.*1 ->
  db_best (apply_batch (writes l) d) = db_best d /\ db_heads (apply_batch (writes l) d) = db_heads d /\
  forall o, db_coins (apply_batch (writes l) d) !! o = coins_after l (db_coins d !! o) o.
Proof.
  induction l as [|[o e] l IH]; intros d Hnd; [done|]. apply list.NoDup_cons in Hnd as [Hni Hnd]. cbn in Hni.
  rewrite writes_cons, apply_batch_app. set (d1 := apply_batch (coin_write o e) d).
  assert (db_best d1 = db_best d /\ db_heads d1 = db_heads d /\
    forall p, db_coins d1 !! p = if decide (p = o) then if has DIRTY e then shows e else db_coins d !! p else db_coins d !! p) as (B1 & B2 & B3).
  { unfold d1, coin_write. destruct (has DIRTY e); [|split; [done|split; [done|]]; intros p; by case_decide].
    unfold shows. destruct (IsSpent (coin e)); cbn; (split; [done|]); (split; [done|]); intros p; case_decide; subst;
      by rewrite ?lookup_insert_eq, ?lookup_delete_eq, ?lookup_insert_ne, ?lookup_delete_ne. }
  destruct (IH d1 Hnd) as (I1 & I2 & I3). rewrite I1, I2. split; [done|]. split; [done|]. intros p. rewrite I3, B3.
  unfold coins_after. cbn [list_to_map foldr fst snd]. case_decide as E.
  - subst. rewrite lookup_insert_eq, not_elem_of_list_to_map_1 by done. done.
  - by rewrite lookup_insert_ne by done.
Qed.

Definition start h old : list db_write := [EraseBest; WriteHeads [h; old]].
(** The database with all entries written. *)
Definition completed (m : CCoinsMap) (h : bytes) d d' : Prop :=
  db_best d' = Some h /\ db_heads d' = None /\ forall o, db_coins d' !! o = coins_after (map_to_list m) (db_coins d !! o) o.

Lemma BatchWrite_run k h old d m r d' m' : IsNull256 h = false -> old_tip h d = (Ok old, d) ->
  BatchWrite_ k h (d, m) = (r, (d', m')) ->
  (r = Ok true /\ completed m h d d' /\ m' = ∅) \/ (is_ok r = false /\ partly (map_to_list m) (start h old) d d').
Proof.
  intros Hh Ho E. unfold BatchWrite_ in E. rewrite Hh in E. cbn [negb] in E. rewrite (SE_bind_ok _ _ _ tt (d, m)) in E by done.
  rewrite (SE_bind_ok _ _ _ old (d, m)) in E by (unfold in_db, zoom; cbn [fst]; by rewrite Ho).
  rewrite (SE_bind_ok _ _ _ (map_to_list m) (d, m)) in E by done. unfold mbind, SE_bind in E.
  destruct (write_coins k (map_to_list m) [EraseBest; WriteHeads [h; old]] (d, m)) as [rw [d1 m1]] eqn:Ew.
  destruct (write_coins_run k _ _ _ _ _ _ _ Ew) as [Hp Hok]. destruct rw as [b'| | | | |].
  2-6: injection E as <- <- <-; right; split; [done|exact Hp].
  destruct (Hok b' eq_refl) as [Hb Hm]. unfold in_db, zoom, WriteBatch in E. cbn [fst snd] in E.
  destruct (write_fails k (b' ++ [EraseHeads; WriteBest h])).
  { injection E as <- <- <-. right. split; [done|exact Hp]. }
  injection E as <- <- <-. left. split; [done|]. split.
  - rewrite apply_batch_app, Hb, apply_batch_app. cbn [apply_batch apply_write db_best db_heads db_coins].
    destruct (apply_writes (map_to_list m) (mkCoinsDB (db_coins d) None (Some [h; old]))) as (B1 & B2 & B3); [apply NoDup_fst_map_to_list|].
    split; [done|]. split; [done|exact B3].
  - apply map_eq. intros o. rewrite lookup_empty. apply Hm. destruct (m !! o) as [e|] eqn:Eo; [left|by right].
    apply (list_elem_of_fmap_2 fst _ (o, e)). by apply elem_of_map_to_list.
Qed.

Lemma BatchWrite_sound k h old d m : sound_disk k -> IsNull256 h = false -> old_tip h d = (Ok old, d) ->
  exists d', BatchWrite_ k h (d, m) = (Ok true, (d', ∅)) /\ completed m h d d'.
Proof.
  intros Hk Hh Ho. destruct (BatchWrite_ k h (d, m)) as [r [d' m']] eqn:E.
  destruct (BatchWrite_run k h old d m r d' m' Hh Ho E) as [(-> & Hc & ->)|[Hr _]]; [by exists d'|exfalso].
  unfold BatchWrite_ in E. rewrite Hh in E. cbn [negb] in E. rewrite (SE_bind_ok _ _ _ tt (d, m)) in E by done.
  rewrite (SE_bind_ok _ _ _ old (d, m)) in E by (unfold in_db, zoom; cbn [fst]; by rewrite Ho).
  rewrite (SE_bind_ok _ _ _ (map_to_list m) (d, m)) in E by done.
  destruct (write_coins_sound k (map_to_list m) Hk [EraseBest; WriteHeads [h; old]] (d, m)) as (b' & [d1 m1] & Ew).
  rewrite (SE_bind_ok _ _ _ _ _ Ew) in E. unfold in_db, zoom, WriteBatch in E. destruct (Hk (b' ++ [EraseHeads; WriteBest h])) as [Hw _].
  rewrite Hw in E. cbn in E. injection E as <- _ _. done.
Qed.

(** A database between two writes. *)
Definition db_ok d : Prop := map_Forall (fun _ c => IsSpent c = false) (db_coins d) /\ db_heads d = None.
Lemma old_tip_ok h d : db_heads d = None -> old_tip h d = (Ok (default uint256_null (db_best d)), d).
Proof.
  intros Hd. unfold old_tip. rewrite (SE_bind_ok _ _ d (default uint256_null (db_best d)) d) by done.
  destruct (IsNull256 _); [|done]. unfold mbind, SE_bind, GetHeadBlocks, gets. by rewrite Hd.
Qed.

Lemma shows_unspent e c : shows e = Some c -> IsSpent c = false.
Proof. unfold shows. destruct (IsSpent (coin e)) eqn:E; [done|]. by intros [= <-]. Qed.
Lemma db_ok_completed m h d d' : db_ok d -> completed m h d d' -> db_ok d'.
Proof.
  intros [Hc _] (_ & Hh & Hd). split; [|done]. intros o c Ho. rewrite Hd in Ho. unfold coins_after in Ho.
  destruct (list_to_map _ !! o) as [e|]; [|by apply (Hc o)]. destruct (has DIRTY e); [by apply (shows_unspent e)|by apply (Hc o)].
Qed.

(** The database on a sound disk keeps the promise of a view. *)
Lemma db_laws k : sound_disk k -> CCoinsViewLaws CoinsDB (CV := db_view k).
Proof.
  intros Hk. refine (Build_CCoinsViewLaws CoinsDB (db_view k) db_ok (fun d o => db_coins d !! o) (fun d => default uint256_null (db_best d)) _ _ _ _ _).
  - intros d o c [H _]. apply H.
  - intros d o Hd. by exists d.
  - intros d o Hd. by exists d.
  - intros d Hd. by exists d.
  - intros d m h Hd Hh He. destruct (BatchWrite_sound k h _ d m Hk Hh (old_tip_ok h d (proj2 Hd))) as (d' & E & Hc).
    exists d'. split; [exact E|]. split; [by apply (db_ok_completed m h d)|]. pose proof Hc as (Hb & _ & Hco). split; [|by rewrite Hb].
    intros o. rewrite Hco. unfold coins_after, over. rewrite list_to_map_to_list. destruct (m !! o) as [e|] eqn:Eo; [|done].
    destruct (has DIRTY e) eqn:Ed; [done|]. symmetry. by apply (eo_clean _ _ (He o e Eo)).
Defined.

(** *** Crashes *)

(** The database [d] has not taken the entries, or is marked as being on the way
    from [old] to [h] with each coin as it was or as it will be. *)
Definition underway (m : CCoinsMap) (h old : bytes) d d' : Prop :=
  d' = d \/ db_best d' = None /\ db_heads d' = Some [h; old] /\
    forall o, db_coins d' !! o = db_coins d !! o \/ db_coins d' !! o = coins_after (map_to_list m) (db_coins d !! o) o.

Lemma coins_after_app l1 l2 u o : coins_after l1 u o = u \/ coins_after l1 u o = coins_after (l1 ++ l2) u o.
Proof.
  unfold coins_after. rewrite list_to_map_app. destruct (list_to_map l1 !! o) as [e|] eqn:E; [right|by left].
  by rewrite (lookup_union_Some_l _ _ _ _ E).
Qed.
Lemma coins_after_idem l u o : coins_after l (coins_after l u o) o = coins_after l u o.
Proof. unfold coins_after. destruct (list_to_map l !! o) as [e|]; [|done]. by destruct (has DIRTY e). Qed.

Lemma underway_tip m h d d' : db_heads d = None -> underway m h (default uint256_null (db_best d)) d d' ->
  old_tip h d' = (Ok (default uint256_null (db_best d)), d').
Proof.
  intros Hd [->|(Hb & Hh & _)]; [by apply old_tip_ok|]. unfold old_tip. rewrite (SE_bind_ok _ _ d' uint256_null d') by (unfold GetBestBlock_, gets; by rewrite Hb).
  change (IsNull256 uint256_null) with true. cbv iota. rewrite (SE_bind_ok _ _ d' [h; default uint256_null (db_best d)] d') by (unfold GetHeadBlocks, gets; by rewrite Hh).
  by rewrite bool_decide_true.
Qed.
Lemma underway_completed m h old d d1 d2 : underway m h old d d1 -> completed m h d1 d2 -> completed m h d d2.
Proof.
  intros Hu (Hb & Hh & Hc). split; [done|]. split; [done|]. intros o. rewrite Hc. destruct Hu as [->|(_ & _ & Hu)]; [done|].
  destruct (Hu o) as [->| ->]; [done|apply coins_after_idem].
Qed.
Lemma underway_partly m h old d d1 d2 : underway m h old d d1 -> partly (map_to_list m) (start h old) d1 d2 -> underway m h old d d2.
Proof.
  intros Hu (l1 & l2 & El & [->| ->]); [done|]. right. rewrite apply_batch_app.
  destruct (apply_writes l1 (apply_batch (start h old) d1)) as (B1 & B2 & B3).
  { pose proof (NoDup_fst_map_to_list m) as Hnd. rewrite El, fmap_app in Hnd. by apply list.NoDup_app in Hnd as [? _]. }
  split; [done|]. split; [done|]. intros o. rewrite B3. cbn [start apply_batch apply_write db_coins].
  assert (db_coins d1 !! o = db_coins d !! o \/ db_coins d1 !! o = coins_after (map_to_list m) (db_coins d !! o) o) as Ho.
  { destruct Hu as [->|(_ & _ & Hu)]; [by left|apply Hu]. }
  destruct (coins_after_app l1 l2 (db_coins d1 !! o) o) as [->| ->]; [done|]. rewrite <- El. right.
  destruct Ho as [->| ->]; [done|apply coins_after_idem].
Qed.

(** One attempt to write the entries, from any state an earlier attempt left. *)
Lemma attempt_run k m h d d1 r d2 m' : IsNull256 h = false -> db_heads d = None ->
  underway m h (default uint256_null (db_best d)) d d1 -> BatchWrite_ k h (d1, m) = (r, (d2, m')) ->
  (r = Ok true /\ completed m h d d2 /\ m' = ∅) \/ (is_ok r = false /\ underway m h (default uint256_null (db_best d)) d d2).
Proof.
  intros Hh Hd Hu E. destruct (BatchWrite_run k h _ d1 m r d2 m' Hh (underway_tip m h d d1 Hd Hu) E) as [(-> & Hc & ->)|[Hr Hp]].
  - left. split; [done|]. split; [|done]. by apply (underway_completed m h (default uint256_null (db_best d)) d d1).
  - right. split; [done|]. by apply (underway_partly m h _ d d1).
Qed.
Lemma attempt_sound k m h d d1 : sound_disk k -> IsNull256 h = false -> db_heads d = None ->
  underway m h (default uint256_null (db_best d)) d d1 -> exists d2, BatchWrite_ k h (d1, m) = (Ok true, (d2, ∅)) /\ completed m h d d2.
Proof.
  intros Hk Hh Hd Hu. destruct (BatchWrite_sound k h _ d1 m Hk Hh (underway_tip m h d d1 Hd Hu)) as (d2 & E & Hc).
  exists d2. split; [done|]. by apply (underway_completed m h (default uint256_null (db_best d)) d d1).
Qed.

(** Attempts on one disk after another, until one succeeds. *)
Fixpoint retry (ks : list Disk) (h : bytes) (m : CCoinsMap) d : bool * CoinsDB :=
  match ks with
  | [] => (false, d)
  | k :: ks => match BatchWrite_ k h (d, m) with (Ok true, (d', _)) => (true, d') | (_, (d', _)) => retry ks h m d' end
  end.
Lemma retry_run ks h m d : forall d1, IsNull256 h = false -> db_heads d = None -> underway m h (default uint256_null (db_best d)) d d1 ->
  Exists sound_disk ks -> exists d2, retry ks h m d1 = (true, d2) /\ completed m h d d2.
Proof.
  induction ks as [|k ks IH]; intros d1 Hh Hd Hu Hk; [by apply Exists_nil in Hk|]. cbn [retry].
  destruct (BatchWrite_ k h (d1, m)) as [r [d2 m']] eqn:E.
  destruct (attempt_run k m h d d1 r d2 m' Hh Hd Hu E) as [(-> & Hc & _)|[Hr Hu2]]; [by exists d2|].
  assert (exists d3, retry ks h m d2 = (true, d3) /\ completed m h d d3) as H3; [|by destruct r].
  apply IH; [done|done|done|]. apply Exists_cons in Hk as [Hk|Hk]; [exfalso|done].
  destruct (attempt_sound k m h d d1 Hk Hh Hd Hu) as (d3 & E3 & _). rewrite E3 in E. injection E as <- _ _. done.
Qed.
End Database.

(** ** Operations in sequence *)
Inductive coin_op := CAdd (o : COutPoint) (x : Coin) (possible_overwrite : bool) | CSpend (o : COutPoint)
  | CGet (o : COutPoint) | CAccess (o : COutPoint) | CHave (o : COutPoint) | CUncache (o : COutPoint).
(** What is returned: of [SpendCoin] whether it returns true, with the coin it
    moves out; of [AccessCoin] the coin. *)
Inductive seen := SDone | SCoin (r : option Coin) | SMoved (r : option Coin) | SBool (b : bool).

Section Ops.
Context {V : Type} `{CV : !CCoinsView V}.
Import Cache.
Definition run_op (p : coin_op) : SE (CCoinsViewCache V) seen :=
  match p with
  | CAdd o x ow => AddCoin o x ow;; mret SDone
  | CSpend o => r ← SpendCoin o; mret (SMoved r)
  | CGet o => r ← GetCoin_ o; mret (SCoin r)
  | CAccess o => x ← AccessCoin o; mret (SMoved (Some x))
  | CHave o => b ← HaveCoin_ o; mret (SBool b)
  | CUncache o => Uncache o;; mret SDone
  end.
Fixpoint run_ops (l : list coin_op) : SE (CCoinsViewCache V) (list seen) :=
  match l with [] => mret [] | p :: l => x ← run_op p; xs ← run_ops l; mret (x :: xs) end.
End Ops.

(** The same on a map of unspent coins. *)
Definition upd (o : COutPoint) (x : option Coin) (u : COutPoint -> option Coin) : COutPoint -> option Coin :=
  fun p => if decide (p = o) then x else u p.
Definition map_op (p : coin_op) (u : COutPoint -> option Coin) : seen * (COutPoint -> option Coin) :=
  match p with
  | CAdd o x ow => (SDone, if CScript.IsUnspendable (scriptPubKey (out x)) then u else upd o (Some x) u)
  | CSpend o => (SMoved (u o), upd o None u)
  | CGet o => (SCoin (u o), u)
  | CAccess o => (SMoved (u o), u)
  | CHave o => (SBool (bool_decide (is_Some (u o))), u)
  | CUncache _ => (SDone, u)
  end.
Fixpoint map_ops (l : list coin_op) (u : COutPoint -> option Coin) : list seen * (COutPoint -> option Coin) :=
  match l with
  | [] => ([], u)
  | p :: l => let (x, u') := map_op p u in let (xs, u'') := map_ops l u' in (x :: xs, u'')
  end.
(** What the cache returns, against what the map does: the same, except that for an
    output the map has no coin of, a coin that is spent may be moved out or
    accessed. *)
Definition agrees (x y : seen) : Prop :=
  match x, y with
  | SMoved r, SMoved None => match r with Some c => IsSpent c = true | None => True end
  | _, _ => x = y
  end.
(** A coin that is added is unspent, and one that is said to be new is new. *)
Fixpoint legal (l : list coin_op) (u : COutPoint -> option Coin) : Prop :=
  match l with
  | [] => True
  | p :: l => match p with CAdd o x ow => IsSpent x = false /\ (ow = false -> u o = None) | _ => True end /\ legal l (snd (map_op p u))
  end.

Section OpsOk.
Context {V : Type} `{CV : !CCoinsView V} `{CL : !CCoinsViewLaws V}.
Import Cache.

Lemma found_agrees r u : found r u -> agrees (SMoved r) (SMoved u).
Proof.
  unfold found. destruct r as [x|]; [|by intros ->]. destruct (IsSpent x) eqn:E; intros <-; cbn; by rewrite ?E.
Qed.

Lemma run_op_ok p (c : CCoinsViewCache V) u : cache_ok c -> (forall o, cache_utxo c o = u o) -> legal [p] u ->
  exists x c', run_op p c = (Ok x, c') /\ agrees x (fst (map_op p u)) /\ cache_ok c' /\ (forall o, cache_utxo c' o = snd (map_op p u) o) /\ cache_best c' = cache_best c.
Proof.
  intros Hc Hu [Hl _]. destruct p as [o x ow|o|o|o|o|o]; cbn [run_op map_op fst snd].
  - destruct Hl as [Hx Hn]. destruct (CScript.IsUnspendable (scriptPubKey (out x))) eqn:E.
    { exists SDone, c. unfold AddCoin. rewrite Hx, E. done. }
    destruct (AddCoin_ok o x ow c Hc Hx E) as (c' & Er & Hc' & Hu' & Hb); [intros; rewrite Hu; auto|].
    exists SDone, c'. rewrite (SE_bind_ok _ _ _ _ _ Er). split; [done|]. split; [done|]. split; [done|]. split; [|done]. intros p. rewrite Hu', Hu. done.
  - destruct (SpendCoin_ok o c Hc) as (r & c' & Er & Hf & Hc' & Hu' & Hb). exists (SMoved r), c'. rewrite (SE_bind_ok _ _ _ _ _ Er), <- Hu.
    split; [done|]. split; [by apply found_agrees|]. split; [done|]. split; [|done]. intros p. rewrite Hu', Hu. done.
  - destruct (cache_GetCoin_ok o c Hc) as (c' & Er & [Hc' Hu' Hb]). eexists _, c'. rewrite (SE_bind_ok _ _ _ _ _ Er), Hu.
    split; [done|]. split; [done|]. split; [done|]. split; [|done]. intros p. by rewrite Hu', Hu.
  - destruct (AccessCoin_ok o c Hc) as (x & c' & Er & [Hc' Hu' Hb] & Hx). exists (SMoved (Some x)), c'. rewrite (SE_bind_ok _ _ _ _ _ Er), <- Hu.
    split; [done|]. split; [by apply found_agrees|]. split; [done|]. split; [|done]. intros p. by rewrite Hu', Hu.
  - destruct (cache_HaveCoin_ok o c Hc) as (c' & Er & [Hc' Hu' Hb]). eexists _, c'. rewrite (SE_bind_ok _ _ _ _ _ Er), Hu.
    split; [done|]. split; [done|]. split; [done|]. split; [|done]. intros p. by rewrite Hu', Hu.
  - destruct (Uncache_ok o c Hc) as (c' & Er & [Hc' Hu' Hb]). exists SDone, c'. rewrite (SE_bind_ok _ _ _ _ _ Er).
    split; [done|]. split; [done|]. split; [done|]. split; [|done]. intros p. by rewrite Hu', Hu.
Qed.

Lemma run_ops_ok l : forall (c : CCoinsViewCache V) u, cache_ok c -> (forall o, cache_utxo c o = u o) -> legal l u ->
  exists xs c', run_ops l c = (Ok xs, c') /\ Forall2 agrees xs (fst (map_ops l u)) /\ cache_ok c' /\ (forall o, cache_utxo c' o = snd (map_ops l u) o) /\ cache_best c' = cache_best c.
Proof.
  induction l as [|p l IH]; intros c u Hc Hu Hl.
  - exists [], c. split; [done|]. split; [by constructor|]. split; [done|]. split; [done|done].
  - destruct Hl as [Hp Hl]. destruct (run_op_ok p c u Hc Hu (conj Hp I)) as (x1 & c1 & E1 & A1 & Hc1 & Hu1 & Hb1).
    destruct (IH c1 _ Hc1 Hu1 Hl) as (xs2 & c2 & E2 & A2 & Hc2 & Hu2 & Hb2). exists (x1 :: xs2), c2. cbn [run_ops map_ops].
    rewrite (SE_bind_ok _ _ _ _ _ E1), (SE_bind_ok _ _ _ _ _ E2).
    destruct (map_op p u) as [x u']. cbn [fst snd] in *. destruct (map_ops l u') as [xs u'']. cbn [fst snd] in *.
    split; [done|]. split; [by constructor|]. split; [done|]. split; [done|congruence].
Qed.
End OpsOk.

(** ** Claims *)

(** Two outputs, a coin on disk, a disk that takes every write. *)
Definition here : COutPoint := mkOutPoint (replicate 32 5) 0.
Definition there : COutPoint := mkOutPoint (replicate 32 5) 1.
Definition gold : Coin := mkCoin (mkTxOut 50 [0x51]) true 7.
Definition iron : Coin := mkCoin (mkTxOut 3 [0x52]) false 9.
Definition steady : Disk := mkDisk (fun _ => true) (fun _ => false) (fun _ => false).
Lemma steady_sound : sound_disk steady.
Proof. done. Qed.
#[local] Instance steady_view : CCoinsView CoinsDB := db_view steady.
#[local] Instance steady_laws : CCoinsViewLaws CoinsDB := db_laws steady steady_sound.
Definition one_coin : CoinsDB := mkCoinsDB {[here := gold]} (Some (replicate 32 1)) None.
Lemma one_coin_ok : db_ok one_coin.
Proof. split; [|done]. intros o c Hc. cbn [one_coin db_coins] in Hc. by apply lookup_singleton_Some in Hc as [_ <-]. Qed.
Lemma new_ok : cache_ok (Cache.new one_coin).
Proof. split; [exact one_coin_ok|by intros o e He|done]. Qed.
Definition sample_ops : list coin_op := [CHave there; CSpend here; CAdd there iron false; CAdd here iron false; CUncache there; CGet here; CSpend there; CAccess there].

(** C13: The cache of coins is a map of unspent outputs.  Over any view that keeps its
    promise, start from a lawful cache and run any sequence of [AddCoin],
    [SpendCoin], [GetCoin], [AccessCoin], [HaveCoin] and [Uncache] in which a coin
    that is added is unspent, and new where the caller says so.  The calls return,
    and the cache ends showing the map that the same operations make of the map it
    showed, although it loads, drops and erases entries; its account of the memory
    in use is that of its entries.  [GetCoin] and [HaveCoin] return exactly what
    the map has.  [SpendCoin] returns true and moves out the map's coin, and
    [AccessCoin] returns it, when the map has one; when it has none [AccessCoin]
    returns a spent coin, and [SpendCoin] returns false or, for an entry spent
    before, true with a spent coin. *)
Theorem coins_cache_refines_map {V} `{CV : !CCoinsView V} `{CL : !CCoinsViewLaws V} (l : list coin_op) (c : CCoinsViewCache V) :
  cache_ok c -> legal l (cache_utxo c) ->
  exists xs c', run_ops l c = (Ok xs, c') /\ Forall2 agrees xs (fst (map_ops l (cache_utxo c))) /\ cache_ok c' /\
    (forall o, cache_utxo c' o = snd (map_ops l (cache_utxo c)) o) /\ cachedCoinsUsage c' = u64 (usage (cacheCoins c')).
Proof.
  intros Hc Hl. destruct (run_ops_ok l c _ Hc (fun _ => eq_refl) Hl) as (xs & c' & E & A & Hc' & Hu & _).
  exists xs, c'. split; [done|]. split; [done|]. split; [done|]. split; [done|]. apply Hc'.
Qed.
Lemma coins_cache_refines_map_witness : exists xs c', run_ops sample_ops (Cache.new one_coin) = (Ok xs, c') /\
  Forall2 agrees xs [SBool false; SMoved (Some gold); SDone; SDone; SDone; SCoin (Some iron); SMoved (Some iron); SMoved None] /\
  cache_utxo c' here = Some iron /\ cache_utxo c' there = None.
Proof.
  destruct (coins_cache_refines_map sample_ops (Cache.new one_coin)) as (xs & c' & E & A & _ & Hu & _).
  - exact new_ok.
  - repeat split.
  - exists xs, c'. split; [exact E|]. split; [exact A|]. split; rewrite Hu; reflexivity.
Defined.

(** Spending twice while the view below has the coin: the second call returns true, with a spent coin. *)
Example spent_twice : fst (run_ops [CSpend here; CSpend here] (Cache.new one_coin)) = Ok [SMoved (Some gold); SMoved (Some (Coin_Clear gold))].
Proof. vm_compute. reflexivity. Qed.

(** C22: [Flush] writes through: whatever the cache showed is then shown by the view below,
    with the cache's best block; the cache is empty and shows the same coins as
    before.  This holds for a cache over the database and for a cache over another
    cache alike. *)
Theorem flush_writes_through {V} `{CV : !CCoinsView V} `{CL : !CCoinsViewLaws V} (c : CCoinsViewCache V) :
  cache_ok c -> IsNull256 (hashBlock c) = false ->
  exists c', Cache.Flush c = (Ok true, c') /\ cache_ok c' /\ cacheCoins c' = ∅ /\ cachedCoinsUsage c' = 0 /\
    (forall o, utxo (base c') o = cache_utxo c o) /\ (forall o, cache_utxo c' o = cache_utxo c o) /\ best_block (base c') = hashBlock c.
Proof.
  intros Hc Hn. destruct (Flush_ok c Hc Hn) as (c' & E & Hok & He & Hu & Hu' & Hb & Hus). exists c'. repeat (split; [done|]). done.
Qed.
Lemma flush_writes_through_witness :
  let c := snd (run_ops sample_ops (Cache.set_hashBlock (replicate 32 2) (Cache.new (Cache.new one_coin)))) in
  exists c', Cache.Flush c = (Ok true, c') /\ utxo (base c') here = Some iron /\ utxo (base c') there = None.
Proof.
  intros c. destruct (run_ops_ok sample_ops (Cache.set_hashBlock (replicate 32 2) (Cache.new (Cache.new one_coin))) _
    ltac:(split; [exact new_ok|by intros o e He|done]) (fun _ => eq_refl) ltac:(repeat split)) as (xs & c1 & E & _ & Hc & Hu & _).
  assert (c = c1) as Ec by (unfold c; by rewrite E). rewrite Ec.
  destruct (flush_writes_through c1) as (c' & Ef & _ & _ & _ & Hb & _).
  - exact Hc.
  - rewrite <- Ec. vm_compute. reflexivity.
  - exists c'. split; [exact Ef|]. rewrite !Hb, !Hu. split; reflexivity.
Defined.

(** C15: A crash in the middle of writing the coins loses nothing: whatever the disk does, [CCoinsViewDB::BatchWrite]
    either writes every changed coin and the new best block, or leaves the database as it
    was, or leaves it marked as on the way from the old tip to the new one with each
    coin as it was or as it will be.  This holds again for an attempt that starts from
    what an interrupted one left. *)
Theorem coins_crash_safe (k : Disk) (m : CCoinsMap) (h : bytes) (d d1 d2 : CoinsDB) (r : outcome bool) (m' : CCoinsMap) :
  IsNull256 h = false -> db_ok d -> underway m h (default uint256_null (db_best d)) d d1 ->
  CoinsView.BatchWrite_ k h (d1, m) = (r, (d2, m')) ->
  (r = Ok true /\ completed m h d d2 /\ db_ok d2 /\ m' = ∅) \/ (is_ok r = false /\ underway m h (default uint256_null (db_best d)) d d2).
Proof.
  intros Hh Hd Hu E. destruct (attempt_run k m h d d1 r d2 m' Hh (proj2 Hd) Hu E) as [(Hr & Hc & Hm)|H]; [left|by right].
  split; [done|]. split; [done|]. split; [by apply (db_ok_completed m h d)|done].
Qed.
(** Batches of one entry, and a crash when the coin [there] was written. *)
Definition torn : Disk := mkDisk (fun _ => true) (fun _ => false)
  (existsb (fun w => match w with WriteCoin o _ => bool_decide (o = there) | _ => false end)).
Definition two_changes : CCoinsMap := {[here := mkEntry coinEmpty 1; there := mkEntry iron 3]}.
Lemma coins_crash_safe_witness : exists d2 m', CoinsView.BatchWrite_ torn (replicate 32 2) (one_coin, two_changes) = (Exit 0, (d2, m')) /\
  underway two_changes (replicate 32 2) (replicate 32 1) one_coin d2 /\ db_heads d2 = Some [replicate 32 2; replicate 32 1].
Proof.
  destruct (CoinsView.BatchWrite_ torn (replicate 32 2) (one_coin, two_changes)) as [r [d2 m']] eqn:E.
  pose proof (coins_crash_safe torn two_changes (replicate 32 2) one_coin one_coin d2 r m' eq_refl one_coin_ok (or_introl eq_refl) E) as H.
  assert (r = Exit 0) as Hr by (change r with (fst (r, (d2, m'))); rewrite <- E; vm_compute; reflexivity).
  assert (db_heads d2 = Some [replicate 32 2; replicate 32 1]) as Hh.
  { change d2 with (fst (snd (r, (d2, m')))). rewrite <- E. vm_compute. reflexivity. }
  exists d2, m'. destruct H as [(Ht & _)|[_ Hu]]; [by rewrite Ht in Hr|]. rewrite Hr. split; [done|]. split; [exact Hu|exact Hh].
Defined.

(** C27: Writing the coins is eventually done: after any number of attempts that failed or crashed, from whatever they
    left of the database, the first attempt on a disk that takes its writes completes
    the transition, and the result is that of an undisturbed write. *)
Theorem coins_write_completes (ks : list Disk) (m : CCoinsMap) (h : bytes) (d : CoinsDB) :
  IsNull256 h = false -> db_ok d -> Exists sound_disk ks ->
  exists d', retry ks h m d = (true, d') /\ completed m h d d' /\ db_ok d'.
Proof.
  intros Hh Hd Hk. destruct (retry_run ks h m d d Hh (proj2 Hd) (or_introl eq_refl) Hk) as (d' & E & Hc).
  exists d'. split; [done|]. split; [done|]. by apply (db_ok_completed m h d).
Qed.
Lemma coins_write_completes_witness : exists d', retry [torn; torn; steady] (replicate 32 2) two_changes one_coin = (true, d') /\
  db_coins d' !! here = None /\ db_coins d' !! there = Some iron /\ db_best d' = Some (replicate 32 2).
Proof.
  destruct (coins_write_completes [torn; torn; steady] two_changes (replicate 32 2) one_coin) as (d' & E & (Hb & _ & Hc) & _).
  - reflexivity.
  - exact one_coin_ok.
  - right. right. left. exact steady_sound.
  - exists d'. split; [exact E|]. rewrite !Hc. split; [vm_compute; reflexivity|]. split; [vm_compute; reflexivity|exact Hb].
Defined.

(** [AddCoin] that throws leaves the cache's account of its memory wrong: adding a coin as new over one that is
    unspent is refused with a logic error and the entries stay as they are, but
    the memory of the entry was already subtracted. *)
Theorem AddCoin_throw_miscounts {V} (o : COutPoint) (x : Coin) (e : CCoinsCacheEntry) (c : CCoinsViewCache V) :
  IsSpent x = false -> CScript.IsUnspendable (scriptPubKey (out x)) = false -> cacheCoins c !! o = Some e -> IsSpent (coin e) = false ->
  cachedCoinsUsage c = u64 (usage (cacheCoins c)) ->
  exists c', fst (Cache.AddCoin o x false c) = Throw "Adding new coin that replaces non-pruned entry" /\ snd (Cache.AddCoin o x false c) = c' /\
    cacheCoins c' = cacheCoins c /\ cachedCoinsUsage c' = u64 (usage (cacheCoins c') - DynamicMemoryUsage (coin e)).
Proof.
  intros Hx Hn Ho He Hu. unfold Cache.AddCoin. rewrite Hx, Hn. cbn [negb].
  rewrite (SE_bind_ok _ _ c tt c), (SE_bind_ok _ _ c (cacheCoins c) c) by done. rewrite Ho, bool_decide_false by done. cbn [default from_option id negb].
  unfold Cache.store, Cache.use, when, modify, throw, mbind, SE_bind. cbn [fst snd]. rewrite He. cbn [negb].
  eexists. split; [done|]. split; [done|]. cbn. rewrite insert_id by done. split; [done|]. rewrite Hu. unfold Z.sub. by rewrite u64_add.
Qed.
Definition tall : Coin := mkCoin (mkTxOut 50 (replicate 40 0x51)) false 7.
Lemma AddCoin_throw_miscounts_witness : exists c' : CCoinsViewCache CoinsDB,
  fst (Cache.AddCoin here iron false (mkCache one_coin uint256_null {[here := mkEntry tall 1]} 64)) = Throw "Adding new coin that replaces non-pruned entry" /\
  snd (Cache.AddCoin here iron false (mkCache one_coin uint256_null {[here := mkEntry tall 1]} 64)) = c' /\ usage (cacheCoins c') = 64 /\ cachedCoinsUsage c' = 0.
Proof.
  destruct (AddCoin_throw_miscounts here iron (mkEntry tall 1) (mkCache one_coin uint256_null {[here := mkEntry tall 1]} 64)) as (c' & H1 & H2 & H3 & H4);
    [reflexivity|reflexivity|reflexivity|reflexivity|reflexivity|].
  exists c'. split; [exact H1|]. split; [exact H2|]. rewrite H4, H3. split; vm_compute; reflexivity.
Defined.
