(* ===== verification/Chain.v ===== *)
(** * The block index: the tree of blocks, its skip list, the active chain

    Model of [class CBlockIndex] and [class CChain] ([src/src/chain.h],
    [chain.cpp]) and of the way headers enter the tree ([AddToBlockIndex],
    [ContextualCheckBlockHeader] in [src/src/validation.cpp]).

    Blocks are objects on a heap that are never freed; a pointer is an address and
    the null pointer is [None].  The hash of a header is an argument. *)

From stdpp Require Import sorting.
From S2P Require Import Prelude.

(** ** Blocks *)
Abbreviation ptr := nat (only parsing).

Definition BLOCK_VALID_TREE : Z := 2.
Definition BLOCK_VALID_TRANSACTIONS : Z := 3.
Definition BLOCK_VALID_SCRIPTS : Z := 5.
Definition BLOCK_VALID_MASK : Z := 7.
Definition BLOCK_HAVE_DATA : Z := 8.
Definition BLOCK_HAVE_UNDO : Z := 16.
Definition BLOCK_FAILED_VALID : Z := 32.
Definition BLOCK_FAILED_CHILD : Z := 64.
Definition BLOCK_FAILED_MASK : Z := 96.

Record CBlockHeader := mkHeader {
  h_nVersion : Z;
  h_hashPrevBlock : bytes;
  h_hashMerkleRoot : bytes;
  h_hashStateRoot : bytes;
  h_nTime : Z;
  h_nBits : Z;
  h_nHeight : Z
}.

(** The hash of a block is kept by value: the string in the map that
    [phashBlock] points to does not change. *)
Record CBlockIndex := mkIndex {
  phashBlock : bytes;
  pprev : option ptr;
  pskip : option ptr;
  nHeight : Z;
  nFile : Z;
  nDataPos : Z;
  nUndoPos : Z;
  nChainWork : Z;
  nTx : Z;
  nChainTx : Z;
  nStatus : Z;
  nVersion : Z;
  hashMerkleRoot : bytes;
  hashStateRoot : bytes;
  nTime : Z;
  nBits : Z;
  nSequenceId : Z;
  nTimeMax : Z
}.
Abbreviation Index := (gmap ptr CBlockIndex).

Definition set_pprev x b := mkIndex (phashBlock b) x (pskip b) (nHeight b) (nFile b) (nDataPos b) (nUndoPos b) (nChainWork b) (nTx b)
  (nChainTx b) (nStatus b) (nVersion b) (hashMerkleRoot b) (hashStateRoot b) (nTime b) (nBits b) (nSequenceId b) (nTimeMax b).
Definition set_pskip x b := mkIndex (phashBlock b) (pprev b) x (nHeight b) (nFile b) (nDataPos b) (nUndoPos b) (nChainWork b) (nTx b)
  (nChainTx b) (nStatus b) (nVersion b) (hashMerkleRoot b) (hashStateRoot b) (nTime b) (nBits b) (nSequenceId b) (nTimeMax b).
Definition set_nHeight x b := mkIndex (phashBlock b) (pprev b) (pskip b) x (nFile b) (nDataPos b) (nUndoPos b) (nChainWork b) (nTx b)
  (nChainTx b) (nStatus b) (nVersion b) (hashMerkleRoot b) (hashStateRoot b) (nTime b) (nBits b) (nSequenceId b) (nTimeMax b).
Definition set_nChainWork x b := mkIndex (phashBlock b) (pprev b) (pskip b) (nHeight b) (nFile b) (nDataPos b) (nUndoPos b) x (nTx b)
  (nChainTx b) (nStatus b) (nVersion b) (hashMerkleRoot b) (hashStateRoot b) (nTime b) (nBits b) (nSequenceId b) (nTimeMax b).
Definition set_nStatus x b := mkIndex (phashBlock b) (pprev b) (pskip b) (nHeight b) (nFile b) (nDataPos b) (nUndoPos b) (nChainWork b) (nTx b)
  (nChainTx b) x (nVersion b) (hashMerkleRoot b) (hashStateRoot b) (nTime b) (nBits b) (nSequenceId b) (nTimeMax b).
Definition set_nTimeMax x b := mkIndex (phashBlock b) (pprev b) (pskip b) (nHeight b) (nFile b) (nDataPos b) (nUndoPos b) (nChainWork b) (nTx b)
  (nChainTx b) (nStatus b) (nVersion b) (hashMerkleRoot b) (hashStateRoot b) (nTime b) (nBits b) (nSequenceId b) x.

(** [CBlockIndex(block)] *)
Definition new_index (hash : bytes) (block : CBlockHeader) : CBlockIndex :=
  mkIndex hash None None 0 0 0 0 0 0 0 0 (h_nVersion block) (h_hashMerkleRoot block) (h_hashStateRoot block) (h_nTime block) (h_nBits block) 0 0.

(** [CBlockIndex()] of [SetNull], with its hash *)
Definition null_index (hash : bytes) : CBlockIndex :=
  mkIndex hash None None 0 0 0 0 0 0 0 0 0 (replicate 32 0) (replicate 32 0) 0 0 0 0.

(** Following a pointer *)
Definition deref (H : Index) (p : ptr) : outcome CBlockIndex :=
  match H !! p with Some b => Ok b | None => Undef "dangling pointer" end.
Definition arrow (H : Index) (p : option ptr) : outcome CBlockIndex :=
  match p with Some p => deref H p | None => Undef "null pointer" end.

(** [GetBlockHeader()] *)
Definition GetBlockHeader (H : Index) (b : CBlockIndex) : outcome CBlockHeader :=
  prev ← (match pprev b with Some q => q ← deref H q; Ok (phashBlock q) | None => Ok (replicate 32 0) end : outcome bytes);
  Ok (mkHeader (nVersion b) prev (hashMerkleRoot b) (hashStateRoot b) (nTime b) (nBits b) (wrap 32 (nHeight b))).

(** [IsValid(nUpTo)], [RaiseValidity(nUpTo)] *)
Definition IsValid (nUpTo : Z) (b : CBlockIndex) : outcome bool :=
  if Z.land nUpTo (Z.lnot BLOCK_VALID_MASK) =? 0
  then Ok (if negb (Z.land (nStatus b) BLOCK_FAILED_MASK =? 0) then false else nUpTo <=? Z.land (nStatus b) BLOCK_VALID_MASK)
  else Assertion "!(nUpTo & ~BLOCK_VALID_MASK)".
Definition RaiseValidity (nUpTo : Z) (b : CBlockIndex) : outcome (bool * CBlockIndex) :=
  if Z.land nUpTo (Z.lnot BLOCK_VALID_MASK) =? 0
  then Ok (if negb (Z.land (nStatus b) BLOCK_FAILED_MASK =? 0) then (false, b)
           else if Z.land (nStatus b) BLOCK_VALID_MASK <? nUpTo
           then (true, set_nStatus (Z.lor (Z.land (nStatus b) (wrap 32 (Z.lnot BLOCK_VALID_MASK))) nUpTo) b)
           else (false, b))
  else Assertion "!(nUpTo & ~BLOCK_VALID_MASK)".

(** [GetMedianTimePast()]: the times of the last blocks, oldest first *)
Definition nMedianTimeSpan : nat := 11.
Fixpoint past_times (n : nat) (H : Index) (pindex : option ptr) : outcome (list Z) :=
  match n, pindex with
  | S n, Some p => b ← deref H p; l ← past_times n H (pprev b); Ok (l ++ [nTime b])
  | _, _ => Ok []
  end.
Definition GetMedianTimePast (H : Index) (p : ptr) : outcome Z :=
  l ← past_times nMedianTimeSpan H (Some p);
  Ok (nth (length l / 2)%nat (merge_sort Z.le l) 0).

(** ** The skip list *)
Definition InvertLowestOne (n : Z) : Z := Z.land n (n - 1).
Definition GetSkipHeight (height : Z) : Z :=
  if height <? 2 then 0
  else if negb (Z.land height 1 =? 0) then InvertLowestOne (InvertLowestOne (height - 1)) + 1
  else InvertLowestOne height.

(** The loop of [GetAncestor(height)] *)
Fixpoint ancestor_loop (fuel : nat) (H : Index) (height heightWalk : Z) (pindexWalk : ptr) : outcome ptr :=
  match fuel with
  | O => Diverge
  | S fuel =>
    if heightWalk <=? height then Ok pindexWalk
    else
      let heightSkip := GetSkipHeight heightWalk in
      let heightSkipPrev := GetSkipHeight (heightWalk - 1) in
      b ← deref H pindexWalk;
      match pskip b, (heightSkip =? height) || ((height <? heightSkip) &&
               negb ((heightSkipPrev <? heightSkip - 2) && (height <=? heightSkipPrev))) with
      | Some s, true => ancestor_loop fuel H height heightSkip s
      | _, _ =>
        match pprev b with
        | None => Assertion "pindexWalk->pprev"
        | Some q => ancestor_loop fuel H height (heightWalk - 1) q
        end
      end
  end.
Definition GetAncestor (H : Index) (p : ptr) (height : Z) : outcome (option ptr) :=
  b ← deref H p;
  if (nHeight b <? height) || (height <? 0) then Ok None
  else r ← ancestor_loop (S (Z.to_nat (nHeight b))) H height (nHeight b) p; Ok (Some r).

(** [BuildSkip()] *)
Definition BuildSkip (H : Index) (b : CBlockIndex) : outcome CBlockIndex :=
  match pprev b with
  | Some q => s ← GetAncestor H q (GetSkipHeight (nHeight b)); Ok (set_pskip s b)
  | None => Ok b
  end.

(** [GetBlockProof(block)] *)
Definition GetBlockProof (b : CBlockIndex) : Z := 1.

(** [LastCommonAncestor(pa, pb)] *)
Fixpoint common_loop (fuel : nat) (H : Index) (pa pb : option ptr) : outcome (option ptr * option ptr) :=
  match fuel with
  | O => Diverge
  | S fuel =>
    match pa, pb with
    | Some a, Some b =>
      if decide (a = b) then Ok (pa, pb)
      else a ← deref H a; b ← deref H b; common_loop fuel H (pprev a) (pprev b)
    | _, _ => Ok (pa, pb)
    end
  end.
Definition LastCommonAncestor (H : Index) (pa pb : ptr) : outcome (option ptr) :=
  a ← deref H pa; b ← deref H pb;
  pa' ← (if nHeight b <? nHeight a then GetAncestor H pa (nHeight b) else Ok (Some pa) : outcome (option ptr));
  pb' ← (if nHeight b <? nHeight a then Ok (Some pb) else if nHeight a <? nHeight b then GetAncestor H pb (nHeight a) else Ok (Some pb) : outcome (option ptr));
  r ← common_loop (S (S (Z.to_nat (nHeight a)))) H pa' pb';
  if decide (fst r = snd r) then Ok (fst r) else Assertion "pa == pb".

(** ** [class CChain] *)
Abbreviation CChain := (list (option ptr)) (only parsing).
Module CChain.
Implicit Types (vChain : CChain) (H : Index).
Definition Genesis vChain : option ptr := match vChain with [] => None | p :: _ => p end.
Definition Tip vChain : option ptr := match vChain !! Nat.pred (length vChain) with Some p => p | None => None end.
Definition at_height vChain (nHeight : Z) : option ptr :=
  if (nHeight <? 0) || (size vChain <=? nHeight) then None else nth (Z.to_nat nHeight) vChain None.
Definition Height vChain : Z := size vChain - 1.
(** Comparing the tips of two empty chains reads before the vectors. *)
Definition equals (a b : CChain) : outcome bool :=
  if negb (size a =? size b) then Ok false
  else match a !! Nat.pred (length a), b !! Nat.pred (length b) with Some x, Some y => Ok (bool_decide (x = y)) | _, _ => Undef "vChain[-1]" end.
Definition Contains H vChain (p : ptr) : outcome bool :=
  b ← deref H p; Ok (bool_decide (at_height vChain (nHeight b) = Some p)).
Definition Next H vChain (p : ptr) : outcome (option ptr) :=
  c ← Contains H vChain p;
  b ← deref H p;
  Ok (if (c : bool) then at_height vChain (nHeight b + 1) else None).

(** [SetTip(pindex)] *)
Definition resize (n : nat) vChain : CChain := take n vChain ++ replicate (n - length vChain) None.
Fixpoint set_loop (fuel : nat) H vChain (pindex : option ptr) : outcome CChain :=
  match fuel with
  | O => Diverge
  | S fuel =>
    match pindex with
    | None => Ok vChain
    | Some p =>
      b ← deref H p;
      match vChain !! Z.to_nat (nHeight b) with
      | None => Undef "vChain[pindex->nHeight]"
      | Some x => if decide (x = Some p) then Ok vChain
                  else set_loop fuel H (<[Z.to_nat (nHeight b) := Some p]> vChain) (pprev b)
      end
    end
  end.
Definition SetTip H vChain (pindex : option ptr) : outcome CChain :=
  match pindex with
  | None => Ok []
  | Some p =>
    b ← deref H p;
    let n := Z.to_nat (nHeight b + 1) in
    set_loop (S n) H (resize n vChain) pindex
  end.

(** [GetLocator(pindex)]: the hashes, in the order in which they are pushed *)
Fixpoint locator_loop (fuel : nat) H vChain (pindex : option ptr) (nStep : Z) (vHave : list bytes) : outcome (list bytes) :=
  match fuel with
  | O => Diverge
  | S fuel =>
    match pindex with
    | None => Ok vHave
    | Some p =>
      b ← deref H p;
      let vHave := vHave ++ [phashBlock b] in
      if Chain.nHeight b =? 0 then Ok vHave
      else
        let nHeight := Z.max (Chain.nHeight b - nStep) 0 in
        c ← Contains H vChain p;
        q ← (if (c : bool) then Ok (at_height vChain nHeight) else GetAncestor H p nHeight : outcome (option ptr));
        nStep ← (if 10 <? size vHave
                 then if nStep * 2 <? 2 ^ 31 then Ok (nStep * 2) else Undef "nStep overflows" else Ok nStep : outcome Z);
        locator_loop fuel H vChain q nStep vHave
    end
  end.
Definition GetLocator H vChain (pindex : option ptr) : outcome (list bytes) :=
  let pindex := match pindex with None => Tip vChain | Some p => Some p end in
  match pindex with
  | None => Ok []
  | Some p => b ← deref H p; locator_loop (S (S (Z.to_nat (nHeight b)))) H vChain (Some p) 1 []
  end.

(** [FindFork(pindex)] *)
Fixpoint fork_loop (fuel : nat) H vChain (pindex : option ptr) : outcome (option ptr) :=
  match fuel with
  | O => Diverge
  | S fuel =>
    match pindex with
    | None => Ok None
    | Some p =>
      c ← Contains H vChain p;
      if (c : bool) then Ok (Some p) else b ← deref H p; fork_loop fuel H vChain (pprev b)
    end
  end.
Definition FindFork H vChain (pindex : option ptr) : outcome (option ptr) :=
  match pindex with
  | None => Ok None
  | Some p =>
    b ← deref H p;
    q ← (if Height vChain <? nHeight b then GetAncestor H p (Height vChain) else Ok (Some p) : outcome (option ptr));
    fork_loop (S (S (Z.to_nat (nHeight b)))) H vChain q
  end.

(** [FindEarliestAtLeast(nTime)]: [std::lower_bound] halves the range
    [first, first + len). *)
Fixpoint lower_bound (fuel : nat) H vChain (nTime : Z) (first len : nat) : outcome nat :=
  match fuel with
  | O => Diverge
  | S fuel =>
    match len with
    | O => Ok first
    | S _ =>
      let half := (len / 2)%nat in
      match vChain !! (first + half)%nat with
      | None => Undef "past the end"
      | Some p =>
        b ← arrow H p;
        if nTimeMax b <? nTime then lower_bound fuel H vChain nTime (first + half + 1) (len - half - 1)
        else lower_bound fuel H vChain nTime first half
      end
    end
  end.
Definition FindEarliestAtLeast H vChain (nTime : Z) : outcome (option ptr) :=
  i ← lower_bound (S (length vChain)) H vChain nTime 0 (length vChain);
  Ok (match vChain !! i with None => None | Some p => p end).
End CChain.

(** ** Headers enter the tree *)
Record BlockTree := mkTree {
  heap : Index;
  mapBlockIndex : gmap bytes ptr;
  pindexBestHeader : option ptr;
  setDirtyBlockIndex : gset ptr;
  g_failed_blocks : list ptr  (** a set, in the order of the addresses *)
}.

(** What [ContextualCheckBlockHeader] reads besides the index: the height of the
    last checkpoint in it, the adjusted time, the heights of the soft forks. *)
Record HeaderParams := mkHeaderParams {
  pcheckpoint : option Z;
  nAdjustedTime : Z;
  BIP34Height : Z;
  BIP66Height : Z;
  BIP65Height : Z
}.
Definition MAX_FUTURE_BLOCK_TIME : Z := 2 * 60 * 60.

(** A check gives the reason for which the header is rejected, if there is one. *)
Definition ContextualCheckBlockHeader (P : HeaderParams) (H : Index) (block : CBlockHeader) (pindexPrev : ptr) : outcome (option string) :=
  prev ← deref H pindexPrev;
  let nHeight := nHeight prev + 1 in
  if match pcheckpoint P with Some h => nHeight <? h | None => false end then Ok (Some "bad-fork-prior-to-checkpoint")
  else
    mtp ← GetMedianTimePast H pindexPrev;
    if h_nTime block <=? mtp then Ok (Some "time-too-old")
    else if nAdjustedTime P + MAX_FUTURE_BLOCK_TIME <? h_nTime block then Ok (Some "time-too-new")
    else if ((h_nVersion block <? 2) && (BIP34Height P <=? nHeight)) || ((h_nVersion block <? 3) && (BIP66Height P <=? nHeight))
         || ((h_nVersion block <? 4) && (BIP65Height P <=? nHeight)) then Ok (Some "bad-version")
    else Ok None.

Section Tree.
Context (GetHash : CBlockHeader -> bytes).

(** [CDiskBlockIndex(pindex)]: the record of an entry and the hash of its parent.
    Which of the file positions are written depends on the status; the rest is not
    written. *)
Record CDiskBlockIndex := mkDiskIndex { d_index : CBlockIndex; d_hashPrev : bytes }.
Definition to_disk (H : Index) (b : CBlockIndex) : outcome CDiskBlockIndex :=
  prev ← (match pprev b with Some q => q ← deref H q; Ok (phashBlock q) | None => Ok (replicate 32 0) end : outcome bytes);
  Ok (mkDiskIndex (mkIndex [] None None (nHeight b)
    (if negb (Z.land (nStatus b) (Z.lor BLOCK_HAVE_DATA BLOCK_HAVE_UNDO) =? 0) then nFile b else 0)
    (if negb (Z.land (nStatus b) BLOCK_HAVE_DATA =? 0) then nDataPos b else 0)
    (if negb (Z.land (nStatus b) BLOCK_HAVE_UNDO =? 0) then nUndoPos b else 0)
    0 (nTx b) 0 (nStatus b) (nVersion b) (hashMerkleRoot b) (hashStateRoot b) (nTime b) (nBits b) 0 0) prev).
(** [CDiskBlockIndex::GetBlockHash()] *)
Definition disk_header (d : CDiskBlockIndex) : CBlockHeader :=
  let b := d_index d in mkHeader (nVersion b) (d_hashPrev d) (hashMerkleRoot b) (hashStateRoot b) (nTime b) (nBits b) (u32 (nHeight b)).

(** [InsertBlockIndex(hash)] *)
Definition InsertBlockIndex (hash : bytes) : SE BlockTree (option ptr) :=
  if forallb (Z.eqb 0) hash then mret None
  else
    m ← gets mapBlockIndex;
    match m !! hash with
    | Some p => mret (Some p)
    | None =>
      H ← gets heap;
      let p := fresh (dom H) in
      modify (fun t => mkTree (<[p := null_index hash]> H) (<[hash := p]> m) (pindexBestHeader t) (setDirtyBlockIndex t) (g_failed_blocks t));;
      mret (Some p)
    end.

(** [LoadBlockIndexGuts]: the fields of a record that are copied to the entry *)
Definition load_fields (pprev' : option ptr) (r b : CBlockIndex) : CBlockIndex :=
  mkIndex (phashBlock b) pprev' (pskip b) (nHeight r) (nFile r) (nDataPos r) (nUndoPos r) (nChainWork b) (nTx r) (nChainTx b) (nStatus r)
    (nVersion r) (hashMerkleRoot r) (hashStateRoot b) (nTime r) (nBits r) (nSequenceId b) (nTimeMax b).
Fixpoint LoadBlockIndexGuts (records : list CDiskBlockIndex) : SE BlockTree unit :=
  match records with
  | [] => mret tt
  | d :: records =>
    pindexNew ← InsertBlockIndex (GetHash (disk_header d));
    prev ← InsertBlockIndex (d_hashPrev d);
    H ← gets heap;
    b ← lift_outcome (arrow H pindexNew);
    modify (fun t => match pindexNew with
      | Some p => mkTree (<[p := load_fields prev (d_index d) b]> H) (mapBlockIndex t) (pindexBestHeader t) (setDirtyBlockIndex t) (g_failed_blocks t)
      | None => t
      end);;
    LoadBlockIndexGuts records
  end.

(** [AddToBlockIndex(block)] *)
Definition AddToBlockIndex (block : CBlockHeader) : SE BlockTree ptr :=
  let hash := GetHash block in
  m ← gets mapBlockIndex;
  match m !! hash with
  | Some p => mret p
  | None =>
    H ← gets heap;
    let pindexNew := fresh (dom H) in
    let m := <[hash := pindexNew]> m in
    let b := new_index hash block in
    b ← lift_outcome (match m !! h_hashPrevBlock block with
        | Some q =>
          prev ← deref (<[pindexNew := b]> H) q;
          if nHeight prev =? 2 ^ 31 - 1 then Undef "nHeight overflows"
          else
            let b := set_nHeight (nHeight prev + 1) (set_pprev (Some q) b) in
            BuildSkip (<[pindexNew := b]> H) b
        | None => Ok b
        end : outcome CBlockIndex);
    prev ← lift_outcome (match pprev b with Some q => p ← deref (<[pindexNew := b]> H) q; Ok (Some p) | None => Ok None end : outcome (option CBlockIndex));
    let b := set_nTimeMax (match prev with Some p => Z.max (nTimeMax p) (nTime b) | None => nTime b end) b in
    let b := set_nChainWork (u256 (match prev with Some p => nChainWork p | None => 0 end + GetBlockProof b)) b in
    r ← lift_outcome (RaiseValidity BLOCK_VALID_TREE b);
    let H := <[pindexNew := snd r]> H in
    best ← gets pindexBestHeader;
    better ← lift_outcome (match best with None => Ok true | Some p => p ← deref H p; Ok (nChainWork p <? nChainWork (snd r)) end : outcome bool);
    modify (fun t => mkTree H m (if (better : bool) then Some pindexNew else best) (setDirtyBlockIndex t ∪ {[pindexNew]}) (g_failed_blocks t));;
    mret pindexNew
  end.

(** The walk that marks the descendants of a failed block *)
Fixpoint mark_failed (fuel : nat) (failedit : ptr) (invalid_walk : option ptr) : SE BlockTree unit :=
  match fuel with
  | O => fail Diverge
  | S fuel =>
    if decide (invalid_walk = Some failedit) then mret tt
    else
      H ← gets heap;
      b ← lift_outcome (arrow H invalid_walk);
      modify (fun t => match invalid_walk with
        | Some p => mkTree (<[p := set_nStatus (Z.lor (nStatus b) BLOCK_FAILED_CHILD) b]> H) (mapBlockIndex t) (pindexBestHeader t)
                      (setDirtyBlockIndex t ∪ {[p]}) (g_failed_blocks t)
        | None => t
        end);;
      mark_failed fuel failedit (pprev b)
  end.
(** The loop over [g_failed_blocks]: is [pindexPrev] a descendant of one? *)
Fixpoint check_failed (pindexPrev : ptr) (l : list ptr) : SE BlockTree bool :=
  match l with
  | [] => mret false
  | failedit :: l =>
    H ← gets heap;
    f ← lift_outcome (deref H failedit);
    a ← lift_outcome (GetAncestor H pindexPrev (nHeight f));
    if decide (a = Some failedit) then
      assertion (negb (Z.land (nStatus f) BLOCK_FAILED_VALID =? 0)) "failedit->nStatus & BLOCK_FAILED_VALID";;
      b ← lift_outcome (deref H pindexPrev);
      mark_failed (S (Z.to_nat (nHeight b))) failedit (Some pindexPrev);;
      mret true
    else check_failed pindexPrev l
  end.

(** [AcceptBlockHeader(block)]: the reason for rejection, or the index entry.
    [CheckCasino], on which [CheckBlockHeader] relies, accepts every header. *)
Definition AcceptBlockHeader (hashGenesisBlock : bytes) (P : HeaderParams) (block : CBlockHeader) : SE BlockTree (string + ptr) :=
  let hash := GetHash block in
  m ← gets mapBlockIndex;
  H ← gets heap;
  if decide (hash = hashGenesisBlock) then p ← AddToBlockIndex block; mret (inr p)
  else match m !! hash with
  | Some p =>
    b ← lift_outcome (deref H p);
    mret (if negb (Z.land (nStatus b) BLOCK_FAILED_MASK =? 0) then inl "duplicate" else inr p)
  | None =>
    match m !! h_hashPrevBlock block with
    | None => mret (inl "prev-blk-not-found")
    | Some pindexPrev =>
      prev ← lift_outcome (deref H pindexPrev);
      if negb (Z.land (nStatus prev) BLOCK_FAILED_MASK =? 0) then mret (inl "bad-prevblk")
      else
        r ← lift_outcome (ContextualCheckBlockHeader P H block pindexPrev);
        match r with
        | Some reason => mret (inl reason)
        | None =>
          valid ← lift_outcome (IsValid BLOCK_VALID_SCRIPTS prev);
          failed ← (if (valid : bool) then mret false else l ← gets g_failed_blocks; check_failed pindexPrev l);
          if (failed : bool) then mret (inl "bad-prevblk")
          else p ← AddToBlockIndex block; mret (inr p)
        end
    end
  end.

(** [ProcessNewBlockHeaders(headers)]: stops at the first that is rejected.  The
    adjusted time and the last checkpoint's height, which the source looks up again
    for each header, are those of [P] for the whole list; [CheckBlockIndex] (a
    debugging check, off by default) and [NotifyHeaderTip] (a signal to the
    interface) are left out. *)
Fixpoint ProcessNewBlockHeaders (hashGenesisBlock : bytes) (P : HeaderParams) (headers : list CBlockHeader) : SE BlockTree (option (string * CBlockHeader)) :=
  match headers with
  | [] => mret None
  | h :: headers =>
    r ← AcceptBlockHeader hashGenesisBlock P h;
    match r with inl reason => mret (Some (reason, h)) | inr _ => ProcessNewBlockHeaders hashGenesisBlock P headers end
  end.
End Tree.
