(* ===== verification/ChainThms.v ===== *)
(** * The block index is a tree, and its shortcuts agree with the parents

    [up] follows parents; [ancestor] is the block of a height above a block.  An
    index is well formed ([index_ok]) when heights count parents and skip pointers
    point to ancestors.  The walks of [Chain] are proved against [ancestor]. *)

From stdpp Require Import sorting.
From S2P Require Import Prelude Chain.
From Stdlib Require Import ZifyBool.

(** ** Ancestors *)
Fixpoint up (H : Index) (n : nat) (p : ptr) : option ptr :=
  match n with O => Some p | S n => b ← H !! p; q ← pprev b; up H n q end.
Definition ancestor (H : Index) (p : ptr) (h : Z) : option ptr :=
  b ← H !! p; if (0 <=? h) && (h <=? nHeight b) then up H (Z.to_nat (nHeight b - h)) p else None.

(** The entry of a block agrees with its parent's. *)
Record block_ok (H : Index) (p : ptr) (b : CBlockIndex) : Prop := {
  bo_height : 0 <= nHeight b < 2 ^ 31;
  bo_prev : match pprev b with
            | None => nHeight b = 0
            | Some q => exists c, H !! q = Some c /\ nHeight b = nHeight c + 1
            end;
  bo_skip : match pskip b with None => True | Some s => ancestor H p (GetSkipHeight (nHeight b)) = Some s end }.
Definition index_ok (H : Index) : Prop := forall p b, H !! p = Some b -> block_ok H p b.

Section Ancestors.
Context (H : Index) (HI : index_ok H).

Lemma up_add n m p : up H (n + m) p = up H n p ≫= up H m.
Proof.
  revert p. induction n as [|n IH]; intros p; [done|]. cbn. destruct (H !! p) as [b|]; [|done]. cbn.
  destruct (pprev b) as [q|]; [|done]. apply IH.
Qed.

Lemma prev_ok p b : H !! p = Some b -> 0 < nHeight b -> exists q c, pprev b = Some q /\ H !! q = Some c /\ nHeight c = nHeight b - 1.
Proof.
  intros Hp Hh. destruct (HI p b Hp) as [_ Hprev _]. destruct (pprev b) as [q|]; [|lia].
  destruct Hprev as (c & Hq & Hc). exists q, c. split; [done|]. split; [done|lia].
Qed.

Lemma up_ok n p b : H !! p = Some b -> Z.of_nat n <= nHeight b -> exists q c, up H n p = Some q /\ H !! q = Some c /\ nHeight c = nHeight b - Z.of_nat n.
Proof.
  revert p b. induction n as [|n IH]; intros p b Hp Hn.
  - exists p, b. split; [done|]. split; [done|lia].
  - destruct (prev_ok p b Hp) as (q & c & Hq & Hc & Hh); [lia|]. cbn. rewrite Hp. cbn. rewrite Hq. cbn.
    destruct (IH q c Hc) as (r & d & -> & Hr & Hd); [lia|]. exists r, d. split; [done|]. split; [done|lia].
Qed.

Lemma ancestor_some p b h : H !! p = Some b -> 0 <= h <= nHeight b -> exists q c, ancestor H p h = Some q /\ H !! q = Some c /\ nHeight c = h.
Proof.
  intros Hp Hh. destruct (up_ok (Z.to_nat (nHeight b - h)) p b Hp) as (q & c & Hu & Hc & Hd); [lia|].
  exists q, c. unfold ancestor. rewrite Hp. cbn. replace ((0 <=? h) && (h <=? nHeight b)) with true by lia.
  split; [done|]. split; [done|lia].
Qed.
Lemma ancestor_inv p h q : ancestor H p h = Some q -> exists b c, H !! p = Some b /\ H !! q = Some c /\ nHeight c = h /\ 0 <= h <= nHeight b.
Proof.
  intros E. pose proof E as E'. unfold ancestor in E'. destruct (H !! p) as [b|] eqn:Hp; [|done]. cbn in E'.
  destruct ((0 <=? h) && (h <=? nHeight b)) eqn:Eh; [|done].
  destruct (ancestor_some p b h Hp) as (r & c & Er & Hr & Hc); [lia|]. rewrite E in Er. injection Er as <-.
  exists b, c. repeat (split; [done|]). lia.
Qed.
Lemma ancestor_none p b h : H !! p = Some b -> h < 0 \/ nHeight b < h -> ancestor H p h = None.
Proof. intros Hp Hh. unfold ancestor. rewrite Hp. cbn. by replace ((0 <=? h) && (h <=? nHeight b)) with false by lia. Qed.
Lemma ancestor_self p b : H !! p = Some b -> ancestor H p (nHeight b) = Some p.
Proof.
  intros Hp. destruct (HI p b Hp) as [Hh _ _]. unfold ancestor. rewrite Hp. cbn.
  replace ((0 <=? nHeight b) && (nHeight b <=? nHeight b)) with true by lia. by rewrite Z.sub_diag.
Qed.
Lemma ancestor_trans p h q h' : ancestor H p h = Some q -> h' <= h -> ancestor H q h' = ancestor H p h'.
Proof.
  intros E Hh. destruct (ancestor_inv p h q E) as (b & c & Hp & Hq & Hc & Hr).
  destruct (Z.lt_ge_cases h' 0); [by rewrite (ancestor_none q c), (ancestor_none p b) by (done || lia)|].
  unfold ancestor in *. rewrite Hp in *. rewrite Hq. cbn in *.
  replace ((0 <=? h) && (h <=? nHeight b)) with true in E by lia.
  replace ((0 <=? h') && (h' <=? nHeight c)) with true by lia. replace ((0 <=? h') && (h' <=? nHeight b)) with true by lia.
  replace (Z.to_nat (nHeight b - h')) with (Z.to_nat (nHeight b - h) + Z.to_nat (nHeight c - h'))%nat by lia.
  by rewrite up_add, E.
Qed.
Lemma ancestor_prev p b q h : H !! p = Some b -> pprev b = Some q -> h < nHeight b -> ancestor H p h = ancestor H q h.
Proof.
  intros Hp Hq Hh. destruct (HI p b Hp) as [Hb Hprev _]. rewrite Hq in Hprev. destruct Hprev as (c & Hc & Hbc).
  symmetry. apply (ancestor_trans p (nHeight c)); [|lia]. unfold ancestor. rewrite Hp. cbn.
  pose proof (bo_height _ _ _ (HI q c Hc)). replace ((0 <=? nHeight c) && (nHeight c <=? nHeight b)) with true by lia.
  replace (Z.to_nat (nHeight b - nHeight c)) with 1%nat by lia. cbn. rewrite Hp. cbn. by rewrite Hq.
Qed.
Lemma ancestor_fix p q b : H !! p = Some b -> ancestor H p (nHeight b) = Some q -> q = p.
Proof. intros Hp E. rewrite (ancestor_self p b Hp) in E. by injection E. Qed.

(** ** The skip list *)
Lemma land_le x y : 0 <= y -> Z.land x y <= y.
Proof.
  intros Hy. assert (y - Z.land x y = Z.ldiff y (Z.land x y)) as E.
  { apply Z.sub_nocarry_ldiff. apply Z.bits_inj'. intros n Hn. rewrite Z.ldiff_spec, Z.land_spec, Z.bits_0.
    by destruct (Z.testbit x n), (Z.testbit y n). }
  assert (0 <= Z.ldiff y (Z.land x y)); [|lia]. apply Z.ldiff_nonneg. by left.
Qed.
Lemma InvertLowestOne_bound n : 0 < n -> 0 <= InvertLowestOne n < n.
Proof.
  intros Hn. unfold InvertLowestOne. split; [apply Z.land_nonneg; lia|]. pose proof (land_le n (n - 1)). lia.
Qed.
Lemma GetSkipHeight_bound h : 0 < h -> 0 <= GetSkipHeight h < h.
Proof.
  intros Hh. unfold GetSkipHeight. destruct (Z.ltb_spec h 2); [lia|]. destruct (Z.land h 1 =? 0); cbn [negb]; [by apply InvertLowestOne_bound|].
  pose proof (InvertLowestOne_bound (h - 1)) as B1. destruct (Z.eq_dec (InvertLowestOne (h - 1)) 0) as [E|E].
  - rewrite E. change (InvertLowestOne 0) with 0. lia.
  - pose proof (InvertLowestOne_bound (InvertLowestOne (h - 1))). lia.
Qed.

Lemma ancestor_loop_ok fuel h p b : H !! p = Some b -> 0 <= h <= nHeight b -> nHeight b - h < Z.of_nat fuel ->
  exists q, ancestor_loop fuel H h (nHeight b) p = Ok q /\ ancestor H p h = Some q.
Proof.
  revert p b. induction fuel as [|fuel IH]; intros p b Hp Hh Hf; [lia|]. cbn [ancestor_loop].
  destruct (Z.leb_spec (nHeight b) h) as [Hle|Hgt].
  { exists p. split; [done|]. replace h with (nHeight b) by lia. by apply ancestor_self. }
  unfold deref. rewrite Hp. cbn [mbind outcome_bind].
  destruct (prev_ok p b Hp) as (q & c & Hq & Hc & Hcb); [lia|].
  assert (exists r, ancestor_loop fuel H h (nHeight b - 1) q = Ok r /\ ancestor H p h = Some r) as Hprev.
  { rewrite <- Hcb. destruct (IH q c Hc) as (r & E & Ea); [lia|lia|]. exists r. split; [done|]. rewrite <- Ea. by apply (ancestor_prev p b). }
  rewrite Hq. destruct (pskip b) as [s|] eqn:Es; [|done].
  destruct ((GetSkipHeight (nHeight b) =? h) || _) eqn:Ej; [|done].
  assert (h <= GetSkipHeight (nHeight b)) as Hs by lia.
  pose proof (bo_skip _ _ _ (HI p b Hp)) as Hsk. rewrite Es in Hsk.
  destruct (ancestor_inv _ _ _ Hsk) as (b' & d & Hp' & Hd & Hdh & _). rewrite Hp in Hp'. injection Hp' as <-.
  pose proof (GetSkipHeight_bound (nHeight b)). rewrite <- Hdh. destruct (IH s d Hd) as (r & E & Ea); [lia|lia|].
  exists r. split; [done|]. rewrite <- Ea. symmetry. by apply (ancestor_trans p (GetSkipHeight (nHeight b))).
Qed.
Lemma GetAncestor_ok p b h : H !! p = Some b -> GetAncestor H p h = Ok (ancestor H p h).
Proof.
  intros Hp. unfold GetAncestor, deref. rewrite Hp. cbn [mbind outcome_bind].
  destruct ((nHeight b <? h) || (h <? 0)) eqn:E; [by rewrite (ancestor_none p b) by (done || lia)|].
  destruct (ancestor_loop_ok (S (Z.to_nat (nHeight b))) h p b Hp) as (q & -> & Ea); [lia|lia|]. cbn. by rewrite Ea.
Qed.

(** ** Common ancestors *)

(** The highest block that two blocks descend from. *)
Definition meets (pa pb : ptr) (q : ptr) : Prop :=
  exists h, ancestor H pa h = Some q /\ ancestor H pb h = Some q /\
    forall h', h < h' -> ancestor H pa h' = None \/ ancestor H pa h' <> ancestor H pb h'.

Lemma common_loop_ok fuel a b ba bb : H !! a = Some ba -> H !! b = Some bb -> nHeight ba = nHeight bb -> nHeight ba + 1 < Z.of_nat fuel ->
  ancestor H a 0 = ancestor H b 0 -> exists q, common_loop fuel H (Some a) (Some b) = Ok (Some q, Some q) /\ meets a b q.
Proof.
  revert a b ba bb. induction fuel as [|fuel IH]; intros a b ba bb Ha Hb Hh Hf H0; [pose proof (bo_height _ _ _ (HI a ba Ha)); lia|]. cbn [common_loop].
  case_decide as E.
  { subst b. exists a. split; [done|]. exists (nHeight ba). rewrite (ancestor_self a ba Ha). split; [done|]. split; [done|].
    intros h' Hh'. left. apply (ancestor_none a ba); [done|lia]. }
  unfold deref. rewrite Ha, Hb. cbn [mbind outcome_bind].
  assert (0 < nHeight ba) as Hpos.
  { pose proof (bo_height _ _ _ (HI a ba Ha)). destruct (Z.eq_dec (nHeight ba) 0) as [Ez|]; [exfalso|lia]. apply E.
    pose proof (ancestor_self a ba Ha) as Ea. pose proof (ancestor_self b bb Hb) as Eb. rewrite <- Hh, Ez in Eb. rewrite Ez, H0, Eb in Ea. by injection Ea. }
  destruct (prev_ok a ba Ha) as (a' & ca & Ea & Hca & Hha); [lia|]. destruct (prev_ok b bb Hb) as (b' & cb & Eb & Hcb & Hhb); [lia|].
  rewrite Ea, Eb. destruct (IH a' b' ca cb Hca Hcb) as (q & Eq & h & Q1 & Q2 & Q3); [lia|lia| |].
  { rewrite <- (ancestor_prev a ba a'), <- (ancestor_prev b bb b') by (done || lia). done. }
  exists q. split; [done|]. exists h. destruct (ancestor_inv _ _ _ Q1) as (? & ? & Hx & _ & _ & Hr). rewrite Hca in Hx. injection Hx as <-.
  rewrite (ancestor_prev a ba a'), (ancestor_prev b bb b') by (done || lia). split; [done|]. split; [done|].
  intros h' Hh'. destruct (Z.lt_trichotomy h' (nHeight ba)) as [Hlt|[->|Hgt]].
  - rewrite (ancestor_prev a ba a'), (ancestor_prev b bb b') by (done || lia). by apply Q3.
  - right. rewrite (ancestor_self a ba Ha), Hh, (ancestor_self b bb Hb). congruence.
  - left. apply (ancestor_none a ba); [done|lia].
Qed.
Lemma meets_lower_l a ba h q b : H !! a = Some ba -> ancestor H a h = Some q -> (forall h', h < h' -> ancestor H b h' = None) -> forall r, meets q b r -> meets a b r.
Proof.
  intros Ha Hq Hb r (k & K1 & K2 & K3). destruct (ancestor_inv _ _ _ K1) as (c & ? & Hc & _ & _ & Hk).
  destruct (ancestor_inv _ _ _ Hq) as (? & c' & _ & Hc' & Hch & _). rewrite Hc in Hc'. injection Hc' as <-.
  exists k. rewrite <- (ancestor_trans a h q) by (done || lia). split; [done|]. split; [done|]. intros h' Hh'.
  destruct (Z.lt_ge_cases h h') as [Hlt|Hge].
  - rewrite (Hb h' Hlt). destruct (ancestor H a h'); [by right|by left].
  - rewrite <- (ancestor_trans a h q) by (done || lia). by apply K3.
Qed.
Lemma meets_sym a b r : meets a b r -> meets b a r.
Proof.
  intros (k & K1 & K2 & K3). exists k. split; [done|]. split; [done|]. intros h' Hh'. destruct (K3 h' Hh') as [E|E]; [|right; congruence].
  destruct (ancestor H b h') eqn:Eb; [right; congruence|by left].
Qed.
Lemma LastCommonAncestor_ok a b ba bb : H !! a = Some ba -> H !! b = Some bb -> ancestor H a 0 = ancestor H b 0 ->
  exists q, LastCommonAncestor H a b = Ok (Some q) /\ meets a b q.
Proof.
  intros Ha Hb H0. unfold LastCommonAncestor, deref. rewrite Ha, Hb. cbn [mbind outcome_bind].
  pose proof (bo_height _ _ _ (HI a ba Ha)). pose proof (bo_height _ _ _ (HI b bb Hb)).
  destruct (Z.ltb_spec (nHeight bb) (nHeight ba)) as [Hab|Hab].
  - rewrite (GetAncestor_ok a ba _ Ha). destruct (ancestor_some a ba (nHeight bb) Ha) as (q & c & Eq & Hc & Hch); [lia|]. rewrite Eq. cbn [mbind outcome_bind].
    destruct (common_loop_ok (S (S (Z.to_nat (nHeight ba)))) q b c bb Hc Hb Hch) as (r & -> & Hm); [lia| |].
    { rewrite (ancestor_trans a (nHeight bb)) by (done || lia). done. }
    cbn. rewrite decide_True by done. exists r. split; [done|]. apply (meets_lower_l a ba (nHeight bb) q b Ha Eq); [|done].
    intros h' Hh'. apply (ancestor_none b bb); [done|lia].
  - destruct (Z.ltb_spec (nHeight ba) (nHeight bb)) as [Hba|Hba].
    + cbn [mbind outcome_bind]. rewrite (GetAncestor_ok b bb _ Hb). destruct (ancestor_some b bb (nHeight ba) Hb) as (q & c & Eq & Hc & Hch); [lia|]. rewrite Eq. cbn [mbind outcome_bind].
      destruct (common_loop_ok (S (S (Z.to_nat (nHeight ba)))) a q ba c Ha Hc) as (r & -> & Hm); [lia|lia| |].
      { rewrite (ancestor_trans b (nHeight ba) q) by (done || lia). done. }
      cbn. rewrite decide_True by done. exists r. split; [done|]. apply meets_sym, (meets_lower_l b bb (nHeight ba) q a Hb Eq); [|by apply meets_sym].
      intros h' Hh'. apply (ancestor_none a ba); [done|lia].
    + cbn [mbind outcome_bind]. destruct (common_loop_ok (S (S (Z.to_nat (nHeight ba)))) a b ba bb Ha Hb) as (r & -> & Hm); [lia|lia|done|].
      cbn. rewrite decide_True by done. by exists r.
Qed.
End Ancestors.

(** ** The active chain *)
Section Active.
Context (H : Index) (HI : index_ok H).
Implicit Types (v : CChain) (t : option ptr).
Import CChain.

(** The vector holds the ancestors of the tip by height. *)
Definition active v t : Prop :=
  match t with
  | None => v = []
  | Some p => exists b, H !! p = Some b /\ size v = nHeight b + 1 /\ forall i, 0 <= i <= nHeight b -> v !! Z.to_nat i = Some (ancestor H p i)
  end.
Definition on_chain t (h : Z) : option ptr := p ← t; ancestor H p h.

Lemma at_height_ok v t h : active v t -> at_height v h = on_chain t h.
Proof.
  intros Ha. unfold at_height. destruct t as [p|]; cbn in *; [|subst v; destruct (_ || _); [done|by destruct (Z.to_nat h)]].
  destruct Ha as (b & Hp & Hs & Hv). destruct ((h <? 0) || (size v <=? h)) eqn:E.
  - symmetry. apply (ancestor_none H p b); [done|lia].
  - rewrite nth_lookup, Hv by lia. done.
Qed.
Lemma Contains_ok v t p b : active v t -> H !! p = Some b -> Contains H v p = Ok (bool_decide (on_chain t (nHeight b) = Some p)).
Proof. intros Ha Hp. unfold Contains, deref. rewrite Hp. cbn. by rewrite (at_height_ok v t) by done. Qed.

(** *** [SetTip] *)

(** Where the vector agrees with the path to [p], it agrees below. *)
Definition consistent v (p : ptr) (i : Z) : Prop :=
  forall j k, 0 <= k <= j -> j <= i -> forall q, ancestor H p j = Some q -> v !! Z.to_nat j = Some (Some q) -> v !! Z.to_nat k = Some (ancestor H p k).

Lemma set_loop_ok fuel p bp : H !! p = Some bp -> forall v i q c, size v = nHeight bp + 1 -> 0 <= i -> ancestor H p i = Some q -> H !! q = Some c ->
  (forall j, i < j <= nHeight bp -> v !! Z.to_nat j = Some (ancestor H p j)) -> consistent v p i -> i + 1 < Z.of_nat fuel ->
  exists v', set_loop fuel H v (Some q) = Ok v' /\ active v' (Some p).
Proof.
  intros Hp. induction fuel as [|fuel IH]; intros v i q c Hs Hi Eq Hc Habove Hcons Hf; [lia|]. cbn [set_loop]. unfold deref. rewrite Hc. cbn [mbind outcome_bind].
  destruct (ancestor_inv H HI _ _ _ Eq) as (b' & c' & Hp' & Hc' & Hci & Hr). rewrite Hp in Hp'. injection Hp' as <-. rewrite Hc in Hc'. injection Hc' as <-.
  rewrite Hci. destruct (lookup_lt_is_Some_2 v (Z.to_nat i)) as [x Ex]; [lia|]. rewrite Ex. case_decide as Ed.
  - subst x. exists v. split; [done|]. exists bp. split; [done|]. split; [done|]. intros j Hj.
    destruct (Z.lt_ge_cases i j); [apply Habove; lia|]. by apply (Hcons i j ltac:(lia) ltac:(lia) q).
  - set (v1 := <[Z.to_nat i := Some q]> v).
    assert (forall j, i <= j <= nHeight bp -> v1 !! Z.to_nat j = Some (ancestor H p j)) as Habove1.
    { intros j Hj. destruct (Z.eq_dec i j) as [<-|Hne]; unfold v1.
      - rewrite list_lookup_insert_eq by lia. by rewrite Eq.
      - rewrite list_lookup_insert_ne by lia. apply Habove. lia. }
    destruct (Z.eq_dec i 0) as [->|Hne].
    + pose proof (bo_prev _ _ _ (HI q c Hc)) as Hprev. assert (pprev c = None) as ->.
      { destruct (pprev c) as [r|]; [|done]. destruct Hprev as (d & Hd & Hdc). pose proof (bo_height _ _ _ (HI r d Hd)). lia. }
      destruct fuel as [|fuel]; [lia|]. cbn [set_loop]. exists v1. split; [done|]. exists bp. split; [done|].
      split; [unfold v1; by rewrite length_insert|]. intros j Hj. apply Habove1. lia.
    + destruct (prev_ok H HI q c Hc) as (r & d & Er & Hd & Hdh); [lia|]. rewrite Er.
      apply (IH v1 (i - 1) r d); [unfold v1; by rewrite length_insert|lia| |done| | |lia].
      * rewrite <- (ancestor_trans H HI p i q) by (done || lia). rewrite (ancestor_prev H HI q c r) by (done || lia).
        replace (i - 1) with (nHeight d) by lia. by apply ancestor_self.
      * intros j Hj. apply Habove1. lia.
      * intros j k Hk Hj q' Hq' Hvj. unfold v1 in *. rewrite list_lookup_insert_ne in * by lia. by apply (Hcons j k ltac:(lia) ltac:(lia) q').
Qed.

Lemma consistent_resize v t p n i : active v t -> consistent (resize n v) p i.
Proof.
  intros Ha j k Hk Hj q Hq Hv. unfold resize in *.
  assert (v !! Z.to_nat j = Some (Some q) /\ (Z.to_nat j < n)%nat) as [Evj Hn].
  { destruct (decide (Z.to_nat j < length (take n v))%nat) as [Hlt|Hge].
    - rewrite lookup_app_l in Hv by done. rewrite length_take in Hlt. by rewrite lookup_take_lt in Hv by lia; split; [|lia].
    - rewrite lookup_app_r in Hv by lia. apply lookup_replicate in Hv as [? _]. done. }
  destruct t as [tp|]; cbn in Ha; [|by subst v].
  destruct Ha as (b & Ht & Hs & Hav). pose proof (lookup_lt_Some _ _ _ Evj) as Hlen. rewrite Hav in Evj by lia. injection Evj as Ej.
  rewrite lookup_app_l by (rewrite length_take; lia). rewrite lookup_take_lt by lia. rewrite Hav by lia. f_equal.
  rewrite <- (ancestor_trans H HI tp j q) by (done || lia). rewrite <- (ancestor_trans H HI p j q) by (done || lia). done.
Qed.
Lemma SetTip_ok v t p b : active v t -> H !! p = Some b -> exists v', SetTip H v (Some p) = Ok v' /\ active v' (Some p).
Proof.
  intros Ha Hp. unfold SetTip, deref. rewrite Hp. cbn [mbind outcome_bind]. pose proof (bo_height _ _ _ (HI p b Hp)).
  apply (set_loop_ok _ p b Hp _ (nHeight b) p b); [|lia|by apply ancestor_self|done|intros; lia|by apply (consistent_resize v t)|lia].
  unfold resize. rewrite length_app, length_take, length_replicate. lia.
Qed.

(** *** [FindFork] *)
Lemma fork_loop_ok fuel v p : active v (Some p) -> forall q c, H !! q = Some c -> nHeight c + 1 < Z.of_nat fuel ->
  exists r, fork_loop fuel H v (Some q) = Ok r /\
    match r with Some x => meets H q p x | None => forall h, ancestor H q h = None \/ ancestor H q h <> ancestor H p h end.
Proof.
  intros Ha. induction fuel as [|fuel IH]; intros q c Hc Hf; [pose proof (bo_height _ _ _ (HI q c Hc)); lia|]. cbn [fork_loop].
  rewrite (Contains_ok v (Some p) q c Ha Hc). cbn [mbind outcome_bind on_chain option_bind]. case_bool_decide as E.
  { exists (Some q). split; [done|]. exists (nHeight c). split; [by apply ancestor_self|]. split; [done|].
    intros h' Hh'. left. apply (ancestor_none H q c); [done|lia]. }
  unfold deref. rewrite Hc. cbn [mbind outcome_bind]. pose proof (bo_height _ _ _ (HI q c Hc)) as Hh0.
  destruct (Z.eq_dec (nHeight c) 0) as [Ez|Hpos].
  - pose proof (bo_prev _ _ _ (HI q c Hc)) as Hprev. assert (pprev c = None) as ->.
    { destruct (pprev c) as [r|]; [|done]. destruct Hprev as (d & Hd & Hdc). pose proof (bo_height _ _ _ (HI r d Hd)). lia. }
    destruct fuel as [|fuel]; [lia|]. cbn [fork_loop]. exists None. split; [done|]. intros h.
    destruct (Z.eq_dec h 0) as [->|]; [right|left; apply (ancestor_none H q c); [done|lia]].
    pose proof (ancestor_self H HI q c Hc) as Es. rewrite Ez in Es, E. rewrite Es. congruence.
  - destruct (prev_ok H HI q c Hc) as (r & d & Er & Hd & Hdh); [lia|]. rewrite Er. destruct (IH r d Hd) as (x & Ex & Hx); [lia|].
    exists x. split; [done|]. assert (forall h, h < nHeight c -> ancestor H q h = ancestor H r h) as Hqr by (intros; by apply (ancestor_prev H HI q c)).
    assert (forall h, nHeight c <= h -> ancestor H q h = None \/ ancestor H q h <> ancestor H p h) as Htop.
    { intros h Hh. destruct (Z.eq_dec h (nHeight c)) as [->|]; [right|left; apply (ancestor_none H q c); [done|lia]].
      rewrite (ancestor_self H HI q c Hc). congruence. }
    destruct x as [x|].
    + destruct Hx as (h & X1 & X2 & X3). destruct (ancestor_inv H HI _ _ _ X1) as (? & ? & Hy & _ & _ & Hrg). rewrite Hd in Hy. injection Hy as <-.
      exists h. rewrite Hqr by lia. split; [done|]. split; [done|]. intros h' Hh'. destruct (Z.lt_ge_cases h' (nHeight c)); [rewrite Hqr by lia; by apply X3|by apply Htop].
    + intros h. destruct (Z.lt_ge_cases h (nHeight c)); [rewrite Hqr by lia; apply Hx|by apply Htop].
Qed.
Lemma FindFork_ok v p q c : active v (Some p) -> H !! q = Some c -> exists r, FindFork H v (Some q) = Ok r /\
  match r with Some x => meets H q p x | None => forall h, ancestor H q h = None \/ ancestor H q h <> ancestor H p h end.
Proof.
  intros Ha Hc. pose proof Ha as (b & Hp & Hs & _). pose proof (bo_height _ _ _ (HI p b Hp)) as Hb. pose proof (bo_height _ _ _ (HI q c Hc)).
  unfold FindFork, deref. rewrite Hc. cbn [mbind outcome_bind]. unfold Height. replace (size v - 1) with (nHeight b) by lia.
  destruct (Z.ltb_spec (nHeight b) (nHeight c)) as [Hlt|Hge].
  - rewrite (GetAncestor_ok H HI q c _ Hc). destruct (ancestor_some H HI q c (nHeight b) Hc) as (y & d & Ey & Hd & Hdh); [lia|]. rewrite Ey. cbn [mbind outcome_bind].
    destruct (fork_loop_ok (S (S (Z.to_nat (nHeight c)))) v p Ha y d Hd) as (r & -> & Hr); [lia|]. exists r. split; [done|].
    assert (forall h', nHeight b < h' -> ancestor H p h' = None) as Htop by (intros; apply (ancestor_none H p b); [done|lia]).
    destruct r as [x|].
    + by apply (meets_lower_l H HI q c (nHeight b) y p Hc Ey Htop).
    + intros h. destruct (Z.lt_ge_cases (nHeight b) h); [rewrite Htop by done; destruct (ancestor H q h); [by right|by left]|].
      rewrite <- (ancestor_trans H HI q (nHeight b) y) by (done || lia). apply Hr.
  - cbn [mbind outcome_bind]. apply (fork_loop_ok _ v p Ha q c Hc). lia.
Qed.

(** *** [GetLocator] *)

(** The heights of a locator: ten steps back by one, then steps that double. *)
Fixpoint locator_heights (fuel : nat) (h nStep n : Z) : list Z :=
  match fuel with
  | O => []
  | S fuel => h :: if h =? 0 then [] else locator_heights fuel (Z.max (h - nStep) 0) (if 10 <? n + 1 then nStep * 2 else nStep) (n + 1)
  end.
Definition hash_at (p : ptr) (h : Z) : bytes :=
  match q ← ancestor H p h; H !! q with Some b => phashBlock b | None => [] end.

Lemma hash_at_trans p h q h' : ancestor H p h = Some q -> h' <= h -> hash_at q h' = hash_at p h'.
Proof. intros E Hh. unfold hash_at. by rewrite (ancestor_trans H HI p h q). Qed.
Lemma locator_heights_le fuel h nStep n : 0 <= h -> 0 < nStep -> Forall (fun k => k <= h) (locator_heights fuel h nStep n).
Proof.
  revert h nStep n. induction fuel as [|fuel IH]; intros h nStep n Hh Hs; cbn; constructor; [lia|]. destruct (h =? 0) eqn:E; [constructor|].
  refine (List.Forall_impl _ _ (IH (Z.max (h - nStep) 0) (if 10 <? n + 1 then nStep * 2 else nStep) (n + 1) _ _)); [cbn; intros; lia|lia|destruct (10 <? n + 1); lia].
Qed.

(** Every step is taken within the bounds of [int], and there are few. *)
Definition step_ok (H0 h nStep n : Z) : Prop := 0 <= h /\ 0 <= n /\ nStep = 2 ^ Z.max (n - 10) 0 /\ (h = 0 \/ h + nStep <= H0 + 1).
Lemma step_ok_next H0 h nStep n : step_ok H0 h nStep n -> h <> 0 ->
  step_ok H0 (Z.max (h - nStep) 0) (if 10 <? n + 1 then nStep * 2 else nStep) (n + 1).
Proof.
  intros (Hh & Hn & Hs & Hb) Hne. assert (0 < nStep) by (rewrite Hs; apply Z.pow_pos_nonneg; lia). split; [lia|]. split; [lia|]. split.
  - destruct (Z.ltb_spec 10 (n + 1)).
    + replace (Z.max (n + 1 - 10) 0) with (Z.succ (Z.max (n - 10) 0)) by lia. rewrite Z.pow_succ_r by lia. lia.
    + rewrite Hs. f_equal. lia.
  - destruct (10 <? n + 1); lia.
Qed.
Lemma step_ok_bound H0 h nStep n : step_ok H0 h nStep n -> h <> 0 -> H0 < 2 ^ 30 -> nStep < 2 ^ 30 /\ n < 40.
Proof.
  intros (Hh & Hn & Hs & Hb) Hne HH. assert (nStep < 2 ^ 30) as Hlt by lia. split; [done|]. rewrite Hs in Hlt. apply Z.pow_lt_mono_r_iff in Hlt; lia.
Qed.
Lemma locator_heights_length H0 fuel h nStep n : step_ok H0 h nStep n -> n <= 40 -> H0 < 2 ^ 30 ->
  n + size (locator_heights fuel h nStep n) <= 41.
Proof.
  intros Hst Hn HH. revert h nStep n Hst Hn. induction fuel as [|fuel IH]; intros h nStep n Hst Hn; cbn [locator_heights]; [cbn; lia|].
  destruct (Z.eqb_spec h 0) as [->|Hne]; [cbn; lia|]. destruct (step_ok_bound H0 h nStep n Hst Hne HH).
  pose proof (IH _ _ _ (step_ok_next H0 h nStep n Hst Hne) ltac:(lia)). cbn [length]. lia.
Qed.

Lemma locator_loop_ok fuel v t H0 : active v t -> H0 < 2 ^ 30 -> forall p b nStep have, H !! p = Some b -> nHeight b + 1 < Z.of_nat fuel ->
  step_ok H0 (nHeight b) nStep (size have) ->
  locator_loop fuel H v (Some p) nStep have = Ok (have ++ map (hash_at p) (locator_heights fuel (nHeight b) nStep (size have))).
Proof.
  intros Ha HH. induction fuel as [|fuel IH]; intros p b nStep have Hp Hf Hst; [pose proof (bo_height _ _ _ (HI p b Hp)); lia|].
  cbn [locator_loop locator_heights]. unfold deref. rewrite Hp. cbn [mbind outcome_bind map].
  assert (hash_at p (nHeight b) = phashBlock b) as Ehash by (unfold hash_at; rewrite (ancestor_self H HI p b Hp); cbn; by rewrite Hp).
  rewrite Ehash. destruct (Z.eqb_spec (nHeight b) 0) as [Ez|Hne]; [done|].
  destruct (step_ok_bound H0 _ _ _ Hst Hne HH) as [Hs30 _]. pose proof (step_ok_next H0 _ _ _ Hst Hne) as Hst'. destruct Hst as (Hh & Hn & Hs & Hb).
  assert (0 < nStep) by (rewrite Hs; apply Z.pow_pos_nonneg; lia).
  rewrite (Contains_ok v t p b Ha Hp). cbn [mbind outcome_bind].
  destruct (ancestor_some H HI p b (Z.max (nHeight b - nStep) 0) Hp) as (q & c & Eq & Hc & Hch); [lia|].
  assert ((if bool_decide (on_chain t (nHeight b) = Some p) then Ok (at_height v (Z.max (nHeight b - nStep) 0)) else GetAncestor H p (Z.max (nHeight b - nStep) 0)) = Ok (Some q)) as ->.
  { case_bool_decide as E; [|rewrite (GetAncestor_ok H HI p b _ Hp); by rewrite Eq]. rewrite (at_height_ok v t) by done.
    destruct t as [tp|]; [|done]. cbn in E |- *. rewrite <- Eq. f_equal. symmetry. apply (ancestor_trans H HI tp (nHeight b)); [done|lia]. }
  cbn [mbind outcome_bind].
  rewrite length_app. cbn [length]. replace (Z.of_nat (length have + 1)) with (size have + 1) by lia.
  assert ((if 10 <? size have + 1 then if nStep * 2 <? 2 ^ 31 then Ok (nStep * 2) else Undef "nStep overflows" else Ok nStep)
    = Ok (if 10 <? size have + 1 then nStep * 2 else nStep)) as ->.
  { destruct (10 <? size have + 1); [|done]. by replace (nStep * 2 <? 2 ^ 31) with true by lia. }
  cbn [mbind outcome_bind]. rewrite <- Hch in Hst' |- *.
  assert (size have + 1 = size (have ++ [phashBlock b])) as El by (rewrite length_app; cbn; lia). rewrite El in Hst' |- *.
  rewrite (IH q c _ _ Hc); [|lia|done]. rewrite <- app_assoc. cbn [app]. f_equal. f_equal. f_equal.
  apply map_ext_in. intros k Hk. apply (hash_at_trans p (nHeight c)); [by rewrite Hch|].
  assert (Forall (fun k => k <= nHeight c) (locator_heights fuel (nHeight c) (if 10 <? size (have ++ [phashBlock b]) then nStep * 2 else nStep) (size (have ++ [phashBlock b])))) as Hfa.
  { apply locator_heights_le; [rewrite Hch; lia|]. destruct (10 <? _); lia. }
  rewrite List.Forall_forall in Hfa. by apply Hfa.
Qed.
End Active.
