(* ===== verification/ChainHeaders.v ===== *)
(** * Headers, median times and the index they build

    The median time of the last eleven blocks does not go back along a chain, and
    the index that [AddToBlockIndex] and [AcceptBlockHeader] build stays a tree
    with the data the rest of the node relies on. *)

From stdpp Require Import sorting.
From S2P Require Import Prelude Chain ChainThms.
From Stdlib Require Import ZifyBool.

(** ** Medians *)
Definition below (m : Z) (l : list Z) : nat := length (filter (fun x => x < m) l).
Definition median (l : list Z) : Z := nth (length l / 2)%nat (merge_sort Z.le l) 0.

Lemma below_app m l1 l2 : below m (l1 ++ l2) = (below m l1 + below m l2)%nat.
Proof. unfold below. by rewrite list.filter_app, length_app. Qed.
Lemma below_perm m l1 l2 : l1 ≡ₚ l2 -> below m l1 = below m l2.
Proof. intros Hp. unfold below. by rewrite Hp. Qed.
Lemma below_none m l : Forall (fun x => m <= x) l -> below m l = 0%nat.
Proof.
  unfold below. induction 1 as [|x l Hx _ IH]; [done|]. rewrite list.filter_cons, decide_False by lia. done.
Qed.
Lemma sorted_below_nth s k m : StronglySorted Z.le s -> (k < length s)%nat -> (below m s <= k)%nat <-> m <= nth k s 0.
Proof.
  intros Hs. revert k. induction Hs as [|x s Hs IH Hall]; intros k Hk; [cbn in Hk; lia|].
  unfold below in *. rewrite list.filter_cons. destruct (decide (x < m)) as [Hx|Hx].
  - cbn [length]. destruct k as [|k]; [cbn; lia|]. cbn in Hk. cbn [nth]. rewrite <- IH by lia. lia.
  - assert (Forall (fun y => m <= y) s) as Hm by (eapply List.Forall_impl; [|exact Hall]; cbn; intros; lia).
    pose proof (below_none m s Hm) as E0. unfold below in E0. rewrite E0. split; [intros _|lia]. destruct k as [|k]; [cbn; lia|].
    cbn in Hk. cbn [nth]. rewrite List.Forall_forall in Hm. apply Hm, nth_In. lia.
Qed.
Lemma median_ge l m : l <> [] -> (below m l <= length l / 2)%nat <-> m <= median l.
Proof.
  intros Hl. unfold median. rewrite <- sorted_below_nth.
  - by rewrite (below_perm m (merge_sort Z.le l) l) by apply merge_sort_Permutation.
  - apply StronglySorted_merge_sort; apply _.
  - rewrite (Permutation_length (merge_sort_Permutation Z.le l)). apply Nat.Div0.div_lt_upper_bound. destruct l; [done|cbn; lia].
Qed.

(** A later time than the median enters, the oldest leaves: the median does not
    decrease. *)
Lemma median_mono l0 l t : l <> [] -> l = l0 \/ (exists x, l = x :: l0) -> median l < t -> median l <= median (l0 ++ [t]).
Proof.
  intros Hl Hw Ht. apply median_ge; [by destruct l0|]. pose proof (proj2 (median_ge l (median l) Hl) ltac:(lia)) as Hb.
  rewrite below_app, length_app. cbn [length]. assert (below (median l) [t] = 0%nat) as -> by (apply below_none; repeat constructor; lia).
  destruct Hw as [<-|[x Hx]].
  - pose proof (Nat.Div0.div_le_mono (length l) (length l + 1) 2). lia.
  - assert (below (median l) l0 <= below (median l) l)%nat.
    { generalize (median l) as m. intros m. rewrite Hx. change (x :: l0) with ([x] ++ l0). rewrite below_app. lia. }
    replace (length l0 + 1)%nat with (length l) by (rewrite Hx; cbn; lia). lia.
Qed.

Section Times.
Context (H : Index) (HI : index_ok H).

Lemma past_times_ok n p b : H !! p = Some b -> exists l, past_times n H (Some p) = Ok l /\ (n <> 0%nat -> l <> []).
Proof.
  revert p b. induction n as [|n IH]; intros p b Hp; [by exists []|]. cbn [past_times]. unfold deref. rewrite Hp. cbn [mbind outcome_bind].
  assert (exists l, past_times n H (pprev b) = Ok l) as [l ->]; [|exists (l ++ [nTime b]); split; [done|by destruct l]].
  pose proof (bo_prev _ _ _ (HI p b Hp)) as Hprev. destruct (pprev b) as [q|]; [|exists []; by destruct n].
  destruct Hprev as (c & Hc & _). destruct (IH q c Hc) as (l & E & _). by exists l.
Qed.
Lemma past_times_S n p l : past_times (S n) H p = Ok l -> exists l0, past_times n H p = Ok l0 /\ (l = l0 \/ exists x, l = x :: l0).
Proof.
  revert p l. induction n as [|n IH]; intros p l E.
  - exists []. split; [done|]. destruct p as [p|]; cbn in E; [|left; by injection E]. destruct (deref H p) as [b| | | | |]; [|done..].
    cbn in E. right. exists (nTime b). by injection E as <-.
  - destruct p as [p|]; [|exists []; split; [done|]; left; by injection E].
    cbn [past_times] in E |- *. destruct (deref H p) as [b| | | | |]; [|done..]. cbn [mbind outcome_bind] in *.
    change (match pprev b with Some p0 => b0 ← deref H p0; l0 ← past_times n H (pprev b0); Ok (l0 ++ [nTime b0]) | None => Ok [] end)
      with (past_times (S n) H (pprev b)) in E.
    destruct (past_times (S n) H (pprev b)) as [l1| | | | |] eqn:E1; [|done..]. injection E as <-.
    destruct (IH _ _ E1) as (l0 & -> & Hl). exists (l0 ++ [nTime b]). split; [done|]. destruct Hl as [->|[x ->]]; [by left|right]. by exists x.
Qed.

Lemma past_times_cons n p b : H !! p = Some b -> past_times (S n) H (Some p) = (l ← past_times n H (pprev b); Ok (l ++ [nTime b])).
Proof. intros Hp. cbn [past_times]. unfold deref. by rewrite Hp. Qed.

Definition mtp (p : ptr) : Z := match GetMedianTimePast H p with Ok m => m | _ => 0 end.
Lemma GetMedianTimePast_ok p b : H !! p = Some b -> exists l, past_times nMedianTimeSpan H (Some p) = Ok l /\ l <> [] /\
  GetMedianTimePast H p = Ok (mtp p) /\ mtp p = median l.
Proof.
  intros Hp. destruct (past_times_ok nMedianTimeSpan p b Hp) as (l & E & Hl). exists l. split; [done|]. split; [by apply Hl|].
  unfold mtp, GetMedianTimePast. rewrite E. done.
Qed.
Lemma mtp_child p b q : H !! p = Some b -> pprev b = Some q -> mtp q < nTime b -> mtp q <= mtp p.
Proof.
  intros Hp Hq Ht. pose proof (bo_prev _ _ _ (HI p b Hp)) as Hprev. rewrite Hq in Hprev. destruct Hprev as (c & Hc & _).
  destruct (GetMedianTimePast_ok p b Hp) as (l' & E' & _ & _ & ->). destruct (GetMedianTimePast_ok q c Hc) as (l & E & Hl & _ & Em).
  rewrite Em in Ht |- *. change nMedianTimeSpan with (S 10) in E, E'. destruct (past_times_S 10 (Some q) l E) as (l0 & E0 & Hw).
  assert (l' = l0 ++ [nTime b]) as ->; [|by apply median_mono].
  rewrite (past_times_cons 10 p b Hp), Hq, E0 in E'. by injection E'.
Qed.

(** The rule [ContextualCheckBlockHeader] enforces. *)
Definition times_ok : Prop := forall p b q, H !! p = Some b -> pprev b = Some q -> mtp q < nTime b.
Lemma mtp_ancestor p q h : times_ok -> ancestor H p h = Some q -> mtp q <= mtp p.
Proof.
  intros Ht. remember (Z.to_nat (match H !! p with Some b => nHeight b | None => 0 end)) as n eqn:En. revert p En.
  induction n as [|n IH]; intros p En E; destruct (ancestor_inv H HI _ _ _ E) as (b & c & Hp & Hc & Hch & Hr); rewrite Hp in En.
  - replace h with (nHeight b) in E by lia. apply ancestor_fix in E as ->; [lia|done|done].
  - destruct (Z.eq_dec h (nHeight b)) as [->|Hne]; [apply ancestor_fix in E as ->; [lia|done|done]|].
    destruct (prev_ok H HI p b Hp) as (r & d & Er & Hd & Hdh); [lia|]. transitivity (mtp r); [|apply (mtp_child p b r); [done|done|by apply (Ht p b)]].
    apply IH; [rewrite Hd; lia|]. by rewrite <- (ancestor_prev H HI p b r) by (done || lia).
Qed.
End Times.

(** ** Larger indices, other statuses *)
Section Extend.
Context (H H' : Index) (HI : index_ok H) (HE : H ⊆ H').

Lemma up_extend n p q : up H n p = Some q -> up H' n p = Some q.
Proof.
  revert p. induction n as [|n IH]; intros p E; [done|]. cbn in E |- *. destruct (H !! p) as [b|] eqn:Hp; [|done].
  rewrite (lookup_weaken _ _ _ _ Hp HE). cbn in E |- *. destruct (pprev b) as [r|]; [|done]. by apply IH.
Qed.
Lemma ancestor_extend p b h : H !! p = Some b -> ancestor H' p h = ancestor H p h.
Proof.
  intros Hp. unfold ancestor. rewrite (lookup_weaken _ _ _ _ Hp HE), Hp. cbn. destruct (_ && _) eqn:E; [|done].
  destruct (up_ok H HI (Z.to_nat (nHeight b - h)) p b Hp) as (q & c & Eu & _); [lia|]. rewrite Eu. by apply up_extend.
Qed.
Lemma past_times_extend n p b : H !! p = Some b -> past_times n H' (Some p) = past_times n H (Some p).
Proof.
  revert p b. induction n as [|n IH]; intros p b Hp; [done|].
  rewrite (past_times_cons H n p b Hp), (past_times_cons H' n p b (lookup_weaken _ _ _ _ Hp HE)).
  pose proof (bo_prev _ _ _ (HI p b Hp)) as Hprev. destruct (pprev b) as [q|]; [|by destruct n].
  destruct Hprev as (c & Hc & _). by rewrite (IH q c Hc).
Qed.
Lemma mtp_extend p b : H !! p = Some b -> mtp H' p = mtp H p.
Proof. intros Hp. unfold mtp, GetMedianTimePast. by rewrite (past_times_extend _ p b Hp). Qed.
Lemma block_ok_extend p b : H !! p = Some b -> block_ok H' p b.
Proof.
  intros Hp. destruct (HI p b Hp) as [B1 B2 B3]. split; [done| |].
  - destruct (pprev b) as [q|]; [|done]. destruct B2 as (c & Hc & E). exists c. split; [|done]. by apply (lookup_weaken _ _ _ _ Hc HE).
  - destruct (pskip b) as [s|]; [|done]. by rewrite (ancestor_extend p b).
Qed.
End Extend.

Lemma index_ok_insert H p b : index_ok H -> H !! p = None -> block_ok (<[p := b]> H) p b -> index_ok (<[p := b]> H).
Proof.
  intros HI Hp Hb q c Hq. destruct (decide (p = q)) as [<-|Hne].
  - rewrite lookup_insert_eq in Hq. by injection Hq as <-.
  - rewrite lookup_insert_ne in Hq by done. apply (block_ok_extend H); [done|by apply insert_subseteq|done].
Qed.

(** The index without the statuses. *)
Definition strip (H : Index) : Index := set_nStatus 0 <$> H.
Lemma strip_lookup H p : strip H !! p = set_nStatus 0 <$> H !! p.
Proof. apply lookup_fmap. Qed.
Lemma up_strip H n p : up (strip H) n p = up H n p.
Proof. revert p. induction n as [|n IH]; intros p; [done|]. cbn. rewrite strip_lookup. destruct (H !! p) as [b|]; [|done]. cbn. destruct (pprev b); [|done]. apply IH. Qed.
Lemma ancestor_strip H p h : ancestor (strip H) p h = ancestor H p h.
Proof. unfold ancestor. rewrite strip_lookup. destruct (H !! p) as [b|]; [|done]. cbn. by rewrite up_strip. Qed.
Lemma past_times_strip H n p : past_times n (strip H) p = past_times n H p.
Proof.
  revert p. induction n as [|n IH]; intros p; [done|]. destruct p as [p|]; [|done]. cbn [past_times]. unfold deref. rewrite strip_lookup.
  destruct (H !! p) as [b|]; [|done]. cbn. by rewrite IH.
Qed.
Lemma mtp_strip H p : mtp (strip H) p = mtp H p.
Proof. unfold mtp, GetMedianTimePast. by rewrite past_times_strip. Qed.

(** ** Data along the tree *)
Definition data_ok (H : Index) : Prop := forall p b, H !! p = Some b ->
  match pprev b with
  | None => nTimeMax b = nTime b /\ nChainWork b = 1
  | Some q => forall c, H !! q = Some c -> nTimeMax b = Z.max (nTimeMax c) (nTime b) /\ nChainWork b = nChainWork c + 1
  end.
(** The proof of work of every block is one, so the work of a chain is its length. *)
Lemma work_height H p b : index_ok H -> data_ok H -> H !! p = Some b -> nChainWork b = nHeight b + 1.
Proof.
  intros HI HD. remember (Z.to_nat (nHeight b)) as n eqn:En. revert p b En. induction n as [|n IH]; intros p b En Hp;
    pose proof (HI p b Hp) as [B1 B2 _]; pose proof (HD p b Hp) as D; destruct (pprev b) as [q|]; try lia; destruct B2 as (c & Hc & E);
    destruct (D c Hc) as [_ ->].
  - pose proof (bo_height _ _ _ (HI q c Hc)). lia.
  - rewrite (IH q c); [lia|lia|done].
Qed.

(** What every index entry of the tree keeps, besides its place in it. *)
Record heap_ok (H : Index) : Prop := { ho_index : index_ok H; ho_data : data_ok H; ho_times : times_ok H }.
Lemma heap_ok_strip H : heap_ok (strip H) <-> heap_ok H.
Proof.
  assert (forall p b, H !! p = Some b -> strip H !! p = Some (set_nStatus 0 b)) as Hto by (intros p b Hp; rewrite strip_lookup, Hp; done).
  assert (forall p b, strip H !! p = Some b -> exists c, H !! p = Some c /\ b = set_nStatus 0 c) as Hof.
  { intros p b Hp. rewrite strip_lookup in Hp. destruct (H !! p) as [c|]; [|done]. exists c. split; [done|]. by injection Hp. }
  split; intros [I D T]; split.
  - intros p b Hp. destruct (I p _ (Hto p b Hp)) as [B1 B2 B3]. cbn in *. split; [done| |destruct (pskip b); [by rewrite <- ancestor_strip|done]].
    destruct (pprev b) as [q|]; [|done]. destruct B2 as (c & Hc & E). destruct (Hof q c Hc) as (d & Hd & ->). by exists d.
  - intros p b Hp. pose proof (D p _ (Hto p b Hp)) as Dp. cbn in Dp. destruct (pprev b) as [q|]; [|done]. intros c Hc. apply (Dp _ (Hto q c Hc)).
  - intros p b q Hp Hq. rewrite <- mtp_strip. by apply (T p _ q (Hto p b Hp)).
  - intros p b Hp. destruct (Hof p b Hp) as (b' & Hp' & ->). destruct (I p b' Hp') as [B1 B2 B3]. cbn. split; cbn; [done| |destruct (pskip b'); [by rewrite ancestor_strip|done]].
    destruct (pprev b') as [q|]; [|done]. destruct B2 as (c & Hc & E). exists (set_nStatus 0 c). split; [by apply Hto|done].
  - intros p b Hp. destruct (Hof p b Hp) as (b' & Hp' & ->). pose proof (D p b' Hp') as Dp. cbn. destruct (pprev b') as [q|]; [|done].
    intros c Hc. destruct (Hof q c Hc) as (c' & Hc' & ->). apply (Dp c' Hc').
  - intros p b q Hp Hq. destruct (Hof p b Hp) as (b' & Hp' & ->). rewrite mtp_strip. by apply (T p b' q).
Qed.
Lemma heap_ok_insert H p b : heap_ok H -> H !! p = None -> block_ok (<[p := b]> H) p b ->
  match pprev b with
  | None => nTimeMax b = nTime b /\ nChainWork b = 1
  | Some q => exists c, H !! q = Some c /\ nTimeMax b = Z.max (nTimeMax c) (nTime b) /\ nChainWork b = nChainWork c + 1 /\ mtp H q < nTime b
  end -> heap_ok (<[p := b]> H).
Proof.
  intros [I D T] Hp Hb Hd. pose proof (insert_subseteq H p b Hp) as HE. split; [by apply index_ok_insert| |].
  - intros q c Hq. destruct (decide (p = q)) as [<-|Hne].
    + rewrite lookup_insert_eq in Hq. injection Hq as <-. destruct (pprev b) as [q|]; [|done]. destruct Hd as (c & Hc & D1 & D2 & _).
      intros c' Hc'. rewrite (lookup_weaken _ _ _ _ Hc HE) in Hc'. by injection Hc' as <-.
    + rewrite lookup_insert_ne in Hq by done. pose proof (D q c Hq) as Dq. pose proof (bo_prev _ _ _ (I q c Hq)) as B2. destruct (pprev c) as [r|]; [|done].
      destruct B2 as (d & Hr & _). intros d' Hd'. rewrite (lookup_weaken _ _ _ _ Hr HE) in Hd'. injection Hd' as <-. by apply Dq.
  - intros q c r Hq Hr. destruct (decide (p = q)) as [<-|Hne].
    + rewrite lookup_insert_eq in Hq. injection Hq as <-. rewrite Hr in Hd. destruct Hd as (d & Hdr & _ & _ & Hm). by rewrite (mtp_extend H _ I HE r d Hdr).
    + rewrite lookup_insert_ne in Hq by done. pose proof (bo_prev _ _ _ (I q c Hq)) as B2. rewrite Hr in B2. destruct B2 as (d & Hdr & _).
      rewrite (mtp_extend H _ I HE r d Hdr). by apply (T q c r).
Qed.

(** ** The tree of headers *)
Record tree_ok (t : BlockTree) : Prop := {
  to_heap : heap_ok (heap t);
  to_map h p : mapBlockIndex t !! h = Some p <-> exists b, heap t !! p = Some b /\ phashBlock b = h;
  to_best : match pindexBestHeader t with
            | None => heap t = ∅
            | Some p => exists b, heap t !! p = Some b /\ forall q c, heap t !! q = Some c -> nHeight c <= nHeight b
            end;
  to_failed : Forall (fun f => exists b, heap t !! f = Some b /\ Z.land (nStatus b) BLOCK_FAILED_VALID <> 0) (g_failed_blocks t) }.

(** There is room for [n] more blocks on every chain. *)
Definition tree_room (t : BlockTree) (n : Z) : Prop := forall p b, heap t !! p = Some b -> nHeight b + n < 2 ^ 31.

Section Headers.
Context (GetHash : CBlockHeader -> bytes).

(** The entry of a new block: a root, or the child of [q]. *)
Definition root_entry (block : CBlockHeader) : CBlockIndex :=
  mkIndex (GetHash block) None None 0 0 0 0 1 0 0 2 (h_nVersion block) (h_hashMerkleRoot block) (h_hashStateRoot block) (h_nTime block) (h_nBits block) 0 (h_nTime block).
Definition child_entry (block : CBlockHeader) (q : ptr) (c : CBlockIndex) (s : option ptr) : CBlockIndex :=
  mkIndex (GetHash block) (Some q) s (nHeight c + 1) 0 0 0 (nChainWork c + 1) 0 0 2 (h_nVersion block) (h_hashMerkleRoot block) (h_hashStateRoot block)
    (h_nTime block) (h_nBits block) 0 (Z.max (nTimeMax c) (h_nTime block)).
Definition entered (t : BlockTree) (p : ptr) (b : CBlockIndex) : BlockTree :=
  mkTree (<[p := b]> (heap t)) (<[phashBlock b := p]> (mapBlockIndex t))
    (match pindexBestHeader t with
     | Some q => match heap t !! q with Some c => if nChainWork c <? nChainWork b then Some p else Some q | None => Some q end
     | None => Some p end)
    (setDirtyBlockIndex t ∪ {[p]}) (g_failed_blocks t).

Lemma fresh_none (H : Index) : H !! fresh (dom H) = None.
Proof. apply not_elem_of_dom, is_fresh. Qed.

Lemma AddToBlockIndex_root t block : tree_ok t -> mapBlockIndex t !! GetHash block = None -> GetHash block <> h_hashPrevBlock block ->
  mapBlockIndex t !! h_hashPrevBlock block = None ->
  AddToBlockIndex GetHash block t = (Ok (fresh (dom (heap t))), entered t (fresh (dom (heap t))) (root_entry block)).
Proof.
  intros Ht Hm Hne Hq. unfold AddToBlockIndex. rewrite (SE_bind_ok _ _ t (mapBlockIndex t) t) by done. rewrite Hm.
  rewrite (SE_bind_ok _ _ t (heap t) t) by done. set (p := fresh (dom (heap t))). rewrite lookup_insert_ne, Hq by done.
  rewrite (SE_bind_ok _ _ t (new_index (GetHash block) block) t), (SE_bind_ok _ _ t None t) by done.
  rewrite (SE_bind_ok _ _ t (true, root_entry block) t) by done. rewrite (SE_bind_ok _ _ t (pindexBestHeader t) t) by done. cbn [snd].
  pose proof (to_best t Ht) as Hb. unfold entered. destruct (pindexBestHeader t) as [q|].
  - destruct Hb as (b & Hb & _). pose proof (fresh_none (heap t)) as Hp. fold p in Hp. assert (p <> q) as Hpq by congruence.
    rewrite (SE_bind_ok _ _ t (nChainWork b <? nChainWork (root_entry block)) t) by (unfold lift_outcome, deref; by rewrite lookup_insert_ne, Hb by done).
    rewrite Hb. by destruct (nChainWork b <? _).
  - done.
Qed.
Lemma AddToBlockIndex_child t block q c : tree_ok t -> mapBlockIndex t !! GetHash block = None -> GetHash block <> h_hashPrevBlock block ->
  mapBlockIndex t !! h_hashPrevBlock block = Some q -> heap t !! q = Some c -> nHeight c < 2 ^ 31 - 1 ->
  exists s, ancestor (heap t) q (GetSkipHeight (nHeight c + 1)) = Some s /\
  AddToBlockIndex GetHash block t = (Ok (fresh (dom (heap t))), entered t (fresh (dom (heap t))) (child_entry block q c (Some s))).
Proof.
  intros Ht Hm Hne Hq Hc Hr. pose proof (ho_index _ (to_heap t Ht)) as HI. pose proof (bo_height _ _ _ (HI q c Hc)) as Hh.
  pose proof (GetSkipHeight_bound (nHeight c + 1) ltac:(lia)) as Hsk.
  destruct (ancestor_some _ HI q c (GetSkipHeight (nHeight c + 1)) Hc) as (s & d & Es & Hd & Hdh); [lia|]. exists s. split; [done|].
  unfold AddToBlockIndex. rewrite (SE_bind_ok _ _ t (mapBlockIndex t) t) by done. rewrite Hm.
  rewrite (SE_bind_ok _ _ t (heap t) t) by done. set (p := fresh (dom (heap t))). rewrite lookup_insert_ne, Hq by done.
  pose proof (fresh_none (heap t)) as Hp. fold p in Hp. assert (p <> q) as Hpq by congruence.
  set (b1 := set_nHeight (nHeight c + 1) (set_pprev (Some q) (new_index (GetHash block) block))).
  assert (index_ok (<[p := b1]> (heap t))) as HI1.
  { apply index_ok_insert; [done|done|]. split; cbn; [lia| |done]. exists c. by rewrite lookup_insert_ne. }
  rewrite (SE_bind_ok _ _ t (set_pskip (Some s) b1) t).
  2:{ unfold lift_outcome, deref. rewrite lookup_insert_ne, Hc by done. cbn [mbind outcome_bind]. replace (nHeight c =? 2 ^ 31 - 1) with false by lia.
      fold b1. unfold BuildSkip. change (pprev b1) with (Some q). change (nHeight b1) with (nHeight c + 1). cbv iota.
      rewrite (GetAncestor_ok _ HI1 q c) by (by rewrite lookup_insert_ne). rewrite (ancestor_extend (heap t) _ HI (insert_subseteq (heap t) p b1 Hp) q c _ Hc), Es. done. }
  change (pprev (set_pskip (Some s) b1)) with (Some q).
  rewrite (SE_bind_ok _ _ t (Some c) t) by (unfold lift_outcome, deref; by rewrite lookup_insert_ne, Hc by done).
  pose proof (work_height _ q c HI (ho_data _ (to_heap t Ht)) Hc) as Hw. assert (u256 (nChainWork c + 1) = nChainWork c + 1) as Hu.
  { apply wrap_small. unfold in_range. rewrite Hw. pose proof (Z.pow_lt_mono_r 2 31 256). lia. }
  rewrite (SE_bind_ok _ _ t (true, child_entry block q c (Some s)) t).
  2:{ unfold lift_outcome. unfold GetBlockProof. rewrite Hu. done. }
  rewrite (SE_bind_ok _ _ t (pindexBestHeader t) t) by done. cbn [snd].
  pose proof (to_best t Ht) as Hb. unfold entered. destruct (pindexBestHeader t) as [r|].
  - destruct Hb as (b & Hb & _). assert (p <> r) as Hpr by congruence.
    rewrite (SE_bind_ok _ _ t (nChainWork b <? nChainWork (child_entry block q c (Some s))) t) by (unfold lift_outcome, deref; by rewrite lookup_insert_ne, Hb by done).
    rewrite Hb. by destruct (nChainWork b <? _).
  - done.
Qed.

(** A new entry that fits keeps the tree. *)
Lemma entered_ok t p b : tree_ok t -> heap t !! p = None -> mapBlockIndex t !! phashBlock b = None -> heap_ok (<[p := b]> (heap t)) -> tree_ok (entered t p b).
Proof.
  intros Ht Hp Hm Hok. split; cbn [entered heap mapBlockIndex pindexBestHeader g_failed_blocks]; [done| | |].
  - intros h q. destruct (decide (phashBlock b = h)) as [<-|Hne].
    + rewrite lookup_insert_eq. split.
      * intros [= <-]. exists b. by rewrite lookup_insert_eq.
      * intros (c & Hc & E). destruct (decide (p = q)) as [<-|Hpq]; [done|]. rewrite lookup_insert_ne in Hc by done.
        assert (mapBlockIndex t !! phashBlock b = Some q) as E2; [|by rewrite Hm in E2]. apply (to_map t Ht). by exists c.
    + rewrite lookup_insert_ne by done. rewrite (to_map t Ht). split.
      * intros (c & Hc & E). exists c. split; [|done]. rewrite lookup_insert_ne by congruence. done.
      * intros (c & Hc & E). exists c. split; [|done]. destruct (decide (p = q)) as [<-|Hpq]; [|by rewrite lookup_insert_ne in Hc].
        rewrite lookup_insert_eq in Hc. injection Hc as <-. done.
  - destruct (to_heap t Ht) as [I D _]. destruct Hok as [I' D' _]. pose proof (to_best t Ht) as Hb.
    assert (nChainWork b = nHeight b + 1) as Wb by (apply (work_height _ p b I' D'), lookup_insert_eq).
    destruct (pindexBestHeader t) as [r|].
    + destruct Hb as (c & Hc & Hmax). rewrite Hc. rewrite (work_height _ r c I D Hc), Wb. assert (p <> r) by congruence.
      destruct (Z.ltb_spec (nHeight c + 1) (nHeight b + 1)).
      * exists b. rewrite lookup_insert_eq. split; [done|]. intros q d Hq. destruct (decide (p = q)) as [<-|]; [rewrite lookup_insert_eq in Hq; injection Hq as <-; lia|].
        rewrite lookup_insert_ne in Hq by done. specialize (Hmax q d Hq). lia.
      * exists c. rewrite lookup_insert_ne by done. split; [done|]. intros q d Hq. destruct (decide (p = q)) as [<-|]; [rewrite lookup_insert_eq in Hq; injection Hq as <-; lia|].
        rewrite lookup_insert_ne in Hq by done. by apply (Hmax q d).
    + exists b. rewrite lookup_insert_eq. split; [done|]. intros q d Hq. rewrite Hb in Hq.
      destruct (decide (p = q)) as [<-|]; [rewrite lookup_insert_eq in Hq; by injection Hq as <-|by rewrite lookup_insert_ne in Hq].
  - eapply List.Forall_impl; [|exact (to_failed t Ht)]. cbn. intros f (c & Hc & E). exists c. split; [|done]. rewrite lookup_insert_ne; [done|congruence].
Qed.
Lemma root_ok t block : tree_ok t -> heap_ok (<[fresh (dom (heap t)) := root_entry block]> (heap t)).
Proof.
  intros Ht. apply heap_ok_insert; [by apply to_heap|apply fresh_none| |done]. split; cbn; [lia|done|done].
Qed.
Lemma child_ok t block q c s : tree_ok t -> heap t !! q = Some c -> nHeight c < 2 ^ 31 - 1 -> mtp (heap t) q < h_nTime block ->
  ancestor (heap t) q (GetSkipHeight (nHeight c + 1)) = Some s -> heap_ok (<[fresh (dom (heap t)) := child_entry block q c (Some s)]> (heap t)).
Proof.
  intros Ht Hc Hr Hm Hs. pose proof (fresh_none (heap t)) as Hp. set (p := fresh (dom (heap t))) in *. pose proof (to_heap t Ht) as Hh. pose proof (ho_index _ Hh) as HI.
  pose proof (bo_height _ _ _ (HI q c Hc)) as Hb. assert (p <> q) as Hne by congruence.
  set (b1 := set_pskip None (child_entry block q c (Some s))).
  assert (index_ok (<[p := b1]> (heap t))) as HI1.
  { apply index_ok_insert; [done|done|]. split; cbn; [lia| |done]. exists c. by rewrite lookup_insert_ne. }
  assert (forall n x, up (<[p := child_entry block q c (Some s)]> (heap t)) n x = up (<[p := b1]> (heap t)) n x) as Hup.
  { induction n as [|n IH]; intros x; [done|]. cbn. destruct (decide (p = x)) as [<-|]; [rewrite !lookup_insert_eq; cbn; apply IH|].
    rewrite !lookup_insert_ne by done. destruct (heap t !! x) as [d|]; [|done]. cbn. destruct (pprev d); [|done]. apply IH. }
  apply heap_ok_insert; [done|done| |].
  - split; cbn [child_entry nHeight pprev pskip]; [lia| |].
    + exists c. by rewrite lookup_insert_ne.
    + pose proof (GetSkipHeight_bound (nHeight c + 1) ltac:(lia)).
      transitivity (ancestor (<[p := b1]> (heap t)) p (GetSkipHeight (nHeight c + 1))).
      { unfold ancestor. rewrite !lookup_insert_eq. cbn. by rewrite Hup. }
      rewrite (ancestor_prev _ HI1 p b1 q); [|by rewrite lookup_insert_eq|done|cbn; lia].
      by rewrite (ancestor_extend (heap t) _ HI (insert_subseteq (heap t) p b1 Hp) q c _ Hc).
  - exists c. split; [done|]. split; [done|]. split; [done|done].
Qed.

(** *** Marking descendants of failed blocks *)
Record marked (t t' : BlockTree) : Prop := {
  mk_strip : strip (heap t') = strip (heap t);
  mk_map : mapBlockIndex t' = mapBlockIndex t;
  mk_best : pindexBestHeader t' = pindexBestHeader t;
  mk_failed : g_failed_blocks t' = g_failed_blocks t;
  mk_kept p b : heap t !! p = Some b -> Z.land (nStatus b) BLOCK_FAILED_VALID <> 0 ->
    exists b', heap t' !! p = Some b' /\ Z.land (nStatus b') BLOCK_FAILED_VALID <> 0 }.

Lemma marked_refl t : marked t t.
Proof. split; try done. intros p b Hp E. by exists b. Qed.
Lemma marked_trans t1 t2 t3 : marked t1 t2 -> marked t2 t3 -> marked t1 t3.
Proof.
  intros [A1 A2 A3 A4 A5] [B1 B2 B3 B4 B5]. split; try congruence. intros p b Hp E. destruct (A5 p b Hp E) as (b' & Hp' & E'). by apply (B5 p b').
Qed.
(** What an entry has besides its status is the same after the marking. *)
Lemma marked_lookup t t' p b' : marked t t' -> heap t' !! p = Some b' -> exists b, heap t !! p = Some b /\ set_nStatus 0 b' = set_nStatus 0 b.
Proof.
  intros M Hp. pose proof (f_equal (fun h => h !! p) (mk_strip _ _ M)) as E. cbn in E. rewrite !strip_lookup, Hp in E.
  destruct (heap t !! p) as [b|]; [|done]. exists b. split; [done|]. exact (inj Some _ _ E).
Qed.
Lemma marked_lookup' t t' p b : marked t t' -> heap t !! p = Some b -> exists b', heap t' !! p = Some b' /\ set_nStatus 0 b' = set_nStatus 0 b.
Proof.
  intros M Hp. pose proof (f_equal (fun h => h !! p) (mk_strip _ _ M)) as E. cbn in E. rewrite !strip_lookup, Hp in E.
  destruct (heap t' !! p) as [b'|]; [|done]. exists b'. split; [done|]. exact (inj Some _ _ E).
Qed.
Lemma strip_fields b b' : set_nStatus 0 b' = set_nStatus 0 b -> nHeight b' = nHeight b /\ phashBlock b' = phashBlock b /\ pprev b' = pprev b.
Proof.
  intros E. split; [exact (f_equal nHeight E)|]. split; [exact (f_equal phashBlock E)|exact (f_equal pprev E)].
Qed.
Lemma marked_ok t t' : tree_ok t -> marked t t' -> tree_ok t'.
Proof.
  intros Ht M. pose proof M as [M1 M2 M3 M4 M5]. split.
  - apply heap_ok_strip. rewrite M1. apply heap_ok_strip. apply Ht.
  - intros h p. rewrite M2, (to_map t Ht). split; intros (b & Hb & E).
    + destruct (marked_lookup' t t' p b M Hb) as (b' & Hb' & E'). exists b'. split; [done|]. by destruct (strip_fields _ _ E') as (_ & -> & _).
    + destruct (marked_lookup t t' p b M Hb) as (b' & Hb' & E'). exists b'. split; [done|]. by destruct (strip_fields _ _ E') as (_ & <- & _).
  - rewrite M3. pose proof (to_best t Ht) as Hb. destruct (pindexBestHeader t) as [p|].
    + destruct Hb as (b & Hb & Hmax). destruct (marked_lookup' t t' p b M Hb) as (b' & Hb' & E'). exists b'. split; [done|].
      intros q c' Hc'. destruct (marked_lookup t t' q c' M Hc') as (c & Hc & Ec). destruct (strip_fields _ _ E') as (-> & _ & _). destruct (strip_fields _ _ Ec) as (-> & _ & _). by apply (Hmax q c).
    + apply map_eq. intros q. rewrite lookup_empty. destruct (heap t' !! q) as [c'|] eqn:Eq; [|done].
      destruct (marked_lookup t t' q c' M Eq) as (c & Hc & _). by rewrite Hb in Hc.
  - rewrite M4. eapply List.Forall_impl; [|exact (to_failed t Ht)]. cbn. intros f (b & Hb & E). by apply (M5 f b).
Qed.

Lemma mark_failed_ok fuel f : forall t p b, tree_ok t -> heap t !! p = Some b -> nHeight b < Z.of_nat fuel ->
  (exists h, ancestor (heap t) p h = Some f) -> exists t', mark_failed fuel f (Some p) t = (Ok tt, t') /\ marked t t'.
Proof.
  induction fuel as [|fuel IH]; intros t p b Ht Hp Hf [h Ha]; pose proof (ho_index _ (to_heap t Ht)) as HI; pose proof (bo_height _ _ _ (HI p b Hp)) as Hh; [lia|].
  cbn [mark_failed]. case_decide as E; [exists t; split; [done|apply marked_refl]|].
  rewrite (SE_bind_ok _ _ t (heap t) t) by done. rewrite (SE_bind_ok _ _ t b t) by (unfold lift_outcome, arrow, deref; by rewrite Hp).
  set (t1 := mkTree (<[p := set_nStatus (Z.lor (nStatus b) BLOCK_FAILED_CHILD) b]> (heap t)) (mapBlockIndex t) (pindexBestHeader t) (setDirtyBlockIndex t ∪ {[p]}) (g_failed_blocks t)).
  rewrite (SE_bind_ok _ _ t tt t1) by done.
  assert (marked t t1) as M1.
  { split; cbn [t1 heap mapBlockIndex pindexBestHeader g_failed_blocks]; try done.
    - unfold strip. rewrite fmap_insert. apply map_eq. intros q. destruct (decide (p = q)) as [<-|]; [|by rewrite lookup_insert_ne].
      by rewrite lookup_insert_eq, lookup_fmap, Hp.
    - intros q c Hc Ec. destruct (decide (p = q)) as [<-|]; [|exists c; by rewrite lookup_insert_ne]. rewrite lookup_insert_eq. eexists. split; [done|].
      rewrite Hp in Hc. injection Hc as <-. cbn [nStatus set_nStatus]. rewrite Z.land_lor_distr_l. change (Z.land BLOCK_FAILED_CHILD BLOCK_FAILED_VALID) with 0. by rewrite Z.lor_0_r. }
  pose proof (marked_ok t t1 Ht M1) as Ht1.
  destruct (ancestor_inv _ HI _ _ _ Ha) as (b' & c & Hp' & Hc & Hch & Hr). rewrite Hp in Hp'. injection Hp' as <-.
  assert (h <> nHeight b) as Hne by (intros ->; apply ancestor_fix in Ha; [congruence|done|done]).
  destruct (prev_ok _ HI p b Hp) as (q & d & Eq & Hd & Hdh); [lia|]. rewrite Eq.
  destruct (marked_lookup' t t1 q d M1 Hd) as (d' & Hd' & Ed). destruct (strip_fields _ _ Ed) as (Eh & _ & _).
  destruct (IH t1 q d' Ht1 Hd') as (t2 & E2 & M2); [lia| |].
  { exists h. rewrite <- ancestor_strip, (mk_strip _ _ M1), ancestor_strip. by rewrite <- (ancestor_prev _ HI p b q) by (done || lia). }
  exists t2. split; [done|]. by apply (marked_trans t t1).
Qed.
Lemma check_failed_ok p b l : forall t, tree_ok t -> heap t !! p = Some b ->
  Forall (fun f => exists b, heap t !! f = Some b /\ Z.land (nStatus b) BLOCK_FAILED_VALID <> 0) l ->
  exists (r : bool) t', check_failed p l t = (Ok r, t') /\ marked t t'.
Proof.
  induction l as [|f l IH]; intros t Ht Hp Hl; [exists false, t; split; [done|apply marked_refl]|].
  apply Forall_cons_iff in Hl as [(c & Hc & Ec) Hl]. pose proof (ho_index _ (to_heap t Ht)) as HI. cbn [check_failed].
  rewrite (SE_bind_ok _ _ t (heap t) t) by done. rewrite (SE_bind_ok _ _ t c t) by (unfold lift_outcome, deref; by rewrite Hc).
  rewrite (SE_bind_ok _ _ t (ancestor (heap t) p (nHeight c)) t) by (unfold lift_outcome; by rewrite (GetAncestor_ok _ HI p b)).
  case_decide as E; [|by apply IH].
  rewrite (SE_bind_ok _ _ t tt t) by (unfold assertion; by destruct (Z.eqb_spec (Z.land (nStatus c) BLOCK_FAILED_VALID) 0)).
  rewrite (SE_bind_ok _ _ t b t) by (unfold lift_outcome, deref; by rewrite Hp).
  destruct (mark_failed_ok (S (Z.to_nat (nHeight b))) f t p b Ht Hp) as (t' & Em & M); [lia|by exists (nHeight c)|].
  rewrite (SE_bind_ok _ _ _ _ _ Em). by exists true, t'.
Qed.

(** *** Accepting headers *)
Definition null_hash : bytes := replicate 32 0.

Definition accepted (t : BlockTree) (block : CBlockHeader) (r : string + ptr) (t' : BlockTree) : Prop :=
  match r with
  | inl _ => strip (heap t') = strip (heap t)
  | inr p => exists b, heap t' !! p = Some b /\ phashBlock b = GetHash block /\ strip (heap t) ⊆ strip (heap t')
  end.

Lemma AddToBlockIndex_known t block p : mapBlockIndex t !! GetHash block = Some p -> AddToBlockIndex GetHash block t = (Ok p, t).
Proof. intros E. unfold AddToBlockIndex. rewrite (SE_bind_ok _ _ t (mapBlockIndex t) t) by done. by rewrite E. Qed.
Lemma strip_insert_new H p b : H !! p = None -> strip H ⊆ strip (<[p := b]> H).
Proof. intros Hp. unfold strip. apply map_fmap_mono, insert_subseteq, Hp. Qed.
Lemma room_insert t p b n : tree_room t (n + 1) -> (nHeight b = 0 \/ exists q c, heap t !! q = Some c /\ nHeight b = nHeight c + 1) -> n < 2 ^ 31 -> tree_room (entered t p b) n.
Proof.
  intros Hr Hb Hn q c Hq. cbn [entered heap] in Hq. destruct (decide (p = q)) as [<-|].
  - rewrite lookup_insert_eq in Hq. injection Hq as <-. destruct Hb as [->|(q & d & Hd & ->)]; [lia|]. specialize (Hr q d Hd). lia.
  - rewrite lookup_insert_ne in Hq by done. specialize (Hr q c Hq). lia.
Qed.
Lemma room_le t n m : tree_room t n -> m <= n -> tree_room t m.
Proof. intros Hr Hm p b Hp. specialize (Hr p b Hp). lia. Qed.
Lemma room_marked t t' n : tree_room t n -> marked t t' -> tree_room t' n.
Proof.
  intros Hr M p b' Hp. destruct (marked_lookup t t' p b' M Hp) as (b & Hb & E). destruct (strip_fields _ _ E) as (-> & _ & _). by apply (Hr p b).
Qed.

(** A header whose block enters the tree. *)
Lemma add_child_ok t block q c n : tree_ok t -> tree_room t (n + 1) -> 0 <= n < 2 ^ 31 -> mapBlockIndex t !! GetHash block = None -> GetHash block <> h_hashPrevBlock block ->
  mapBlockIndex t !! h_hashPrevBlock block = Some q -> heap t !! q = Some c -> mtp (heap t) q < h_nTime block ->
  exists p t', AddToBlockIndex GetHash block t = (Ok p, t') /\ tree_ok t' /\ tree_room t' n /\ accepted t block (inr p) t' /\ mapBlockIndex t' = <[GetHash block := p]> (mapBlockIndex t).
Proof.
  intros Ht Hr Hn Hm Hne Hq Hc Hti. pose proof (Hr q c Hc) as Hrc.
  destruct (AddToBlockIndex_child t block q c Ht Hm Hne Hq Hc ltac:(lia)) as (s & Es & E). do 2 eexists. split; [exact E|].
  pose proof (fresh_none (heap t)) as Hp. split; [|split; [|split]].
  - apply entered_ok; [done|done|done|]. apply child_ok; [done|done|lia|done|done].
  - apply room_insert; [done| |lia]. right. by exists q, c.
  - eexists. cbn [entered heap]. rewrite lookup_insert_eq. split; [done|]. split; [done|]. by apply strip_insert_new.
  - done.
Qed.
Lemma add_root_ok t block n : tree_ok t -> tree_room t (n + 1) -> n < 2 ^ 31 -> mapBlockIndex t !! GetHash block = None -> GetHash block <> h_hashPrevBlock block ->
  mapBlockIndex t !! h_hashPrevBlock block = None ->
  exists p t', AddToBlockIndex GetHash block t = (Ok p, t') /\ tree_ok t' /\ tree_room t' n /\ accepted t block (inr p) t' /\ mapBlockIndex t' = <[GetHash block := p]> (mapBlockIndex t).
Proof.
  intros Ht Hr Hn Hm Hne Hq. do 2 eexists. split; [by apply AddToBlockIndex_root|]. pose proof (fresh_none (heap t)) as Hp. split; [|split; [|split]].
  - apply entered_ok; [done|done|done|]. by apply root_ok.
  - apply room_insert; [done|by left|lia].
  - eexists. cbn [entered heap]. rewrite lookup_insert_eq. split; [done|]. split; [done|]. by apply strip_insert_new.
  - done.
Qed.

Lemma ContextualCheckBlockHeader_ok P (H : Index) block q c : index_ok H -> H !! q = Some c ->
  exists r, ContextualCheckBlockHeader P H block q = Ok r /\ (r = None -> mtp H q < h_nTime block).
Proof.
  intros HI Hc. unfold ContextualCheckBlockHeader, deref. rewrite Hc. cbn [mbind outcome_bind].
  destruct (GetMedianTimePast_ok H HI q c Hc) as (l & _ & _ & Em & _). rewrite Em. cbn [mbind outcome_bind].
  destruct (match pcheckpoint P with Some h => _ | None => _ end); [by eexists|].
  destruct (Z.leb_spec (h_nTime block) (mtp H q)); [by eexists|]. destruct (_ <? h_nTime block); [by eexists|]. destruct (_ || _); by eexists.
Qed.

(** What is left when a header was dealt with. *)
Record accepts (t : BlockTree) (block : CBlockHeader) (n : Z) (r : string + ptr) (t' : BlockTree) : Prop := {
  ac_ok : tree_ok t';
  ac_room : tree_room t' n;
  ac_entry : accepted t block r t';
  ac_map h : mapBlockIndex t !! h = None -> h <> GetHash block -> mapBlockIndex t' !! h = None }.

Lemma accepts_reject t t1 block n reason : tree_ok t -> tree_room t n -> marked t t1 -> accepts t block n (inl reason) t1.
Proof.
  intros Ht Hr M. split; [by apply (marked_ok t)|by apply (room_marked t)|apply M|]. intros h Hh _. by rewrite (mk_map _ _ M).
Qed.
Lemma accepts_known t block n p : tree_ok t -> tree_room t n -> mapBlockIndex t !! GetHash block = Some p -> accepts t block n (inr p) t.
Proof. intros Ht Hr E. split; [done|done| |done]. destruct (proj1 (to_map t Ht _ p) E) as (b & Hb & Eb). by exists b. Qed.
Lemma accepts_new t t1 block n p t' : marked t t1 -> tree_ok t' -> tree_room t' n -> accepted t1 block (inr p) t' ->
  mapBlockIndex t' = <[GetHash block := p]> (mapBlockIndex t1) -> accepts t block n (inr p) t'.
Proof.
  intros M Ht Hr (b & Hb & Hh & Hs) Hm. split; [done|done|exists b; by rewrite (mk_strip _ _ M) in Hs|].
  intros h Hn Hne. rewrite Hm, lookup_insert_ne, (mk_map _ _ M) by done. done.
Qed.

Lemma AcceptBlockHeader_ok hashGenesisBlock P block t n : tree_ok t -> tree_room t (n + 1) -> 0 <= n < 2 ^ 31 ->
  GetHash block <> h_hashPrevBlock block -> (GetHash block = hashGenesisBlock -> mapBlockIndex t !! h_hashPrevBlock block = None) ->
  exists r t', AcceptBlockHeader GetHash hashGenesisBlock P block t = (Ok r, t') /\ accepts t block n r t'.
Proof.
  intros Ht Hr Hn Hne Hg. unfold AcceptBlockHeader. rewrite (SE_bind_ok _ _ t (mapBlockIndex t) t), (SE_bind_ok _ _ t (heap t) t) by done.
  pose proof (ho_index _ (to_heap t Ht)) as HI. assert (tree_room t n) as Hr0 by (apply (room_le t (n + 1)); [done|lia]).
  assert (forall reason, exists r t', (Ok (inl reason), t) = (Ok r, t') /\ accepts t block n r t') as Hrej.
  { intros reason. exists (inl reason), t. split; [done|]. by apply accepts_reject, marked_refl. }
  case_decide as Eg.
  - destruct (mapBlockIndex t !! GetHash block) as [p|] eqn:Em.
    + rewrite (SE_bind_ok _ _ _ _ _ (AddToBlockIndex_known t block p Em)). exists (inr p), t. split; [done|]. by apply accepts_known.
    + destruct (add_root_ok t block n Ht Hr ltac:(lia) Em Hne (Hg Eg)) as (p & t' & E & Ht' & Hr' & Ha & Hmap). rewrite (SE_bind_ok _ _ _ _ _ E).
      exists (inr p), t'. split; [done|]. by apply (accepts_new t t); [apply marked_refl|..].
  - destruct (mapBlockIndex t !! GetHash block) as [p|] eqn:Em.
    { destruct (proj1 (to_map t Ht _ p) Em) as (b & Hb & Eb). rewrite (SE_bind_ok _ _ t b t) by (unfold lift_outcome, deref; by rewrite Hb).
      destruct (negb _); [apply Hrej|]. exists (inr p), t. split; [done|]. by apply accepts_known. }
    destruct (mapBlockIndex t !! h_hashPrevBlock block) as [q|] eqn:Eq; [|apply Hrej].
    destruct (proj1 (to_map t Ht _ q) Eq) as (c & Hc & Ec). rewrite (SE_bind_ok _ _ t c t) by (unfold lift_outcome, deref; by rewrite Hc).
    destruct (negb _); [apply Hrej|].
    destruct (ContextualCheckBlockHeader_ok P (heap t) block q c HI Hc) as (r & Er & Hti). rewrite (SE_bind_ok _ _ t r t) by (unfold lift_outcome; by rewrite Er).
    destruct r as [reason|]; [apply Hrej|]. specialize (Hti eq_refl).
    unfold IsValid. change (Z.land BLOCK_VALID_SCRIPTS (Z.lnot BLOCK_VALID_MASK) =? 0) with true. cbv iota.
    match goal with |- context [lift_outcome (Ok ?b)] => rewrite (SE_bind_ok _ _ t b t) by done; generalize b end. intros valid.
    assert (exists (f : bool) t1, (if valid then mret false else l ← gets g_failed_blocks; check_failed q l) t = (Ok f, t1) /\ marked t t1) as (f & t1 & E1 & M).
    { destruct valid; [exists false, t; split; [done|apply marked_refl]|]. rewrite (SE_bind_ok _ _ t (g_failed_blocks t) t) by done.
      apply (check_failed_ok q c); [done|done|apply Ht]. }
    rewrite (SE_bind_ok _ _ _ _ _ E1). destruct f; [eexists (inl _), t1; split; [done|by apply accepts_reject]|].
    destruct (marked_lookup' t t1 q c M Hc) as (c1 & Hc1 & _).
    destruct (add_child_ok t1 block q c1 n (marked_ok t t1 Ht M)) as (p & t' & E & Ht' & Hr' & Ha & Hmap);
      [by apply (room_marked t)|done|by rewrite (mk_map _ _ M)|done|by rewrite (mk_map _ _ M)|done|by rewrite <- mtp_strip, (mk_strip _ _ M), mtp_strip|].
    rewrite (SE_bind_ok _ _ _ _ _ E). exists (inr p), t'. split; [done|]. by apply (accepts_new t t1).
Qed.

(** A hash is not that of its predecessor, and the genesis block has none. *)
Definition header_ok (hashGenesisBlock : bytes) (block : CBlockHeader) : Prop :=
  GetHash block <> h_hashPrevBlock block /\ GetHash block <> null_hash /\ (GetHash block = hashGenesisBlock -> h_hashPrevBlock block = null_hash).

Lemma ProcessNewBlockHeaders_ok hashGenesisBlock P headers : forall t, tree_ok t -> tree_room t (size headers) -> size headers < 2 ^ 31 ->
  mapBlockIndex t !! null_hash = None -> Forall (header_ok hashGenesisBlock) headers ->
  exists r t', ProcessNewBlockHeaders GetHash hashGenesisBlock P headers t = (Ok r, t') /\ tree_ok t' /\ mapBlockIndex t' !! null_hash = None /\
    (forall p b, heap t !! p = Some b -> exists b', heap t' !! p = Some b' /\ set_nStatus 0 b' = set_nStatus 0 b) /\
    (r = None -> Forall (fun h => exists p b, heap t' !! p = Some b /\ phashBlock b = GetHash h) headers).
Proof.
  induction headers as [|block headers IH]; intros t Ht Hr Hn Hnull Hh.
  - exists None, t. repeat (split; [done|]). split; [intros p b Hp; by exists b|constructor].
  - apply Forall_cons_iff in Hh as [(Hne & Hn0 & Hg) Hh]. cbn [ProcessNewBlockHeaders]. cbn [length] in Hr, Hn.
    destruct (AcceptBlockHeader_ok hashGenesisBlock P block t (size headers) Ht) as (r & t1 & E & [Ht1 Hr1 Ha1 Hm1]);
      [apply (room_le t (Z.of_nat (S (length headers)))); [done|lia]|lia|done|intros Eg; by rewrite (Hg Eg)|].
    rewrite (SE_bind_ok _ _ _ _ _ E).
    assert (strip (heap t) ⊆ strip (heap t1)) as Hsub by (destruct r as [reason|p]; [unfold accepted in Ha1; by rewrite Ha1|by destruct Ha1 as (? & _ & _ & ?)]).
    assert (forall p b, heap t !! p = Some b -> exists b', heap t1 !! p = Some b' /\ set_nStatus 0 b' = set_nStatus 0 b) as Hold.
    { intros p b Hp. assert (strip (heap t1) !! p = Some (set_nStatus 0 b)) as E1 by (apply (lookup_weaken (strip (heap t))); [by rewrite strip_lookup, Hp|done]).
      rewrite strip_lookup in E1. destruct (heap t1 !! p) as [b'|]; [|done]. exists b'. split; [done|]. exact (inj Some _ _ E1). }
    assert (mapBlockIndex t1 !! null_hash = None) as Hnull1 by (apply Hm1; [done|congruence]).
    destruct r as [reason|p]; [exists (Some (reason, block)), t1; by repeat (split; [done|])|].
    destruct (IH t1 Ht1 Hr1 ltac:(lia) Hnull1 Hh) as (r2 & t2 & E2 & Ht2 & Hnull2 & Hold2 & Hall). exists r2, t2. split; [done|]. split; [done|]. split; [done|]. split.
    + intros q b Hq. destruct (Hold q b Hq) as (b1 & Hb1 & Eb1). destruct (Hold2 q b1 Hb1) as (b2 & Hb2 & Eb2). exists b2. split; [done|congruence].
    + intros Er. constructor; [|by apply Hall]. destruct Ha1 as (b & Hb & Hbh & _). destruct (Hold2 p b Hb) as (b2 & Hb2 & Eb2).
      exists p, b2. split; [done|]. destruct (strip_fields _ _ Eb2) as (_ & -> & _). done.
Qed.
End Headers.

(** ** Searching the active chain by time *)
Section Earliest.
Context (H : Index) (HI : index_ok H) (HD : data_ok H).

Lemma timeMax_ancestor p b q c h : H !! p = Some b -> ancestor H p h = Some q -> H !! q = Some c -> nTimeMax c <= nTimeMax b.
Proof.
  remember (Z.to_nat (nHeight b)) as n eqn:En. revert p b En. induction n as [|n IH]; intros p b En Hp Ha Hq;
    destruct (ancestor_inv H HI _ _ _ Ha) as (b' & c' & Hp' & Hc' & Hch & Hr); rewrite Hp in Hp'; injection Hp' as <-; rewrite Hq in Hc'; injection Hc' as <-.
  - replace h with (nHeight b) in Ha by lia. apply ancestor_fix in Ha as ->; [|done|done]. rewrite Hp in Hq. injection Hq as <-. lia.
  - destruct (Z.eq_dec h (nHeight b)) as [->|Hne]; [apply ancestor_fix in Ha as ->; [|done|done]; rewrite Hp in Hq; injection Hq as <-; lia|].
    destruct (prev_ok H HI p b Hp) as (r & d & Er & Hd & Hdh); [lia|]. rewrite (ancestor_prev H HI p b r) in Ha by (done || lia).
    pose proof (HD p b Hp) as D. rewrite Er in D. destruct (D d Hd) as [-> _]. specialize (IH r d ltac:(lia) Hd Ha Hq). lia.
Qed.
(** Whether the block of a height on the chain of [p] is early. *)
Definition early (p : ptr) (nTime h : Z) : Prop := exists q c, ancestor H p h = Some q /\ H !! q = Some c /\ nTimeMax c < nTime.
Lemma early_down p nTime h h' : early p nTime h -> 0 <= h' <= h -> early p nTime h'.
Proof.
  intros (q & c & Ha & Hc & Ht) Hh. destruct (ancestor_inv H HI _ _ _ Ha) as (b & c' & Hp & Hc' & Hch & Hr). rewrite Hc in Hc'. injection Hc' as <-.
  destruct (ancestor_some H HI p b h' Hp) as (r & d & Er & Hd & Hdh); [lia|]. exists r, d. split; [done|]. split; [done|].
  pose proof (timeMax_ancestor q c r d h' Hc ltac:(by rewrite (ancestor_trans H HI p h q) by (done || lia)) Hd). lia.
Qed.
Lemma earliest_bound_ok v p b nTime : active H v (Some p) -> H !! p = Some b -> forall fuel first len, (len < fuel)%nat -> Z.of_nat (first + len) <= nHeight b + 1 ->
  (forall i, 0 <= i < Z.of_nat first -> early p nTime i) -> (forall i, Z.of_nat (first + len) <= i -> ~ early p nTime i) ->
  exists n, CChain.lower_bound fuel H v nTime first len = Ok n /\ Z.of_nat n <= nHeight b + 1 /\
    (forall i, 0 <= i < Z.of_nat n -> early p nTime i) /\ (forall i, Z.of_nat n <= i -> ~ early p nTime i).
Proof.
  intros Ha Hp. pose proof Ha as (b' & Hb' & Hs & Hv). rewrite Hp in Hb'. injection Hb' as <-.
  induction fuel as [|fuel IH]; intros first len Hf Hn Hlo Hhi; [lia|]. cbn [CChain.lower_bound]. destruct len as [|len].
  { exists first. rewrite Nat.add_0_r in Hhi, Hn. done. }
  pose proof (Nat.div_lt (S len) 2 ltac:(lia) ltac:(lia)) as Hh. set (half := (S len / 2)%nat) in *.
  destruct (ancestor_some H HI p b (Z.of_nat (first + half)) Hp) as (q & c & Eq & Hc & _); [lia|].
  pose proof (Hv (Z.of_nat (first + half)) ltac:(lia)) as Evi. rewrite Nat2Z.id in Evi. rewrite Evi, Eq. cbn [arrow]. unfold deref. rewrite Hc. cbn [mbind outcome_bind].
  destruct (Z.ltb_spec (nTimeMax c) nTime) as [Ht|Ht].
  - apply IH; [lia|lia| |].
    + intros i Hi. apply (early_down p nTime (Z.of_nat (first + half))); [|lia]. by exists q, c.
    + intros i Hi. apply Hhi. lia.
  - apply IH; [lia|lia|done|]. intros i Hi He. apply (early_down p nTime i (Z.of_nat (first + half))) in He; [|lia].
    destruct He as (q' & c' & Eq' & Hc' & Ht'). rewrite Eq in Eq'. injection Eq' as <-. rewrite Hc in Hc'. injection Hc' as <-. lia.
Qed.
(** The earliest block of the active chain whose maximal time is not before
    [nTime]: all below are early, and it is the lowest that is not. *)
Lemma FindEarliestAtLeast_ok v p b nTime : active H v (Some p) -> H !! p = Some b -> exists n, 0 <= n <= nHeight b + 1 /\
  CChain.FindEarliestAtLeast H v nTime = Ok (ancestor H p n) /\ (forall i, 0 <= i < n -> early p nTime i) /\ (forall i, n <= i -> ~ early p nTime i).
Proof.
  intros Ha Hp. pose proof Ha as (b' & Hb' & Hs & Hv). rewrite Hp in Hb'. injection Hb' as <-. pose proof (bo_height _ _ _ (HI p b Hp)) as Hh.
  destruct (earliest_bound_ok v p b nTime Ha Hp (S (length v)) 0 (length v)) as (n & E & Hn & Hlo & Hhi); [lia|lia|intros; lia| |].
  { intros i Hi (q & c & Eq & _). rewrite (ancestor_none H p b) in Eq by (done || lia). done. }
  exists (Z.of_nat n). split; [lia|]. split; [|done]. unfold CChain.FindEarliestAtLeast. rewrite E. cbn [mbind outcome_bind]. f_equal.
  destruct (Z.eq_dec (Z.of_nat n) (nHeight b + 1)) as [Ez|Hne].
  - rewrite lookup_ge_None_2 by lia. symmetry. apply (ancestor_none H p b); [done|lia].
  - pose proof (Hv (Z.of_nat n) ltac:(lia)) as Evi. rewrite Nat2Z.id in Evi. by rewrite Evi.
Qed.
End Earliest.

(** ** Claims *)

(** A toy hash, a chain of four blocks and a fork of it. *)
Definition toy_hash (h : CBlockHeader) : bytes := h_nTime h :: h_nBits h :: replicate 30 7.
Definition toy_header (prev : bytes) (time bits : Z) : CBlockHeader := mkHeader 4 prev [1] [2] time bits 0.
Definition toy_genesis : CBlockHeader := toy_header null_hash 100 0.
Definition toy_a1 : CBlockHeader := toy_header (toy_hash toy_genesis) 110 0.
Definition toy_a2 : CBlockHeader := toy_header (toy_hash toy_a1) 120 0.
Definition toy_a3 : CBlockHeader := toy_header (toy_hash toy_a2) 130 0.
Definition toy_b2 : CBlockHeader := toy_header (toy_hash toy_a1) 121 1.
Definition toy_headers : list CBlockHeader := [toy_genesis; toy_a1; toy_a2; toy_a3; toy_b2].
Definition toy_params : HeaderParams := mkHeaderParams None 1000 0 0 0.
Definition empty_tree : BlockTree := mkTree ∅ ∅ None ∅ [].
Definition toy_tree : BlockTree := snd (ProcessNewBlockHeaders toy_hash (toy_hash toy_genesis) toy_params toy_headers empty_tree).
Definition toy_at (h : CBlockHeader) : ptr := default 0%nat (mapBlockIndex toy_tree !! toy_hash h).

Lemma empty_tree_ok : tree_ok empty_tree.
Proof.
  split; cbn; [split; by intros p b Hp| |done|constructor]. intros h p. split; [done|]. by intros (b & Hb & _).
Qed.
Lemma toy_headers_ok : Forall (header_ok toy_hash (toy_hash toy_genesis)) toy_headers.
Proof. repeat constructor; done. Qed.
Lemma toy_index : index_ok (heap toy_tree).
Proof.
  destruct (ProcessNewBlockHeaders_ok toy_hash (toy_hash toy_genesis) toy_params toy_headers empty_tree empty_tree_ok) as (r & t' & E & Ht & _);
    [by intros p b Hp|done|done|apply toy_headers_ok|]. unfold toy_tree. rewrite E. apply Ht.
Qed.
Lemma toy_a3_in : exists b, heap toy_tree !! toy_at toy_a3 = Some b.
Proof.
  assert (nHeight <$> heap toy_tree !! toy_at toy_a3 = Some 3) as E by (vm_compute; reflexivity).
  destruct (heap toy_tree !! toy_at toy_a3) as [b|]; [by exists b|discriminate E].
Qed.
Lemma toy_b2_in : exists b, heap toy_tree !! toy_at toy_b2 = Some b /\ nHeight b = 2.
Proof.
  assert (nHeight <$> heap toy_tree !! toy_at toy_b2 = Some 2) as E by (vm_compute; reflexivity).
  destruct (heap toy_tree !! toy_at toy_b2) as [b|]; [exists b; split; [done|by injection E]|discriminate E].
Qed.
Definition toy_chain : CChain := match CChain.SetTip (heap toy_tree) [] (Some (toy_at toy_a3)) with Ok v => v | _ => [] end.
Lemma toy_chain_active : active (heap toy_tree) toy_chain (Some (toy_at toy_a3)).
Proof.
  destruct toy_a3_in as [b E]. destruct (SetTip_ok (heap toy_tree) toy_index [] None (toy_at toy_a3) b eq_refl E) as (v & Ev & Hv).
  unfold toy_chain. rewrite Ev. exact Hv.
Qed.
Lemma bind_Ok {A B} (a : A) (k : A -> outcome B) : Ok a ≫= k = k a.
Proof. done. Qed.
Lemma Ok_Some_inj {A} (a b : A) : Ok (Some a) = Ok (Some b) -> a = b.
Proof. by intros [= ->]. Qed.
Lemma toy_fork_run : (w ← CChain.SetTip (heap toy_tree) toy_chain (Some (toy_at toy_b2)); CChain.FindFork (heap toy_tree) w (Some (toy_at toy_a3))) = Ok (Some (toy_at toy_a1)).
Proof. vm_compute. reflexivity. Qed.

(** C23: [GetAncestor], which jumps along the skip list, returns for every block and height
    the block that following the parents one by one reaches, and null when there is
    none; the walk ends, and the assertion on the parent never fails. *)
Theorem getancestor_exact (H : Index) (p : ptr) (b : CBlockIndex) (h : Z) :
  index_ok H -> H !! p = Some b -> GetAncestor H p h = Ok (ancestor H p h).
Proof. intros HI Hp. by apply (GetAncestor_ok H HI p b). Qed.
Lemma getancestor_exact_witness : GetAncestor (heap toy_tree) (toy_at toy_a3) 1 = Ok (Some (toy_at toy_a1)).
Proof.
  destruct toy_a3_in as [b E].
  rewrite (getancestor_exact (heap toy_tree) (toy_at toy_a3) b 1 toy_index E). vm_compute. reflexivity.
Defined.

(** C14: The tree of headers stays a tree: whatever list of headers is processed, every header is accepted or
    rejected with a reason, and then again heights count parents, skip pointers
    point to ancestors, work and maximal times add up, every hash names one block,
    the best header is on a longest chain; earlier entries keep all but their
    status; and the median time never goes back along a chain. *)
Theorem headers_keep_tree (GetHash : CBlockHeader -> bytes) (hashGenesisBlock : bytes) (P : HeaderParams) (headers : list CBlockHeader) (t : BlockTree) :
  tree_ok t -> tree_room t (size headers) -> size headers < 2 ^ 31 -> mapBlockIndex t !! null_hash = None -> Forall (header_ok GetHash hashGenesisBlock) headers ->
  exists r t', ProcessNewBlockHeaders GetHash hashGenesisBlock P headers t = (Ok r, t') /\ tree_ok t' /\
    (forall p b, heap t !! p = Some b -> exists b', heap t' !! p = Some b' /\ set_nStatus 0 b' = set_nStatus 0 b) /\
    (r = None -> Forall (fun h => exists p b, heap t' !! p = Some b /\ phashBlock b = GetHash h) headers) /\
    (forall p q h, ancestor (heap t') p h = Some q -> mtp (heap t') q <= mtp (heap t') p).
Proof.
  intros Ht Hr Hn Hnull Hh. destruct (ProcessNewBlockHeaders_ok GetHash hashGenesisBlock P headers t Ht Hr Hn Hnull Hh) as (r & t' & E & Ht' & _ & Hold & Hall).
  exists r, t'. repeat (split; [done|]). intros p q h. destruct (to_heap t' Ht') as [HI _ HT]. by apply mtp_ancestor.
Qed.
Lemma headers_keep_tree_witness : exists t', ProcessNewBlockHeaders toy_hash (toy_hash toy_genesis) toy_params toy_headers empty_tree = (Ok None, t') /\ tree_ok t' /\
  pindexBestHeader t' = Some (toy_at toy_a3).
Proof.
  destruct (headers_keep_tree toy_hash (toy_hash toy_genesis) toy_params toy_headers empty_tree) as (r & t' & E & Ht & _).
  - exact empty_tree_ok.
  - by intros p b Hp.
  - reflexivity.
  - reflexivity.
  - exact toy_headers_ok.
  - pose (run := ProcessNewBlockHeaders toy_hash (toy_hash toy_genesis) toy_params toy_headers empty_tree).
    assert (fst run = Ok None) as Hr by (vm_compute; reflexivity).
    assert (pindexBestHeader (snd run) = Some (toy_at toy_a3)) as Hb by (vm_compute; reflexivity).
    unfold run in Hr, Hb. rewrite E in Hr, Hb. cbn [fst snd] in Hr, Hb. injection Hr as ->. exists t'. split; [exact E|]. split; [exact Ht|exact Hb].
Defined.

(** C25: The active chain follows its tip: [SetTip], which stops at the first entry that is right, leaves the vector of
    all ancestors of the new tip by height, whatever chain was there; [FindFork] of
    any block then gives the highest block it shares with the tip, and null when the
    two share none. *)
Theorem settip_findfork (H : Index) (v : CChain) (t : option ptr) (p : ptr) (b : CBlockIndex) :
  index_ok H -> active H v t -> H !! p = Some b ->
  exists v', CChain.SetTip H v (Some p) = Ok v' /\ active H v' (Some p) /\
    forall q c, H !! q = Some c -> exists r, CChain.FindFork H v' (Some q) = Ok r /\
      match r with Some x => meets H q p x | None => forall h, ancestor H q h = None \/ ancestor H q h <> ancestor H p h end.
Proof.
  intros HI Ha Hp. destruct (SetTip_ok H HI v t p b Ha Hp) as (v' & E & Ha'). exists v'. split; [done|]. split; [done|].
  intros q c Hq. by apply (FindFork_ok H HI v' p q c).
Qed.
Lemma settip_findfork_witness : exists v', CChain.SetTip (heap toy_tree) toy_chain (Some (toy_at toy_b2)) = Ok v' /\ active (heap toy_tree) v' (Some (toy_at toy_b2)) /\
  CChain.FindFork (heap toy_tree) v' (Some (toy_at toy_a3)) = Ok (Some (toy_at toy_a1)).
Proof.
  destruct toy_b2_in as (c & Ec & _). pose proof toy_fork_run as Hf.
  destruct (settip_findfork (heap toy_tree) toy_chain (Some (toy_at toy_a3)) (toy_at toy_b2) c toy_index toy_chain_active Ec) as (v' & Ev & Ha & _).
  exists v'. split; [exact Ev|]. split; [exact Ha|]. rewrite Ev, bind_Ok in Hf. exact Hf.
Defined.

(** [LastCommonAncestor] of two blocks of one tree returns the highest block both descend from: its assertion
    that the walks meet never fails. *)
Theorem last_common_ancestor_exact (H : Index) (pa pb : ptr) (a b : CBlockIndex) :
  index_ok H -> H !! pa = Some a -> H !! pb = Some b -> ancestor H pa 0 = ancestor H pb 0 ->
  exists q, LastCommonAncestor H pa pb = Ok (Some q) /\ meets H pa pb q.
Proof. intros HI Ha Hb H0. by apply (LastCommonAncestor_ok H HI pa pb a b). Qed.
Lemma last_common_ancestor_exact_witness : LastCommonAncestor (heap toy_tree) (toy_at toy_a3) (toy_at toy_b2) = Ok (Some (toy_at toy_a1)) /\
  meets (heap toy_tree) (toy_at toy_a3) (toy_at toy_b2) (toy_at toy_a1).
Proof.
  destruct toy_a3_in as [b E].
  destruct toy_b2_in as (c & Ec & Hc).
  destruct (last_common_ancestor_exact (heap toy_tree) (toy_at toy_a3) (toy_at toy_b2) b c toy_index E Ec) as (q & Eq & Hm).
  - vm_compute. reflexivity.
  - assert (LastCommonAncestor (heap toy_tree) (toy_at toy_a3) (toy_at toy_b2) = Ok (Some (toy_at toy_a1))) as Hq by (vm_compute; reflexivity).
    split; [exact Hq|]. rewrite Eq in Hq. apply Ok_Some_inj in Hq. rewrite <- Hq. exact Hm.
Defined.

Lemma locator_heights_last fuel h nStep n : 0 <= h -> 0 < nStep -> h < Z.of_nat fuel -> exists l, locator_heights fuel h nStep n = l ++ [0].
Proof.
  revert h nStep n. induction fuel as [|fuel IH]; intros h nStep n Hh Hs Hf; [lia|]. cbn [locator_heights]. destruct (Z.eqb_spec h 0) as [->|Hne]; [by exists []|].
  destruct (IH (Z.max (h - nStep) 0) (if 10 <? n + 1 then nStep * 2 else nStep) (n + 1)) as [l ->]; [lia|destruct (10 <? n + 1); lia|lia|]. by exists (h :: l).
Qed.

(** A block locator names the block, then blocks at ten steps back by one and then at steps that double, and ends
    with the genesis block, all on the chain of the block, whether they are looked up
    in the active chain or along the skip list; below a height of 2^30 the step
    does not overflow and there are at most 41 hashes. *)
Theorem locator_exact (H : Index) (v : CChain) (t : option ptr) (p : ptr) (b : CBlockIndex) :
  index_ok H -> active H v t -> H !! p = Some b -> nHeight b < 2 ^ 30 ->
  let heights := locator_heights (S (S (Z.to_nat (nHeight b)))) (nHeight b) 1 0 in
  CChain.GetLocator H v (Some p) = Ok (map (hash_at H p) heights) /\ size heights <= 41 /\ exists l, heights = l ++ [0].
Proof.
  intros HI Ha Hp Hh heights. pose proof (bo_height _ _ _ (HI p b Hp)) as Hb.
  assert (step_ok (nHeight b) (nHeight b) 1 0) as Hst by (split; [lia|]; split; [lia|]; split; [done|right; lia]). split; [|split].
  - unfold CChain.GetLocator, deref. rewrite Hp. cbn [mbind outcome_bind].
    rewrite (locator_loop_ok H HI _ v t (nHeight b) Ha Hh p b 1 [] Hp); [done|lia|done].
  - pose proof (locator_heights_length (nHeight b) (S (S (Z.to_nat (nHeight b)))) (nHeight b) 1 0 Hst ltac:(lia) Hh). unfold heights. lia.
  - apply locator_heights_last; lia.
Qed.
Lemma locator_exact_witness : CChain.GetLocator (heap toy_tree) toy_chain (Some (toy_at toy_b2)) = Ok [toy_hash toy_b2; toy_hash toy_a1; toy_hash toy_genesis].
Proof.
  destruct toy_b2_in as (c & Ec & Hc).
  destruct (locator_exact (heap toy_tree) toy_chain (Some (toy_at toy_a3)) (toy_at toy_b2) c toy_index toy_chain_active Ec) as (-> & _ & _).
  - rewrite Hc. reflexivity.
  - rewrite Hc. vm_compute. reflexivity.
Defined.
