(* ===== verification/ChainLoad.v ===== *)
(** * The block index on disk

    What [LoadBlockIndexGuts] makes of the records of the index: the state roots
    are not restored, and a block whose header gives another height than its place
    in the tree comes back under another hash. *)

From stdpp Require Import sorting.
From S2P Require Import Prelude Chain ChainThms ChainHeaders.
From Stdlib Require Import ZifyBool.

Section Load.
Context (GetHash : CBlockHeader -> bytes).

Definition rootless (t : BlockTree) : Prop := forall p b, heap t !! p = Some b -> hashStateRoot b = null_hash.
(** The map names entries of the heap. *)
Definition mapped (t : BlockTree) : Prop := forall h p, mapBlockIndex t !! h = Some p -> is_Some (heap t !! p).
Definition keeps_names (t t' : BlockTree) : Prop := forall h p, mapBlockIndex t !! h = Some p -> mapBlockIndex t' !! h = Some p.

Lemma InsertBlockIndex_ok hash t : rootless t -> mapped t ->
  exists r t', InsertBlockIndex hash t = (Ok r, t') /\ rootless t' /\ mapped t' /\ keeps_names t t' /\
    (forallb (Z.eqb 0) hash = false -> exists p, r = Some p /\ mapBlockIndex t' !! hash = Some p).
Proof.
  intros Hr Hm. unfold InsertBlockIndex. destruct (forallb (Z.eqb 0) hash); [exists None, t; split; [done|]; split; [exact Hr|]; split; [exact Hm|]; split; [by intros h q|discriminate]|].
  rewrite (SE_bind_ok _ _ t (mapBlockIndex t) t) by done. destruct (mapBlockIndex t !! hash) as [p|] eqn:E.
  { exists (Some p), t. split; [done|]. split; [exact Hr|]. split; [exact Hm|]. split; [by intros h q|]. intros _. by exists p. }
  rewrite (SE_bind_ok _ _ t (heap t) t) by done. pose proof (fresh_none (heap t)) as Hp. set (p := fresh (dom (heap t))) in *.
  eexists (Some p), _. split; [reflexivity|]. split; [|split; [|split]]; cbn.
  - intros q b Hq. cbn in Hq. destruct (decide (p = q)) as [<-|]; [rewrite lookup_insert_eq in Hq; by injection Hq as <-|]. rewrite lookup_insert_ne in Hq by done. by apply (Hr q).
  - intros h q Hq. cbn in *. destruct (decide (p = q)) as [<-|]; [by rewrite lookup_insert_eq|]. rewrite lookup_insert_ne by done.
    destruct (decide (hash = h)) as [<-|]; [rewrite lookup_insert_eq in Hq; by injection Hq|]. rewrite lookup_insert_ne in Hq by done. by apply (Hm h).
  - intros h q Hq. cbn. rewrite lookup_insert_ne; [done|congruence].
  - intros _. exists p. by rewrite lookup_insert_eq.
Qed.
Lemma LoadBlockIndexGuts_ok records : (forall h, forallb (Z.eqb 0) (GetHash h) = false) -> forall t, rootless t -> mapped t ->
  exists t', LoadBlockIndexGuts GetHash records t = (Ok tt, t') /\ rootless t' /\ mapped t' /\ keeps_names t t' /\
    Forall (fun d => is_Some (mapBlockIndex t' !! GetHash (disk_header d))) records.
Proof.
  intros HG. induction records as [|d records IH]; intros t Hr Hm; [exists t; split; [done|]; split; [exact Hr|]; split; [exact Hm|]; split; [by intros h q|constructor]|]. cbn [LoadBlockIndexGuts].
  destruct (InsertBlockIndex_ok (GetHash (disk_header d)) t Hr Hm) as (r1 & t1 & E1 & Hr1 & Hm1 & Hk1 & Hp1). rewrite (SE_bind_ok _ _ _ _ _ E1).
  destruct (Hp1 (HG _)) as (p & -> & Hp). destruct (InsertBlockIndex_ok (d_hashPrev d) t1 Hr1 Hm1) as (prev & t2 & E2 & Hr2 & Hm2 & Hk2 & _).
  rewrite (SE_bind_ok _ _ _ _ _ E2), (SE_bind_ok _ _ t2 (heap t2) t2) by done. destruct (Hm2 _ _ (Hk2 _ _ Hp)) as [b Hb].
  rewrite (SE_bind_ok _ _ t2 b t2) by (unfold lift_outcome, arrow, deref; by rewrite Hb).
  set (t3 := mkTree (<[p := load_fields prev (d_index d) b]> (heap t2)) (mapBlockIndex t2) (pindexBestHeader t2) (setDirtyBlockIndex t2) (g_failed_blocks t2)).
  rewrite (SE_bind_ok _ _ t2 tt t3) by done. destruct (IH t3) as (t' & E & Hr' & Hm' & Hk' & Hall).
  - intros q c Hq. cbn in Hq. destruct (decide (p = q)) as [<-|]; [rewrite lookup_insert_eq in Hq; injection Hq as <-; by apply (Hr2 p b)|].
    rewrite lookup_insert_ne in Hq by done. by apply (Hr2 q).
  - intros h q Hq. cbn in *. destruct (decide (p = q)) as [<-|]; [by rewrite lookup_insert_eq|]. rewrite lookup_insert_ne by done. by apply (Hm2 h).
  - exists t'. split; [done|]. split; [exact Hr'|]. split; [exact Hm'|]. split; [intros h q Hq; by apply Hk', Hk2, Hk1|]. constructor; [|done].
    exists p. by apply Hk', Hk2.
Qed.
End Load.

(** ** Claims *)

(** A restart forgets the state roots: whatever records the block index database holds, every record's block is
    in the index after [LoadBlockIndexGuts], and every block of the index has the
    null state root, although the records hold the roots: the field is read from
    disk and not copied. *)
Theorem load_forgets_state_roots (GetHash : CBlockHeader -> bytes) (records : list CDiskBlockIndex) :
  (forall h, forallb (Z.eqb 0) (GetHash h) = false) ->
  exists t', LoadBlockIndexGuts GetHash records empty_tree = (Ok tt, t') /\
    Forall (fun d => exists p b, mapBlockIndex t' !! GetHash (disk_header d) = Some p /\ heap t' !! p = Some b) records /\
    forall p b, heap t' !! p = Some b -> hashStateRoot b = null_hash.
Proof.
  intros HG. destruct (LoadBlockIndexGuts_ok GetHash records HG empty_tree) as (t' & E & Hr & Hm & _ & Hall); [by intros p b Hp|by intros h p Hp|].
  exists t'. split; [done|]. split; [|done]. eapply List.Forall_impl; [|exact Hall]. cbn. intros d [p Hp]. destruct (Hm _ _ Hp) as [b Hb]. by exists p, b.
Qed.
Definition rooted_record : CDiskBlockIndex := mkDiskIndex (mkIndex [] None None 0 0 0 0 0 1 0 3 4 [1] (replicate 32 9) 100 0 0 0) null_hash.
Lemma load_forgets_state_roots_witness : exists t' p b, LoadBlockIndexGuts toy_hash [rooted_record] empty_tree = (Ok tt, t') /\
  mapBlockIndex t' !! toy_hash (disk_header rooted_record) = Some p /\ heap t' !! p = Some b /\ hashStateRoot b = null_hash /\
  hashStateRoot (d_index rooted_record) <> null_hash.
Proof.
  destruct (load_forgets_state_roots toy_hash [rooted_record]) as (t' & E & Hall & Hr).
  - intros h. unfold toy_hash. cbn. by destruct (match h_nTime h with 0 => true | _ => false end), (match h_nBits h with 0 => true | _ => false end).
  - apply Forall_cons_iff in Hall as [(p & b & Hp & Hb) _]. exists t', p, b. split; [exact E|]. split; [exact Hp|]. split; [exact Hb|].
    split; [exact (Hr p b Hb)|]. vm_compute. discriminate.
Defined.

(** A header with another height. *)
Definition with_height (n : Z) (h : CBlockHeader) : CBlockHeader :=
  mkHeader (h_nVersion h) (h_hashPrevBlock h) (h_hashMerkleRoot h) (h_hashStateRoot h) (h_nTime h) (h_nBits h) n.
Lemma same_entry G G' n block t : G (with_height n block) = G' block ->
  AddToBlockIndex G (with_height n block) t = AddToBlockIndex G' block t.
Proof. intros E. unfold AddToBlockIndex. by rewrite E. Qed.
Lemma same_continuation {S A B} (m : SE S A) (f g : A -> SE S B) s : (forall a u, f a u = g a u) ->
  (a ← m; f a) s = (a ← m; g a) s.
Proof. intros H. unfold mbind, SE_bind. destruct (m s) as [[] u]; by rewrite ?H. Qed.
Lemma same_acceptance G G' hg P n block t : G (with_height n block) = G' block ->
  AcceptBlockHeader G hg P (with_height n block) t = AcceptBlockHeader G' hg P block t.
Proof.
  intros E. pose proof (fun u => same_entry G G' n block u E) as Ha. unfold AcceptBlockHeader. rewrite E.
  assert (forall u, (p ← AddToBlockIndex G (with_height n block); mret (inr p)) u =
                    (p ← AddToBlockIndex G' block; mret (@inr string ptr p)) u) as Hadd.
  { intros u. unfold mbind, SE_bind. by rewrite Ha. }
  do 2 (apply same_continuation; intros). case_decide; [done|]. case_match; [done|]. cbn [with_height h_hashPrevBlock].
  case_match; [|done]. apply same_continuation; intros. case_match; [done|].
  apply same_continuation; intros. case_match; [done|]. do 2 (apply same_continuation; intros). by case_match.
Qed.

(** The height in a header is checked nowhere, and it is not what is kept.  Let a new
    block have a parent in a lawful index, lower than the largest height.  Its
    header is accepted or rejected, and enters the index, exactly as the header
    with any other height would, if only that one hashed to the same.  A block that
    enters does so under the hash of its header, but the record written for it
    holds the header with the height of its place in the tree: when the two
    heights differ, the record is that of another header. *)
Theorem header_height_unchecked (GetHash : CBlockHeader -> bytes) (block : CBlockHeader) (t : BlockTree) (q : ptr) (c : CBlockIndex) :
  tree_ok t -> mapBlockIndex t !! GetHash block = None -> GetHash block <> h_hashPrevBlock block ->
  mapBlockIndex t !! h_hashPrevBlock block = Some q -> heap t !! q = Some c -> nHeight c < 2 ^ 31 - 1 ->
  (forall G n hg P, G (with_height n block) = GetHash block ->
     AcceptBlockHeader G hg P (with_height n block) t = AcceptBlockHeader GetHash hg P block t) /\
  exists p t' b d, AddToBlockIndex GetHash block t = (Ok p, t') /\ heap t' !! p = Some b /\ phashBlock b = GetHash block /\ to_disk (heap t') b = Ok d /\
    disk_header d = with_height (nHeight c + 1) block /\
    (h_nHeight block <> nHeight c + 1 -> disk_header d <> block).
Proof.
  intros Ht Hm Hne Hq Hc Hh. split; [intros; by apply same_acceptance|]. destruct (AddToBlockIndex_child GetHash t block q c Ht Hm Hne Hq Hc Hh) as (s & _ & E).
  pose proof (fresh_none (heap t)) as Hp. set (p := fresh (dom (heap t))) in *. set (b := child_entry GetHash block q c (Some s)) in *.
  assert (phashBlock c = h_hashPrevBlock block) as Hprev by (destruct (proj1 (to_map t Ht _ q) Hq) as (c' & Hc' & <-); congruence).
  pose proof (bo_height _ _ _ (ho_index _ (to_heap t Ht) q c Hc)) as Hb.
  exists p, (entered t p b), b. eexists. split; [exact E|]. cbn [entered heap]. rewrite lookup_insert_eq. split; [done|]. split; [done|].
  assert (to_disk (<[p := b]> (heap t)) b = Ok (mkDiskIndex (mkIndex [] None None (nHeight c + 1) 0 0 0 0 0 0 2 (h_nVersion block) (h_hashMerkleRoot block)
    (h_hashStateRoot block) (h_nTime block) (h_nBits block) 0 0) (h_hashPrevBlock block))) as Ed.
  { unfold to_disk. change (pprev b) with (Some q). unfold deref. rewrite lookup_insert_ne, Hc by congruence. cbn. by rewrite Hprev. }
  split; [exact Ed|]. assert (u32 (nHeight c + 1) = nHeight c + 1) as Hu by (apply wrap_small; unfold in_range; lia).
  unfold disk_header. cbn. rewrite Hu. split; [done|]. intros Hd Heq. apply Hd. by rewrite <- Heq.
Qed.
Definition lying_header : CBlockHeader := mkHeader 4 (toy_hash toy_a3) [1] [2] 140 0 77.
Lemma toy_tree_ok : tree_ok toy_tree.
Proof.
  destruct (ProcessNewBlockHeaders_ok toy_hash (toy_hash toy_genesis) toy_params toy_headers empty_tree empty_tree_ok) as (r & t' & E & Ht & _);
    [by intros p b Hp|done|done|apply toy_headers_ok|]. unfold toy_tree. rewrite E. exact Ht.
Qed.
Lemma header_height_unchecked_witness :
  (exists p, fst (AcceptBlockHeader toy_hash (toy_hash toy_genesis) toy_params lying_header toy_tree) = Ok (inr p)) /\
  exists p t' b d, AddToBlockIndex toy_hash lying_header toy_tree = (Ok p, t') /\ heap t' !! p = Some b /\ to_disk (heap t') b = Ok d /\
    disk_header d <> lying_header.
Proof.
  split; [exists 5%nat; vm_compute; reflexivity|].
  assert (nHeight <$> heap toy_tree !! toy_at toy_a3 = Some 3) as Hh by (vm_compute; reflexivity).
  destruct (heap toy_tree !! toy_at toy_a3) as [c|] eqn:Ec; [|discriminate Hh].
  assert (nHeight c = 3) as Hc by (cbn in Hh; congruence).
  destruct (header_height_unchecked toy_hash lying_header toy_tree (toy_at toy_a3) c) as (_ & p & t' & b & d & E & Hb & _ & Hd & _ & Hw).
  - exact toy_tree_ok.
  - vm_compute. reflexivity.
  - vm_compute. discriminate.
  - vm_compute. reflexivity.
  - exact Ec.
  - rewrite Hc. reflexivity.
  - exists p, t', b, d. split; [exact E|]. split; [exact Hb|]. split; [exact Hd|]. apply Hw. rewrite Hc. vm_compute. discriminate.
Defined.
