(* ===== verification/VersionBits.v ===== *)
(** * Version bits: soft forks signalled by blocks

    Model of [src/src/versionbits.h] and [versionbits.cpp], and of
    [ComputeBlockVersion] and [IsWitnessEnabled] ([src/src/validation.cpp]).
    The cache of states is the mutable state; the index is only read.  The keys of
    the cache are pointers, with the null pointer for the parent of the genesis
    block. *)

From stdpp Require Import sorting.
From S2P Require Import Prelude Chain.

Inductive ThresholdState := THRESHOLD_DEFINED | THRESHOLD_STARTED | THRESHOLD_LOCKED_IN | THRESHOLD_ACTIVE | THRESHOLD_FAILED.
#[global] Instance ThresholdState_eq_dec : EqDecision ThresholdState.
Proof. solve_decision. Defined.
Abbreviation ThresholdConditionCache := (gmap (option ptr) ThresholdState).

(** The virtual methods of [AbstractThresholdConditionChecker] *)
Record Checker := mkChecker {
  Condition : CBlockIndex -> bool;
  BeginTime : Z;
  EndTime : Z;
  Period : Z;
  Threshold : Z
}.

Section Checker.
Context (H : Index) (ck : Checker).
Abbreviation M := (SE ThresholdConditionCache).

(** The last block of the period before: an [int] is computed with. *)
Definition period_start (pindexPrev : option ptr) : outcome (option ptr) :=
  match pindexPrev with
  | None => Ok None
  | Some p =>
    b ← deref H p;
    if nHeight b =? 2 ^ 31 - 1 then Undef "nHeight + 1 overflows"
    else if Period ck =? 0 then Undef "division by zero"
    else GetAncestor H p (nHeight b - Z.rem (nHeight b + 1) (Period ck))
  end.

(** The walk back to a block whose state is known.  [vToCompute] is kept with its
    back at the head. *)
Fixpoint find_known (fuel : nat) (pindexPrev : option ptr) (vToCompute : list ptr) : M (option ptr * list ptr) :=
  match fuel with
  | O => fail Diverge
  | S fuel =>
    cache ← gets id;
    match cache !! pindexPrev with
    | Some _ => mret (pindexPrev, vToCompute)
    | None =>
      match pindexPrev with
      | None => modify (<[None := THRESHOLD_DEFINED]>);; mret (None, vToCompute)
      | Some p =>
        t ← lift_outcome (GetMedianTimePast H p);
        if t <? BeginTime ck then modify (<[Some p := THRESHOLD_DEFINED]>);; mret (Some p, vToCompute)
        else
          b ← lift_outcome (deref H p);
          q ← lift_outcome (GetAncestor H p (nHeight b - Period ck));
          find_known fuel q (p :: vToCompute)
      end
    end
  end.

(** How many of the last [n] blocks meet the condition *)
Fixpoint count_loop (n : nat) (pindexCount : option ptr) (count : Z) : outcome Z :=
  match n with
  | O => Ok count
  | S n => b ← arrow H pindexCount; count_loop n (pprev b) (if Condition ck b then count + 1 else count)
  end.

(** The [switch] over the state at the end of a period *)
Definition next_state (p : ptr) (state : ThresholdState) : outcome ThresholdState :=
  match state with
  | THRESHOLD_DEFINED =>
    t ← GetMedianTimePast H p;
    Ok (if EndTime ck <=? t then THRESHOLD_FAILED else if BeginTime ck <=? t then THRESHOLD_STARTED else state)
  | THRESHOLD_STARTED =>
    t ← GetMedianTimePast H p;
    if EndTime ck <=? t then Ok THRESHOLD_FAILED
    else
      count ← count_loop (Z.to_nat (Period ck)) (Some p) 0;
      Ok (if Threshold ck <=? count then THRESHOLD_LOCKED_IN else state)
  | THRESHOLD_LOCKED_IN => Ok THRESHOLD_ACTIVE
  | THRESHOLD_FAILED | THRESHOLD_ACTIVE => Ok state
  end.
Fixpoint compute (vToCompute : list ptr) (state : ThresholdState) : M ThresholdState :=
  match vToCompute with
  | [] => mret state
  | p :: vToCompute =>
    stateNext ← lift_outcome (next_state p state);
    modify (<[Some p := stateNext]>);;
    compute vToCompute stateNext
  end.

(** [GetStateFor(pindexPrev)] *)
Definition periods_bound (p : option ptr) : nat :=
  match p with Some p => match H !! p with Some b => S (S (Z.to_nat (nHeight b))) | None => 1 end | None => 1 end.
Definition GetStateFor (pindexPrev : option ptr) : M ThresholdState :=
  p ← lift_outcome (period_start pindexPrev);
  r ← find_known (periods_bound p) p [];
  cache ← gets id;
  match cache !! fst r with
  | None => fail (Assertion "cache.count(pindexPrev)")
  | Some state => compute (snd r) state
  end.

(** [GetStateStatisticsFor(pindex)] *)
Record BIP9Stats := mkStats { st_period : Z; st_threshold : Z; st_elapsed : Z; st_count : Z; st_possible : bool }.
Fixpoint stats_loop (fuel : nat) (height : Z) (currentIndex : option ptr) (count : Z) : outcome Z :=
  match fuel with
  | O => Diverge
  | S fuel =>
    b ← arrow H currentIndex;
    if height =? nHeight b then Ok count
    else stats_loop fuel height (pprev b) (if Condition ck b then count + 1 else count)
  end.
Definition GetStateStatisticsFor (pindex : option ptr) : outcome BIP9Stats :=
  match pindex with
  | None => Ok (mkStats (Period ck) (Threshold ck) 0 0 false)
  | Some p =>
    e ← period_start pindex;
    e ← arrow H e;
    b ← deref H p;
    let elapsed := nHeight b - nHeight e in
    count ← stats_loop (S (Z.to_nat elapsed)) (nHeight e) (Some p) 0;
    Ok (mkStats (Period ck) (Threshold ck) elapsed count (elapsed - count <=? Period ck - Threshold ck))
  end.

(** [GetStateSinceHeightFor(pindexPrev)] *)
Fixpoint since_loop (fuel : nat) (initialState : ThresholdState) (pindexPrev : ptr) (previousPeriodParent : option ptr) : M ptr :=
  match fuel with
  | O => fail Diverge
  | S fuel =>
    match previousPeriodParent with
    | None => mret pindexPrev
    | Some q =>
      s ← GetStateFor (Some q);
      if decide (s = initialState) then
        b ← lift_outcome (deref H q);
        r ← lift_outcome (GetAncestor H q (nHeight b - Period ck));
        since_loop fuel initialState q r
      else mret pindexPrev
    end
  end.
Definition GetStateSinceHeightFor (pindexPrev : option ptr) : M Z :=
  initialState ← GetStateFor pindexPrev;
  if decide (initialState = THRESHOLD_DEFINED) then mret 0
  else
    p ← lift_outcome (match pindexPrev with None => Undef "null pointer" | Some _ => period_start pindexPrev end);
    match p with
    | None => undef "null pointer"
    | Some p =>
      b ← lift_outcome (deref H p);
      q ← lift_outcome (GetAncestor H p (nHeight b - Period ck));
      r ← since_loop (S (S (Z.to_nat (nHeight b)))) initialState p q;
      c ← lift_outcome (deref H r);
      mret (nHeight c + 1)
    end.
End Checker.

(** ** Deployments *)
Definition VERSIONBITS_TOP_BITS : Z := 0x20000000.
Definition VERSIONBITS_TOP_MASK : Z := 0xE0000000.

Record BIP9Deployment := mkDeployment { bit : Z; nStartTime : Z; nTimeout : Z }.
Record DeploymentParams := mkDeploymentParams {
  nRuleChangeActivationThreshold : Z;
  nMinerConfirmationWindow : Z;
  vDeployments : list BIP9Deployment
}.
Definition DEPLOYMENT_TESTDUMMY : nat := 0.
Definition DEPLOYMENT_CSV : nat := 1.
Definition DEPLOYMENT_SEGWIT : nat := 2.
Definition MAX_VERSION_BITS_DEPLOYMENTS : nat := 3.

Definition Mask (d : BIP9Deployment) : Z := u32 (Z.shiftl 1 (bit d)).
Definition to_int (x : Z) : Z := let x := u32 x in if x <? 2 ^ 31 then x else x - 2 ^ 32.

(** [VersionBitsConditionChecker(pos)] *)
Definition VersionBitsConditionChecker (P : DeploymentParams) (d : BIP9Deployment) : Checker :=
  mkChecker (fun b => (Z.land (u32 (nVersion b)) VERSIONBITS_TOP_MASK =? VERSIONBITS_TOP_BITS) && negb (Z.land (u32 (nVersion b)) (Mask d) =? 0))
    (nStartTime d) (nTimeout d) (to_int (nMinerConfirmationWindow P)) (to_int (nRuleChangeActivationThreshold P)).

(** [struct VersionBitsCache]: a cache per deployment *)
Abbreviation VersionBitsCache := (list ThresholdConditionCache).
Definition Clear (caches : VersionBitsCache) : VersionBitsCache := map (fun _ => ∅) caches.

Section Deployments.
Context (H : Index) (P : DeploymentParams).

(** The deployment and the cache at a position of the two arrays *)
Definition at_pos {A} (pos : nat) (f : Checker -> SE ThresholdConditionCache A) : SE VersionBitsCache A :=
  caches ← gets id;
  match vDeployments P !! pos, caches !! pos with
  | Some d, Some c =>
    let (r, c') := f (VersionBitsConditionChecker P d) c in
    modify (<[pos := c']>);; lift_outcome r
  | _, _ => undef "out of range"
  end.
Definition VersionBitsState (pindexPrev : option ptr) (pos : nat) : SE VersionBitsCache ThresholdState :=
  at_pos pos (fun ck => GetStateFor H ck pindexPrev).
Definition VersionBitsStateSinceHeight (pindexPrev : option ptr) (pos : nat) : SE VersionBitsCache Z :=
  at_pos pos (fun ck => GetStateSinceHeightFor H ck pindexPrev).
Definition VersionBitsStatistics (pindexPrev : option ptr) (pos : nat) : outcome BIP9Stats :=
  match vDeployments P !! pos with
  | Some d => GetStateStatisticsFor H (VersionBitsConditionChecker P d) pindexPrev
  | None => Undef "out of range"
  end.
Definition VersionBitsMask (pos : nat) : outcome Z :=
  match vDeployments P !! pos with Some d => Ok (Mask d) | None => Undef "out of range" end.

(** [ComputeBlockVersion(pindexPrev)], from deployment [i] on *)
Fixpoint version_loop (n i : nat) (pindexPrev : option ptr) (nVersion : Z) : SE VersionBitsCache Z :=
  match n with
  | O => mret nVersion
  | S n =>
    state ← VersionBitsState pindexPrev i;
    nVersion ← (if bool_decide (state = THRESHOLD_LOCKED_IN) || bool_decide (state = THRESHOLD_STARTED)
                then m ← lift_outcome (VersionBitsMask i); mret (Z.lor nVersion m) else mret nVersion);
    version_loop n (S i) pindexPrev nVersion
  end.
Definition ComputeBlockVersion (pindexPrev : option ptr) : SE VersionBitsCache Z :=
  v ← version_loop MAX_VERSION_BITS_DEPLOYMENTS 0 pindexPrev VERSIONBITS_TOP_BITS; mret (to_int v).

Definition IsWitnessEnabled (pindexPrev : option ptr) : SE VersionBitsCache bool :=
  s ← VersionBitsState pindexPrev DEPLOYMENT_SEGWIT; mret (bool_decide (s = THRESHOLD_ACTIVE)).
End Deployments.
