(* ===== verification/VersionBitsThms.v ===== *)
(** * The cached walk computes the states of BIP 9

    [bip9] is the state of a deployment by recursion over the periods, with no
    cache and no shortcut.  [GetStateFor] returns it, from any cache whose entries
    are such states, and keeps the cache so. *)

From stdpp Require Import sorting.
From S2P Require Import Prelude Chain ChainThms ChainHeaders VersionBits.
From Stdlib Require Import ZifyBool.

Section Bip9.
Context (H : Index) (ck : Checker).

(** How many of the [n] blocks up to [p] meet the condition. *)
Fixpoint signals (n : nat) (p : ptr) : Z :=
  match n, H !! p with
  | S n, Some b => (if Condition ck b then 1 else 0) + match pprev b with Some q => signals n q | None => 0 end
  | _, _ => 0
  end.
(** The transition at the end [p] of a period. *)
Definition bip9_step (p : ptr) (s : ThresholdState) : ThresholdState :=
  match s with
  | THRESHOLD_DEFINED => if EndTime ck <=? mtp H p then THRESHOLD_FAILED else if BeginTime ck <=? mtp H p then THRESHOLD_STARTED else s
  | THRESHOLD_STARTED => if EndTime ck <=? mtp H p then THRESHOLD_FAILED
                         else if Threshold ck <=? signals (Z.to_nat (Period ck)) p then THRESHOLD_LOCKED_IN else s
  | THRESHOLD_LOCKED_IN => THRESHOLD_ACTIVE
  | _ => s
  end.
Definition prev_period (p : ptr) : option ptr := b ← H !! p; ancestor H p (nHeight b - Period ck).
Fixpoint bip9 (n : nat) (k : option ptr) : ThresholdState :=
  match n, k with S n, Some p => bip9_step p (bip9 n (prev_period p)) | _, _ => THRESHOLD_DEFINED end.
Definition periods (k : option ptr) : nat :=
  match p ← k; H !! p with Some b => Z.to_nat ((nHeight b + 1) / Period ck) | None => 0 end.
(** The state after the period that ends with [k]. *)
Definition bip9_state (k : option ptr) : ThresholdState := bip9 (periods k) k.

(** The last blocks of periods, and the parent of the genesis block. *)
Definition boundary (k : option ptr) : Prop :=
  match k with None => True | Some p => exists b, H !! p = Some b /\ (nHeight b + 1) mod Period ck = 0 end.
(** The last block of the last full period. *)
Definition period_end (k : option ptr) : option ptr :=
  p ← k; b ← H !! p; ancestor H p (nHeight b - (nHeight b + 1) mod Period ck).

Definition vb_cache_ok (c : ThresholdConditionCache) : Prop := forall k s, c !! k = Some s -> boundary k /\ s = bip9_state k.

Context (HI : index_ok H) (HT : times_ok H) (HP : 0 < Period ck) (HB : BeginTime ck <= EndTime ck).

Lemma boundary_height p b : boundary (Some p) -> H !! p = Some b -> Period ck <= nHeight b + 1 /\ (nHeight b + 1) mod Period ck = 0.
Proof.
  intros (b' & Hb' & Hm) Hp. rewrite Hp in Hb'. injection Hb' as <-. pose proof (bo_height _ _ _ (HI p b Hp)). split; [|done].
  apply Z.mod_divide in Hm; [|lia]. apply Z.divide_pos_le; [lia|done].
Qed.
Lemma period_end_boundary k : (forall p, k = Some p -> is_Some (H !! p)) -> boundary (period_end k).
Proof.
  intros Hk. destruct k as [p|]; [|done]. destruct (Hk p eq_refl) as [b Hp]. unfold period_end. cbn. rewrite Hp. cbn.
  pose proof (bo_height _ _ _ (HI p b Hp)) as Hh. pose proof (Z.mod_pos_bound (nHeight b + 1) (Period ck) HP) as Hm.
  pose proof (Z.div_mod (nHeight b + 1) (Period ck) ltac:(lia)) as Ed. set (r := (nHeight b + 1) mod Period ck) in *.
  destruct (Z.lt_ge_cases (nHeight b - r) 0) as [Hneg|Hpos]; [by rewrite (ancestor_none H p b) by (done || lia)|].
  destruct (ancestor_some H HI p b (nHeight b - r) Hp) as (q & c & -> & Hc & Hch); [lia|]. exists c. split; [done|]. rewrite Hch.
  replace (nHeight b - r + 1) with ((nHeight b + 1) / Period ck * Period ck) by lia. by apply Z.mod_mul; lia.
Qed.
Lemma prev_period_ok p : boundary (Some p) -> boundary (prev_period p) /\ bip9_state (Some p) = bip9_step p (bip9_state (prev_period p)) /\
  (periods (Some p) = S (periods (prev_period p))) /\ (forall q, prev_period p = Some q -> exists h, ancestor H p h = Some q).
Proof.
  intros Hp. pose proof Hp as (b & Hb & _). destruct (boundary_height p b Hp Hb) as [Hle Hm]. pose proof (bo_height _ _ _ (HI p b Hb)) as Hh.
  unfold prev_period. rewrite Hb. cbn [mbind option_bind].
  assert (periods (Some p) = S (periods (ancestor H p (nHeight b - Period ck))) /\ boundary (ancestor H p (nHeight b - Period ck))) as [Hn Hbd].
  { unfold periods at 1. cbn [mbind option_bind]. rewrite Hb. destruct (Z.lt_ge_cases (nHeight b - Period ck) 0) as [Hneg|Hpos].
    - rewrite (ancestor_none H p b) by (done || lia). cbn. assert (nHeight b + 1 = Period ck) as -> by lia. rewrite Z.div_same by lia. done.
    - destruct (ancestor_some H HI p b (nHeight b - Period ck) Hb) as (q & c & Eq & Hc & Hch); [lia|]. rewrite Eq. unfold periods. cbn [mbind option_bind]. rewrite Hc. split.
      + rewrite Hch. replace (nHeight b + 1) with (nHeight b - Period ck + 1 + 1 * Period ck) by lia. rewrite Z.div_add by lia.
        pose proof (Z.div_pos (nHeight b - Period ck + 1) (Period ck)). lia.
      + exists c. split; [done|]. rewrite Hch. replace (nHeight b - Period ck + 1) with (nHeight b + 1 + (-1) * Period ck) by lia. by rewrite Z.mod_add by lia. }
  split; [done|]. split; [|split; [done|intros q Hq; by exists (nHeight b - Period ck)]].
  unfold bip9_state. rewrite Hn. cbn [bip9]. f_equal. unfold prev_period. by rewrite Hb.
Qed.

(** Before the start time every deployment is merely defined: median times do not
    go back. *)
Lemma bip9_early p : boundary (Some p) -> mtp H p < BeginTime ck -> bip9_state (Some p) = THRESHOLD_DEFINED.
Proof.
  remember (periods (Some p)) as n eqn:En. revert p En. induction n as [|n IH]; intros p En Hp Ht; destruct (prev_period_ok p Hp) as (Hb & Es & Ep & Ha); [congruence|].
  rewrite Es. assert (bip9_state (prev_period p) = THRESHOLD_DEFINED) as ->.
  { destruct (prev_period p) as [q|] eqn:Eq; [|done]. destruct (Ha q eq_refl) as [h Hh]. pose proof (mtp_ancestor H HI p q h HT Hh). apply IH; [congruence|done|lia]. }
  cbn. replace (EndTime ck <=? mtp H p) with false by lia. by replace (BeginTime ck <=? mtp H p) with false by lia.
Qed.

Lemma count_loop_ok n : forall p b k, H !! p = Some b -> Z.of_nat n <= nHeight b + 1 -> count_loop H ck n (Some p) k = Ok (k + signals n p).
Proof.
  induction n as [|n IH]; intros p b k Hp Hn; [cbn; f_equal; lia|]. cbn [count_loop signals arrow]. unfold deref. rewrite Hp. cbn [mbind outcome_bind].
  destruct n as [|n].
  { cbn [count_loop signals]. destruct (Condition ck b), (pprev b); f_equal; lia. }
  destruct (prev_ok H HI p b Hp) as (q & c & Eq & Hc & Hch); [lia|]. rewrite Eq, (IH q c) by (done || lia). destruct (Condition ck b); f_equal; lia.
Qed.
Lemma next_state_ok p s : boundary (Some p) -> next_state H ck p s = Ok (bip9_step p s).
Proof.
  intros Hp. pose proof Hp as (b & Hb & _). destruct (boundary_height p b Hp Hb) as [Hle _].
  destruct (GetMedianTimePast_ok H HI p b Hb) as (_ & _ & _ & Em & _).
  destruct s; cbn [next_state bip9_step]; rewrite ?Em; cbn [mbind outcome_bind]; try done.
  destruct (EndTime ck <=? mtp H p); [done|]. rewrite (count_loop_ok _ p b) by (done || lia). cbn [mbind outcome_bind]. by rewrite Z.add_0_l.
Qed.

(** A list of ends of consecutive periods, from the one after [k] to [k0]. *)
Fixpoint linked (k : option ptr) (v : list ptr) (k0 : option ptr) : Prop :=
  match v with [] => k = k0 | p :: v => boundary (Some p) /\ prev_period p = k /\ linked (Some p) v k0 end.

Lemma cache_ok_insert c k s : vb_cache_ok c -> boundary k -> s = bip9_state k -> vb_cache_ok (<[k := s]> c).
Proof.
  intros Hc Hk Hs k' s' E. destruct (decide (k = k')) as [<-|]; [rewrite lookup_insert_eq in E; injection E as <-; done|].
  rewrite lookup_insert_ne in E by done. by apply Hc.
Qed.
Lemma compute_ok v : forall k k0 c, linked k v k0 -> vb_cache_ok c -> exists c', compute H ck v (bip9_state k) c = (Ok (bip9_state k0), c') /\ vb_cache_ok c'.
Proof.
  induction v as [|p v IH]; intros k k0 c Hl Hc; cbn [linked] in Hl; [subst; by exists c|]. destruct Hl as (Hp & Hk & Hl).
  destruct (prev_period_ok p Hp) as (_ & Es & _). rewrite Hk in Es. cbn [compute]. rewrite (SE_bind_ok _ _ c (bip9_state (Some p)) c) by (unfold lift_outcome; by rewrite next_state_ok, <- Es).
  rewrite (SE_bind_ok _ _ c tt (<[Some p := bip9_state (Some p)]> c)) by done. apply (IH (Some p)); [done|]. by apply cache_ok_insert.
Qed.
Lemma find_known_ok fuel : forall k v k0 c, boundary k -> linked k v k0 -> vb_cache_ok c -> (periods k < fuel)%nat ->
  exists k' v' c', find_known H ck fuel k v c = (Ok (k', v'), c') /\ linked k' v' k0 /\ vb_cache_ok c' /\ c' !! k' = Some (bip9_state k').
Proof.
  induction fuel as [|fuel IH]; intros k v k0 c Hk Hl Hc Hf; [lia|]. cbn [find_known]. rewrite (SE_bind_ok _ _ c c c) by done.
  destruct (c !! k) as [s|] eqn:Ek.
  { exists k, v, c. split; [done|]. split; [done|]. split; [done|]. destruct (Hc k s Ek) as [_ ->]. done. }
  destruct k as [p|].
  - pose proof Hk as (b & Hb & _). destruct (boundary_height p b Hk Hb) as [Hle _]. destruct (GetMedianTimePast_ok H HI p b Hb) as (_ & _ & _ & Em & _).
    rewrite (SE_bind_ok _ _ c (mtp H p) c) by (unfold lift_outcome; by rewrite Em). destruct (Z.ltb_spec (mtp H p) (BeginTime ck)) as [Ht|Ht].
    + pose proof (bip9_early p Hk Ht) as He. exists (Some p), v, (<[Some p := THRESHOLD_DEFINED]> c). split; [done|]. split; [done|]. rewrite lookup_insert_eq, He. split; [by apply cache_ok_insert|done].
    + rewrite (SE_bind_ok _ _ c b c) by (unfold lift_outcome, deref; by rewrite Hb).
      destruct (prev_period_ok p Hk) as (Hbd & _ & Hn & _).
      rewrite (SE_bind_ok _ _ c (prev_period p) c) by (unfold lift_outcome, prev_period; by rewrite (GetAncestor_ok H HI p b _ Hb), Hb).
      apply IH; [done|done|done|]. lia.
  - exists None, v, (<[None := THRESHOLD_DEFINED]> c). split; [done|]. split; [done|]. rewrite lookup_insert_eq. split; [by apply cache_ok_insert|done].
Qed.

Lemma period_start_ok k : (forall p, k = Some p -> exists b, H !! p = Some b /\ nHeight b < 2 ^ 31 - 1) -> period_start H ck k = Ok (period_end k).
Proof.
  intros Hk. unfold period_start, period_end. destruct k as [p|]; [|done]. destruct (Hk p eq_refl) as (b & Hb & Hh). cbn [mbind option_bind]. unfold deref. rewrite Hb. cbn [mbind outcome_bind option_bind].
  pose proof (bo_height _ _ _ (HI p b Hb)). replace (nHeight b =? 2 ^ 31 - 1) with false by lia. replace (Period ck =? 0) with false by lia.
  rewrite (GetAncestor_ok H HI p b _ Hb). by rewrite Z.rem_mod_nonneg by lia.
Qed.
Lemma periods_le k : boundary k -> (periods k < periods_bound H k)%nat.
Proof.
  intros Hk. unfold periods, periods_bound. destruct k as [p|]; cbn; [|lia]. destruct Hk as (b & Hb & _). rewrite Hb. pose proof (bo_height _ _ _ (HI p b Hb)).
  assert ((nHeight b + 1) / Period ck <= nHeight b + 1); [|lia]. apply Z.div_le_upper_bound; nia.
Qed.
Lemma GetStateFor_ok k c : (forall p, k = Some p -> exists b, H !! p = Some b /\ nHeight b < 2 ^ 31 - 1) -> vb_cache_ok c ->
  exists c', GetStateFor H ck k c = (Ok (bip9_state (period_end k)), c') /\ vb_cache_ok c'.
Proof.
  intros Hk Hc. unfold GetStateFor. rewrite (SE_bind_ok _ _ c (period_end k) c) by (unfold lift_outcome; by rewrite period_start_ok).
  assert (boundary (period_end k)) as Hb by (apply period_end_boundary; intros p Hp; destruct (Hk p Hp) as (b & Hb & _); by exists b).
  destruct (find_known_ok (periods_bound H (period_end k)) (period_end k) [] (period_end k) c Hb eq_refl Hc (periods_le _ Hb)) as (k' & v' & c' & E & Hl & Hc' & Ek).
  rewrite (SE_bind_ok _ _ _ _ _ E), (SE_bind_ok _ _ c' c' c') by done. cbn [fst snd]. rewrite Ek. by apply compute_ok.
Qed.

(** ** Since when *)

(** The periods from [r] to [p] all end in state [s]. *)
Inductive run (s : ThresholdState) : ptr -> ptr -> Prop :=
| run_here p : bip9_state (Some p) = s -> run s p p
| run_step p q r : bip9_state (Some p) = s -> prev_period p = Some q -> run s q r -> run s p r.

Lemma period_end_fix p : boundary (Some p) -> period_end (Some p) = Some p.
Proof.
  intros Hp. pose proof Hp as (b & Hb & Hm). unfold period_end. cbn [mbind option_bind]. rewrite Hb. cbn [mbind option_bind]. rewrite Hm, Z.sub_0_r. by apply ancestor_self.
Qed.
Definition room_above p : Prop := exists b, H !! p = Some b /\ nHeight b < 2 ^ 31 - 1.
Lemma room_ancestor p q h : room_above p -> ancestor H p h = Some q -> room_above q.
Proof.
  intros (b & Hb & Hh) E. destruct (ancestor_inv H HI _ _ _ E) as (b' & c & Hb' & Hc & Hch & Hr). rewrite Hb in Hb'. injection Hb' as <-. exists c. split; [done|lia].
Qed.
Lemma since_loop_ok s fuel : forall p c, boundary (Some p) -> room_above p -> bip9_state (Some p) = s -> vb_cache_ok c -> (periods (Some p) <= fuel)%nat ->
  exists r c', since_loop H ck fuel s p (prev_period p) c = (Ok r, c') /\ vb_cache_ok c' /\ run s p r /\ is_Some (H !! r) /\
    forall q, prev_period r = Some q -> bip9_state (Some q) <> s.
Proof.
  induction fuel as [|fuel IH]; intros p c Hp Hr Hs Hc Hf; destruct (prev_period_ok p Hp) as (Hb & _ & Hn & Ha); [lia|]. cbn [since_loop].
  destruct (prev_period p) as [q|] eqn:Eq.
  2:{ exists p, c. split; [done|]. split; [done|]. split; [by constructor|]. split; [destruct Hp as (b & Hb' & _); by exists b|]. by rewrite Eq. }
  destruct (Ha q eq_refl) as [h Hh]. pose proof (room_ancestor p q h Hr Hh) as Hrq.
  destruct (GetStateFor_ok (Some q) c) as (c1 & E1 & Hc1); [intros ? [= <-]; done|done|]. rewrite (period_end_fix q Hb) in E1. rewrite (SE_bind_ok _ _ _ _ _ E1).
  case_decide as Ed.
  - destruct Hrq as (d & Hd & Hdh). rewrite (SE_bind_ok _ _ c1 d c1) by (unfold lift_outcome, deref; by rewrite Hd).
    rewrite (SE_bind_ok _ _ c1 (prev_period q) c1) by (unfold lift_outcome, prev_period; by rewrite (GetAncestor_ok H HI q d _ Hd), Hd).
    destruct (IH q c1 Hb ltac:(by exists d) Ed Hc1 ltac:(lia)) as (r & c' & E & Hc' & Hrun & Hsm & Hlast). exists r, c'. split; [done|]. split; [done|].
    split; [by apply (run_step s p q)|]. done.
  - exists p, c1. split; [done|]. split; [done|]. split; [by constructor|]. split; [destruct Hp as (b & Hb' & _); by exists b|]. rewrite Eq. by intros ? [= <-].
Qed.
Lemma GetStateSinceHeightFor_ok k c : (forall p, k = Some p -> room_above p) -> vb_cache_ok c -> exists n c', GetStateSinceHeightFor H ck k c = (Ok n, c') /\ vb_cache_ok c' /\
  let s := bip9_state (period_end k) in
  if decide (s = THRESHOLD_DEFINED) then n = 0
  else exists p r b, period_end k = Some p /\ run s p r /\ H !! r = Some b /\ n = nHeight b + 1 /\ forall q, prev_period r = Some q -> bip9_state (Some q) <> s.
Proof.
  intros Hk Hc. unfold GetStateSinceHeightFor. destruct (GetStateFor_ok k c Hk Hc) as (c1 & E1 & Hc1). rewrite (SE_bind_ok _ _ _ _ _ E1).
  cbv zeta. destruct (decide (bip9_state (period_end k) = THRESHOLD_DEFINED)) as [Hd|Hd]; [by exists 0, c1|].
  destruct k as [p0|]; [|done]. rewrite (SE_bind_ok _ _ c1 (period_end (Some p0)) c1) by (unfold lift_outcome; by rewrite (period_start_ok (Some p0) Hk)).
  pose proof (period_end_boundary (Some p0) ltac:(intros p [= <-]; destruct (Hk p0 eq_refl) as (b & Hb & _); by exists b)) as Hb.
  destruct (period_end (Some p0)) as [p|] eqn:Ep; [|done]. pose proof Hb as (b & Hpb & _).
  assert (room_above p) as Hr.
  { unfold period_end in Ep. cbn [mbind option_bind] in Ep. destruct (H !! p0) as [b0|] eqn:E0; [|done]. cbn [mbind option_bind] in Ep. by apply (room_ancestor p0 p _ (Hk p0 eq_refl) Ep). }
  rewrite (SE_bind_ok _ _ c1 b c1) by (unfold lift_outcome, deref; by rewrite Hpb).
  rewrite (SE_bind_ok _ _ c1 (prev_period p) c1) by (unfold lift_outcome, prev_period; by rewrite (GetAncestor_ok H HI p b _ Hpb), Hpb).
  pose proof (periods_le (Some p) Hb) as Hn. unfold periods_bound in Hn. rewrite Hpb in Hn.
  destruct (since_loop_ok _ (S (S (Z.to_nat (nHeight b)))) p c1 Hb Hr eq_refl Hc1 ltac:(lia)) as (r & c2 & E2 & Hc2 & Hrun & [d Hd'] & Hlast).
  rewrite (SE_bind_ok _ _ _ _ _ E2), (SE_bind_ok _ _ c2 d c2) by (unfold lift_outcome, deref; by rewrite Hd'). exists (nHeight d + 1), c2. split; [done|]. split; [done|].
  by exists p, r, d.
Qed.

(** ** Activation *)
Fixpoint back (n : nat) (p : ptr) : option ptr := match n with O => Some p | S n => q ← prev_period p; back n q end.
(** Enough blocks of the period that ends with [q] signalled, in time. *)
Definition locks_in (q : ptr) : Prop :=
  bip9_state (prev_period q) = THRESHOLD_STARTED /\ mtp H q < EndTime ck /\ Threshold ck <= signals (Z.to_nat (Period ck)) q.

Lemma locked_in_iff q : boundary (Some q) -> bip9_state (Some q) = THRESHOLD_LOCKED_IN <-> locks_in q.
Proof.
  intros Hq. destruct (prev_period_ok q Hq) as (_ & Es & _ & _). rewrite Es. unfold locks_in. destruct (bip9_state (prev_period q)); cbn [bip9_step].
  2:{ destruct (Z.leb_spec (EndTime ck) (mtp H q)), (Z.leb_spec (Threshold ck) (signals (Z.to_nat (Period ck)) q)); split; try done; intros (_ & ? & ?); lia. }
  all: repeat (destruct (_ <=? _)); (split; [discriminate|]); intros (Hs & _); discriminate Hs.
Qed.
Lemma step_active_iff p s : bip9_step p s = THRESHOLD_ACTIVE <-> s = THRESHOLD_LOCKED_IN \/ s = THRESHOLD_ACTIVE.
Proof.
  destruct s; cbn [bip9_step]; repeat (destruct (_ <=? _)); (split; [|intros [?|?]]); discriminate || tauto.
Qed.
Lemma active_iff p : boundary (Some p) -> bip9_state (Some p) = THRESHOLD_ACTIVE <-> exists n q, back (S n) p = Some q /\ locks_in q.
Proof.
  remember (periods (Some p)) as m eqn:Em. revert p Em. induction m as [|m IH]; intros p Em Hp; destruct (prev_period_ok p Hp) as (Hb & Es & Hn & _); [congruence|].
  rewrite Es. cbn [back]. destruct (prev_period p) as [r|] eqn:Er.
  2:{ split; [|by intros (n & q & ? & _)]. cbn. destruct (EndTime ck <=? mtp H p), (BeginTime ck <=? mtp H p); done. }
  cbn [mbind option_bind]. rewrite step_active_iff, (locked_in_iff r Hb), (IH r) by (done || congruence). split.
  - intros [Hl|(n & q & Hq & Hl)]; [by exists 0%nat, r|by exists (S n), q].
  - intros (n & q & Hq & Hl). destruct n as [|n]; [left; by injection Hq as <-|right; by exists n, q].
Qed.

(** ** Statistics of the running period *)
Lemma stats_loop_ok n : forall fuel p b k, H !! p = Some b -> Z.of_nat n <= nHeight b -> (n < fuel)%nat ->
  stats_loop H ck fuel (nHeight b - Z.of_nat n) (Some p) k = Ok (k + signals n p).
Proof.
  induction n as [|n IH]; intros fuel p b k Hp Hn Hf; (destruct fuel as [|fuel]; [lia|]); cbn [stats_loop arrow]; unfold deref; rewrite Hp; cbn [mbind outcome_bind].
  - replace (nHeight b - Z.of_nat 0 =? nHeight b) with true by lia. cbn. f_equal. lia.
  - replace (nHeight b - Z.of_nat (S n) =? nHeight b) with false by lia. destruct (prev_ok H HI p b Hp) as (q & c & Eq & Hc & Hch); [lia|]. rewrite Eq.
    replace (nHeight b - Z.of_nat (S n)) with (nHeight c - Z.of_nat n) by lia. rewrite (IH fuel q c) by (done || lia). cbn [signals]. rewrite Hp, Eq. destruct (Condition ck b); f_equal; lia.
Qed.
Lemma GetStateStatisticsFor_ok p b : H !! p = Some b -> nHeight b < 2 ^ 31 - 1 ->
  let elapsed := (nHeight b + 1) mod Period ck in
  let count := signals (Z.to_nat elapsed) p in
  GetStateStatisticsFor H ck (Some p) =
    if nHeight b + 1 <? Period ck then Undef "null pointer"
    else Ok (mkStats (Period ck) (Threshold ck) elapsed count (elapsed - count <=? Period ck - Threshold ck)).
Proof.
  intros Hp Hh elapsed count. unfold GetStateStatisticsFor. rewrite (period_start_ok (Some p)) by (intros ? [= <-]; by exists b).
  unfold period_end. cbn [mbind option_bind outcome_bind]. rewrite Hp. cbn [mbind option_bind]. fold elapsed. pose proof (bo_height _ _ _ (HI p b Hp)) as Hb.
  pose proof (Z.mod_pos_bound (nHeight b + 1) (Period ck) HP) as Hm. fold elapsed in Hm.
  destruct (Z.ltb_spec (nHeight b + 1) (Period ck)) as [Hlt|Hge].
  - assert (elapsed = nHeight b + 1) as -> by (apply Z.mod_small; lia). by rewrite (ancestor_none H p b) by (done || lia).
  - assert (elapsed <= nHeight b) as Hle by lia. destruct (ancestor_some H HI p b (nHeight b - elapsed) Hp) as (q & c & -> & Hc & Hch); [lia|].
    cbn [arrow mbind outcome_bind]. unfold deref. rewrite Hc, Hp. cbn [mbind outcome_bind]. rewrite Hch.
    replace (nHeight b - (nHeight b - elapsed)) with elapsed by lia.
    pose proof (stats_loop_ok (Z.to_nat elapsed) (S (Z.to_nat elapsed)) p b 0 Hp ltac:(lia) ltac:(lia)) as E. rewrite Z2Nat.id in E by lia. rewrite E. done.
Qed.
End Bip9.

(** ** More blocks *)
Section Grow.
Context (H H' : Index) (ck : Checker) (HI : index_ok H) (HE : H ⊆ H').

Lemma signals_extend n p b : H !! p = Some b -> signals H' ck n p = signals H ck n p.
Proof.
  revert p b. induction n as [|n IH]; intros p b Hp; [done|]. cbn [signals]. rewrite (lookup_weaken _ _ _ _ Hp HE), Hp. f_equal.
  pose proof (bo_prev _ _ _ (HI p b Hp)) as Hprev. destruct (pprev b) as [q|]; [|done]. destruct Hprev as (c & Hc & _). by apply (IH q c).
Qed.
Lemma bip9_extend n : forall k, (forall p, k = Some p -> is_Some (H !! p)) -> bip9 H' ck n k = bip9 H ck n k.
Proof.
  induction n as [|n IH]; intros k Hk; [done|]. destruct k as [p|]; [|done]. destruct (Hk p eq_refl) as [b Hp]. cbn [bip9].
  assert (prev_period H' ck p = prev_period H ck p) as ->.
  { unfold prev_period. rewrite (lookup_weaken _ _ _ _ Hp HE), Hp. cbn. by apply (ancestor_extend H H' HI HE p b). }
  rewrite IH.
  - unfold bip9_step. by rewrite (mtp_extend H H' HI HE p b Hp), (signals_extend _ p b Hp).
  - intros q Hq. unfold prev_period in Hq. rewrite Hp in Hq. cbn in Hq. destruct (ancestor_inv H HI _ _ _ Hq) as (? & c & _ & Hc & _). by exists c.
Qed.
Lemma vb_cache_extend c : vb_cache_ok H ck c -> vb_cache_ok H' ck c.
Proof.
  intros Hc k s E. destruct (Hc k s E) as [Hb ->]. assert (forall p, k = Some p -> exists b, H !! p = Some b) as Hk.
  { intros p ->. destruct Hb as (b & Hp & _). by exists b. }
  split.
  - destruct k as [p|]; [|done]. destruct Hb as (b & Hp & Hm). exists b. split; [|done]. by apply (lookup_weaken _ _ _ _ Hp HE).
  - unfold bip9_state. rewrite bip9_extend by done. f_equal. unfold periods. destruct k as [p|]; [|done]. cbn. destruct (Hk p eq_refl) as [b Hp]. by rewrite (lookup_weaken _ _ _ _ Hp HE), Hp.
Qed.
End Grow.

(** ** Claims *)

(** A deployment with periods of one block, over the toy chain. *)
Definition toy_checker : Checker := mkChecker (fun b => nVersion b =? 4) 105 1000 1 1.
Lemma toy_times : times_ok (heap toy_tree).
Proof.
  destruct (ProcessNewBlockHeaders_ok toy_hash (toy_hash toy_genesis) toy_params toy_headers empty_tree empty_tree_ok) as (r & t' & E & Ht & _);
    [by intros p b Hp|done|done|apply toy_headers_ok|]. unfold toy_tree. rewrite E. apply Ht.
Qed.
Lemma empty_vb_cache H ck : vb_cache_ok H ck ∅.
Proof. by intros k s E. Qed.
Lemma toy_a3_room : forall p, Some (toy_at toy_a3) = Some p -> room_above (heap toy_tree) p.
Proof.
  intros p Ep. apply (inj Some) in Ep. rewrite <- Ep. destruct toy_a3_in as [b Hb]. exists b. split; [exact Hb|].
  assert (nHeight <$> heap toy_tree !! toy_at toy_a3 = Some 3) as E by (vm_compute; reflexivity). rewrite Hb in E. apply (inj Some) in E. rewrite E. reflexivity.
Qed.

(** C17: [GetStateFor], with its cache, its walk back to the last known state and the shortcut for blocks before the
    start time, returns the state that BIP 9 defines by recursion over the
    periods, from any cache filled by earlier calls, and leaves such a cache, which
    stays right when blocks are added to the index. *)
Theorem versionbits_exact (H : Index) (ck : Checker) (k : option ptr) (c : ThresholdConditionCache) :
  index_ok H -> times_ok H -> 0 < Period ck -> BeginTime ck <= EndTime ck -> (forall p, k = Some p -> room_above H p) -> vb_cache_ok H ck c ->
  exists c', GetStateFor H ck k c = (Ok (bip9_state H ck (period_end H ck k)), c') /\ vb_cache_ok H ck c' /\
    forall H', H ⊆ H' -> vb_cache_ok H' ck c'.
Proof.
  intros HI HT HP HB Hk Hc. destruct (GetStateFor_ok H ck HI HT HP HB k c Hk Hc) as (c' & E & Hc'). exists c'. split; [done|]. split; [done|].
  intros H' HE. by apply (vb_cache_extend H).
Qed.
Lemma versionbits_exact_witness : exists c', GetStateFor (heap toy_tree) toy_checker (Some (toy_at toy_a3)) ∅ = (Ok THRESHOLD_ACTIVE, c') /\ vb_cache_ok (heap toy_tree) toy_checker c'.
Proof.
  destruct (versionbits_exact (heap toy_tree) toy_checker (Some (toy_at toy_a3)) ∅ toy_index toy_times eq_refl) as (c' & E & Hc & _).
  - vm_compute. discriminate.
  - exact toy_a3_room.
  - apply empty_vb_cache.
  - exists c'. split; [|exact Hc]. rewrite E.
    assert (bip9_state (heap toy_tree) toy_checker (period_end (heap toy_tree) toy_checker (Some (toy_at toy_a3))) = THRESHOLD_ACTIVE) as -> by (vm_compute; reflexivity). reflexivity.
Defined.

(** C26: A deployment is active for a block exactly when a full period before its own ended with enough signals while
    the deployment was started and not timed out: lock-in always leads to activation
    one period later and for good, and nothing else does. *)
Theorem activation_exact (H : Index) (ck : Checker) (k : option ptr) (p : ptr) (c : ThresholdConditionCache) :
  index_ok H -> times_ok H -> 0 < Period ck -> BeginTime ck <= EndTime ck -> (forall p, k = Some p -> room_above H p) -> vb_cache_ok H ck c ->
  period_end H ck k = Some p ->
  exists s c', GetStateFor H ck k c = (Ok s, c') /\ (s = THRESHOLD_ACTIVE <-> exists n q, back H ck (S n) p = Some q /\ locks_in H ck q).
Proof.
  intros HI HT HP HB Hk Hc Hp. destruct (GetStateFor_ok H ck HI HT HP HB k c Hk Hc) as (c' & E & _). exists (bip9_state H ck (Some p)), c'. rewrite Hp in E. split; [done|].
  apply active_iff; [done|done|]. rewrite <- Hp. apply period_end_boundary; [done|done|]. intros q Hq. destruct (Hk q Hq) as (b & Hb & _). by exists b.
Qed.
Lemma activation_exact_witness : exists c' n q, GetStateFor (heap toy_tree) toy_checker (Some (toy_at toy_a3)) ∅ = (Ok THRESHOLD_ACTIVE, c') /\
  back (heap toy_tree) toy_checker (S n) (toy_at toy_a3) = Some q /\ locks_in (heap toy_tree) toy_checker q.
Proof.
  destruct (activation_exact (heap toy_tree) toy_checker (Some (toy_at toy_a3)) (toy_at toy_a3) ∅ toy_index toy_times eq_refl) as (s & c' & E & Hiff).
  - vm_compute. discriminate.
  - exact toy_a3_room.
  - apply empty_vb_cache.
  - vm_compute. reflexivity.
  - assert (fst (GetStateFor (heap toy_tree) toy_checker (Some (toy_at toy_a3)) ∅) = Ok THRESHOLD_ACTIVE) as Hs by (vm_compute; reflexivity).
    rewrite E in Hs. cbn [fst] in Hs. injection Hs as Hs. destruct (proj1 Hiff Hs) as (n & q & Hq & Hl). exists c', n, q. rewrite E, Hs. split; [reflexivity|]. split; [exact Hq|exact Hl].
Defined.

(** [GetStateSinceHeightFor] returns the height of the first block for which the deployment is in its present
    state without a break: all periods from there end in that state and the one
    before does not; 0 for a deployment that is merely defined. *)
Theorem since_height_exact (H : Index) (ck : Checker) (k : option ptr) (c : ThresholdConditionCache) :
  index_ok H -> times_ok H -> 0 < Period ck -> BeginTime ck <= EndTime ck -> (forall p, k = Some p -> room_above H p) -> vb_cache_ok H ck c ->
  exists n c', GetStateSinceHeightFor H ck k c = (Ok n, c') /\ vb_cache_ok H ck c' /\
    let s := bip9_state H ck (period_end H ck k) in
    if decide (s = THRESHOLD_DEFINED) then n = 0
    else exists p r b, period_end H ck k = Some p /\ run H ck s p r /\ H !! r = Some b /\ n = nHeight b + 1 /\
      forall q, prev_period H ck r = Some q -> bip9_state H ck (Some q) <> s.
Proof. intros HI HT HP HB Hk Hc. by apply GetStateSinceHeightFor_ok. Qed.
Lemma since_height_exact_witness : exists c', GetStateSinceHeightFor (heap toy_tree) toy_checker (Some (toy_at toy_a3)) ∅ = (Ok 4, c') /\ vb_cache_ok (heap toy_tree) toy_checker c'.
Proof.
  destruct (since_height_exact (heap toy_tree) toy_checker (Some (toy_at toy_a3)) ∅ toy_index toy_times eq_refl) as (n & c' & E & Hc & _).
  - vm_compute. discriminate.
  - exact toy_a3_room.
  - apply empty_vb_cache.
  - assert (fst (GetStateSinceHeightFor (heap toy_tree) toy_checker (Some (toy_at toy_a3)) ∅) = Ok 4) as Hs by (vm_compute; reflexivity).
    rewrite E in Hs. cbn [fst] in Hs. exists c'. rewrite E, Hs. split; [reflexivity|exact Hc].
Defined.

(** The statistics of a running period are exact (blocks elapsed, blocks that signalled, whether the threshold
    can still be met) from the second period on; in the first period the code
    follows a null pointer. *)
Theorem statistics_exact (H : Index) (ck : Checker) (p : ptr) (b : CBlockIndex) :
  index_ok H -> 0 < Period ck -> H !! p = Some b -> nHeight b < 2 ^ 31 - 1 ->
  let elapsed := (nHeight b + 1) mod Period ck in
  let count := signals H ck (Z.to_nat elapsed) p in
  GetStateStatisticsFor H ck (Some p) =
    if nHeight b + 1 <? Period ck then Undef "null pointer"
    else Ok (mkStats (Period ck) (Threshold ck) elapsed count (elapsed - count <=? Period ck - Threshold ck)).
Proof. intros HI HP Hp Hh. by apply GetStateStatisticsFor_ok. Qed.
Lemma statistics_exact_witness :
  GetStateStatisticsFor (heap toy_tree) (mkChecker (fun b => nVersion b =? 4) 105 1000 2 2) (Some (toy_at toy_b2)) = Ok (mkStats 2 2 1 1 true) /\
  GetStateStatisticsFor (heap toy_tree) (mkChecker (fun b => nVersion b =? 4) 105 1000 100 2) (Some (toy_at toy_b2)) = Undef "null pointer".
Proof.
  destruct toy_b2_in as (b & Hb & Hh). split.
  - rewrite (statistics_exact (heap toy_tree) (mkChecker (fun b => nVersion b =? 4) 105 1000 2 2) (toy_at toy_b2) b toy_index eq_refl Hb) by (rewrite Hh; reflexivity).
    rewrite Hh. vm_compute. reflexivity.
  - rewrite (statistics_exact (heap toy_tree) (mkChecker (fun b => nVersion b =? 4) 105 1000 100 2) (toy_at toy_b2) b toy_index eq_refl Hb) by (rewrite Hh; reflexivity).
    rewrite Hh. reflexivity.
Defined.
