(* ===== verification/Merkle.v ===== *)
(** * Merkle trees of blocks

    Model of [src/src/consensus/merkle.cpp]: the constant-space computation of the
    root and of the branch of a leaf, and the check of a branch.  The hash of two
    concatenated hashes ([CHash256]) is an argument; a hash is its bytes. *)

From S2P Require Import Prelude.

Section Merkle.
Context (Hash2 : bytes -> bytes -> bytes).
Definition null256 : bytes := replicate 32 0.

(** [!(count & (((uint32_t)1) << level))] *)
Definition bit_clear (count level : Z) : bool := Z.land count (u32 (Z.shiftl 1 level)) =? 0.
Definition inner_at (inner : list bytes) (level : Z) : bytes := nth (Z.to_nat level) inner null256.

(** What the loops change *)
Record Walk := mkWalk { w_level : Z; w_h : bytes; w_match : bool; w_branch : list bytes; w_mutated : bool }.

(** The loop that combines [h] with the inner values below a clear bit of
    [count].  It is written twice: while leaves are processed, equal values are
    noted ([noting]); in the final sweep they are not.  A shift by 32 has no
    defined value. *)
Fixpoint combine (fuel : nat) (noting pbranch : bool) (inner : list bytes) (matchlevel count : Z) (w : Walk) : outcome Walk :=
  if 32 <=? w_level w then Undef "shift by 32"
  else if bit_clear count (w_level w) then
    match fuel with
    | O => Diverge
    | S fuel =>
      let i := inner_at inner (w_level w) in
      let left := (w_level w =? matchlevel) in
      combine fuel noting pbranch inner matchlevel count
        (mkWalk (w_level w + 1) (Hash2 i (w_h w)) (w_match w || (pbranch && left))
           (if pbranch then if w_match w then w_branch w ++ [i] else if left then w_branch w ++ [w_h w] else w_branch w else w_branch w)
           (w_mutated w || (noting && bool_decide (i = w_h w))))
    end
  else Ok w.

(** The leaves are processed into [inner]. *)
Record Merkle := mkMerkle { m_inner : list bytes; m_count : Z; m_matchlevel : Z; m_branch : list bytes; m_mutated : bool }.
Definition add_leaf (pbranch : bool) (branchpos : Z) (leaf : bytes) (m : Merkle) : outcome Merkle :=
  let matchh := m_count m =? branchpos in
  let count := u32 (m_count m + 1) in
  w ← combine 32 true pbranch (m_inner m) (m_matchlevel m) count (mkWalk 0 leaf matchh (m_branch m) (m_mutated m));
  Ok (mkMerkle (<[Z.to_nat (w_level w) := w_h w]> (m_inner m)) count (if w_match w then w_level w else m_matchlevel m) (w_branch w) (w_mutated w)).
Fixpoint add_leaves (pbranch : bool) (branchpos : Z) (leaves : list bytes) (m : Merkle) : outcome Merkle :=
  match leaves with
  | [] => Ok m
  | leaf :: leaves => m ← add_leaf pbranch branchpos leaf m; add_leaves pbranch branchpos leaves m
  end.

(** The final sweep over the rightmost branch *)
Fixpoint skip_clear (fuel : nat) (count level : Z) : outcome Z :=
  if 32 <=? level then Undef "shift by 32"
  else if bit_clear count level then match fuel with O => Diverge | S fuel => skip_clear fuel count (level + 1) end
  else Ok level.
Fixpoint sweep (fuel : nat) (pbranch : bool) (inner : list bytes) (matchlevel count : Z) (w : Walk) : outcome Walk :=
  if 32 <=? w_level w then Undef "shift by 32"
  else if count =? u32 (Z.shiftl 1 (w_level w)) then Ok w
  else
    match fuel with
    | O => Diverge
    | S fuel =>
      let branch := if pbranch && w_match w then w_branch w ++ [w_h w] else w_branch w in
      let count := u32 (count + u32 (Z.shiftl 1 (w_level w))) in
      w ← combine 32 false pbranch inner matchlevel count (mkWalk (w_level w + 1) (Hash2 (w_h w) (w_h w)) (w_match w) branch (w_mutated w));
      sweep fuel pbranch inner matchlevel count w
    end.

(** [MerkleComputation(leaves, proot, pmutated, branchpos, pbranch)]: the root,
    whether the list was found mutated, the branch *)
Definition MerkleComputation (leaves : list bytes) (branchpos : Z) (pbranch : bool) : outcome (bytes * bool * list bytes) :=
  match leaves with
  | [] => Ok (null256, false, [])
  | _ =>
    m ← add_leaves pbranch branchpos leaves (mkMerkle (replicate 32 null256) 0 (-1) [] false);
    level ← skip_clear 32 (m_count m) 0;
    w ← sweep 32 pbranch (m_inner m) (m_matchlevel m) (m_count m)
          (mkWalk level (inner_at (m_inner m) level) (m_matchlevel m =? level) (m_branch m) (m_mutated m));
    Ok (w_h w, m_mutated m, w_branch w)
  end.

Definition ComputeMerkleRoot (leaves : list bytes) : outcome (bytes * bool) :=
  r ← MerkleComputation leaves (2 ^ 32 - 1) false; Ok (fst (fst r), snd (fst r)).
Definition ComputeMerkleBranch (leaves : list bytes) (position : Z) : outcome (list bytes) :=
  r ← MerkleComputation leaves position true; Ok (snd r).

(** [ComputeMerkleRootFromBranch(leaf, vMerkleBranch, nIndex)] *)
Fixpoint ComputeMerkleRootFromBranch (hash : bytes) (vMerkleBranch : list bytes) (nIndex : Z) : bytes :=
  match vMerkleBranch with
  | [] => hash
  | it :: vMerkleBranch =>
    ComputeMerkleRootFromBranch (if negb (Z.land nIndex 1 =? 0) then Hash2 it hash else Hash2 hash it) vMerkleBranch (Z.shiftr nIndex 1)
  end.

(** [BlockMerkleRoot(block)], [BlockWitnessMerkleRoot(block)] and
    [BlockMerkleBranch(block, position)], from the hashes of the transactions *)
Definition BlockMerkleRoot (txids : list bytes) : outcome (bytes * bool) := ComputeMerkleRoot txids.
Definition BlockWitnessMerkleRoot (wtxids : list bytes) : outcome (bytes * bool) :=
  match wtxids with [] => Undef "leaves[0]" | _ :: l => ComputeMerkleRoot (null256 :: l) end.
Definition BlockMerkleBranch (txids : list bytes) (position : Z) : outcome (list bytes) := ComputeMerkleBranch txids position.
End Merkle.
