(* ===== verification/MerkleThms.v ===== *)
(** * The Merkle computation against the tree

    [root d l] is the root of the tree of depth [d] over the leaves [l], in which a
    missing right half is a copy of the left one.  The constant-space loop computes
    it, the branches it collects lead to it, and lists in which it finds no equal
    siblings are told apart by it. *)

From S2P Require Import Prelude Merkle.
From Stdlib Require Import ZifyBool.

Section Tree.
Context (Hash2 : bytes -> bytes -> bytes).
Local Open Scope nat_scope.

Fixpoint root (d : nat) (l : list bytes) : bytes :=
  match d with
  | O => hd null256 l
  | S d => if length l <=? 2 ^ d then Hash2 (root d l) (root d l) else Hash2 (root d (take (2 ^ d) l)) (root d (drop (2 ^ d) l))
  end.
Definition depth (l : list bytes) : nat := Nat.log2_up (length l).

(** The same, level by level: pairs are combined, an odd end with itself. *)
Fixpoint pairs (l : list bytes) : list bytes :=
  match l with a :: b :: l => Hash2 a b :: pairs l | [a] => [Hash2 a a] | [] => [] end.
Fixpoint levels (d : nat) (l : list bytes) : bytes := match d with O => hd null256 l | S d => levels d (pairs l) end.

Lemma pow2_pos d : 0 < 2 ^ d.
Proof. apply Nat.neq_0_lt_0, Nat.pow_nonzero. lia. Qed.
Lemma pow2_S d : 2 ^ S d = 2 * 2 ^ d.
Proof. apply Nat.pow_succ_r'. Qed.

Lemma two_step_ind (P : list bytes -> Prop) : P [] -> (forall a, P [a]) -> (forall a b l, P l -> P (a :: b :: l)) -> forall l, P l.
Proof.
  intros H0 H1 H2. assert (forall l, P l /\ forall a, P (a :: l)) as H; [|intros l; apply H].
  induction l as [|b l [IH1 IH2]]; [by split|]. split; [apply IH2|]. intros a. by apply H2.
Qed.
Lemma length_pairs l : length (pairs l) = Nat.div2 (S (length l)).
Proof. induction l as [|a|a b l IH] using two_step_ind; [done|done|]. cbn in *. by rewrite IH. Qed.
Lemma pairs_take n : forall l, pairs (take (2 * n) l) = take n (pairs l).
Proof.
  induction n as [|n IH]; intros l; [done|]. replace (2 * S n) with (S (S (2 * n))) by lia.
  destruct l as [|a [|b l]]; cbn -[Nat.mul]; [done|by rewrite take_nil|]. by rewrite IH.
Qed.
Lemma pairs_drop n : forall l, pairs (drop (2 * n) l) = drop n (pairs l).
Proof.
  induction n as [|n IH]; intros l; [done|]. replace (2 * S n) with (S (S (2 * n))) by lia.
  destruct l as [|a [|b l]]; cbn -[Nat.mul]; [done|by rewrite !drop_nil|]. by rewrite IH.
Qed.
(** One level at the bottom is one level of the tree. *)
Lemma root_pairs d : forall l, l <> [] -> length l <= 2 ^ S d -> root (S d) l = root d (pairs l).
Proof.
  induction d as [|d IH]; intros l Hl Hd.
  - destruct l as [|a [|b [|c l]]]; cbn in *; [done|done|done|lia].
  - rewrite pow2_S in Hd. cbn [root] in IH |- *. rewrite length_pairs.
    assert (length l <= 2 ^ S d <-> Nat.div2 (S (length l)) <= 2 ^ d) as Hiff.
    { rewrite pow2_S, Nat.div2_div. pose proof (Nat.div_mod (S (length l)) 2 ltac:(lia)). pose proof (Nat.mod_upper_bound (S (length l)) 2). lia. }
    destruct (Nat.leb_spec (length l) (2 ^ S d)) as [Hle|Hgt].
    + replace (Nat.div2 (S (length l)) <=? 2 ^ d) with true by (symmetry; apply Nat.leb_le; lia). f_equal; by apply IH.
    + replace (Nat.div2 (S (length l)) <=? 2 ^ d) with false by (symmetry; apply Nat.leb_gt; lia).
      rewrite <- pairs_take, <- pairs_drop, <- pow2_S. pose proof (pow2_pos (S d)). f_equal; apply IH.
      * intros E. apply (f_equal length) in E. rewrite length_take in E. cbn [length] in E. lia.
      * rewrite length_take. lia.
      * intros E. apply (f_equal length) in E. rewrite length_drop in E. cbn [length] in E. lia.
      * rewrite length_drop. lia.
Qed.
Lemma root_levels d : forall l, l <> [] -> length l <= 2 ^ d -> root d l = levels d l.
Proof.
  induction d as [|d IH]; intros l Hl Hd; [done|]. rewrite root_pairs by done. apply IH.
  - by destruct l as [|a [|b l]].
  - rewrite length_pairs, Nat.div2_div. rewrite pow2_S in Hd. pose proof (Nat.div_mod (S (length l)) 2 ltac:(lia)). lia.
Qed.

(** ** Positions *)

(** The block of [2 ^ k] leaves that ends where the bits of [s] below [k] are
    cleared. *)
Definition seg_start (s k : nat) : nat := (s / 2 ^ k - 1) * 2 ^ k.
Definition has_bit (s k : nat) : bool := Nat.odd (s / 2 ^ k).

Lemma div_pow q L k : L <= k -> q * 2 ^ L / 2 ^ k = q / 2 ^ (k - L).
Proof.
  intros Hk. replace (2 ^ k) with (2 ^ L * 2 ^ (k - L)) by (rewrite <- Nat.pow_add_r; f_equal; lia).
  rewrite <- Nat.Div0.div_div, Nat.div_mul by (pose proof (pow2_pos L); lia). done.
Qed.
Lemma low_bit_clear q L k : k < L -> has_bit (q * 2 ^ L) k = false.
Proof.
  intros Hk. unfold has_bit. replace (q * 2 ^ L) with (q * 2 ^ (L - k) * 2 ^ k) by (rewrite <- Nat.mul_assoc, <- Nat.pow_add_r; do 2 f_equal; lia).
  rewrite Nat.div_mul by (pose proof (pow2_pos k); lia). destruct (L - k) as [|j] eqn:E; [lia|]. rewrite pow2_S, Nat.mul_assoc, (Nat.mul_comm q 2), <- Nat.mul_assoc, Nat.odd_mul. done.
Qed.
Lemma bit_here q L : has_bit (q * 2 ^ L) L = Nat.odd q.
Proof. unfold has_bit. by rewrite Nat.div_mul by (pose proof (pow2_pos L); lia). Qed.
(** Clearing the lowest bit keeps the others, and so does filling the lowest
    clear one. *)
Lemma div_high q L k : L < k -> Nat.odd q = true -> (q - 1) * 2 ^ L / 2 ^ k = q * 2 ^ L / 2 ^ k.
Proof.
  intros Hk Hq. rewrite !div_pow by lia. destruct (k - L) as [|j] eqn:E; [lia|]. rewrite pow2_S, <- !Nat.Div0.div_div.
  apply Nat.odd_spec in Hq as [r ->]. f_equal. replace (2 * r + 1 - 1) with (r * 2) by lia. rewrite Nat.div_mul by lia.
  apply (Nat.div_unique _ 2 r 1); lia.
Qed.
Lemma div_high_up q L k : L < k -> Nat.odd q = false -> (q + 1) * 2 ^ L / 2 ^ k = q * 2 ^ L / 2 ^ k.
Proof.
  intros Hk Hq. rewrite <- (div_high (q + 1)) by (lia || by rewrite Nat.add_1_r, Nat.odd_succ, <- Nat.negb_odd, Hq). f_equal. lia.
Qed.

Lemma Zodd_of_nat n : Z.odd (Z.of_nat n) = Nat.odd n.
Proof. induction n as [|n IH]; [done|]. by rewrite Nat2Z.inj_succ, Z.odd_succ, <- Z.negb_odd, IH, Nat.odd_succ, <- Nat.negb_odd. Qed.
(** A bit of [count] is tested as in the source. *)
Lemma bit_clear_ok c L : L < 32 -> bit_clear (Z.of_nat c) (Z.of_nat L) = negb (has_bit c L).
Proof.
  intros HL. unfold bit_clear, has_bit. rewrite Z.shiftl_1_l, wrap_small.
  2:{ unfold in_range. split; [apply Z.pow_nonneg; lia|]. apply Z.pow_lt_mono_r; lia. }
  assert (Z.testbit (Z.of_nat c) (Z.of_nat L) = Nat.odd (c / 2 ^ L)) as <-.
  { rewrite Z.testbit_odd, Z.shiftr_div_pow2 by lia. rewrite <- Zodd_of_nat. by rewrite Nat2Z.inj_div, Nat2Z.inj_pow. }
  destruct (Z.testbit (Z.of_nat c) (Z.of_nat L)) eqn:E; cbn [negb].
  - apply Z.eqb_neq. intros Hz. assert (Z.testbit (Z.land (Z.of_nat c) (2 ^ Z.of_nat L)) (Z.of_nat L) = false) as Hf by (by rewrite Hz, Z.bits_0).
    rewrite Z.land_spec, E, Z.pow2_bits_true in Hf by lia. done.
  - apply Z.eqb_eq, Z.bits_inj'. intros n Hn. rewrite Z.land_spec, Z.bits_0. destruct (Z.eq_dec n (Z.of_nat L)) as [->|Hne]; [by rewrite E|].
    rewrite Z.pow2_bits_false by lia. apply andb_false_r.
Qed.

(** ** The loop that combines *)
Section Leaves.
Context (pos : nat) (leaf : bytes).

(** Each bit of [s] has its block's root in [inner]. *)
Definition holds (xs inner : list bytes) (s : nat) : Prop :=
  forall k, has_bit s k = true -> nth k inner null256 = root k (take (2 ^ k) (drop (seg_start s k) xs)).
Definition in_seg (s k : nat) : Prop := seg_start s k <= pos < seg_start s k + 2 ^ k.
(** The block with the leaf is the one at [matchlevel], and the branch leads to its root. *)
Definition tracked (inner : list bytes) (s : nat) (ml : Z) (branch : list bytes) : Prop :=
  forall k, has_bit s k = true -> (in_seg s k <-> ml = Z.of_nat k) /\
    (in_seg s k -> length branch = k /\ ComputeMerkleRootFromBranch Hash2 leaf branch (Z.of_nat pos) = nth k inner null256).
Definition carried (xs : list bytes) (s : nat) (w : Walk) : Prop :=
  (w_match w = true <-> s <= pos < length xs) /\
  (w_match w = true -> Z.of_nat (length (w_branch w)) = w_level w /\ ComputeMerkleRootFromBranch Hash2 leaf (w_branch w) (Z.of_nat pos) = w_h w).
(** Two full blocks side by side have the same root. *)
Definition twin (xs : list bytes) (L s : nat) : Prop :=
  root L (take (2 ^ L) (drop s xs)) = root L (take (2 ^ L) (drop (s + 2 ^ L) xs)).

Lemma from_branch_app h bs b (i : nat) : ComputeMerkleRootFromBranch Hash2 h (bs ++ [b]) (Z.of_nat i) =
  let x := ComputeMerkleRootFromBranch Hash2 h bs (Z.of_nat i) in if has_bit i (length bs) then Hash2 b x else Hash2 x b.
Proof.
  revert h i. induction bs as [|c bs IH]; intros h i; cbn [ComputeMerkleRootFromBranch app length].
  - unfold has_bit. cbn [Nat.pow]. rewrite Nat.div_1_r. replace (negb (Z.land (Z.of_nat i) 1 =? 0)%Z) with (Nat.odd i); [done|].
    pose proof (bit_clear_ok i 0 ltac:(lia)) as E. unfold bit_clear, has_bit in E. cbn [Nat.pow] in E. rewrite Nat.div_1_r in E.
    change (wrap 32 (Z.shiftl 1 (Z.of_nat 0))) with 1%Z in E. rewrite E. by rewrite negb_involutive.
  - assert (Z.shiftr (Z.of_nat i) 1 = Z.of_nat (i / 2)) as -> by (rewrite Z.shiftr_div_pow2 by lia; by rewrite Nat2Z.inj_div).
    rewrite IH. unfold has_bit. rewrite pow2_S, <- Nat.Div0.div_div. done.
Qed.

(** A node of the tree over a full left block. *)
Lemma root_combine xs L q : Nat.odd q = true -> q * 2 ^ L < length xs -> length xs <= q * 2 ^ L + 2 ^ L ->
  root (S L) (drop ((q - 1) * 2 ^ L) xs) = Hash2 (root L (take (2 ^ L) (drop (seg_start (q * 2 ^ L) L) xs))) (root L (drop (q * 2 ^ L) xs)).
Proof.
  intros Hq Hlt Hle. pose proof (pow2_pos L). assert (1 <= q) as H1 by (destruct q; [done|lia]).
  assert ((q - 1) * 2 ^ L + 2 ^ L = q * 2 ^ L) as Hs by nia.
  unfold seg_start. rewrite Nat.div_mul by lia. cbn [root]. rewrite length_drop. replace (length xs - (q - 1) * 2 ^ L <=? 2 ^ L) with false by (symmetry; apply Nat.leb_gt; lia).
  by rewrite drop_drop, Hs.
Qed.
(** The bits that are left when the lowest is cleared. *)
Lemma bit_left q L k : Nat.odd q = true -> has_bit ((q - 1) * 2 ^ L) k = true ->
  has_bit (q * 2 ^ L) k = true /\ seg_start ((q - 1) * 2 ^ L) k = seg_start (q * 2 ^ L) k.
Proof.
  intros Hq Hk. destruct (Nat.le_gt_cases k L) as [Hle|Hgt].
  - exfalso. apply Nat.odd_spec in Hq as [r ->]. replace ((2 * r + 1 - 1) * 2 ^ L) with (r * 2 ^ S L) in Hk by (rewrite pow2_S; lia). by rewrite low_bit_clear in Hk by lia.
  - unfold has_bit, seg_start in *. by rewrite (div_high q L k Hgt Hq) in *.
Qed.
Lemma holds_down xs inner q L : Nat.odd q = true -> holds xs inner (q * 2 ^ L) -> holds xs inner ((q - 1) * 2 ^ L).
Proof. intros Hq Hh k Hk. destruct (bit_left q L k Hq Hk) as [Hk' ->]. by apply Hh. Qed.
Lemma pos_bit q L : (q * 2 ^ L <= pos < q * 2 ^ L + 2 ^ L) -> has_bit pos L = Nat.odd q.
Proof. intros Hp. unfold has_bit. f_equal. symmetry. apply (Nat.div_unique pos (2 ^ L) q (pos - q * 2 ^ L)); lia. Qed.

Lemma seg_end s k : has_bit s k = true -> seg_start s k + 2 ^ k <= s.
Proof.
  intros Hk. unfold has_bit, seg_start in *. pose proof (pow2_pos k). pose proof (Nat.Div0.mul_div_le s (2 ^ k)).
  destruct (s / 2 ^ k) as [|m]; [done|]. nia.
Qed.
Lemma tracked_down inner q L ml branch branch' : Nat.odd q = true -> tracked inner (q * 2 ^ L) ml branch ->
  (forall k, has_bit ((q - 1) * 2 ^ L) k = true -> in_seg ((q - 1) * 2 ^ L) k -> branch' = branch) -> tracked inner ((q - 1) * 2 ^ L) ml branch'.
Proof.
  intros Hq Ht Hb k Hk. pose proof (Hb k Hk) as Hbk. destruct (bit_left q L k Hq Hk) as [Hk' Es]. unfold in_seg in *. rewrite Es in *.
  destruct (Ht k Hk') as [T1 T2]. split; [done|]. intros Hs. rewrite (Hbk Hs). by apply T2.
Qed.

(** One turn of the loop keeps what the branch says. *)
Definition pushed (i : bytes) (left : bool) (w : Walk) : list bytes :=
  if w_match w then w_branch w ++ [i] else if left then w_branch w ++ [w_h w] else w_branch w.
Lemma carried_step xs inner q L ml w m : Nat.odd q = true -> q * 2 ^ L < length xs <= q * 2 ^ L + 2 ^ L ->
  tracked inner (q * 2 ^ L) ml (w_branch w) -> carried xs (q * 2 ^ L) w -> w_level w = Z.of_nat L ->
  let i := nth L inner null256 in
  let w' := mkWalk (Z.of_nat L + 1) (Hash2 i (w_h w)) (w_match w || (Z.of_nat L =? ml)%Z) (pushed i (Z.of_nat L =? ml)%Z w) m in
  carried xs ((q - 1) * 2 ^ L) w' /\ tracked inner ((q - 1) * 2 ^ L) ml (w_branch w').
Proof.
  intros Hq [Hlt Hle] Ht [C1 C2] Hl i w'. pose proof (pow2_pos L). assert (1 <= q) as H1 by (destruct q; [done|lia]).
  assert ((q - 1) * 2 ^ L + 2 ^ L = q * 2 ^ L) as Hs by nia.
  assert (has_bit (q * 2 ^ L) L = true) as Hb by (by rewrite bit_here). destruct (Ht L Hb) as [T1 T2].
  assert (seg_start (q * 2 ^ L) L = (q - 1) * 2 ^ L) as Hseg by (unfold seg_start; rewrite Nat.div_mul by lia; done).
  unfold in_seg in T1, T2. rewrite Hseg, Hs in T1, T2. fold i in T2.
  assert ((Z.of_nat L =? ml)%Z = true <-> (q - 1) * 2 ^ L <= pos < q * 2 ^ L) as Hml by (rewrite Z.eqb_eq, T1; split; congruence).
  split.
  - split; cbn [w' w_match w_branch w_level w_h].
    + rewrite orb_true_iff, C1, Hml. lia.
    + unfold pushed. destruct (w_match w) eqn:Em.
      * intros _. destruct (C2 eq_refl) as [L1 F1]. rewrite length_app, from_branch_app. cbn [length]. split; [lia|]. cbv zeta. rewrite F1.
        assert (length (w_branch w) = L) as -> by lia. rewrite (pos_bit q L) by lia. by rewrite Hq.
      * destruct (Z.of_nat L =? ml)%Z eqn:E; [|done]. intros _. pose proof (proj1 Hml eq_refl) as Hp. destruct (T2 ltac:(lia)) as [L1 F1].
        rewrite length_app, from_branch_app. cbn [length]. split; [lia|]. cbv zeta. rewrite F1, L1. rewrite (pos_bit (q - 1) L) by lia.
        replace (Nat.odd (q - 1)) with false; [done|]. destruct q as [|q']; [lia|]. rewrite Nat.odd_succ in Hq. replace (S q' - 1) with q' by lia. by rewrite <- Nat.negb_even, Hq.
  - apply (tracked_down inner q L ml (w_branch w)); [done|done|]. intros k Hk Hin. cbn [w' w_branch]. unfold pushed. pose proof (seg_end _ _ Hk) as Hend. unfold in_seg in Hin.
    destruct (w_match w); [assert (q * 2 ^ L <= pos) by (apply C1; done); lia|]. destruct (Z.of_nat L =? ml)%Z eqn:E; [|done]. pose proof (proj1 Hml eq_refl). lia.
Qed.

Lemma combine_ok noting pbranch xs inner ml : forall fuel q L w, holds xs inner (q * 2 ^ L) -> q * 2 ^ L < length xs <= q * 2 ^ L + 2 ^ L ->
  q * 2 ^ L + 2 ^ L <= 2 ^ 31 -> 32 <= fuel + L -> w_level w = Z.of_nat L -> w_h w = root L (drop (q * 2 ^ L) xs) ->
  (pbranch = true -> carried xs (q * 2 ^ L) w /\ tracked inner (q * 2 ^ L) ml (w_branch w)) ->
  exists q' L' w', combine Hash2 fuel noting pbranch inner ml (Z.of_nat (q * 2 ^ L + 2 ^ L)) w = Ok w' /\ w_level w' = Z.of_nat L' /\ Nat.odd q' = false /\ L <= L' <= 31 /\
    q' * 2 ^ L' + 2 ^ L' = q * 2 ^ L + 2 ^ L /\ q' * 2 ^ L' <= q * 2 ^ L /\ holds xs inner (q' * 2 ^ L') /\ w_h w' = root L' (drop (q' * 2 ^ L') xs) /\
    (pbranch = true -> carried xs (q' * 2 ^ L') w' /\ tracked inner (q' * 2 ^ L') ml (w_branch w') /\ (w_match w' = false -> w_match w = false /\ w_branch w' = w_branch w)) /\
    (w_mutated w' = true <-> w_mutated w = true \/ noting = true /\ exists k, L <= k < L' /\
      root k (take (2 ^ k) (drop (q * 2 ^ L + 2 ^ L - 2 ^ S k) xs)) = root k (drop (q * 2 ^ L + 2 ^ L - 2 ^ k) xs)).
Proof.
  induction fuel as [|fuel IH]; intros q L w Hh Hlen Hc Hf Hl Hr Hb; pose proof (pow2_pos L) as Hp.
  all: assert (L <= 31) as HL by (apply (Nat.pow_le_mono_r_iff 2); lia).
  1: lia.
  cbn [combine]. rewrite Hl. replace (32 <=? Z.of_nat L)%Z with false by lia.
  replace (q * 2 ^ L + 2 ^ L) with ((q + 1) * 2 ^ L) by lia. rewrite bit_clear_ok by lia. rewrite bit_here. rewrite Nat.add_1_r, Nat.odd_succ, <- Nat.negb_odd, negb_involutive.
  destruct (Nat.odd q) eqn:Hq.
  2:{ exists q, L, w. split; [done|]. split; [done|]. split; [done|]. split; [lia|]. split; [lia|]. split; [lia|]. split; [done|]. split; [done|]. split; [intros Hpb; by destruct (Hb Hpb)|].
      split; [by left|]. intros [|(_ & k & Hk & _)]; [done|lia]. }
  assert (1 <= q) as H1 by (destruct q; [done|lia]). set (i := inner_at inner (Z.of_nat L)).
  assert (i = nth L inner null256) as Hi by (unfold i, inner_at; by rewrite Nat2Z.id).
  assert (i = root L (take (2 ^ L) (drop (seg_start (q * 2 ^ L) L) xs))) as Hi' by (rewrite Hi; apply Hh; by rewrite bit_here).
  pose proof Hq as Hq'. apply Nat.odd_spec in Hq' as [r Er].
  assert (r * 2 ^ S L = (q - 1) * 2 ^ L) as Hrq by (rewrite pow2_S; subst q; replace (2 * r + 1 - 1) with (2 * r) by lia; lia).
  assert (r * 2 ^ S L + 2 ^ S L = S q * 2 ^ L) as Hrs by (rewrite pow2_S; subst q; lia).
  rewrite <- Hrs. match goal with |- context [combine Hash2 fuel noting pbranch inner ml _ ?x] => set (w1 := x) end.
  assert (2 ^ S L = 2 * 2 ^ L) as H2 by apply pow2_S.
  destruct (IH r (S L) w1) as (q' & L' & w' & E & El & Eo & EL & Es & Ele & Eh & Er' & Eb & Em).
  - rewrite Hrq. by apply holds_down.
  - rewrite Hrq. nia.
  - rewrite Hrs. lia.
  - lia.
  - cbn [w1 w_level]. lia.
  - cbn [w1 w_h]. rewrite Hrq, (root_combine xs L q Hq) by lia. by rewrite <- Hi', Hr.
  - intros Hpb. rewrite Hpb in *. destruct (Hb eq_refl) as [Hca Htr]. rewrite Hrq. unfold w1. rewrite Hi. rewrite Hpb. cbn [andb]. apply (carried_step xs inner q L ml w _ Hq Hlen Htr Hca Hl).
  - exists q', L', w'. split; [exact E|]. split; [done|]. split; [done|]. split; [lia|]. split; [lia|]. split; [nia|]. split; [done|]. split; [done|].
    split.
    { intros Hpb. destruct (Eb Hpb) as (B1 & B2 & B3). split; [done|]. split; [done|]. intros Ew. destruct (B3 Ew) as [B4 B5]. cbn [w1 w_match w_branch] in B4, B5.
      rewrite Hpb in B4, B5. cbn [andb] in B4. apply orb_false_iff in B4 as [B4 B6]. rewrite B4, B6 in B5. done. }
    rewrite Em. cbn [w1 w_mutated]. rewrite orb_true_iff, andb_true_iff, bool_decide_eq_true, Hrs.
    assert (seg_start (q * 2 ^ L) L = S q * 2 ^ L - 2 ^ S L) as Hseg by (unfold seg_start; rewrite Nat.div_mul by lia; nia).
    rewrite Hi', Hr, Hseg. replace (q * 2 ^ L) with (S q * 2 ^ L - 2 ^ L) at 1 by lia. split.
    + intros [[?|[? ?]]|(? & k & Hk & ?)]; [by left|right; split; [done|]; exists L; split; [lia|done]|right; split; [done|]; exists k; split; [lia|done]].
    + intros [?|(? & k & Hk & ?)]; [by left; left|]. destruct (Nat.eq_dec k L) as [->|]; [left; right; by split|right; split; [done|]; exists k; split; [lia|done]].
Qed.

(** ** Adding leaves *)

(** Somewhere two full siblings have the same root. *)
Definition twins (xs : list bytes) : Prop := exists L r, r * 2 ^ S L + 2 ^ S L <= length xs /\ twin xs L (r * 2 ^ S L).

Record added (pbranch : bool) (xs : list bytes) (m : Merkle) : Prop := {
  ad_count : m_count m = Z.of_nat (length xs);
  ad_inner : length (m_inner m) = 32;
  ad_holds : holds xs (m_inner m) (length xs);
  ad_tracked : pbranch = true -> tracked (m_inner m) (length xs) (m_matchlevel m) (m_branch m);
  ad_before : pbranch = true -> length xs <= pos -> m_branch m = [] /\ m_matchlevel m = (-1)%Z;
  ad_mutated : m_mutated m = true <-> twins xs }.

Lemma odd_part n : 0 < n -> exists q L, n = q * 2 ^ L /\ Nat.odd q = true.
Proof.
  induction n as [n IH] using lt_wf_ind. intros Hn. destruct (Nat.odd n) eqn:E; [exists n, 0; cbn; split; [lia|done]|].
  assert (Nat.even n = true) as Ev by (rewrite <- Nat.negb_odd, E; done). apply Nat.even_spec in Ev as [m ->].
  destruct (IH m) as (q & L & -> & Hq); [lia|lia|]. exists q, (S L). rewrite pow2_S. split; [lia|done].
Qed.
(** The blocks of the bits of [s] cover what is below. *)
Lemma covered s : pos < s -> exists k, has_bit s k = true /\ in_seg s k.
Proof.
  induction s as [s IH] using lt_wf_ind. intros Hp. destruct (odd_part s) as (q & L & -> & Hq); [lia|]. pose proof (pow2_pos L).
  assert (1 <= q) as H1 by (destruct q; [done|lia]). assert ((q - 1) * 2 ^ L + 2 ^ L = q * 2 ^ L) as Hs by nia.
  destruct (Nat.lt_ge_cases pos ((q - 1) * 2 ^ L)) as [Hlt|Hge].
  - destruct (IH ((q - 1) * 2 ^ L) ltac:(lia) Hlt) as (k & Hk & Hin). destruct (bit_left q L k Hq Hk) as [Hk' Es]. exists k. split; [done|]. unfold in_seg in *. by rewrite <- Es.
  - exists L. split; [by rewrite bit_here|]. unfold in_seg, seg_start. rewrite Nat.div_mul by lia. lia.
Qed.

Lemma twin_app xs ys L s : s + 2 ^ S L <= length xs -> twin (xs ++ ys) L s <-> twin xs L s.
Proof.
  intros Hs. rewrite pow2_S in Hs. pose proof (pow2_pos L). unfold twin.
  by rewrite !drop_app_le, !take_app_le by (rewrite ?length_drop; lia).
Qed.
Lemma twins_snoc xs x q L : length xs + 1 = (q + 1) * 2 ^ L -> Nat.odd q = false ->
  twins (xs ++ [x]) <-> twins xs \/ exists k, k < L /\ root k (take (2 ^ k) (drop (length xs + 1 - 2 ^ S k) (xs ++ [x]))) = root k (drop (length xs + 1 - 2 ^ k) (xs ++ [x])).
Proof.
  intros Hn Hq. assert (length (xs ++ [x]) = length xs + 1) as Hl by (rewrite length_app; done).
  assert (forall k r, (r + 1) * 2 ^ S k = length xs + 1 -> twin (xs ++ [x]) k (r * 2 ^ S k) <->
    root k (take (2 ^ k) (drop (length xs + 1 - 2 ^ S k) (xs ++ [x]))) = root k (drop (length xs + 1 - 2 ^ k) (xs ++ [x]))) as Hlast.
  { intros k r Hr. pose proof (pow2_S k). unfold twin. replace (length xs + 1 - 2 ^ S k) with (r * 2 ^ S k) by lia.
    replace (length xs + 1 - 2 ^ k) with (r * 2 ^ S k + 2 ^ k) by lia. rewrite (take_ge (drop (r * 2 ^ S k + 2 ^ k) _)) by (rewrite length_drop; lia). done. }
  split.
  - intros (k & r & Hr & Ht). rewrite Hl in Hr. destruct (Nat.le_gt_cases (r * 2 ^ S k + 2 ^ S k) (length xs)) as [Hle|Hgt].
    + left. exists k, r. split; [done|]. by apply twin_app in Ht.
    + right. exists k. assert ((r + 1) * 2 ^ S k = length xs + 1) as Er by lia. split; [|by apply (Hlast k r)].
      destruct (Nat.le_gt_cases L k) as [HLk|]; [exfalso|done]. rewrite Hn in Er. replace (S k) with (S (k - L) + L) in Er by lia.
      rewrite Nat.pow_add_r, pow2_S, Nat.mul_assoc in Er. apply Nat.mul_cancel_r in Er; [|pose proof (pow2_pos L); lia].
      assert (Nat.odd (q + 1) = false) as Ho by (rewrite <- Er, (Nat.mul_comm 2), Nat.mul_assoc, Nat.odd_mul, andb_false_r; done).
      by rewrite Nat.add_1_r, Nat.odd_succ, <- Nat.negb_odd, Hq in Ho.
  - intros [(k & r & Hr & Ht)|(k & Hk & Ht)].
    + exists k, r. rewrite Hl. split; [lia|]. by apply twin_app.
    + replace L with (L - S k + S k) in Hn by lia. rewrite Nat.pow_add_r, Nat.mul_assoc in Hn. set (r := (q + 1) * 2 ^ (L - S k)) in *.
      assert (1 <= r) by (unfold r; pose proof (pow2_pos (L - S k)); nia). exists k, (r - 1). rewrite Hl.
      assert ((r - 1 + 1) * 2 ^ S k = length xs + 1) as Er by (replace (r - 1 + 1) with r by lia; lia).
      split; [lia|]. by apply Hlast.
Qed.

Lemma add_leaf_ok pbranch xs x m : added pbranch xs m -> length xs < 2 ^ 31 -> (pbranch = true -> pos = length xs -> x = leaf) ->
  exists m', add_leaf Hash2 pbranch (Z.of_nat pos) x m = Ok m' /\ added pbranch (xs ++ [x]) m'.
Proof.
  intros [Ac Ai Ah At Ab Am] Hn Hx. unfold add_leaf. rewrite Ac.
  assert (u32 (Z.of_nat (length xs) + 1) = Z.of_nat (length xs * 2 ^ 0 + 2 ^ 0)) as ->.
  { change (2 ^ 0) with 1; rewrite wrap_small; [lia|]. unfold in_range. pose proof (Nat2Z.inj_pow 2 31). lia. }
  assert (length (xs ++ [x]) = length xs + 1) as Hl by (rewrite length_app; done).
  assert (holds (xs ++ [x]) (m_inner m) (length xs)) as Ah'.
  { intros k Hk. rewrite (Ah k Hk). pose proof (seg_end _ _ Hk). by rewrite drop_app_le, take_app_le by (rewrite ?length_drop; lia). }
  destruct (combine_ok true pbranch (xs ++ [x]) (m_inner m) (m_matchlevel m) 32 (length xs) 0
    (mkWalk 0 x (Z.of_nat (length xs) =? Z.of_nat pos)%Z (m_branch m) (m_mutated m))) as (q & L & w & E & El & Eo & EL & Es & Ele & Eh & Er & Eb & Em).
  { change (2 ^ 0) with 1. by rewrite Nat.mul_1_r. } { change (2 ^ 0) with 1. lia. } { change (2 ^ 0) with 1. lia. } { lia. } { done. }
  { change (2 ^ 0) with 1. cbn [w_h root]. by rewrite Nat.mul_1_r, drop_app_length. }
  { intros Hp. rewrite Hp in *. change (2 ^ 0) with 1. rewrite Nat.mul_1_r. split; [|by apply At]. split; cbn [w_match w_branch w_level w_h]; [rewrite Hl; lia|].
    intros Heq%Z.eqb_eq. destruct (Ab eq_refl ltac:(lia)) as [-> _]. cbn. split; [done|]. symmetry. apply Hx; [done|lia]. }
  change (2 ^ 0) with 1 in *. rewrite Nat.mul_1_r in *. rewrite E. cbn [mbind outcome_bind]. eexists. split; [reflexivity|]. rewrite El, Nat2Z.id.
  assert (length (xs ++ [x]) = (q + 1) * 2 ^ L) as Hn1 by lia. pose proof (pow2_pos L) as HpL.
  assert (Nat.odd (q + 1) = true) as Ho by (by rewrite Nat.add_1_r, Nat.odd_succ, <- Nat.negb_odd, Eo).
  assert (forall k, has_bit (length (xs ++ [x])) k = true -> k = L \/ L < k /\ has_bit (q * 2 ^ L) k = true /\ seg_start (length (xs ++ [x])) k = seg_start (q * 2 ^ L) k) as Hbits.
  { intros k Hk. rewrite Hn1 in Hk |- *. destruct (Nat.lt_trichotomy k L) as [Hlt|[->|Hgt]]; [by rewrite low_bit_clear in Hk|by left|right].
    unfold has_bit, seg_start in *. rewrite (div_high_up q L k Hgt Eo) in *. done. }
  assert (seg_start (length (xs ++ [x])) L = q * 2 ^ L) as HsL by (unfold seg_start; rewrite Hn1, Nat.div_mul by lia; do 2 f_equal; lia).
  split; cbn [m_count m_inner m_matchlevel m_branch m_mutated].
  - lia.
  - by rewrite length_insert.
  - intros k Hk. destruct (Hbits k Hk) as [->|(Hgt & Hk' & ->)]; rewrite nth_lookup.
    + rewrite list_lookup_insert_eq by lia. cbn. rewrite Er, HsL. f_equal. rewrite take_ge; [done|]. rewrite length_drop. lia.
    + rewrite list_lookup_insert_ne by lia. rewrite <- nth_lookup. by apply Eh.
  - intros Hp. destruct (Eb Hp) as ([C1 C2] & Ct & _). intros k Hk. destruct (Hbits k Hk) as [->|(Hgt & Hk' & Hseg)]; unfold in_seg; rewrite ?HsL, ?Hseg.
    + assert ((q * 2 ^ L <= pos < q * 2 ^ L + 2 ^ L) <-> w_match w = true) as Hiff by (rewrite C1; lia). split.
      * rewrite Hiff. destruct (w_match w) eqn:Ew; [done|]. split; [done|]. intros Eml. exfalso.
        destruct (Nat.lt_ge_cases pos (q * 2 ^ L)) as [Hlt|Hge].
        -- destruct (covered _ Hlt) as (k' & Hk' & Hin). apply (proj1 (Ct k' Hk')) in Hin. assert (k' = L) as -> by lia. rewrite bit_here, Eo in Hk'. done.
        -- assert (length xs <= pos) as Hpl; [|destruct (Ab Hp Hpl); lia]. destruct (Nat.lt_ge_cases pos (length (xs ++ [x]))); [|lia].
           assert (false = true) by (apply C1; lia). done.
      * rewrite Hiff. intros Ew. destruct (C2 Ew) as [L1 F1]. rewrite El in L1. split; [lia|]. rewrite F1, nth_lookup, list_lookup_insert_eq by lia. done.
    + destruct (Ct k Hk') as [T1 T2]. unfold in_seg in *. pose proof (seg_end _ _ Hk'). split.
      * destruct (w_match w) eqn:Ew; [|done]. apply proj1 in C1. specialize (C1 eq_refl). lia.
      * intros Hin. destruct (T2 Hin) as [L1 F1]. split; [done|]. rewrite F1, !nth_lookup, list_lookup_insert_ne by lia. done.
  - intros Hp Hpl. rewrite Hl in Hpl. destruct (Eb Hp) as ([C1 C2] & _ & C3). destruct (Ab Hp ltac:(lia)) as [Hb0 Hml].
    assert (w_match w = false) as Ew by (destruct (w_match w); [|done]; assert (q * 2 ^ L <= pos < length (xs ++ [x])) by (by apply C1); lia).
    rewrite Ew. destruct (C3 Ew) as [_ ->]. by split.
  - rewrite Em. cbn [w_mutated]. rewrite Am. rewrite (twins_snoc xs x q L) by (done || lia). split.
    + intros [?|(_ & k & Hk & Ht)]; [by left|right]. exists k. split; [lia|done].
    + intros [?|(k & Hk & Ht)]; [by left|right]. split; [done|]. exists k. split; [lia|done].
Qed.
Lemma add_leaves_ok pbranch all : length all <= 2 ^ 31 -> (pbranch = true -> forall x, all !! pos = Some x -> x = leaf) ->
  forall ys xs m, all = xs ++ ys -> added pbranch xs m -> exists m', add_leaves Hash2 pbranch (Z.of_nat pos) ys m = Ok m' /\ added pbranch all m'.
Proof.
  intros Hn Hx. induction ys as [|y ys IH]; intros xs m Hall Hm; [rewrite app_nil_r in Hall; subst; by exists m|]. cbn [add_leaves].
  assert (length all = length xs + S (length ys)) as Hl by (subst all; by rewrite length_app).
  destruct (add_leaf_ok pbranch xs y m Hm ltac:(lia)) as (m1 & -> & Hm1).
  { intros Hp Heq. apply Hx; [done|]. subst all. rewrite Heq. by apply list_lookup_middle. }
  cbn [mbind outcome_bind]. apply (IH (xs ++ [y])); [|done]. by rewrite <- app_assoc.
Qed.

(** ** The sweep *)
Lemma skip_clear_ok : forall fuel m L, 0 < m -> m * 2 ^ L <= 2 ^ 31 -> 32 <= fuel + L ->
  exists q L', skip_clear fuel (Z.of_nat (m * 2 ^ L)) (Z.of_nat L) = Ok (Z.of_nat L') /\ m * 2 ^ L = q * 2 ^ L' /\ Nat.odd q = true /\ L' <= 31.
Proof.
  induction fuel as [|fuel IH]; intros m L Hm Hn Hf; pose proof (pow2_pos L).
  all: assert (L <= 31) as HL by (apply (Nat.pow_le_mono_r_iff 2); nia).
  1: lia.
  cbn [skip_clear]. replace (32 <=? Z.of_nat L)%Z with false by lia. rewrite bit_clear_ok, bit_here by lia.
  destruct (Nat.odd m) eqn:Eo; cbn [negb]; [by exists m, L|].
  assert (Nat.even m = true) as Ev by (by rewrite <- Nat.negb_odd, Eo). apply Nat.even_spec in Ev as [r ->].
  assert (2 * r * 2 ^ L = r * 2 ^ S L) as E by (rewrite pow2_S; lia). rewrite E. replace (Z.of_nat L + 1)%Z with (Z.of_nat (S L)) by lia.
  destruct (IH r (S L)) as (q & L' & -> & Hq); [lia|lia|lia|]. by exists q, L'.
Qed.

Lemma seg_room q L : Nat.odd q = false -> 0 < q -> q * 2 ^ L + 2 ^ L <= 2 ^ 31 -> q * 2 ^ L + 2 ^ S L <= 2 ^ 31.
Proof.
  intros Hq Hpos Hn. pose proof (pow2_pos L). assert (Nat.even q = true) as Ev by (by rewrite <- Nat.negb_odd, Hq). apply Nat.even_spec in Ev as [r ->].
  assert (2 ^ L <= r * 2 ^ L) as Hr by (destruct r; [lia|cbn; lia]). assert (S L <= 31) as HL by (apply (Nat.pow_le_mono_r_iff 2); [lia|]; rewrite (pow2_S L); lia).
  assert (2 ^ 31 = 2 ^ (31 - S L) * 2 ^ S L) as E by (rewrite <- Nat.pow_add_r; f_equal; lia). rewrite E in Hn |- *.
  rewrite (pow2_S L) in *. set (a := 2 ^ L) in *. set (b := 2 ^ (31 - S L)) in *.
  destruct (Nat.le_gt_cases b r) as [Hbr|Hbr]; [pose proof (Nat.mul_le_mono_r b r a Hbr); lia|pose proof (Nat.mul_le_mono_r (S r) b a Hbr); lia].
Qed.
Lemma u32_nat n : n <= 2 ^ 31 -> u32 (Z.of_nat n) = Z.of_nat n.
Proof. intros Hn. apply wrap_small. unfold in_range. pose proof (Nat2Z.inj_pow 2 31). lia. Qed.
Lemma u32_shift L : L <= 31 -> u32 (Z.shiftl 1 (Z.of_nat L)) = Z.of_nat (2 ^ L).
Proof. intros HL. rewrite Z.shiftl_1_l. change (2 ^ Z.of_nat L)%Z with (Z.of_nat 2 ^ Z.of_nat L)%Z. rewrite <- (Nat2Z.inj_pow 2 L). apply u32_nat. by apply Nat.pow_le_mono_r. Qed.

Lemma sweep_ok pbranch xs inner ml : forall fuel q L w, Nat.odd q = false -> holds xs inner (q * 2 ^ L) -> q * 2 ^ L < length xs <= q * 2 ^ L + 2 ^ L ->
  q * 2 ^ L + 2 ^ L <= 2 ^ 31 -> 32 <= fuel + L -> 2 ^ L < 2 * length xs -> w_level w = Z.of_nat L -> w_h w = root L (drop (q * 2 ^ L) xs) ->
  (pbranch = true -> carried xs (q * 2 ^ L) w /\ tracked inner (q * 2 ^ L) ml (w_branch w)) ->
  exists w', sweep Hash2 fuel pbranch inner ml (Z.of_nat (q * 2 ^ L + 2 ^ L)) w = Ok w' /\ w_h w' = root (depth xs) xs /\
    w_level w' = Z.of_nat (depth xs) /\ (pbranch = true -> carried xs 0 w').
Proof.
  induction fuel as [|fuel IH]; intros q L w Hq Hh Hlen Hc Hf Hd Hl Hr Hb; pose proof (pow2_pos L) as Hp.
  all: assert (L <= 31) as HL by (apply (Nat.pow_le_mono_r_iff 2); lia).
  1: lia.
  cbn [sweep]. rewrite Hl. replace (32 <=? Z.of_nat L)%Z with false by lia. rewrite u32_shift by lia. destruct (Nat.eq_dec q 0) as [->|Hpos].
  - replace (Z.of_nat (0 * 2 ^ L + 2 ^ L) =? Z.of_nat (2 ^ L))%Z with true by lia. cbn [Nat.mul] in *. exists w. split; [done|].
    assert (depth xs = L) as ->; [|rewrite drop_0 in Hr; split; [done|]; split; [done|]; intros Hpb; by destruct (Hb Hpb)].
    unfold depth. destruct L as [|L]; [cbn in Hlen; by replace (length xs) with 1 by lia|]. apply Nat.log2_up_unique; [lia|]. cbn [Nat.pred]. rewrite pow2_S in Hd. lia.
  - replace (Z.of_nat (q * 2 ^ L + 2 ^ L) =? Z.of_nat (2 ^ L))%Z with false by nia. pose proof (seg_room q L Hq ltac:(lia) Hc) as Hroom.
    assert (Nat.even q = true) as Ev by (by rewrite <- Nat.negb_odd, Hq). apply Nat.even_spec in Ev as [r Er].
    assert (q * 2 ^ L = r * 2 ^ S L) as Hs by (rewrite pow2_S; subst q; lia). pose proof (pow2_S L) as HS.
    assert (u32 (Z.of_nat (q * 2 ^ L + 2 ^ L) + Z.of_nat (2 ^ L)) = Z.of_nat (r * 2 ^ S L + 2 ^ S L)) as -> by (rewrite <- Nat2Z.inj_add, u32_nat by lia; lia).
    replace (Z.of_nat L + 1)%Z with (Z.of_nat (S L)) by lia. set (w1 := mkWalk _ _ _ _ _).
    destruct (combine_ok false pbranch xs inner ml 32 r (S L) w1) as (q' & L' & w' & E & El & Eo & EL & Es & Ele & Eh & Ehr & Eb & _).
    { by rewrite <- Hs. } { rewrite <- Hs. lia. } { lia. } { lia. } { done. }
    { cbn [w1 w_h root]. rewrite <- Hs, length_drop. replace (length xs - q * 2 ^ L <=? 2 ^ L) with true by (symmetry; apply Nat.leb_le; lia). by rewrite Hr. }
    { intros Hpb. destruct (Hb Hpb) as [[C1 C2] Ct]. rewrite <- Hs. unfold w1. rewrite Hpb. cbn [andb]. split.
      - split; cbn [w_match w_branch w_level w_h]; [done|]. intros Ew. destruct (C2 Ew) as [L1 F1]. rewrite Ew, length_app, from_branch_app. cbn [length]. split; [lia|].
        cbv zeta. rewrite F1. by destruct (has_bit _ _).
      - cbn [w_branch]. destruct (w_match w) eqn:Ew; [|done]. intros k Hk. destruct (Ct k Hk) as [T1 T2]. split; [done|]. intros Hin. exfalso.
        pose proof (seg_end _ _ Hk). unfold in_seg in Hin. apply proj1 in C1. specialize (C1 eq_refl). lia. }
    rewrite E. cbn [mbind outcome_bind]. assert (2 ^ S L <= r * 2 ^ S L) as Hr1 by (destruct r; [lia|cbn [Nat.mul]; lia]).
    rewrite <- Es. apply IH; [done|done|lia|lia|lia|lia|done|done|]. intros Hpb. by destruct (Eb Hpb) as (B1 & B2 & _).
Qed.

(** ** The whole computation *)
Lemma MerkleComputation_ok pbranch xs : xs <> [] -> length xs <= 2 ^ 31 -> (pbranch = true -> forall x, xs !! pos = Some x -> x = leaf) ->
  exists mutated branch, MerkleComputation Hash2 xs (Z.of_nat pos) pbranch = Ok (root (depth xs) xs, mutated, branch) /\ (mutated = true <-> twins xs) /\
    (pbranch = true -> pos < length xs -> length branch = depth xs /\ ComputeMerkleRootFromBranch Hash2 leaf branch (Z.of_nat pos) = root (depth xs) xs).
Proof.
  intros Hne Hn Hx. destruct (add_leaves_ok pbranch xs Hn Hx xs [] (mkMerkle (replicate 32 null256) 0 (-1) [] false) eq_refl) as (m & Em & [Ac Ai Ah At Ab Am]).
  { split; cbn; try done.
    - intros k Hk. unfold has_bit in Hk. rewrite Nat.Div0.div_0_l in Hk. done.
    - intros _ k Hk. unfold has_bit in Hk. rewrite Nat.Div0.div_0_l in Hk. done.
    - split; [done|]. intros (L & r & Hr & _). cbn [length] in Hr. pose proof (pow2_pos (S L)). lia. }
  unfold MerkleComputation. destruct xs as [|x0 xs0] eqn:Exs; [done|]. rewrite <- Exs in *. clear Exs x0 xs0. rewrite Em. cbn [mbind outcome_bind].
  assert (0 < length xs) as Hpos by (destruct xs; [done|cbn; lia]).
  destruct (skip_clear_ok 32 (length xs) 0) as (q & L & Es & Hs & Hq & HL); [lia|change (2 ^ 0) with 1; lia|lia|]. change (2 ^ 0) with 1 in *. rewrite Nat.mul_1_r in *.
  change (Z.of_nat 0) with 0%Z in Es. rewrite Ac, Es. cbn [mbind outcome_bind]. pose proof (pow2_pos L). assert (1 <= q) as H1 by (destruct q; [done|lia]).
  assert ((q - 1) * 2 ^ L + 2 ^ L = q * 2 ^ L) as Hs1 by nia. assert (has_bit (length xs) L = true) as Hb by (by rewrite Hs, bit_here).
  assert (seg_start (length xs) L = (q - 1) * 2 ^ L) as Hseg by (unfold seg_start; rewrite Hs, Nat.div_mul by lia; done).
  assert (nth L (m_inner m) null256 = root L (drop ((q - 1) * 2 ^ L) xs)) as Hroot.
  { rewrite (Ah L Hb), Hseg. f_equal. apply take_ge. rewrite length_drop. lia. }
  replace (Z.of_nat (length xs)) with (Z.of_nat ((q - 1) * 2 ^ L + 2 ^ L)) by lia. match goal with |- context [sweep Hash2 32 pbranch _ _ _ ?x] => set (w0 := x) end.
  destruct (sweep_ok pbranch xs (m_inner m) (m_matchlevel m) 32 (q - 1) L w0) as (w & Ew & Hh & Hlv & Hc).
  - destruct q as [|q']; [lia|]. rewrite Nat.odd_succ in Hq. replace (S q' - 1) with q' by lia. by rewrite <- Nat.negb_even, Hq.
  - apply holds_down; [done|]. by rewrite <- Hs.
  - lia.
  - lia.
  - lia.
  - nia.
  - done.
  - cbn [w0 w_h]. unfold inner_at. by rewrite Nat2Z.id.
  - intros Hp. pose proof (At Hp) as Ht. destruct (Ht L Hb) as [T1 T2]. unfold in_seg in T1, T2. rewrite Hseg in T1, T2.
    split; [|cbn [w0 w_branch]; apply (tracked_down (m_inner m) q L _ (m_branch m)); [done|by rewrite <- Hs|done]].
    split; cbn [w0 w_match w_branch w_level w_h]; [rewrite Z.eqb_eq, <- T1; lia|]. intros Heq%Z.eqb_eq. apply T1 in Heq. destruct (T2 Heq) as [L1 F1]. split; [lia|].
    unfold inner_at. rewrite Nat2Z.id. done.
  - rewrite Ew. cbn [mbind outcome_bind]. rewrite Hh. exists (m_mutated m), (w_branch w). split; [done|]. split; [done|]. intros Hp Hlt. destruct (Hc Hp) as [C1 C2].
    destruct (C2 ltac:(apply C1; lia)) as [L1 F1]. rewrite Hlv in L1. split; [lia|]. by rewrite F1.
Qed.
End Leaves.

(** ** What the root commits to *)

(** The pairs of hashes that are hashed in a tree. *)
Fixpoint nodes (d : nat) (l : list bytes) : list (bytes * bytes) :=
  match d with
  | O => []
  | S d => if length l <=? 2 ^ d then (root d l, root d l) :: nodes d l
           else (root d (take (2 ^ d) l), root d (drop (2 ^ d) l)) :: nodes d (take (2 ^ d) l) ++ nodes d (drop (2 ^ d) l)
  end.
Definition collision_in (ps : list (bytes * bytes)) : Prop :=
  exists a b c d, (a, b) ∈ ps /\ (c, d) ∈ ps /\ (a, b) <> (c, d) /\ Hash2 a b = Hash2 c d.
Lemma collision_mono ps qs : collision_in ps -> ps ⊆ qs -> collision_in qs.
Proof. intros (a & b & c & d & Ha & Hc & Hne & He) Hs. exists a, b, c, d. split; [by apply Hs|]. split; [by apply Hs|]. done. Qed.

Lemma twins_take xs d : twins (take (2 ^ d) xs) -> twins xs.
Proof.
  intros (L & r & Hr & Ht). exists L, r. rewrite length_take in Hr. split; [lia|].
  rewrite <- (take_drop (2 ^ d) xs). apply twin_app; [rewrite length_take; lia|done].
Qed.
Lemma twins_drop xs d : length xs <= 2 ^ S d -> twins (drop (2 ^ d) xs) -> twins xs.
Proof.
  intros Hn (L & r & Hr & Ht). rewrite length_drop, pow2_S in *. pose proof (pow2_pos (S L)). assert (S L <= d) as HL by (apply (Nat.pow_le_mono_r_iff 2); [lia|]; rewrite pow2_S in *; lia).
  assert (2 ^ d = 2 ^ (d - S L) * 2 ^ S L) as E by (rewrite <- Nat.pow_add_r; f_equal; lia).
  exists L, (2 ^ (d - S L) + r). rewrite Nat.mul_add_distr_r, <- E. rewrite pow2_S in *. split; [lia|]. unfold twin in *. rewrite !drop_drop in Ht. rewrite Nat.add_assoc in Ht. done.
Qed.
Lemma twins_top xs d : length xs = 2 ^ S d -> root d (take (2 ^ d) xs) = root d (drop (2 ^ d) xs) -> twins xs.
Proof.
  intros Hn Heq. exists d, 0. split; [lia|]. unfold twin. rewrite Nat.mul_0_l, drop_0, Nat.add_0_l, Heq. f_equal. symmetry. apply take_ge. rewrite length_drop, Hn, pow2_S. lia.
Qed.

Lemma root_inj d : forall l1 l2, 0 < length l1 <= 2 ^ d -> 0 < length l2 <= 2 ^ d -> ~ twins l1 -> ~ twins l2 -> root d l1 = root d l2 ->
  l1 = l2 \/ collision_in (nodes d l1 ++ nodes d l2).
Proof.
  induction d as [|d IH]; intros l1 l2 B1 B2 T1 T2 E.
  - left. destruct l1 as [|a [|]], l2 as [|b [|]]; cbn in *; try lia. by subst.
  - pose proof (pow2_pos d) as Hpos. pose proof (pow2_S d) as Hdbl.
    (* a list that fits in the left half, and one that does not *)
    assert (forall l, 2 ^ d < length l <= 2 ^ S d -> ~ twins l -> root d (take (2 ^ d) l) = root d (drop (2 ^ d) l) -> collision_in (nodes d (take (2 ^ d) l) ++ nodes d (drop (2 ^ d) l))) as Hmix.
    { intros l Hl Tl Ea. destruct (Nat.eq_dec (length l) (2 ^ S d)) as [Heq|Hneq]; [by destruct (Tl (twins_top l d Heq Ea))|].
      destruct (IH (take (2 ^ d) l) (drop (2 ^ d) l)) as [Ei|]; [rewrite length_take; lia|rewrite length_drop; lia|by intros ?%twins_take|intros Ht; apply Tl, (twins_drop l d); [lia|done]|done| |done].
      exfalso. apply (f_equal length) in Ei. rewrite length_take, length_drop in Ei. lia. }
    cbn [root nodes] in E |- *. destruct (Nat.leb_spec (length l1) (2 ^ d)) as [L1|L1], (Nat.leb_spec (length l2) (2 ^ d)) as [L2|L2];
      match type of E with Hash2 ?a ?b = Hash2 ?c ?d' => destruct (decide ((a, b) = (c, d'))) as [Ep|Hne];
        [injection Ep as Ea Eb|right; exists a, b, c, d'; split; [set_solver|]; split; [set_solver|]; done] end.
    + destruct (IH l1 l2) as [|Hc]; [lia|lia|done|done|done|by left|right]. apply (collision_mono _ _ Hc). set_solver.
    + right. apply (collision_mono _ _ (Hmix l2 ltac:(lia) T2 ltac:(congruence))). set_solver.
    + right. apply (collision_mono _ _ (Hmix l1 ltac:(lia) T1 ltac:(congruence))). set_solver.
    + destruct (IH (take (2 ^ d) l1) (take (2 ^ d) l2)) as [E1|Hc]; [rewrite length_take; lia|rewrite length_take; lia|by intros ?%twins_take|by intros ?%twins_take|done| |right; apply (collision_mono _ _ Hc); set_solver].
      destruct (IH (drop (2 ^ d) l1) (drop (2 ^ d) l2)) as [E2|Hc]; [rewrite length_drop; lia|rewrite length_drop; lia|intros Ht; apply T1, (twins_drop l1 d); [lia|done]|intros Ht; apply T2, (twins_drop l2 d); [lia|done]|done| |right; apply (collision_mono _ _ Hc); set_solver].
      left. by rewrite <- (take_drop (2 ^ d) l1), E1, E2, take_drop.
Qed.
End Tree.

(** ** Claims *)

Lemma size_bound {A} (l : list A) : size l <= 2 ^ 31 -> (length l <= 2 ^ 31)%nat.
Proof. intros Hl. apply Nat2Z.inj_le. by rewrite Nat2Z.inj_pow. Qed.
Lemma ComputeMerkleRoot_ok Hash2 leaves : leaves <> [] -> size leaves <= 2 ^ 31 -> exists mutated,
  ComputeMerkleRoot Hash2 leaves = Ok (root Hash2 (depth leaves) leaves, mutated) /\ (mutated = true <-> twins Hash2 leaves).
Proof.
  intros Hne Hn. unfold ComputeMerkleRoot. rewrite <- (Z2Nat.id (2 ^ 32 - 1)) by done.
  destruct (MerkleComputation_ok Hash2 (Z.to_nat (2 ^ 32 - 1)) [] false leaves Hne (size_bound leaves Hn)) as (mutated & branch & E & Hm & _); [discriminate|].
  exists mutated. split; [|exact Hm]. rewrite E. reflexivity.
Qed.
Lemma depth_bound (l : list bytes) : l <> [] -> (0 < length l <= 2 ^ depth l)%nat.
Proof.
  intros Hl. assert (0 < length l)%nat by (destruct l; [done|cbn; lia]). split; [done|]. unfold depth.
  destruct (Nat.eq_dec (length l) 1) as [->|Hne]; [done|]. apply Nat.log2_up_spec. lia.
Qed.

(** A hash that keeps its arguments, and one that forgets them. *)
Definition toy_pair (a b : bytes) : bytes := 1 :: a ++ b.
Definition toy_forget (a b : bytes) : bytes := null256.

(** C18: The constant-space loop computes the root of the Merkle tree: for up to 2^31 leaves it returns, with no shift
    out of range, what pairing level by level gives (an odd end paired with
    itself), and reports a mutation exactly when two full sibling subtrees have
    equal roots. *)
Theorem merkle_root_exact (Hash2 : bytes -> bytes -> bytes) (leaves : list bytes) :
  leaves <> [] -> size leaves <= 2 ^ 31 -> exists mutated,
  ComputeMerkleRoot Hash2 leaves = Ok (levels Hash2 (depth leaves) leaves, mutated) /\ (mutated = true <-> twins Hash2 leaves).
Proof.
  intros Hne Hn. destruct (ComputeMerkleRoot_ok Hash2 leaves Hne Hn) as (mutated & E & Hm). exists mutated. split; [|done].
  rewrite E, root_levels by (done || by apply depth_bound). done.
Qed.
Lemma merkle_root_exact_witness : ComputeMerkleRoot toy_pair [[10]; [20]; [30]; [30]; [50]] = Ok (toy_pair (toy_pair (toy_pair [10] [20]) (toy_pair [30] [30]))
    (toy_pair (toy_pair [50] [50]) (toy_pair [50] [50])), true) /\ twins toy_pair [[10]; [20]; [30]; [30]; [50]].
Proof.
  destruct (merkle_root_exact toy_pair [[10]; [20]; [30]; [30]; [50]]) as (mutated & E & Hm); [discriminate|vm_compute; discriminate|].
  assert (ComputeMerkleRoot toy_pair [[10]; [20]; [30]; [30]; [50]] = Ok (toy_pair (toy_pair (toy_pair [10] [20]) (toy_pair [30] [30]))
    (toy_pair (toy_pair [50] [50]) (toy_pair [50] [50])), true)) as E' by (vm_compute; reflexivity).
  split; [exact E'|]. apply Hm. rewrite E in E'. by injection E'.
Defined.

(** C24: Branches lead to the root: the branch [ComputeMerkleBranch] collects for a position has one hash per level,
    and [ComputeMerkleRootFromBranch] of the leaf with it is the root of the tree. *)
Theorem merkle_branch_roundtrip (Hash2 : bytes -> bytes -> bytes) (leaves : list bytes) (position : nat) (leaf : bytes) :
  size leaves <= 2 ^ 31 -> leaves !! position = Some leaf ->
  exists branch mutated, ComputeMerkleBranch Hash2 leaves (Z.of_nat position) = Ok branch /\ length branch = depth leaves /\
    ComputeMerkleRoot Hash2 leaves = Ok (ComputeMerkleRootFromBranch Hash2 leaf branch (Z.of_nat position), mutated).
Proof.
  intros Hn Hp. assert (leaves <> []) as Hne by (by intros ->).
  destruct (MerkleComputation_ok Hash2 position leaf true leaves Hne (size_bound leaves Hn)) as (mutated & branch & E & _ & Hb); [intros _ x Hx; congruence|].
  destruct (Hb eq_refl (lookup_lt_Some _ _ _ Hp)) as [Hl Hr]. destruct (ComputeMerkleRoot_ok Hash2 leaves Hne Hn) as (mutated' & E' & _).
  exists branch, mutated'. unfold ComputeMerkleBranch. rewrite E. split; [done|]. split; [done|]. by rewrite E', Hr.
Qed.
Lemma merkle_branch_roundtrip_witness : ComputeMerkleBranch toy_pair [[10]; [20]; [30]] 2 = Ok [[30]; toy_pair [10] [20]] /\
  ComputeMerkleRoot toy_pair [[10]; [20]; [30]] = Ok (ComputeMerkleRootFromBranch toy_pair [30] [[30]; toy_pair [10] [20]] 2, false).
Proof.
  destruct (merkle_branch_roundtrip toy_pair [[10]; [20]; [30]] 2 [30]) as (branch & mutated & Eb & _ & Er); [vm_compute; discriminate|reflexivity|].
  change (Z.of_nat 2) with 2 in Eb, Er.
  assert (ComputeMerkleBranch toy_pair [[10]; [20]; [30]] 2 = Ok [[30]; toy_pair [10] [20]]) as Eb' by (vm_compute; reflexivity).
  split; [exact Eb'|]. rewrite Eb in Eb'. injection Eb' as Hbr. rewrite Hbr in Er.
  assert (snd <$> (match ComputeMerkleRoot toy_pair [[10]; [20]; [30]] with Ok r => Some r | _ => None end) = Some false) as Hm by (vm_compute; reflexivity).
  rewrite Er in Hm. cbn [fmap option_fmap option_map snd] in Hm. injection Hm as Hm. rewrite Hm in Er. exact Er.
Defined.

(** ** Lists that repeat their end *)
Section Repeat.
Context (Hash2 : bytes -> bytes -> bytes).
Local Open Scope nat_scope.

(** An odd number [q] of blocks of [2 ^ k] leaves, and the same with the last block twice. *)
Lemma root_repeat k : forall d q l, length l = q * 2 ^ k -> Nat.odd q = true -> (q + 1) * 2 ^ k <= 2 ^ d -> k < d ->
  root Hash2 d (l ++ drop ((q - 1) * 2 ^ k) l) = root Hash2 d l.
Proof.
  induction d as [|d IH]; intros q l Hl Hq Hd Hk; [lia|]. pose proof (pow2_pos k) as Hp. pose proof (pow2_S d) as HS.
  assert (1 <= q) as H1 by (destruct q; [done|lia]).
  set (e := drop ((q - 1) * 2 ^ k) l). assert (length e = 2 ^ k) as He by (unfold e; rewrite length_drop; nia).
  cbn [root]. rewrite length_app, He. destruct (decide (d = k)) as [->|Hne].
  - assert (q = 1) as -> by nia. assert (e = l) as -> by done. rewrite Nat.mul_1_l in Hl.
    replace (length l + 2 ^ k <=? 2 ^ k) with false by (symmetry; apply Nat.leb_gt; lia).
    replace (length l <=? 2 ^ k) with true by (symmetry; apply Nat.leb_le; lia).
    by rewrite take_app_le, drop_app_ge, take_ge, Hl, Nat.sub_diag by lia.
  - assert (exists m, 2 ^ d = 2 * m * 2 ^ k) as [m Em].
    { exists (2 ^ (d - k - 1)). rewrite <- pow2_S, <- Nat.pow_add_r. f_equal. lia. }
    apply Nat.odd_spec in Hq as Hq'. destruct Hq' as [n En].
    destruct (Nat.leb_spec (length l) (2 ^ d)) as [Hle|Hgt].
    + assert (q <= 2 * m) as Hm by (apply (Nat.mul_le_mono_pos_r _ _ (2 ^ k)); lia).
      assert ((q + 1) * 2 ^ k <= 2 ^ d) as Hd' by (rewrite Em; apply Nat.mul_le_mono_r; lia).
      replace (length l + 2 ^ k <=? 2 ^ d) with true by (symmetry; apply Nat.leb_le; lia).
      unfold e. rewrite IH by (done || lia). done.
    + replace (length l + 2 ^ k <=? 2 ^ d) with false by (symmetry; apply Nat.leb_gt; lia).
      assert (2 * m < q) as Hm by (apply (Nat.mul_lt_mono_pos_r (2 ^ k)); lia).
      rewrite take_app_le, drop_app_le by lia. f_equal. set (l' := drop (2 ^ d) l).
      assert (length l' = (q - 2 * m) * 2 ^ k) as Hl' by (unfold l'; rewrite length_drop; nia).
      assert (e = drop ((q - 2 * m - 1) * 2 ^ k) l') as ->.
      { unfold e, l'. rewrite drop_drop. f_equal. nia. }
      apply IH; [done| |nia|lia]. apply Nat.odd_spec. exists (n - m). lia.
Qed.
Lemma depth_repeat (l e : list bytes) k q : length l = q * 2 ^ k -> Nat.odd q = true -> 3 <= q -> length e = 2 ^ k ->
  depth (l ++ e) = depth l /\ (q + 1) * 2 ^ k <= 2 ^ depth l /\ k < depth l.
Proof.
  intros Hl Hq H3 He. pose proof (pow2_pos k) as Hp. unfold depth. rewrite length_app, Hl, He.
  assert (k < Nat.log2_up (q * 2 ^ k)) as Hk.
  { apply (Nat.pow_lt_mono_r_iff 2); [lia|]. eapply Nat.lt_le_trans; [|apply Nat.log2_up_spec; nia]. nia. }
  pose proof (Nat.log2_up_spec (q * 2 ^ k) ltac:(nia)) as [Hlo Hhi]. set (d := Nat.log2_up (q * 2 ^ k)) in *.
  assert ((q + 1) * 2 ^ k <= 2 ^ d) as Hup.
  { assert (exists m, 2 ^ d = 2 * m * 2 ^ k) as [m Em].
    { exists (2 ^ (d - k - 1)). rewrite <- pow2_S, <- Nat.pow_add_r. f_equal. lia. }
    apply Nat.odd_spec in Hq as [n En]. assert (q <= 2 * m) as Hm by (apply (Nat.mul_le_mono_pos_r _ _ (2 ^ k)); lia).
    rewrite Em. apply Nat.mul_le_mono_r. lia. }
  split; [|done]. apply Nat.log2_up_unique; [lia|]. nia.
Qed.
Lemma twins_repeat k q l : length l = q * 2 ^ k -> Nat.odd q = true -> twins Hash2 (l ++ drop ((q - 1) * 2 ^ k) l).
Proof.
  intros Hl Hq. pose proof (pow2_pos k) as Hp. apply Nat.odd_spec in Hq as [n En].
  set (e := drop ((q - 1) * 2 ^ k) l). assert (length e = 2 ^ k) as He by (unfold e; rewrite length_drop; nia).
  exists k, n. assert (n * 2 ^ S k = (q - 1) * 2 ^ k) as -> by (rewrite pow2_S; nia).
  rewrite length_app, pow2_S. split; [nia|]. unfold twin.
  rewrite drop_app_le by nia. fold e. rewrite take_app_le, (take_ge e) by lia.
  rewrite drop_app_ge by nia. replace ((q - 1) * 2 ^ k + 2 ^ k - length l) with 0 by nia. by rewrite drop_0, take_ge by lia.
Qed.
End Repeat.

(** C21: The root commits to the transactions.  Two non-empty lists of at most [2^31]
    leaves in trees of one depth, neither reported as mutated, that have the same
    root are equal, or two different pairs of hashes that are hashed in the two
    trees have the same hash.  And a list of an odd number, three or more, of
    blocks of [2^k] leaves keeps its root when its last block is repeated
    (CVE-2012-2459), but the longer list is reported as mutated. *)
Theorem merkle_root_commits (Hash2 : bytes -> bytes -> bytes) :
  (forall (l1 l2 : list bytes) (r : bytes),
     l1 <> [] -> l2 <> [] -> size l1 <= 2 ^ 31 -> size l2 <= 2 ^ 31 -> depth l1 = depth l2 ->
     ComputeMerkleRoot Hash2 l1 = Ok (r, false) -> ComputeMerkleRoot Hash2 l2 = Ok (r, false) ->
     l1 = l2 \/ collision_in Hash2 (nodes Hash2 (depth l1) l1 ++ nodes Hash2 (depth l2) l2)) /\
  (forall (l : list bytes) (q k : nat),
     length l = (q * 2 ^ k)%nat -> Nat.odd q = true -> (3 <= q)%nat -> size l + 2 ^ Z.of_nat k <= 2 ^ 31 ->
     exists r mutated, ComputeMerkleRoot Hash2 l = Ok (r, mutated) /\
       ComputeMerkleRoot Hash2 (l ++ drop (length l - 2 ^ k) l) = Ok (r, true)).
Proof.
  split.
  - intros l1 l2 r N1 N2 S1 S2' Hd E1 E2. destruct (ComputeMerkleRoot_ok Hash2 l1 N1 S1) as (m1 & F1 & M1). destruct (ComputeMerkleRoot_ok Hash2 l2 N2 S2') as (m2 & F2 & M2).
    rewrite E1 in F1. rewrite E2 in F2. injection F1 as -> <-. injection F2 as Er <-.
    rewrite <- Hd. apply (root_inj Hash2 (depth l1)); [by apply depth_bound|rewrite Hd; by apply depth_bound|by intros ?%M1|by intros ?%M2|congruence].
  - intros l q k Hl Hq H3 Hs. pose proof (pow2_pos k) as Hp.
    replace (length l - 2 ^ k)%nat with ((q - 1) * 2 ^ k)%nat by nia.
    set (e := drop ((q - 1) * 2 ^ k) l). assert (length e = (2 ^ k)%nat) as He by (unfold e; rewrite length_drop; nia).
    assert (l <> []) as Hne by (intros ->; cbn in Hl; nia).
    assert (Z.of_nat (2 ^ k) = 2 ^ Z.of_nat k) as Ek by (by rewrite Nat2Z.inj_pow).
    destruct (ComputeMerkleRoot_ok Hash2 l Hne ltac:(lia)) as (m1 & F1 & _).
    destruct (ComputeMerkleRoot_ok Hash2 (l ++ e)) as (m2 & F2 & M2); [by destruct l|rewrite length_app, He; lia|].
    destruct (depth_repeat l e k q Hl Hq H3 He) as (Ed & Hup & Hk).
    exists (root Hash2 (depth l) l), m1. split; [done|]. rewrite F2, Ed.
    rewrite (proj2 M2) by (by apply twins_repeat). do 2 f_equal. by apply root_repeat.
Qed.
Lemma merkle_root_commits_witness : collision_in toy_forget [([1], [2]); ([3], [4])] /\
  exists r mutated, ComputeMerkleRoot toy_pair [[1]; [2]; [3]] = Ok (r, mutated) /\
    ComputeMerkleRoot toy_pair [[1]; [2]; [3]; [3]] = Ok (r, true).
Proof.
  split.
  - destruct (proj1 (merkle_root_commits toy_forget) [[1]; [2]] [[3]; [4]] null256) as [Heq|Hc];
    [discriminate|discriminate|vm_compute; discriminate|vm_compute; discriminate|reflexivity|vm_compute; reflexivity|vm_compute; reflexivity|discriminate Heq|exact Hc].
  - apply (proj2 (merkle_root_commits toy_pair) [[1]; [2]; [3]] 3%nat 0%nat); [reflexivity|reflexivity|lia|vm_compute; discriminate].
Defined.
