(* ===== verification/TxSerialize.v ===== *)
(** * Serialization of transactions

    Model of the parts of [src/src/serialize.h] and [src/src/streams.h] that carry
    transactions, of [SerializeTransaction] and [UnserializeTransaction]
    ([src/src/primitives/transaction.h]) and of the hashes, sizes and sums that
    [transaction.cpp] computes.

    Writing gives the bytes that are appended to the stream; reading is a
    computation on the bytes that are left in it.  The two formats differ in a bit
    of the version of the stream, [fAllowWitness]. *)

From S2P Require Import Prelude Script Interpreter Coins.

(** ** Writing *)
Definition MAX_SIZE : Z := 0x02000000.
Definition WriteCompactSize (nSize : Z) : bytes :=
  if nSize <? 253 then WriteLE 1 nSize
  else if nSize <=? 0xffff then 253 :: WriteLE 2 nSize
  else if nSize <=? 0xffffffff then 254 :: WriteLE 4 nSize
  else 255 :: WriteLE 8 nSize.

(** A vector of bytes, and one of other values *)
Definition Serialize_blob (v : bytes) : bytes := WriteCompactSize (size v) ++ v.
Definition Serialize_vector {A} (f : A -> bytes) (v : list A) : bytes := WriteCompactSize (size v) ++ concat (map f v).

Definition Serialize_outpoint (o : COutPoint) : bytes := op_hash o ++ WriteLE 4 (op_n o).
Definition Serialize_txin (i : CTxIn) : bytes :=
  Serialize_outpoint (prevout i) ++ Serialize_blob (scriptSig i) ++ WriteLE 4 (nSequence i).
Definition Serialize_txout (o : CTxOut) : bytes := WriteLE 8 (nValue o) ++ Serialize_blob (scriptPubKey o).

(** [struct CMutableTransaction] *)
Record CMutableTransaction := mkMutable { mt_nVersion : Z; mt_vin : list CTxIn; mt_vout : list CTxOut; mt_nLockTime : Z }.
Definition HasWitness (vin : list CTxIn) : bool := existsb (fun i => negb (match scriptWitness i with [] => true | _ => false end)) vin.

Definition SerializeTransaction (fAllowWitness : bool) (tx : CMutableTransaction) : bytes :=
  let flags := fAllowWitness && HasWitness (mt_vin tx) in
  WriteLE 4 (mt_nVersion tx) ++
  (if flags then Serialize_vector Serialize_txin [] ++ [1] else []) ++
  Serialize_vector Serialize_txin (mt_vin tx) ++
  Serialize_vector Serialize_txout (mt_vout tx) ++
  (if flags then concat (map (fun i => Serialize_vector Serialize_blob (scriptWitness i)) (mt_vin tx)) else []) ++
  WriteLE 4 (mt_nLockTime tx).

(** ** Reading *)
Abbreviation Reader := (SE bytes).

(** [CDataStream::read(pch, nSize)] *)
Definition read (nSize : Z) : Reader bytes := fun s =>
  if size s <? nSize then (Throw "CDataStream::read(): end of data", s)
  else (Ok (take (Z.to_nat nSize) s), drop (Z.to_nat nSize) s).
Definition read_uint (n : nat) : Reader Z := l ← read (Z.of_nat n); mret (ReadLE l).
(** A value read into an [int32_t] *)
Definition s32 (x : Z) : Z := let y := u32 x in if y <? 2 ^ 31 then y else y - 2 ^ 32.

Definition ReadCompactSize : Reader Z :=
  chSize ← read_uint 1;
  nSizeRet ← (if chSize <? 253 then mret chSize
    else if chSize =? 253 then
      n ← read_uint 2; if n <? 253 then throw "non-canonical ReadCompactSize()" else mret n
    else if chSize =? 254 then
      n ← read_uint 4; if n <? 0x10000 then throw "non-canonical ReadCompactSize()" else mret n
    else
      n ← read_uint 8; if n <? 0x100000000 then throw "non-canonical ReadCompactSize()" else mret n);
  if MAX_SIZE <? nSizeRet then throw "ReadCompactSize(): size too large" else mret nSizeRet.

(** [Unserialize_impl] for bytes: no more than 5000000 are read at a time, so that
    [MAX_SIZE] takes seven turns. *)
Fixpoint read_chunks (fuel : nat) (n : Z) : Reader bytes :=
  if n <=? 0 then mret []
  else
    match fuel with
    | O => fail Diverge
    | S fuel =>
      let blk := Z.min n 5000000 in
      l ← read blk;
      m ← read_chunks fuel (n - blk);
      mret (l ++ m)
    end.
Definition Unserialize_blob : Reader bytes := n ← ReadCompactSize; read_chunks 7 n.
Fixpoint read_items {A} (f : Reader A) (n : nat) : Reader (list A) :=
  match n with O => mret [] | S n => x ← f; l ← read_items f n; mret (x :: l) end.
Definition Unserialize_vector {A} (f : Reader A) : Reader (list A) := n ← ReadCompactSize; read_items f (Z.to_nat n).

Definition Unserialize_outpoint : Reader COutPoint := h ← read 32; n ← read_uint 4; mret (mkOutPoint h n).
Definition Unserialize_txin : Reader CTxIn :=
  o ← Unserialize_outpoint; s ← Unserialize_blob; q ← read_uint 4; mret (mkTxIn o s q []).
Definition Unserialize_txout : Reader CTxOut :=
  v ← read_uint 8; s ← Unserialize_blob; mret (mkTxOut (CScriptNum.s64 v) s).
(** The witnesses, one for each input *)
Fixpoint read_witnesses (vin : list CTxIn) : Reader (list CTxIn) :=
  match vin with
  | [] => mret []
  | i :: vin =>
    w ← Unserialize_vector Unserialize_blob;
    l ← read_witnesses vin;
    mret (mkTxIn (prevout i) (scriptSig i) (nSequence i) w :: l)
  end.

Definition UnserializeTransaction (fAllowWitness : bool) : Reader CMutableTransaction :=
  nVersion ← read_uint 4;
  vin ← Unserialize_vector Unserialize_txin;
  r ← (if (size vin =? 0) && fAllowWitness then
         flags ← read_uint 1;
         if negb (flags =? 0) then
           vin ← Unserialize_vector Unserialize_txin;
           vout ← Unserialize_vector Unserialize_txout;
           mret (flags, vin, vout)
         else mret (flags, vin, [])
       else
         vout ← Unserialize_vector Unserialize_txout;
         mret (0, vin, vout));
  let '(flags, vin, vout) := r in
  r ← (if negb (Z.land flags 1 =? 0) && fAllowWitness
       then vin ← read_witnesses vin; mret (Z.lxor flags 1, vin)
       else mret (flags, vin));
  let '(flags, vin) := r in
  if negb (flags =? 0) then throw "Unknown transaction optional data"
  else
    nLockTime ← read_uint 4;
    mret (mkMutable (s32 nVersion) vin vout nLockTime).

(** ** [class CTransaction] *)
Section Hashes.
Context `{SC : ScriptCrypto}.

(** [ComputeHash()], [GetHash()] of a mutable transaction, and the constructor *)
Definition ComputeHash (tx : CMutableTransaction) : bytes := Hash256 (SerializeTransaction false tx).
Definition CTransaction_of (tx : CMutableTransaction) : CTransaction :=
  mkTx (mt_nVersion tx) (mt_vin tx) (mt_vout tx) (mt_nLockTime tx) (ComputeHash tx).
Definition mutable (tx : CTransaction) : CMutableTransaction := mkMutable (nVersion tx) (vin tx) (vout tx) (nLockTime tx).
Definition GetWitnessHash (tx : CTransaction) : bytes :=
  if negb (HasWitness (vin tx)) then tx_hash tx else Hash256 (SerializeTransaction true (mutable tx)).
End Hashes.

(** [MoneyRange], [GetValueOut()] *)
Definition MAX_MONEY : Z := 21000000 * 100000000.
Definition MoneyRange (nValue : Z) : bool := (0 <=? nValue) && (nValue <=? MAX_MONEY).
Fixpoint value_out (l : list CTxOut) (nValueOut : Z) : outcome Z :=
  match l with
  | [] => Ok nValueOut
  | o :: l =>
    let nValueOut := nValueOut + nValue o in
    if CScriptNum.int64_max <? nValueOut then Undef "nValueOut overflows"
    else if nValueOut <? CScriptNum.int64_min then Undef "nValueOut overflows"
    else if negb (MoneyRange (nValue o)) || negb (MoneyRange nValueOut) then Throw "GetValueOut: value out of range"
    else value_out l nValueOut
  end.
Definition GetValueOut (tx : CTransaction) : outcome Z := value_out (vout tx) 0.

(** [GetSerializeSize(tx, ...)], [GetTotalSize()], [GetTransactionWeight(tx)] *)
Definition GetSerializeSize (fAllowWitness : bool) (tx : CTransaction) : Z := size (SerializeTransaction fAllowWitness (mutable tx)).
Definition WITNESS_SCALE_FACTOR : Z := 4.
Definition GetTransactionWeight (tx : CTransaction) : Z :=
  GetSerializeSize false tx * (WITNESS_SCALE_FACTOR - 1) + GetSerializeSize true tx.
