(* ===== verification/TxSerializeThms.v ===== *)
(** * Transactions are read as they were written

    What is read from a serialization is what was written, whatever follows it in
    the stream; the hash of a transaction commits to everything but the witnesses. *)

From S2P Require Import Prelude Script ScriptProofs Interpreter Coins TxSerialize.

(** [reads f b a]: [f] takes the bytes [b] off the stream and returns [a]. *)
Definition reads {A} (f : Reader A) (b : bytes) (a : A) : Prop := forall rest, f (b ++ rest) = (Ok a, rest).

Section Reads.
Context {A B : Type}.
Lemma reads_ret (a : A) : reads (mret a) [] a.
Proof. done. Qed.
Lemma reads_bind (f : Reader A) (k : A -> Reader B) b1 b2 a c : reads f b1 a -> reads (k a) b2 c -> reads (f ≫= k) (b1 ++ b2) c.
Proof. intros Hf Hk rest. rewrite <- app_assoc, (SE_bind_ok _ _ _ _ _ (Hf _)). apply Hk. Qed.
Lemma reads_last (f : Reader A) (k : A -> Reader B) b a c : reads f b a -> reads (k a) [] c -> reads (f ≫= k) b c.
Proof. intros Hf Hk. rewrite <- (app_nil_r b). by apply (reads_bind _ _ _ _ a). Qed.
End Reads.

Lemma reads_read l n : n = size l -> reads (read n) l l.
Proof.
  intros -> rest. unfold read. rewrite length_app.
  destruct (Z.ltb_spec (size l + size rest) (size l)); [lia|]. case_match eqn:E; [lia|].
  by rewrite Nat2Z.id, take_app_length, drop_app_length.
Qed.
Lemma reads_uint n x : 0 <= x < 256 ^ Z.of_nat n -> reads (read_uint n) (WriteLE n x) x.
Proof.
  intros Hx. apply reads_last with (WriteLE n x).
  - apply reads_read. by rewrite length_WriteLE.
  - rewrite <- (Z.mod_small x (256 ^ Z.of_nat n)) at 2 by done. rewrite <- ReadLE_WriteLE. apply reads_ret.
Qed.

Lemma reads_compact n : 0 <= n <= MAX_SIZE -> reads ReadCompactSize (WriteCompactSize n) n.
Proof.
  unfold MAX_SIZE. intros Hn.
  assert (forall c (m : Reader Z) b, 0 <= c < 256 -> reads m b n ->
    (forall x : Z, x = c -> (if x <? 253 then mret x else if x =? 253 then (y ← read_uint 2; if y <? 253 then throw "non-canonical ReadCompactSize()" else mret y)
      else if x =? 254 then (y ← read_uint 4; if y <? 0x10000 then throw "non-canonical ReadCompactSize()" else mret y)
      else (y ← read_uint 8; if y <? 0x100000000 then throw "non-canonical ReadCompactSize()" else mret y)) = m) ->
    reads ReadCompactSize (WriteLE 1 c ++ b) n) as Hgo.
  { intros c m b Hc Hm Em. apply reads_bind with c; [by apply reads_uint|]. apply reads_last with n; [by rewrite (Em c eq_refl)|].
    unfold MAX_SIZE. destruct (Z.ltb_spec 0x02000000 n); [lia|]. apply reads_ret. }
  assert (forall k lo, lo <= n -> n < 256 ^ Z.of_nat k ->
    reads (y ← read_uint k; if y <? lo then throw "non-canonical ReadCompactSize()" else mret y) (WriteLE k n) n) as Hcan.
  { intros k lo Hlo Hk. apply reads_last with n; [apply reads_uint; lia|]. destruct (Z.ltb_spec n lo); [lia|]. apply reads_ret. }
  unfold WriteCompactSize. destruct (Z.ltb_spec n 253); [|destruct (Z.leb_spec n 0xffff); [|destruct (Z.leb_spec n 0xffffffff); [|lia]]].
  - rewrite <- (app_nil_r (WriteLE 1 n)). apply Hgo with (mret n); [lia|apply reads_ret|]. intros x ->. by destruct (Z.ltb_spec n 253); [|lia].
  - apply (Hgo 253 _ (WriteLE 2 n)) with (2 := Hcan 2%nat 253 ltac:(lia) ltac:(cbn; lia)); [lia|by intros x ->].
  - apply (Hgo 254 _ (WriteLE 4 n)) with (2 := Hcan 4%nat 0x10000 ltac:(lia) ltac:(cbn; lia)); [lia|by intros x ->].
Qed.

Lemma reads_chunks fuel l : size l <= 5000000 * Z.of_nat fuel -> reads (read_chunks fuel (size l)) l l.
Proof.
  revert l. induction fuel as [|fuel IH]; intros l Hl; cbn [read_chunks]; destruct (Z.leb_spec (size l) 0) as [H0|H0].
  - destruct l; [apply reads_ret|cbn in H0; lia].
  - lia.
  - destruct l; [apply reads_ret|cbn in H0; lia].
  - set (n := Z.to_nat (Z.min (size l) 5000000)). assert (length (take n l) = n) as Ht by (rewrite length_take; lia).
    match goal with |- reads ?f _ _ => cut (reads f (take n l ++ drop n l) l); [by rewrite take_drop|] end.
    apply reads_bind with (take n l); [apply reads_read; lia|]. apply reads_last with (drop n l); [|rewrite take_drop; apply reads_ret].
    replace (size l - Z.min (size l) 5000000) with (size (drop n l)) by (rewrite length_drop; lia). apply IH. rewrite length_drop. lia.
Qed.

(** ** Values that can be written *)
Definition blob_ok (b : bytes) : Prop := size b <= MAX_SIZE.
Definition outpoint_ok (o : COutPoint) : Prop := length (op_hash o) = 32%nat /\ 0 <= op_n o < 2 ^ 32.
Definition txin_ok (i : CTxIn) : Prop :=
  outpoint_ok (prevout i) /\ blob_ok (scriptSig i) /\ 0 <= nSequence i < 2 ^ 32 /\ size (scriptWitness i) <= MAX_SIZE /\ Forall blob_ok (scriptWitness i).
Definition txout_ok (o : CTxOut) : Prop := - 2 ^ 63 <= nValue o < 2 ^ 63 /\ blob_ok (scriptPubKey o).
Definition tx_ok (tx : CMutableTransaction) : Prop :=
  - 2 ^ 31 <= mt_nVersion tx < 2 ^ 31 /\ 0 <= mt_nLockTime tx < 2 ^ 32 /\ size (mt_vin tx) <= MAX_SIZE /\ size (mt_vout tx) <= MAX_SIZE /\
  Forall txin_ok (mt_vin tx) /\ Forall txout_ok (mt_vout tx).
Definition strip_witness (i : CTxIn) : CTxIn := mkTxIn (prevout i) (scriptSig i) (nSequence i) [].

Lemma reads_blob b : blob_ok b -> reads Unserialize_blob (Serialize_blob b) b.
Proof.
  unfold blob_ok. intros Hb. apply reads_bind with (size b); [apply reads_compact; lia|]. apply reads_chunks. unfold MAX_SIZE in Hb. lia.
Qed.
Lemma reads_items {A C} (f : Reader A) (g : C -> bytes) (h : C -> A) l :
  Forall (fun x => reads f (g x) (h x)) l -> reads (read_items f (length l)) (concat (map g l)) (map h l).
Proof.
  induction 1 as [|x l Hx Hl IH]; cbn [length read_items map concat]; [apply reads_ret|].
  apply reads_bind with (h x); [done|]. apply reads_last with (map h l); [done|apply reads_ret].
Qed.
Lemma reads_vector {A C} (f : Reader A) (g : C -> bytes) (h : C -> A) l :
  size l <= MAX_SIZE -> Forall (fun x => reads f (g x) (h x)) l -> reads (Unserialize_vector f) (Serialize_vector g l) (map h l).
Proof.
  intros Hl Hf. apply reads_bind with (size l); [apply reads_compact; lia|]. rewrite Nat2Z.id. by apply reads_items.
Qed.
Lemma reads_outpoint o : outpoint_ok o -> reads Unserialize_outpoint (Serialize_outpoint o) o.
Proof.
  destruct o as [h n]. intros [Hh Hn]. apply reads_bind with h; [apply reads_read; cbn in *; lia|].
  apply reads_last with n; [by apply reads_uint|apply reads_ret].
Qed.
Lemma reads_txin i : txin_ok i -> reads Unserialize_txin (Serialize_txin i) (strip_witness i).
Proof.
  destruct i as [o s q w]. intros (Ho & Hs & Hq & _). apply reads_bind with o; [by apply reads_outpoint|].
  apply reads_bind with s; [by apply reads_blob|]. apply reads_last with q; [by apply reads_uint|apply reads_ret].
Qed.
(** Two's complement *)
Lemma ReadLE_signed n x : (0 < n)%nat -> - 256 ^ Z.of_nat n <= 2 * x < 256 ^ Z.of_nat n ->
  reads (read_uint n) (WriteLE n x) (x mod 256 ^ Z.of_nat n).
Proof.
  intros Hn Hx. rewrite (WriteLE_mod n x (x mod 256 ^ Z.of_nat n)) by (by rewrite Z.mod_mod by lia).
  apply reads_uint. apply Z.mod_pos_bound. lia.
Qed.
Lemma s64_mod x : - 2 ^ 63 <= x < 2 ^ 63 -> CScriptNum.s64 (x mod 256 ^ 8) = x.
Proof.
  intros Hx. unfold CScriptNum.s64. change (256 ^ 8) with (2 ^ 64). rewrite Z.mod_mod by lia.
  pose proof (Z.div_mod x (2 ^ 64) ltac:(lia)). pose proof (Z.mod_pos_bound x (2 ^ 64) ltac:(lia)).
  case_match eqn:E; [apply Z.ltb_lt in E|apply Z.ltb_ge in E]; nia.
Qed.
Lemma s32_mod x : - 2 ^ 31 <= x < 2 ^ 31 -> s32 (x mod 256 ^ 4) = x.
Proof.
  intros Hx. unfold s32, wrap. change (256 ^ 4) with (2 ^ 32). rewrite Z.mod_mod by lia.
  pose proof (Z.div_mod x (2 ^ 32) ltac:(lia)). pose proof (Z.mod_pos_bound x (2 ^ 32) ltac:(lia)).
  case_match eqn:E; [apply Z.ltb_lt in E|apply Z.ltb_ge in E]; nia.
Qed.
Lemma reads_txout o : txout_ok o -> reads Unserialize_txout (Serialize_txout o) o.
Proof.
  destruct o as [v s]. intros [Hv Hs]. cbn [nValue scriptPubKey] in *. apply reads_bind with (v mod 256 ^ 8); [apply (ReadLE_signed 8); [lia|cbn; lia]|].
  apply reads_last with s; [by apply reads_blob|]. rewrite s64_mod by done. apply reads_ret.
Qed.
Lemma reads_witnesses vin : Forall txin_ok vin ->
  reads (read_witnesses (map strip_witness vin)) (concat (map (fun i => Serialize_vector Serialize_blob (scriptWitness i)) vin)) vin.
Proof.
  induction 1 as [|i vin (_ & _ & _ & Hw & Hb) Hl IH]; cbn [map concat read_witnesses]; [apply reads_ret|].
  apply reads_bind with (scriptWitness i).
  - rewrite <- (map_id (scriptWitness i)) at 2. apply reads_vector; [done|]. eapply List.Forall_impl; [|exact Hb]. intros b. apply reads_blob.
  - apply reads_last with vin; [done|]. destruct i as [o s q w]. apply reads_ret.
Qed.

Lemma reads_vins vin : size vin <= MAX_SIZE -> Forall txin_ok vin -> reads (Unserialize_vector Unserialize_txin) (Serialize_vector Serialize_txin vin) (map strip_witness vin).
Proof. intros Hl Hv. apply reads_vector; [done|]. eapply List.Forall_impl; [|exact Hv]. intros i. apply reads_txin. Qed.
Lemma reads_vouts vout : size vout <= MAX_SIZE -> Forall txout_ok vout -> reads (Unserialize_vector Unserialize_txout) (Serialize_vector Serialize_txout vout) vout.
Proof.
  intros Hl Hv. rewrite <- (map_id vout) at 2. apply reads_vector; [done|]. eapply List.Forall_impl; [|exact Hv]. intros o. apply reads_txout.
Qed.
Lemma no_witness vin : HasWitness vin = false -> map strip_witness vin = vin.
Proof.
  induction vin as [|[o s q w] vin IH]; [done|]. cbn [HasWitness existsb map strip_witness prevout scriptSig nSequence scriptWitness].
  intros [Hw Hv]%orb_false_iff. destruct w; [|done]. f_equal. by apply IH.
Qed.
Definition strip (tx : CMutableTransaction) : CMutableTransaction :=
  mkMutable (mt_nVersion tx) (map strip_witness (mt_vin tx)) (mt_vout tx) (mt_nLockTime tx).

Section Read.
Context (tx : CMutableTransaction) (Htx : tx_ok tx).
Abbreviation plain_body := (WriteLE 4 (mt_nVersion tx) ++ Serialize_vector Serialize_txin (mt_vin tx) ++ Serialize_vector Serialize_txout (mt_vout tx) ++ WriteLE 4 (mt_nLockTime tx)).

Lemma reads_plain fAllowWitness : (fAllowWitness = true -> mt_vin tx <> []) -> reads (UnserializeTransaction fAllowWitness) plain_body (strip tx).
Proof.
  intros Hne. destruct Htx as (Hv & Hl & Hi & Ho & Hin & Hout).
  apply reads_bind with (mt_nVersion tx mod 256 ^ 4); [apply (ReadLE_signed 4); [lia|cbn; lia]|].
  apply reads_bind with (map strip_witness (mt_vin tx)); [by apply reads_vins|].
  assert ((size (map strip_witness (mt_vin tx)) =? 0) && fAllowWitness = false) as ->.
  { rewrite length_map. destruct fAllowWitness; [|apply andb_false_r]. specialize (Hne eq_refl). destruct (mt_vin tx); [done|reflexivity]. }
  apply reads_bind with (0, map strip_witness (mt_vin tx), mt_vout tx); [apply reads_last with (mt_vout tx); [by apply reads_vouts|apply reads_ret]|].
  cbn [Z.land Z.eqb negb andb]. apply (reads_bind _ _ [] _ (0, map strip_witness (mt_vin tx))); [apply reads_ret|].
  cbn [Z.eqb negb]. apply reads_last with (mt_nLockTime tx); [apply (reads_uint 4); cbn; lia|]. rewrite s32_mod by done. apply reads_ret.
Qed.
Lemma reads_extended : HasWitness (mt_vin tx) = true -> reads (UnserializeTransaction true) (SerializeTransaction true tx) tx.
Proof.
  intros Hw. destruct Htx as (Hv & Hl & Hi & Ho & Hin & Hout). unfold SerializeTransaction. rewrite Hw. cbn [andb]. rewrite <- app_assoc.
  apply reads_bind with (mt_nVersion tx mod 256 ^ 4); [apply (ReadLE_signed 4); [lia|cbn; lia]|].
  apply reads_bind with (@nil CTxIn); [apply (reads_vins []); [done|constructor]|]. cbn [length Z.of_nat Z.eqb andb].
  rewrite (app_assoc [1]), (app_assoc _ (Serialize_vector Serialize_txout _)).
  apply reads_bind with (1, map strip_witness (mt_vin tx), mt_vout tx).
  { rewrite <- app_assoc. apply (reads_bind _ _ [1] _ 1); [by apply (reads_uint 1 1)|]. cbn [Z.eqb negb].
    apply reads_bind with (map strip_witness (mt_vin tx)); [by apply reads_vins|]. apply reads_last with (mt_vout tx); [by apply reads_vouts|apply reads_ret]. }
  cbn [Z.land Pos.land Z.eqb Pos.eqb negb andb]. apply reads_bind with (0, mt_vin tx).
  - apply reads_last with (mt_vin tx); [by apply reads_witnesses|apply reads_ret].
  - cbn [Z.eqb negb]. apply reads_last with (mt_nLockTime tx); [apply (reads_uint 4); cbn; lia|]. rewrite s32_mod by done. destruct tx. apply reads_ret.
Qed.
End Read.

Lemma reads_transaction fAllowWitness tx : tx_ok tx -> (fAllowWitness = true -> mt_vin tx <> []) ->
  reads (UnserializeTransaction fAllowWitness) (SerializeTransaction fAllowWitness tx) (if fAllowWitness then tx else strip tx).
Proof.
  intros Ht Hne. destruct (fAllowWitness && HasWitness (mt_vin tx)) eqn:Hw.
  - apply andb_true_iff in Hw as [-> Hw]. by apply reads_extended.
  - pose proof (reads_plain tx Ht fAllowWitness Hne) as Hr. unfold SerializeTransaction. rewrite Hw. cbn [app].
    destruct fAllowWitness; [|exact Hr]. unfold strip in Hr. rewrite no_witness in Hr by done. by destruct tx.
Qed.
Lemma reads_inj {A} (f : Reader A) b a a' : reads f b a -> reads f b a' -> a = a'.
Proof. intros H1 H2. specialize (H1 []). rewrite (H2 []) in H1. by injection H1. Qed.
Lemma stripped_inj tx1 tx2 : tx_ok tx1 -> tx_ok tx2 -> SerializeTransaction false tx1 = SerializeTransaction false tx2 -> strip tx1 = strip tx2.
Proof.
  intros H1 H2 E. apply (reads_inj (UnserializeTransaction false) (SerializeTransaction false tx1)).
  - by apply (reads_transaction false).
  - rewrite E. by apply (reads_transaction false).
Qed.

(** ** Claims *)

(** C19: A transaction is read as it was written.  Let its counts, scripts and witness items be
    within [MAX_SIZE] and its integers within their widths, and let it have an input if
    witnesses are allowed.  Whatever follows in the stream, [UnserializeTransaction]
    takes exactly the bytes [SerializeTransaction] wrote and returns the transaction,
    in the extended format when an input has a witness and in the basic format
    otherwise; when witnesses are not allowed it returns the transaction without
    them. *)
Theorem transaction_roundtrip (fAllowWitness : bool) (tx : CMutableTransaction) (rest : bytes) :
  tx_ok tx -> (fAllowWitness = true -> mt_vin tx <> []) ->
  UnserializeTransaction fAllowWitness (SerializeTransaction fAllowWitness tx ++ rest) = (Ok (if fAllowWitness then tx else strip tx), rest).
Proof. intros Ht Hne. by apply (reads_transaction fAllowWitness tx Ht Hne). Qed.
Definition toy_witness_tx : CMutableTransaction :=
  mkMutable (-1) [mkTxIn (mkOutPoint (replicate 32 9) 1) [0x51; 0x52] 0xfffffffe [[1; 2; 3]; []]; mkTxIn (mkOutPoint (replicate 32 8) 0) [] 0 []]
    [mkTxOut (-1) (replicate 300 0x6a); mkTxOut 7 []] 500000000.
Lemma transaction_roundtrip_witness :
  UnserializeTransaction true (SerializeTransaction true toy_witness_tx ++ [1; 2]) = (Ok toy_witness_tx, [1; 2]) /\
  mt_vin toy_witness_tx <> mt_vin (strip toy_witness_tx).
Proof.
  split; [apply (transaction_roundtrip true)|]; [|done|discriminate].
  split; [by cbn|]. split; [by cbn|]. split; [done|]. split; [done|]. split; repeat constructor; cbn; try done; try lia.
Defined.

(** ** What can be read at all

    A reader either returns a value of its type from a prefix of the stream or
    throws; nothing it does on a stream of bytes is undefined. *)
Definition typed {A} (P : A -> Prop) (f : Reader A) : Prop :=
  forall s, bytes_ok s -> wp f (fun a s' => P a /\ s' `suffix_of` s) (fun r _ => exists w, r = Throw w) s.

Lemma suffix_bytes_ok s s' : bytes_ok s -> s' `suffix_of` s -> bytes_ok s'.
Proof. intros Hs [k ->]. apply bytes_ok_app in Hs as [_ ?]. done. Qed.
Section Typed.
Context {A B : Type}.
Lemma typed_ret (P : A -> Prop) a : P a -> typed P (mret a).
Proof. intros Ha s _. by apply wp_ret. Qed.
Lemma typed_throw (P : A -> Prop) w : typed P (throw w).
Proof. intros s _. apply wp_throw. by exists w. Qed.
Lemma typed_bind (P : A -> Prop) (Q : B -> Prop) f k : typed P f -> (forall a, P a -> typed Q (k a)) -> typed Q (f ≫= k).
Proof.
  intros Hf Hk s Hs. apply wp_bind. specialize (Hf s Hs). unfold wp in Hf |- *. destruct (f s) as [[a| | | | |] s']; try done.
  destruct Hf as [Ha Hsf]. specialize (Hk a Ha s' (suffix_bytes_ok _ _ Hs Hsf)). unfold wp in Hk.
  destruct (k a s') as [[b| | | | |] s'']; try done. destruct Hk as [Hb Hsf']. split; [done|]. by transitivity s'.
Qed.
Lemma typed_if (P : A -> Prop) (b : bool) f g : typed P f -> typed P g -> typed P (if b then f else g).
Proof. by destruct b. Qed.
End Typed.



Lemma typed_read n : 0 <= n -> typed (fun l => bytes_ok l /\ size l = n) (read n).
Proof.
  intros Hn s Hs. unfold wp, read. destruct (Z.ltb_spec (size s) n); [by eexists|].
  repeat split; [by apply bytes_ok_take|rewrite length_take; lia|]. exists (take (Z.to_nat n) s). by rewrite take_drop.
Qed.
Lemma typed_uint n : typed (fun x => 0 <= x < 256 ^ Z.of_nat n) (read_uint n).
Proof.
  unfold read_uint. eapply typed_bind; [apply typed_read; lia|]. cbn beta. intros l [Hl Hn]. apply typed_ret. rewrite <- Hn. by apply ReadLE_range.
Qed.
Lemma typed_compact : typed (fun n => 0 <= n <= MAX_SIZE) ReadCompactSize.
Proof.
  assert (forall k lo, typed (fun x => 0 <= x) (n ← read_uint k; if n <? lo then throw "non-canonical ReadCompactSize()" else mret n)) as Hcan.
  { intros k lo. eapply typed_bind; [apply typed_uint|]. cbn beta. intros n Hn. apply typed_if; [apply typed_throw|apply typed_ret; lia]. }
  unfold ReadCompactSize. eapply typed_bind; [apply typed_uint|]. cbn beta. intros c Hc. apply (typed_bind (fun x => 0 <= x)).
  - repeat apply typed_if; [apply typed_ret; lia|apply Hcan..].
  - intros n Hn. destruct (Z.ltb_spec MAX_SIZE n); [apply typed_throw|apply typed_ret; lia].
Qed.
Lemma typed_chunks fuel n : n <= 5000000 * Z.of_nat fuel -> typed (fun l => size l = Z.max n 0) (read_chunks fuel n).
Proof.
  revert n. induction fuel as [|fuel IH]; intros n Hn; cbn [read_chunks]; destruct (Z.leb_spec n 0) as [H0|H0]; [apply typed_ret; cbn; lia|lia|apply typed_ret; cbn; lia|].
  eapply typed_bind; [apply typed_read; lia|]. cbn beta. intros l [_ Hl]. eapply typed_bind; [apply IH; lia|]. cbn beta. intros m Hm.
  apply typed_ret. rewrite length_app. lia.
Qed.
Lemma typed_blob : typed blob_ok Unserialize_blob.
Proof.
  unfold Unserialize_blob. eapply typed_bind; [apply typed_compact|]. cbn beta. intros n Hn. intros s Hs. eapply wp_mono; [apply (typed_chunks 7 n); [unfold MAX_SIZE in Hn; lia|done]| |done].
  intros l s' [Hl Hsf]. split; [unfold blob_ok; lia|done].
Qed.
Lemma typed_items {A} (P : A -> Prop) f n : typed P f -> typed (fun l => length l = n /\ Forall P l) (read_items f n).
Proof.
  intros Hf. induction n as [|n IH]; cbn [read_items]; [by apply typed_ret|]. eapply typed_bind; [exact Hf|]. intros x Hx.
  eapply typed_bind; [exact IH|]. cbn beta. intros l [Hn Hl]. apply typed_ret. split; [cbn; lia|by constructor].
Qed.
Lemma typed_vector {A} (P : A -> Prop) f : typed P f -> typed (fun l => size l <= MAX_SIZE /\ Forall P l) (Unserialize_vector f).
Proof.
  unfold Unserialize_vector. intros Hf. eapply typed_bind; [apply typed_compact|]. cbn beta. intros n Hn s Hs.
  eapply wp_mono; [by apply (typed_items P f (Z.to_nat n))| |done]. intros l s' [[El Hl] Hsf]. split; [split; [lia|done]|done].
Qed.
Lemma typed_txin : typed txin_ok Unserialize_txin.
Proof.
  unfold Unserialize_txin. apply (typed_bind outpoint_ok).
  { unfold Unserialize_outpoint. eapply typed_bind; [by apply typed_read|]. cbn beta. intros h [_ Hh]. eapply typed_bind; [apply typed_uint|]. cbn beta. intros n Hn.
    apply typed_ret. split; [cbn; lia|done]. }
  intros o Ho. eapply typed_bind; [apply typed_blob|]. intros b Hb. eapply typed_bind; [apply typed_uint|]. cbn beta. intros q Hq.
  apply typed_ret. by repeat split; try apply Ho; cbn; try lia; try constructor.
Qed.
Lemma s64_range x : - 2 ^ 63 <= CScriptNum.s64 x < 2 ^ 63.
Proof. unfold CScriptNum.s64. pose proof (Z.mod_pos_bound x (2 ^ 64) ltac:(lia)). case_match eqn:E; [apply Z.ltb_lt in E|apply Z.ltb_ge in E]; lia. Qed.
Lemma s32_range x : - 2 ^ 31 <= s32 x < 2 ^ 31.
Proof. unfold s32, wrap. pose proof (Z.mod_pos_bound x (2 ^ 32) ltac:(lia)). case_match eqn:E; [apply Z.ltb_lt in E|apply Z.ltb_ge in E]; lia. Qed.
Lemma typed_txout : typed txout_ok Unserialize_txout.
Proof.
  unfold Unserialize_txout. eapply typed_bind; [apply typed_uint|]. intros v _. eapply typed_bind; [apply typed_blob|]. intros b Hb. apply typed_ret.
  split; [apply s64_range|done].
Qed.
Lemma typed_witnesses vin : Forall txin_ok vin -> typed (fun l => length l = length vin /\ Forall txin_ok l) (read_witnesses vin).
Proof.
  induction 1 as [|i vin Hi Hv IH]; cbn [read_witnesses]; [by apply typed_ret|]. eapply typed_bind; [apply typed_vector, typed_blob|]. cbn beta. intros w [Hw Hb].
  eapply typed_bind; [exact IH|]. cbn beta. intros l [Hl Hf]. apply typed_ret. split; [cbn; lia|]. constructor; [|done].
  destruct Hi as (Ho & Hs & Hq & _). done.
Qed.
Lemma typed_transaction fAllowWitness : typed tx_ok (UnserializeTransaction fAllowWitness).
Proof.
  unfold UnserializeTransaction. eapply typed_bind; [apply typed_uint|]. intros v _. eapply typed_bind; [apply typed_vector, typed_txin|]. cbn beta. intros l [Hl Hf].
  set (ok := fun p : list CTxIn * list CTxOut => size p.1 <= MAX_SIZE /\ Forall txin_ok p.1 /\ size p.2 <= MAX_SIZE /\ Forall txout_ok p.2).
  apply (typed_bind (fun '(flags, vin, vout) => ok (vin, vout))).
  { apply typed_if.
    - eapply typed_bind; [apply typed_uint|]. intros flags _. apply typed_if; [|by apply typed_ret].
      eapply typed_bind; [apply typed_vector, typed_txin|]. cbn beta. intros l' [Hl' Hf'].
      eapply typed_bind; [apply typed_vector, typed_txout|]. cbn beta. intros o [Ho Hof]. by apply typed_ret.
    - eapply typed_bind; [apply typed_vector, typed_txout|]. cbn beta. intros o [Ho Hof]. by apply typed_ret. }
  intros [[flags vin] vout] (Hi & Hif & Ho & Hof). cbn [fst snd] in *. apply (typed_bind (fun '(flags, vin) => ok (vin, vout))).
  - apply typed_if; [|by apply typed_ret]. eapply typed_bind; [by apply typed_witnesses|]. cbn beta. intros l' [Hl' Hf']. apply typed_ret.
    split; [cbn; lia|done].
  - intros [flags' vin'] (Hi' & Hif' & _). cbn [fst snd] in *. apply typed_if; [apply typed_throw|]. eapply typed_bind; [apply typed_uint|]. intros t Ht.
    apply typed_ret. split; [apply s32_range|]. split; [exact Ht|done].
Qed.

(** C20: Reading a transaction from any bytes either throws or returns a well-formed one
    (its counts and scripts within [MAX_SIZE], its integers within their widths) and
    leaves a suffix of the stream: no input makes the reader undefined or endless.
    A transaction that was read and has an input can be written and is read again as
    it is. *)
Theorem transaction_reader_typed (fAllowWitness : bool) (s : bytes) :
  bytes_ok s ->
  (exists w s', UnserializeTransaction fAllowWitness s = (Throw w, s')) \/
  exists tx k s', UnserializeTransaction fAllowWitness s = (Ok tx, s') /\ s = k ++ s' /\ tx_ok tx /\
    (mt_vin tx <> [] -> forall rest, UnserializeTransaction true (SerializeTransaction true tx ++ rest) = (Ok tx, rest)).
Proof.
  intros Hs. pose proof (typed_transaction fAllowWitness s Hs) as Ht. unfold wp in Ht.
  destruct (UnserializeTransaction fAllowWitness s) as [[tx|w|w|w|c|] s'] eqn:E; try (destruct Ht as [? [=]]; fail).
  - destruct Ht as [Htx [k Hk]]. right. exists tx, k, s'. split; [done|]. split; [done|]. split; [done|]. intros Hne. by apply (reads_transaction true).
  - left. by exists w, s'.
Qed.
Lemma transaction_reader_typed_witness : exists w s', UnserializeTransaction true [1; 0; 0; 0; 0; 2; 0; 0] = (Throw w, s').
Proof.
  destruct (transaction_reader_typed true [1; 0; 0; 0; 0; 2; 0; 0]) as [Hw|(tx & k & s' & E & _)]; [by apply bytes_ok_check|exact Hw|].
  vm_compute in E. discriminate E.
Defined.
