(* ===== verification/SigHash.v ===== *)
(** * The hash that is signed, and the signature checker of a transaction

    Model of [CTransactionSignatureSerializer], [SignatureHash],
    [PrecomputedTransactionData] and [TransactionSignatureChecker]
    ([src/src/script/interpreter.cpp]), and of the validity of a public key
    ([src/src/pubkey.h]).  The check of a signature on the curve belongs to
    secp256k1 and is a parameter. *)

From S2P Require Import Prelude Script Interpreter Coins TxSerialize.

Section SignatureHash.
Context `{SC : ScriptCrypto}.

(** ** [class CTransactionSignatureSerializer] *)
Record Serializer := mkSerializer {
  txTo : CTransaction;
  scriptCode : bytes;
  nIn : nat;
  fAnyoneCanPay : bool;
  fHashSingle : bool;
  fHashNone : bool
}.
Definition Serializer_new (tx : CTransaction) (code : bytes) (i : nat) (nHashTypeIn : Z) : Serializer :=
  mkSerializer tx code i (Interpreter.has nHashTypeIn SIGHASH_ANYONECANPAY)
    (Z.land nHashTypeIn 0x1f =? SIGHASH_SINGLE) (Z.land nHashTypeIn 0x1f =? SIGHASH_NONE).

(** Where [GetOp(it, opcode)] leaves the iterator when it returns false: behind
    what it has read. *)
Definition GetOp_stop (pc : bytes) : bytes :=
  match pc with
  | [] => []
  | opcode :: pc =>
    let n := if opcode =? OP_PUSHDATA1 then 1%nat else if opcode =? OP_PUSHDATA2 then 2%nat
             else if opcode =? OP_PUSHDATA4 then 4%nat else 0%nat in
    if (length pc <? n)%nat then pc else drop n pc
  end.

(** The second loop of [SerializeScriptCode]: iterators are what is left of the
    script; [out] is what was written.  The result also has [itBegin] and [it]. *)
Fixpoint code_loop (fuel : nat) (it itBegin out : bytes) : outcome (bytes * bytes * bytes) :=
  match fuel with
  | O => Diverge
  | S fuel =>
    match CScript.GetOp2 it with
    | None => Ok (out, itBegin, GetOp_stop it)
    | Some (opcode, _, it) =>
      if opcode =? OP_CODESEPARATOR
      then code_loop fuel it it (out ++ take (length itBegin - length it - 1) itBegin)
      else code_loop fuel it itBegin out
    end
  end.
Definition SerializeScriptCode (script : bytes) : outcome bytes :=
  let nCodeSeparators := CScript.over script id (fun n opcode _ => if opcode =? OP_CODESEPARATOR then n + 1 else n) 0 in
  r ← code_loop (S (length script)) script script [];
  let '(out, itBegin, it) := r in
  Ok (WriteCompactSize (size script - nCodeSeparators) ++
      match itBegin with [] => out | _ => out ++ take (length itBegin - length it) itBegin end).

(** An element of a vector: an index out of range is undefined. *)
Definition elem {A} (l : list A) (i : nat) : outcome A :=
  match l !! i with Some x => Ok x | None => Undef "index out of range" end.

Definition SerializeInput (s : Serializer) (nInput : nat) : outcome bytes :=
  let nInput := if fAnyoneCanPay s then nIn s else nInput in
  i ← elem (vin (txTo s)) nInput;
  code ← (if negb (nInput =? nIn s)%nat then Ok (Serialize_blob []) else SerializeScriptCode (scriptCode s));
  Ok (Serialize_outpoint (prevout i) ++ code ++
      (if negb (nInput =? nIn s)%nat && (fHashSingle s || fHashNone s) then WriteLE 4 0 else WriteLE 4 (nSequence i))).
Definition SerializeOutput (s : Serializer) (nOutput : nat) : outcome bytes :=
  if fHashSingle s && negb (nOutput =? nIn s)%nat then Ok (Serialize_txout CTxOut_null)
  else o ← elem (vout (txTo s)) nOutput; Ok (Serialize_txout o).
(** [for (i = first; i < first + n; i++) f(i)] *)
Fixpoint write_each (f : nat -> outcome bytes) (first n : nat) : outcome bytes :=
  match n with O => Ok [] | S n => b ← f first; l ← write_each f (S first) n; Ok (b ++ l) end.
Definition Serialize_for_signature (s : Serializer) : outcome bytes :=
  let nInputs := if fAnyoneCanPay s then 1%nat else length (vin (txTo s)) in
  let nOutputs := if fHashNone s then 0%nat else if fHashSingle s then S (nIn s) else length (vout (txTo s)) in
  ins ← write_each (SerializeInput s) 0 nInputs;
  outs ← write_each (SerializeOutput s) 0 nOutputs;
  Ok (WriteLE 4 (nVersion (txTo s)) ++ WriteCompactSize (Z.of_nat nInputs) ++ ins ++
      WriteCompactSize (Z.of_nat nOutputs) ++ outs ++ WriteLE 4 (nLockTime (txTo s))).

(** ** [SignatureHash] *)
Definition GetPrevoutHash (tx : CTransaction) : bytes := Hash256 (concat (map (fun i => Serialize_outpoint (prevout i)) (vin tx))).
Definition GetSequenceHash (tx : CTransaction) : bytes := Hash256 (concat (map (fun i => WriteLE 4 (nSequence i)) (vin tx))).
Definition GetOutputsHash (tx : CTransaction) : bytes := Hash256 (concat (map Serialize_txout (vout tx))).
Record PrecomputedTransactionData := mkPrecomputed { hashPrevouts : bytes; hashSequence : bytes; hashOutputs : bytes }.
Definition Precomputed_of (tx : CTransaction) : PrecomputedTransactionData :=
  mkPrecomputed (GetPrevoutHash tx) (GetSequenceHash tx) (GetOutputsHash tx).

Definition uint256_one : bytes := 1 :: replicate 31 0.
(** What a signature of a witness program hashes *)
Definition witness_preimage (scriptCode : bytes) (tx : CTransaction) (nIn : nat) (nHashType amount : Z)
    (cache : option PrecomputedTransactionData) : outcome bytes :=
  let base := Z.land nHashType 0x1f in
  let anyone := Interpreter.has nHashType SIGHASH_ANYONECANPAY in
  let hashPrevouts := if negb anyone then match cache with Some c => hashPrevouts c | None => GetPrevoutHash tx end else uint256_null in
  let hashSequence := if negb anyone && negb (base =? SIGHASH_SINGLE) && negb (base =? SIGHASH_NONE)
    then match cache with Some c => hashSequence c | None => GetSequenceHash tx end else uint256_null in
  let hashOutputs := if negb (base =? SIGHASH_SINGLE) && negb (base =? SIGHASH_NONE)
    then match cache with Some c => hashOutputs c | None => GetOutputsHash tx end
    else if (base =? SIGHASH_SINGLE) && (nIn <? length (vout tx))%nat
    then match vout tx !! nIn with Some o => Hash256 (Serialize_txout o) | None => uint256_null end
    else uint256_null in
  i ← elem (vin tx) nIn;
  Ok (WriteLE 4 (nVersion tx) ++ hashPrevouts ++ hashSequence ++ Serialize_outpoint (prevout i) ++ Serialize_blob scriptCode ++
      WriteLE 8 amount ++ WriteLE 4 (nSequence i) ++ hashOutputs ++ WriteLE 4 (nLockTime tx) ++ WriteLE 4 nHashType).
Definition SignatureHash (scriptCode : bytes) (tx : CTransaction) (nIn : nat) (nHashType amount : Z) (sigversion : SigVersion)
    (cache : option PrecomputedTransactionData) : outcome bytes :=
  match sigversion with
  | SIGVERSION_WITNESS_V0 => m ← witness_preimage scriptCode tx nIn nHashType amount cache; Ok (Hash256 m)
  | SIGVERSION_BASE =>
    if (length (vin tx) <=? nIn)%nat then Ok uint256_one
    else if (Z.land nHashType 0x1f =? SIGHASH_SINGLE) && (length (vout tx) <=? nIn)%nat then Ok uint256_one
    else
      m ← Serialize_for_signature (Serializer_new tx scriptCode nIn nHashType);
      Ok (Hash256 (m ++ WriteLE 4 nHashType))
  end.

(** ** [class TransactionSignatureChecker] *)

(** [CPubKey::GetLen], and the constructor with [IsValid()] *)
Definition GetLen (chHeader : Z) : Z :=
  if (chHeader =? 2) || (chHeader =? 3) then 33
  else if (chHeader =? 4) || (chHeader =? 6) || (chHeader =? 7) then 65 else 0.
Definition PubKey_IsValid (vch : bytes) : bool :=
  match vch with [] => false | h :: _ => negb (GetLen h =? 0) && (GetLen h =? size vch) end.

Context (Verify : bytes -> bytes -> bytes -> bool).
Record TxChecker := mkTxChecker { ck_tx : CTransaction; ck_nIn : nat; ck_amount : Z; ck_txdata : option PrecomputedTransactionData }.
Definition CheckSig_tx (c : TxChecker) (vchSigIn vchPubKey scriptCode : bytes) (sigversion : SigVersion) : outcome bool :=
  if negb (PubKey_IsValid vchPubKey) then Ok false
  else
    match vchSigIn with
    | [] => Ok false
    | _ =>
      let nHashType := List.last vchSigIn 0 in
      let vchSig := removelast vchSigIn in
      sighash ← SignatureHash scriptCode (ck_tx c) (ck_nIn c) nHashType (ck_amount c) sigversion (ck_txdata c);
      Ok (Verify vchPubKey sighash vchSig)
    end.
Definition LOCKTIME_THRESHOLD : Z := 500000000.
Definition SEQUENCE_FINAL : Z := 0xffffffff.
Definition SEQUENCE_LOCKTIME_TYPE_FLAG : Z := Z.shiftl 1 22.
Definition SEQUENCE_LOCKTIME_MASK : Z := 0x0000ffff.
Definition CheckLockTime_tx (c : TxChecker) (n : Z) : outcome bool :=
  let locktime := nLockTime (ck_tx c) in
  if negb (((locktime <? LOCKTIME_THRESHOLD) && (n <? LOCKTIME_THRESHOLD)) ||
           ((LOCKTIME_THRESHOLD <=? locktime) && (LOCKTIME_THRESHOLD <=? n))) then Ok false
  else if locktime <? n then Ok false
  else i ← elem (vin (ck_tx c)) (ck_nIn c); Ok (negb (SEQUENCE_FINAL =? nSequence i)).
Definition CheckSequence_tx (c : TxChecker) (n : Z) : outcome bool :=
  i ← elem (vin (ck_tx c)) (ck_nIn c);
  let txToSequence := nSequence i in
  if u32 (nVersion (ck_tx c)) <? 2 then Ok false
  else if negb (Z.land txToSequence SEQUENCE_LOCKTIME_DISABLE_FLAG =? 0) then Ok false
  else
    let nLockTimeMask := Z.lor SEQUENCE_LOCKTIME_TYPE_FLAG SEQUENCE_LOCKTIME_MASK in
    let txToSequenceMasked := Z.land txToSequence nLockTimeMask in
    let nSequenceMasked := Z.land n nLockTimeMask in
    if negb (((txToSequenceMasked <? SEQUENCE_LOCKTIME_TYPE_FLAG) && (nSequenceMasked <? SEQUENCE_LOCKTIME_TYPE_FLAG)) ||
             ((SEQUENCE_LOCKTIME_TYPE_FLAG <=? txToSequenceMasked) && (SEQUENCE_LOCKTIME_TYPE_FLAG <=? nSequenceMasked))) then Ok false
    else Ok (negb (txToSequenceMasked <? nSequenceMasked)).

(** The checker the interpreter is given.  It asks about the input [nIn], which is
    one of the transaction's, so no answer is undefined ([SigHashThms]). *)
Definition defined (r : outcome bool) : bool := match r with Ok b => b | _ => false end.
Definition TransactionSignatureChecker (c : TxChecker) : SignatureChecker :=
  mkChecker (fun sig key code v => defined (CheckSig_tx c sig key code v)) (fun n => defined (CheckLockTime_tx c n))
    (fun n => defined (CheckSequence_tx c n)).
End SignatureHash.
