(* ===== verification/SigHashThms.v ===== *)
(** * What a signature signs

    [SerializeScriptCode] writes the script without its code separators; the
    serializer that makes its changes on the way writes the serialization of a
    changed copy; the hash commits to what the type of the signature says. *)

From S2P Require Import Prelude Script ScriptProofs Interpreter InterpreterSafe Coins TxSerialize TxSerializeThms SigHash.

(** ** Scripts without code separators *)
Lemma GetOp2_split pc o v pc' : CScript.GetOp2 pc = Some (o, v, pc') ->
  exists q, pc = q ++ pc' /\ q <> [] /\ (o = OP_CODESEPARATOR -> q = [OP_CODESEPARATOR]).
Proof.
  destruct pc as [|op pc]; [done|]. cbn [CScript.GetOp2].
  assert (forall n l, (op <=? OP_PUSHDATA4) = true -> CScript.take_data op n (drop l pc) = Some (o, v, pc') ->
    exists q, op :: pc = q ++ pc' /\ q <> [] /\ (o = OP_CODESEPARATOR -> q = [OP_CODESEPARATOR])) as Ht.
  { intros n l Hle. unfold CScript.take_data. case_match; intros [= <- <- <-]. exists (op :: take l pc ++ take (Z.to_nat n) (drop l pc)).
    cbn [app]. rewrite <- app_assoc, !take_drop. split; [done|]. split; [done|]. intros ->. done. }
  destruct (op <=? OP_PUSHDATA4) eqn:Hle.
  - repeat case_match; try done; intros E; first [exact (Ht _ 0%nat eq_refl E)|exact (Ht _ 1%nat eq_refl E)|exact (Ht _ 2%nat eq_refl E)|exact (Ht _ 4%nat eq_refl E)].
  - intros [= <- <- <-]. exists [op]. split; [done|]. split; [done|]. by intros ->.
Qed.

(** The bytes of the instructions but the separators; a part that cannot be read
    is left out from where [GetOp] stops. *)
Fixpoint clean_loop (fuel : nat) (pc : bytes) : bytes :=
  match fuel with
  | O => []
  | S fuel =>
    match CScript.GetOp2 pc with
    | None => take (length pc - length (GetOp_stop pc)) pc
    | Some (o, _, pc') => (if o =? OP_CODESEPARATOR then [] else take (length pc - length pc') pc) ++ clean_loop fuel pc'
    end
  end.
Definition clean (script : bytes) : bytes := clean_loop (S (length script)) script.
(** Every instruction can be read. *)
Fixpoint readable (fuel : nat) (pc : bytes) : bool :=
  match pc, fuel with
  | [], _ => true
  | _, O => false
  | _, S fuel => match CScript.GetOp2 pc with None => false | Some (_, _, pc') => readable fuel pc' end
  end.
Definition well_formed (script : bytes) : bool := readable (length script) script.

Lemma take_between (q l : bytes) : take (length (q ++ l) - length l) (q ++ l) = q.
Proof. rewrite length_app. replace (length q + length l - length l)%nat with (length q) by lia. apply take_app_length. Qed.

Lemma GetOp_stop_suffix pc : exists q, pc = q ++ GetOp_stop pc.
Proof.
  destruct pc as [|op pc]; [by exists []|]. cbn [GetOp_stop]. case_match; [by exists [op]|].
  match goal with |- context [drop ?n pc] => exists (op :: take n pc) end. cbn [app]. by rewrite take_drop.
Qed.
Lemma code_loop_ok fuel : forall it b out, (length it < fuel)%nat -> exists out' b' e',
  code_loop fuel it (b ++ it) out = Ok (out', b', e') /\ (match b' with [] => out' | _ => out' ++ take (length b' - length e') b' end) = out ++ b ++ clean_loop fuel it.
Proof.
  induction fuel as [|fuel IH]; intros it b out Hf; [lia|]. cbn [code_loop clean_loop].
  destruct (CScript.GetOp2 it) as [[[o v] it']|] eqn:E.
  - destruct (GetOp2_split _ _ _ _ E) as (q & -> & Hq & Hsep). rewrite length_app in Hf.
    assert (length it' < fuel)%nat as Hf' by (destruct q; [done|cbn in Hf; lia]).
    destruct (Z.eqb_spec o OP_CODESEPARATOR) as [->|Hne].
    + rewrite (Hsep eq_refl) in *. destruct (IH it' [] (out ++ b) Hf') as (out' & b' & e' & Er & Eo). exists out', b', e'.
      split; [|by rewrite Eo, <- app_assoc]. rewrite <- Er. cbn [app]. do 2 f_equal.
      rewrite !length_app. cbn [length]. replace (length b + S (length it') - length it' - 1)%nat with (length b) by lia. apply take_app_length.
    + rewrite take_between. destruct (IH it' (b ++ q) out Hf') as (out' & b' & e' & Er & Eo). exists out', b', e'.
      rewrite app_assoc, Er. split; [done|]. by rewrite Eo, <- app_assoc.
  - exists out, (b ++ it), (GetOp_stop it). split; [done|]. destruct (GetOp_stop_suffix it) as [q Eq].
    assert (forall p : bytes, take (length (p ++ it) - length (GetOp_stop it)) (p ++ it) = p ++ q) as Ht.
    { intros p. rewrite Eq at 1 3. rewrite app_assoc. apply take_between. }
    pose proof (Ht []) as H0. cbn [app] in H0. rewrite H0. destruct (b ++ it) eqn:Eb; [|by rewrite <- Eb, Ht].
    apply app_eq_nil in Eb as [-> ->]. destruct q; [by rewrite app_nil_r|done].
Qed.

Lemma clean_count fuel : forall pc a, readable fuel pc = true -> forall g, (length pc < g)%nat ->
  CScript.over pc id (fun n opcode _ => if opcode =? OP_CODESEPARATOR then n + 1 else n) a = a + (size pc - size (clean_loop g pc)).
Proof.
  induction fuel as [|fuel IH]; intros pc a Hr g Hg.
  { destruct pc; [|done]. destruct g; [lia|]. rewrite over_unfold. cbn. lia. }
  rewrite over_unfold. destruct pc as [|b pc]; [destruct g; cbn; lia|]. cbn [readable] in Hr. destruct g as [|g]; [lia|]. cbn [clean_loop].
  destruct (CScript.GetOp2 (b :: pc)) as [[[o v] pc']|] eqn:E; [|done].
  destruct (GetOp2_split _ _ _ _ E) as (q & Eq & Hq & Hsep). rewrite Eq in Hg |- *. rewrite take_between, length_app in *.
  assert (length pc' < g)%nat as Hg' by (destruct q; [done|cbn in Hg; lia]).
  destruct (Z.eqb_spec o OP_CODESEPARATOR) as [->|Hne]; rewrite (IH _ _ Hr g Hg'), length_app.
  - rewrite (Hsep eq_refl). cbn [length app]. lia.
  - lia.
Qed.
Lemma SerializeScriptCode_ok s : well_formed s = true -> SerializeScriptCode s = Ok (Serialize_blob (clean s)).
Proof.
  intros Hw. unfold SerializeScriptCode. destruct (code_loop_ok (S (length s)) s [] []) as (out & b & e & E & Eo); [lia|].
  cbn [app] in *. rewrite E. cbn [mbind outcome_bind]. unfold Serialize_blob. rewrite (clean_count _ s 0 Hw (S (length s))) by lia.
  fold (clean s) in *. replace (size s - (0 + (size s - size (clean s)))) with (size (clean s)) by lia. by rewrite Eo.
Qed.
(** It always writes something, whether the script can be read or not. *)
Lemma SerializeScriptCode_total s : is_ok (SerializeScriptCode s) = true.
Proof.
  unfold SerializeScriptCode. destruct (code_loop_ok (S (length s)) s [] []) as (out & b & e & E & Eo); [lia|]. cbn [app] in *. by rewrite E.
Qed.

(** ** The copy that is signed *)
Section Copy.
Context (tx : CTransaction) (code : bytes) (nIn : nat) (h : Z).
Abbreviation anyone := (Interpreter.has h SIGHASH_ANYONECANPAY).
Abbreviation single := (Z.land h 0x1f =? SIGHASH_SINGLE).
Abbreviation none := (Z.land h 0x1f =? SIGHASH_NONE).
Definition signed_in (j : nat) (i : CTxIn) : CTxIn :=
  if (j =? nIn)%nat then mkTxIn (prevout i) (clean code) (nSequence i) []
  else mkTxIn (prevout i) [] (if single || none then 0 else nSequence i) [].
Definition signed_copy : CMutableTransaction :=
  mkMutable (nVersion tx)
    (if anyone then match vin tx !! nIn with Some i => [signed_in nIn i] | None => [] end else imap signed_in (vin tx))
    (if none then [] else if single then replicate nIn CTxOut_null ++ match vout tx !! nIn with Some o => [o] | None => [] end else vout tx)
    (nLockTime tx).

Lemma write_each_ok {A} (f : nat -> outcome bytes) (g : A -> bytes) l : forall first,
  (forall j x, l !! j = Some x -> f (first + j)%nat = Ok (g x)) -> write_each f first (length l) = Ok (concat (map g l)).
Proof.
  induction l as [|x l IH]; intros first Hf; [done|]. cbn [length write_each map concat].
  rewrite <- (Nat.add_0_r first) at 1. rewrite (Hf 0%nat x eq_refl). cbn [mbind outcome_bind]. rewrite (IH (S first)); [done|].
  intros j y Hj. rewrite <- (Hf (S j) y Hj). f_equal. lia.
Qed.
Context `{SC : ScriptCrypto} (Hcode : well_formed code = true) (Hin : (nIn < length (vin tx))%nat) (Hout : single = true -> (nIn < length (vout tx))%nat).
Abbreviation ser := (Serializer_new tx code nIn h).

Lemma elem_lookup {A} (l : list A) j x : l !! j = Some x -> elem l j = Ok x.
Proof. intros E. unfold elem. by rewrite E. Qed.
Lemma SerializeInput_ok j i : anyone = false -> vin tx !! j = Some i -> SerializeInput ser j = Ok (Serialize_txin (signed_in j i)).
Proof.
  intros Ha Hj. unfold SerializeInput, Serializer_new, signed_in. cbn [fAnyoneCanPay txTo fHashSingle fHashNone SigHash.nIn scriptCode]. rewrite Ha, (elem_lookup _ _ _ Hj). cbn [mbind outcome_bind].
  destruct (j =? nIn)%nat; cbn [negb andb].
  - rewrite SerializeScriptCode_ok by done. done.
  - unfold Serialize_txin. cbn [prevout scriptSig nSequence]. by destruct (single || none).
Qed.
Lemma SerializeInput_anyone j i : anyone = true -> vin tx !! nIn = Some i -> SerializeInput ser j = Ok (Serialize_txin (signed_in nIn i)).
Proof.
  intros Ha Hj. unfold SerializeInput, Serializer_new, signed_in. cbn [fAnyoneCanPay txTo fHashSingle fHashNone SigHash.nIn scriptCode]. rewrite Ha, (elem_lookup _ _ _ Hj). cbn [mbind outcome_bind].
  rewrite Nat.eqb_refl. cbn [negb andb]. rewrite SerializeScriptCode_ok by done. done.
Qed.
Lemma inputs_ok : write_each (SerializeInput ser) 0 (if anyone then 1 else length (vin tx)) = Ok (concat (map Serialize_txin (mt_vin signed_copy))) /\ length (mt_vin signed_copy) = if anyone then 1%nat else length (vin tx).
Proof.
  unfold signed_copy. cbn [mt_vin]. destruct anyone eqn:Ha.
  - destruct (lookup_lt_is_Some_2 _ _ Hin) as [i Hi]. rewrite Hi. split; [|done]. apply (write_each_ok (SerializeInput ser) Serialize_txin [signed_in nIn i]).
    intros [|j] x Hx; [|done]. injection Hx as <-. by apply SerializeInput_anyone.
  - rewrite length_imap. split; [|done]. rewrite <- (length_imap signed_in). apply write_each_ok.
    intros j x Hx. rewrite list_lookup_imap in Hx. destruct (vin tx !! j) as [i|] eqn:Hi; [|done]. injection Hx as <-. by apply SerializeInput_ok.
Qed.
Lemma outputs_ok : write_each (SerializeOutput ser) 0 (if none then 0 else if single then S nIn else length (vout tx)) = Ok (concat (map Serialize_txout (mt_vout signed_copy))) /\ length (mt_vout signed_copy) = if none then 0%nat else if single then S nIn else length (vout tx).
Proof.
  unfold signed_copy. cbn [mt_vout]. destruct none eqn:Hn; [done|]. destruct single eqn:Hs.
  - destruct (lookup_lt_is_Some_2 _ _ (Hout eq_refl)) as [o Ho]. rewrite Ho.
    assert (length (replicate nIn CTxOut_null ++ [o]) = S nIn) as Hl by (rewrite length_app, length_replicate; cbn; lia). split; [|done].
    rewrite <- Hl at 1. apply write_each_ok. intros j x Hx. cbn [Nat.add]. unfold SerializeOutput, Serializer_new. cbn [fHashSingle SigHash.nIn txTo]. rewrite Hs.
    destruct (Nat.eqb_spec j nIn) as [->|Hne]; cbn [negb andb].
    + rewrite (elem_lookup _ _ _ Ho). rewrite lookup_app_r, length_replicate, Nat.sub_diag in Hx by (rewrite length_replicate; lia). by injection Hx as <-.
    + apply lookup_lt_Some in Hx as Hlt. rewrite Hl in Hlt. rewrite lookup_app_l in Hx by (rewrite length_replicate; lia). by apply lookup_replicate in Hx as [-> _].
  - split; [|done]. apply write_each_ok. intros j x Hx. unfold SerializeOutput, Serializer_new. cbn [fHashSingle SigHash.nIn txTo]. rewrite Hs. cbn [andb Nat.add]. by rewrite (elem_lookup _ _ _ Hx).
Qed.
Lemma Serialize_for_signature_ok : Serialize_for_signature ser = Ok (SerializeTransaction false signed_copy).
Proof.
  destruct inputs_ok as [Ei Li], outputs_ok as [Eo Lo]. unfold Serialize_for_signature.
  change (fAnyoneCanPay ser) with anyone. change (fHashNone ser) with none. change (fHashSingle ser) with single. change (txTo ser) with tx. change (SigHash.nIn ser) with nIn.
  rewrite Ei. cbn [mbind outcome_bind]. rewrite Eo. cbn [mbind outcome_bind]. rewrite <- Li, <- Lo. unfold SerializeTransaction, Serialize_vector. cbn [andb app].
  by rewrite <- !app_assoc.
Qed.
End Copy.

(** ** The hash commits *)
Lemma has_signed_bits h : Interpreter.has h SIGHASH_ANYONECANPAY = negb (Z.land h SIGHASH_ANYONECANPAY =? 0).
Proof. done. Qed.
Lemma clean_size f : forall pc, (length (clean_loop f pc) <= length pc)%nat.
Proof.
  induction f as [|f IH]; intros pc; cbn [clean_loop]; [cbn; lia|]. destruct (CScript.GetOp2 pc) as [[[o v] pc']|] eqn:E; [|rewrite length_take; lia].
  destruct (GetOp2_split _ _ _ _ E) as (q & -> & _). specialize (IH pc'). rewrite take_between, !length_app. destruct (o =? OP_CODESEPARATOR); cbn [length]; lia.
Qed.
Lemma signed_in_ok code nIn h j i : blob_ok code -> txin_ok i -> txin_ok (signed_in code nIn h j i).
Proof.
  intros Hc (Hp & Hb & Hq & _). assert (blob_ok (clean code)) as Hclean by (pose proof (clean_size (S (length code)) code); unfold clean, blob_ok in *; lia).
  unfold signed_in. destruct (j =? nIn)%nat; (split; [done|]); (split; [done|]); (split; [cbn [nSequence]|done]); [done|]. destruct (_ || _); lia.
Qed.
Lemma signed_ok tx code nIn h : tx_ok (mutable tx) -> blob_ok code -> (Z.land h 0x1f = SIGHASH_SINGLE -> (nIn < length (vout tx))%nat) -> tx_ok (signed_copy tx code nIn h).
Proof.
  intros (Hv & Hl & Hi & Ho & Hin & Hout) Hc Hs. cbn [mutable mt_nVersion mt_vin mt_vout mt_nLockTime] in *.
  split; [done|]. split; [done|]. unfold signed_copy. cbn [mt_vin mt_vout].
  assert (forall l, l = (if Z.land h 0x1f =? SIGHASH_NONE then [] else if Z.land h 0x1f =? SIGHASH_SINGLE then
      replicate nIn CTxOut_null ++ match vout tx !! nIn with Some o => [o] | None => [] end else vout tx) ->
    size l <= MAX_SIZE /\ Forall txout_ok l) as Hl1.
  { intros l ->. destruct (Z.eqb_spec (Z.land h 0x1f) SIGHASH_NONE); [done|]. destruct (Z.eqb_spec (Z.land h 0x1f) SIGHASH_SINGLE) as [E|E]; [|done].
    specialize (Hs E). destruct (lookup_lt_is_Some_2 _ _ Hs) as [o Eo]. rewrite Eo, length_app, length_replicate. split; [cbn; lia|].
    apply Forall_app. split; [apply Forall_replicate; done|]. constructor; [|done]. by apply (Forall_lookup_1 _ _ _ _ Hout Eo). }
  destruct (Hl1 _ eq_refl) as [Ho1 Ho2]. destruct (Interpreter.has h SIGHASH_ANYONECANPAY).
  - destruct (vin tx !! nIn) as [i|] eqn:Ei; repeat (split; [done|]); [|done]. split; [|done]. constructor; [|done].
    apply signed_in_ok; [done|]. by apply (Forall_lookup_1 _ _ _ _ Hin Ei).
  - rewrite length_imap. repeat (split; [done|]). split; [|done]. apply Forall_lookup_2. intros j x Hx. rewrite list_lookup_imap in Hx.
    destruct (vin tx !! j) as [i|] eqn:Ei; [|done]. injection Hx as <-. apply signed_in_ok; [done|]. by apply (Forall_lookup_1 _ _ _ _ Hin Ei).
Qed.

(** Values that end by themselves can be told apart without a count. *)
Lemma concat_inj {A C} (f : Reader C) (g : A -> bytes) (h : A -> C) l1 l2 :
  Forall (fun x => reads f (g x) (h x) /\ g x <> []) l1 -> Forall (fun x => reads f (g x) (h x) /\ g x <> []) l2 ->
  concat (map g l1) = concat (map g l2) -> map h l1 = map h l2.
Proof.
  intros H1. revert l2. induction H1 as [|x l1 [Hx Hxn] H1 IH]; intros l2 H2 E; destruct H2 as [|y l2 [Hy Hyn] H2]; cbn [map concat] in *; [done| | |].
  - symmetry in E. by apply app_eq_nil in E as [? _].
  - by apply app_eq_nil in E as [? _].
  - pose proof (Hx (concat (map g l1))) as E1. rewrite E, (Hy _) in E1. injection E1 as <- E1. f_equal. by apply IH.
Qed.
Lemma nonempty_app (a b : bytes) : b <> [] -> a ++ b <> [].
Proof. intros Hb E. by apply app_eq_nil in E as [_ ?]. Qed.
Lemma outputs_inj l1 l2 : Forall txout_ok l1 -> Forall txout_ok l2 -> concat (map Serialize_txout l1) = concat (map Serialize_txout l2) -> l1 = l2.
Proof.
  intros H1 H2 E. rewrite <- (map_id l1), <- (map_id l2). apply (concat_inj Unserialize_txout Serialize_txout id); [| |done];
    (eapply List.Forall_impl; [|done]); intros x Hx; (split; [by apply reads_txout|discriminate]).
Qed.
Lemma prevouts_inj l1 l2 : Forall txin_ok l1 -> Forall txin_ok l2 ->
  concat (map (fun i => Serialize_outpoint (prevout i)) l1) = concat (map (fun i => Serialize_outpoint (prevout i)) l2) -> map prevout l1 = map prevout l2.
Proof.
  intros H1 H2 E. apply (concat_inj Unserialize_outpoint (fun i => Serialize_outpoint (prevout i)) prevout); [| |done];
    (eapply List.Forall_impl; [|done]); intros x (Hx & _); (split; [by apply reads_outpoint|by apply nonempty_app]).
Qed.
Lemma sequences_inj l1 l2 : Forall txin_ok l1 -> Forall txin_ok l2 ->
  concat (map (fun i => WriteLE 4 (nSequence i)) l1) = concat (map (fun i => WriteLE 4 (nSequence i)) l2) -> map nSequence l1 = map nSequence l2.
Proof.
  intros H1 H2 E. apply (concat_inj (read_uint 4) (fun i => WriteLE 4 (nSequence i)) nSequence); [| |done];
    (eapply List.Forall_impl; [|done]); intros x (_ & _ & Hx & _); (split; [by apply (reads_uint 4)|discriminate]).
Qed.

(** The parts of what a witness signature hashes *)
Record Parts := mkParts { p_version : Z; p_prevouts : bytes; p_sequences : bytes; p_outpoint : COutPoint; p_code : bytes;
  p_amount : Z; p_sequence : Z; p_outputs : bytes; p_locktime : Z; p_type : Z }.
Definition write_parts (p : Parts) : bytes :=
  WriteLE 4 (p_version p) ++ p_prevouts p ++ p_sequences p ++ Serialize_outpoint (p_outpoint p) ++ Serialize_blob (p_code p) ++
  WriteLE 8 (p_amount p) ++ WriteLE 4 (p_sequence p) ++ p_outputs p ++ WriteLE 4 (p_locktime p) ++ WriteLE 4 (p_type p).
Definition read_parts : Reader Parts :=
  v ← read_uint 4; hp ← read 32; hs ← read 32; o ← Unserialize_outpoint; c ← Unserialize_blob;
  a ← read_uint 8; q ← read_uint 4; ho ← read 32; l ← read_uint 4; t ← read_uint 4;
  mret (mkParts (s32 v) hp hs o c (CScriptNum.s64 a) q ho l t).
Definition parts_ok (p : Parts) : Prop :=
  - 2 ^ 31 <= p_version p < 2 ^ 31 /\ length (p_prevouts p) = 32%nat /\ length (p_sequences p) = 32%nat /\ length (p_outputs p) = 32%nat /\
  outpoint_ok (p_outpoint p) /\ blob_ok (p_code p) /\ - 2 ^ 63 <= p_amount p < 2 ^ 63 /\ 0 <= p_sequence p < 2 ^ 32 /\
  0 <= p_locktime p < 2 ^ 32 /\ 0 <= p_type p < 256.
Lemma reads_parts p : parts_ok p -> reads read_parts (write_parts p) p.
Proof.
  destruct p as [v hp hs o c a q ho l t]. unfold parts_ok. cbn [p_version p_prevouts p_sequences p_outpoint p_code p_amount p_sequence p_outputs p_locktime p_type].
  intros (Hv & Hp & Hs & Hho & Ho & Hc & Ha & Hq & Hl & Ht).
  apply reads_bind with (v mod 256 ^ 4); [apply (ReadLE_signed 4); [lia|cbn; lia]|].
  apply reads_bind with hp; [apply reads_read; cbn in *; lia|]. apply reads_bind with hs; [apply reads_read; cbn in *; lia|].
  apply reads_bind with o; [by apply reads_outpoint|]. apply reads_bind with c; [by apply reads_blob|].
  apply reads_bind with (a mod 256 ^ 8); [apply (ReadLE_signed 8); [lia|cbn; lia]|].
  apply reads_bind with q; [by apply (reads_uint 4)|]. apply reads_bind with ho; [apply reads_read; cbn in *; lia|].
  apply reads_bind with l; [by apply (reads_uint 4)|]. apply reads_last with t; [apply (reads_uint 4); cbn; lia|].
  rewrite s32_mod, s64_mod by done. apply reads_ret.
Qed.
Lemma parts_inj p1 p2 : parts_ok p1 -> parts_ok p2 -> write_parts p1 = write_parts p2 -> p1 = p2.
Proof. intros H1 H2 E. apply (reads_inj read_parts (write_parts p1)); [by apply reads_parts|]. rewrite E. by apply reads_parts. Qed.

Section Commit.
Context `{SC : ScriptCrypto} (Hash_length : forall m, length (Hash256 m) = 32%nat).

(** A signature of the type [h] covers all inputs and outputs. *)
Definition signs_all (h : Z) : Prop :=
  0 <= h < 256 /\ Interpreter.has h SIGHASH_ANYONECANPAY = false /\ Z.land h 0x1f <> SIGHASH_SINGLE /\ Z.land h 0x1f <> SIGHASH_NONE.
Definition cache_of (c : option PrecomputedTransactionData) (tx : CTransaction) : Prop := c = None \/ c = Some (Precomputed_of tx).
Definition parts_of (code : bytes) (tx : CTransaction) (i : CTxIn) (h a : Z) : Parts :=
  mkParts (nVersion tx) (GetPrevoutHash tx) (GetSequenceHash tx) (prevout i) code a (nSequence i) (GetOutputsHash tx) (nLockTime tx) h.

Lemma signs_all_eqb h : signs_all h -> (Z.land h 0x1f =? SIGHASH_SINGLE) = false /\ (Z.land h 0x1f =? SIGHASH_NONE) = false.
Proof. intros (_ & _ & H1 & H2). split; by apply Z.eqb_neq. Qed.
Lemma witness_hash code tx n h a c i : signs_all h -> cache_of c tx -> vin tx !! n = Some i ->
  SignatureHash code tx n h a SIGVERSION_WITNESS_V0 c = Ok (Hash256 (write_parts (parts_of code tx i h a))).
Proof.
  intros Hh Hc Hi. destruct (signs_all_eqb h Hh) as [Es En]. destruct Hh as (_ & Ha & _).
  unfold SignatureHash, witness_preimage. rewrite Ha, Es, En, (elem_lookup _ _ _ Hi). cbn [negb andb mbind outcome_bind].
  by destruct Hc as [-> | ->].
Qed.
Lemma base_hash code tx n h a c : signs_all h -> well_formed code = true -> (n < length (vin tx))%nat ->
  SignatureHash code tx n h a SIGVERSION_BASE c = Ok (Hash256 (SerializeTransaction false (signed_copy tx code n h) ++ WriteLE 4 h)).
Proof.
  intros Hh Hw Hn. destruct (signs_all_eqb h Hh) as [Es En]. unfold SignatureHash. destruct (Nat.leb_spec (length (vin tx)) n); [lia|].
  rewrite Es. cbn [andb]. rewrite Serialize_for_signature_ok; [done|done|done|]. rewrite Es. done.
Qed.

(** What is hashed to compute a hash that is signed *)
Definition messages (v : SigVersion) (code : bytes) (tx : CTransaction) (n : nat) (h a : Z) : list bytes :=
  match v with
  | SIGVERSION_BASE => [SerializeTransaction false (signed_copy tx code n h) ++ WriteLE 4 h]
  | SIGVERSION_WITNESS_V0 =>
    match vin tx !! n with Some i => [write_parts (parts_of code tx i h a)] | None => [] end ++
    [concat (map (fun i => Serialize_outpoint (prevout i)) (vin tx)); concat (map (fun i => WriteLE 4 (nSequence i)) (vin tx));
     concat (map Serialize_txout (vout tx))]
  end.
Definition hash_collision (l : list bytes) : Prop := exists x y, x ∈ l /\ y ∈ l /\ x <> y /\ Hash256 x = Hash256 y.
Lemma hash_equal (l : list bytes) x y : x ∈ l -> y ∈ l -> Hash256 x = Hash256 y -> x = y \/ hash_collision l.
Proof. intros Hx Hy E. destruct (decide (x = y)); [by left|right]. by exists x, y. Qed.

(** The same transaction but for the scripts and witnesses of the inputs *)
Definition agree (tx1 tx2 : CTransaction) : Prop :=
  nVersion tx1 = nVersion tx2 /\ map prevout (vin tx1) = map prevout (vin tx2) /\ map nSequence (vin tx1) = map nSequence (vin tx2) /\
  vout tx1 = vout tx2 /\ nLockTime tx1 = nLockTime tx2.

Lemma signed_in_fields {A} (f : CTxIn -> A) code n h (g : forall i j, f (signed_in code n h j i) = f i) l : map f (imap (signed_in code n h) l) = map f l.
Proof.
  apply list_eq. intros j. rewrite !list_lookup_fmap, list_lookup_imap. destruct (l !! j); [|done]. cbn. by rewrite g.
Qed.
Lemma signed_copy_agree code1 code2 tx1 tx2 n1 n2 h : signs_all h -> signed_copy tx1 code1 n1 h = signed_copy tx2 code2 n2 h -> agree tx1 tx2.
Proof.
  intros Hh E. destruct (signs_all_eqb h Hh) as [Es En]. destruct Hh as (_ & Ha & _). unfold signed_copy in E. rewrite Ha, Es, En in E. injection E as Ev Ei Eo El.
  split; [done|]. split; [|split; [|done]].
  - apply (f_equal (map prevout)) in Ei. rewrite !signed_in_fields in Ei; [done|intros; unfold signed_in; by case_match..].
  - apply (f_equal (map nSequence)) in Ei. rewrite !signed_in_fields in Ei; [done|intros; unfold signed_in; rewrite Es, En; by case_match..].
Qed.

Lemma stripped_signed tx code n h : strip (signed_copy tx code n h) = signed_copy tx code n h.
Proof.
  unfold strip. replace (map strip_witness (mt_vin (signed_copy tx code n h))) with (mt_vin (signed_copy tx code n h)); [by destruct (signed_copy tx code n h)|].
  symmetry. apply no_witness. unfold signed_copy. cbn [mt_vin].
  assert (forall j i, scriptWitness (signed_in code n h j i) = []) as Hs by (intros; unfold signed_in; by case_match).
  assert (forall l, (forall x : CTxIn, x ∈ l -> scriptWitness x = []) -> HasWitness l = false) as Hl.
  { intros l Hx. unfold HasWitness. apply not_true_is_false. rewrite existsb_exists. intros (x & Hin & Hne). rewrite (Hx x) in Hne; [done|]. by apply list_elem_of_In. }
  apply Hl. intros x Hx. destruct (Interpreter.has h SIGHASH_ANYONECANPAY).
  - destruct (vin tx !! n); [|by apply elem_of_nil in Hx]. apply list_elem_of_singleton in Hx as ->. apply Hs.
  - apply list_elem_of_lookup in Hx as [j Hj]. rewrite list_lookup_imap in Hj. destruct (vin tx !! j); [|done]. injection Hj as <-. apply Hs.
Qed.
Lemma type_inj h1 h2 : signs_all h1 -> signs_all h2 -> WriteLE 4 h1 = WriteLE 4 h2 -> h1 = h2.
Proof.
  intros [H1 _] [H2 _] E. apply (reads_inj (read_uint 4) (WriteLE 4 h1)); [apply (reads_uint 4); cbn; lia|]. rewrite E. apply (reads_uint 4). cbn. lia.
Qed.
Lemma commits_base code1 code2 tx1 tx2 n1 n2 h1 h2 :
  signs_all h1 -> signs_all h2 -> tx_ok (mutable tx1) -> tx_ok (mutable tx2) -> blob_ok code1 -> blob_ok code2 ->
  SerializeTransaction false (signed_copy tx1 code1 n1 h1) ++ WriteLE 4 h1 = SerializeTransaction false (signed_copy tx2 code2 n2 h2) ++ WriteLE 4 h2 ->
  h1 = h2 /\ agree tx1 tx2.
Proof.
  intros Hh1 Hh2 Ht1 Ht2 Hc1 Hc2 Em.
  assert (tx_ok (signed_copy tx1 code1 n1 h1)) as O1 by (apply signed_ok; [done|done|intros ?; by destruct Hh1 as (_ & _ & ? & _)]).
  assert (tx_ok (signed_copy tx2 code2 n2 h2)) as O2 by (apply signed_ok; [done|done|intros ?; by destruct Hh2 as (_ & _ & ? & _)]).
  pose proof (reads_transaction false _ O1 ltac:(done) (WriteLE 4 h1)) as R1. pose proof (reads_transaction false _ O2 ltac:(done) (WriteLE 4 h2)) as R2.
  rewrite Em, R2, !stripped_signed in R1. pose proof (f_equal snd R1) as Eh. apply (f_equal fst) in R1. cbn [fst snd] in R1, Eh.
  symmetry in Eh. apply type_inj in Eh; [|done|done]. subst h2. split; [done|]. apply (signed_copy_agree code1 code2 tx1 tx2 n1 n2 h1 Hh1).
  assert (forall A (a b : A), Ok a = Ok b -> a = b) as Hok by (by intros A a b [= ->]). symmetry. by apply Hok.
Qed.

Lemma commits_witness code1 code2 tx1 tx2 i1 i2 h1 h2 a1 a2 (l : list bytes) :
  signs_all h1 -> signs_all h2 -> tx_ok (mutable tx1) -> tx_ok (mutable tx2) -> blob_ok code1 -> blob_ok code2 ->
  - 2 ^ 63 <= a1 < 2 ^ 63 -> - 2 ^ 63 <= a2 < 2 ^ 63 -> i1 ∈ vin tx1 -> i2 ∈ vin tx2 ->
  (forall x y, Hash256 x = Hash256 y -> x ∈ l -> y ∈ l -> x = y) ->
  (forall tx, tx = tx1 \/ tx = tx2 -> concat (map (fun i => Serialize_outpoint (prevout i)) (vin tx)) ∈ l /\
    concat (map (fun i => WriteLE 4 (nSequence i)) (vin tx)) ∈ l /\ concat (map Serialize_txout (vout tx)) ∈ l) ->
  write_parts (parts_of code1 tx1 i1 h1 a1) = write_parts (parts_of code2 tx2 i2 h2 a2) ->
  h1 = h2 /\ agree tx1 tx2 /\ code1 = code2 /\ a1 = a2 /\ prevout i1 = prevout i2.
Proof.
  intros Hh1 Hh2 Ht1 Ht2 Hc1 Hc2 Ha1 Ha2 Hi1 Hi2 Hinj Hl E.
  assert (forall code tx i h a, signs_all h -> tx_ok (mutable tx) -> blob_ok code -> - 2 ^ 63 <= a < 2 ^ 63 -> i ∈ vin tx -> parts_ok (parts_of code tx i h a)) as Hok.
  { intros code tx i h a [Hh _] (Hv & Hlt & _ & _ & Hin & _) Hc Ha Hi. cbn [mutable mt_nVersion mt_nLockTime mt_vin] in *.
    apply list_elem_of_lookup in Hi as [k Hi]. destruct (Forall_lookup_1 _ _ _ _ Hin Hi) as (Ho & _ & Hq & _).
    unfold parts_ok, parts_of. cbn [p_version p_prevouts p_sequences p_outpoint p_code p_amount p_sequence p_outputs p_locktime p_type].
    unfold GetPrevoutHash, GetSequenceHash, GetOutputsHash. rewrite !Hash_length. done. }
  apply parts_inj in E; [|by apply Hok|by apply Hok]. unfold parts_of in E. injection E as Ev Ep Es Eo Ec Ea Eq Eout El Et.
  destruct (Hl tx1 (or_introl eq_refl)) as (P1 & S1 & U1). destruct (Hl tx2 (or_intror eq_refl)) as (P2 & S2 & U2).
  destruct Ht1 as (_ & _ & _ & _ & I1 & V1), Ht2 as (_ & _ & _ & _ & I2 & V2). cbn [mutable mt_vin mt_vout] in *.
  split; [done|]. split; [|done]. split; [done|].
  split; [by apply prevouts_inj, Hinj|]. split; [by apply sequences_inj, Hinj|]. split; [by apply outputs_inj, Hinj|done].
Qed.

Lemma injective_or_collision l : (forall x y, Hash256 x = Hash256 y -> x ∈ l -> y ∈ l -> x = y) \/ hash_collision l.
Proof.
  destruct (decide (Exists (fun x => Exists (fun y => x <> y /\ Hash256 x = Hash256 y) l) l)) as [Hex|Hno].
  - right. apply List.Exists_exists in Hex as (x & Hx%list_elem_of_In & (y & Hy%list_elem_of_In & Hne & E)%List.Exists_exists). by exists x, y.
  - left. intros x y E Hx Hy. destruct (decide (x = y)) as [|Hne]; [done|]. destruct Hno. apply List.Exists_exists. exists x.
    split; [by apply list_elem_of_In|]. apply List.Exists_exists. exists y. split; [by apply list_elem_of_In|done].
Qed.
End Commit.

(** ** The checker always answers *)
Lemma is_ok_bind {A B} (r : outcome A) (k : A -> outcome B) : is_ok r = true -> (forall a, r = Ok a -> is_ok (k a) = true) -> is_ok (r ≫= k) = true.
Proof. destruct r; try done. intros _ Hk. by apply Hk. Qed.
Lemma write_each_total f first n : (forall j, (first <= j < first + n)%nat -> is_ok (f j) = true) -> is_ok (write_each f first n) = true.
Proof.
  revert first. induction n as [|n IH]; intros first Hf; [done|]. cbn [write_each]. apply is_ok_bind; [apply Hf; lia|]. intros b _.
  apply is_ok_bind; [|done]. apply IH. intros j Hj. apply Hf. lia.
Qed.
Lemma elem_total {A} (l : list A) j : (j < length l)%nat -> is_ok (elem l j) = true.
Proof. intros Hj. unfold elem. by destruct (lookup_lt_is_Some_2 _ _ Hj) as [x ->]. Qed.
Lemma SignatureHash_total `{SC : ScriptCrypto} code tx n h a v c : (n < length (vin tx))%nat -> is_ok (SignatureHash code tx n h a v c) = true.
Proof.
  intros Hn. unfold SignatureHash. destruct v.
  - destruct (Nat.leb_spec (length (vin tx)) n); [done|]. destruct (Z.eqb_spec (Z.land h 0x1f) SIGHASH_SINGLE) as [Es|Es]; [destruct (Nat.leb_spec (length (vout tx)) n); [done|]|].
    all: cbn [andb]; apply is_ok_bind; [|done]; unfold Serialize_for_signature; apply is_ok_bind; [|intros ins _; apply is_ok_bind; [|done]].
    1,3: apply write_each_total; intros j Hj; unfold SerializeInput; apply is_ok_bind; [apply elem_total; cbn in *; destruct (Interpreter.has _ _); lia|];
      intros i _; apply is_ok_bind; [|done]; destruct (negb _); [done|apply SerializeScriptCode_total].
    all: apply write_each_total; intros j Hj; unfold SerializeOutput; destruct (fHashSingle _ && _) eqn:Eb; [done|]; apply is_ok_bind; [|done]; apply elem_total; cbn in *;
      repeat case_match; rewrite ?Z.eqb_eq, ?Z.eqb_neq in *; subst; try lia; done.
  - apply is_ok_bind; [|done]. unfold witness_preimage. apply is_ok_bind; [by apply elem_total|done].
Qed.
Lemma checker_defined `{SC : ScriptCrypto} Verify c sig key code v n : (ck_nIn c < length (vin (ck_tx c)))%nat ->
  is_ok (CheckSig_tx Verify c sig key code v) = true /\ is_ok (CheckLockTime_tx c n) = true /\ is_ok (CheckSequence_tx c n) = true.
Proof.
  intros Hn. split; [|split].
  - unfold CheckSig_tx. case_match; [done|]. case_match; [done|]. apply is_ok_bind; [by apply SignatureHash_total|done].
  - unfold CheckLockTime_tx. repeat (case_match; [done|]). apply is_ok_bind; [by apply elem_total|done].
  - unfold CheckSequence_tx. apply is_ok_bind; [by apply elem_total|]. intros i _. by repeat case_match.
Qed.

(** ** Claims *)

(** C33: The serializer that makes its changes on the way hashes the copy that the rules describe.
    For a signature outside witness programs, of any type, and a script code that
    parses to its end, [SignatureHash] is the hash of a copy of the transaction with
    the type appended: the scripts of the other inputs are blank, the script of the
    input that is signed is the script code without separators, and inputs, sequence
    numbers and outputs are kept, cleared or dropped as the type says.  For an input
    out of range, or a signature of type single without an output at its index, the
    hash is the number one, whatever the transaction. *)
Theorem sighash_serializes_copy `{SC : ScriptCrypto} (code : bytes) (tx : CTransaction) (n : nat) (h a : Z) (c : option PrecomputedTransactionData) :
  well_formed code = true ->
  SignatureHash code tx n h a SIGVERSION_BASE c =
    Ok (if decide ((n < length (vin tx))%nat /\ (Z.land h 0x1f = SIGHASH_SINGLE -> (n < length (vout tx))%nat))
        then Hash256 (SerializeTransaction false (signed_copy tx code n h) ++ WriteLE 4 h) else uint256_one).
Proof.
  intros Hw. unfold SignatureHash. destruct (Nat.leb_spec (length (vin tx)) n); [rewrite decide_False by lia; done|].
  destruct (Z.eqb_spec (Z.land h 0x1f) SIGHASH_SINGLE) as [Es|Es]; [destruct (Nat.leb_spec (length (vout tx)) n)|].
  - rewrite decide_False by (intros [_ Hs]; specialize (Hs Es); lia). done.
  - rewrite decide_True by done. cbn [andb]. by rewrite Serialize_for_signature_ok.
  - rewrite decide_True by done. cbn [andb]. rewrite Serialize_for_signature_ok; [done|done|done|]. by intros ?%Z.eqb_eq.
Qed.
Definition toy_out (v : Z) (s : bytes) : CTxOut := mkTxOut v s.
Definition toy_in (k : Z) : CTxIn := mkTxIn (mkOutPoint (replicate 32 k) 0) [0x51] 0xffffffff [].
Definition toy_tx (outs : list CTxOut) : CTransaction := mkTx 2 [toy_in 1; toy_in 2] outs 7 [].
Lemma sighash_serializes_copy_witness :
  SignatureHash (SC := sample_crypto) [0x51; 0xab; 0xac] (toy_tx [toy_out 5 [0x52]]) 1 SIGHASH_NONE 0 SIGVERSION_BASE None =
    Ok (@Hash256 sample_crypto (SerializeTransaction false (mkMutable 2
      [mkTxIn (mkOutPoint (replicate 32 1) 0) [] 0 []; mkTxIn (mkOutPoint (replicate 32 2) 0) [0x51; 0xac] 0xffffffff []] [] 7) ++ WriteLE 4 SIGHASH_NONE)) /\
  SignatureHash (SC := sample_crypto) [0x51] (toy_tx [toy_out 5 [0x52]]) 1 SIGHASH_SINGLE 0 SIGVERSION_BASE None = Ok uint256_one.
Proof.
  split; rewrite sighash_serializes_copy by reflexivity; [rewrite decide_True|rewrite decide_False]; [reflexivity| |reflexivity|].
  - split; [cbn; lia|discriminate].
  - intros [_ H]. specialize (H eq_refl). cbn in H. lia.
Defined.

(** C34: A signature of all inputs and outputs commits to the transaction.  Take two calls of
    [SignatureHash] for one version of the rules, each with a type that signs all
    inputs and outputs, an input that exists, a 64-bit amount, a transaction and a
    script code within the limits of serialization (outside witness programs a code
    that parses to its end), and a cache of hashes that is absent or that of its
    transaction.  If both give the same hash, the types are the same, the
    transactions have the same version, the same inputs with the same sequence
    numbers, the same outputs and the same lock time, and in a witness program the
    script codes and the amounts are the same; or two different messages that were
    hashed on the way have the same hash.  Hashes have 32 bytes. *)
Theorem sighash_commits `{SC : ScriptCrypto} (v : SigVersion) (code1 code2 : bytes) (tx1 tx2 : CTransaction) (n1 n2 : nat) (h1 h2 a1 a2 : Z)
    (c1 c2 : option PrecomputedTransactionData) (r : bytes) :
  (forall m, length (Hash256 m) = 32%nat) -> signs_all h1 -> signs_all h2 -> tx_ok (mutable tx1) -> tx_ok (mutable tx2) ->
  blob_ok code1 -> blob_ok code2 -> (v = SIGVERSION_BASE -> well_formed code1 = true /\ well_formed code2 = true) ->
  - 2 ^ 63 <= a1 < 2 ^ 63 -> - 2 ^ 63 <= a2 < 2 ^ 63 -> (n1 < length (vin tx1))%nat -> (n2 < length (vin tx2))%nat -> cache_of c1 tx1 -> cache_of c2 tx2 ->
  SignatureHash code1 tx1 n1 h1 a1 v c1 = Ok r -> SignatureHash code2 tx2 n2 h2 a2 v c2 = Ok r ->
  (h1 = h2 /\ agree tx1 tx2 /\ (v = SIGVERSION_WITNESS_V0 -> code1 = code2 /\ a1 = a2)) \/
  hash_collision (messages v code1 tx1 n1 h1 a1 ++ messages v code2 tx2 n2 h2 a2).
Proof.
  intros HL Hh1 Hh2 Ht1 Ht2 Hc1 Hc2 Hw Ha1 Ha2 Hn1 Hn2 Hca1 Hca2 E1 E2.
  destruct (injective_or_collision (messages v code1 tx1 n1 h1 a1 ++ messages v code2 tx2 n2 h2 a2)) as [Hinj|]; [left|by right]. destruct v.
  - destruct (Hw eq_refl) as [W1 W2]. rewrite base_hash in E1, E2 by done. rewrite <- E1 in E2. injection E2 as E.
    apply Hinj in E; [|cbn; set_solver|cbn; set_solver]. symmetry in E. by destruct (commits_base _ _ _ _ _ _ _ _ Hh1 Hh2 Ht1 Ht2 Hc1 Hc2 E) as [-> ?].
  - destruct (lookup_lt_is_Some_2 _ _ Hn1) as [i1 I1]. destruct (lookup_lt_is_Some_2 _ _ Hn2) as [i2 I2].
    rewrite (witness_hash _ _ _ _ _ _ _ Hh1 Hca1 I1) in E1. rewrite (witness_hash _ _ _ _ _ _ _ Hh2 Hca2 I2) in E2. rewrite <- E1 in E2. injection E2 as E.
    unfold messages in Hinj. rewrite I1, I2 in Hinj. apply Hinj in E; [|set_solver|set_solver]. symmetry in E.
    destruct (commits_witness HL _ _ _ _ _ _ _ _ _ _ _ Hh1 Hh2 Ht1 Ht2 Hc1 Hc2 Ha1 Ha2 (list_elem_of_lookup_2 _ _ _ I1) (list_elem_of_lookup_2 _ _ _ I2) Hinj) with (2 := E) as (? & ? & ? & ? & _);
      [|done]. intros tx [-> | ->]; set_solver.
Qed.
(** Two transactions whose hashes agree, as the toy hash adds the bytes up: the messages collide. *)
Definition toy_pay : CTransaction := toy_tx [toy_out 5 [0x52; 0x53]].
Definition toy_steal : CTransaction := toy_tx [toy_out 5 [0x53; 0x52]].
Lemma toy_tx_ok outs : Forall txout_ok outs -> size outs <= MAX_SIZE -> tx_ok (mutable (toy_tx outs)).
Proof.
  intros Ho Hs. split; [by cbn|]. split; [by cbn|]. split; [done|]. split; [done|]. split; [|done].
  repeat constructor; cbn; try done; lia.
Qed.
Lemma sighash_commits_witness :
  hash_collision (SC := sample_crypto) (messages (SC := sample_crypto) SIGVERSION_BASE [0x51] toy_pay 0 SIGHASH_ALL 5 ++
    messages (SC := sample_crypto) SIGVERSION_BASE [0x51] toy_steal 0 SIGHASH_ALL 5).
Proof.
  destruct (@sighash_commits sample_crypto SIGVERSION_BASE [0x51] [0x51] toy_pay toy_steal 0 0 SIGHASH_ALL SIGHASH_ALL 5 5 None None
    (@Hash256 sample_crypto (SerializeTransaction false (signed_copy toy_pay [0x51] 0 SIGHASH_ALL) ++ WriteLE 4 SIGHASH_ALL))) as [(_ & (_ & _ & _ & Ho & _) & _)|Hc].
  - reflexivity.
  - by repeat split.
  - by repeat split.
  - apply toy_tx_ok; [|done]. by repeat constructor.
  - apply toy_tx_ok; [|done]. by repeat constructor.
  - done.
  - done.
  - done.
  - done.
  - done.
  - cbn. lia.
  - cbn. lia.
  - by left.
  - by left.
  - reflexivity.
  - reflexivity.
  - discriminate Ho.
  - exact Hc.
Defined.
