(* ===== verification/TxVerify.v ===== *)
(** * Checks of a transaction

    Model of [src/src/consensus/tx_verify.cpp]: finality, relative lock times,
    signature operations, the checks without and with the inputs.  A block index
    entry is given by its pointer into the index.  [CValidationState] holds why a
    transaction or block was rejected; a check returns that, or none when it
    returns true. *)

From S2P Require Import Prelude Script Interpreter Coins Chain TxSerialize SigHash.

(** ** [class CValidationState] *)
Record Reject := mkReject { nDoS : Z; strRejectReason : string; corruptionPossible : bool }.
Abbreviation verdict := (option Reject).
Definition DoS (level : Z) (reason : string) (corruption : bool) : verdict := Some (mkReject level reason corruption).
Definition Invalid (reason : string) : verdict := DoS 0 reason false.
(** A check rejects what an inner check has rejected already: the levels add up,
    the rest is overwritten. *)
Definition DoS_again (inner : Reject) (level : Z) (reason : string) (corruption : bool) : verdict :=
  Some (mkReject (nDoS inner + level) reason corruption).

(** ** Lock times *)
Definition IsFinalTx (tx : CTransaction) (nBlockHeight nBlockTime : Z) : bool :=
  if nLockTime tx =? 0 then true
  else if nLockTime tx <? (if nLockTime tx <? LOCKTIME_THRESHOLD then nBlockHeight else nBlockTime) then true
  else forallb (fun txin => nSequence txin =? SEQUENCE_FINAL) (vin tx).

Definition LOCKTIME_VERIFY_SEQUENCE : Z := 1.
Definition LOCKTIME_MEDIAN_TIME_PAST : Z := 2.
Definition SEQUENCE_LOCKTIME_GRANULARITY : Z := 9.

(** The loop of [CalculateSequenceLocks]: the minimal height and time, and the
    heights it leaves in [prevHeights]. *)
Fixpoint sequence_loop (H : Index) (block : ptr) (vin : list CTxIn) (prevHeights : list Z) (nMinHeight nMinTime : Z) : outcome (Z * Z * list Z) :=
  match vin, prevHeights with
  | txin :: vin, nCoinHeight :: prevHeights =>
    if negb (Z.land (nSequence txin) SEQUENCE_LOCKTIME_DISABLE_FLAG =? 0) then
      r ← sequence_loop H block vin prevHeights nMinHeight nMinTime;
      Ok (fst r, 0 :: snd r)
    else
      let lock := Z.land (nSequence txin) SEQUENCE_LOCKTIME_MASK in
      m ← (if negb (Z.land (nSequence txin) SEQUENCE_LOCKTIME_TYPE_FLAG =? 0) then
             a ← GetAncestor H block (Z.max (nCoinHeight - 1) 0);
             match a with
             | None => Undef "null pointer"
             | Some q =>
               nCoinTime ← GetMedianTimePast H q;
               Ok (nMinHeight, Z.max nMinTime (nCoinTime + Z.shiftl lock SEQUENCE_LOCKTIME_GRANULARITY - 1))
             end
           else if 2 ^ 31 <=? nCoinHeight + lock then Undef "nCoinHeight overflows"
           else Ok (Z.max nMinHeight (nCoinHeight + lock - 1), nMinTime) : outcome (Z * Z));
      r ← sequence_loop H block vin prevHeights (fst m) (snd m);
      Ok (fst r, nCoinHeight :: snd r)
  | _, _ => Ok (nMinHeight, nMinTime, prevHeights)
  end.
Definition CalculateSequenceLocks (H : Index) (tx : CTransaction) (flags : Z) (prevHeights : list Z) (block : ptr) : outcome (Z * Z * list Z) :=
  if negb (length prevHeights =? length (vin tx))%nat then Assertion "prevHeights->size() == tx.vin.size()"
  else
    let fEnforceBIP68 := (2 <=? u32 (Coins.nVersion tx)) && negb (Z.land flags LOCKTIME_VERIFY_SEQUENCE =? 0) in
    if negb fEnforceBIP68 then Ok (-1, -1, prevHeights)
    else sequence_loop H block (vin tx) prevHeights (-1) (-1).
Definition EvaluateSequenceLocks (H : Index) (block : ptr) (lockPair : Z * Z) : outcome bool :=
  b ← deref H block;
  match pprev b with
  | None => Assertion "block.pprev"
  | Some q =>
    nBlockTime ← GetMedianTimePast H q;
    Ok (negb ((Chain.nHeight b <=? fst lockPair) || (nBlockTime <=? snd lockPair)))
  end.
Definition SequenceLocks (H : Index) (tx : CTransaction) (flags : Z) (prevHeights : list Z) (block : ptr) : outcome bool :=
  r ← CalculateSequenceLocks H tx flags prevHeights block;
  EvaluateSequenceLocks H block (fst r).

(** ** Signature operations *)
Definition GetLegacySigOpCount (tx : CTransaction) : Z :=
  let nSigOps := foldl (fun n i => u32 (n + CScript.GetSigOpCount false (scriptSig i))) 0 (vin tx) in
  foldl (fun n o => u32 (n + CScript.GetSigOpCount false (scriptPubKey o))) nSigOps (vout tx).

Section Inputs.
Context {V : Type} `{CV : !CCoinsView V}.
Abbreviation M := (SE (CCoinsViewCache V)).

(** [const Coin& coin = inputs.AccessCoin(prevout); assert(!coin.IsSpent());] *)
Definition unspent_coin (o : COutPoint) : M Coin :=
  c ← Cache.AccessCoin o;
  assertion (negb (IsSpent c)) "!coin.IsSpent()";;
  mret c.
Fixpoint p2sh_loop (vin : list CTxIn) (nSigOps : Z) : M Z :=
  match vin with
  | [] => mret nSigOps
  | i :: vin =>
    c ← unspent_coin (prevout i);
    let script := scriptPubKey (out c) in
    p2sh_loop vin (if CScript.IsPayToScriptHash script then u32 (nSigOps + CScript.GetSigOpCount_p2sh script (scriptSig i)) else nSigOps)
  end.
Definition GetP2SHSigOpCount (tx : CTransaction) : M Z := if IsCoinBase tx then mret 0 else p2sh_loop (vin tx) 0.
Fixpoint witness_loop (flags : Z) (vin : list CTxIn) (nSigOps : Z) : M Z :=
  match vin with
  | [] => mret nSigOps
  | i :: vin =>
    c ← unspent_coin (prevout i);
    n ← lift_outcome (CountWitnessSigOps flags (scriptSig i) (scriptPubKey (out c)) (scriptWitness i));
    witness_loop flags vin (nSigOps + n)
  end.
Definition GetTransactionSigOpCost (tx : CTransaction) (flags : Z) : M Z :=
  let nSigOps := u32 (GetLegacySigOpCount tx * WITNESS_SCALE_FACTOR) in
  if IsCoinBase tx then mret nSigOps
  else
    nSigOps ← (if Interpreter.has flags SCRIPT_VERIFY_P2SH
               then n ← GetP2SHSigOpCount tx; mret (nSigOps + u32 (n * WITNESS_SCALE_FACTOR)) else mret nSigOps);
    witness_loop flags (vin tx) nSigOps.

(** ** Checks of values *)

(** The loop over the outputs *)
Fixpoint check_outputs (l : list CTxOut) (nValueOut : Z) : verdict :=
  match l with
  | [] => None
  | txout :: l =>
    if nValue txout <? 0 then DoS 100 "bad-txns-vout-negative" false
    else if MAX_MONEY <? nValue txout then DoS 100 "bad-txns-vout-toolarge" false
    else
      let nValueOut := nValueOut + nValue txout in
      if negb (MoneyRange nValueOut) then DoS 100 "bad-txns-txouttotal-toolarge" false
      else check_outputs l nValueOut
  end.
Definition CheckTransaction (tx : CTransaction) (fCheckDuplicateInputs : bool) : verdict :=
  match vin tx, vout tx with
  | [], _ => DoS 10 "bad-txns-vin-empty" false
  | _, [] => DoS 10 "bad-txns-vout-empty" false
  | i :: _, _ =>
    if MAX_BLOCK_WEIGHT <? GetSerializeSize false tx * WITNESS_SCALE_FACTOR then DoS 100 "bad-txns-oversize" false
    else
      match check_outputs (vout tx) 0 with
      | Some r => Some r
      | None =>
        if fCheckDuplicateInputs && negb (bool_decide (NoDup (map prevout (vin tx)))) then DoS 100 "bad-txns-inputs-duplicate" false
        else if IsCoinBase tx then
          if (size (scriptSig i) <? 2) || (100 <? size (scriptSig i)) then DoS 100 "bad-cb-length" false else None
        else if existsb (fun i => COutPoint_IsNull (prevout i)) (vin tx) then DoS 10 "bad-txns-prevout-null" false
        else None
      end
  end.

Definition COINBASE_MATURITY : Z := 4.
(** The loop of [CheckTxInputs]: the sum of the inputs, or why it is rejected *)
Fixpoint inputs_loop (nSpendHeight : Z) (vin : list CTxIn) (nValueIn : Z) : M (Reject + Z) :=
  match vin with
  | [] => mret (inr nValueIn)
  | i :: vin =>
    c ← unspent_coin (prevout i);
    if fCoinBase c && (nSpendHeight - Coins.nHeight c <? COINBASE_MATURITY)
    then mret (inl (mkReject 0 "bad-txns-premature-spend-of-coinbase" false))
    else
      let nValueIn := nValueIn + nValue (out c) in
      if CScriptNum.int64_max <? nValueIn then fail (Undef "nValueIn overflows")
      else if nValueIn <? CScriptNum.int64_min then fail (Undef "nValueIn overflows")
      else if negb (MoneyRange (nValue (out c))) || negb (MoneyRange nValueIn)
      then mret (inl (mkReject 100 "bad-txns-inputvalues-outofrange" false))
      else inputs_loop nSpendHeight vin nValueIn
  end.
Definition CheckTxInputs (tx : CTransaction) (nSpendHeight : Z) : M verdict :=
  have ← Cache.HaveInputs tx;
  if negb have then mret (Invalid "")
  else
    r ← inputs_loop nSpendHeight (vin tx) 0;
    match r with
    | inl r => mret (Some r)
    | inr nValueIn =>
      valueOut ← lift_outcome (GetValueOut tx);
      if nValueIn <? valueOut then mret (DoS 100 "bad-txns-in-belowout" false)
      else
        let nTxFee := nValueIn - valueOut in
        if nTxFee <? 0 then mret (DoS 100 "bad-txns-fee-negative" false)
        else if negb (MoneyRange nTxFee) then mret (DoS 100 "bad-txns-fee-outofrange" false)
        else mret None
    end.
End Inputs.
