(* ===== verification/TxVerifyThms.v ===== *)
(** * What the checks of a transaction enforce

    The lock that [CalculateSequenceLocks] computes says the same as the rule for
    each input; what a script asks of the lock times with [CHECKLOCKTIMEVERIFY] and
    [CHECKSEQUENCEVERIFY] holds of the block that includes the transaction; a
    transaction that passes [CheckTxInputs] spends what it has. *)

From S2P Require Import Prelude Script Interpreter Coins CoinsThms Chain ChainThms ChainHeaders TxSerialize SigHash TxVerify.
From Stdlib Require Import ZifyBool.

(** ** Relative lock times *)
Lemma median_nonneg l : l <> [] -> Forall (fun x => 0 <= x) l -> 0 <= median l.
Proof. intros Hl Hf. apply median_ge; [done|]. rewrite below_none by done. lia. Qed.
Lemma past_times_nonneg H : (forall p b, H !! p = Some b -> 0 <= nTime b) -> forall n p l, past_times n H p = Ok l -> Forall (fun x => 0 <= x) l.
Proof.
  intros Hn. induction n as [|n IH]; intros [p|] l; cbn [past_times]; try (intros [= <-]; constructor).
  unfold deref. destruct (H !! p) as [b|] eqn:Hp; [|done]. cbn [mbind outcome_bind].
  destruct (past_times n H (pprev b)) as [l0| | | | |] eqn:E; try done. cbn [mbind outcome_bind]. intros [= <-].
  apply Forall_app. split; [by apply (IH (pprev b))|]. repeat constructor. by apply (Hn p).
Qed.

(** What BIP68 asks of an input that spends a coin of height [h], for inclusion in
    the block [p]. *)
Definition lock_time_at (H : Index) (p : ptr) (h : Z) : Z := match ancestor H p (Z.max (h - 1) 0) with Some q => mtp H q | None => 0 end.
Definition lock_met (H : Index) (p : ptr) (nHeight nBlockTime : Z) (h nSequence : Z) : bool :=
  if negb (Z.land nSequence SEQUENCE_LOCKTIME_TYPE_FLAG =? 0)
  then lock_time_at H p h + Z.land nSequence SEQUENCE_LOCKTIME_MASK * 512 <=? nBlockTime
  else h + Z.land nSequence SEQUENCE_LOCKTIME_MASK <=? nHeight.
Definition input_met (H : Index) (p : ptr) (nHeight nBlockTime : Z) (i : CTxIn) (h : Z) : bool :=
  negb (Z.land (nSequence i) SEQUENCE_LOCKTIME_DISABLE_FLAG =? 0) || lock_met H p nHeight nBlockTime h (nSequence i).
Fixpoint all_met (H : Index) (p : ptr) (nHeight nBlockTime : Z) (vin : list CTxIn) (heights : list Z) : bool :=
  match vin, heights with
  | i :: vin, h :: heights => input_met H p nHeight nBlockTime i h && all_met H p nHeight nBlockTime vin heights
  | _, _ => true
  end.
Definition enforced (tx : CTransaction) (flags : Z) : bool := (2 <=? u32 (Coins.nVersion tx)) && negb (Z.land flags LOCKTIME_VERIFY_SEQUENCE =? 0).

Lemma mask_range x : 0 <= Z.land x SEQUENCE_LOCKTIME_MASK < 2 ^ 16.
Proof. change SEQUENCE_LOCKTIME_MASK with (Z.ones 16). rewrite Z.land_ones by lia. apply Z.mod_pos_bound. lia. Qed.

Section Locks.
Context (H : Index) (HI : index_ok H) (p : ptr) (b : CBlockIndex) (Hp : H !! p = Some b) (Hb : nHeight b < 2 ^ 30) (time : Z).
Definition within (m : Z * Z) : bool := (m.1 <? nHeight b) && (m.2 <? time).

Lemma sequence_loop_ok vin : forall heights nMinHeight nMinTime, length heights = length vin -> Forall (fun h => 0 <= h <= nHeight b) heights ->
  exists m l, sequence_loop H p vin heights nMinHeight nMinTime = Ok (m, l) /\
    within m = within (nMinHeight, nMinTime) && all_met H p (nHeight b) time vin heights.
Proof.
  induction vin as [|i vin IH]; intros heights mh mt Hl Hh.
  { exists (mh, mt), heights. cbn. split; [done|]. by rewrite andb_true_r. }
  destruct heights as [|h heights]; [done|]. apply Forall_cons_iff in Hh as [Hh Hhs]. injection Hl as Hl. cbn [sequence_loop all_met]. unfold input_met, lock_met.
  destruct (Z.land (nSequence i) SEQUENCE_LOCKTIME_DISABLE_FLAG =? 0); cbn [negb orb].
  2:{ destruct (IH heights mh mt Hl Hhs) as (m & l & -> & E). exists m, (0 :: l). split; [done|]. exact E. }
  pose proof (mask_range (nSequence i)) as Hm. set (lock := Z.land (nSequence i) SEQUENCE_LOCKTIME_MASK) in *.
  destruct (Z.land (nSequence i) SEQUENCE_LOCKTIME_TYPE_FLAG =? 0); cbn [negb].
  - destruct (Z.leb_spec (2 ^ 31) (h + lock)); [lia|]. cbn [mbind outcome_bind fst snd].
    destruct (IH heights (Z.max mh (h + lock - 1)) mt Hl Hhs) as (m & l & -> & E). exists m, (h :: l). split; [done|]. rewrite E. unfold within. cbn [fst snd]. lia.
  - rewrite (GetAncestor_ok H HI p b) by done. cbn [mbind outcome_bind]. unfold lock_time_at.
    destruct (ancestor_some H HI p b (Z.max (h - 1) 0) Hp) as (q & c & Eq & Hq & _); [lia|]. rewrite Eq.
    destruct (GetMedianTimePast_ok H HI q c Hq) as (_ & _ & _ & -> & _). cbn [mbind outcome_bind fst snd].
    change (Z.shiftl lock SEQUENCE_LOCKTIME_GRANULARITY) with (Z.shiftl lock 9). rewrite Z.shiftl_mul_pow2 by lia.
    destruct (IH heights mh (Z.max mt (mtp H q + lock * 2 ^ 9 - 1)) Hl Hhs) as (m & l & -> & E). exists m, (h :: l). split; [done|].
    rewrite E. unfold within. cbn [fst snd]. lia.
Qed.
End Locks.

Lemma SequenceLocks_ok H tx flags heights p b q : index_ok H -> (forall r c, H !! r = Some c -> 0 <= nTime c) ->
  H !! p = Some b -> pprev b = Some q -> nHeight b < 2 ^ 30 -> length heights = length (vin tx) -> Forall (fun h => 0 <= h <= nHeight b) heights ->
  SequenceLocks H tx flags heights p = Ok (negb (enforced tx flags) || all_met H p (nHeight b) (mtp H q) (vin tx) heights).
Proof.
  intros HI Ht Hp Hq Hh Hl Hhs. pose proof (bo_prev _ _ _ (HI p b Hp)) as Hprev. rewrite Hq in Hprev. destruct Hprev as (c & Hc & Hbc).
  destruct (GetMedianTimePast_ok H HI q c Hc) as (l & El & Hne & Em & Eml).
  assert (0 <= mtp H q) as Hm by (rewrite Eml; apply median_nonneg; [done|by apply (past_times_nonneg H Ht nMedianTimeSpan (Some q))]).
  pose proof (bo_height _ _ _ (HI p b Hp)) as Hbh.
  assert (forall m l', CalculateSequenceLocks H tx flags heights p = Ok (m, l') -> SequenceLocks H tx flags heights p = Ok (within b (mtp H q) m)) as Hgo.
  { intros m l' E. unfold SequenceLocks. rewrite E. cbn [mbind outcome_bind fst]. unfold EvaluateSequenceLocks, deref. rewrite Hp. cbn [mbind outcome_bind].
    rewrite Hq, Em. cbn [mbind outcome_bind]. f_equal. unfold within. lia. }
  assert (within b (mtp H q) (-1, -1) = true) as Hw by (unfold within; cbn; lia).
  unfold CalculateSequenceLocks in Hgo. rewrite Hl, Nat.eqb_refl in Hgo. cbn [negb] in Hgo. fold (enforced tx flags) in Hgo.
  destruct (enforced tx flags); cbn [negb orb] in *; [|by rewrite (Hgo (-1, -1) heights), Hw].
  destruct (sequence_loop_ok H HI p b Hp Hh (mtp H q) (vin tx) heights (-1) (-1) Hl Hhs) as (m & l' & E & Ew).
  rewrite (Hgo m l' E), Ew, Hw. done.
Qed.

Lemma all_met_at H p nh t vin heights n i h : all_met H p nh t vin heights = true -> vin !! n = Some i -> heights !! n = Some h -> input_met H p nh t i h = true.
Proof.
  revert heights n. induction vin as [|j vin IH]; intros [|k heights] n Ha Hi Hh; try done. cbn [all_met] in Ha. apply andb_true_iff in Ha as [Hj Ha].
  destruct n as [|n]; cbn in Hi, Hh; [by injection Hi as <-; injection Hh as <-|by apply (IH heights n)].
Qed.

(** ** Lock times that scripts ask for *)
Lemma masked_split x : Z.land x (Z.lor SEQUENCE_LOCKTIME_TYPE_FLAG SEQUENCE_LOCKTIME_MASK) =
  (if Z.land x SEQUENCE_LOCKTIME_TYPE_FLAG =? 0 then 0 else SEQUENCE_LOCKTIME_TYPE_FLAG) + Z.land x SEQUENCE_LOCKTIME_MASK.
Proof.
  rewrite Z.land_lor_distr_r. replace (if _ =? 0 then 0 else _) with (Z.land x SEQUENCE_LOCKTIME_TYPE_FLAG).
  - rewrite Z.add_nocarry_lxor, Z.lxor_lor; [done|..].
    all: apply Z.bits_inj'; intros n Hn; rewrite !Z.land_spec, Z.bits_0.
    all: change SEQUENCE_LOCKTIME_TYPE_FLAG with (2 ^ 22); change SEQUENCE_LOCKTIME_MASK with (Z.ones 16).
    all: rewrite Z.pow2_bits_eqb, Z.testbit_ones_nonneg by lia; destruct (Z.eqb_spec 22 n), (Z.ltb_spec n 16); try lia; by rewrite ?andb_false_r.
  - change SEQUENCE_LOCKTIME_TYPE_FLAG with (2 ^ 22). destruct (Z.testbit x 22) eqn:E.
    + assert (Z.land x (2 ^ 22) = 2 ^ 22) as ->; [|done]. apply Z.bits_inj'. intros n Hn. rewrite Z.land_spec, Z.pow2_bits_eqb by lia.
      destruct (Z.eqb_spec 22 n) as [<-|]; [by rewrite E|apply andb_false_r].
    + assert (Z.land x (2 ^ 22) = 0) as ->; [|done]. apply Z.bits_inj'. intros n Hn. rewrite Z.land_spec, Z.bits_0, Z.pow2_bits_eqb by lia.
      destruct (Z.eqb_spec 22 n) as [<-|]; [by rewrite E|apply andb_false_r].
Qed.
Lemma CheckSequence_inv c n i : vin (ck_tx c) !! ck_nIn c = Some i -> CheckSequence_tx c n = Ok true ->
  2 <= u32 (Coins.nVersion (ck_tx c)) /\ Z.land (nSequence i) SEQUENCE_LOCKTIME_DISABLE_FLAG = 0 /\
  (Z.land n SEQUENCE_LOCKTIME_TYPE_FLAG =? 0) = (Z.land (nSequence i) SEQUENCE_LOCKTIME_TYPE_FLAG =? 0) /\
  Z.land n SEQUENCE_LOCKTIME_MASK <= Z.land (nSequence i) SEQUENCE_LOCKTIME_MASK.
Proof.
  intros Hi. unfold CheckSequence_tx, elem. rewrite Hi. cbn [mbind outcome_bind]. rewrite !masked_split.
  pose proof (mask_range n). pose proof (mask_range (nSequence i)). change SEQUENCE_LOCKTIME_TYPE_FLAG with (2 ^ 22).
  destruct (Z.ltb_spec (u32 (Coins.nVersion (ck_tx c))) 2) as [|Hv]; [done|].
  destruct (Z.eqb_spec (Z.land (nSequence i) SEQUENCE_LOCKTIME_DISABLE_FLAG) 0) as [Hd|]; [|done]. cbn [negb].
  destruct (Z.land n (2 ^ 22) =? 0), (Z.land (nSequence i) (2 ^ 22) =? 0); intros E; (split; [lia|]; split; [done|]).
  all: match type of E with (if ?g then _ else _) = _ => destruct g eqn:Eg; [done|] end; injection E as E; first [lia|split; [done|lia]].
Qed.
Lemma lock_met_mono H p nh t h n m : (Z.land n SEQUENCE_LOCKTIME_TYPE_FLAG =? 0) = (Z.land m SEQUENCE_LOCKTIME_TYPE_FLAG =? 0) ->
  Z.land n SEQUENCE_LOCKTIME_MASK <= Z.land m SEQUENCE_LOCKTIME_MASK -> lock_met H p nh t h m = true -> lock_met H p nh t h n = true.
Proof. unfold lock_met. intros -> Hle. destruct (Z.land m SEQUENCE_LOCKTIME_TYPE_FLAG =? 0); cbn [negb]; rewrite !Z.leb_le; lia. Qed.

Lemma CheckLockTime_final c n i h t : vin (ck_tx c) !! ck_nIn c = Some i -> CheckLockTime_tx c n = Ok true -> 0 <= n ->
  0 < h -> IsFinalTx (ck_tx c) h t = true -> n < (if n <? LOCKTIME_THRESHOLD then h else t).
Proof.
  intros Hi. unfold CheckLockTime_tx, elem. rewrite Hi. cbn [mbind outcome_bind].
  destruct (negb _) eqn:Ek; [done|]. apply negb_false_iff in Ek. destruct (Z.ltb_spec (nLockTime (ck_tx c)) n) as [|Hn]; [done|].
  intros [= Hs] Hn0 Hh. unfold IsFinalTx. unfold LOCKTIME_THRESHOLD in *.
  destruct (Z.eqb_spec (nLockTime (ck_tx c)) 0) as [Ez|]; [intros _; destruct (Z.ltb_spec n 500000000); lia|].
  destruct (Z.ltb_spec (nLockTime (ck_tx c)) (if nLockTime (ck_tx c) <? 500000000 then h else t)) as [Hlt|_].
  - intros _. destruct (Z.ltb_spec n 500000000), (Z.ltb_spec (nLockTime (ck_tx c)) 500000000); lia.
  - rewrite forallb_forall. intros Hf. specialize (Hf i (proj1 (list_elem_of_In _ _) (list_elem_of_lookup_2 _ _ _ Hi))).
    apply Z.eqb_eq in Hf. by rewrite Hf in Hs.
Qed.

(** ** Inputs and their values *)
Section Inputs.
Context {V : Type} `{CV : !CCoinsView V} `{CL : !CCoinsViewLaws V}.
Implicit Types c : CCoinsViewCache V.

Lemma same_trans c1 c2 c3 : same c1 c2 -> same c2 c3 -> same c1 c3.
Proof. intros [A1 B1 C1] [A2 B2 C2]. split; [done|intros o; by rewrite B2|by rewrite C2]. Qed.
Lemma unspent_coin_ok o x c : cache_ok c -> cache_utxo c o = Some x -> exists c', unspent_coin o c = (Ok x, c') /\ same c c'.
Proof.
  intros Hc Hx. destruct (AccessCoin_ok o c Hc) as (y & c' & E & Hs & Hy). exists c'. split; [|done].
  unfold unspent_coin. rewrite (SE_bind_ok _ _ _ _ _ E). rewrite Hx in Hy. destruct (IsSpent y) eqn:Ey; [done|]. injection Hy as ->.
  done.
Qed.
Lemma have_inputs_ok l : forall c, cache_ok c -> exists c', Cache.have_inputs l c = (Ok (forallb (fun i => bool_decide (is_Some (cache_utxo c (prevout i)))) l), c') /\ same c c'.
Proof.
  induction l as [|i l IH]; intros c Hc; [exists c; split; [done|by apply same_refl]|]. cbn [Cache.have_inputs forallb].
  destruct (cache_HaveCoin_ok (prevout i) c Hc) as (c1 & E1 & S1). rewrite (SE_bind_ok _ _ _ _ _ E1).
  destruct (bool_decide _); [|by exists c1]. destruct (IH c1 (sm_ok _ _ S1)) as (c2 & E2 & S2). exists c2. rewrite E2. split; [|by apply (same_trans c c1)].
  cbn [andb]. do 2 f_equal. clear -S1. induction l as [|j l IH]; [done|]. cbn [forallb]. by rewrite (sm_utxo _ _ S1), IH.
Qed.

(** The coins that a list of inputs spends, when there are all of them. *)
Fixpoint coins_of (u : COutPoint -> option Coin) (l : list CTxIn) : option (list Coin) :=
  match l with [] => Some [] | i :: l => x ← u (prevout i); xs ← coins_of u l; Some (x :: xs) end.
Fixpoint total (l : list Coin) : Z := match l with [] => 0 | x :: l => nValue (out x) + total l end.
Definition mature (nSpendHeight : Z) (x : Coin) : bool := negb (fCoinBase x && (nSpendHeight - Coins.nHeight x <? COINBASE_MATURITY)).
Definition in_money (x : Coin) : bool := MoneyRange (nValue (out x)).

Lemma coins_of_forallb u l : forallb (fun i => bool_decide (is_Some (u (prevout i)))) l = bool_decide (is_Some (coins_of u l)).
Proof.
  induction l as [|i l IH]; [done|]. cbn [forallb coins_of]. rewrite IH. destruct (u (prevout i)) as [x|]; cbn [mbind option_bind]; [|done].
  by destruct (coins_of u l).
Qed.
Lemma coins_of_same c c' l : same c c' -> coins_of (cache_utxo c') l = coins_of (cache_utxo c) l.
Proof. intros S1. induction l as [|i l IH]; [done|]. cbn [coins_of]. by rewrite (sm_utxo _ _ S1), IH. Qed.

Definition spendable (h : Z) (xs : list Coin) : Prop := Forall (fun x => mature h x = true /\ in_money x = true) xs.
Lemma total_nonneg h xs : spendable h xs -> 0 <= total xs.
Proof. induction 1 as [|x xs [_ Hx] _ IH]; cbn [total]; [lia|]. unfold in_money, MoneyRange in Hx. lia. Qed.

Lemma inputs_loop_ok h l : forall c n xs, cache_ok c -> coins_of (cache_utxo c) l = Some xs -> Forall (fun x => - 2 ^ 62 <= nValue (out x) < 2 ^ 62) xs ->
  MoneyRange n = true -> exists r c', inputs_loop h l n c = (Ok r, c') /\ same c c' /\
  match r with
  | inr m => m = n + total xs /\ spendable h xs /\ MoneyRange m = true
  | inl _ => ~ (spendable h xs /\ MoneyRange (n + total xs) = true)
  end.
Proof.
  induction l as [|i l IH]; intros c n xs Hc Hx Hw Hn.
  { injection Hx as <-. exists (inr n), c. split; [done|]. split; [by apply same_refl|]. cbn. rewrite Z.add_0_r. split; [done|]. by split; [constructor|]. }
  cbn [coins_of] in Hx. apply bind_Some in Hx as (x & Ex & Hx). apply bind_Some in Hx as (ys & Ey & Hx). injection Hx as <-.
  apply Forall_cons_iff in Hw as [Hwx Hw]. cbn [inputs_loop total]. rewrite Z.add_assoc.
  destruct (unspent_coin_ok _ x c Hc Ex) as (c1 & E1 & S1). rewrite (SE_bind_ok _ _ _ _ _ E1).
  assert (Hmat : mature h x = negb (fCoinBase x && (h - Coins.nHeight x <? COINBASE_MATURITY))) by done.
  destruct (fCoinBase x && (h - Coins.nHeight x <? COINBASE_MATURITY)).
  { eexists _, c1. split; [done|]. split; [done|]. intros [Hf _]. apply Forall_cons_iff in Hf as [[Hf _] _]. by rewrite Hmat in Hf. }
  assert (0 <= n <= MAX_MONEY) as Hn' by (unfold MoneyRange in Hn; lia). unfold MAX_MONEY in Hn'. unfold CScriptNum.int64_max, CScriptNum.int64_min.
  destruct (Z.ltb_spec (2 ^ 63 - 1) (n + nValue (out x))); [lia|]. destruct (Z.ltb_spec (n + nValue (out x)) (- 2 ^ 63)); [lia|].
  destruct (negb (MoneyRange (nValue (out x))) || negb (MoneyRange (n + nValue (out x)))) eqn:Er.
  { eexists _, c1. split; [done|]. split; [done|]. intros [Hf Hr]. apply Forall_cons_iff in Hf as [[_ Hf] Hys]. apply total_nonneg in Hys.
    unfold in_money, MoneyRange in *. lia. }
  apply orb_false_iff in Er as [Er1%negb_false_iff Er2%negb_false_iff].
  destruct (IH c1 (n + nValue (out x)) ys (sm_ok _ _ S1)) as (r & c2 & E2 & S2 & Hr); [by rewrite (coins_of_same _ _ l S1)|done|done|].
  exists r, c2. split; [done|]. split; [by apply (same_trans c c1)|]. destruct r as [r|m].
  - intros [Hf Hm]. apply Hr. by apply Forall_cons_iff in Hf as [_ Hf].
  - destruct Hr as (-> & Hf & Hm). split; [done|]. split; [|done]. constructor; [|done]. split; [by rewrite Hmat|done].
Qed.

Lemma check_outputs_value l : forall n, MoneyRange n = true -> check_outputs l n = None ->
  exists m, value_out l n = Ok m /\ MoneyRange m = true /\ m = n + foldr (fun o k => nValue o + k) 0 l.
Proof.
  induction l as [|o l IH]; intros n Hn; cbn [check_outputs value_out foldr]; [intros _; exists n; split; [done|]; split; [done|lia]|].
  unfold MoneyRange, MAX_MONEY in *. destruct (Z.ltb_spec (nValue o) 0); [done|]. destruct (Z.ltb_spec (21000000 * 100000000) (nValue o)); [done|].
  destruct (negb ((0 <=? n + nValue o) && (n + nValue o <=? 21000000 * 100000000))) eqn:Er; [done|]. intros Hl. apply negb_false_iff in Er.
  destruct (IH _ Er Hl) as (m & Em & Hm & ->). exists (n + nValue o + foldr (fun o k => nValue o + k) 0 l).
  unfold CScriptNum.int64_max, CScriptNum.int64_min. destruct (Z.ltb_spec (2 ^ 63 - 1) (n + nValue o)); [lia|]. destruct (Z.ltb_spec (n + nValue o) (- 2 ^ 63)); [lia|].
  replace (negb ((0 <=? nValue o) && (nValue o <=? 21000000 * 100000000))) with false by lia. cbn [orb negb]. rewrite Em. split; [done|]. split; [exact Hm|lia].
Qed.
Definition paid (tx : CTransaction) : Z := foldr (fun o k => nValue o + k) 0 (vout tx).

(** The result of [CheckTxInputs] on an ordinary transaction. *)
Lemma CheckTxInputs_ok tx h c : cache_ok c -> IsCoinBase tx = false -> check_outputs (vout tx) 0 = None ->
  (forall o x, cache_utxo c o = Some x -> - 2 ^ 62 <= nValue (out x) < 2 ^ 62) ->
  exists r c', CheckTxInputs tx h c = (Ok r, c') /\ same c c' /\
    (r = None <-> exists xs, coins_of (cache_utxo c) (vin tx) = Some xs /\ spendable h xs /\ MoneyRange (total xs) = true /\ paid tx <= total xs).
Proof.
  intros Hc Hcb Ho Hw. unfold CheckTxInputs, Cache.HaveInputs. rewrite Hcb. destruct (have_inputs_ok (vin tx) c Hc) as (c1 & E1 & S1).
  rewrite (SE_bind_ok _ _ _ _ _ E1), coins_of_forallb. destruct (coins_of (cache_utxo c) (vin tx)) as [xs|] eqn:Ex.
  2:{ rewrite bool_decide_eq_false_2 by (intros [? [=]]). eexists _, c1. split; [done|]. split; [done|]. split; [done|]. by intros (xs & [=] & _). }
  rewrite bool_decide_eq_true_2 by done. cbn [negb].
  destruct (check_outputs_value (vout tx) 0 eq_refl Ho) as (m & Em & Hm & Emp). fold (paid tx) in Emp. rewrite Z.add_0_l in Emp. subst m.
  assert (Forall (fun x => - 2 ^ 62 <= nValue (out x) < 2 ^ 62) xs) as Hxs.
  { clear -Ex Hw. revert xs Ex. induction (vin tx) as [|i l IH]; intros xs Ex; [by injection Ex as <-|]. cbn [coins_of] in Ex.
    apply bind_Some in Ex as (x & Ex & Hx). apply bind_Some in Hx as (ys & Ey & Hx). injection Hx as <-. constructor; [by apply (Hw (prevout i))|by apply IH]. }
  destruct (inputs_loop_ok h (vin tx) c1 0 xs (sm_ok _ _ S1)) as (r & c2 & E2 & S2 & Hr); [by rewrite (coins_of_same _ _ _ S1)|done|done|].
  rewrite (SE_bind_ok _ _ _ _ _ E2). assert (same c c2) as S by by apply (same_trans c c1).
  destruct r as [r|n].
  { eexists _, c2. split; [done|]. split; [done|]. split; [done|]. intros (xs' & [= <-] & Hsp & Hm' & _). by destruct Hr. }
  destruct Hr as (-> & Hsp & Hm'). rewrite Z.add_0_l in *. unfold GetValueOut. rewrite (SE_bind_ok _ _ c2 (paid tx) c2) by (unfold lift_outcome; by rewrite Em).
  unfold MoneyRange, MAX_MONEY in Hm, Hm' |- *. destruct (Z.ltb_spec (total xs) (paid tx)) as [Hlt|Hle].
  { eexists _, c2. split; [done|]. split; [done|]. split; [done|]. intros (xs' & [= <-] & _ & _ & ?). lia. }
  destruct (Z.ltb_spec (total xs - paid tx) 0); [lia|].
  replace (negb ((0 <=? total xs - paid tx) && (total xs - paid tx <=? 21000000 * 100000000))) with false by lia.
  exists None, c2. split; [done|]. split; [done|]. split; [|done]. intros _. by exists xs.
Qed.
End Inputs.

(** ** Claims *)
Definition toy_spend (locks : list Z) : CTransaction :=
  mkTx 2 (map (fun s => mkTxIn (mkOutPoint (replicate 32 5) s) [0x51] s []) locks) [mkTxOut 40 [0x51]] 0 (replicate 32 6).
Lemma toy_a3_entry : exists b, heap toy_tree !! toy_at toy_a3 = Some b /\ pprev b = Some (toy_at toy_a2) /\ nHeight b = 3.
Proof.
  assert ((fun b => (pprev b, nHeight b)) <$> heap toy_tree !! toy_at toy_a3 = Some (Some (toy_at toy_a2), 3)) as E by (vm_compute; reflexivity).
  destruct (heap toy_tree !! toy_at toy_a3) as [b|]; [|discriminate E]. exists b. injection E as E1 E2. by rewrite E1, E2.
Qed.
Lemma toy_tree_times r c : heap toy_tree !! r = Some c -> 0 <= nTime c.
Proof.
  assert (forallb (fun '(_, c) => 0 <=? nTime c) (map_to_list (heap toy_tree)) = true) as E by (vm_compute; reflexivity).
  intros Hr. rewrite forallb_forall in E. apply elem_of_map_to_list, list_elem_of_In in Hr. specialize (E _ Hr). cbn in E. lia.
Qed.

(** [SequenceLocks] enforces BIP68 exactly.  The minimal height and time that
    [CalculateSequenceLocks] computes over all inputs say the same as the rule input
    by input: the block is high enough above the coin, or the median time before it
    late enough after the median time before the coin's block, unless the input
    disables the rule or it is not enforced.  No pointer it follows is null. *)
Theorem sequence_locks_exact (H : Index) (tx : CTransaction) (flags : Z) (heights : list Z) (p q : ptr) (b : CBlockIndex) :
  index_ok H -> (forall r c, H !! r = Some c -> 0 <= nTime c) -> H !! p = Some b -> pprev b = Some q -> nHeight b < 2 ^ 30 ->
  length heights = length (vin tx) -> Forall (fun h => 0 <= h <= nHeight b) heights ->
  SequenceLocks H tx flags heights p = Ok (negb (enforced tx flags) || all_met H p (nHeight b) (mtp H q) (vin tx) heights).
Proof. intros HI Ht Hp Hq Hb Hl Hh. by apply SequenceLocks_ok. Qed.
Lemma sequence_locks_exact_witness :
  SequenceLocks (heap toy_tree) (toy_spend [2; Z.lor SEQUENCE_LOCKTIME_TYPE_FLAG 0; 0xffffffff]) 1 [1; 2; 3] (toy_at toy_a3) = Ok true /\
  SequenceLocks (heap toy_tree) (toy_spend [3]) 1 [1] (toy_at toy_a3) = Ok false.
Proof.
  destruct toy_a3_entry as (b & Hb & Hq & Hh).
  split; (rewrite (sequence_locks_exact (heap toy_tree) _ 1 _ (toy_at toy_a3) (toy_at toy_a2) b toy_index toy_tree_times Hb Hq);
    [rewrite Hh; vm_compute; reflexivity|rewrite Hh; lia|reflexivity|rewrite Hh; repeat constructor; lia]).
Defined.


#[local] Instance steady_view : CCoinsView CoinsDB := db_view steady.
#[local] Instance steady_coins : CCoinsViewLaws CoinsDB := db_laws steady steady_sound.

(** C36: [CheckTxInputs], on an ordinary transaction that [CheckTransaction] accepts, whether it
    looks for duplicate inputs or not, and a lawful view whose coins have values of
    at most [2^62] either way, accepts exactly when the view has a
    coin for every input, each of them mature and of a value in range, their sum is
    in range and covers the outputs.  It always gives a verdict, though it asserts
    that coins are there and adds 64-bit values, and leaves the view as it was. *)
Theorem check_inputs_exact {V} `{CV : !CCoinsView V} `{CL : !CCoinsViewLaws V} (tx : CTransaction) (h : Z) (c : CCoinsViewCache V) (fCheckDuplicateInputs : bool) :
  cache_ok c -> IsCoinBase tx = false -> CheckTransaction tx fCheckDuplicateInputs = None ->
  (forall o x, cache_utxo c o = Some x -> - 2 ^ 62 <= nValue (out x) < 2 ^ 62) ->
  exists r c', CheckTxInputs tx h c = (Ok r, c') /\ same c c' /\
    (r = None <-> exists xs, coins_of (cache_utxo c) (vin tx) = Some xs /\ spendable h xs /\ MoneyRange (total xs) = true /\ paid tx <= total xs).
Proof.
  intros Hc Hcb Ht Hw. apply CheckTxInputs_ok; [done|done| |done]. unfold CheckTransaction in Ht.
  destruct (vin tx); [done|]. destruct (vout tx); [done|]. case_match; [done|]. destruct (check_outputs _ 0); [done|]. done.
Qed.
Lemma check_inputs_exact_witness :
  let c : CCoinsViewCache CoinsDB := Cache.new one_coin in
  let tx := mkTx 2 [mkTxIn here [0x51] 0 []] [mkTxOut 40 [0x51]] 0 (replicate 32 6) in
  exists r c', CheckTxInputs tx 11 c = (Ok r, c') /\ r = None.
Proof.
  intros c tx. destruct (check_inputs_exact tx 11 c true) as (r & c' & E & _ & Hr).
  - apply new_ok.
  - reflexivity.
  - vm_compute. reflexivity.
  - intros o x. unfold cache_utxo, over. cbn. rewrite lookup_empty. intros [<- <-]%lookup_singleton_Some. cbn. lia.
  - exists r, c'. split; [exact E|]. apply Hr. exists [gold]. split; [reflexivity|]. split; [by repeat constructor|]. split; [reflexivity|]. cbn. lia.
Defined.
