(* ===== verification/BlockCheck.v ===== *)
(** * Checks of a block

    Model of the checks of a block in [src/src/validation.cpp] that do not need the
    coins: [GetBlockSubsidy], [CheckBlockHeader], [CheckBlock],
    [GetWitnessCommitmentIndex], [ContextualCheckBlock], [GetBlockScriptFlags], and
    of the serialization and weight of a block ([src/src/primitives/block.h],
    [src/src/consensus/validation.h]). *)

From S2P Require Import Prelude Script Interpreter Coins Chain VersionBits Merkle TxSerialize SigHash TxVerify.

(** ** Blocks *)
Record CBlock := mkBlock { block_header : CBlockHeader; block_vtx : list CTransaction; fChecked : bool }.
Definition Serialize_header (h : CBlockHeader) : bytes :=
  WriteLE 4 (h_nVersion h) ++ h_hashPrevBlock h ++ h_hashMerkleRoot h ++ h_hashStateRoot h ++ WriteLE 4 (h_nTime h) ++ WriteLE 4 (h_nBits h) ++ WriteLE 4 (h_nHeight h).
Definition Serialize_block (fAllowWitness : bool) (b : CBlock) : bytes :=
  Serialize_header (block_header b) ++ Serialize_vector (fun tx => SerializeTransaction fAllowWitness (mutable tx)) (block_vtx b).
Definition GetBlockWeight (b : CBlock) : Z :=
  size (Serialize_block false b) * (WITNESS_SCALE_FACTOR - 1) + size (Serialize_block true b).

(** ** [GetBlockSubsidy] *)
Definition COIN : Z := 100000000.
Definition GetBlockSubsidy (fRegTest : bool) (nSubsidyHalvingInterval nHeight : Z) : outcome Z :=
  if nSubsidyHalvingInterval =? 0 then Undef "division by zero"
  else
    let halvings := Z.quot nHeight nSubsidyHalvingInterval in
    if 20 <=? halvings then Ok 0
    else
      let nSubsidy := if (nHeight =? 2) && negb fRegTest then 2100000 * COIN else 8 * COIN in
      if halvings <? 0 then Undef "negative shift" else Ok (Z.shiftr nSubsidy halvings).

Section Checks.
Context `{SC : ScriptCrypto}.
Definition Block_GetHash (h : CBlockHeader) : bytes := Hash256 (Serialize_header h).
Definition HashPair (a b : bytes) : bytes := Hash256 (a ++ b).

(** ** [CheckBlock]

    [CheckCasino], on which [CheckBlockHeader] relies, accepts every header.  The
    result is the verdict and the new [block.fChecked]. *)
Definition CheckBlockHeader (h : CBlockHeader) (fCheckPOW : bool) : verdict := None.
Fixpoint check_all (l : list CTransaction) : verdict :=
  match l with
  | [] => None
  | tx :: l =>
    match CheckTransaction tx false with
    | Some r => DoS_again r 0 (strRejectReason r) false
    | None => check_all l
    end
  end.
Definition MAX_BLOCK_SIGOPS_COST : Z := 80000.
Definition CheckBlock (block : CBlock) (fCheckPOW fCheckMerkleRoot : bool) : outcome (verdict * bool) :=
  let vtx := block_vtx block in
  let reject level reason corruption := Ok (DoS level reason corruption, fChecked block) in
  if fChecked block then Ok (None, true)
  else
    match CheckBlockHeader (block_header block) fCheckPOW with
    | Some r => Ok (Some r, fChecked block)
    | None =>
      m ← (if fCheckMerkleRoot then
             r ← BlockMerkleRoot HashPair (map tx_hash vtx);
             Ok (if negb (bool_decide (h_hashMerkleRoot (block_header block) = fst r)) then DoS 100 "bad-txnmrklroot" true
                 else if (snd r : bool) then DoS 100 "bad-txns-duplicate" true else None)
           else Ok None : outcome verdict);
      match m with
      | Some r => Ok (Some r, fChecked block)
      | None =>
        match vtx with
        | [] => reject 100 "bad-blk-length"%string false
        | coinbase :: others =>
          if (MAX_BLOCK_WEIGHT <? size vtx * WITNESS_SCALE_FACTOR) || (MAX_BLOCK_WEIGHT <? size (Serialize_block false block) * WITNESS_SCALE_FACTOR)
          then reject 100 "bad-blk-length"%string false
          else if negb (IsCoinBase coinbase) then reject 100 "bad-cb-missing"%string false
          else if existsb IsCoinBase others then reject 100 "bad-cb-multiple"%string false
          else
            match check_all vtx with
            | Some r => Ok (Some r, fChecked block)
            | None =>
              let nSigOps := foldl (fun n tx => u32 (n + GetLegacySigOpCount tx)) 0 vtx in
              if MAX_BLOCK_SIGOPS_COST <? u32 (nSigOps * WITNESS_SCALE_FACTOR) then reject 100 "bad-blk-sigops"%string false
              else Ok (None, if fCheckPOW && fCheckMerkleRoot then true else fChecked block)
            end
        end
      end
    end.

(** ** Witness commitments *)
Definition is_commitment (s : bytes) : bool :=
  (38 <=? size s) && (nthz s 0 =? OP_RETURN) && (nthz s 1 =? 0x24) && (nthz s 2 =? 0xaa) && (nthz s 3 =? 0x21) && (nthz s 4 =? 0xa9) && (nthz s 5 =? 0xed).
(** The last output of the coinbase that is one, or [-1] *)
Fixpoint commitment_loop (o : Z) (l : list CTxOut) (commitpos : Z) : Z :=
  match l with
  | [] => commitpos
  | x :: l => commitment_loop (o + 1) l (if is_commitment (scriptPubKey x) then o else commitpos)
  end.
Definition GetWitnessCommitmentIndex (vtx : list CTransaction) : Z :=
  match vtx with [] => -1 | tx :: _ => commitment_loop 0 (vout tx) (-1) end.

(** The validation of the commitment: whether there is one, or why the block is
    rejected. *)
Definition check_commitment (vtx : list CTransaction) : outcome (Reject + bool) :=
  let commitpos := GetWitnessCommitmentIndex vtx in
  if commitpos =? -1 then Ok (inr false)
  else
    r ← BlockWitnessMerkleRoot HashPair (map GetWitnessHash vtx);
    coinbase ← elem vtx 0;
    i ← elem (vin coinbase) 0;
    match scriptWitness i with
    | [nonce] =>
      if negb (size nonce =? 32) then Ok (inl (mkReject 100 "bad-witness-nonce-size" true))
      else
        o ← elem (vout coinbase) (Z.to_nat commitpos);
        if negb (bool_decide (Hash256 (fst r ++ nonce) = take 32 (drop 6 (scriptPubKey o))))
        then Ok (inl (mkReject 100 "bad-witness-merkle-match" true))
        else Ok (inr true)
    | _ => Ok (inl (mkReject 100 "bad-witness-nonce-size" true))
    end.

(** ** [ContextualCheckBlock] *)
Definition ContextualCheckBlock (H : Index) (BIP34Height : Z) (P : DeploymentParams) (block : CBlock) (pindexPrev : option ptr) : SE VersionBitsCache verdict :=
  let vtx := block_vtx block in
  nHeight ← lift_outcome (match pindexPrev with None => Ok 0 | Some p => b ← deref H p; Ok (Chain.nHeight b + 1) end : outcome Z);
  csv ← VersionBitsState H P pindexPrev DEPLOYMENT_CSV;
  nLockTimeCutoff ← lift_outcome (if bool_decide (csv = THRESHOLD_ACTIVE)
    then match pindexPrev with None => Undef "null pointer" | Some p => GetMedianTimePast H p end
    else Ok (h_nTime (block_header block)));
  if negb (forallb (fun tx => IsFinalTx tx nHeight nLockTimeCutoff) vtx) then mret (DoS 10 "bad-txns-nonfinal" false)
  else
    height ← lift_outcome (if BIP34Height <=? nHeight then
        expect ← CScript.push_int64 nHeight [];
        coinbase ← elem vtx 0;
        i ← elem (vin coinbase) 0;
        Ok (if (size (scriptSig i) <? size expect) || negb (bool_decide (take (length expect) (scriptSig i) = expect))
            then DoS 100 "bad-cb-height" false else None)
      else Ok None : outcome verdict);
    match height with
    | Some r => mret (Some r)
    | None =>
      segwit ← VersionBitsState H P pindexPrev DEPLOYMENT_SEGWIT;
      c ← lift_outcome (if bool_decide (segwit = THRESHOLD_ACTIVE) then check_commitment vtx else Ok (inr false));
      match c with
      | inl r => mret (Some r)
      | inr fHaveWitness =>
        if negb fHaveWitness && existsb (fun tx => HasWitness (vin tx)) vtx then mret (DoS 100 "unexpected-witness" true)
        else if MAX_BLOCK_WEIGHT <? GetBlockWeight block then mret (DoS 100 "bad-blk-weight" false)
        else mret None
      end
    end.
End Checks.

(** ** [GetBlockScriptFlags] *)
Definition BIP16SwitchTime : Z := 1333238400.
Definition GetBlockScriptFlags (H : Index) (P : HeaderParams) (D : DeploymentParams) (pindex : ptr) : SE VersionBitsCache Z :=
  b ← lift_outcome (deref H pindex);
  let flags := if BIP16SwitchTime <=? nTime b then SCRIPT_VERIFY_P2SH else 0 in
  let flags := if BIP66Height P <=? Chain.nHeight b then Z.lor flags SCRIPT_VERIFY_DERSIG else flags in
  let flags := if BIP65Height P <=? Chain.nHeight b then Z.lor flags SCRIPT_VERIFY_CHECKLOCKTIMEVERIFY else flags in
  csv ← VersionBitsState H D (pprev b) DEPLOYMENT_CSV;
  let flags := if bool_decide (csv = THRESHOLD_ACTIVE) then Z.lor flags SCRIPT_VERIFY_CHECKSEQUENCEVERIFY else flags in
  segwit ← IsWitnessEnabled H D (pprev b);
  mret (if (segwit : bool) then Z.lor (Z.lor flags SCRIPT_VERIFY_WITNESS) SCRIPT_VERIFY_NULLDUMMY else flags).
