(* ===== verification/Undo.v ===== *)
(** * Compressed coins and the undo files

    Model of the variable-length integers of [src/src/serialize.h], of
    [src/src/compressor.h], [compressor.cpp] (amounts and scripts), of the
    serialization of a [Coin] ([src/src/coins.h]) and of undo records
    ([src/src/undo.h]), and of [UndoWriteToDisk], [UndoReadFromDisk]
    ([src/src/validation.cpp]).

    Expanding a public key, and telling whether one is a point of the curve, belong
    to secp256k1 and are parameters. *)

From S2P Require Import Prelude Script Interpreter Coins TxSerialize SigHash.

(** ** Variable-length integers *)

(** [WriteVarInt(os, n)]: [len] is the index in [tmp], whose [room] bytes are left;
    the bytes are listed in the order in which they are written. *)
Fixpoint var_bytes (room : nat) (len : nat) (n : Z) (written : bytes) : outcome bytes :=
  match room with
  | O => Undef "tmp[len] is out of range"
  | S room =>
    let written := Z.lor (Z.land n 0x7f) (if (len =? 0)%nat then 0 else 0x80) :: written in
    if n <=? 0x7f then Ok written else var_bytes room (S len) (Z.shiftr n 7 - 1) written
  end.
Definition WriteVarInt (w n : Z) : outcome bytes := var_bytes (Z.to_nat ((w + 6) / 7)) 0 n [].

(** [ReadVarInt<I>(is)] for a type with greatest value [max]: eleven bytes suffice
    for 64 bits. *)
Fixpoint var_loop (fuel : nat) (max n : Z) : Reader Z :=
  match fuel with
  | O => fail Diverge
  | S fuel =>
    chData ← read_uint 1;
    if Z.shiftr max 7 <? n then throw "ReadVarInt(): size too large"
    else
      let n := Z.lor (Z.shiftl n 7) (Z.land chData 0x7f) in
      if negb (Z.land chData 0x80 =? 0) then
        if n =? max then throw "ReadVarInt(): size too large" else var_loop fuel max (n + 1)
      else mret n
  end.
Definition ReadVarInt (max : Z) : Reader Z := var_loop 11 max 0.
Definition uint32_max : Z := 2 ^ 32 - 1.
Definition uint64_max : Z := 2 ^ 64 - 1.
Definition int32_max : Z := 2 ^ 31 - 1.

(** ** Amounts *)
Fixpoint tens (fuel : nat) (n e : Z) : Z * Z :=
  match fuel with
  | O => (n, e)
  | S fuel => if (n mod 10 =? 0) && (e <? 9) then tens fuel (n / 10) (e + 1) else (n, e)
  end.
Definition CompressAmount (n : Z) : outcome Z :=
  if n =? 0 then Ok 0
  else
    let '(n, e) := tens 9 n 0 in
    if e <? 9 then
      let d := n mod 10 in
      if (1 <=? d) && (d <=? 9) then Ok (u64 (1 + u64 (n / 10 * 9 + d - 1) * 10 + e)) else Assertion "d >= 1 && d <= 9"
    else Ok (u64 (1 + (n - 1) * 10 + 9)).
Definition DecompressAmount (x : Z) : Z :=
  if x =? 0 then 0
  else
    let x := x - 1 in
    let e := x mod 10 in
    let x := x / 10 in
    let n := if e <? 9 then u64 (x / 9 * 10 + (x mod 9 + 1)) else x + 1 in
    Nat.iter (Z.to_nat e) (fun n => u64 (n * 10)) n.

(** ** Scripts *)
Definition nSpecialScripts : Z := 6.
Definition IsToKeyID (s : bytes) : option bytes :=
  if (size s =? 25) && (nthz s 0 =? OP_DUP) && (nthz s 1 =? OP_HASH160) && (nthz s 2 =? 20) && (nthz s 23 =? OP_EQUALVERIFY) && (nthz s 24 =? OP_CHECKSIG)
  then Some (take 20 (drop 3 s)) else None.
Definition IsToScriptID (s : bytes) : option bytes :=
  if (size s =? 23) && (nthz s 0 =? OP_HASH160) && (nthz s 1 =? 20) && (nthz s 22 =? OP_EQUAL) then Some (take 20 (drop 2 s)) else None.
Definition GetSpecialSize (nSize : Z) : Z :=
  if (nSize =? 0) || (nSize =? 1) then 20 else if (nSize =? 2) || (nSize =? 3) || (nSize =? 4) || (nSize =? 5) then 32 else 0.

(** [class CTxUndo], [class CBlockUndo]; what is in the undo files from a position on *)
Abbreviation CTxUndo := (list Coin) (only parsing).
Abbreviation CBlockUndo := (list (list Coin)) (only parsing).
Abbreviation UndoFiles := (gmap (Z * Z) bytes) (only parsing).

Section Compress.
Context `{SC : ScriptCrypto} (IsFullyValid : bytes -> bool) (DecompressKey : bytes -> option bytes).

(** The public key is what [Set] has copied: of the right length for its header. *)
Definition IsToPubKey (s : bytes) : option bytes :=
  if (size s =? 35) && (nthz s 0 =? 33) && (nthz s 34 =? OP_CHECKSIG) && ((nthz s 1 =? 2) || (nthz s 1 =? 3)) then Some (take 33 (drop 1 s))
  else if (size s =? 67) && (nthz s 0 =? 65) && (nthz s 66 =? OP_CHECKSIG) && (nthz s 1 =? 4)
  then (if IsFullyValid (take 65 (drop 1 s)) then Some (take 65 (drop 1 s)) else None)
  else None.
Definition Compress (s : bytes) : option bytes :=
  match IsToKeyID s, IsToScriptID s, IsToPubKey s with
  | Some keyID, _, _ => Some (0 :: keyID)
  | None, Some scriptID, _ => Some (1 :: scriptID)
  | None, None, Some pubkey =>
    if (nthz pubkey 0 =? 2) || (nthz pubkey 0 =? 3) then Some (nthz pubkey 0 :: take 32 (drop 1 pubkey))
    else if nthz pubkey 0 =? 4 then Some (Z.lor 4 (Z.land (nthz pubkey 64) 1) :: take 32 (drop 1 pubkey)) else None
  | None, None, None => None
  end.
(** The script, which is empty before; it stays so where [Decompress] returns false. *)
Definition Decompress (nSize : Z) (inp : bytes) : outcome bytes :=
  if nSize =? 0 then Ok ([OP_DUP; OP_HASH160; 20] ++ inp ++ [OP_EQUALVERIFY; OP_CHECKSIG])
  else if nSize =? 1 then Ok ([OP_HASH160; 20] ++ inp ++ [OP_EQUAL])
  else if (nSize =? 2) || (nSize =? 3) then Ok ([33; nSize] ++ inp ++ [OP_CHECKSIG])
  else if (nSize =? 4) || (nSize =? 5) then
    match DecompressKey ((nSize - 2) :: inp) with
    | None => Ok []
    | Some pubkey => if size pubkey =? 65 then Ok ([65] ++ pubkey ++ [OP_CHECKSIG]) else Assertion "pubkey.size() == 65"
    end
  else Ok [].
Definition Serialize_compressed (s : bytes) : outcome bytes :=
  match Compress s with
  | Some compr => Ok compr
  | None => n ← WriteVarInt 32 (u32 (size s + nSpecialScripts)); Ok (n ++ s)
  end.
Definition Unserialize_compressed : Reader bytes :=
  nSize ← ReadVarInt uint32_max;
  if nSize <? nSpecialScripts then vch ← read (GetSpecialSize nSize); lift_outcome (Decompress nSize vch)
  else
    let nSize := nSize - nSpecialScripts in
    if MAX_SCRIPT_SIZE <? nSize then _ ← read nSize; mret [OP_RETURN] else read nSize.

(** [class CTxOutCompressor] *)
Definition Serialize_txout_compressed (o : CTxOut) : outcome bytes :=
  nVal ← CompressAmount (u64 (nValue o));
  v ← WriteVarInt 64 nVal;
  s ← Serialize_compressed (scriptPubKey o);
  Ok (v ++ s).
Definition Unserialize_txout_compressed : Reader CTxOut :=
  nVal ← ReadVarInt uint64_max;
  s ← Unserialize_compressed;
  mret (mkTxOut (CScriptNum.s64 (DecompressAmount nVal)) s).

(** ** Coins *)
Definition b2z (b : bool) : Z := if b then 1 else 0.
Definition Serialize_coin (c : Coin) : outcome bytes :=
  if IsSpent c then Assertion "!IsSpent()"
  else
    code ← WriteVarInt 32 (u32 (nHeight c * 2 + b2z (fCoinBase c)));
    o ← Serialize_txout_compressed (out c);
    Ok (code ++ o).
Definition Unserialize_coin : Reader Coin :=
  code ← ReadVarInt uint32_max;
  o ← Unserialize_txout_compressed;
  mret (mkCoin o (negb (Z.land code 1 =? 0)) (Z.shiftr code 1)).

(** ** Undo records: [TxInUndoSerializer], [TxInUndoDeserializer], [CTxUndo], [CBlockUndo] *)

(** [nHeight * 2] is an [int]. *)
Definition Serialize_txinundo (c : Coin) : outcome bytes :=
  if int32_max <? nHeight c * 2 + b2z (fCoinBase c) then Undef "nHeight * 2 overflows"
  else
    code ← WriteVarInt 32 (nHeight c * 2 + b2z (fCoinBase c));
    o ← Serialize_txout_compressed (out c);
    Ok (code ++ (if 0 <? nHeight c then [0] else []) ++ o).
Definition Unserialize_txinundo : Reader Coin :=
  nCode ← ReadVarInt uint32_max;
  let nHeight := nCode / 2 in
  _ ← (if 0 <? nHeight then ReadVarInt int32_max else mret 0);
  o ← Unserialize_txout_compressed;
  mret (mkCoin o (negb (Z.land nCode 1 =? 0)) nHeight).

(** Values written one after another *)
Fixpoint write_all {A} (f : A -> outcome bytes) (l : list A) : outcome bytes :=
  match l with [] => Ok [] | x :: l => b ← f x; r ← write_all f l; Ok (b ++ r) end.
Definition MIN_TRANSACTION_INPUT_WEIGHT : Z := 4 * 41.
Definition MAX_INPUTS_PER_BLOCK : Z := MAX_BLOCK_WEIGHT / MIN_TRANSACTION_INPUT_WEIGHT.
Definition Serialize_txundo (u : CTxUndo) : outcome bytes := b ← write_all Serialize_txinundo u; Ok (WriteCompactSize (size u) ++ b).
Definition Unserialize_txundo : Reader CTxUndo :=
  count ← ReadCompactSize;
  if MAX_INPUTS_PER_BLOCK <? count then throw "Too many input undo records" else read_items Unserialize_txinundo (Z.to_nat count).
Definition Serialize_blockundo (u : CBlockUndo) : outcome bytes := b ← write_all Serialize_txundo u; Ok (WriteCompactSize (size u) ++ b).
Definition Unserialize_blockundo : Reader CBlockUndo := Unserialize_vector Unserialize_txundo.

(** ** Undo files

    Opening a file, and asking for the position in it, can fail: whether they do is
    an argument. *)
Record UndoDisk := mkUndoDisk { can_open : bool; can_tell : bool }.

(** [UndoWriteToDisk]: the header of a record takes eight bytes; the result is
    the position behind it. *)
Definition UndoWriteToDisk (k : UndoDisk) (blockundo : CBlockUndo) (nFile nPos : Z) (hashBlock : bytes) : SE UndoFiles (option Z) :=
  if negb (can_open k) then mret None
  else if negb (can_tell k) then mret None
  else
    b ← lift_outcome (Serialize_blockundo blockundo);
    modify (fun m : UndoFiles => <[(nFile, nPos + 8) := b ++ Hash256 (hashBlock ++ b)]> m);;
    mret (Some (nPos + 8)).
(** [UndoReadFromDisk]: the checksum is that of the bytes that were read; an
    exception is caught.  A file that is missing is not opened. *)
Definition UndoReadFromDisk (nFile nPos : Z) (hashBlock : bytes) (m : UndoFiles) : outcome (option CBlockUndo) :=
  match m !! (nFile, nPos) with
  | None => Ok None
  | Some s =>
    match Unserialize_blockundo s with
    | (Ok u, s') =>
      match read 32 s' with
      | (Ok hashChecksum, _) =>
        Ok (if bool_decide (hashChecksum = Hash256 (hashBlock ++ take (length s - length s') s)) then Some u else None)
      | _ => Ok None
      end
    | (Throw _, _) => Ok None
    | (r, _) => recast r
    end
  end.
End Compress.
