(* ===== verification/UndoThms.v ===== *)
(** * Compressed coins and undo files are read as they were written

    Variable-length integers, compressed amounts and scripts, coins and undo
    records: reading takes the bytes that were written and returns what was
    written. *)

From S2P Require Import Prelude Script ScriptProofs Interpreter InterpreterSafe Coins TxSerialize TxSerializeThms SigHash Undo.
From Stdlib Require Import ZifyBool.

(** ** Variable-length integers *)
Lemma var_bytes_total room : forall len n written, 0 <= n < 128 ^ Z.of_nat room -> (0 < room)%nat -> exists bs, var_bytes room len n written = Ok bs.
Proof.
  induction room as [|room IH]; intros len n written Hn Hr; [lia|]. cbn [var_bytes]. destruct (Z.leb_spec n 0x7f) as [|Hgt]; [by eexists|].
  rewrite Nat2Z.inj_succ, Z.pow_succ_r in Hn by lia. apply IH.
  - rewrite Z.shiftr_div_pow2 by lia. change (2 ^ 7) with 128. split; [pose proof (Z.div_le_mono 128 n 128); rewrite Z.div_same in *; lia|].
    apply Z.lt_sub_lt_add_r. assert (n / 128 < 128 ^ Z.of_nat room) by (apply Z.div_lt_upper_bound; lia). lia.
  - destruct room; [cbn in Hn; lia|lia].
Qed.
Lemma continued_byte n : 0 <= n -> Z.land (Z.lor (Z.land n 0x7f) 0x80) 0x7f = n mod 128 /\ Z.land (Z.lor (Z.land n 0x7f) 0x80) 0x80 = 0x80 /\ is_byte (Z.lor (Z.land n 0x7f) 0x80).
Proof.
  intros Hn. change 0x7f with (Z.ones 7). rewrite !Z.land_ones by lia. change (2 ^ 7) with 128. pose proof (Z.mod_pos_bound n 128 ltac:(lia)).
  assert (forall m, 0 <= m < 128 -> Z.lor m 0x80 = m + 128) as E.
  { intros m Hm. symmetry. rewrite Z.add_nocarry_lxor, Z.lxor_lor; [done|..]; apply Z.bits_inj'; intros k Hk; rewrite Z.land_spec, Z.bits_0; change 0x80 with (2 ^ 7); rewrite Z.pow2_bits_eqb by lia.
    all: destruct (Z.eqb_spec 7 k) as [<-|]; [|apply andb_false_r]; rewrite (Z.bits_above_log2 m 7); [done|lia|].
    all: destruct (Z.eq_dec m 0) as [->|]; [cbn; lia|]; apply Z.log2_lt_pow2; lia. }
  rewrite E by done. split; [|split].
  - replace (n mod 128 + 128) with (n mod 128 + 1 * 128) by lia. by rewrite Z_mod_plus_full, Z.mod_mod.
  - rewrite <- E by done. apply Z.bits_inj'; intros k Hk. rewrite Z.land_spec, Z.lor_spec. by destruct (Z.testbit 128 k), (Z.testbit (n mod 128) k).
  - unfold is_byte. lia.
Qed.
Lemma high_low n : 0 <= n -> Z.lor (Z.shiftl (Z.shiftr n 7) 7) (n mod 128) = n.
Proof.
  intros Hn. change 128 with (2 ^ 7). rewrite <- Z.land_ones by lia. apply Z.bits_inj'. intros k Hk.
  rewrite Z.lor_spec, Z.land_spec, Z.testbit_ones_nonneg by lia. destruct (Z.ltb_spec k 7).
  - rewrite Z.shiftl_spec_low by lia. by rewrite andb_true_r.
  - rewrite Z.shiftl_spec, Z.shiftr_spec by lia. rewrite andb_false_r, orb_false_r. f_equal. lia.
Qed.
(** Reading one byte of a number: what was read so far, the seven bits, the flag. *)
Lemma var_loop_step fuel max m n more rest : 0 <= n <= max -> m = Z.shiftr n 7 -> (more = true -> n < max) ->
  var_loop (S fuel) max m (Z.lor (Z.land n 0x7f) (if more then 0x80 else 0) :: rest) = if more then var_loop fuel max (n + 1) rest else (Ok n, rest).
Proof.
  intros Hn -> Hm. cbn [var_loop]. set (b := Z.lor (Z.land n 0x7f) (if more then 0x80 else 0)).
  assert (read_uint 1 (b :: rest) = (Ok b, rest)) as E.
  { unfold read_uint. rewrite (SE_bind_ok _ _ (b :: rest) [b] rest); [cbn; by rewrite Z.add_0_r|]. unfold read. cbn [length]. destruct (Z.ltb_spec (Z.of_nat (S (length rest))) (Z.of_nat 1)); [lia|done]. }
  rewrite (SE_bind_ok _ _ _ _ _ E). rewrite (Z.shiftr_div_pow2 n 7), (Z.shiftr_div_pow2 max 7) by lia. destruct (Z.ltb_spec (max / 2 ^ 7) (n / 2 ^ 7)) as [Hlt|_].
  { pose proof (Z.div_le_mono n max (2 ^ 7)). lia. }
  rewrite <- (Z.shiftr_div_pow2 n 7) by lia. destruct (continued_byte n) as (E1 & E2 & _); [lia|]. subst b. destruct more.
  - rewrite E1, E2, high_low by lia. cbn [Z.eqb negb]. destruct (Z.eqb_spec n max); [specialize (Hm eq_refl); lia|done].
  - rewrite Z.lor_0_r. change 0x7f with (Z.ones 7). rewrite !Z.land_ones, Z.mod_mod by lia. change (2 ^ 7) with 128. rewrite high_low by lia.
    replace (Z.land (n mod 128) 0x80) with 0; [done|]. symmetry. apply Z.bits_inj'. intros k Hk. rewrite Z.land_spec, Z.bits_0. change 0x80 with (2 ^ 7). rewrite Z.pow2_bits_eqb by lia.
    destruct (Z.eqb_spec 7 k) as [<-|]; [|apply andb_false_r]. change 128 with (2 ^ 7). rewrite Z.mod_pow2_bits_high by lia. done.
Qed.
Lemma var_bytes_reads room : forall len n written bs, var_bytes room len n written = Ok bs -> 0 <= n ->
  exists pre, bs = pre ++ written /\ (0 < length pre <= room)%nat /\ forall fuel max rest, (length pre <= fuel)%nat -> n <= max -> (len <> 0%nat -> n < max) ->
    var_loop fuel max 0 (pre ++ rest) = if (len =? 0)%nat then (Ok n, rest) else var_loop (fuel - length pre) max (n + 1) rest.
Proof.
  induction room as [|room IH]; intros len n written bs; [done|]. cbn [var_bytes]. set (b := Z.lor (Z.land n 0x7f) (if (len =? 0)%nat then 0 else 0x80)).
  assert (b = Z.lor (Z.land n 0x7f) (if negb (len =? 0)%nat then 0x80 else 0)) as Eb by (unfold b; by destruct (len =? 0)%nat).
  destruct (Z.leb_spec n 0x7f) as [Hle|Hgt].
  - intros [= <-] Hn. exists [b]. split; [done|]. split; [cbn; lia|]. intros fuel max rest Hf Hm Hl. cbn [length] in Hf. destruct fuel as [|fuel]; [lia|]. cbn [app].
    rewrite Eb, var_loop_step; [| lia |by rewrite Z.shiftr_div_pow2, Z.div_small by lia|destruct len; [done|intros _; by apply Hl]].
    destruct (len =? 0)%nat; cbn [negb length]; [done|]. by replace (S fuel - 1)%nat with fuel by lia.
  - intros E Hn. assert (1 <= Z.shiftr n 7) as H1 by (rewrite Z.shiftr_div_pow2 by lia; change (2 ^ 7) with 128; pose proof (Z.div_le_mono 128 n 128); rewrite Z.div_same in *; lia).
    destruct (IH (S len) (Z.shiftr n 7 - 1) (b :: written) bs E) as (pre & -> & Hp & Hr); [lia|]. exists (pre ++ [b]). rewrite length_app, <- app_assoc. cbn [length app].
    split; [done|]. split; [lia|]. intros fuel max rest Hf Hm Hl. rewrite <- app_assoc. cbn [app].
    assert (Z.shiftr n 7 <= n) by (rewrite Z.shiftr_div_pow2 by lia; apply Z.div_le_upper_bound; lia).
    rewrite Hr; [|lia|lia|intros _; lia]. cbn [Nat.eqb]. replace (fuel - length pre)%nat with (S (fuel - S (length pre))) by lia.
    rewrite Eb, var_loop_step; [|lia|lia|destruct len; [done|intros _; by apply Hl]]. destruct (len =? 0)%nat; cbn [negb]; [done|]. f_equal. lia.
Qed.
Lemma reads_varint w max n : 0 <= n <= max -> n < 2 ^ w -> w = 32 \/ w = 64 -> exists bs, WriteVarInt w n = Ok bs /\ reads (ReadVarInt max) bs n.
Proof.
  intros Hn Hw Hc. unfold WriteVarInt. set (room := Z.to_nat ((w + 6) / 7)).
  assert (0 < room <= 10)%nat as Hr by (unfold room; destruct Hc as [-> | ->]; vm_compute; lia).
  assert (n < 128 ^ Z.of_nat room) as Hlt.
  { unfold room. destruct Hc as [-> | ->]; [change (128 ^ Z.of_nat (Z.to_nat ((32 + 6) / 7))) with (2 ^ 35)|change (128 ^ Z.of_nat (Z.to_nat ((64 + 6) / 7))) with (2 ^ 70)]; lia. }
  destruct (var_bytes_total room 0 n [] ltac:(lia) ltac:(lia)) as [bs E]. exists bs. split; [done|].
  destruct (var_bytes_reads room 0 n [] bs E ltac:(lia)) as (pre & -> & Hp & Hl). rewrite app_nil_r. intros rest. apply Hl; [lia|lia|done].
Qed.

(** ** Amounts *)
Lemma tens_ok fuel : forall n e, 0 < n -> 0 <= e -> e + Z.of_nat fuel = 9 -> exists n' k, tens fuel n e = (n', e + k) /\ 0 <= k /\ e + k <= 9 /\
  0 < n' /\ n = n' * 10 ^ k /\ (e + k < 9 -> n' mod 10 <> 0).
Proof.
  induction fuel as [|fuel IH]; intros n e Hn He Hf; cbn [tens].
  - exists n, 0. rewrite Z.add_0_r. change (10 ^ 0) with 1. repeat split; lia.
  - destruct (Z.eqb_spec (n mod 10) 0) as [E|E]; cbn [andb].
    + destruct (Z.ltb_spec e 9); [|lia]. pose proof (Z.div_mod n 10 ltac:(lia)). destruct (IH (n / 10) (e + 1)) as (n' & k & -> & Hk & Hle & Hn' & Eq & Hm); [lia|lia|lia|].
      exists n', (k + 1). split; [f_equal; lia|]. split; [lia|]. split; [lia|]. split; [lia|].
      split; [|intros; apply Hm; lia]. rewrite Z.pow_add_r, Z.mul_assoc, <- Eq by lia. lia.
    + exists n, 0. rewrite Z.add_0_r. change (10 ^ 0) with 1. destruct (Z.ltb_spec e 9) in |- *; repeat split; lia.
Qed.
Lemma iter_tens e n : 0 <= n -> n * 10 ^ Z.of_nat e < 2 ^ 64 -> Nat.iter e (fun n => u64 (n * 10)) n = n * 10 ^ Z.of_nat e.
Proof.
  intros Hn. induction e as [|e IH]; intros Hb; [cbn; lia|]. rewrite Nat2Z.inj_succ, Z.pow_succ_r in * by lia.
  change (Nat.iter (S e) ?f n) with (f (Nat.iter e f n)). pose proof (Z.pow_pos_nonneg 10 (Z.of_nat e) ltac:(lia) ltac:(lia)).
  rewrite IH by nia. rewrite wrap_small; [lia|]. unfold in_range. nia.
Qed.
(** A compressed amount is short and gives the amount back. *)
Lemma CompressAmount_ok n : 0 <= n < 2 ^ 60 -> exists x, CompressAmount n = Ok x /\ 0 <= x < 2 ^ 64 /\ DecompressAmount x = n.
Proof.
  intros Hn. unfold CompressAmount. destruct (Z.eqb_spec n 0) as [->|Hne]; [by exists 0|].
  destruct (tens_ok 9 n 0) as (m & e & -> & He & He9 & Hm & Eq & Hd); [lia|lia|done|]. rewrite Z.add_0_l in *.
  assert (m <= n) as Hmn by (pose proof (Z.pow_pos_nonneg 10 e ltac:(lia) ltac:(lia)); nia).
  pose proof (Z.div_mod m 10 ltac:(lia)). pose proof (Z.mod_pos_bound m 10 ltac:(lia)).
  assert (forall y, 0 <= y < 2 ^ 64 -> Nat.iter (Z.to_nat e) (fun n => u64 (n * 10)) y = y * 10 ^ e \/ 2 ^ 64 <= y * 10 ^ e) as Hit.
  { intros y Hy. destruct (Z.lt_ge_cases (y * 10 ^ e) (2 ^ 64)) as [Hlt|]; [left|by right]. rewrite iter_tens by (rewrite ?Z2Nat.id by lia; lia). by rewrite Z2Nat.id by lia. }
  destruct (Z.ltb_spec e 9) as [Hlt|Hge].
  - specialize (Hd Hlt). destruct ((1 <=? m mod 10) && (m mod 10 <=? 9)) eqn:Ed; [|lia].
    remember (m / 10 * 9 + m mod 10 - 1) as q eqn:Eqq. assert (0 <= q < 2 ^ 60) as Hq by lia. rewrite (wrap_small 64 q) by (unfold in_range; lia). rewrite wrap_small by (unfold in_range; lia).
    exists (1 + q * 10 + e). split; [done|]. split; [lia|]. unfold DecompressAmount. destruct (Z.eqb_spec (1 + q * 10 + e) 0); [lia|].
    assert ((1 + q * 10 + e - 1) mod 10 = e /\ (1 + q * 10 + e - 1) / 10 = q) as [-> ->] by (Z.div_mod_to_equations; lia).
    assert (q / 9 = m / 10 /\ q mod 9 = m mod 10 - 1) as [-> ->] by (clear -Eqq H H0 Ed; Z.div_mod_to_equations; lia).
    cbn zeta. destruct (Z.ltb_spec e 9); [|lia]. replace (m / 10 * 10 + (m mod 10 - 1 + 1)) with m by lia. rewrite wrap_small by (unfold in_range; lia).
    destruct (Hit m ltac:(lia)); lia.
  - assert (e = 9) as -> by lia. rewrite wrap_small by (unfold in_range; lia). exists (1 + (m - 1) * 10 + 9). split; [done|]. split; [lia|].
    unfold DecompressAmount. destruct (Z.eqb_spec (1 + (m - 1) * 10 + 9) 0); [lia|]. 
    assert ((1 + (m - 1) * 10 + 9 - 1) mod 10 = 9 /\ (1 + (m - 1) * 10 + 9 - 1) / 10 = m - 1) as [-> ->] by (Z.div_mod_to_equations; lia).
    cbn zeta. change (9 <? 9) with false. cbn iota. replace (m - 1 + 1) with m by lia.
    destruct (Hit m ltac:(lia)); lia.
Qed.

(** ** Scripts *)
Lemma drop_nthz (s : bytes) k : (k < length s)%nat -> drop k s = nthz s (Z.of_nat k) :: drop (S k) s.
Proof.
  revert s. induction k as [|k IH]; intros [|b s] Hk; cbn [length] in Hk; try lia; [done|]. cbn [drop]. rewrite IH by lia. f_equal.
  unfold nthz. rewrite !Nat2Z.id. done.
Qed.
(** A script by the bytes before and behind a part of it. *)
Abbreviation at_ s i := (nthz s (Z.of_nat i)).
Lemma drop_list (s : bytes) k : (k <= length s)%nat -> drop k s = map (fun i => at_ s i) (seq k (length s - k)).
Proof.
  intros Hk. remember (length s - k)%nat as n eqn:En. revert k Hk En. induction n as [|n IH]; intros k Hk En; [by rewrite drop_ge by lia|].
  rewrite (drop_nthz s k) by lia. cbn [seq map]. f_equal. apply IH; lia.
Qed.
Lemma split_at (s : bytes) a n l : size s = Z.of_nat l -> (a + n <= l)%nat ->
  map (fun i => at_ s i) (seq 0 a) ++ take n (drop a s) ++ map (fun i => at_ s i) (seq (a + n) (l - (a + n))) = s.
Proof.
  intros Hs Hl. apply Nat2Z.inj in Hs. rewrite <- Hs, <- drop_list, <- drop_drop, take_drop by lia.
  replace (map _ (seq 0 a)) with (take a s); [apply take_drop|]. pose proof (drop_list s 0 ltac:(lia)) as E.
  rewrite drop_0, Nat.sub_0_r in E. rewrite E, firstn_map, take_seq, Nat.min_l by lia. by rewrite <- E.
Qed.

Section Compress.
Context `{SC : ScriptCrypto} (IsFullyValid : bytes -> bool) (DecompressKey : bytes -> option bytes).
(** Of the curve: a full key is recovered from one coordinate and the parity of the other. *)
Context (key_recovered : forall k, length k = 65%nat -> nthz k 0 = 4 -> IsFullyValid k = true ->
  DecompressKey ((2 + Z.land (nthz k 64) 1) :: take 32 (drop 1 k)) = Some k).
Abbreviation Compress := (Compress IsFullyValid).
Abbreviation Decompress := (Decompress DecompressKey).

Lemma land_1_cases x : Z.land x 1 = 0 \/ Z.land x 1 = 1.
Proof. change (Z.land x 1) with (Z.land x (Z.ones 1)). rewrite Z.land_ones by lia. change (2 ^ 1) with 2. pose proof (Z.mod_pos_bound x 2 ltac:(lia)). lia. Qed.
(** One of the six forms: the script is its fixed bytes and the part that is kept. *)
Ltac reassemble s a n l := f_equal; refine (eq_trans _ (split_at s a n l ltac:(lia) ltac:(lia))); cbn [seq map app Nat.add Nat.sub]; repeat f_equal;
  match goal with |- _ = nthz s (Z.of_nat ?n) => let z := eval vm_compute in (Z.of_nat n) in change (Z.of_nat n) with z end; lia.
Lemma Compress_ok s c : Compress s = Some c -> exists t b, c = t :: b /\ 0 <= t < 6 /\ size b = GetSpecialSize t /\ Decompress t b = Ok s.
Proof.
  unfold Compress, IsToKeyID. destruct (_ && _) eqn:E1.
  { intros [= <-]. exists 0, (take 20 (drop 3 s)). split; [done|]. split; [lia|]. split; [rewrite length_take, length_drop; change (GetSpecialSize 0) with 20; lia|].
    cbn [Undo.Decompress Z.eqb]. reassemble s 3%nat 20%nat 25%nat. }
  unfold IsToScriptID. clear E1. destruct (_ && _) eqn:E1.
  { intros [= <-]. exists 1, (take 20 (drop 2 s)). split; [done|]. split; [lia|]. split; [rewrite length_take, length_drop; change (GetSpecialSize 1) with 20; lia|].
    cbn [Undo.Decompress Z.eqb Pos.eqb]. reassemble s 2%nat 20%nat 23%nat. }
  unfold IsToPubKey. clear E1. destruct (_ && _) eqn:E1.
  { rewrite (drop_nthz s 1) by lia. cbn [take drop]. rewrite drop_0, take_take. change (nthz (nthz s (Z.of_nat 1) :: ?l) 0) with (nthz s 1).
    destruct ((nthz s 1 =? 2) || (nthz s 1 =? 3)) eqn:E2; [|lia]. intros [= <-]. eexists _, _. split; [done|]. split; [lia|].
    assert (nthz s 1 = 2 \/ nthz s 1 = 3) as E3 by lia. split.
    - rewrite length_take, length_drop. destruct E3 as [-> | ->]; [change (GetSpecialSize 2) with 32|change (GetSpecialSize 3) with 32]; lia.
    - unfold Undo.Decompress. rewrite E2. destruct (Z.eqb_spec (nthz s 1) 0); [lia|]. destruct (Z.eqb_spec (nthz s 1) 1); [lia|].
      change (32 `min` 32)%nat with 32%nat. reassemble s 2%nat 32%nat 35%nat. }
  clear E1. destruct (_ && _) eqn:E1; [|done]. destruct (IsFullyValid _) eqn:Ev; [|done].
  set (k := take 65 (drop 1 s)) in *. assert (nthz k 0 = 4) as E0 by (unfold k; rewrite (drop_nthz s 1) by lia; change (nthz (take 65 (?x :: ?l)) 0) with x; change (Z.of_nat 1) with 1; lia).
  rewrite E0. cbn [Z.eqb Pos.eqb orb]. intros [= <-]. assert (length k = 65%nat) as Hk by (unfold k; rewrite length_take, length_drop; lia).
  pose proof (key_recovered k Hk E0 Ev) as Hrec. assert (size (take 32 (drop 1 k)) = 32) as Hs by (rewrite length_take, length_drop; lia).
  assert (Ok ([65] ++ k ++ [OP_CHECKSIG]) = Ok s) as Es by (unfold k; reassemble s 1%nat 65%nat 67%nat).
  eexists _, _. split; [done|]. destruct (land_1_cases (nthz k 64)) as [Eb|Eb]; rewrite Eb in *.
  - change (Z.lor 4 0) with 4. split; [lia|]. split; [by rewrite Hs|]. cbn [Undo.Decompress Z.eqb Pos.eqb orb]. change (4 - 2) with (2 + 0). by rewrite Hrec, Hk.
  - change (Z.lor 4 1) with 5. split; [lia|]. split; [by rewrite Hs|]. cbn [Undo.Decompress Z.eqb Pos.eqb orb]. change (5 - 2) with (2 + 1). by rewrite Hrec, Hk.
Qed.

(** [restores g f a]: what [g] writes is read by [f] as [a]. *)
Definition restores {A} (g : outcome bytes) (f : Reader A) (a : A) : Prop := exists b, g = Ok b /\ reads f b a.

Lemma reads_tag t : 0 <= t < 6 -> reads (ReadVarInt uint32_max) [t] t.
Proof.
  intros Ht. destruct (reads_varint 32 uint32_max t) as (bs & E & Hr); [unfold uint32_max; lia|lia|by left|].
  assert (WriteVarInt 32 t = Ok [t]) as E'; [|rewrite E' in E; by injection E as <-].
  assert (t = 0 \/ t = 1 \/ t = 2 \/ t = 3 \/ t = 4 \/ t = 5) as Hc by lia.
  repeat (destruct Hc as [-> | Hc]; [reflexivity|]). by subst t.
Qed.
Lemma restores_script s : size s <= MAX_SCRIPT_SIZE -> restores (Serialize_compressed IsFullyValid s) (Unserialize_compressed DecompressKey) s.
Proof.
  intros Hs. unfold restores, Serialize_compressed, Unserialize_compressed. destruct (Compress s) as [c|] eqn:Ec.
  - destruct (Compress_ok s c Ec) as (t & b & -> & Ht & Hb & Hd). exists (t :: b). split; [done|]. apply (reads_bind _ _ [t] b t); [by apply reads_tag|].
    unfold nSpecialScripts. destruct (Z.ltb_spec t 6); [|lia]. apply reads_last with b; [by apply reads_read|]. intros rest. unfold lift_outcome. by rewrite Hd.
  - unfold MAX_SCRIPT_SIZE, nSpecialScripts in *. rewrite wrap_small by (unfold in_range; lia).
    destruct (reads_varint 32 uint32_max (size s + 6)) as (bs & -> & Hr); [unfold uint32_max; lia|lia|by left|]. exists (bs ++ s). split; [done|].
    apply reads_bind with (size s + 6); [done|]. destruct (Z.ltb_spec (size s + 6) 6); [lia|]. cbn zeta. replace (size s + 6 - 6) with (size s) by lia.
    destruct (Z.ltb_spec 129000 (size s)); [lia|]. by apply reads_read.
Qed.

(** Values that a coin in the chain has. *)
Definition coin_txout_ok (o : CTxOut) : Prop := 0 <= nValue o < 2 ^ 60 /\ size (scriptPubKey o) <= MAX_SCRIPT_SIZE.
Definition coin_ok (c : Coin) : Prop := coin_txout_ok (out c) /\ 0 <= nHeight c < 2 ^ 30.
Lemma restores_txout o : coin_txout_ok o -> restores (Serialize_txout_compressed IsFullyValid o) (Unserialize_txout_compressed DecompressKey) o.
Proof.
  destruct o as [v s]. intros [Hv Hs]. cbn in Hv, Hs. unfold Serialize_txout_compressed, Unserialize_txout_compressed. cbn [nValue scriptPubKey].
  rewrite wrap_small by (unfold in_range; lia). destruct (CompressAmount_ok v Hv) as (x & -> & Hx & Hd). cbn [mbind outcome_bind].
  destruct (reads_varint 64 uint64_max x) as (b & -> & Hr); [unfold uint64_max; lia|lia|by right|]. cbn [mbind outcome_bind].
  destruct (restores_script s Hs) as (bs & -> & Hrs). exists (b ++ bs). split; [done|]. apply reads_bind with x; [done|]. apply reads_last with s; [done|].
  rewrite Hd. assert (CScriptNum.s64 v = v) as ->; [|apply reads_ret]. unfold CScriptNum.s64. rewrite Z.mod_small by lia. destruct (Z.ltb_spec v (2 ^ 63)); lia.
Qed.
Lemma code_split h (f : bool) : 0 <= h -> Z.land (h * 2 + b2z f) 1 = b2z f /\ Z.shiftr (h * 2 + b2z f) 1 = h /\ (h * 2 + b2z f) / 2 = h.
Proof.
  intros Hh. change (Z.land (h * 2 + b2z f) 1) with (Z.land (h * 2 + b2z f) (Z.ones 1)). rewrite Z.land_ones, Z.shiftr_div_pow2 by lia. change (2 ^ 1) with 2.
  assert (b2z f = 0 \/ b2z f = 1) by (destruct f; [by right|by left]). Z.div_mod_to_equations. lia.
Qed.
Lemma b2z_flag f : negb (b2z f =? 0) = f.
Proof. by destruct f. Qed.
Lemma restores_coin c : coin_ok c -> restores (Serialize_coin IsFullyValid c) (Unserialize_coin DecompressKey) c.
Proof.
  destruct c as [o f h]. intros [Ho Hh]. cbn in Ho, Hh. unfold Serialize_coin, Unserialize_coin. cbn [Coins.nHeight fCoinBase out].
  assert (IsSpent (mkCoin o f h) = false) as -> by (unfold IsSpent, CTxOut_IsNull; cbn; destruct Ho; lia).
  assert (b2z f = 0 \/ b2z f = 1) as Hf by (destruct f; [by right|by left]). rewrite wrap_small by (unfold in_range; lia).
  destruct (reads_varint 32 uint32_max (h * 2 + b2z f)) as (b & -> & Hr); [unfold uint32_max; lia|lia|by left|]. cbn [mbind outcome_bind].
  destruct (restores_txout o Ho) as (bo & -> & Hro). exists (b ++ bo). split; [done|]. apply reads_bind with (h * 2 + b2z f); [done|]. apply reads_last with o; [done|].
  destruct (code_split h f) as (-> & -> & _); [lia|]. rewrite b2z_flag. apply reads_ret.
Qed.
Lemma restores_txinundo c : coin_ok c -> restores (Serialize_txinundo IsFullyValid c) (Unserialize_txinundo DecompressKey) c.
Proof.
  destruct c as [o f h]. intros [Ho Hh]. cbn in Ho, Hh. unfold Serialize_txinundo, Unserialize_txinundo. cbn [Coins.nHeight fCoinBase out].
  assert (b2z f = 0 \/ b2z f = 1) as Hf by (destruct f; [by right|by left]). unfold int32_max. destruct (Z.ltb_spec (2 ^ 31 - 1) (h * 2 + b2z f)); [lia|].
  destruct (reads_varint 32 uint32_max (h * 2 + b2z f)) as (b & -> & Hr); [unfold uint32_max; lia|lia|by left|]. cbn [mbind outcome_bind].
  destruct (restores_txout o Ho) as (bo & -> & Hro). eexists. split; [done|]. apply reads_bind with (h * 2 + b2z f); [done|].
  destruct (code_split h f) as (-> & _ & ->); [lia|]. rewrite b2z_flag. cbn zeta. apply reads_bind with 0.
  - destruct (Z.ltb_spec 0 h); [|apply reads_ret]. destruct (reads_varint 32 (2 ^ 31 - 1) 0) as (z & Ez & Hz); [lia|lia|by left|]. by injection Ez as <-.
  - apply reads_last with o; [done|apply reads_ret].
Qed.
Lemma restores_all {A} (g : A -> outcome bytes) (f : Reader A) l : Forall (fun x => restores (g x) f x) l -> restores (write_all g l) (read_items f (length l)) l.
Proof.
  induction 1 as [|x l (b & E & Hr) Hl (bl & El & Hrl)]; [exists []; split; [done|apply reads_ret]|]. cbn [write_all length read_items]. rewrite E, El.
  exists (b ++ bl). split; [done|]. apply reads_bind with x; [done|]. apply reads_last with l; [done|apply reads_ret].
Qed.
Definition txundo_ok (u : CTxUndo) : Prop := size u <= MAX_INPUTS_PER_BLOCK /\ Forall coin_ok u.
Lemma restores_txundo u : txundo_ok u -> restores (Serialize_txundo IsFullyValid u) (Unserialize_txundo DecompressKey) u.
Proof.
  intros [Hs Hu]. assert (MAX_INPUTS_PER_BLOCK <= MAX_SIZE) by (vm_compute; discriminate).
  destruct (restores_all (Serialize_txinundo IsFullyValid) (Unserialize_txinundo DecompressKey) u) as (b & E & Hr); [eapply List.Forall_impl; [|exact Hu]; intros c; apply restores_txinundo|].
  unfold Serialize_txundo, Unserialize_txundo. rewrite E. eexists. split; [done|]. apply reads_bind with (size u); [apply reads_compact; lia|].
  destruct (Z.ltb_spec MAX_INPUTS_PER_BLOCK (size u)); [lia|]. by rewrite Nat2Z.id.
Qed.
Definition blockundo_ok (u : CBlockUndo) : Prop := size u <= MAX_SIZE /\ Forall txundo_ok u.
Lemma restores_blockundo u : blockundo_ok u -> restores (Serialize_blockundo IsFullyValid u) (Unserialize_blockundo DecompressKey) u.
Proof.
  intros [Hs Hu]. destruct (restores_all (Serialize_txundo IsFullyValid) (Unserialize_txundo DecompressKey) u) as (b & E & Hr);
    [eapply List.Forall_impl; [|exact Hu]; intros c; apply restores_txundo|].
  unfold Serialize_blockundo, Unserialize_blockundo. rewrite E. eexists. split; [done|]. apply reads_bind with (size u); [apply reads_compact; lia|]. by rewrite Nat2Z.id.
Qed.

(** ** Undo files *)
Lemma UndoRead_ok u b nFile nPos h h' m : Serialize_blockundo IsFullyValid u = Ok b -> reads (Unserialize_blockundo DecompressKey) b u -> (forall v, length (Hash256 v) = 32%nat) ->
  m !! (nFile, nPos) = Some (b ++ Hash256 (h ++ b)) ->
  UndoReadFromDisk DecompressKey nFile nPos h' m = Ok (if bool_decide (Hash256 (h ++ b) = Hash256 (h' ++ b)) then Some u else None).
Proof.
  intros Eb Hr Hh Hm. unfold UndoReadFromDisk. rewrite Hm, (Hr (Hash256 (h ++ b))).
  pose proof (reads_read (Hash256 (h ++ b)) 32 ltac:(by rewrite Hh) []) as E. rewrite app_nil_r in E. rewrite E.
  by rewrite length_app, Nat.add_sub, take_app_length.
Qed.
End Compress.

(** ** Claims *)

(** A coin is read from the database as it was written: amounts lose their trailing zeros,
    scripts of the six common forms all but the hash or key, and reading restores
    the amount, the script, the height and the flag from exactly the bytes written.
    A full public key is restored from one coordinate as the curve promises. *)
Theorem coin_roundtrip (IsFullyValid : bytes -> bool) (DecompressKey : bytes -> option bytes) (c : Coin) (rest : bytes) :
  (forall k, length k = 65%nat -> nthz k 0 = 4 -> IsFullyValid k = true -> DecompressKey ((2 + Z.land (nthz k 64) 1) :: take 32 (drop 1 k)) = Some k) ->
  coin_ok c ->
  exists b, Serialize_coin IsFullyValid c = Ok b /\ Unserialize_coin DecompressKey (b ++ rest) = (Ok c, rest).
Proof.
  intros Hk Hc. destruct (restores_coin IsFullyValid DecompressKey Hk c Hc) as (b & E & Hr). exists b. split; [done|apply Hr].
Qed.
(** A curve whose full keys have a second coordinate of zeros but for its last byte. *)
Definition toy_key (x : bytes) (odd : Z) : bytes := 4 :: x ++ replicate 31 0 ++ [odd].
Definition toy_valid (k : bytes) : bool := bool_decide (k = toy_key (take 32 (drop 1 k)) (Z.land (nthz k 64) 1)).
Definition toy_expand (k : bytes) : option bytes := Some (toy_key (drop 1 k) (nthz k 0 - 2)).
Lemma toy_recovered k : length k = 65%nat -> nthz k 0 = 4 -> toy_valid k = true -> toy_expand ((2 + Z.land (nthz k 64) 1) :: take 32 (drop 1 k)) = Some k.
Proof.
  intros _ _ Hv%bool_decide_eq_true. unfold toy_expand. cbn [drop]. rewrite drop_0. change (nthz (?x :: _) 0) with x.
  replace (2 + Z.land (nthz k 64) 1 - 2) with (Z.land (nthz k 64) 1) by lia. by rewrite <- Hv.
Qed.
Definition pay_to_key : Coin := mkCoin (mkTxOut 2500000000 ([65] ++ toy_key (replicate 32 7) 1 ++ [OP_CHECKSIG])) true 1000.
Lemma coin_roundtrip_witness : exists b, Serialize_coin toy_valid pay_to_key = Ok b /\ Unserialize_coin toy_expand (b ++ [1]) = (Ok pay_to_key, [1]).
Proof.
  apply (coin_roundtrip toy_valid toy_expand pay_to_key [1] toy_recovered). unfold coin_ok, coin_txout_ok, MAX_SCRIPT_SIZE. cbn. lia.
Defined.
Example pay_to_key_bytes : Serialize_coin toy_valid pay_to_key = Ok ([0x8e; 0x51] ++ [0x80; 0x65] ++ [5] ++ replicate 32 7).
Proof. vm_compute. reflexivity. Qed.

