(* ===== verification/Connect.v ===== *)
(** * Connecting and disconnecting blocks

    Model of the part of [src/src/validation.cpp] that applies a block to the set of
    unspent coins and to the contract state and takes it back: [UpdateCoins],
    [CheckInputs], [UndoWriteToDisk] through [FindUndoPos], [ConnectBlock],
    [ApplyTxInUndo], [DisconnectBlock]; and of [ScriptErrorString]
    ([src/src/script/script_error.cpp]).

    The globals these functions change are the fields of [Node]; what they read of
    the configuration, and which writes to disk succeed, is [Globals].  The caches of
    signatures ([sigcache.cpp]) remember results of a pure function and are left out;
    of the cache of script executions the elements are kept, which it may forget.
    Worker threads run the checks they are given; the results are collected by
    [control.Wait()]. *)

From S2P Require Import Prelude Script Interpreter Coins Chain VersionBits Merkle TxSerialize SigHash TxVerify BlockCheck Undo.
From S2P Require ScInstruction ScVm ScState ScExtVm ScExecutive ScFace.

(** ** Script checks *)
Definition ScriptErrorString (serror : ScriptError) : string :=
  match serror with
  | SCRIPT_ERR_OK => "No error"
  | SCRIPT_ERR_EVAL_FALSE => "Script evaluated without error but finished with a false/empty top stack element"
  | SCRIPT_ERR_VERIFY => "Script failed an OP_VERIFY operation"
  | SCRIPT_ERR_EQUALVERIFY => "Script failed an OP_EQUALVERIFY operation"
  | SCRIPT_ERR_CHECKMULTISIGVERIFY => "Script failed an OP_CHECKMULTISIGVERIFY operation"
  | SCRIPT_ERR_SMARTCODEVERIFY => "Script failed an OP_SMARTCODEVERIFY operation"
  | SCRIPT_ERR_CHECKSIGVERIFY => "Script failed an OP_CHECKSIGVERIFY operation"
  | SCRIPT_ERR_NUMEQUALVERIFY => "Script failed an OP_NUMEQUALVERIFY operation"
  | SCRIPT_ERR_SCRIPT_SIZE => "Script is too big"
  | SCRIPT_ERR_PUSH_SIZE => "Push value size limit exceeded"
  | SCRIPT_ERR_OP_COUNT => "Operation limit exceeded"
  | SCRIPT_ERR_STACK_SIZE => "Stack size limit exceeded"
  | SCRIPT_ERR_SIG_COUNT => "Signature count negative or greater than pubkey count"
  | SCRIPT_ERR_PUBKEY_COUNT => "Pubkey count negative or limit exceeded"
  | SCRIPT_ERR_BAD_OPCODE => "Opcode missing or not understood"
  | SCRIPT_ERR_DISABLED_OPCODE => "Attempted to use a disabled opcode"
  | SCRIPT_ERR_INVALID_STACK_OPERATION => "Operation not valid with the current stack size"
  | SCRIPT_ERR_INVALID_ALTSTACK_OPERATION => "Operation not valid with the current altstack size"
  | SCRIPT_ERR_OP_RETURN => "OP_RETURN was encountered"
  | SCRIPT_ERR_UNBALANCED_CONDITIONAL => "Invalid OP_IF construction"
  | SCRIPT_ERR_NEGATIVE_LOCKTIME => "Negative locktime"
  | SCRIPT_ERR_UNSATISFIED_LOCKTIME => "Locktime requirement not satisfied"
  | SCRIPT_ERR_SIG_HASHTYPE => "Signature hash type missing or not understood"
  | SCRIPT_ERR_SIG_DER => "Non-canonical DER signature"
  | SCRIPT_ERR_MINIMALDATA => "Data push larger than necessary"
  | SCRIPT_ERR_SIG_PUSHONLY => "Only non-push operators allowed in signatures"
  | SCRIPT_ERR_SIG_HIGH_S => "Non-canonical signature: S value is unnecessarily high"
  | SCRIPT_ERR_SIG_NULLDUMMY => "Dummy CHECKMULTISIG argument must be zero"
  | SCRIPT_ERR_MINIMALIF => "OP_IF/NOTIF argument must be minimal"
  | SCRIPT_ERR_SIG_NULLFAIL => "Signature must be zero for failed CHECK(MULTI)SIG operation"
  | SCRIPT_ERR_DISCOURAGE_UPGRADABLE_NOPS => "NOPx reserved for soft-fork upgrades"
  | SCRIPT_ERR_DISCOURAGE_UPGRADABLE_WITNESS_PROGRAM => "Witness version reserved for soft-fork upgrades"
  | SCRIPT_ERR_PUBKEYTYPE => "Public key is neither compressed or uncompressed"
  | SCRIPT_ERR_WITNESS_PROGRAM_WRONG_LENGTH => "Witness program has incorrect length"
  | SCRIPT_ERR_WITNESS_PROGRAM_WITNESS_EMPTY => "Witness program was passed an empty witness"
  | SCRIPT_ERR_WITNESS_PROGRAM_MISMATCH => "Witness program hash mismatch"
  | SCRIPT_ERR_WITNESS_MALLEATED => "Witness requires empty scriptSig"
  | SCRIPT_ERR_WITNESS_MALLEATED_P2SH => "Witness requires only-redeemscript scriptSig"
  | SCRIPT_ERR_WITNESS_UNEXPECTED => "Witness provided for non-witness script"
  | SCRIPT_ERR_WITNESS_PUBKEYTYPE => "Using non-compressed keys in segwit"
  | SCRIPT_ERR_UNKNOWN_ERROR | SCRIPT_ERR_CLEANSTACK => "unknown error"
  end.
Definition MANDATORY_SCRIPT_VERIFY_FLAGS : Z := SCRIPT_VERIFY_P2SH.
Definition STANDARD_SCRIPT_VERIFY_FLAGS : Z := foldl Z.lor MANDATORY_SCRIPT_VERIFY_FLAGS
  [SCRIPT_VERIFY_DERSIG; SCRIPT_VERIFY_STRICTENC; SCRIPT_VERIFY_MINIMALDATA; SCRIPT_VERIFY_NULLDUMMY; SCRIPT_VERIFY_DISCOURAGE_UPGRADABLE_NOPS;
   SCRIPT_VERIFY_CLEANSTACK; SCRIPT_VERIFY_MINIMALIF; SCRIPT_VERIFY_NULLFAIL; SCRIPT_VERIFY_CHECKLOCKTIMEVERIFY; SCRIPT_VERIFY_CHECKSEQUENCEVERIFY;
   SCRIPT_VERIFY_LOW_S; SCRIPT_VERIFY_WITNESS; SCRIPT_VERIFY_DISCOURAGE_UPGRADABLE_WITNESS_PROGRAM; SCRIPT_VERIFY_WITNESS_PUBKEYTYPE].
Definition STANDARD_NOT_MANDATORY_VERIFY_FLAGS : Z := Z.land STANDARD_SCRIPT_VERIFY_FLAGS (u32 (Z.lnot MANDATORY_SCRIPT_VERIFY_FLAGS)).

(** [class CScriptCheck] *)
Record CScriptCheck := mkCheck {
  cs_scriptPubKey : bytes;
  cs_amount : Z;
  cs_tx : CTransaction;
  cs_nIn : nat;
  cs_nFlags : Z;
  cs_txdata : PrecomputedTransactionData
}.

(** ** The state of a node *)
Record ChainParams := mkChainParams {
  hashGenesisBlock : bytes;
  header_params : HeaderParams;
  deployments : DeploymentParams;
  BIP34Hash : bytes;
  nSubsidyHalvingInterval : Z;
  fRegTest : bool;
  nPowTargetSpacing : Z
}.
Record Globals := mkGlobals {
  hashAssumeValid : bytes;
  nMinimumChainWork : Z;
  nScriptCheckThreads : Z;
  fPruneMode : bool;
  fTxIndex : bool;
  disk_space : bool;      (** [CheckDiskSpace] *)
  undo_disk : UndoDisk;
  txindex_written : bool  (** [WriteTxIndex] *)
}.
Record Node (V D : Type) := mkNode {
  tree : BlockTree;
  view : CCoinsViewCache V;
  versionbitscache : VersionBitsCache;
  pState : ScState.State D;
  undo_files : UndoFiles;
  nUndoSize : gmap Z Z;   (** of [vinfoBlockFile] *)
  setDirtyFileInfo : gset Z;
  fCheckForPruning : bool;
  scriptExecutionCache : gset (bytes * Z);
  txindex : gmap bytes (Z * Z * Z)
}.
Arguments mkNode {V D}.
Arguments tree {V D}.
Arguments view {V D}.
Arguments versionbitscache {V D}.
Arguments pState {V D}.
Arguments undo_files {V D}.
Arguments nUndoSize {V D}.
Arguments setDirtyFileInfo {V D}.
Arguments fCheckForPruning {V D}.
Arguments scriptExecutionCache {V D}.
Arguments txindex {V D}.

(** What a check of a block ends in: [state.Error] is told apart from a rejection. *)
Inductive connect_result := Accepted | Rejected (r : Reject) | Failed (strRejectReason : string).
Inductive DisconnectResult := DISCONNECT_OK | DISCONNECT_UNCLEAN | DISCONNECT_FAILED.

(** ** Coins of a transaction *)
#[global] Instance CTxOut_eq_dec : EqDecision CTxOut.
Proof. solve_decision. Defined.
Section Coins.
Context {V : Type} `{CV : !CCoinsView V}.
Abbreviation M := (SE (CCoinsViewCache V)).

Fixpoint spend_inputs (vin : list CTxIn) : M CTxUndo :=
  match vin with
  | [] => mret []
  | txin :: vin =>
    r ← Cache.SpendCoin (prevout txin);
    match r with
    | None => fail (Assertion "is_spent")
    | Some c => l ← spend_inputs vin; mret (c :: l)
    end
  end.
(** [UpdateCoins(tx, inputs, txundo, nHeight)]: the coins put in [txundo] *)
Definition UpdateCoins (tx : CTransaction) (nHeight : Z) : M CTxUndo :=
  txundo ← (if negb (IsCoinBase tx) then spend_inputs (vin tx) else mret []);
  Cache.AddCoins tx nHeight false;;
  mret txundo.

(** [ApplyTxInUndo(undo, view, out)] *)
Definition ApplyTxInUndo (undo : Coin) (o : COutPoint) : M DisconnectResult :=
  have ← Cache.HaveCoin_ o;
  let fClean := negb have in
  undo ← (if Coins.nHeight undo =? 0 then
            alternate ← Cache.AccessByTxid (op_hash o);
            mret (if negb (IsSpent alternate) then Some (mkCoin (out undo) (fCoinBase alternate) (Coins.nHeight alternate)) else None)
          else mret (Some undo));
  match undo with
  | None => mret DISCONNECT_FAILED
  | Some undo => Cache.AddCoin o undo (negb fClean);; mret (if fClean then DISCONNECT_OK else DISCONNECT_UNCLEAN)
  end.

(** The loop of [DisconnectBlock] over the outputs of a transaction: whether all of
    them are there as the block has them. *)
Fixpoint undo_outputs (hash : bytes) (is_coinbase : bool) (nBlockHeight : Z) (o : Z) (vout : list CTxOut) (fClean : bool) : M bool :=
  match vout with
  | [] => mret fClean
  | x :: vout =>
    fClean ← (if negb (CScript.IsUnspendable (scriptPubKey x)) then
                is_spent ← Cache.SpendCoin (mkOutPoint hash (u32 o));
                mret (match is_spent with
                      | None => false
                      | Some c => if negb (bool_decide (x = out c)) || negb (nBlockHeight =? Coins.nHeight c) || negb (Bool.eqb is_coinbase (fCoinBase c))
                                  then false else fClean
                      end)
              else mret fClean);
    undo_outputs hash is_coinbase nBlockHeight (o + 1) vout fClean
  end.
(** The loop over the inputs: [l] has them from the last one on.  None is a failure. *)
Fixpoint undo_inputs (l : list (CTxIn * Coin)) (fClean : bool) : M (option bool) :=
  match l with
  | [] => mret (Some fClean)
  | (txin, c) :: l =>
    res ← ApplyTxInUndo c (prevout txin);
    match res with
    | DISCONNECT_FAILED => mret None
    | DISCONNECT_UNCLEAN => undo_inputs l false
    | DISCONNECT_OK => undo_inputs l fClean
    end
  end.
(** The loop over the transactions from the last one on, each with its undo record
    unless it is the first of the block. *)
Fixpoint undo_txs (nBlockHeight : Z) (l : list (CTransaction * option CTxUndo)) (fClean : bool) : M (option bool) :=
  match l with
  | [] => mret (Some fClean)
  | (tx, u) :: l =>
    fClean ← undo_outputs (tx_hash tx) (IsCoinBase tx) nBlockHeight 0 (vout tx) fClean;
    match u with
    | None => undo_txs nBlockHeight l fClean
    | Some vprevout =>
      if negb (length vprevout =? length (vin tx))%nat then mret None
      else
        r ← undo_inputs (rev (List.combine (vin tx) vprevout)) fClean;
        match r with None => mret None | Some fClean => undo_txs nBlockHeight l fClean end
    end
  end.
End Coins.

Section Connect.
Context {V : Type} `{CV : !CCoinsView V} {D : Type} `{TD : !ScState.TrieDB D} `{PL : !ScVm.Platform} `{SC : !ScriptCrypto}.
Context (Verify : bytes -> bytes -> bytes -> bool) (CAmount_of : Z -> Z) (IsFullyValid : bytes -> bool) (DecompressKey : bytes -> option bytes).
Context (P : ChainParams) (G : Globals).
Abbreviation N := (Node V D).
Abbreviation M := (SE N).
Implicit Types n : N.

Definition set_tree x n : N := mkNode x (view n) (versionbitscache n) (pState n) (undo_files n) (nUndoSize n) (setDirtyFileInfo n) (fCheckForPruning n) (scriptExecutionCache n) (txindex n).
Definition set_view x n : N := mkNode (tree n) x (versionbitscache n) (pState n) (undo_files n) (nUndoSize n) (setDirtyFileInfo n) (fCheckForPruning n) (scriptExecutionCache n) (txindex n).
Definition set_versionbits x n : N := mkNode (tree n) (view n) x (pState n) (undo_files n) (nUndoSize n) (setDirtyFileInfo n) (fCheckForPruning n) (scriptExecutionCache n) (txindex n).
Definition set_pState x n : N := mkNode (tree n) (view n) (versionbitscache n) x (undo_files n) (nUndoSize n) (setDirtyFileInfo n) (fCheckForPruning n) (scriptExecutionCache n) (txindex n).
Definition set_undo_files x n : N := mkNode (tree n) (view n) (versionbitscache n) (pState n) x (nUndoSize n) (setDirtyFileInfo n) (fCheckForPruning n) (scriptExecutionCache n) (txindex n).
Definition set_undo_size x d f n : N := mkNode (tree n) (view n) (versionbitscache n) (pState n) (undo_files n) x d f (scriptExecutionCache n) (txindex n).
Definition set_cache x n : N := mkNode (tree n) (view n) (versionbitscache n) (pState n) (undo_files n) (nUndoSize n) (setDirtyFileInfo n) (fCheckForPruning n) x (txindex n).
Definition set_txindex x n : N := mkNode (tree n) (view n) (versionbitscache n) (pState n) (undo_files n) (nUndoSize n) (setDirtyFileInfo n) (fCheckForPruning n) (scriptExecutionCache n) x.
Definition in_view {A} (m : SE (CCoinsViewCache V) A) : M A := zoom view set_view m.
Definition in_bits {A} (m : SE VersionBitsCache A) : M A := zoom versionbitscache set_versionbits m.
Definition in_pState {A} (m : SE (ScState.State D) A) : M A := zoom pState set_pState m.

(** ** [CheckInputs] *)
Definition run_check (c : CScriptCheck) : outcome (bool * ScriptError) :=
  i ← elem (vin (cs_tx c)) (cs_nIn c);
  VerifyScript (cs_nFlags c) (TransactionSignatureChecker Verify (mkTxChecker (cs_tx c) (cs_nIn c) (cs_amount c) (Some (cs_txdata c))))
    (scriptSig i) (cs_scriptPubKey c) (scriptWitness i).
Definition GetSpendHeight : M Z :=
  best ← in_view Cache.GetBestBlock_;
  t ← gets tree;
  match mapBlockIndex t !! best with
  | None => undef "end iterator"
  | Some p => b ← lift_outcome (deref (heap t) p); mret (Chain.nHeight b + 1)
  end.
(** The loop over the inputs: the checks for the worker threads, or why the
    transaction is rejected. *)
Fixpoint check_scripts (tx : CTransaction) (flags : Z) (txdata : PrecomputedTransactionData) (pvChecks : bool) (i : nat) (vin : list CTxIn) :
    SE (CCoinsViewCache V) (Reject + list CScriptCheck) :=
  match vin with
  | [] => mret (inr [])
  | txin :: vin =>
    c ← unspent_coin (prevout txin);
    let check flags := mkCheck (scriptPubKey (out c)) (nValue (out c)) tx i flags txdata in
    if pvChecks then
      r ← check_scripts tx flags txdata pvChecks (S i) vin;
      mret (match r with inl r => inl r | inr l => inr (check flags :: l) end)
    else
      r ← lift_outcome (run_check (check flags));
      if (fst r : bool) then check_scripts tx flags txdata pvChecks (S i) vin
      else
        r2 ← (if negb (Z.land flags STANDARD_NOT_MANDATORY_VERIFY_FLAGS =? 0)
              then r2 ← lift_outcome (run_check (check (Z.land flags (u32 (Z.lnot STANDARD_NOT_MANDATORY_VERIFY_FLAGS))))); mret (fst r2)
              else mret false);
        mret (inl (if (r2 : bool)
          then mkReject 0 ("non-mandatory-script-verify-flag (" ++ ScriptErrorString (snd r) ++ ")") false
          else mkReject 100 ("mandatory-script-verify-flag-failed (" ++ ScriptErrorString (snd r) ++ ")") false))
  end.
Definition CheckInputs (tx : CTransaction) (fScriptChecks : bool) (flags : Z) (cacheFullScriptStore : bool) (txdata : PrecomputedTransactionData)
    (pvChecks : bool) : M (Reject + list CScriptCheck) :=
  if IsCoinBase tx then mret (inr [])
  else
    nSpendHeight ← GetSpendHeight;
    v ← in_view (CheckTxInputs tx nSpendHeight);
    match v with
    | Some r => mret (inl r)
    | None =>
      if negb fScriptChecks then mret (inr [])
      else
        let hashCacheEntry := (GetWitnessHash tx, flags) in
        cached ← gets (fun n => bool_decide (hashCacheEntry ∈ scriptExecutionCache n));
        if (cached : bool) then mret (inr [])
        else
          r ← in_view (check_scripts tx flags txdata pvChecks 0 (vin tx));
          match r with
          | inl r => mret (inl r)
          | inr checks =>
            when (cacheFullScriptStore && negb pvChecks) (modify (fun n => set_cache ({[hashCacheEntry]} ∪ scriptExecutionCache n) n));;
            mret (inr checks)
          end
    end.

(** ** [ConnectBlock] *)

(** [GetBlockProofEquivalentTime(to, from, tip)] *)
Definition GetBlockProofEquivalentTime (to from tip : CBlockIndex) : Z :=
  let '(r, sign) := if nChainWork from <? nChainWork to then (nChainWork to - nChainWork from, 1) else (nChainWork from - nChainWork to, -1) in
  let r := u256 (r * nPowTargetSpacing P) / GetBlockProof tip in
  if 2 ^ 63 <=? r then sign * CScriptNum.int64_max else sign * r.
(** [fScriptChecks] *)
Definition script_checks (t : BlockTree) (pindex : ptr) (b : CBlockIndex) : outcome bool :=
  let H := heap t in
  if IsNull256 (hashAssumeValid G) then Ok true
  else
    match mapBlockIndex t !! hashAssumeValid G with
    | None => Ok true
    | Some it =>
      a ← GetAncestor H it (Chain.nHeight b);
      if negb (bool_decide (a = Some pindex)) then Ok true
      else
        match pindexBestHeader t with
        | None => Undef "null pointer"
        | Some best =>
          a ← GetAncestor H best (Chain.nHeight b);
          bb ← deref H best;
          if bool_decide (a = Some pindex) && (nMinimumChainWork G <=? nChainWork bb)
          then Ok (GetBlockProofEquivalentTime bb b bb <=? 60 * 60 * 24 * 7 * 2)
          else Ok true
        end
    end.

(** The two blocks that the rule against overwriting spares *)
Definition bip30_exempt (b : CBlockIndex) : bool :=
  ((Chain.nHeight b =? 91842) && bool_decide (phashBlock b = [0xec; 0xca; 0xe0; 0x00; 0xe3; 0xc8; 0xe4; 0xe0; 0x93; 0x93; 0x63; 0x60; 0x43; 0x1f; 0x3b; 0x76; 0x03; 0xc5; 0x63; 0xc1; 0xff; 0x61; 0x81; 0x39; 0x0a; 0x4d; 0x0a; 0x00; 0x00; 0x00; 0x00; 0x00]))
  || ((Chain.nHeight b =? 91880) && bool_decide (phashBlock b = [0x21; 0xd7; 0x7c; 0xcb; 0x4c; 0x08; 0x38; 0x6a; 0x04; 0xac; 0x01; 0x96; 0xae; 0x10; 0xf6; 0xa1; 0xd2; 0xc2; 0xa3; 0x77; 0x55; 0x8c; 0xa1; 0x90; 0xf1; 0x43; 0x07; 0x00; 0x00; 0x00; 0x00; 0x00])).
(** Whether the view has one of the outputs of a transaction, of a block *)
Fixpoint have_output (hash : bytes) (o : Z) (vout : list CTxOut) : SE (CCoinsViewCache V) bool :=
  match vout with
  | [] => mret false
  | _ :: vout => have ← Cache.HaveCoin_ (mkOutPoint hash (u32 o)); if (have : bool) then mret true else have_output hash (o + 1) vout
  end.
Fixpoint overwrites (vtx : list CTransaction) : SE (CCoinsViewCache V) bool :=
  match vtx with
  | [] => mret false
  | tx :: vtx => have ← have_output (tx_hash tx) 0 (vout tx); if (have : bool) then mret true else overwrites vtx
  end.
Fixpoint prev_heights (vin : list CTxIn) : SE (CCoinsViewCache V) (list Z) :=
  match vin with
  | [] => mret []
  | txin :: vin => c ← Cache.AccessCoin (prevout txin); l ← prev_heights vin; mret (Coins.nHeight c :: l)
  end.

(** A transaction as the contract engine sees it *)
Definition face (tx : CTransaction) : ScFace.CTransaction :=
  ScFace.mkTx (map (fun o => ScFace.mkTxOut (nValue o) (scriptPubKey o)) (vout tx)).

(** The variables of the loop over the transactions *)
Record Progress := mkProgress {
  nFees : Z;
  nSigOpsCost : Z;
  hasContract : bool;
  queue : list CScriptCheck;
  vtxundo : CBlockUndo;
  vPos : list (bytes * Z);
  nTxOffset : Z
}.
Definition check_sequence (H : Index) (pindex : ptr) (nLockTimeFlags : Z) (tx : CTransaction) : M verdict :=
  have ← in_view (Cache.HaveInputs tx);
  if negb have then mret (DoS 100 "bad-txns-inputs-missingorspent" false)
  else
    prevheights ← in_view (prev_heights (vin tx));
    final ← lift_outcome (SequenceLocks H tx nLockTimeFlags prevheights pindex);
    mret (if negb final then DoS 100 "bad-txns-nonfinal" false else None).
(** One turn of the loop *)
Definition connect_tx (H : Index) (pindex : ptr) (nBlockHeight nLockTimeFlags flags : Z) (fScriptChecks fJustCheck : bool) (first : bool) (tx : CTransaction)
    (p : Progress) : M (Reject + Progress) :=
  v ← (if negb (IsCoinBase tx) then check_sequence H pindex nLockTimeFlags tx else mret None);
  match v with
  | Some r => mret (inl r)
  | None =>
    cost ← in_view (GetTransactionSigOpCost tx flags);
    let nSigOpsCost := nSigOpsCost p + cost in
    if MAX_BLOCK_SIGOPS_COST <? nSigOpsCost then mret (inl (mkReject 100 "bad-blk-sigops" false))
    else
      let txdata := Precomputed_of tx in
      r ← (if negb (IsCoinBase tx) then
             valueIn ← in_view (Cache.GetValueIn tx);
             valueOut ← lift_outcome (GetValueOut tx);
             let fees := nFees p + (valueIn - valueOut) in
             if (CScriptNum.int64_max <? fees) || (fees <? CScriptNum.int64_min) then undef "nFees overflows"
             else
               r ← CheckInputs tx fScriptChecks flags fJustCheck txdata (negb (nScriptCheckThreads G =? 0));
               mret (match r with inl r => inl r | inr checks => inr (fees, checks) end)
           else mret (inr (nFees p, [])));
      match r with
      | inl r => mret (inl r)
      | inr (fees, vChecks) =>
        let added := if negb (ScFace.HasCreateOrCall (face tx)) && negb (ScFace.HasOops (face tx)) then vChecks else [] in
        u ← in_view (UpdateCoins tx nBlockHeight);
        mret (inr (mkProgress fees nSigOpsCost (hasContract p || ScFace.HasCreateOrCall (face tx)) (queue p ++ added)
          (if first then vtxundo p else vtxundo p ++ [u]) (vPos p ++ [(tx_hash tx, nTxOffset p)]) (u32 (nTxOffset p + GetSerializeSize true tx))))
      end
  end.
Fixpoint connect_txs (H : Index) (pindex : ptr) (nBlockHeight nLockTimeFlags flags : Z) (fScriptChecks fJustCheck : bool) (first : bool) (vtx : list CTransaction)
    (p : Progress) : M (Reject + Progress) :=
  match vtx with
  | [] => mret (inr p)
  | tx :: vtx =>
    r ← connect_tx H pindex nBlockHeight nLockTimeFlags flags fScriptChecks fJustCheck first tx p;
    match r with
    | inl r => mret (inl r)
    | inr p => connect_txs H pindex nBlockHeight nLockTimeFlags flags fScriptChecks fJustCheck false vtx p
    end
  end.
(** [control.Wait()] *)
Fixpoint all_pass (l : list CScriptCheck) : outcome bool :=
  match l with [] => Ok true | c :: l => r ← run_check c; if (fst r : bool) then all_pass l else Ok false end.

(** [FindUndoPos(state, nFile, pos, nAddSize)]: the position, unless there is no
    space *)
Definition UNDOFILE_CHUNK_SIZE : Z := 0x100000.
Definition FindUndoPos (nFile nAddSize : Z) : M (option Z) :=
  sizes ← gets nUndoSize;
  match sizes !! nFile with
  | None => undef "vinfoBlockFile[nFile]"
  | Some nPos =>
    let nNewSize := u32 (nPos + nAddSize) in
    let nOldChunks := u32 (nPos + UNDOFILE_CHUNK_SIZE - 1) / UNDOFILE_CHUNK_SIZE in
    let nNewChunks := u32 (nNewSize + UNDOFILE_CHUNK_SIZE - 1) / UNDOFILE_CHUNK_SIZE in
    let grows := nOldChunks <? nNewChunks in
    modify (fun n => set_undo_size (<[nFile := nNewSize]> (nUndoSize n)) ({[nFile]} ∪ setDirtyFileInfo n) (fCheckForPruning n || (grows && fPruneMode G)) n);;
    mret (if grows && negb (disk_space G) then None else Some nPos)
  end.
(** [GetUndoPos().IsNull()] *)
Definition undo_pos_null (b : CBlockIndex) : bool := (Z.land (nStatus b) BLOCK_HAVE_UNDO =? 0) || (nFile b =? -1).
Definition set_nUndoPos x (b : CBlockIndex) : CBlockIndex := mkIndex (phashBlock b) (pprev b) (pskip b) (Chain.nHeight b) (nFile b) (nDataPos b) x (nChainWork b) (nTx b)
  (nChainTx b) (nStatus b) (Chain.nVersion b) (hashMerkleRoot b) (hashStateRoot b) (nTime b) (nBits b) (nSequenceId b) (nTimeMax b).
Definition update_entry (pindex : ptr) (b : CBlockIndex) : M unit :=
  modify (fun n => set_tree (mkTree (<[pindex := b]> (heap (tree n))) (mapBlockIndex (tree n)) (pindexBestHeader (tree n)) (setDirtyBlockIndex (tree n)) (g_failed_blocks (tree n))) n).
Definition mark_dirty (pindex : ptr) : M unit :=
  modify (fun n => set_tree (mkTree (heap (tree n)) (mapBlockIndex (tree n)) (pindexBestHeader (tree n)) ({[pindex]} ∪ setDirtyBlockIndex (tree n)) (g_failed_blocks (tree n))) n).
(** The undo information is written; None when it was. *)
Definition write_undo (pindex : ptr) (b prev : CBlockIndex) (u : CBlockUndo) : M (option connect_result) :=
  valid ← lift_outcome (IsValid BLOCK_VALID_SCRIPTS b);
  if undo_pos_null b || negb valid then
    r ← (if undo_pos_null b then
           s ← lift_outcome (Serialize_blockundo IsFullyValid u);
           pos ← FindUndoPos (nFile b) (u32 (size s + 40));
           match pos with
           | None => mret (inl (Failed "out of disk space"))
           | Some nPos =>
             w ← zoom undo_files set_undo_files (UndoWriteToDisk IsFullyValid (undo_disk G) u (nFile b) nPos (phashBlock prev));
             match w with
             | None => mret (inl (Failed "Failed to write undo data"))
             | Some nPos => mret (inr (set_nStatus (Z.lor (nStatus b) BLOCK_HAVE_UNDO) (set_nUndoPos nPos b)))
             end
           end
         else mret (inr b));
    match r with
    | inl f => mret (Some f)
    | inr b =>
      v ← lift_outcome (RaiseValidity BLOCK_VALID_SCRIPTS b);
      update_entry pindex (snd v);;
      mark_dirty pindex;;
      mret None
    end
  else mret None.
(** The position of a transaction on disk *)
Definition write_txindex (b : CBlockIndex) (vPos : list (bytes * Z)) : M (option connect_result) :=
  if negb (fTxIndex G) then mret None
  else if negb (txindex_written G) then mret (Some (Failed "Failed to write transaction index"))
  else
    let pos := if negb (Z.land (nStatus b) BLOCK_HAVE_DATA =? 0) then (nFile b, nDataPos b) else (-1, 0) in
    modify (fun n => set_txindex (foldl (fun m e => <[fst e := (fst pos, snd pos, snd e)]> m) (txindex n) vPos) n);;
    mret None.
(** The root that the header of the parent names *)
Definition parent_root (prev : CBlockIndex) : bytes := if IsNull256 (hashStateRoot prev) then ScState.EmptyTrie else hashStateRoot prev.
Definition face_block (block : CBlock) : ScFace.CBlock :=
  ScFace.mkBlock (Serialize_header (block_header block)) (h_hashStateRoot (block_header block)) (map face (block_vtx block)).

(** What follows the loop over the transactions *)
Definition finish_block (block : CBlock) (pindex : ptr) (b prev : CBlockIndex) (fJustCheck : bool) (p : Progress) : M connect_result :=
  c ← in_pState (ScFace.CheckContractTx CAmount_of Hash256 (face_block block) (hasContract p));
  match c with
  | Some reason => mret (match DoS_again (mkReject 100 reason true) 100 "block-validation-failed" false with Some r => Rejected r | None => Accepted end)
  | None =>
    subsidy ← lift_outcome (GetBlockSubsidy (fRegTest P) (nSubsidyHalvingInterval P) (Chain.nHeight b));
    coinbase ← lift_outcome (elem (block_vtx block) 0);
    valueOut ← lift_outcome (GetValueOut coinbase);
    if CScriptNum.int64_max <? nFees p + subsidy then undef "blockReward overflows"
    else if nFees p + subsidy <? valueOut then mret (Rejected (mkReject 100 "bad-cb-amount" false))
    else
      ok ← lift_outcome (all_pass (queue p));
      if negb ok then mret (Rejected (mkReject 100 "block-validation-failed" false))
      else if fJustCheck then in_pState (ScState.setRoot (parent_root prev));; mret Accepted
      else
        r ← write_undo pindex b prev (vtxundo p);
        match r with
        | Some f => mret f
        | None =>
          r ← write_txindex b (vPos p);
          match r with
          | Some f => mret f
          | None => in_view (Cache.SetBestBlock (phashBlock b));; mret Accepted
          end
        end
  end.

(** [ConnectBlock(block, state, pindex, view, chainparams, fJustCheck)].
    [phashBlock] is null, and [fHash] false, for the entry of a block that is only
    tested. *)
Definition ConnectBlock (block : CBlock) (pindex : ptr) (fHash fJustCheck : bool) : M connect_result :=
  t ← gets tree;
  b ← lift_outcome (deref (heap t) pindex);
  assertion (negb fHash || bool_decide (phashBlock b = Block_GetHash (block_header block))) "*pindex->phashBlock == block.GetHash()";;
  r ← lift_outcome (CheckBlock block (negb fJustCheck) (negb fJustCheck));
  match fst r with
  | Some r => mret (Rejected r)
  | None =>
    hashPrevBlock ← lift_outcome (match pprev b with None => Ok uint256_null | Some q => c ← deref (heap t) q; Ok (phashBlock c) end : outcome bytes);
    best ← in_view Cache.GetBestBlock_;
    assertion (bool_decide (hashPrevBlock = best)) "hashPrevBlock == view.GetBestBlock()";;
    if bool_decide (Block_GetHash (block_header block) = hashGenesisBlock P) then
      when (negb fJustCheck) (in_view (Cache.SetBestBlock (phashBlock b)));;
      mret Accepted
    else
      fScriptChecks ← lift_outcome (script_checks t pindex b);
      match pprev b with
      | None => undef "null pointer"
      | Some q =>
        prev ← lift_outcome (deref (heap t) q);
        bip34 ← lift_outcome (GetAncestor (heap t) q (BIP34Height (header_params P)));
        known ← lift_outcome (match bip34 with None => Ok false | Some a => c ← deref (heap t) a; Ok (bool_decide (phashBlock c = BIP34Hash P)) end : outcome bool);
        let fEnforceBIP30 := (negb fHash || negb (bip30_exempt b)) && negb known in
        over ← (if fEnforceBIP30 then in_view (overwrites (block_vtx block)) else mret false);
        if (over : bool) then mret (Rejected (mkReject 100 "bad-txns-BIP30" false))
        else
          csv ← in_bits (VersionBitsState (heap t) (deployments P) (pprev b) DEPLOYMENT_CSV);
          let nLockTimeFlags := if bool_decide (csv = THRESHOLD_ACTIVE) then LOCKTIME_VERIFY_SEQUENCE else 0 in
          flags ← in_bits (GetBlockScriptFlags (heap t) (header_params P) (deployments P) pindex);
          r ← connect_txs (heap t) pindex (Chain.nHeight b) nLockTimeFlags flags fScriptChecks fJustCheck true (block_vtx block)
            (mkProgress 0 0 false [] [] [] (size (WriteCompactSize (size (block_vtx block)))));
          match r with
          | inl r => mret (Rejected r)
          | inr p => finish_block block pindex b prev fJustCheck p
          end
      end
  end.

(** ** [DisconnectBlock] *)
Definition DisconnectBlock (block : CBlock) (pindex : ptr) : M DisconnectResult :=
  t ← gets tree;
  b ← lift_outcome (deref (heap t) pindex);
  if undo_pos_null b then mret DISCONNECT_FAILED
  else
    prev ← lift_outcome (arrow (heap t) (pprev b));
    files ← gets undo_files;
    u ← lift_outcome (UndoReadFromDisk DecompressKey (nFile b) (nUndoPos b) (phashBlock prev) files);
    match u with
    | None => mret DISCONNECT_FAILED
    | Some vtxundo =>
      if negb (size vtxundo + 1 =? size (block_vtx block)) then mret DISCONNECT_FAILED
      else
        r ← in_view (undo_txs (Chain.nHeight b) (rev (List.combine (block_vtx block) (None :: map Some vtxundo))) true);
        match r with
        | None => mret DISCONNECT_FAILED
        | Some fClean =>
          in_view (Cache.SetBestBlock (phashBlock prev));;
          in_pState (ScState.setRoot (parent_root prev));;
          mret (if (fClean : bool) then DISCONNECT_OK else DISCONNECT_UNCLEAN)
        end
    end.
End Connect.
