(* ===== verification/ConnectCoins.v ===== *)
(** * Blocks and the set of unspent coins

    What the loops of [ConnectBlock] and [DisconnectBlock] do to the coins of a view:
    a transaction removes the coins it spends and adds its outputs; undoing it from
    the coins it removed gives the set back. *)

From S2P Require Import Prelude Script Interpreter Coins CoinsThms Chain TxSerialize SigHash TxVerify Undo UndoThms Connect.
From S2P Require TxVerifyThms.
Import TxVerifyThms (same_trans, coins_of, total).

(** ** What a transaction does to the set of coins *)
Abbreviation utxos := (COutPoint -> option Coin).
Definition prevouts (tx : CTransaction) : list COutPoint := map prevout (vin tx).
Definition minus (l : list COutPoint) (u : utxos) : utxos := fun o => if decide (o ∈ l) then None else u o.
(** The coin that a transaction makes at an outpoint *)
Definition made (tx : CTransaction) (h : Z) (o : COutPoint) : option Coin :=
  if decide (op_hash o = tx_hash tx /\ 0 <= op_n o) then
    x ← vout tx !! Z.to_nat (op_n o);
    if CScript.IsUnspendable (scriptPubKey x) then None else Some (mkCoin x (IsCoinBase tx) h)
  else None.
Definition plus (m : utxos) (u : utxos) : utxos := fun o => match m o with Some x => Some x | None => u o end.
Definition spent_by (tx : CTransaction) : list COutPoint := if IsCoinBase tx then [] else prevouts tx.
Definition apply_tx (tx : CTransaction) (h : Z) (u : utxos) : utxos := plus (made tx h) (minus (spent_by tx) u).

(** A set of coins has none of the outputs of a transaction. *)
Definition none_of (tx : CTransaction) (u : utxos) : Prop := forall o, op_hash o = tx_hash tx -> u o = None.

Section View.
Context {V : Type} `{CV : !CCoinsView V} `{CL : !CCoinsViewLaws V}.
Implicit Types (c : CCoinsViewCache V) (u : utxos).

(** [holds c u b]: the view is sound, shows the coins [u] and the best block [b]. *)
Record holds c u (best : bytes) : Prop := {
  ho_ok : cache_ok c;
  ho_utxo o : cache_utxo c o = u o;
  ho_best : cache_best c = best }.
Lemma holds_same c c' u best : holds c u best -> same c c' -> holds c' u best.
Proof. intros [A B C] [A' B' C']. split; [done|intros o; by rewrite B'|by rewrite C']. Qed.
Lemma holds_ext c u u' best : holds c u best -> (forall o, u o = u' o) -> holds c u' best.
Proof. intros [A B C] E. split; [done|intros o; by rewrite B|done]. Qed.
Lemma holds_putting c c' u best o x : holds c u best -> putting o x c c' -> holds c' (upd o x u) best.
Proof. intros [A B C] (A' & B' & C'). split; [done|intros p; rewrite B'; unfold upd; by destruct (decide _)|by rewrite C']. Qed.
Lemma holds_refl c : cache_ok c -> holds c (cache_utxo c) (cache_best c).
Proof. done. Qed.

Lemma holds_unspent c u best o x : holds c u best -> u o = Some x -> IsSpent x = false.
Proof.
  intros [A B _] Hx. rewrite <- B in Hx. unfold cache_utxo, over in Hx. destruct (cacheCoins c !! o) as [e|].
  - by apply (shows_unspent e).
  - apply (utxo_unspent (base c) o); [apply A|done].
Qed.

(** *** Spending *)
Lemma spend_run o x c u best : holds c u best -> u o = Some x -> exists c', Cache.SpendCoin o c = (Ok (Some x), c') /\ holds c' (upd o None u) best.
Proof.
  intros H Hx. destruct (SpendCoin_ok o c (ho_ok _ _ _ H)) as (r & c' & E & Hf & Hp). exists c'. rewrite (ho_utxo _ _ _ H), Hx in Hf.
  split; [|by apply (holds_putting c)]. rewrite E. destruct r as [y|]; [|done]. cbn in Hf. destruct (IsSpent y); [done|]. by injection Hf as ->.
Qed.
Lemma minus_upd o l u p : minus l (upd o None u) p = minus (o :: l) u p.
Proof.
  unfold minus, upd. destruct (decide (p = o)) as [->|Hne].
  - rewrite (decide_True (P := o ∈ o :: l)) by left. by destruct (decide (o ∈ l)).
  - destruct (decide (p ∈ l)) as [Hl|Hl]; [by rewrite decide_True by (by right)|]. by rewrite decide_False by (rewrite elem_of_cons; tauto).
Qed.
Lemma coins_of_ext u u' l : (forall i, In i l -> u (prevout i) = u' (prevout i)) -> coins_of u l = coins_of u' l.
Proof.
  induction l as [|i l IH]; intros E; [done|]. cbn [coins_of]. rewrite (E i) by (by left). rewrite IH; [done|]. intros j Hj. apply E. by right.
Qed.
Lemma spend_inputs_run l : forall c u best xs, holds c u best -> NoDup (map prevout l) -> coins_of u l = Some xs ->
  exists c', spend_inputs l c = (Ok xs, c') /\ holds c' (minus (map prevout l) u) best.
Proof.
  induction l as [|i l IH]; intros c u best xs H Hnd Hx.
  { injection Hx as <-. exists c. split; [done|]. apply (holds_ext c u); [done|]. intros o. unfold minus. by rewrite decide_False by (apply not_elem_of_nil). }
  cbn [map] in Hnd. apply list.NoDup_cons in Hnd as [Hni Hnd]. cbn [coins_of] in Hx. apply bind_Some in Hx as (x & Ex & Hx). apply bind_Some in Hx as (ys & Ey & Hx). injection Hx as <-.
  destruct (spend_run (prevout i) x c u best H Ex) as (c1 & E1 & H1). cbn [spend_inputs]. rewrite (SE_bind_ok _ _ _ _ _ E1).
  destruct (IH c1 _ best ys H1 Hnd) as (c2 & E2 & H2).
  { rewrite <- Ey. apply coins_of_ext. intros j Hj. unfold upd. rewrite decide_False; [done|]. intros E. apply Hni. rewrite <- E. apply list_elem_of_In, in_map, Hj. }
  rewrite (SE_bind_ok _ _ _ _ _ E2). exists c2. split; [done|]. apply (holds_ext c2 _ _ best H2). intros o. apply minus_upd.
Qed.

(** *** Adding outputs *)
Definition out_made (tx : CTransaction) (h : Z) (i : Z) (l : list CTxOut) (u : utxos) : utxos := fun o =>
  if decide (op_hash o = tx_hash tx /\ i <= op_n o) then
    match l !! Z.to_nat (op_n o - i) with
    | Some x => if CScript.IsUnspendable (scriptPubKey x) then u o else Some (mkCoin x (IsCoinBase tx) h)
    | None => u o
    end
  else u o.
Definition live_outs (l : list CTxOut) : Prop := Forall (fun x => nValue x <> -1) l.
Lemma out_made_nil tx h i u o : out_made tx h i [] u o = u o.
Proof. unfold out_made. by destruct (decide _). Qed.
Lemma out_made_cons tx h i x l u o : 0 <= i ->
  out_made tx h i (x :: l) u o = out_made tx h (i + 1) l (if CScript.IsUnspendable (scriptPubKey x) then u else upd (mkOutPoint (tx_hash tx) i) (Some (mkCoin x (IsCoinBase tx) h)) u) o.
Proof.
  intros Hi. unfold out_made. destruct o as [ho no]. cbn [op_hash op_n]. destruct (decide (ho = tx_hash tx /\ i <= no)) as [[-> Hle]|Hno].
  - destruct (Z.eq_dec no i) as [->|Hne].
    + rewrite decide_False by lia. rewrite Z.sub_diag. change ((x :: l) !! Z.to_nat 0) with (Some x). cbv beta iota. destruct (CScript.IsUnspendable _); [done|]. unfold upd. by rewrite decide_True.
    + rewrite decide_True by (split; [done|lia]). replace (Z.to_nat (no - i)) with (S (Z.to_nat (no - (i + 1)))) by lia. change ((x :: l) !! S ?k) with (l !! k).
      assert (forall y, (if CScript.IsUnspendable (scriptPubKey x) then u else upd (mkOutPoint (tx_hash tx) i) y u) (mkOutPoint (tx_hash tx) no) = u (mkOutPoint (tx_hash tx) no)) as Eu.
      { intros y. destruct (CScript.IsUnspendable _); [done|]. unfold upd. rewrite decide_False; [done|]. congruence. }
      by rewrite Eu.
  - rewrite decide_False by (intros [? ?]; apply Hno; split; [done|lia]). destruct (CScript.IsUnspendable _); [done|]. unfold upd. rewrite decide_False; [done|].
    intros [= -> ->]. apply Hno. split; [done|lia].
Qed.
Lemma add_outputs_run tx h l : forall i c u best, holds c u best -> 0 <= i -> i + size l <= 2 ^ 32 -> live_outs l ->
  (IsCoinBase tx = false -> forall n, i <= n -> u (mkOutPoint (tx_hash tx) n) = None) ->
  exists c', Cache.add_outputs (tx_hash tx) h (IsCoinBase tx) false i l c = (Ok tt, c') /\ holds c' (out_made tx h i l u) best.
Proof.
  induction l as [|x l IH]; intros i c u best H Hi Hn Hl Hnone.
  { exists c. split; [done|]. apply (holds_ext c u); [done|]. intros o. by rewrite out_made_nil. }
  apply Forall_cons_iff in Hl as [Hx Hl]. cbn [length] in Hn. cbn [Cache.add_outputs]. rewrite (SE_bind_ok _ _ c (IsCoinBase tx) c) by done.
  rewrite wrap_small by (unfold in_range; lia).
  assert (exists c1, Cache.AddCoin (mkOutPoint (tx_hash tx) i) (mkCoin x (IsCoinBase tx) h) (IsCoinBase tx) c = (Ok tt, c1) /\
    holds c1 (if CScript.IsUnspendable (scriptPubKey x) then u else upd (mkOutPoint (tx_hash tx) i) (Some (mkCoin x (IsCoinBase tx) h)) u) best) as (c1 & E1 & H1).
  { assert (IsSpent (mkCoin x (IsCoinBase tx) h) = false) as Hs by (unfold IsSpent, CTxOut_IsNull; cbn; by apply Z.eqb_neq).
    destruct (CScript.IsUnspendable (scriptPubKey x)) eqn:Eu.
    - exists c. split; [|done]. unfold Cache.AddCoin. rewrite Hs. cbn [negb assertion]. rewrite (SE_bind_ok _ _ c tt c) by done. cbn [out]. by rewrite Eu.
    - destruct (AddCoin_ok (mkOutPoint (tx_hash tx) i) (mkCoin x (IsCoinBase tx) h) (IsCoinBase tx) c (ho_ok _ _ _ H) Hs Eu) as (c1 & E1 & P1).
      + intros Hcb. rewrite (ho_utxo _ _ _ H). by apply Hnone.
      + exists c1. split; [done|]. by apply (holds_putting c). }
  rewrite (SE_bind_ok _ _ _ _ _ E1). destruct (IH (i + 1) c1 _ best H1) as (c2 & E2 & H2); [lia|lia|done| |].
  - intros Hcb n Hle. destruct (CScript.IsUnspendable _); [apply Hnone; [done|lia]|]. unfold upd. rewrite decide_False by (intros [= ->]; lia). apply Hnone; [done|lia].
  - exists c2. split; [done|]. apply (holds_ext c2 _ _ best H2). intros o. by rewrite out_made_cons.
Qed.
Lemma out_made_plus tx h u o : out_made tx h 0 (vout tx) u o = plus (made tx h) u o.
Proof.
  unfold out_made, plus, made. destruct (decide _); [|done]. rewrite Z.sub_0_r. destruct (vout tx !! Z.to_nat (op_n o)) as [x|]; [|done]. cbn. by destruct (CScript.IsUnspendable _).
Qed.

(** The transactions that [UpdateCoins] is called with. *)
Record tx_fits (tx : CTransaction) : Prop := {
  tf_inputs : IsCoinBase tx = false -> NoDup (prevouts tx);
  tf_outputs : size (vout tx) <= 2 ^ 32;
  tf_values : Forall (fun x => 0 <= nValue x < 2 ^ 60) (vout tx);
  tf_count : size (vin tx) <= MAX_INPUTS_PER_BLOCK }.
Lemma tf_live tx : tx_fits tx -> live_outs (vout tx).
Proof. intros F. eapply List.Forall_impl; [|apply (tf_values tx F)]. cbn. intros x Hx. lia. Qed.
Lemma UpdateCoins_run tx h c u best xs : holds c u best -> tx_fits tx -> none_of tx u ->
  (if IsCoinBase tx then xs = [] else coins_of u (vin tx) = Some xs) ->
  exists c', UpdateCoins tx h c = (Ok xs, c') /\ holds c' (apply_tx tx h u) best.
Proof.
  intros H F Hno Hx. pose proof (tf_live tx F) as Hl. destruct F as [Hnd Hs _ _]. unfold UpdateCoins.
  assert (exists c1, (if negb (IsCoinBase tx) then spend_inputs (vin tx) else mret []) c = (Ok xs, c1) /\ holds c1 (minus (spent_by tx) u) best) as (c1 & E1 & H1).
  { unfold spent_by. destruct (IsCoinBase tx); cbn [negb].
    - subst xs. exists c. split; [done|]. apply (holds_ext c u); [done|]. intros o. unfold minus. by rewrite decide_False by (apply not_elem_of_nil).
    - by apply spend_inputs_run; [|apply Hnd|]. }
  rewrite (SE_bind_ok _ _ _ _ _ E1). destruct (add_outputs_run tx h (vout tx) 0 c1 _ best H1) as (c2 & E2 & H2); [lia|lia|done| |].
  - intros _ n _. unfold minus. destruct (decide _); [done|]. by apply Hno.
  - unfold Cache.AddCoins. rewrite (SE_bind_ok _ _ _ _ _ E2). exists c2. split; [done|]. apply (holds_ext c2 _ _ best H2). intros o. apply out_made_plus.
Qed.

(** *** Undoing *)
Lemma upd_out_made tx h i x l u o : 0 <= i -> u (mkOutPoint (tx_hash tx) i) = None ->
  (if CScript.IsUnspendable (scriptPubKey x) then out_made tx h i (x :: l) u o else upd (mkOutPoint (tx_hash tx) i) None (out_made tx h i (x :: l) u) o) = out_made tx h (i + 1) l u o.
Proof.
  intros Hi Hu. rewrite out_made_cons by done. destruct (CScript.IsUnspendable (scriptPubKey x)) eqn:Ex; [done|].
  unfold upd at 1. destruct (decide (o = mkOutPoint (tx_hash tx) i)) as [->|Hne].
  - unfold out_made. cbn [op_hash op_n]. by rewrite decide_False by lia.
  - rewrite out_made_cons, Ex by done. unfold out_made. destruct (decide _); [|unfold upd; by rewrite decide_False by done].
    destruct (l !! _) as [y|]; [destruct (CScript.IsUnspendable (scriptPubKey y)); [|done]|]; unfold upd; by rewrite decide_False by done.
Qed.
Lemma undo_outputs_run tx h l : forall i c u best f, holds c (out_made tx h i l u) best -> 0 <= i -> i + size l <= 2 ^ 32 ->
  (forall n, i <= n -> u (mkOutPoint (tx_hash tx) n) = None) ->
  exists c', undo_outputs (tx_hash tx) (IsCoinBase tx) h i l f c = (Ok f, c') /\ holds c' u best.
Proof.
  induction l as [|x l IH]; intros i c u best f H Hi Hs Hno.
  { exists c. split; [done|]. apply (holds_ext c _ _ best H). intros o. apply out_made_nil. }
  cbn [length] in Hs. cbn [undo_outputs]. pose proof (fun o => upd_out_made tx h i x l u o Hi (Hno i ltac:(lia))) as Eu.
  assert (exists c1, holds c1 (out_made tx h (i + 1) l u) best /\ (if negb (CScript.IsUnspendable (scriptPubKey x)) then
     (is_spent ← Cache.SpendCoin (mkOutPoint (tx_hash tx) (u32 i)); mret (match is_spent with None => false | Some k =>
        if negb (bool_decide (x = out k)) || negb (h =? Coins.nHeight k) || negb (Bool.eqb (IsCoinBase tx) (fCoinBase k)) then false else f end)) else mret f) c = (Ok f, c1))
    as (c1 & H1 & E1).
  { rewrite wrap_small by (unfold in_range; lia). destruct (CScript.IsUnspendable (scriptPubKey x)) eqn:Ex; cbn [negb].
    - exists c. split; [|done]. by apply (holds_ext c _ _ best H).
    - destruct (spend_run (mkOutPoint (tx_hash tx) i) (mkCoin x (IsCoinBase tx) h) c _ best H) as (c1 & E1 & H1).
      + unfold out_made. cbn [op_hash op_n]. rewrite decide_True by (split; [done|lia]). rewrite Z.sub_diag. change ((x :: l) !! Z.to_nat 0) with (Some x). cbv beta iota. by rewrite Ex.
      + exists c1. split; [by apply (holds_ext c1 _ _ best H1)|]. rewrite (SE_bind_ok _ _ _ _ _ E1). cbn [out fCoinBase Coins.nHeight].
        rewrite bool_decide_eq_true_2 by done. by rewrite Z.eqb_refl, Bool.eqb_reflx. }
  rewrite (SE_bind_ok _ _ _ _ _ E1). apply (IH (i + 1) c1); [done|lia|lia|]. intros n Hn. apply Hno. lia.
Qed.
(** Coins that can have been added: an unspendable output never is, and there is no
    coin of the first block. *)
Definition settled (x : Coin) : Prop := coin_ok x /\ CScript.IsUnspendable (scriptPubKey (out x)) = false /\ 0 < Coins.nHeight x.
Lemma settled_unspent x : settled x -> IsSpent x = false.
Proof. intros (((Hv & _) & _) & _). unfold IsSpent, CTxOut_IsNull. apply Z.eqb_neq. lia. Qed.
Lemma ApplyTxInUndo_run o x c u best : holds c u best -> u o = None -> settled x ->
  exists c', ApplyTxInUndo x o c = (Ok DISCONNECT_OK, c') /\ holds c' (upd o (Some x) u) best.
Proof.
  intros H Ho Hset. pose proof (settled_unspent x Hset) as Hs. destruct Hset as (_ & Hu & Hh). unfold ApplyTxInUndo. destruct (cache_HaveCoin_ok o c (ho_ok _ _ _ H)) as (c1 & E1 & S1).
  rewrite (ho_utxo _ _ _ H), Ho, bool_decide_eq_false_2 in E1 by (intros [? [=]]). rewrite (SE_bind_ok _ _ _ _ _ E1). cbn [negb].
  destruct (Z.eqb_spec (Coins.nHeight x) 0); [lia|]. rewrite (SE_bind_ok _ _ c1 (Some x) c1) by done. pose proof (holds_same c c1 u best H S1) as H1.
  destruct (AddCoin_ok o x false c1 (ho_ok _ _ _ H1) Hs Hu) as (c2 & E2 & P2); [intros _; by rewrite (ho_utxo _ _ _ H1)|].
  rewrite (SE_bind_ok _ _ _ _ _ E2). exists c2. split; [done|]. by apply (holds_putting c1).
Qed.
Definition put_back (l : list (CTxIn * Coin)) (u : utxos) : utxos := foldr (fun '(i, x) u => upd (prevout i) (Some x) u) u l.
Lemma undo_inputs_app l1 l2 f : forall c, undo_inputs (l1 ++ l2) f c =
  (r ← undo_inputs l1 f; match r with None => mret None | Some f => undo_inputs l2 f end) c.
Proof.
  revert f. induction l1 as [|[i x] l1 IH]; intros f c; [done|]. cbn [app undo_inputs]. unfold mbind, SE_bind in *.
  destruct (ApplyTxInUndo x (prevout i) c) as [[[]| | | | |] c1]; try done; apply IH.
Qed.
Lemma undo_inputs_run l : forall c u best f, holds c u best -> NoDup (map (fun e => prevout e.1) l) -> Forall (fun e => u (prevout e.1) = None /\ settled e.2) l ->
  exists c', undo_inputs (rev l) f c = (Ok (Some f), c') /\ holds c' (put_back l u) best.
Proof.
  induction l as [|[i x] l IH]; intros c u best f H Hnd Hf; [by exists c|]. cbn [map fst] in Hnd. apply list.NoDup_cons in Hnd as [Hni Hnd].
  apply Forall_cons_iff in Hf as [[Hi Hx] Hf]. cbn [fst snd] in *. cbn [rev]. destruct (IH c u best f H Hnd Hf) as (c1 & E1 & H1).
  rewrite undo_inputs_app, (SE_bind_ok _ _ _ _ _ E1). destruct (ApplyTxInUndo_run (prevout i) x c1 _ best H1) as (c2 & E2 & H2); [|done|].
  - clear -Hi Hni. induction l as [|[j y] l IH]; [done|]. cbn [put_back foldr]. cbn [map fst] in Hni. apply not_elem_of_cons in Hni as [Hne Hni].
    unfold upd. rewrite decide_False by done. by apply IH.
  - exists c2. split; [|done]. cbn [undo_inputs]. by rewrite (SE_bind_ok _ _ _ _ _ E2).
Qed.
Lemma put_back_ok u l : forall xs w o, coins_of u l = Some xs -> put_back (List.combine l xs) w o = if decide (o ∈ map prevout l) then u o else w o.
Proof.
  induction l as [|i l IH]; intros xs w o Hx; cbn [coins_of] in Hx.
  - injection Hx as <-. by rewrite decide_False by (apply not_elem_of_nil).
  - apply bind_Some in Hx as (x & Ex & Hx). apply bind_Some in Hx as (ys & Ey & Hx). injection Hx as <-. cbn [List.combine put_back foldr map].
    unfold upd. destruct (decide (o = prevout i)) as [->|Hne]; [by rewrite decide_True by left|].
    change (put_back (List.combine l ys) w o = (if decide (o ∈ prevout i :: map prevout l) then u o else w o)). rewrite (IH ys w o Ey).
    destruct (decide (o ∈ map prevout l)); [by rewrite decide_True by (by right)|]. by rewrite decide_False by (rewrite elem_of_cons; tauto).
Qed.
Lemma coins_of_length u l : forall xs, coins_of u l = Some xs -> length xs = length l.
Proof.
  induction l as [|i l IH]; intros xs Hx; cbn [coins_of] in Hx; [by injection Hx as <-|].
  apply bind_Some in Hx as (x & Ex & Hx). apply bind_Some in Hx as (ys & Ey & Hx). injection Hx as <-. cbn. by rewrite (IH ys).
Qed.
Lemma coins_of_elem u l : forall xs, coins_of u l = Some xs -> Forall (fun e => u (prevout e.1) = Some e.2) (List.combine l xs).
Proof.
  induction l as [|i l IH]; intros xs Hx; cbn [coins_of] in Hx; [constructor|].
  apply bind_Some in Hx as (x & Ex & Hx). apply bind_Some in Hx as (ys & Ey & Hx). injection Hx as <-. constructor; [done|by apply IH].
Qed.
Lemma combine_prevouts l : forall (xs : list Coin), length xs = length l -> map (fun e : CTxIn * Coin => prevout e.1) (List.combine l xs) = map prevout l.
Proof. induction l as [|i l IH]; intros [|x xs] E; try done. cbn. f_equal. apply IH. by injection E. Qed.

(** *** A transaction is undone *)
Definition settled_set u : Prop := forall o x, u o = Some x -> settled x.
Definition spends (tx : CTransaction) u (xs : list Coin) : Prop := if IsCoinBase tx then xs = [] else coins_of u (vin tx) = Some xs.
Lemma undo_tx_run tx h c u best xs f : holds c (apply_tx tx h u) best -> tx_fits tx -> none_of tx u -> settled_set u -> spends tx u xs -> IsCoinBase tx = false ->
  exists c1 c2, undo_outputs (tx_hash tx) (IsCoinBase tx) h 0 (vout tx) f c = (Ok f, c1) /\
    undo_inputs (rev (List.combine (vin tx) xs)) f c1 = (Ok (Some f), c2) /\ holds c2 u best.
Proof.
  intros H F Hno Hset Hx Hcb. pose proof (tf_live tx F) as Hl. destruct F as [Hnd Hs _ _]. unfold spends in Hx. rewrite Hcb in Hx.
  assert (holds c (out_made tx h 0 (vout tx) (minus (spent_by tx) u)) best) as H' by (apply (holds_ext c _ _ best H); intros o; by rewrite out_made_plus).
  destruct (undo_outputs_run tx h (vout tx) 0 c (minus (spent_by tx) u) best f H') as (c1 & E1 & H1); [lia|lia| |].
  { intros n _. unfold minus. destruct (decide _); [done|]. by apply Hno. }
  exists c1. unfold spent_by in H1. rewrite Hcb in H1. pose proof (coins_of_length u (vin tx) xs Hx) as Hlen.
  destruct (undo_inputs_run (List.combine (vin tx) xs) c1 _ best f H1) as (c2 & E2 & H2).
  - rewrite combine_prevouts by done. by apply Hnd.
  - pose proof (coins_of_elem u (vin tx) xs Hx) as Hf. pose proof (combine_prevouts (vin tx) xs Hlen) as Ec. unfold prevouts. rewrite <- Ec.
    rewrite List.Forall_forall in Hf |- *. intros e He. specialize (Hf e He). split; [|by apply (Hset (prevout e.1))].
    unfold minus. rewrite decide_True; [done|]. apply list_elem_of_In. by apply (in_map (fun e : CTxIn * Coin => prevout e.1)).
  - exists c2. split; [done|]. split; [done|]. apply (holds_ext c2 _ _ best H2). intros o. rewrite (put_back_ok u (vin tx) xs _ o Hx).
    unfold minus, prevouts. by destruct (decide _).
Qed.
Lemma undo_coinbase_run tx h c u best f : holds c (apply_tx tx h u) best -> tx_fits tx -> none_of tx u -> IsCoinBase tx = true ->
  exists c1, undo_outputs (tx_hash tx) (IsCoinBase tx) h 0 (vout tx) f c = (Ok f, c1) /\ holds c1 u best.
Proof.
  intros H F Hno Hcb. pose proof (tf_live tx F) as Hl. destruct F as [_ Hs _ _].
  assert (holds c (out_made tx h 0 (vout tx) u) best) as H'.
  { apply (holds_ext c _ _ best H). intros o. rewrite out_made_plus. unfold apply_tx, plus, minus, spent_by. rewrite Hcb. destruct (made tx h o); [done|].
    by rewrite decide_False by (apply not_elem_of_nil). }
  apply (undo_outputs_run tx h (vout tx) 0 c u best f H'); [lia|lia|]. intros n _. by apply Hno.
Qed.

(** *** Blocks *)
Definition apply_txs (h : Z) (vtx : list CTransaction) u : utxos := foldl (fun u tx => apply_tx tx h u) u vtx.
(** The transactions find what they spend, and nothing of their outputs, in turn. *)
Fixpoint connects (h : Z) (vtx : list CTransaction) (us : list CTxUndo) u : Prop :=
  match vtx, us with
  | [], [] => True
  | tx :: vtx, xs :: us => spends tx u xs /\ none_of tx u /\ connects h vtx us (apply_tx tx h u)
  | _, _ => False
  end.
Lemma made_settled tx h o x : 0 < h < 2 ^ 30 -> tx_fits tx -> made tx h o = Some x -> settled x.
Proof.
  intros Hh F. unfold made. destruct (decide _); [|done]. destruct (vout tx !! _) as [y|] eqn:Ey; [|done]. cbn [mbind option_bind].
  destruct (CScript.IsUnspendable (scriptPubKey y)) eqn:Eu; [done|]. intros [= <-]. pose proof (tf_values tx F) as Hv. rewrite List.Forall_forall in Hv.
  specialize (Hv y (proj1 (list_elem_of_In _ _) (list_elem_of_lookup_2 _ _ _ Ey))). unfold settled, coin_ok, coin_txout_ok. cbn [out Coins.nHeight].
  unfold CScript.IsUnspendable in Eu. apply orb_false_iff in Eu as [Eu Es]. apply Z.ltb_ge in Es. unfold CScript.IsUnspendable. rewrite Eu, (proj2 (Z.ltb_ge _ _) Es). cbn. lia.
Qed.
Lemma settled_apply tx h u : 0 < h < 2 ^ 30 -> tx_fits tx -> settled_set u -> settled_set (apply_tx tx h u).
Proof.
  intros Hh F Hset o x. unfold apply_tx, plus, minus. destruct (made tx h o) as [y|] eqn:Em; [intros [= <-]; by apply (made_settled tx h o)|].
  destruct (decide _); [done|]. apply Hset.
Qed.
Lemma undo_txs_app h l1 l2 f : forall c, undo_txs h (l1 ++ l2) f c =
  (r ← undo_txs h l1 f; match r with None => mret None | Some f => undo_txs h l2 f end) c.
Proof.
  revert f. induction l1 as [|[tx u] l1 IH]; intros f c; [done|]. cbn [app undo_txs]. unfold mbind, SE_bind in *.
  destruct (undo_outputs _ _ _ _ _ _ c) as [[f1| | | | |] c1]; try done. destruct u as [xs|]; [|apply IH].
  destruct (negb _); [done|]. destruct (undo_inputs _ f1 c1) as [[[f2|]| | | | |] c2]; done || apply IH.
Qed.
(** The transactions of a block, each with its undo record but the first. *)
Definition with_undo (vtx : list CTransaction) (us : list CTxUndo) : list (CTransaction * option CTxUndo) := List.combine vtx (map Some us).
Lemma undo_txs_run h vtx : forall us u c best f, 0 < h < 2 ^ 30 -> Forall tx_fits vtx -> Forall (fun tx => IsCoinBase tx = false) vtx -> connects h vtx us u -> settled_set u ->
  holds c (apply_txs h vtx u) best -> exists c', undo_txs h (rev (with_undo vtx us)) f c = (Ok (Some f), c') /\ holds c' u best.
Proof.
  induction vtx as [|tx vtx IH]; intros [|xs us] u c best f Hh Hf Hcb Hc Hset H; try done; [by exists c|].
  apply Forall_cons_iff in Hf as [Hfx Hf]. apply Forall_cons_iff in Hcb as [Hcx Hcb]. destruct Hc as (Hx & Hno & Hc).
  destruct (IH us (apply_tx tx h u) c best f Hh Hf Hcb Hc) as (c1 & E1 & H1); [by apply settled_apply|done|].
  cbn [with_undo List.combine map rev]. fold (with_undo vtx us). rewrite undo_txs_app, (SE_bind_ok _ _ _ _ _ E1). cbn [undo_txs].
  destruct (undo_tx_run tx h c1 u best xs f H1 Hfx Hno Hset Hx Hcx) as (c2 & c3 & E2 & E3 & H3). rewrite (SE_bind_ok _ _ _ _ _ E2).
  assert (length xs = length (vin tx)) as -> by (unfold spends in Hx; rewrite Hcx in Hx; by apply (coins_of_length u)). rewrite Nat.eqb_refl. cbn [negb].
  rewrite (SE_bind_ok _ _ _ _ _ E3). by exists c3.
Qed.
(** The undo of a whole block: a coinbase and the rest. *)
Lemma undo_block_run h coinbase vtx us u c best : 0 < h < 2 ^ 30 -> Forall tx_fits (coinbase :: vtx) -> IsCoinBase coinbase = true -> Forall (fun tx => IsCoinBase tx = false) vtx ->
  connects h (coinbase :: vtx) ([] :: us) u -> settled_set u -> holds c (apply_txs h (coinbase :: vtx) u) best ->
  exists c', undo_txs h (rev (List.combine (coinbase :: vtx) (None :: map Some us))) true c = (Ok (Some true), c') /\ holds c' u best.
Proof.
  intros Hh Hf Hcb Hcbs (Hx & Hno & Hc) Hset H. apply Forall_cons_iff in Hf as [Hfx Hf]. cbn [List.combine rev]. fold (with_undo vtx us).
  destruct (undo_txs_run h vtx us (apply_tx coinbase h u) c best true Hh Hf Hcbs Hc) as (c1 & E1 & H1); [by apply settled_apply|done|].
  rewrite undo_txs_app, (SE_bind_ok _ _ _ _ _ E1). cbn [undo_txs].
  destruct (undo_coinbase_run coinbase h c1 u best true H1 Hfx Hno Hcb) as (c2 & E2 & H2). rewrite (SE_bind_ok _ _ _ _ _ E2). by exists c2.
Qed.
End View.

(** ** The value of a set of coins *)
Definition worth (m : gmap COutPoint Coin) : Z := map_fold (fun _ x n => nValue (out x) + n) 0 m.
Lemma worth_insert m o x : m !! o = None -> worth (<[o := x]> m) = nValue (out x) + worth m.
Proof. intros Hm. unfold worth. rewrite map_fold_insert_L; [done|intros; lia|done]. Qed.
Lemma worth_delete m o x : m !! o = Some x -> worth m = nValue (out x) + worth (delete o m).
Proof. intros Hm. unfold worth. rewrite (map_fold_delete_L _ 0 o x m); [done|intros; lia|done]. Qed.

(** [shown m u]: the finite map [m] lists the coins [u]. *)
Definition shown (m : gmap COutPoint Coin) (u : utxos) : Prop := forall o, m !! o = u o.
Lemma shown_upd_none m u o : shown m u -> shown (delete o m) (upd o None u).
Proof. intros Hm p. unfold upd. destruct (decide (p = o)) as [->|Hne]; [by rewrite lookup_delete_eq|by rewrite lookup_delete_ne]. Qed.
Lemma shown_upd_some m u o x : shown m u -> shown (<[o := x]> m) (upd o (Some x) u).
Proof. intros Hm p. unfold upd. destruct (decide (p = o)) as [->|Hne]; [by rewrite lookup_insert_eq|by rewrite lookup_insert_ne]. Qed.
Lemma worth_spend l : forall m u xs, shown m u -> NoDup (map prevout l) -> coins_of u l = Some xs ->
  exists m', shown m' (minus (map prevout l) u) /\ worth m = total xs + worth m'.
Proof.
  induction l as [|i l IH]; intros m u xs Hm Hnd Hx.
  { injection Hx as <-. exists m. split; [|done]. intros o. unfold minus. by rewrite decide_False by (apply not_elem_of_nil). }
  cbn [map] in Hnd. apply list.NoDup_cons in Hnd as [Hni Hnd]. cbn [coins_of] in Hx. apply bind_Some in Hx as (x & Ex & Hx). apply bind_Some in Hx as (ys & Ey & Hx). injection Hx as <-.
  destruct (IH (delete (prevout i) m) (upd (prevout i) None u) ys (shown_upd_none m u (prevout i) Hm) Hnd) as (m' & Hm' & Ew).
  { rewrite <- Ey. apply coins_of_ext. intros j Hj. unfold upd. rewrite decide_False; [done|]. intros E. apply Hni. rewrite <- E. apply list_elem_of_In, in_map, Hj. }
  exists m'. split; [intros o; rewrite Hm'; apply minus_upd|]. cbn [total]. rewrite (worth_delete m (prevout i) x) by (by rewrite Hm). lia.
Qed.
Lemma worth_outputs tx h l : forall i m u, shown m u -> 0 <= i -> Forall (fun x => 0 <= nValue x) l -> (forall n, i <= n -> u (mkOutPoint (tx_hash tx) n) = None) ->
  exists m', shown m' (out_made tx h i l u) /\ worth m' <= worth m + foldr (fun o k => nValue o + k) 0 l.
Proof.
  induction l as [|x l IH]; intros i m u Hm Hi Hv Hno.
  { exists m. split; [intros o; by rewrite out_made_nil|cbn; lia]. }
  apply Forall_cons_iff in Hv as [Hx Hv]. cbn [foldr]. set (o := mkOutPoint (tx_hash tx) i). set (k := mkCoin x (IsCoinBase tx) h).
  destruct (CScript.IsUnspendable (scriptPubKey x)) eqn:Ex.
  - destruct (IH (i + 1) m u Hm) as (m' & Hm' & Hw); [lia|done|intros n Hn; apply Hno; lia|]. exists m'. split; [|lia]. intros p. by rewrite Hm', (out_made_cons tx h i x l u p Hi), Ex.
  - destruct (IH (i + 1) (<[o := k]> m) (upd o (Some k) u) (shown_upd_some m u o k Hm)) as (m' & Hm' & Hw); [lia|done| |].
    + intros n Hn. unfold upd, o. rewrite decide_False by (intros [= ->]; lia). apply Hno. lia.
    + exists m'. split; [intros p; by rewrite Hm', (out_made_cons tx h i x l u p Hi), Ex|]. rewrite worth_insert in Hw by (rewrite Hm; apply Hno; lia). cbn in Hw. lia.
Qed.
Lemma worth_apply tx h m u xs : shown m u -> tx_fits tx -> none_of tx u -> spends tx u xs ->
  exists m', shown m' (apply_tx tx h u) /\ worth m' <= worth m - total xs + TxVerifyThms.paid tx.
Proof.
  intros Hm F Hno Hx.
  assert (exists m1, shown m1 (minus (spent_by tx) u) /\ worth m = total xs + worth m1) as (m1 & Hm1 & E1).
  { unfold spends, spent_by in *. destruct (IsCoinBase tx) eqn:Hcb.
    - subst xs. exists m. split; [|done]. intros o. unfold minus. by rewrite decide_False by (apply not_elem_of_nil).
    - apply worth_spend; [done|by apply (tf_inputs tx F)|done]. }
  destruct (worth_outputs tx h (vout tx) 0 m1 _ Hm1) as (m2 & Hm2 & Hw); [lia| | |].
  - eapply List.Forall_impl; [|apply (tf_values tx F)]. cbn. lia.
  - intros n _. unfold minus. destruct (decide _); [done|]. by apply Hno.
  - exists m2. split; [intros o; by rewrite Hm2, out_made_plus|]. unfold TxVerifyThms.paid. lia.
Qed.
Definition paid_all (vtx : list CTransaction) : Z := foldr (fun tx k => TxVerifyThms.paid tx + k) 0 vtx.
Lemma worth_apply_all h vtx : forall us m u, shown m u -> Forall tx_fits vtx -> connects h vtx us u ->
  exists m', shown m' (apply_txs h vtx u) /\ worth m' <= worth m - total (concat us) + paid_all vtx.
Proof.
  induction vtx as [|tx vtx IH]; intros [|xs us] m u Hm F Hc; try done; [by exists m; split; [|cbn; lia]|].
  apply Forall_cons_iff in F as [Fx F]. destruct Hc as (Hx & Hno & Hc). destruct (worth_apply tx h m u xs Hm Fx Hno Hx) as (m1 & Hm1 & E1).
  destruct (IH us m1 _ Hm1 F Hc) as (m2 & Hm2 & E2). exists m2. split; [done|]. cbn [paid_all foldr concat]. fold (paid_all vtx).
  assert (total (xs ++ concat us) = total xs + total (concat us)) as -> by (clear; induction xs as [|x xs IH]; cbn [app total]; lia). lia.
Qed.
