(* ===== verification/ConnectThms.v ===== *)
(** * What connecting a block does

    The checks of [ConnectBlock] leave the coins as they are; the loop over the
    transactions applies them in order; a block that is accepted creates no more
    than its subsidy, and [DisconnectBlock] takes it back. *)

From S2P Require Import Prelude Script Interpreter InterpreterSafe Coins CoinsThms Chain ChainThms VersionBits Merkle TxSerialize SigHash TxVerify TxVerifyThms BlockCheck Undo UndoThms Connect ConnectCoins.
From S2P Require ScVm ScState ScFace ScVmThms.
From S2P Require Import ScVersions ScStateRun.
From S2P Require Import Coins CoinsThms Chain TxSerialize.
From Stdlib Require Import ZifyBool.

(** ** Checks that leave the coins alone *)
Create HintDb keeps.
Section Keeps.
Context {V : Type} `{CV : !CCoinsView V} `{CL : !CCoinsViewLaws V}.
Implicit Types c : CCoinsViewCache V.

Definition keeps {A} (m : SE (CCoinsViewCache V) A) : Prop := forall c, cache_ok c -> same c (snd (m c)).
Lemma keeps_ret {A} (a : A) : keeps (mret a).
Proof. intros c Hc. by apply same_refl. Qed.
Lemma keeps_lift {A} (r : outcome A) : keeps (lift_outcome r).
Proof. intros c Hc. by apply same_refl. Qed.
Lemma keeps_fail {A} (r : outcome A) : keeps (fail r).
Proof. intros c Hc. by apply same_refl. Qed.
Lemma keeps_bind {A B} (m : SE (CCoinsViewCache V) A) (k : A -> SE (CCoinsViewCache V) B) : keeps m -> (forall a, keeps (k a)) -> keeps (m ≫= k).
Proof.
  intros Hm Hk c Hc. specialize (Hm c Hc). unfold mbind, SE_bind. destruct (m c) as [[a| | | | |] c1]; try done.
  apply (same_trans c c1); [done|]. apply Hk, Hm.
Qed.
Lemma keeps_if {A} (b : bool) (m k : SE (CCoinsViewCache V) A) : keeps m -> keeps k -> keeps (if b then m else k).
Proof. by destruct b. Qed.
Lemma keeps_access o : keeps (Cache.AccessCoin o).
Proof. intros c Hc. destruct (AccessCoin_ok o c Hc) as (x & c' & -> & S1 & _). done. Qed.
Lemma keeps_have o : keeps (Cache.HaveCoin_ o).
Proof. intros c Hc. destruct (cache_HaveCoin_ok o c Hc) as (c' & -> & S1). done. Qed.
Lemma keeps_best : keeps Cache.GetBestBlock_.
Proof. intros c Hc. destruct (cache_GetBestBlock_ok c Hc) as (c' & -> & S1). done. Qed.
#[local] Hint Resolve keeps_ret keeps_lift keeps_fail keeps_access keeps_have keeps_best : keeps.
Ltac keeps_step := first [solve [eauto with keeps]|apply keeps_if|apply keeps_bind; [|intros ?]].

Lemma keeps_unspent o : keeps (unspent_coin o).
Proof. unfold unspent_coin, assertion. repeat keeps_step. Qed.
#[local] Hint Resolve keeps_unspent : keeps.
Lemma keeps_have_inputs l : keeps (Cache.have_inputs l).
Proof. induction l as [|i l IH]; cbn [Cache.have_inputs]; repeat keeps_step. Qed.
Lemma keeps_sum_inputs l : forall n, keeps (Cache.sum_inputs l n).
Proof. induction l as [|i l IH]; intros n; cbn [Cache.sum_inputs]; unfold undef; repeat keeps_step. Qed.
Lemma keeps_p2sh l : forall n, keeps (p2sh_loop l n).
Proof. induction l as [|i l IH]; intros n; cbn [p2sh_loop]; repeat keeps_step. Qed.
Lemma keeps_witness flags l `{SC : ScriptCrypto} : forall n, keeps (witness_loop flags l n).
Proof. induction l as [|i l IH]; intros n; cbn [witness_loop]; repeat keeps_step. Qed.
Lemma keeps_inputs_loop h l : forall n, keeps (inputs_loop h l n).
Proof. induction l as [|i l IH]; intros n; cbn [inputs_loop]; repeat keeps_step. Qed.
#[local] Hint Resolve keeps_have_inputs keeps_sum_inputs keeps_p2sh keeps_witness keeps_inputs_loop : keeps.
Lemma keeps_HaveInputs tx : keeps (Cache.HaveInputs tx).
Proof. unfold Cache.HaveInputs. repeat keeps_step. Qed.
Lemma keeps_GetValueIn tx : keeps (Cache.GetValueIn tx).
Proof. unfold Cache.GetValueIn. repeat keeps_step. Qed.
Lemma keeps_sigops tx flags `{SC : ScriptCrypto} : keeps (GetTransactionSigOpCost tx flags).
Proof. unfold GetTransactionSigOpCost, GetP2SHSigOpCount. repeat keeps_step. Qed.
#[local] Hint Resolve keeps_HaveInputs keeps_GetValueIn keeps_sigops : keeps.
Lemma keeps_CheckTxInputs tx h : keeps (CheckTxInputs tx h).
Proof.
  unfold CheckTxInputs. repeat keeps_step. destruct a0 as [r|v]; repeat keeps_step.
Qed.
Lemma keeps_prev_heights l : keeps (prev_heights l).
Proof. induction l as [|i l IH]; cbn [prev_heights]; repeat keeps_step. Qed.
Lemma keeps_have_output h l : forall i, keeps (have_output h i l).
Proof. induction l as [|x l IH]; intros i; cbn [have_output]; repeat keeps_step. Qed.
#[local] Hint Resolve keeps_have_output : keeps.
Lemma keeps_overwrites l : keeps (overwrites l).
Proof. induction l as [|x l IH]; cbn [overwrites]; repeat keeps_step. Qed.
Lemma keeps_check_scripts `{SC : ScriptCrypto} Verify tx flags txdata pv l : forall i, keeps (check_scripts Verify tx flags txdata pv i l).
Proof. induction l as [|x l IH]; intros i; cbn [check_scripts]; repeat keeps_step. Qed.
End Keeps.
#[export] Hint Resolve keeps_ret keeps_lift keeps_fail keeps_best keeps_HaveInputs keeps_GetValueIn keeps_sigops keeps_CheckTxInputs keeps_prev_heights keeps_overwrites keeps_check_scripts : keeps.

(** ** Checks of a node *)
Section Node.
Context {V : Type} `{CV : !CCoinsView V} `{CL : !CCoinsViewLaws V} {D : Type} `{SC : !ScriptCrypto}.
Context (Verify : bytes -> bytes -> bytes -> bool) (G : Globals).
Implicit Types (n : Node V D) (u : utxos).

(** Nothing a block changes is changed. *)
Record still n n' : Prop := {
  st_view : same (view n) (view n');
  st_tree : tree n' = tree n;
  st_pState : pState n' = pState n;
  st_files : undo_files n' = undo_files n }.
Lemma still_refl n : cache_ok (view n) -> still n n.
Proof. intros Hn. split; [by apply same_refl|done|done|done]. Qed.
Lemma still_trans n1 n2 n3 : still n1 n2 -> still n2 n3 -> still n1 n3.
Proof. intros [A B C E] [A' B' C' E']. split; [by apply (same_trans _ (view n2))|congruence|congruence|congruence]. Qed.

Definition kept {A} (m : SE (Node V D) A) : Prop := forall n, cache_ok (view n) -> still n (snd (m n)).
Lemma kept_ret {A} (a : A) : kept (mret a).
Proof. intros n Hn. by apply still_refl. Qed.
Lemma kept_lift {A} (r : outcome A) : kept (lift_outcome r).
Proof. intros n Hn. by apply still_refl. Qed.
Lemma kept_fail {A} (r : outcome A) : kept (fail r).
Proof. intros n Hn. by apply still_refl. Qed.
Lemma kept_gets {A} (f : Node V D -> A) : kept (gets f).
Proof. intros n Hn. by apply still_refl. Qed.
Lemma kept_bind {A B} (m : SE (Node V D) A) (k : A -> SE (Node V D) B) : kept m -> (forall a, kept (k a)) -> kept (m ≫= k).
Proof.
  intros Hm Hk n Hn. specialize (Hm n Hn). unfold mbind, SE_bind. destruct (m n) as [[a| | | | |] n1]; try done.
  apply (still_trans n n1); [done|]. apply Hk, Hm.
Qed.
Lemma kept_if {A} (b : bool) (m k : SE (Node V D) A) : kept m -> kept k -> kept (if b then m else k).
Proof. by destruct b. Qed.
Lemma kept_view {A} (m : SE (CCoinsViewCache V) A) : keeps m -> kept (in_view m).
Proof. intros Hm n Hn. specialize (Hm _ Hn). unfold in_view, zoom. destruct (m (view n)) as [r c]. split; done. Qed.
Lemma kept_bits {A} (m : SE VersionBitsCache A) : kept (in_bits m).
Proof. intros n Hn. unfold in_bits, zoom. destruct (m (versionbitscache n)) as [r c]. split; [by apply same_refl|done|done|done]. Qed.
Lemma kept_cache f : kept (modify (fun n => set_cache (f n) n)).
Proof. intros n Hn. split; [by apply same_refl|done|done|done]. Qed.
#[local] Hint Resolve kept_ret kept_lift kept_fail kept_gets kept_view kept_bits kept_cache : keeps.
Ltac kept_step := first [solve [eauto with keeps]|apply kept_if|apply kept_bind; [|intros ?]].

Lemma kept_check_sequence H pindex flags tx : kept (check_sequence H pindex flags tx).
Proof. unfold check_sequence. repeat kept_step. Qed.
Lemma kept_GetSpendHeight : kept GetSpendHeight.
Proof. unfold GetSpendHeight, undef. repeat kept_step. destruct (_ !! _); repeat kept_step. Qed.
#[local] Hint Resolve kept_check_sequence kept_GetSpendHeight : keeps.
Lemma kept_CheckInputs tx fs flags store txdata pv : kept (CheckInputs Verify tx fs flags store txdata pv).
Proof.
  unfold CheckInputs, when. repeat (kept_step || case_match).
Qed.
#[local] Hint Resolve kept_CheckInputs : keeps.

Lemma still_run {A} (m : SE (Node V D) A) n r n' : kept m -> cache_ok (view n) -> m n = (r, n') -> still n n'.
Proof. intros Hm Hn E. specialize (Hm n Hn). by rewrite E in Hm. Qed.
Lemma holds_still n n' u best : holds (view n) u best -> still n n' -> holds (view n') u best.
Proof. intros H S1. by apply (holds_same (view n)), S1. Qed.
Lemma in_view_inv {A} (m : SE (CCoinsViewCache V) A) n a n' : in_view m n = (Ok a, n') ->
  exists c, m (view n) = (Ok a, c) /\ n' = set_view c n.
Proof. unfold in_view, zoom. destruct (m (view n)) as [r c]. intros [= -> <-]. by exists c. Qed.

(** *** What the checks say *)
Lemma sum_inputs_total l : forall c k xs v c', cache_ok c -> coins_of (cache_utxo c) l = Some xs -> Cache.sum_inputs l k c = (Ok v, c') -> v = k + total xs.
Proof.
  induction l as [|i l IH]; intros c k xs v c' Hc Hx.
  { injection Hx as <-. intros [= <- <-]. cbn. lia. }
  cbn [coins_of] in Hx. apply bind_Some in Hx as (x & Ex & Hx). apply bind_Some in Hx as (ys & Ey & Hx). injection Hx as <-.
  cbn [Cache.sum_inputs total]. destruct (AccessCoin_ok (prevout i) c Hc) as (y & c1 & E1 & S1 & Hy).
  assert (y = x) as -> by (rewrite Ex in Hy; destruct (IsSpent y); [done|by injection Hy]).
  rewrite (SE_bind_ok _ _ _ _ _ E1). destruct (_ && _); [|done]. intros E.
  apply IH with (xs := ys) in E; [lia|apply S1|by rewrite (coins_of_same _ _ _ S1)].
Qed.
Lemma value_out_paid l : forall k v, value_out l k = Ok v -> v = k + foldr (fun o m => nValue o + m) 0 l.
Proof.
  induction l as [|o l IH]; intros k v; cbn [value_out foldr]; [intros [= <-]; lia|]. do 3 (case_match; [done|]). intros E%IH. lia.
Qed.
Lemma check_sequence_inv H pindex flags tx n n' : cache_ok (view n) -> IsCoinBase tx = false -> check_sequence H pindex flags tx n = (Ok None, n') ->
  exists xs, coins_of (cache_utxo (view n)) (vin tx) = Some xs.
Proof.
  intros Hn Hcb E. unfold check_sequence in E. apply SE_bind_inv in E as (b & n1 & E1 & E). apply in_view_inv in E1 as (c & E1 & ->).
  unfold Cache.HaveInputs in E1. rewrite Hcb in E1. destruct (have_inputs_ok (vin tx) (view n) Hn) as (c1 & E2 & _). rewrite E2 in E1.
  injection E1 as Eb <-. rewrite coins_of_forallb in Eb. destruct b; [|done]. apply bool_decide_eq_true in Eb as [xs Hx]. by exists xs.
Qed.

(** *** A turn of the loop *)
Record stepped n n' u best tx h (p p' : Progress) (first : bool) (xs : CTxUndo) : Prop := {
  sp_spends : spends tx u xs;
  sp_holds : holds (view n') (apply_tx tx h u) best;
  sp_tree : tree n' = tree n;
  sp_pState : pState n' = pState n;
  sp_files : undo_files n' = undo_files n;
  sp_fees : nFees p' = nFees p + (if IsCoinBase tx then 0 else total xs - paid tx);
  sp_undo : vtxundo p' = if first then vtxundo p else vtxundo p ++ [xs] }.
Lemma connect_tx_inv H pindex h lf flags fs jc first tx p n p' n' u best : holds (view n) u best -> tx_fits tx -> none_of tx u ->
  connect_tx Verify G H pindex h lf flags fs jc first tx p n = (Ok (inr p'), n') -> exists xs, stepped n n' u best tx h p p' first xs.
Proof.
  intros Hh F Hno E. pose proof (ho_ok _ _ _ Hh) as Hn. unfold connect_tx in E.
  apply SE_bind_inv in E as (v & n1 & E1 & E). destruct v as [r|]; [done|].
  assert (still n n1) as S1 by (eapply still_run; [|exact Hn|exact E1]; repeat kept_step).
  assert (exists xs, spends tx u xs) as [xs Hx].
  { unfold spends. destruct (IsCoinBase tx) eqn:Hcb; [by exists []|]. cbn [negb] in E1. apply check_sequence_inv in E1 as [xs Hx]; [|done|done].
    exists xs. rewrite <- Hx. symmetry. apply coins_of_ext. intros i _. apply (ho_utxo _ _ _ Hh). }
  exists xs. pose proof (holds_still _ _ _ _ Hh S1) as H1.
  apply SE_bind_inv in E as (cost & n2 & E2 & E). assert (still n1 n2) as S2 by (eapply still_run; [|apply H1|exact E2]; eauto with keeps).
  pose proof (holds_still _ _ _ _ H1 S2) as H2. destruct (_ <? _); [done|]. apply SE_bind_inv in E as (r & n3 & E3 & E). destruct r as [r|[fees checks]]; [done|].
  assert (still n2 n3 /\ fees = nFees p + (if IsCoinBase tx then 0 else total xs - paid tx)) as [S3 Hfees].
  { clear E. unfold spends in Hx. destruct (IsCoinBase tx) eqn:Hcb; cbn [negb] in E3.
    - injection E3 as <- <- <-. split; [apply still_refl, H2|lia].
    - apply SE_bind_inv in E3 as (vi & n4 & E4 & E3). apply SE_bind_inv in E3 as (vo & n5 & E5 & E3). injection E5 as E5 <-.
      assert (still n2 n4) as S4 by (eapply still_run; [|apply H2|exact E4]; eauto with keeps).
      apply in_view_inv in E4 as (c & E4 & _). unfold Cache.GetValueIn in E4. rewrite Hcb in E4.
      apply (sum_inputs_total _ _ _ xs) in E4; [|apply H2|rewrite <- Hx; apply coins_of_ext; intros i _; apply (ho_utxo _ _ _ H2)].
      apply value_out_paid in E5. fold (paid tx) in E5. destruct (_ || _); [done|]. apply SE_bind_inv in E3 as (r & n6 & E6 & E3).
      assert (still n4 n6) as S6 by (eapply still_run; [|apply S4|exact E6]; eauto with keeps).
      destruct r as [r|l]; [done|]. injection E3 as <- <- <-. split; [by apply (still_trans _ n4)|lia]. }
  pose proof (holds_still _ _ _ _ H2 S3) as H3. apply SE_bind_inv in E as (xs' & n4 & E4 & E). apply in_view_inv in E4 as (c & E4 & ->).
  destruct (UpdateCoins_run tx h (view n3) u best xs H3 F Hno Hx) as (c' & E5 & H5). rewrite E5 in E4. injection E4 as <- <-.
  injection E as <- <-. pose proof (still_trans _ _ _ (still_trans _ _ _ S1 S2) S3) as [_ ? ? ?].
  split; done.
Qed.

(** The loop over the transactions of a block behind the coinbase. *)
Record looped n n' u best (vtx : list CTransaction) h (p p' : Progress) (us : list CTxUndo) : Prop := {
  lp_connects : connects h vtx us u;
  lp_holds : holds (view n') (apply_txs h vtx u) best;
  lp_tree : tree n' = tree n;
  lp_pState : pState n' = pState n;
  lp_files : undo_files n' = undo_files n;
  lp_fees : nFees p' = nFees p + (total (concat us) - paid_all vtx);
  lp_undo : vtxundo p' = vtxundo p ++ us }.
(** Transactions with different names, none of whose outputs are there yet. *)
Definition fresh_txs (vtx : list CTransaction) u : Prop := NoDup (map tx_hash vtx) /\ Forall (fun tx => none_of tx u) vtx.
Lemma fresh_apply tx vtx h u : fresh_txs (tx :: vtx) u -> none_of tx u /\ fresh_txs vtx (apply_tx tx h u).
Proof.
  intros [Hnd Hf]. cbn [map] in Hnd. apply list.NoDup_cons in Hnd as [Hni Hnd]. apply Forall_cons_iff in Hf as [Hx Hf]. split; [done|]. split; [done|].
  rewrite List.Forall_forall in Hf |- *. intros t Ht o Ho. specialize (Hf t Ht o Ho). unfold apply_tx, plus, made, minus.
  rewrite decide_False; [by destruct (decide _)|]. intros [E _]. apply Hni. rewrite <- E, Ho. by apply list_elem_of_In, in_map.
Qed.
Lemma total_app xs ys : total (xs ++ ys) = total xs + total ys.
Proof. induction xs as [|x xs IH]; cbn [app total]; lia. Qed.
Lemma connect_txs_inv H pindex h lf flags fs jc vtx : forall p n p' n' u best, holds (view n) u best -> Forall tx_fits vtx -> fresh_txs vtx u ->
  Forall (fun tx => IsCoinBase tx = false) vtx ->
  connect_txs Verify G H pindex h lf flags fs jc false vtx p n = (Ok (inr p'), n') -> exists us, looped n n' u best vtx h p p' us.
Proof.
  induction vtx as [|tx vtx IH]; intros p n p' n' u best Hh F Hfr Hcb E.
  { injection E as <- <-. exists []. split; try done; cbn; [lia|by rewrite app_nil_r]. }
  apply Forall_cons_iff in F as [Fx F]. apply Forall_cons_iff in Hcb as [Hcx Hcb]. destruct (fresh_apply tx vtx h u Hfr) as [Hno Hfr'].
  cbn [connect_txs] in E. apply SE_bind_inv in E as (r & n1 & E1 & E). destruct r as [r|p1]; [done|].
  destruct (connect_tx_inv _ _ _ _ _ _ _ _ _ _ _ _ _ u best Hh Fx Hno E1) as [xs [Hs Hv Ht Hp Hf Hfee Hu]].
  destruct (IH _ _ _ _ _ best Hv F Hfr' Hcb E) as [us [Hs' Hv' Ht' Hp' Hf' Hfee' Hu']]. exists (xs :: us).
  rewrite Hcx in Hfee. split; [done|done|congruence|congruence|congruence| |].
  - cbn [concat]. rewrite total_app. unfold paid_all in *. cbn [foldr]. lia.
  - by rewrite Hu', Hu, <- app_assoc.
Qed.
End Node.

(** ** Blocks *)
Section Block.
Context {V : Type} `{CV : !CCoinsView V} `{CL : !CCoinsViewLaws V} {D : Type} `{TD : !ScState.TrieDB D} `{PL : !ScVm.Platform} `{SC : !ScriptCrypto}.
Context (Verify : bytes -> bytes -> bytes -> bool) (CAmount_of : Z -> Z) (IsFullyValid : bytes -> bool) (DecompressKey : bytes -> option bytes).
Context (P : ChainParams) (G : Globals).
Implicit Types (n : Node V D) (u : utxos).

Lemma assertion_inv {S} (c : bool) w (s : S) a s' : assertion c w s = (Ok a, s') -> c = true /\ s' = s.
Proof. unfold assertion. destruct c; [|done]. unfold mret, SE_ret. by intros [= _ ->]. Qed.
(** What the undo information leaves of an entry of the index *)
Record same_entry (b b' : CBlockIndex) : Prop := {
  se_hash : phashBlock b' = phashBlock b;
  se_prev : pprev b' = pprev b;
  se_height : Chain.nHeight b' = Chain.nHeight b;
  se_root : hashStateRoot b' = hashStateRoot b;
  se_file : nFile b' = nFile b }.
Lemma RaiseValidity_inv l b r : RaiseValidity l b = Ok r -> same_entry b (snd r) /\ nUndoPos (snd r) = nUndoPos b /\
  (Z.testbit (nStatus b) 4 = true -> Z.testbit (nStatus (snd r)) 4 = true).
Proof.
  unfold RaiseValidity. destruct (_ =? 0); [|done]. intros [= <-]. repeat case_match; cbn [snd]; (split; [by split|]; split; [done|]); try done.
  intros Hb. cbn [nStatus set_nStatus]. rewrite Z.lor_spec, Z.land_spec, Hb. done.
Qed.
Lemma have_undo s : Z.testbit s 4 = true -> (Z.land s BLOCK_HAVE_UNDO =? 0) = false.
Proof.
  intros Hs. apply Z.eqb_neq. intros E. apply (f_equal (fun x => Z.testbit x 4)) in E. rewrite Z.land_spec, Hs in E. discriminate E.
Qed.

Lemma lift_inv {S A} (r : outcome A) (s : S) a s' : lift_outcome r s = (Ok a, s') -> r = Ok a /\ s' = s.
Proof. unfold lift_outcome. by intros [= -> ->]. Qed.

Lemma lor_undo s : Z.testbit (Z.lor s BLOCK_HAVE_UNDO) 4 = true.
Proof. rewrite Z.lor_spec. change (Z.testbit BLOCK_HAVE_UNDO 4) with true. apply orb_true_r. Qed.

(** The undo information of an entry without any, written. *)
Lemma write_undo_inv pindex b prev us n n' : undo_pos_null b = true -> nFile b <> -1 ->
  write_undo IsFullyValid G pindex b prev us n = (Ok None, n') ->
  exists b' bs, same_entry b b' /\ undo_pos_null b' = false /\ heap (tree n') = <[pindex := b']> (heap (tree n)) /\ view n' = view n /\ pState n' = pState n /\
    Serialize_blockundo IsFullyValid us = Ok bs /\ undo_files n' !! (nFile b', nUndoPos b') = Some (bs ++ Hash256 (phashBlock prev ++ bs)).
Proof.
  intros Hb Hf E. unfold write_undo in E. apply SE_bind_inv in E as (valid & n1 & E1 & E). injection E1 as _ <-. rewrite Hb in E. cbn [orb] in E.
  apply SE_bind_inv in E as (r & n2 & E2 & E). apply SE_bind_inv in E2 as (bs & n3 & E3 & E2). injection E3 as E3 <-.
  apply SE_bind_inv in E2 as (pos & n4 & E4 & E2). destruct pos as [nPos|]; [|injection E2 as <- <-; discriminate E].
  unfold FindUndoPos in E4. apply SE_bind_inv in E4 as (sizes & n5 & E5 & E4). injection E5 as _ <-. destruct (sizes !! nFile b); [|discriminate E4].
  apply SE_bind_inv in E4 as ([] & n5 & E5 & E4). injection E5 as E5. injection E4 as _ <-.
  apply SE_bind_inv in E2 as (w & n6 & E6 & E2). unfold zoom, UndoWriteToDisk in E6.
  destruct (negb (can_open _)); [injection E6 as <- <-; injection E2 as <- <-; discriminate E|].
  destruct (negb (can_tell _)); [injection E6 as <- <-; injection E2 as <- <-; discriminate E|].
  rewrite E3 in E6. cbn in E6. injection E6 as <- <-. injection E2 as <- <-.
  apply SE_bind_inv in E as (v & n7 & E7 & E). apply lift_inv in E7 as [E7 ->]. apply SE_bind_inv in E as ([] & n8 & E8 & E). injection E8 as <-.
  apply SE_bind_inv in E as ([] & n9 & E9 & E). injection E9 as <-. injection E as <-.
  apply RaiseValidity_inv in E7 as ([S1 S2 S3 S4 S5] & Hpos & Hbit). cbn [set_nStatus set_nUndoPos phashBlock pprev Chain.nHeight hashStateRoot nFile nUndoPos nStatus] in S1, S2, S3, S4, S5, Hpos, Hbit. exists (snd v), bs.
  split; [by split|]. split.
  - unfold undo_pos_null. rewrite have_undo by (apply Hbit, lor_undo). cbn [orb]. rewrite S5. by apply Z.eqb_neq.
  - subst n5. split; [done|]. split; [done|]. split; [done|]. split; [done|]. cbn. rewrite S5, Hpos. apply lookup_insert_eq.
Qed.
Lemma write_txindex_inv b vpos n n' : write_txindex G b vpos n = (Ok None, n') ->
  tree n' = tree n /\ view n' = view n /\ pState n' = pState n /\ undo_files n' = undo_files n.
Proof.
  unfold write_txindex. case_match; [by intros [= <-]|]. case_match; [done|]. cbn. unfold modify, mbind, SE_bind. by intros [= <-].
Qed.

(** *** An accepted block *)
Lemma in_pState_inv {A} (m : SE (ScState.State D) A) n a n' : in_pState m n = (Ok a, n') -> exists s, m (pState n) = (Ok a, s) /\ n' = set_pState s n.
Proof. unfold in_pState, zoom. destruct (m (pState n)) as [r s]. intros [= -> <-]. by exists s. Qed.
Record finished n n' (pindex : ptr) (b prev : CBlockIndex) (p : Progress) (vtx : list CTransaction) : Prop := {
  fi_reward : exists subsidy coinbase, GetBlockSubsidy (fRegTest P) (nSubsidyHalvingInterval P) (Chain.nHeight b) = Ok subsidy /\
    vtx !! 0%nat = Some coinbase /\ paid coinbase <= nFees p + subsidy;
  fi_view : view n' = Cache.set_hashBlock (phashBlock b) (view n);
  fi_undo : exists b' bs, same_entry b b' /\ undo_pos_null b' = false /\ heap (tree n') = <[pindex := b']> (heap (tree n)) /\
    Serialize_blockundo IsFullyValid (vtxundo p) = Ok bs /\ undo_files n' !! (nFile b', nUndoPos b') = Some (bs ++ Hash256 (phashBlock prev ++ bs)) }.
Lemma finish_block_inv block pindex b prev p n n' : undo_pos_null b = true -> nFile b <> -1 ->
  finish_block Verify CAmount_of IsFullyValid P G block pindex b prev false p n = (Ok Accepted, n') -> finished n n' pindex b prev p (block_vtx block).
Proof.
  intros Hb Hf E. unfold finish_block in E. apply SE_bind_inv in E as (c & n1 & E1 & E). apply in_pState_inv in E1 as (s & _ & ->). destruct c as [r|]; [discriminate E|].
  apply SE_bind_inv in E as (subsidy & n2 & E2 & E). apply lift_inv in E2 as [E2 ->]. apply SE_bind_inv in E as (coinbase & n3 & E3 & E). apply lift_inv in E3 as [E3 ->].
  apply SE_bind_inv in E as (vo & n4 & E4 & E). apply lift_inv in E4 as [E4 ->]. destruct (_ <? _); [done|]. destruct (Z.ltb_spec (nFees p + subsidy) vo) as [|Hle]; [discriminate E|].
  apply SE_bind_inv in E as (ok & n5 & E5 & E). injection E5 as _ <-. destruct ok; [|discriminate E]. cbn [negb] in E.
  apply SE_bind_inv in E as (r & n6 & E6 & E). destruct r as [f|]; [injection E as -> ->|].
  { exfalso. revert E6. unfold write_undo. intros E6. apply SE_bind_inv in E6 as (valid & n7 & E7 & E6). injection E7 as _ <-. rewrite Hb in E6. cbn [orb] in E6.
    apply SE_bind_inv in E6 as (r & n7 & E7 & E6). apply SE_bind_inv in E7 as (bs & n8 & E8 & E7). injection E8 as _ <-.
    apply SE_bind_inv in E7 as (pos & n9 & _ & E7). destruct pos; [|injection E7 as <- <-; discriminate E6].
    apply SE_bind_inv in E7 as (w & n10 & _ & E7). destruct w; [|injection E7 as <- <-; discriminate E6]. injection E7 as <- <-.
    apply SE_bind_inv in E6 as (v & n11 & _ & E6). apply SE_bind_inv in E6 as ([] & n12 & _ & E6). apply SE_bind_inv in E6 as ([] & n13 & _ & E6). discriminate E6. }
  apply write_undo_inv in E6 as (b' & bs & Hs & Hnull & Hheap & Hview & _ & Hser & Hfile); [|done|done].
  apply SE_bind_inv in E as (r & n7 & E7 & E). destruct r as [f|].
  { exfalso. injection E as -> ->. revert E7. unfold write_txindex. case_match; [done|]. by case_match. }
  apply write_txindex_inv in E7 as (Ht7 & Hv7 & _ & Hf7). apply SE_bind_inv in E as ([] & n8 & E8 & E). injection E as <-.
  apply in_view_inv in E8 as (c & E8 & ->). injection E8 as <-. split.
  - exists subsidy, coinbase. split; [done|]. unfold elem in E3. destruct (block_vtx block !! 0%nat) as [x|]; [injection E3 as ->|done]. split; [done|].
    apply value_out_paid in E4. unfold paid. lia.
  - cbn. by rewrite Hv7, Hview.
  - exists b', bs. cbn. rewrite Ht7, Hf7. done.
Qed.

(** *** The whole block *)

(** What a block must be to be taken back: a coinbase and ordinary transactions, which
    no transaction of their names has gone before. *)
Record block_fits (vtx : list CTransaction) u : Prop := {
  bf_fits : Forall tx_fits vtx;
  bf_fresh : fresh_txs vtx u;
  bf_coinbase : exists coinbase others, vtx = coinbase :: others /\ IsCoinBase coinbase = true /\ Forall (fun tx => IsCoinBase tx = false) others }.
(** The entry of a block that was not connected before, with its parent. *)
Record entry_fits (H : Index) (pindex : ptr) (b prev : CBlockIndex) : Prop := {
  ef_entry : H !! pindex = Some b;
  ef_prev : exists q, pprev b = Some q /\ H !! q = Some prev;
  ef_undo : undo_pos_null b = true;
  ef_file : nFile b <> -1;
  ef_height : 0 < Chain.nHeight b < 2 ^ 30 }.

Record connected n n' (pindex : ptr) (b prev : CBlockIndex) (vtx : list CTransaction) (us : list CTxUndo) (nk : Node V D) (p : Progress) : Prop := {
  cn_best : cache_best (view n) = phashBlock prev;
  cn_connects : connects (Chain.nHeight b) vtx ([] :: us) (cache_utxo (view n));
  cn_holds : holds (view nk) (apply_txs (Chain.nHeight b) vtx (cache_utxo (view n))) (cache_best (view n));
  cn_tree : tree nk = tree n;
  cn_fees : nFees p = total (concat us) - paid_all (tl vtx);
  cn_undo : vtxundo p = us;
  cn_finished : finished nk n' pindex b prev p vtx }.
#[local] Hint Resolve kept_ret kept_lift kept_fail kept_gets kept_view kept_bits kept_cache : keeps.

Lemma ConnectBlock_inv block pindex fHash b prev n n' : cache_ok (view n) -> entry_fits (heap (tree n)) pindex b prev ->
  block_fits (block_vtx block) (cache_utxo (view n)) -> Block_GetHash (block_header block) <> hashGenesisBlock P ->
  ConnectBlock Verify CAmount_of IsFullyValid P G block pindex fHash false n = (Ok Accepted, n') ->
  exists us nk p, connected n n' pindex b prev (block_vtx block) us nk p.
Proof.
  intros Hn [Hb (q & Hq & Hprev) Hun Hfile Hh] [Hfit Hfresh (coinbase & others & Evtx & Hcb & Hcbs)] Hgen E. unfold ConnectBlock in E.
  apply SE_bind_inv in E as (t & n0 & E0 & E). injection E0 as <- <-.
  apply SE_bind_inv in E as (b0 & n0 & E0 & E). apply lift_inv in E0 as [E0 ->]. unfold deref in E0. rewrite Hb in E0. injection E0 as <-.
  apply SE_bind_inv in E as ([] & n0 & E0 & E). apply assertion_inv in E0 as [_ ->].
  apply SE_bind_inv in E as (r & n0 & E1 & E). apply lift_inv in E1 as [_ ->]. destruct (fst r) as [?|]; [discriminate E|].
  apply SE_bind_inv in E as (hp & n1 & E1 & E). apply lift_inv in E1 as [E1 ->]. rewrite Hq in E1. unfold deref in E1. rewrite Hprev in E1. injection E1 as <-.
  apply SE_bind_inv in E as (best & n1 & E1 & E). apply in_view_inv in E1 as (c1 & E1 & ->). destruct (cache_GetBestBlock_ok (view n) Hn) as (c1' & E1' & S1).
  rewrite E1' in E1. injection E1 as <- <-. set (n1 := set_view c1' n) in *.
  assert (still n n1) as St1 by by split.
  apply SE_bind_inv in E as ([] & n2 & E2 & E). apply assertion_inv in E2 as [Hbest%bool_decide_eq_true ->].
  rewrite bool_decide_eq_false_2 in E by done. apply SE_bind_inv in E as (fs & n2 & E2 & E). apply lift_inv in E2 as [_ ->]. rewrite Hq in E.
  apply SE_bind_inv in E as (prev' & n2 & E2 & E). apply lift_inv in E2 as [E2 ->]. unfold deref in E2. rewrite Hprev in E2. injection E2 as <-.
  do 2 (apply SE_bind_inv in E as (? & n2 & E2 & E); apply lift_inv in E2 as [_ ->]).
  apply SE_bind_inv in E as (over & n2 & E2 & E).
  assert (still n1 n2) as St2 by (eapply still_run; [|apply S1|exact E2]; apply kept_if; eauto using keeps_overwrites with keeps).
  destruct over; [discriminate E|].
  apply SE_bind_inv in E as (csv & n3 & E3 & E). assert (still n2 n3) as St3 by (eapply still_run; [apply kept_bits|apply St2|exact E3]).
  apply SE_bind_inv in E as (flags & n4 & E4 & E). assert (still n3 n4) as St4 by (eapply still_run; [apply kept_bits|apply St3|exact E4]).
  pose proof (still_trans _ _ _ St1 (still_trans _ _ _ St2 (still_trans _ _ _ St3 St4))) as St.
  pose proof (holds_still _ _ _ _ (holds_refl _ Hn) St) as Hh4.
  apply SE_bind_inv in E as (r' & n5 & E5 & E). destruct r' as [?|p]; [discriminate E|].
  rewrite Evtx in E5. cbn [connect_txs] in E5. apply SE_bind_inv in E5 as (r' & n6 & E6 & E5). destruct r' as [?|p1]; [discriminate E5|].
  rewrite Evtx in Hfit, Hfresh. apply Forall_cons_iff in Hfit as [Fx F]. destruct (fresh_apply coinbase others (Chain.nHeight b) _ Hfresh) as [Hno Hfresh'].
  destruct (connect_tx_inv _ _ _ _ _ _ _ _ _ _ _ _ _ _ _ _ _ Hh4 Fx Hno E6) as [xs [Hs Hv Ht _ _ Hfee Hu]].
  assert (xs = []) as -> by (unfold spends in Hs; by rewrite Hcb in Hs). rewrite Hcb in Hfee. cbn [nFees vtxundo] in Hfee, Hu.
  destruct (connect_txs_inv _ _ _ _ _ _ _ _ _ _ _ _ _ _ _ _ Hv F Hfresh' Hcbs E5) as [us [Hs' Hv' Ht' _ _ Hfee' Hu']].
  exists us, n5, p. rewrite Evtx. split; [done|by split|done|rewrite Ht', Ht; apply St|cbn [tl]; lia|by rewrite Hu', Hu|].
  rewrite <- Evtx. by apply finish_block_inv in E.
Qed.

(** *** Taking it back *)
Lemma connects_settled h vtx : forall us u, 0 < h < 2 ^ 30 -> Forall tx_fits vtx -> settled_set u -> connects h vtx us u ->
  Forall (fun xs => size xs <= MAX_INPUTS_PER_BLOCK /\ Forall coin_ok xs) us /\ length us = length vtx.
Proof.
  induction vtx as [|tx vtx IH]; intros [|xs us] u Hh F Hset Hc; try done. apply Forall_cons_iff in F as [Fx F]. destruct Hc as (Hx & _ & Hc).
  destruct (IH us _ Hh F (settled_apply tx h u Hh Fx Hset) Hc) as [Hf Hl]. split; [|cbn; lia]. constructor; [|done].
  unfold spends in Hx. destruct (IsCoinBase tx); [subst xs; split; [vm_compute; discriminate|constructor]|].
  split; [rewrite (coins_of_length u (vin tx) xs Hx); apply Fx|].
  pose proof (coins_of_elem u (vin tx) xs Hx) as He. pose proof (coins_of_length u (vin tx) xs Hx) as Hlen. clear -He Hlen Hset.
  revert xs He Hlen. induction (vin tx) as [|i l IH]; intros [|x xs] He Hlen; try done. apply Forall_cons_iff in He as [Hx He].
  constructor; [by apply (Hset (prevout i))|]. apply IH; [done|]. by injection Hlen.
Qed.
Lemma holds_set c u best h : holds c u best -> holds (Cache.set_hashBlock h c) u (cache_best (Cache.set_hashBlock h c)).
Proof. intros [[A B C] U _]. split; [by split|done|done]. Qed.

(** The entry's parent is found again. *)
Lemma prev_found H pindex b b' prev : entry_fits H pindex b prev -> same_entry b b' ->
  exists prev', arrow (<[pindex := b']> H) (pprev b') = Ok prev' /\ phashBlock prev' = phashBlock prev /\ hashStateRoot prev' = hashStateRoot prev.
Proof.
  intros [Hb (q & Hq & Hprev) _ _ _] [S1 S2 S3 S4 S5]. rewrite S2, Hq. unfold arrow, deref. destruct (decide (q = pindex)) as [->|Hne].
  - rewrite lookup_insert_eq. exists b'. rewrite Hb in Hprev. injection Hprev as ->. done.
  - rewrite lookup_insert_ne, Hprev by done. by exists prev.
Qed.

Lemma disconnect_run block pindex fHash b prev n n' :
  (forall k, length k = 65%nat -> nthz k 0 = 4 -> IsFullyValid k = true -> DecompressKey ((2 + Z.land (nthz k 64) 1) :: take 32 (drop 1 k)) = Some k) ->
  (forall v, length (Hash256 v) = 32%nat) ->
  cache_ok (view n) -> entry_fits (heap (tree n)) pindex b prev -> block_fits (block_vtx block) (cache_utxo (view n)) -> settled_set (cache_utxo (view n)) ->
  size (block_vtx block) <= MAX_SIZE -> Block_GetHash (block_header block) <> hashGenesisBlock P ->
  ConnectBlock Verify CAmount_of IsFullyValid P G block pindex fHash false n = (Ok Accepted, n') ->
  fst (ScState.setRoot (parent_root prev) (pState n')) = Ok tt ->
  exists n'', DisconnectBlock DecompressKey block pindex n' = (Ok DISCONNECT_OK, n'') /\ cache_ok (view n'') /\
    (forall o, cache_utxo (view n'') o = cache_utxo (view n) o) /\ hashBlock (view n'') = phashBlock prev /\
    cache_best (view n) = phashBlock prev /\ pState n'' = snd (ScState.setRoot (parent_root prev) (pState n')).
Proof.
  intros Hk Hhash Hn He Hb Hset Hsize Hgen E Hroot. pose proof (ef_height _ _ _ _ He) as Hh.
  destruct (ConnectBlock_inv _ _ _ _ _ _ _ Hn He Hb Hgen E) as (us & nk & p & [Hbest Hcon Hhold Htree _ Hun [_ Hview (b' & bs & Hse & Hnull & Hheap & Hser & Hfile)]]).
  destruct (bf_coinbase _ _ Hb) as (coinbase & others & Evtx & Hcb & Hcbs). rewrite Htree in Hheap. rewrite Hun in Hser.
  destruct (connects_settled _ _ _ _ Hh (bf_fits _ _ Hb) Hset Hcon) as [Hus Hlen]. apply Forall_cons_iff in Hus as [_ Hus].
  cbn [length] in Hlen. destruct (restores_blockundo IsFullyValid DecompressKey Hk us) as (bs' & Hser' & Hreads); [split; [lia|done]|].
  rewrite Hser in Hser'. injection Hser' as <-. destruct (prev_found _ _ _ _ _ He Hse) as (prev' & Ep & Ehash & Eroot).
  unfold DisconnectBlock. rewrite (SE_bind_ok _ _ n' (tree n') n') by done.
  rewrite (SE_bind_ok _ _ n' b' n') by (unfold lift_outcome, deref; by rewrite Hheap, lookup_insert_eq). rewrite Hnull.
  rewrite (SE_bind_ok _ _ n' prev' n') by (unfold lift_outcome; by rewrite Hheap, Ep). rewrite (SE_bind_ok _ _ n' (undo_files n') n') by done.
  rewrite (SE_bind_ok _ _ n' (Some us) n').
  2:{ unfold lift_outcome. rewrite Ehash. rewrite (UndoRead_ok IsFullyValid DecompressKey us bs _ _ (phashBlock prev)) by done. by rewrite bool_decide_eq_true_2. }
  replace (negb (size us + 1 =? size (block_vtx block))) with false by lia.
  assert (holds (view n') (apply_txs (Chain.nHeight b) (coinbase :: others) (cache_utxo (view n))) (cache_best (view n'))) as Hh'.
  { rewrite Hview, <- Evtx. by eapply holds_set. }
  rewrite Evtx in Hcon, Hb |- *. rewrite (se_height _ _ Hse).
  destruct (undo_block_run (Chain.nHeight b) coinbase others us _ (view n') _ Hh (bf_fits _ _ Hb) Hcb Hcbs Hcon Hset Hh') as (c2 & E2 & H2).
  rewrite (SE_bind_ok _ _ n' (Some true) (set_view c2 n')) by (unfold in_view, zoom; by rewrite E2).
  rewrite (SE_bind_ok _ _ _ tt (set_view (Cache.set_hashBlock (phashBlock prev) c2) n')) by (unfold in_view, zoom; by rewrite Ehash).
  assert (parent_root prev' = parent_root prev) as -> by (unfold parent_root; by rewrite Eroot).
  unfold in_pState. destruct (ScState.setRoot (parent_root prev) (pState n')) as [rr s] eqn:Es. cbn in Hroot. subst rr.
  erewrite (SE_bind_ok _ _ _ tt) by (unfold zoom; cbn [pState set_view]; by rewrite Es).
  eexists. split; [reflexivity|]. cbn. pose proof (holds_set _ _ _ (phashBlock prev) H2) as [A B _]. done.
Qed.
End Block.

(** ** Claims *)

(** A chain of three blocks and the entry of a fourth, a coin on disk, and a block with a
    coinbase and a transaction that spends the coin. *)
#[local] Existing Instance sample_crypto.
#[local] Existing Instance ScVmThms.sample_platform.
#[local] Instance steady_view : CCoinsView CoinsDB := db_view steady.
#[local] Instance steady_laws : CCoinsViewLaws CoinsDB := db_laws steady steady_sound.
Definition penny : Coin := mkCoin (mkTxOut 50 [0x51]) false 1.
Definition mint : CTransaction := mkTx 1 [mkTxIn (mkOutPoint uint256_null (2 ^ 32 - 1)) [1; 3] 0xffffffff []] [mkTxOut 12 [0x51]] 0 (replicate 32 0x21).
Definition pays : CTransaction := mkTx 1 [mkTxIn here [] 0xffffffff []] [mkTxOut 40 [0x52]; mkTxOut 5 [OP_RETURN]] 0 (replicate 32 0x22).
Definition entry (h : bytes) (prev : option ptr) (height time status : Z) (root : bytes) : CBlockIndex :=
  mkIndex h prev None height 0 8 0 (2 * height) 1 height status 4 root uint256_null time 0 0 time.
Definition root_hash : bytes := match BlockMerkleRoot HashPair [tx_hash mint; tx_hash pays] with Ok (r, _) => r | _ => [] end.
Definition new_header : CBlockHeader := mkHeader 4 (replicate 32 13) root_hash uint256_null 130 0 3.
Definition new_block : CBlock := mkBlock new_header [mint; pays] false.
Definition parent_entry : CBlockIndex := entry (replicate 32 13) (Some 1%nat) 2 120 29 uint256_null.
Definition new_entry : CBlockIndex := entry (Block_GetHash new_header) (Some 2%nat) 3 130 11 root_hash.
Definition four : BlockTree := mkTree
  {[0%nat := entry (replicate 32 11) None 0 100 29 uint256_null; 1%nat := entry (replicate 32 12) (Some 0%nat) 1 110 29 uint256_null;
    2%nat := parent_entry; 3%nat := new_entry]}
  {[replicate 32 11 := 0%nat; replicate 32 12 := 1%nat; replicate 32 13 := 2%nat; Block_GetHash new_header := 3%nat]} (Some 3%nat) ∅ [].
Definition quiet_chain : ChainParams := mkChainParams (replicate 32 11) (mkHeaderParams None 1000 0 0 0)
  (mkDeploymentParams 3 4 (replicate 3 (mkDeployment 1 (2 ^ 40) (2 ^ 41)))) uint256_null 210000 true 600.
Definition quiet_globals : Globals := mkGlobals uint256_null 0 0 false false true (mkUndoDisk true true) true.
Definition penny_db : CoinsDB := mkCoinsDB {[here := penny]} (Some (replicate 32 13)) None.
Definition fresh_node : Node CoinsDB Versions.db :=
  mkNode four (Cache.new penny_db) [∅; ∅; ∅] sample_state ∅ {[0 := 100]} ∅ false ∅ ∅.
Definition connects_new : outcome connect_result * Node CoinsDB Versions.db :=
  ConnectBlock (fun _ _ _ => false) id toy_valid quiet_chain quiet_globals new_block 3%nat true false fresh_node.

Lemma fresh_ok : cache_ok (view fresh_node).
Proof.
  split; [|by intros o e He|done]. split; [|done]. intros o c Hc. cbn in Hc. by apply lookup_singleton_Some in Hc as [_ <-].
Qed.
Lemma fresh_coins o : cache_utxo (view fresh_node) o = if decide (o = here) then Some penny else None.
Proof.
  change (cache_utxo (view fresh_node) o) with (({[here := penny]} : gmap COutPoint Coin) !! o).
  destruct (decide (o = here)) as [->|Hne]; [by rewrite lookup_singleton_eq|by rewrite lookup_singleton_ne].
Qed.
Lemma entry_four : entry_fits (heap (tree fresh_node)) 3%nat new_entry parent_entry.
Proof. split; [vm_compute; reflexivity|exists 2%nat; split; vm_compute; reflexivity|vm_compute; reflexivity|vm_compute; discriminate|vm_compute; split; reflexivity]. Qed.
Lemma new_block_fits : block_fits (block_vtx new_block) (cache_utxo (view fresh_node)).
Proof.
  split.
  - repeat apply Forall_cons; [| |constructor].
    all: split; [intros _; by apply (bool_decide_unpack _)|vm_compute; discriminate|repeat constructor; cbn; lia|vm_compute; discriminate].
  - split; [by apply (bool_decide_unpack _)|]. repeat apply Forall_cons; [| |constructor]; intros o Ho; rewrite fresh_coins, decide_False; try done; intros ->; discriminate Ho.
  - exists mint, [pays]. split; [done|]. split; [done|]. by repeat constructor.
Qed.
Lemma new_settled : settled_set (cache_utxo (view fresh_node)).
Proof.
  intros o x. rewrite fresh_coins. destruct (decide (o = here)); [|done]. intros [= <-].
  split; [split; [split; [cbn; lia|vm_compute; discriminate]|cbn; lia]|]. split; [vm_compute; reflexivity|cbn; lia].
Qed.

(** C5: Disconnecting a block that was connected gives the coins back.  Let [ConnectBlock]
    accept a block, not the first of the chain and not only to test it, at an entry
    of the index that names a parent and a file, has no undo information yet and a
    height above 0 and below [2^30].  The block is a coinbase and ordinary transactions,
    at most [MAX_SIZE] of them, with different ids, of none of which the view has an
    output; each spends no output twice, has at most [2^32] outputs with values from 0 to below
    [2^60], and no more inputs than an undo record may list.  The view is lawful, and
    its coins have scripts that can be spent, values from 0 to below [2^60] and heights
    above 0 and below [2^30].  Then [DisconnectBlock] on the node that is left, where the
    parent's state root can be opened, returns [DISCONNECT_OK]: the view has exactly
    the coins it had before, its best block is the parent as before, and the
    contract state is what opening that root gives.  A full public key is restored
    from its compressed form as the curve promises, and hashes have 32 bytes. *)
Theorem disconnect_undoes_connect {V} `{CV : !CCoinsView V} `{CL : !CCoinsViewLaws V} {D} `{TD : !ScState.TrieDB D} `{PL : !ScVm.Platform} `{SC : !ScriptCrypto}
    (Verify : bytes -> bytes -> bytes -> bool) (CAmount_of : Z -> Z) (IsFullyValid : bytes -> bool) (DecompressKey : bytes -> option bytes)
    (P : ChainParams) (G : Globals) (block : CBlock) (pindex : ptr) (fHash : bool) (b prev : CBlockIndex) (n n' : Node V D) :
  (forall k, length k = 65%nat -> nthz k 0 = 4 -> IsFullyValid k = true -> DecompressKey ((2 + Z.land (nthz k 64) 1) :: take 32 (drop 1 k)) = Some k) ->
  (forall v, length (Hash256 v) = 32%nat) ->
  cache_ok (view n) -> entry_fits (heap (tree n)) pindex b prev -> block_fits (block_vtx block) (cache_utxo (view n)) -> settled_set (cache_utxo (view n)) ->
  size (block_vtx block) <= MAX_SIZE -> Block_GetHash (block_header block) <> hashGenesisBlock P ->
  ConnectBlock Verify CAmount_of IsFullyValid P G block pindex fHash false n = (Ok Accepted, n') ->
  fst (ScState.setRoot (parent_root prev) (pState n')) = Ok tt ->
  exists n'', DisconnectBlock DecompressKey block pindex n' = (Ok DISCONNECT_OK, n'') /\ cache_ok (view n'') /\
    (forall o, cache_utxo (view n'') o = cache_utxo (view n) o) /\ hashBlock (view n'') = phashBlock prev /\
    cache_best (view n) = phashBlock prev /\ pState n'' = snd (ScState.setRoot (parent_root prev) (pState n')).
Proof. intros. by eapply disconnect_run. Qed.
Lemma disconnect_undoes_connect_witness : fst connects_new = Ok Accepted /\
  exists n'', DisconnectBlock toy_expand new_block 3%nat (snd connects_new) = (Ok DISCONNECT_OK, n'') /\
    cache_utxo (view n'') here = Some penny /\ hashBlock (view n'') = replicate 32 13.
Proof.
  split; [vm_compute; reflexivity|].
  destruct (disconnect_undoes_connect (fun _ _ _ => false) id toy_valid toy_expand quiet_chain quiet_globals new_block 3%nat true new_entry parent_entry
    fresh_node (snd connects_new) toy_recovered) as (n'' & E & _ & Hu & Hb & _).
  - reflexivity.
  - exact fresh_ok.
  - exact entry_four.
  - exact new_block_fits.
  - exact new_settled.
  - vm_compute. discriminate.
  - vm_compute. discriminate.
  - vm_compute. reflexivity.
  - vm_compute. reflexivity.
  - exists n''. split; [exact E|]. split; [rewrite Hu; vm_compute; reflexivity|exact Hb].
Defined.

(** C6: An accepted block creates no more than its subsidy.  Let [ConnectBlock] accept a block,
    not the first of the chain and not only to test it, at an entry of the index
    that names a parent and a file, has no undo information yet and a height above
    0 and below [2^30], on a lawful view.  The block is a coinbase and ordinary
    transactions with different ids, of none of which the view has an output; each
    spends no output twice, has at most [2^32] outputs with values from 0 to below [2^60], and
    no more inputs than an undo record may list.  List the coins of the view before
    in a finite map.  The coins after the block are listed by one whose values add
    up to at most those before plus [GetBlockSubsidy] of the block's height. *)
Theorem connect_conserves_money {V} `{CV : !CCoinsView V} `{CL : !CCoinsViewLaws V} {D} `{TD : !ScState.TrieDB D} `{PL : !ScVm.Platform} `{SC : !ScriptCrypto}
    (Verify : bytes -> bytes -> bytes -> bool) (CAmount_of : Z -> Z) (IsFullyValid : bytes -> bool)
    (P : ChainParams) (G : Globals) (block : CBlock) (pindex : ptr) (fHash : bool) (b prev : CBlockIndex) (n n' : Node V D) (m : gmap COutPoint Coin) :
  cache_ok (view n) -> entry_fits (heap (tree n)) pindex b prev -> block_fits (block_vtx block) (cache_utxo (view n)) ->
  Block_GetHash (block_header block) <> hashGenesisBlock P ->
  ConnectBlock Verify CAmount_of IsFullyValid P G block pindex fHash false n = (Ok Accepted, n') ->
  (forall o, m !! o = cache_utxo (view n) o) ->
  exists subsidy m', GetBlockSubsidy (fRegTest P) (nSubsidyHalvingInterval P) (Chain.nHeight b) = Ok subsidy /\
    (forall o, m' !! o = cache_utxo (view n') o) /\ worth m' <= worth m + subsidy.
Proof.
  intros Hn He Hb Hgen E Hm.
  destruct (ConnectBlock_inv _ _ _ _ _ _ _ _ _ _ _ _ Hn He Hb Hgen E) as (us & nk & p & [_ Hcon Hhold _ Hfee _ [(sub & cb & Hsub & Hcb & Hle) Hview _]]).
  destruct (worth_apply_all _ _ _ m _ Hm (bf_fits _ _ Hb) Hcon) as (m' & Hm' & Hw). exists sub, m'. split; [done|]. split.
  - intros o. rewrite Hview, Hm'. symmetry. apply (holds_set _ _ _ (phashBlock b)) in Hhold. apply Hhold.
  - destruct (bf_coinbase _ _ Hb) as (c & others & Evtx & _). rewrite Evtx in Hw, Hcb, Hfee. injection Hcb as ->. cbn [concat app tl] in Hw, Hfee.
    change (paid_all (cb :: others)) with (paid cb + paid_all others) in Hw. lia.
Qed.
Lemma connect_conserves_money_witness : exists m', (forall o, m' !! o = cache_utxo (view (snd connects_new)) o) /\ worth m' <= 50 + 8 * COIN.
Proof.
  destruct (connect_conserves_money (fun _ _ _ => false) id toy_valid quiet_chain quiet_globals new_block 3%nat true new_entry parent_entry
    fresh_node (snd connects_new) {[here := penny]}) as (sub & m' & Es & Hm & Hw).
  - exact fresh_ok.
  - exact entry_four.
  - exact new_block_fits.
  - vm_compute. discriminate.
  - vm_compute. reflexivity.
  - intros o. rewrite fresh_coins. destruct (decide (o = here)) as [->|Hne]; [by rewrite lookup_singleton_eq|by rewrite lookup_singleton_ne].
  - exists m'. split; [exact Hm|]. vm_compute in Es. injection Es as <-. exact Hw.
Defined.

(** A transaction that names the same coin twice: [CheckBlock] does not look for that, the
    inputs count twice, and spending the coin a second time returns true. *)
Definition spends_twice : CTransaction :=
  mkTx 1 [mkTxIn here [] 0xffffffff []; mkTxIn here [] 0xffffffff []] [mkTxOut 100 [0x52]] 0 (replicate 32 0x22).
Example duplicate_inputs_spend :
  CheckTransaction spends_twice false = None /\ is_Some (CheckTransaction spends_twice true) /\
  fst (CheckTxInputs spends_twice 3 (view fresh_node)) = Ok None /\
  fst (UpdateCoins spends_twice 3 (view fresh_node)) = Ok [penny; Coin_Clear penny].
Proof. split; [vm_compute; reflexivity|]. split; [vm_compute; eexists; reflexivity|]. split; vm_compute; reflexivity. Qed.
